(* ===== verification/_CoqProject ===== *)
-Q . S2P
Prelude.v
Errors.v
MvccCodec.v
Hlc.v
WalFormat.v
WriteBuffer.v
DiskWal.v
TxManager.v
SnapshotIsolation.v
TxFailure.v
Recovery.v
OffHeap.v
LockFreeQueue.v
LobCache.v
LobStore.v
LobTiers.v
ChunkFormat.v
ChunkStore.v
ChunkRestore.v
Checkpoint.v
KVStore.v
PersistWal.v
PersistCheckpoint.v
PageLayout.v
LeafPage.v
LeafMap.v
NodePage.v
Merge.v
NodeMap.v
BTree.v
TreeOps.v
TreeShape.v
TreeInv.v
TreeHeap.v
TreeSplit.v
TreeLeafSplit.v
TreeWrite.v
TreeStore.v
Epoch.v
MpscQueue.v
TaskScheduler.v
SchedulerLoop.v
SchedulerManager.v
