(* ===== verification/Prelude.v ===== *)
(** * NexKV: the verification library

    NexKV is a key-value store in Go: a copy-on-write B+Tree on off-heap pages,
    multi-version transactions over it, a write-ahead log with recovery, LOB
    files, chunk files with checkpoints, and a task scheduler.  This library
    models these parts as the code has them and proves what each promises.  Paths
    below are under src/internal/infrastructure/ unless another is given.

    ** Conventions

    An integer is a [Z]; where the width matters the wrap-around is written out
    ([u8] ... [u64], [i64] below).  A slice is a [bytes] (a list of byte values),
    a nil-able one an [option bytes].  Code that changes state is a function from
    the state to a new state and an outcome, in the monad of its component
    (fallible calls return a value of [outcome] or a sum).  An error is a sentinel
    with or without details: fmt.Errorf and errors.Wrap keep the chain that
    errors.Is looks at, printed numbers are dropped; Errors.v has the package
    itself and proves this abstraction right.  A run-time panic is an outcome of
    its own.  Interfaces of the code are classes or records with laws, which
    the files of their implementations discharge.  Disks, clocks, map iteration
    orders and user functions are parameters or oracles that range over all
    behaviours.

    ** The parts, and where they are

    This file: integers, bytes, errors, list and map lemmas, the shared tactics.
    Errors.v: src/pkg/errors/errors.go.

    Values and clocks.  MvccCodec.v: storage/mvcc/codec.go and lob.go, the value
    format and the routing of large values.  Hlc.v: the hybrid logical clock in
    src/internal/domain/model/hlc.go, clock/hlc.go and the application clock.

    The log.  WalFormat.v: storage/wal/types.go and crc.go, the entry format.
    DiskWal.v: storage/wal/diskwal.go, segments over an operating system with
    inodes, faults and crashes.  Recovery.v: storage/wal/recovery.go and
    recovery_manager.go, over the storage of TxManager.v.

    Transactions.  WriteBuffer.v: storage/mvcc/write_buffer.go and
    wal_integration.go.  TxManager.v: storage/mvcc/transaction.go, the registry,
    the time stamps, the key locks and the garbage collector.
    SnapshotIsolation.v and TxFailure.v: what the engine guarantees, and what a
    failed commit leaves.

    Pages.  OffHeap.v: storage/offheap/page_manager.go over a flat memory.
    LockFreeQueue.v: storage/offheap/lockfree_queue.go, whose list OffHeap.v takes
    for the free list.  PageLayout.v: storage/offheap/page_layout.go.  LeafPage.v,
    LeafMap.v: storage/btree/leaf_page.go.  NodePage.v, NodeMap.v:
    storage/btree/node_page.go and children_cache.go.  Merge.v:
    storage/btree/merge.go.

    The tree.  BTree.v: references, descent, splits and merges of
    storage/btree/{page_ref,root_ref,search,operations,merge_ops}.go.  TreeOps.v:
    the write template and the operations of storage/btree/{operations,btree,
    set_with_retry,storage_adapter}.go.  TreeShape.v, TreeInv.v, TreeHeap.v,
    TreeSplit.v, TreeLeafSplit.v, TreeWrite.v, TreeStore.v: the invariant of the
    tree in memory and its preservation, up to the store as a map.  Epoch.v:
    storage/btree/epoch.go.

    Large objects.  LobCache.v: the descriptor cache of storage/lob/file_store.go,
    LobStore.v: the store of files, LobTiers.v: both managers under the codec.

    Chunks and checkpoints.  ChunkFormat.v: positions, page frames and headers.
    ChunkStore.v: storage/chunk/disk_chunk_manager.go, chunk_file.go and
    chunk_compactor.go.  ChunkRestore.v: closing and restoring.  Checkpoint.v:
    storage/checkpoint/checkpoint_manager.go over the log and the chunks.
    KVStore.v, PersistWal.v, PersistCheckpoint.v: the decorators of a store in
    storage/persist/.

    Tasks.  MpscQueue.v: concurrency/ringbuf.go.  TaskScheduler.v,
    SchedulerLoop.v, SchedulerManager.v: concurrency/task_scheduler.go, the
    tasks and the order of a round, the loop of a core, and the manager.

    How they meet: TxManager.v calls a storage class that TreeOps.v's adapter is
    the code of; MvccCodec.v takes the two LOB managers that LobTiers.v
    provides; Recovery.v replays what WalFormat.v and WriteBuffer.v encode;
    Checkpoint.v runs on the states of DiskWal.v and ChunkStore.v; PersistWal.v on
    DiskWal.v; the pages of LeafPage.v and NodePage.v live in OffHeap.v's memory,
    and the pages BTree.v retires are those of Epoch.v.

    ** What is proved

    Reads and commits.  Get under every interleaving of transactions returns what
    a full version history holds at the snapshot, as far as the two stored
    versions reach; a failed commit leaves the latest values; pessimistic
    writers exclude each other.
    Durability.  A restarted log has a prefix of the entries with all synced ones;
    a torn log is read up to the tear; replaying twice replays nothing; entries
    and values round trip and a corrupted byte is reported; LOB files survive a
    crash when fsync is on; a closed chunk store is restored; the decorated store
    logs in order.
    Maps.  Leaf pages, the whole tree, LOB files and chunks refine finite maps, on
    every branch, errors included; the descriptor cache refines an LRU list; the
    lock-free queue is linearizable.
    Termination and bounds.  The descent ends; the binary search on a page is
    right; a lone queue operation returns; a stopped scheduler loop returns; an
    epoch pass frees everything when no reader is active; the core an item is
    sent to exists.
    Exclusion.  A page is handed out once; no page is freed under a reader; no
    borrowed descriptor is closed; one background save at a time; the scheduler
    neither loses nor doubles an item while its ring suffices.
    What does not hold is stated as theorems too, under the name of what goes
    wrong: lost wake-ups, items that a batch drops, chunks that are lost without
    Close, a checkpoint that cuts its own record away.

    ** Fuel and bounds

    A loop that is not structural has fuel, and a theorem or lemma that the fuel
    suffices: the descent has one unit per reference and one more; writeLoop has
    maxRetries, the number of attempts the code makes; the parent CAS loop 50 and
    the root merge loop 100, as in the code; batch loops one per pair; overflow
    chains one per page; nextClearBit 64 per word; a chunk scan its size over the
    frame size and one; the bitmap loop 16, the width of the bitmap; a lone queue
    operation 20 accesses; draining one per item.  The tree theorems ask for three
    times the height and five free pages per write, more than a cascade of
    splits takes.

    ** Not modelled, and why

    The operations of the tree run one at a time: its references keep their
    addresses and compare-and-swap, but other goroutines between two accesses of
    a writer are not modelled, except in Epoch.v and LockFreeQueue.v, which are
    about interleavings.  The tree theorems are about trees without epoch
    manager; merges after deletes run only with one, and are modelled without
    those theorems.  Crash models keep directory operations and take unsynced
    data away from the end of a file.  Addresses of objects are never reused
    while the model runs, as the garbage collector promises.  Metrics, tracing,
    logging, pools of objects, back-off sleeps, tickers and the mmap system calls
    have no effect on what is proved and are left out.  The compaction pass over
    the leaves and the batch dispatcher are not modelled, nor are the network
    (transport, RPC, discovery: I/O over libp2p), the two goroutine-pool
    executors, commands, benchmarks and the test framework. *)

From stdpp Require Import base list gmap strings sorting.
From Stdlib Require Import ZArith Lia.

Local Open Scope Z_scope.

(** ** Machine integers of Go, as [Z] with their wrap-around *)

Definition u8 (z : Z) : Z := z mod 2 ^ 8.
Definition u16 (z : Z) : Z := z mod 2 ^ 16.
Definition u32 (z : Z) : Z := z mod 2 ^ 32.
Definition u64 (z : Z) : Z := z mod 2 ^ 64.

(** Conversion to [int64]: two's complement. *)
Definition i64 (z : Z) : Z := (z + 2 ^ 63) mod 2 ^ 64 - 2 ^ 63.

Definition is_u8 (z : Z) : Prop := 0 <= z < 2 ^ 8.
Definition is_u16 (z : Z) : Prop := 0 <= z < 2 ^ 16.
Definition is_u32 (z : Z) : Prop := 0 <= z < 2 ^ 32.
Definition is_u64 (z : Z) : Prop := 0 <= z < 2 ^ 64.
Definition is_i64 (z : Z) : Prop := - 2 ^ 63 <= z < 2 ^ 63.

Lemma u8_id z : is_u8 z -> u8 z = z.
Proof. apply Z.mod_small. Qed.
Lemma u16_id z : is_u16 z -> u16 z = z.
Proof. apply Z.mod_small. Qed.
Lemma u32_id z : is_u32 z -> u32 z = z.
Proof. apply Z.mod_small. Qed.
Lemma u64_id z : is_u64 z -> u64 z = z.
Proof. apply Z.mod_small. Qed.
Lemma i64_id z : is_i64 z -> i64 z = z.
Proof. unfold is_i64, i64. intros. rewrite Z.mod_small; lia. Qed.
Lemma u16_range z : is_u16 (u16 z).
Proof. apply Z.mod_pos_bound. lia. Qed.
Lemma u32_range z : is_u32 (u32 z).
Proof. apply Z.mod_pos_bound. lia. Qed.
Lemma u64_range z : is_u64 (u64 z).
Proof. apply Z.mod_pos_bound. lia. Qed.
Lemma i64_u64 z : is_i64 z -> i64 (u64 z) = z.
Proof.
  unfold is_i64, i64, u64. intros H.
  rewrite Zplus_mod_idemp_l, Z.mod_small; lia.
Qed.

(** Two bit fields side by side. *)
Lemma or_shift_add a b n : 0 <= n -> 0 <= b < 2 ^ n -> Z.lor (Z.shiftl a n) b = a * 2 ^ n + b.
Proof.
  intros Hn Hb.
  assert (H0 : Z.land (Z.shiftl a n) b = 0).
  { apply Z.bits_inj'. intros i Hi. rewrite Z.land_spec, Z.bits_0.
    destruct (Z.ltb_spec i n).
    - by rewrite Z.shiftl_spec_low by lia.
    - rewrite <- (Z.mod_small b (2 ^ n)) by lia.
      rewrite Z.mod_pow2_bits_high by lia. apply andb_false_r. }
  rewrite <- Z.shiftl_mul_pow2 by lia.
  rewrite <- (Z.lxor_lor _ _ H0). symmetry. by apply Z.add_nocarry_lxor.
Qed.

(** ** Outcomes of Go code: a value, an [error], or a run-time panic *)

(** Sentinel errors of pkg/errors that the modelled code returns. *)
Inductive sentinel : Set :=
| ErrMVCCKeyNotFound | ErrMVCCValueTooShort | ErrMVCCInvalidFlag
| ErrMVCCZeroTimestamp | ErrMVCCLockTimeout | ErrMVCCTxCommitted
| ErrMVCCTxRolledBack | ErrMVCCTxPrepareCorrupted | ErrMVCCPanicRecovered
| ErrMVCCGetError | ErrMVCCPutError | ErrMVCCDeleteError
| ErrWALClosed | ErrWALEntryCorrupted | ErrWALChecksumMismatch
| ErrWALTruncatedEntry | ErrWALInvalidConfig | ErrWALIOError
| ErrBTreeValidationError | ErrBTreeDuplicateKey | ErrBTreeKeyNotFound
| ErrBTreeNotImplemented | ErrBTreeInvalidPage | ErrBTreeBorrowSourceEmpty
| ErrBTreeCASConflict | ErrBTreeRetry | ErrBTreeCASRetryExhausted
| ErrBTreeClosed | ErrBTreePageFreed | ErrBTreeSearchError
| ErrOffHeapPageFull | ErrOffHeapConstraintViolation
| ErrOffHeapMMapExceedsLimit | ErrOffHeapInvalidRange | ErrOffHeapInvalidPageID | ErrOffHeapOutOfMemory
| ErrClockMarshalNil | ErrClockInvalidSize
| ErrMessageTooLarge | ErrInvalidMessage
| ErrChunkInvalidHeader | ErrChunkCRCMismatch | ErrChunkPageNotFound | ErrChunkClosed
| ErrChunkNilDestination | ErrChunkInvalidLength | ErrChunkIDExhausted | ErrChunkHeaderError
| ErrChunkFormatError | ErrChunkNotFound | ErrCheckpointNilRoot | ErrCtxDone
| OSError (* any error value of package os *)
| NumError (* an error of package strconv *)
| PlainError (* an error made by fmt.Errorf around no other *).

#[export] Instance sentinel_eq_dec : EqDecision sentinel.
Proof. solve_decision. Defined.

(** An [error] value: a bare sentinel, or a [*NexError] around one.  The two
    are different pointers, which matters where the code compares with [==]. *)
Inductive gerr : Set :=
| Sentinel (s : sentinel)
| NexError (s : sentinel) (details : string).

#[export] Instance gerr_eq_dec : EqDecision gerr.
Proof. solve_decision. Defined.

(** [errpkg.Wrap]: a fresh *NexError; details of a wrapped one are merged. *)
Definition mergeNexError (err : gerr) (details : string) : gerr :=
  match err with
  | NexError s d =>
      if negb (String.eqb d "") && negb (String.eqb details "")
      then NexError s (String.append d (String.append "; " details))
      else if negb (String.eqb details "") then NexError s details
      else NexError s d
  | Sentinel s => NexError s details
  end.
Definition Wrap (err : gerr) (details : string) : gerr := mergeNexError err details.

(** [errors.Is(err, s)]. *)
Definition IsErr (err : gerr) (s : sentinel) : bool :=
  match err with Sentinel t | NexError t _ => bool_decide (t = s) end.

Inductive outcome (A : Type) : Type :=
| Ret (a : A)
| Fail (e : gerr)
| Panic.
Arguments Ret {A} a.
Arguments Fail {A} e.
Arguments Panic {A}.

#[export] Instance outcome_ret : MRet outcome := @Ret.
#[export] Instance outcome_bind : MBind outcome := fun A B f m =>
  match m with Ret a => f a | Fail e => Fail e | Panic => Panic end.

#[export] Instance outcome_eq_dec {A} `{EqDecision A} : EqDecision (outcome A).
Proof. solve_decision. Defined.

Lemma bind_ret {A B} (a : A) (f : A -> outcome B) : (x ← Ret a; f x) = f a.
Proof. reflexivity. Qed.
Lemma bind_fail {A B} e (f : A -> outcome B) : (x ← Fail e; f x) = Fail e.
Proof. reflexivity. Qed.

(** ** Byte strings and Go slices *)

Abbreviation bytes := (list Z).

Definition bytes_ok (bs : bytes) : Prop := Forall is_u8 bs.

Definition zlen {A} (l : list A) : Z := Z.of_nat (length l).
Definition ztake {A} (n : Z) (l : list A) : list A := take (Z.to_nat n) l.
Definition zdrop {A} (n : Z) (l : list A) : list A := drop (Z.to_nat n) l.
Definition zeros (n : Z) : bytes := replicate (Z.to_nat n) 0.

(** [append(l[:i], append([]A{x}, l[i:]...)...)] and removal of the element [i]. *)
Definition insert_at {A} (i : nat) (x : A) (l : list A) : list A := take i l ++ x :: drop i l.
Definition remove_at {A} (i : nat) (l : list A) : list A := take i l ++ drop (S i) l.

(** [l[lo:hi]]; the capacity of the slice is taken to be its length. *)
Definition slice {A} (l : list A) (lo hi : Z) : outcome (list A) :=
  if (0 <=? lo) && (lo <=? hi) && (hi <=? zlen l)
  then Ret (ztake (hi - lo) (zdrop lo l)) else Panic.

(** [l[i]]. *)
Definition index {A} (l : list A) (i : Z) : outcome A :=
  if 0 <=? i then
    match l !! Z.to_nat i with Some x => Ret x | None => Panic end
  else Panic.

(** Big-endian integers of encoding/binary. *)
Fixpoint be_enc (n : nat) (v : Z) : bytes :=
  match n with
  | O => []
  | S n' => be_enc n' (v / 256) ++ [v mod 256]
  end.

Definition be_dec (bs : bytes) : Z :=
  fold_left (fun acc b => acc * 256 + b) bs 0.

(** [binary.BigEndian.UintN(buf[off:])]. *)
Definition be_at (n : nat) (buf : bytes) (off : Z) : outcome Z :=
  bs ← slice buf off (off + Z.of_nat n); Ret (be_dec bs).

(** [binary.BigEndian.PutUintN(buf[off:], v)] and any write that must fit. *)
Definition write_at (buf : bytes) (off : Z) (src : bytes) : outcome bytes :=
  if (0 <=? off) && (off + zlen src <=? zlen buf)
  then Ret (ztake off buf ++ src ++ zdrop (off + zlen src) buf) else Panic.

(** [copy(buf[off:], src)]: copies what fits. *)
Definition copy_at (buf : bytes) (off : Z) (src : bytes) : outcome bytes :=
  if (0 <=? off) && (off <=? zlen buf)
  then write_at buf off (ztake (zlen buf - off) src) else Panic.

(** *** Lengths *)

Lemma zlen_nonneg {A} (l : list A) : 0 <= zlen l.
Proof. unfold zlen. lia. Qed.
Lemma zlen_nil {A} : zlen (@nil A) = 0.
Proof. reflexivity. Qed.
Lemma zlen_cons {A} (x : A) l : zlen (x :: l) = 1 + zlen l.
Proof. unfold zlen. cbn [length]. lia. Qed.
Lemma zlen_app {A} (l k : list A) : zlen (l ++ k) = zlen l + zlen k.
Proof. unfold zlen. rewrite length_app. lia. Qed.
Lemma zlen_le_0 {A} (l : list A) : zlen l <= 0 -> l = [].
Proof. destruct l; [done|]. unfold zlen. cbn [length]. lia. Qed.
Lemma zlen_zeros n : 0 <= n -> zlen (zeros n) = n.
Proof. unfold zlen, zeros. rewrite length_replicate. lia. Qed.
Lemma length_be_enc n v : length (be_enc n v) = n.
Proof.
  revert v. induction n as [|n IH]; intros v; [done|].
  cbn [be_enc]. rewrite length_app, IH. cbn [length]. lia.
Qed.
Lemma zlen_be_enc n v : zlen (be_enc n v) = Z.of_nat n.
Proof. unfold zlen. by rewrite length_be_enc. Qed.
Lemma zlen_ztake {A} n (l : list A) :
  0 <= n <= zlen l -> zlen (ztake n l) = n.
Proof. unfold zlen, ztake. rewrite length_take. lia. Qed.
Lemma zlen_zdrop {A} n (l : list A) :
  0 <= n <= zlen l -> zlen (zdrop n l) = zlen l - n.
Proof. unfold zlen, zdrop. rewrite length_drop. lia. Qed.

Lemma zlen_zeros_max n : zlen (zeros n) = Z.max 0 n.
Proof. unfold zlen, zeros. rewrite length_replicate. lia. Qed.
Lemma zlen_ztake_min {A} n (l : list A) :
  zlen (ztake n l) = Z.min (Z.max 0 n) (zlen l).
Proof. unfold zlen, ztake. rewrite length_take. lia. Qed.
Lemma zlen_zdrop_max {A} n (l : list A) :
  zlen (zdrop n l) = Z.max 0 (zlen l - Z.max 0 n).
Proof. unfold zlen, zdrop. rewrite length_drop. lia. Qed.

Create Rewrite HintDb zlen_db.
#[export] Hint Rewrite @zlen_nil @zlen_cons @zlen_app zlen_be_enc : zlen_db.
#[export] Hint Rewrite zlen_zeros_max @zlen_ztake_min @zlen_zdrop_max : zlen_db.

(** Puts lengths in normal form and solves the arithmetic goal. *)
Ltac zlen_facts :=
  repeat match goal with
  | |- context [zlen ?l] =>
      is_var l; lazymatch goal with
      | _ : 0 <= zlen l |- _ => fail
      | _ => pose proof (zlen_nonneg l)
      end
  end.
Ltac zlen_solve :=
  autorewrite with zlen_db in *; zlen_facts; try lia.

(** *** Slices of concatenations *)

Lemma ztake_app_exact {A} n (l k : list A) : n = zlen l -> ztake n (l ++ k) = l.
Proof. intros ->. unfold ztake, zlen. rewrite Nat2Z.id. apply take_app_length. Qed.
Lemma zdrop_app_exact {A} n (l k : list A) : n = zlen l -> zdrop n (l ++ k) = k.
Proof. intros ->. unfold zdrop, zlen. rewrite Nat2Z.id. apply drop_app_length. Qed.
Lemma ztake_all {A} n (l : list A) : zlen l <= n -> ztake n l = l.
Proof. unfold ztake, zlen. intros. apply take_ge. lia. Qed.
Lemma zdrop_all {A} n (l : list A) : zlen l <= n -> zdrop n l = [].
Proof. unfold zdrop, zlen. intros. apply drop_ge. lia. Qed.
Lemma zdrop_0 {A} (l : list A) : zdrop 0 l = l.
Proof. reflexivity. Qed.
Lemma zdrop_zdrop {A} a b (l : list A) :
  0 <= a -> 0 <= b -> zdrop a (zdrop b l) = zdrop (b + a) l.
Proof. intros. unfold zdrop. rewrite drop_drop. f_equal. lia. Qed.
Lemma ztake_zdrop_id {A} n (l : list A) : ztake n l ++ zdrop n l = l.
Proof. apply take_drop. Qed.
Lemma zdrop_app_r {A} n (l k : list A) :
  zlen l <= n -> zdrop n (l ++ k) = zdrop (n - zlen l) k.
Proof.
  unfold zdrop, zlen. intros. rewrite drop_app_ge by lia. f_equal. lia.
Qed.
Lemma zdrop_zeros k n : 0 <= k <= n -> zdrop k (zeros n) = zeros (n - k).
Proof.
  intros. unfold zdrop, zeros. rewrite drop_replicate. f_equal. lia.
Qed.
Lemma zeros_app a b : 0 <= a -> 0 <= b -> zeros (a + b) = zeros a ++ zeros b.
Proof.
  intros. unfold zeros. rewrite Z2Nat.inj_add by lia. apply replicate_add.
Qed.

Lemma slice_spec {A} (l : list A) lo hi :
  0 <= lo <= hi -> hi <= zlen l -> slice l lo hi = Ret (ztake (hi - lo) (zdrop lo l)).
Proof.
  intros. unfold slice.
  by rewrite (proj2 (Z.leb_le _ _)), (proj2 (Z.leb_le lo hi)),
    (proj2 (Z.leb_le hi _)) by lia.
Qed.

Lemma slice_oob {A} (l : list A) lo hi :
  hi < lo \/ zlen l < hi -> slice l lo hi = Panic.
Proof.
  intros. unfold slice. destruct (0 <=? lo) eqn:?, (lo <=? hi) eqn:?,
    (hi <=? zlen l) eqn:?; simpl; try done; lia.
Qed.

(** Skips a prefix that lies wholly before the slice. *)
Lemma slice_skip {A} (l k : list A) lo hi :
  zlen l <= lo -> slice (l ++ k) lo hi = slice k (lo - zlen l) (hi - zlen l).
Proof.
  intros. pose proof (zlen_nonneg l).
  destruct (decide (lo <= hi /\ hi <= zlen l + zlen k)).
  - rewrite !slice_spec by (rewrite ?zlen_app; lia).
    rewrite zdrop_app_r by lia. do 2 f_equal. lia.
  - rewrite !slice_oob by (rewrite ?zlen_app; lia). done.
Qed.

(** Ignores what follows the slice. *)
Lemma slice_app_l {A} (l k : list A) lo hi :
  hi <= zlen l -> slice (l ++ k) lo hi = slice l lo hi.
Proof.
  intros H. unfold slice. pose proof (zlen_nonneg k). rewrite zlen_app.
  rewrite !(proj2 (Z.leb_le hi _)) by lia.
  destruct (Z.leb_spec 0 lo); [|done]. destruct (Z.leb_spec lo hi); [|done]. cbn [andb].
  f_equal. unfold ztake, zdrop. rewrite drop_app_le by (unfold zlen in *; lia).
  apply take_app_le. rewrite length_drop. unfold zlen in *. lia.
Qed.

Lemma slice_head {A} (l k : list A) lo hi :
  lo = 0 -> hi = zlen l -> slice (l ++ k) lo hi = Ret l.
Proof.
  intros -> ->. pose proof (zlen_nonneg l). pose proof (zlen_nonneg k).
  rewrite slice_spec by (rewrite ?zlen_app; lia).
  rewrite Z.sub_0_r, zdrop_0. f_equal. by apply ztake_app_exact.
Qed.

Lemma slice_mid {A} (a l k : list A) lo hi :
  lo = zlen a -> hi = zlen a + zlen l -> slice (a ++ l ++ k) lo hi = Ret l.
Proof.
  intros -> ->. rewrite slice_skip by lia. rewrite Z.sub_diag.
  apply slice_head; lia.
Qed.

Lemma slice_full {A} (l : list A) lo hi :
  lo = 0 -> hi = zlen l -> slice l lo hi = Ret l.
Proof. intros. rewrite <- (app_nil_r l) at 1. by apply slice_head. Qed.

Lemma slice_tail {A} (a l : list A) lo hi :
  lo = zlen a -> hi = zlen a + zlen l -> slice (a ++ l) lo hi = Ret l.
Proof.
  intros. rewrite <- (app_nil_r l) at 1. by apply slice_mid.
Qed.

Lemma slice_length {A} (l : list A) lo hi s :
  slice l lo hi = Ret s -> zlen s = hi - lo.
Proof.
  unfold slice. intros H.
  destruct (0 <=? lo) eqn:?, (lo <=? hi) eqn:?, (hi <=? zlen l) eqn:?;
    simpl in H; try done.
  injection H as <-. rewrite zlen_ztake; [done|].
  rewrite zlen_zdrop by lia. lia.
Qed.

Lemma slice_bytes_ok bs lo hi s : bytes_ok bs -> slice bs lo hi = Ret s -> bytes_ok s.
Proof.
  unfold slice, bytes_ok. intros Hok H. destruct (_ && _); [|done].
  injection H as <-. by apply Forall_take, Forall_drop.
Qed.

Lemma index_skip {A} (l k : list A) i :
  zlen l <= i -> index (l ++ k) i = index k (i - zlen l).
Proof.
  intros H. pose proof (zlen_nonneg l). unfold index.
  rewrite !(proj2 (Z.leb_le 0 _)) by lia.
  rewrite lookup_app_r by (unfold zlen in *; lia).
  replace (Z.to_nat i - length l)%nat with (Z.to_nat (i - zlen l))
    by (unfold zlen in *; lia). done.
Qed.

Lemma index_head {A} (x : A) l i : i = 0 -> index (x :: l) i = Ret x.
Proof. by intros ->. Qed.

Lemma index_head_app {A} (x : A) k i : i = 0 -> index ([x] ++ k) i = Ret x.
Proof. by intros ->. Qed.

(** *** Insertion and removal at an index *)

Lemma insert_at_length {A} i (x : A) l : (i <= length l)%nat -> length (insert_at i x l) = S (length l).
Proof. intros. unfold insert_at. rewrite length_app, length_take. cbn. rewrite length_drop. lia. Qed.

Lemma insert_at_lookup {A} i (x : A) l j y :
  (i <= length l)%nat -> insert_at i x l !! j = Some y ->
  ((j < i)%nat /\ l !! j = Some y) \/ (j = i /\ y = x) \/
  ((i < j)%nat /\ l !! (j - 1)%nat = Some y).
Proof.
  intros Hi. unfold insert_at. destruct (decide (j < i)%nat) as [Hlt|Hge].
  - rewrite lookup_app_l by (rewrite length_take; lia).
    rewrite lookup_take_lt by lia. auto.
  - rewrite lookup_app_r by (rewrite length_take; lia). rewrite length_take_le by lia.
    destruct (j - i)%nat as [|k] eqn:E; cbn [lookup list_lookup].
    + intros [= <-]. right. left. split; [lia|done].
    + intros H. change ((drop i l) !! k = Some y) in H. rewrite lookup_drop in H.
      right. right. split; [lia|]. by replace (j - 1)%nat with (i + k)%nat by lia.
Qed.

Lemma insert_at_perm {A} i (x : A) l : insert_at i x l ≡ₚ x :: l.
Proof. unfold insert_at. rewrite <- Permutation_middle. by rewrite take_drop. Qed.

Lemma remove_at_perm {A} i (x : A) l : l !! i = Some x -> l ≡ₚ x :: remove_at i l.
Proof.
  intros H. unfold remove_at. rewrite Permutation_middle.
  by rewrite <- (take_drop_middle l i x H) at 1.
Qed.

(** *** Big-endian integers: the two inverse laws *)

Lemma be_dec_snoc bs b : be_dec (bs ++ [b]) = be_dec bs * 256 + b.
Proof. unfold be_dec. by rewrite fold_left_app. Qed.

Lemma be_dec_enc n v : be_dec (be_enc n v) = v mod 256 ^ Z.of_nat n.
Proof.
  revert v. induction n as [|n IH]; intros v.
  - by rewrite Z.mod_1_r.
  - cbn [be_enc]. rewrite be_dec_snoc, IH, Nat2Z.inj_succ, Z.pow_succ_r by lia.
    rewrite Z.rem_mul_r by lia. lia.
Qed.

Lemma be_dec_enc8 v : be_dec (be_enc 8 v) = u64 v.
Proof. apply be_dec_enc. Qed.
Lemma be_dec_enc4 v : be_dec (be_enc 4 v) = u32 v.
Proof. apply be_dec_enc. Qed.
Lemma be_dec_enc2 v : be_dec (be_enc 2 v) = u16 v.
Proof. apply be_dec_enc. Qed.
Lemma be_dec_enc_id n v : 0 <= v < 256 ^ Z.of_nat n -> be_dec (be_enc n v) = v.
Proof. intros. by rewrite be_dec_enc, Z.mod_small. Qed.

Lemma be_dec_range bs : bytes_ok bs -> 0 <= be_dec bs < 256 ^ zlen bs.
Proof.
  induction bs as [|b bs IH] using rev_ind; intros Hok; [done|].
  apply Forall_app in Hok as [Hok Hb]. rewrite Forall_singleton in Hb.
  pose proof (zlen_nonneg bs) as Hlen.
  rewrite be_dec_snoc.
  replace (zlen (bs ++ [b])) with (Z.succ (zlen bs)) by (rewrite zlen_app; done).
  rewrite Z.pow_succ_r by lia.
  specialize (IH Hok). unfold is_u8 in Hb.
  generalize dependent (256 ^ zlen bs). intros p Hp. lia.
Qed.

Lemma be_enc_dec n bs : bytes_ok bs -> length bs = n -> be_enc n (be_dec bs) = bs.
Proof.
  revert bs. induction n as [|n IH]; intros bs Hok Hlen.
  - by apply nil_length_inv in Hlen as ->.
  - destruct bs as [|b bs _] using rev_ind; [done|].
    rewrite length_app in Hlen. cbn [length] in Hlen.
    apply Forall_app in Hok as [Hok Hb]. rewrite Forall_singleton in Hb.
    unfold is_u8 in Hb. cbn [be_enc]. rewrite be_dec_snoc.
    rewrite Z.div_add_l, (Z.div_small b), Z.add_0_r by lia.
    rewrite (Z.add_comm _ b), Z_mod_plus_full, (Z.mod_small b) by lia.
    by rewrite IH by (done || lia).
Qed.

(** Only the low bytes of the encoded integer matter. *)
Lemma be_enc_mod n v : be_enc n (v mod 256 ^ Z.of_nat n) = be_enc n v.
Proof.
  rewrite <- be_dec_enc. apply be_enc_dec; [|apply length_be_enc].
  revert v. induction n as [|n IH]; intros v; [constructor|].
  cbn [be_enc]. apply Forall_app. split; [apply IH|].
  apply Forall_singleton, Z.mod_pos_bound. lia.
Qed.

Lemma be_enc_mod_eq n v w :
  v mod 256 ^ Z.of_nat n = w mod 256 ^ Z.of_nat n -> be_enc n v = be_enc n w.
Proof. intros E. by rewrite <- be_enc_mod, E, be_enc_mod. Qed.

Lemma be_enc_ok n v : bytes_ok (be_enc n v).
Proof.
  revert v. induction n as [|n IH]; intros v; [constructor|].
  cbn [be_enc]. apply Forall_app. split; [apply IH|].
  apply Forall_singleton, Z.mod_pos_bound. lia.
Qed.
#[export] Hint Resolve be_enc_ok : core.

Lemma bytes_ok_app a b : bytes_ok (a ++ b) <-> bytes_ok a /\ bytes_ok b.
Proof. apply Forall_app. Qed.
Lemma bytes_ok_u8 z : bytes_ok [u8 z].
Proof. constructor; [|constructor]. apply Z.mod_pos_bound. lia. Qed.
#[export] Hint Resolve bytes_ok_u8 : core.

Lemma zeros_ok n : bytes_ok (zeros n).
Proof. apply Forall_replicate. unfold is_u8. lia. Qed.
#[export] Hint Resolve zeros_ok : core.

#[global] Arguments be_enc : simpl never.

(** *** Writing into a buffer *)

(** A write at the end of a prefix replaces the beginning of what follows. *)
Lemma write_at_mid a t off src :
  off = zlen a -> zlen src <= zlen t ->
  write_at (a ++ t) off src = Ret ((a ++ src) ++ zdrop (zlen src) t).
Proof.
  intros -> Hn. pose proof (zlen_nonneg a). pose proof (zlen_nonneg src).
  unfold write_at. rewrite zlen_app.
  rewrite (proj2 (Z.leb_le _ _)), (proj2 (Z.leb_le _ (_ + zlen t))) by lia.
  cbn [andb]. rewrite ztake_app_exact by done.
  rewrite zdrop_app_r by lia.
  replace (zlen a + zlen src - zlen a) with (zlen src) by lia.
  by rewrite app_assoc.
Qed.

Lemma copy_at_mid a t off src :
  off = zlen a ->
  copy_at (a ++ t) off src =
    Ret ((a ++ ztake (zlen t) src) ++ zdrop (zlen src) t).
Proof.
  intros ->. pose proof (zlen_nonneg a). pose proof (zlen_nonneg t).
  pose proof (zlen_nonneg src). unfold copy_at. rewrite zlen_app.
  rewrite (proj2 (Z.leb_le _ _)), (proj2 (Z.leb_le _ (_ + zlen t))) by lia.
  cbn [andb]. replace (zlen a + zlen t - zlen a) with (zlen t) by lia.
  destruct (decide (zlen src <= zlen t)) as [Hle|Hgt].
  - rewrite !ztake_all by lia. by apply write_at_mid.
  - rewrite write_at_mid by (rewrite ?zlen_ztake by lia; lia).
    rewrite zlen_ztake by lia. by rewrite !zdrop_all by lia.
Qed.

Lemma copy_at_exact a t off src :
  off = zlen a -> zlen t = zlen src -> copy_at (a ++ t) off src = Ret (a ++ src).
Proof.
  intros -> Ht. rewrite copy_at_mid, ztake_all, zdrop_all by (done || lia).
  by rewrite app_nil_r.
Qed.

(** A write into the zero tail of a partly filled buffer appends. *)
Lemma write_at_fill a n off src :
  off = zlen a -> zlen src <= n ->
  write_at (a ++ zeros n) off src = Ret ((a ++ src) ++ zeros (n - zlen src)).
Proof.
  intros -> Hn. pose proof (zlen_nonneg src).
  rewrite write_at_mid by (rewrite ?zlen_zeros by lia; lia).
  by rewrite zdrop_zeros by lia.
Qed.

Lemma write_at_zero n src :
  zlen src <= n -> write_at (zeros n) 0 src = Ret (src ++ zeros (n - zlen src)).
Proof. intros. by apply (write_at_fill [] n 0 src). Qed.

Lemma copy_at_fill a n off src :
  off = zlen a -> zlen src <= n ->
  copy_at (a ++ zeros n) off src = Ret ((a ++ src) ++ zeros (n - zlen src)).
Proof.
  intros -> Hn. pose proof (zlen_nonneg src).
  rewrite copy_at_mid by done. rewrite zlen_zeros by lia.
  by rewrite ztake_all, zdrop_zeros by lia.
Qed.

Lemma write_at_head old src rest :
  zlen old = zlen src -> write_at (old ++ rest) 0 src = Ret (src ++ rest).
Proof.
  intros He. pose proof (zlen_nonneg rest).
  rewrite (write_at_mid [] (old ++ rest)) by (rewrite ?zlen_app; done || lia).
  by rewrite zdrop_app_exact by lia.
Qed.

(** Runs a sequence of writes into a fresh zero buffer, slicing tactics. *)
Ltac fill_buffer :=
  repeat first
    [ rewrite bind_ret
    | rewrite write_at_zero by zlen_solve
    | rewrite write_at_fill by zlen_solve
    | rewrite copy_at_fill by zlen_solve ].

(** [be_at] of a field that sits whole in a concatenation. *)
Lemma be_at_slice n buf off s :
  slice buf off (off + Z.of_nat n) = Ret s -> be_at n buf off = Ret (be_dec s).
Proof. unfold be_at. by intros ->. Qed.

(** Reads inside and outside a buffer. *)
Lemma be_at_ok n buf off :
  0 <= off -> off + Z.of_nat n <= zlen buf -> exists v, be_at n buf off = Ret v.
Proof. intros. unfold be_at. rewrite slice_spec by lia. rewrite bind_ret. eauto. Qed.
Lemma be_at_oob n buf off : zlen buf < off + Z.of_nat n -> be_at n buf off = Panic.
Proof. intros. unfold be_at. by rewrite slice_oob by lia. Qed.
Lemma index_ok {A} (l : list A) i : 0 <= i < zlen l -> exists x, index l i = Ret x.
Proof.
  intros Hi. unfold index. rewrite (proj2 (Z.leb_le _ _)) by lia.
  destruct (lookup_lt_is_Some_2 l (Z.to_nat i)) as [x ->]; [unfold zlen in *; lia|eauto].
Qed.
Lemma index_oob {A} (l : list A) i : zlen l <= i -> index l i = Panic.
Proof.
  intros Hi. unfold index. destruct (0 <=? i); [|done].
  by rewrite lookup_ge_None_2 by (unfold zlen in *; lia).
Qed.

Ltac read_index :=
  repeat rewrite index_skip by zlen_solve;
  first [ rewrite index_head by zlen_solve | rewrite index_head_app by zlen_solve ].

Ltac read_slice :=
  repeat rewrite slice_skip by zlen_solve;
  first [ rewrite slice_head by zlen_solve | rewrite slice_full by zlen_solve ].

(** ** Lexicographic order of byte strings: [bytes.Compare], [sort.Strings] *)

Fixpoint bytes_compare (a b : bytes) : comparison :=
  match a, b with
  | [], [] => Eq
  | [], _ :: _ => Lt
  | _ :: _, [] => Gt
  | x :: a, y :: b =>
      match Z.compare x y with Eq => bytes_compare a b | r => r end
  end.

Definition bytes_lt (a b : bytes) : Prop := bytes_compare a b = Lt.
Definition bytes_le (a b : bytes) : Prop := bytes_compare a b <> Gt.

#[export] Instance bytes_lt_dec a b : Decision (bytes_lt a b).
Proof. unfold bytes_lt. apply _. Defined.
#[export] Instance bytes_le_dec a b : Decision (bytes_le a b).
Proof. unfold bytes_le. apply _. Defined.

Lemma bytes_compare_antisym a b : bytes_compare b a = CompOpp (bytes_compare a b).
Proof.
  revert b. induction a as [|x a IH]; intros [|y b]; try done. simpl.
  rewrite (Z.compare_antisym x y). destruct (x ?= y); simpl; auto.
Qed.

Lemma bytes_compare_eq a b : bytes_compare a b = Eq <-> a = b.
Proof.
  split.
  - revert b. induction a as [|x a IH]; intros [|y b] H; try done. simpl in H.
    destruct (Z.compare_spec x y); try done. subst. f_equal. auto.
  - intros ->. induction b as [|x b IH]; [done|]. simpl. by rewrite Z.compare_refl.
Qed.

Lemma bytes_lt_trans a b d : bytes_lt a b -> bytes_lt b d -> bytes_lt a d.
Proof.
  unfold bytes_lt. revert b d.
  induction a as [|x a IH]; intros [|y b] [|w d] H1 H2; try done. simpl in *.
  destruct (Z.compare_spec x y), (Z.compare_spec y w); try done; subst.
  - rewrite Z.compare_refl. eauto.
  - by rewrite (proj2 (Z.compare_lt_iff y w)).
  - by rewrite (proj2 (Z.compare_lt_iff x w)).
  - by rewrite (proj2 (Z.compare_lt_iff x w)) by lia.
Qed.

Lemma bytes_lt_irrefl a : ~ bytes_lt a a.
Proof. unfold bytes_lt. by rewrite (proj2 (bytes_compare_eq a a)). Qed.

#[export] Instance bytes_lt_strict : StrictOrder bytes_lt.
Proof. split; [exact bytes_lt_irrefl|exact bytes_lt_trans]. Qed.

Lemma bytes_compare_gt a b : bytes_compare a b = Gt <-> bytes_lt b a.
Proof.
  unfold bytes_lt. rewrite (bytes_compare_antisym a b).
  destruct (bytes_compare a b); simpl; split; congruence.
Qed.

Lemma bytes_le_lteq a b : bytes_le a b <-> bytes_lt a b \/ a = b.
Proof.
  unfold bytes_le, bytes_lt. rewrite <- bytes_compare_eq.
  destruct (bytes_compare a b); naive_solver.
Qed.

Lemma bytes_trichotomy a b : bytes_lt a b \/ a = b \/ bytes_lt b a.
Proof.
  unfold bytes_lt. rewrite (bytes_compare_antisym a b), <- bytes_compare_eq.
  destruct (bytes_compare a b); simpl; auto.
Qed.

#[export] Instance bytes_le_total : Total bytes_le.
Proof. intros a b. rewrite !bytes_le_lteq. pose proof (bytes_trichotomy a b). naive_solver. Qed.

#[export] Instance bytes_le_trans : Transitive bytes_le.
Proof.
  intros a b d. rewrite !bytes_le_lteq. intros [H1| ->] [H2| ->]; auto.
  left. by eapply bytes_lt_trans.
Qed.

#[export] Instance bytes_le_antisym : AntiSymm (=) bytes_le.
Proof.
  intros a b. rewrite !bytes_le_lteq. intros [H1|?] [H2|?]; try done.
  by destruct (bytes_lt_irrefl a (bytes_lt_trans _ _ _ H1 H2)).
Qed.

(** [sort.Strings]. *)
Definition SortStrings (ks : list bytes) : list bytes := merge_sort bytes_le ks.

Lemma SortStrings_perm ks : SortStrings ks ≡ₚ ks.
Proof. apply merge_sort_Permutation. Qed.

Lemma SortStrings_sorted ks : StronglySorted bytes_le (SortStrings ks).
Proof. apply StronglySorted_merge_sort; apply _. Qed.

(** *** Position of a key in a strictly sorted list *)

(** The number of keys below [key]: where a search for it ends. *)
Definition lower_bound (key : bytes) (ks : list bytes) : nat :=
  length (filter (fun k => bytes_lt k key) ks).

Abbreviation keys_sorted := (StronglySorted bytes_lt).

Lemma lower_bound_le key ks : (lower_bound key ks <= length ks)%nat.
Proof. apply length_filter. Qed.

Lemma filter_none_above key ks :
  Forall (fun k => ~ bytes_lt k key) ks -> filter (fun k => bytes_lt k key) ks = [].
Proof.
  induction 1 as [|k ks Hk _ IH]; [done|]. by rewrite filter_cons_False.
Qed.

Lemma lower_bound_spec key ks i k :
  keys_sorted ks -> ks !! i = Some k -> ((i < lower_bound key ks)%nat <-> bytes_lt k key).
Proof.
  intros Hs. revert i k. induction Hs as [|x ks Hs IH Hx]; intros i k Hi; [done|].
  unfold lower_bound. destruct (decide (bytes_lt x key)) as [Hlt|Hge].
  - rewrite filter_cons_True by done. cbn [length]. destruct i as [|i].
    + injection Hi as <-. split; [done|lia].
    + rewrite <- (IH i k Hi). unfold lower_bound. lia.
  - rewrite filter_cons_False by done. rewrite filter_none_above.
    + cbn. split; [lia|]. intros Hk. destruct Hge. destruct i as [|i]; [by injection Hi as <-|].
      rewrite Forall_forall in Hx. eapply bytes_lt_trans; [apply Hx|exact Hk].
      by eapply list_elem_of_lookup_2.
    + eapply Forall_impl; [exact Hx|]. intros y Hxy Hy. apply Hge. by eapply bytes_lt_trans.
Qed.

(** An index that separates the smaller keys from the others is the bound. *)
Lemma lower_bound_unique key ks n :
  keys_sorted ks -> (n <= length ks)%nat ->
  (forall i k, ks !! i = Some k -> (i < n)%nat -> bytes_lt k key) ->
  (forall i k, ks !! i = Some k -> (n <= i)%nat -> ~ bytes_lt k key) ->
  lower_bound key ks = n.
Proof.
  intros Hs Hn Hlo Hhi. pose proof (lower_bound_le key ks).
  destruct (Nat.lt_trichotomy (lower_bound key ks) n) as [Hlt|[?|Hgt]]; [|done|].
  - destruct (lookup_lt_is_Some_2 ks (lower_bound key ks)) as [k Hk]; [lia|].
    pose proof (proj2 (lower_bound_spec key ks _ k Hs Hk) (Hlo _ _ Hk Hlt)). lia.
  - destruct (lookup_lt_is_Some_2 ks n) as [k Hk]; [lia|].
    by destruct (Hhi n k Hk ltac:(lia)); apply (lower_bound_spec key ks n k Hs Hk).
Qed.

Lemma keys_sorted_lookup ks i j a b :
  keys_sorted ks -> ks !! i = Some a -> ks !! j = Some b -> (i < j)%nat -> bytes_lt a b.
Proof.
  intros Hs. revert i j. induction Hs as [|k ks _ IH Hk]; intros i j Hi Hj Hij; [done|].
  destruct j as [|j]; [lia|]. cbn in Hj. destruct i as [|i].
  - injection Hi as <-. rewrite Forall_forall in Hk. apply Hk. by eapply list_elem_of_lookup_2.
  - cbn in Hi. apply (IH i j); auto. lia.
Qed.

Lemma keys_sorted_nodup ks : keys_sorted ks -> NoDup ks.
Proof.
  induction 1 as [|k ks _ IH Hk]; constructor; [|done].
  intros Hin. rewrite Forall_forall in Hk. by destruct (bytes_lt_irrefl k (Hk k Hin)).
Qed.

(** ** Go methods on a mutable receiver: state passing with an outcome

    An error or a panic keeps the changes made before it. *)

Definition stM (S A : Type) : Type := S -> S * outcome A.

#[export] Instance stM_ret S : MRet (stM S) := fun A a s => (s, Ret a).
#[export] Instance stM_bind S : MBind (stM S) := fun A B f m s =>
  match m s with
  | (s', Ret a) => f a s'
  | (s', Fail e) => (s', Fail e)
  | (s', Panic) => (s', Panic)
  end.

Definition getS {S} : stM S S := fun s => (s, Ret s).
Definition putS {S} (s : S) : stM S unit := fun _ => (s, Ret tt).
Definition modifyS {S} (f : S -> S) : stM S unit := fun s => (f s, Ret tt).
Definition failS {S A} (e : gerr) : stM S A := fun s => (s, Fail e).
Definition liftS {S A} (o : outcome A) : stM S A := fun s => (s, o).

(** [if err := m; err != nil { return h err }]. *)
Definition onErr {S A} (m : stM S A) (h : gerr -> gerr) : stM S A := fun s =>
  match m s with
  | (s', Fail e) => (s', Fail (h e))
  | r => r
  end.

Lemma stM_bind_ret {S A B} (m : stM S A) (f : A -> stM S B) s s' a :
  m s = (s', Ret a) -> (x ← m; f x) s = f a s'.
Proof. unfold mbind, stM_bind. by intros ->. Qed.
Lemma stM_bind_fail {S A B} (m : stM S A) (f : A -> stM S B) s s' e :
  m s = (s', Fail e) -> (x ← m; f x) s = (s', Fail e).
Proof. unfold mbind, stM_bind. by intros ->. Qed.
Lemma stM_bind_panic {S A B} (m : stM S A) (f : A -> stM S B) s s' :
  m s = (s', Panic) -> (x ← m; f x) s = (s', Panic).
Proof. unfold mbind, stM_bind. by intros ->. Qed.
Lemma stM_bind_get {S B} (f : S -> stM S B) s : (x ← getS; f x) s = f s s.
Proof. reflexivity. Qed.
Lemma stM_bind_modify {S B} (g : S -> S) (f : unit -> stM S B) s :
  (x ← modifyS g; f x) s = f tt (g s).
Proof. reflexivity. Qed.
Lemma stM_bind_lift {S A B} (a : A) (f : A -> stM S B) s :
  (x ← liftS (Ret a); f x) s = f a s.
Proof. reflexivity. Qed.
Lemma stM_bind_assoc {S A B C} (m : stM S A) (f : A -> stM S B) (g : B -> stM S C) s :
  (x ← m; y ← f x; g y) s = (y ← (x ← m; f x); g y) s.
Proof. unfold mbind, stM_bind. by destruct (m s) as [s' [a|e|]]. Qed.
Lemma onErr_ret {S A} (m : stM S A) h s s' a :
  m s = (s', Ret a) -> onErr m h s = (s', Ret a).
Proof. unfold onErr. by intros ->. Qed.

Create Rewrite HintDb stM_db.
#[export] Hint Rewrite @stM_bind_get @stM_bind_modify @stM_bind_lift : stM_db.

(** *** Reasoning about calls *)

(** [m] runs from [s] without a panic; [Q] holds of a result, [E] after an error. *)
Definition wp {S A} (m : stM S A) (s : S) (Q : A -> S -> Prop) (E : S -> Prop) : Prop :=
  match m s with (s', Ret a) => Q a s' | (s', Fail _) => E s' | (_, Panic) => False end.

Section wp.
Context {S : Type}.
Implicit Types (s : S) (E : S -> Prop).

Lemma wp_ret {A} (a : A) s (Q : A -> S -> Prop) E : Q a s -> wp (mret a) s Q E.
Proof. done. Qed.
Lemma wp_fail {A} e s (Q : A -> S -> Prop) E : E s -> wp (failS e) s Q E.
Proof. done. Qed.
Lemma wp_bind {A B} (m : stM S A) (f : A -> stM S B) s Q E :
  wp m s (fun a s' => wp (f a) s' Q E) E -> wp (m ≫= f) s Q E.
Proof. unfold wp. unfold mbind, stM_bind. by destruct (m s) as [s' [a|e|]]. Qed.
Lemma wp_mono {A} (m : stM S A) s (Q Q' : A -> S -> Prop) (E E' : S -> Prop) :
  wp m s Q E -> (forall a s', Q a s' -> Q' a s') -> (forall s', E s' -> E' s') -> wp m s Q' E'.
Proof. unfold wp. intros H HQ HE. destruct (m s) as [s' [a|e|]]; auto. Qed.
Lemma wp_onErr {A} (m : stM S A) h s Q E : wp m s Q E -> wp (onErr m h) s Q E.
Proof. unfold wp, onErr. by destruct (m s) as [s' [a|e|]]. Qed.
Lemma wp_get {B} (f : S -> stM S B) s Q E : wp (f s) s Q E -> wp (getS ≫= f) s Q E.
Proof. intros H. by apply wp_bind. Qed.
Lemma wp_modify g s (Q : unit -> S -> Prop) E : Q tt (g s) -> wp (modifyS g) s Q E.
Proof. done. Qed.
Lemma wp_lift {A} (a : A) s (Q : A -> S -> Prop) E : Q a s -> wp (liftS (Ret a)) s Q E.
Proof. done. Qed.
End wp.
