(* ===== verification/Errors.v ===== *)
(** * Error values (pkg/errors/errors.go)

    The whole error package: its sentinels, the [NexError] type, the wrapping
    functions and the constructors, over Go's [error] interface with pointer
    identity and typed nil pointers.  The rest of the library uses the
    abstraction of Prelude.v, a sentinel with or without details; the last section
    proves that it behaves as the package does.

    Of the standard library: [stderrors.New], [stderrors.Is], the string builder,
    strconv's decimal numbers, and fmt.Sprintf for the verbs the package uses. *)

From stdpp Require Import base list strings pretty.
From Stdlib Require Import ZArith Lia Ascii.
From S2P Require Import Prelude.

Local Open Scope Z_scope.
Local Open Scope string_scope.

(** An address: of a package variable, or of an object made at run time. *)
Inductive loc := Global (name : string) | Heap (n : nat).
#[export] Instance loc_eq_dec : EqDecision loc.
Proof. solve_decision. Defined.

(** A value of the interface [error]: nil, a pointer made by [stderrors.New], a
    nil or non-nil [*NexError], or a pointer of a type of another package that
    may have a cause to unwrap. *)
Inductive error :=
| Nil
| ErrorString (p : loc) (msg : string)
| NexNil
| Nex (p : loc) (Err : error) (Details : string)
| Foreign (p : loc) (msg : string) (cause : error).
#[export] Instance error_eq_dec : EqDecision error.
Proof. solve_decision. Defined.

(** ** The sentinels, by the names of their variables *)

Definition runtimeSentinels : list (string * string) := [
  ("ErrCanceled", "operation canceled");
  ("ErrTimeout", "operation timeout");
  ("ErrCompleted", "operation already completed");
  ("ErrAlreadyCanceled", "operation already canceled");
  ("ErrInvalidParam", "invalid parameter");
  ("ErrTransportClosed", "transport: is closed");
  ("ErrAlreadyConnected", "transport: already connected");
  ("ErrConnectionFailed", "transport: connection failed");
  ("ErrNotConnected", "transport: not connected");
  ("ErrChannelClosed", "transport: channel is closed");
  ("ErrMessageTooLarge", "transport: message size exceeds limit");
  ("ErrInvalidMessage", "transport: invalid message format");
  ("ErrNodeNotFound", "transport: node not found");
  ("ErrPeerIDInvalid", "transport: invalid peer ID format");
  ("ErrAddrInvalid", "transport: invalid address format");
  ("ErrAddrTooLong", "transport: address too long");
  ("ErrAsyncExecFailed", "async: operation failed");
  ("ErrCallbackPanic", "async: callback panic recovered");
  ("ErrOperationAlreadyCompleted", "async: operation already completed");
  ("ErrOperationCanceled", "async: operation canceled");
  ("ErrCallbackIDEmpty", "async: callback ID cannot be empty");
  ("ErrCallbackNotFound", "async: callback not found");
  ("ErrCancelNotSupported", "async: cancel not supported");
  ("ErrDiscardNotSupported", "async: discard not supported");
  ("ErrPoolClosed", "concurrency: goroutine pool is closed");
  ("ErrPoolFull", "concurrency: goroutine pool is full");
  ("ErrTaskArgLengthMismatch", "concurrency: task and argument length mismatch");
  ("ErrTaskCanceled", "concurrency: task was canceled");
  ("ErrTaskTimeout", "concurrency: task timeout");
  ("ErrAllWorkersBusy", "concurrency: all workers are bound to different source IDs");
  ("ErrTooManyDelayedTasks", "concurrency: too many delayed tasks");
  ("ErrExecutorClosed", "concurrency: executor is closed");
  ("ErrExecutorNotFound", "concurrency: executor not found for requested mode");
  ("ErrSelectorClosed", "concurrency: selector is closed");
  ("ErrDuplicateExecutor", "concurrency: executor already registered for this mode");
  ("ErrInvalidConfig", "concurrency: invalid configuration");
  ("ErrQueueFull", "concurrency: queue full");
  ("ErrTaskPanic", "concurrency: task panic recovered");
  ("ErrMajorityFailed", "rpc: majority quorum not reached");
  ("ErrAllFailed", "rpc: all nodes failed");
  ("ErrPeerUnreachable", "rpc: peer unreachable");
  ("ErrNoHandler", "rpc: no handler registered");
  ("ErrCodecFailure", "rpc: codec failure");
  ("ErrStrategyNotMajority", "rpc: strategy satisfied but not majority");
  ("ErrInvalidStrategy", "rpc: invalid response strategy");
  ("ErrTargetsMsgsMismatch", "rpc: targets and msgs length mismatch");
  ("ErrInvalidQuorum", "rpc: invalid quorum value");
  ("ErrInvalidTimeout", "rpc: invalid timeout value");
  ("ErrEmptyPeers", "rpc: peers slice is empty");
  ("ErrNilConfig", "rpc: config is nil");
  ("ErrNilRPC", "rpc: rpc is nil");
  ("ErrChainFrozen", "middleware: chain is frozen");
  ("ErrRateLimitExceeded", "middleware: rate limit exceeded");
  ("ErrCircuitBreakerOpen", "middleware: circuit breaker is open");
  ("ErrInvalidCompression", "middleware: invalid or unsupported compression");
  ("ErrCompressionFailed", "compressor: compression failed");
  ("ErrDecompressionFailed", "compressor: decompression failed");
  ("ErrUnsupportedType", "compressor: unsupported compression type");
  ("ErrDecompressionTooBig", "compressor: decompressed data exceeds size limit");
  ("ErrTestSetupFailed", "test: setup failed");
  ("ErrTestExecuteFailed", "test: execute failed");
  ("ErrTestVerifyFailed", "test: verify failed");
  ("ErrTestTeardownFailed", "test: teardown failed");
  ("ErrComponentNotFound", "test: component not found");
  ("ErrComponentExists", "test: component already exists");
  ("ErrDependencyNotMet", "test: dependency not met");
  ("ErrCircularDependency", "test: circular dependency detected");
  ("ErrClusterNotRunning", "test: cluster not running");
  ("ErrTestNodeNotFound", "test: node not found");
  ("ErrInvalidState", "test: invalid cluster state");
  ("ErrNotImplemented", "test: not implemented");
  ("ErrNotInitialized", "test: not initialized");
  ("ErrClockInvalidData", "clock: invalid data");
  ("ErrClockNilHLC", "clock: nil HLC");
  ("ErrClockMarshalNil", "clock: cannot marshal nil HLC");
  ("ErrClockInvalidSize", "clock: invalid HLC data size");
  ("ErrPerCoreExecutorClosed", "percore: executor is closed");
  ("ErrPerCoreQueueFull", "percore: task queue is full");
  ("ErrPerCoreInvalidCore", "percore: invalid core ID");
  ("ErrPerCoreShutdownTimeout", "percore: shutdown timeout");
  ("ErrPerCoreNotSupported", "percore: operation not supported");
  ("ErrRequestIDInvalidFormat", "request: invalid request id format");
  ("ErrRequestIDEmpty", "request: request id cannot be empty");
  ("ErrCPUInvalidCoreID", "affinity: invalid core ID");
  ("ErrCPUSetAffinityFailed", "affinity: sched_setaffinity failed");
  ("ErrCPUGetCurrentThread", "affinity: GetCurrentThread failed");
  ("ErrCPUSetAffinityMask", "affinity: SetThreadAffinityMask failed");
  ("ErrSourceIDEmpty", "source_id: cannot be empty");
  ("ErrSourceIDInvalidFormat", "source_id: must be in format {module}:{sub-module}:{action}");
  ("ErrSourceIDModuleEmpty", "source_id: module cannot be empty");
  ("ErrSourceIDSubModuleEmpty", "source_id: sub-module cannot be empty");
  ("ErrSourceIDActionEmpty", "source_id: action cannot be empty");
  ("ErrTaskModeUnknown", "task_mode: unknown task mode");
  ("ErrTaskAlreadyRegistered", "scheduler: task already registered");
  ("ErrTaskNotFound", "scheduler: task not found");
  ("ErrSchedulerNotStarted", "scheduler: not started");
  ("ErrSchedulerRunning", "scheduler: already running");
  ("ErrExecutionOrderConflict", "scheduler: execution order already registered");
  ("ErrQueueTooLong", "scheduler: queue too long")].

Definition storageSentinels : list (string * string) := [
  ("ErrBatchSubmitterClosed", "batch: submitter is closed");
  ("ErrBatchTimeout", "batch: submit timeout");
  ("ErrBatchTooLarge", "batch: submit too large");
  ("ErrPipelineClosed", "pipeline: closed");
  ("ErrPipelineShutdownTimeout", "pipeline: graceful shutdown timeout");
  ("ErrBTreeCASConflict", "btree: cas conflict after max retries");
  ("ErrBTreeRetry", "btree: retry operation");
  ("ErrBTreePageFreed", "btree: page already freed");
  ("ErrBTreePageNotInAO", "btree: page not in AO (checkpoint not yet run or page not persisted)");
  ("ErrBTreeKeyNotFound", "btree: key not found");
  ("ErrBTreeClosed", "btree: tree closed");
  ("ErrBTreeInvalidPage", "btree: invalid page");
  ("ErrBTreePageFull", "btree: page full");
  ("ErrBTreePageEmpty", "btree: page empty");
  ("ErrBTreeDuplicateKey", "btree: duplicate key");
  ("ErrBTreeNotImplemented", "btree: not implemented");
  ("ErrBTreeBorrowSourceEmpty", "btree: borrow source page is empty");
  ("ErrBTreeMergeNoSibling", "btree: merge requires sibling page");
  ("ErrBTreeCASRetryExhausted", "btree: CAS retry exhausted after max attempts");
  ("ErrBTreeValidationError", "btree: validation error");
  ("ErrBTreeSearchError", "btree: search error");
  ("ErrBTreeDebugError", "btree: debug error");
  ("ErrOffHeapAllocatorSizeInvalid", "offheap: allocator size must be positive");
  ("ErrOffHeapAllocExceedsSize", "offheap: alloc size exceeds allocator size");
  ("ErrOffHeapPageFull", "offheap: page full");
  ("ErrOffHeapMMapFailed", "offheap: mmap failed");
  ("ErrOffHeapMMapExceedsLimit", "offheap: mmap size exceeds 32-bit PageID limit");
  ("ErrOffHeapOutOfMemory", "offheap: out of memory");
  ("ErrOffHeapInvalidPageID", "offheap: invalid page ID");
  ("ErrOffHeapConstraintViolation", "offheap: constraint violation");
  ("ErrOffHeapCreateAllocatorFailed", "offheap: create allocator failed");
  ("ErrOffHeapAllocMemoryFailed", "offheap: allocate memory failed");
  ("ErrOffHeapInvalidRange", "offheap: invalid range");
  ("ErrOffHeapSystemError", "offheap: system error");
  ("ErrChunkInvalidHeader", "chunk: invalid chunk header");
  ("ErrChunkCRCMismatch", "chunk: crc mismatch");
  ("ErrChunkPageNotFound", "chunk: page not found");
  ("ErrChunkClosed", "chunk: chunk manager closed");
  ("ErrChunkNilDestination", "chunk: nil destination pointer");
  ("ErrChunkInvalidLength", "chunk: invalid page length");
  ("ErrChunkIDExhausted", "chunk: all chunk IDs exhausted");
  ("ErrChunkHeaderError", "chunk: header error");
  ("ErrChunkIOError", "chunk: I/O error");
  ("ErrChunkFormatError", "chunk: format error");
  ("ErrChunkInvalidParam", "chunk: invalid parameter");
  ("ErrChunkNotFound", "chunk: not found");
  ("ErrWALClosed", "wal: closed");
  ("ErrWALCorrupted", "wal: corrupted");
  ("ErrWALEntryCorrupted", "wal: entry corrupted");
  ("ErrWALChecksumMismatch", "wal: checksum mismatch");
  ("ErrWALLSNGap", "wal: lsn gap detected");
  ("ErrWALInvalidConfig", "wal: invalid config");
  ("ErrWALSegmentFull", "wal: segment full");
  ("ErrWALTruncatedEntry", "wal: truncated entry");
  ("ErrWALIOError", "wal: I/O error");
  ("ErrWALRecovery", "wal: recovery error");
  ("ErrMVCCKeyNotFound", "mvcc: key not found");
  ("ErrMVCCValueTooShort", "mvcc: value too short");
  ("ErrMVCCInvalidFlag", "mvcc: invalid flag");
  ("ErrMVCCZeroTimestamp", "mvcc: beginTS must be non-zero");
  ("ErrMVCCVersionChainConflict", "mvcc: version chain conflict");
  ("ErrMVCCConflict", "mvcc: conflict detected");
  ("ErrMVCCLockTimeout", "mvcc: key lock timeout");
  ("ErrMVCCTxCommitted", "mvcc: transaction already committed");
  ("ErrMVCCTxRolledBack", "mvcc: transaction already rolled back");
  ("ErrMVCCEncodeError", "mvcc: encode error");
  ("ErrMVCCSnapshotError", "mvcc: snapshot error");
  ("ErrMVCCTxPrepareError", "mvcc: tx prepare error");
  ("ErrMVCCApplyError", "mvcc: apply error");
  ("ErrMVCCRollbackError", "mvcc: rollback error");
  ("ErrMVCCPutError", "mvcc: put error");
  ("ErrMVCCGetError", "mvcc: get error");
  ("ErrMVCCDeleteError", "mvcc: delete error");
  ("ErrMVCCTxPrepareCorrupted", "mvcc: tx prepare corrupted");
  ("ErrMVCCPanicRecovered", "mvcc: panic recovered");
  ("ErrCheckpointNilRoot", "checkpoint: nil root page");
  ("ErrCheckpointEnumerate", "checkpoint: enumerate pages failed");
  ("ErrCheckpointAlloc", "checkpoint: allocate page failed");
  ("ErrCheckpointWrite", "checkpoint: write page failed");
  ("ErrCheckpointSync", "checkpoint: sync chunks failed");
  ("ErrCheckpointAppend", "checkpoint: append entry failed");
  ("ErrCheckpointTruncate", "checkpoint: truncate failed")].

Definition sentinels : list (string * string) := (runtimeSentinels ++ storageSentinels)%list.

Fixpoint assoc (n : string) (l : list (string * string)) : option string :=
  match l with [] => None | (m, t) :: l => if String.eqb n m then Some t else assoc n l end.
Definition sent (name : string) : error := match assoc name sentinels with Some text => ErrorString (Global name) text | None => Nil end.

(** ** NexError *)

(** [err == target] on interfaces that hold pointers. *)
Definition same (e t : error) : bool :=
  match e, t with
  | Nil, Nil | NexNil, NexNil => true
  | ErrorString p _, ErrorString q _ | Nex p _ _, Nex q _ _ | Foreign p _ _, Foreign q _ _ => bool_decide (p = q)
  | _, _ => false
  end.

(** [err.Error()]; a call on the nil interface panics. *)
Fixpoint Error (e : error) : outcome string :=
  match e with
  | Nil => Panic
  | ErrorString _ msg | Foreign _ msg _ => Ret msg
  | NexNil => Ret "error: nil"
  | Nex _ Nil d => Ret (if String.eqb d "" then "error: nil" else d)
  | Nex _ e d => m ← Error e; Ret (if String.eqb d "" then m else m ++ ": " ++ d)
  end.

Definition Unwrap (e : error) : error := match e with Nex _ e _ => e | Foreign _ _ c => c | _ => Nil end.

(** The loop of [stderrors.Is] for a target that is not nil: the values are
    compared, then the [Is] method of *NexError is called, which is [stderrors.Is]
    on its [Err], then the error is unwrapped. *)
Fixpoint is_ (e t : error) : bool :=
  match e with
  | Nil => false
  | Nex _ e' _ => same e t || is_ e' t || is_ e' t
  | Foreign _ _ c => same e t || is_ c t
  | _ => same e t
  end.
Definition Is (e t : error) : bool := match e, t with Nil, _ | _, Nil => same e t | _, _ => is_ e t end.

(** ** Text *)

Definition Itoa (z : Z) : string := pretty z.
Definition bytesString (b : bytes) : string := foldr (fun c s => String (Ascii.ascii_of_N (Z.to_N c)) s) "" b.

(** Arguments of fmt.Sprintf with the names of their types. *)
Inductive arg := AInt (type : string) (z : Z) | AString (s : string).
Definition argType (a : arg) : string := match a with AInt t _ => t | AString _ => "string" end.
Definition argText (a : arg) : string := match a with AInt _ z => Itoa z | AString s => s end.
Definition verb (v : Ascii.ascii) (a : arg) : string :=
  match v, a with
  | "d"%char, AInt _ _ | "s"%char, AString _ => argText a
  | _, _ => "%!" ++ String v ("(" ++ argType a ++ "=" ++ argText a ++ ")")
  end.
Definition extra (args : list arg) : string :=
  match args with [] => "" | _ => "%!(EXTRA " ++ String.concat ", " (map (fun a => argType a ++ "=" ++ argText a) args) ++ ")" end.
(** [%d] of integers, [%s] of strings and [%%], with Go's reports of missing,
    superfluous and mistyped arguments. *)
Fixpoint Sprintf (f : string) (args : list arg) : string :=
  match f with
  | "" => extra args
  | String "%" "" => "%!(NOVERB)" ++ extra args
  | String "%" (String "%" f) => String "%" (Sprintf f args)
  | String "%" (String v f) =>
      match args with
      | [] => "%!" ++ String v "(MISSING)" ++ Sprintf f []
      | a :: args => verb v a ++ Sprintf f args
      end
  | String c f => String c (Sprintf f args)
  end.

(** ** Wrapping.  [p] is where the run time puts a new object. *)

Section wrapping.
Context (p : loc).

(** A pointer [*NexError], and its conversion to the interface. *)
Definition nexptr : Type := option (loc * error * string).
Definition toError (n : nexptr) : error := match n with None => NexNil | Some (q, e, d) => Nex q e d end.
Definition iface (r : outcome nexptr) : outcome error := n ← r; Ret (toError n).

(** The type assertion succeeds on a nil *NexError too, and reading its field
    panics. *)
Definition mergeNexError (err : error) (details : string) : outcome nexptr :=
  match err with
  | NexNil => Panic
  | Nex _ e d =>
      let merged := if negb (String.eqb d "") && negb (String.eqb details "") then d ++ "; " ++ details
        else if negb (String.eqb details "") then details else d in
      Ret (Some (p, e, merged))
  | _ => Ret (Some (p, err, details))
  end.

Definition nilOr (err : error) (details : string) : outcome nexptr := match err with Nil => Ret None | _ => mergeNexError err details end.
Definition Wrap (err : error) (details : string) : outcome nexptr := nilOr err details.
Definition Wrapf (err : error) (format : string) (args : list arg) : outcome nexptr := nilOr err (Sprintf format args).
Definition WrapInt (err : error) (prefix : string) (val : Z) : outcome nexptr := nilOr err (prefix ++ ": " ++ Itoa val).
Definition WrapInt2 (err : error) (prefix : string) (v1 v2 : Z) : outcome nexptr := nilOr err (prefix ++ ": " ++ Itoa v1 ++ ", " ++ Itoa v2).
Definition WrapUint32 (err : error) (prefix : string) (val : Z) : outcome nexptr := nilOr err (prefix ++ ": " ++ Itoa val).
Definition WrapUint64 (err : error) (prefix : string) (val : Z) : outcome nexptr := nilOr err (prefix ++ ": " ++ Itoa val).
Definition WrapBytes (err : error) (prefix : string) (val : option bytes) : outcome nexptr := nilOr err (prefix ++ ": " ++ bytesString (default [] val)).
Definition WrapString (err : error) (prefix val : string) : outcome nexptr := nilOr err (prefix ++ ": " ++ val).
Definition WrapUint32Idx (err : error) (prefix : string) (pageID idx : Z) : outcome nexptr :=
  nilOr err (prefix ++ ": pageID=" ++ Itoa pageID ++ ", idx=" ++ Itoa idx).
Definition WrapIntRange (err : error) (prefix : string) (idx count : Z) : outcome nexptr :=
  nilOr err (prefix ++ ": index " ++ Itoa idx ++ " out of range [0, " ++ Itoa count ++ ")").

(** ** Constructors.  Those with an [err] wrap it, the others wrap a sentinel. *)

Definition InvalidParamf (format : string) (args : list arg) : error := ErrorString p ("invalid parameter: " ++ Sprintf format args).
Definition InvalidCoreID (coreID maxCoreID : Z) : outcome error :=
  iface (Wrapf (sent "ErrCPUInvalidCoreID") "core ID %d out of range [0, %d]" [AInt "int" coreID; AInt "int" maxCoreID]).
Definition SourceIDEmpty : error := sent "ErrSourceIDEmpty".
Definition SourceIDInvalidFormat : error := sent "ErrSourceIDInvalidFormat".
Definition ModuleEmpty : error := sent "ErrSourceIDModuleEmpty".
Definition SubModuleEmpty : error := sent "ErrSourceIDSubModuleEmpty".
Definition ActionEmpty : error := sent "ErrSourceIDActionEmpty".
Definition UnknownTaskMode (mode : string) : outcome error := iface (Wrapf (sent "ErrTaskModeUnknown") "mode: %s" [AString mode]).
Definition TaskAlreadyRegistered (taskName : string) : outcome error :=
  iface (Wrapf (sent "ErrTaskAlreadyRegistered") "task name: %s" [AString taskName]).
Definition TaskNotFound (taskName : string) : outcome error := iface (Wrapf (sent "ErrTaskNotFound") "task name: %s" [AString taskName]).
Definition SchedulerNotStarted : error := sent "ErrSchedulerNotStarted".
Definition SchedulerAlreadyRunning : error := sent "ErrSchedulerRunning".
Definition ExecutionOrderConflict (order : Z) (existingTask : string) : outcome error :=
  iface (Wrapf (sent "ErrExecutionOrderConflict") "execution order %d already registered by task: %s" [AInt "int" order; AString existingTask]).
Definition CoreRegisterFailed (coreID : Z) (err : error) : outcome error := iface (Wrapf err "register to core %d" [AInt "int" coreID]).
Definition CoreStartFailed (coreID : Z) (err : error) : outcome error := iface (Wrapf err "start core %d" [AInt "int" coreID]).
Definition CorePanicDetected (coreID : Z) : outcome error := iface (Wrapf (sent "ErrTaskPanic") "core %d has panic" [AInt "int" coreID]).
Definition CoreQueueTooLong (coreID queueLen : Z) : outcome error :=
  iface (Wrapf (sent "ErrQueueTooLong") "core %d queue too long: %d" [AInt "int" coreID; AInt "int64" queueLen]).
Definition OffHeapAllocatorSizeMustBePositive (size : Z) : outcome error :=
  iface (Wrapf (sent "ErrOffHeapAllocatorSizeInvalid") "allocator size must be positive: %d" [AInt "int" size]).
Definition OffHeapMMapFailed (err : error) : outcome error := iface (Wrapf err "mmap failed" []).
Definition OffHeapAllocExceedsSize (size total : Z) : outcome error :=
  iface (Wrapf (sent "ErrOffHeapAllocExceedsSize") "alloc size %d exceeds allocator size %d" [AInt "int64" size; AInt "int64" total]).
Definition OffHeapPageFull (used required total : Z) : outcome error :=
  iface (Wrapf (sent "ErrOffHeapPageFull") "page full: used=%d, required=%d, total=%d" [AInt "int" used; AInt "int" required; AInt "int" total]).
Definition OffHeapMMapSizeExceedsLimit (size limit : Z) : outcome error :=
  iface (Wrapf (sent "ErrOffHeapMMapExceedsLimit") "mmap size %d exceeds 32-bit PageID limit (%d pages)" [AInt "int64" size; AInt "int64" limit]).
Definition OffHeapCreateAllocatorFailed (err : error) : outcome error := iface (Wrapf err "failed to create allocator" []).
Definition OffHeapAllocMemoryFailed (err : error) : outcome error := iface (Wrapf err "failed to allocate memory" []).
Definition OffHeapOutOfMemory (total used : Z) : outcome error :=
  iface (Wrapf (sent "ErrOffHeapOutOfMemory") "out of memory: no free pages available (total: %d, used: %d)" [AInt "int" total; AInt "int" used]).
Definition OffHeapInvalidPageID (pageID total : Z) : outcome error :=
  iface (Wrapf (sent "ErrOffHeapInvalidPageID") "invalid pageID %d (total: %d)" [AInt "int" pageID; AInt "int" total]).
Definition OffHeapConstraintViolation (msg : string) : outcome error := iface (Wrapf (sent "ErrOffHeapConstraintViolation") "%s" [AString msg]).
Definition BTreeCreatePageManager (err : error) : outcome error := iface (Wrapf err "create page manager" []).
Definition BTreeAllocLeafPage (err : error) : outcome error := iface (Wrapf err "alloc leaf page" []).
Definition BTreeAllocNodePage (err : error) : outcome error := iface (Wrapf err "alloc node page" []).
Definition BTreeAllocForCOW (err : error) : outcome error := iface (Wrapf err "alloc for copy-on-write" []).
Definition BTreePageIDExceedsMax (id : Z) : outcome error := iface (WrapUint64 (sent "ErrBTreeInvalidPage") "pageID exceeds uint32 max" id).
Definition BTreePageNotLeafPage (pageID : Z) : outcome error := iface (WrapUint64 (sent "ErrBTreeInvalidPage") "page is not a leaf page" pageID).
Definition BTreePageNotNodePage (pageID : Z) : outcome error := iface (WrapUint64 (sent "ErrBTreeInvalidPage") "page is not a node page" pageID).
Definition BTreePageNotFound (pageID : Z) : outcome error :=
  iface (WrapUint64 (sent "ErrBTreePageNotInAO") "page not found in pageLocs (not yet loaded from AO)" pageID).
Definition BTreeLeafInsertAlloc (err : error) : outcome error := iface (Wrap err "leaf insert alloc").
Definition BTreeLeafInsertEntry (err : error) : outcome error := iface (Wrap err "leaf insert entry").
Definition BTreeLeafUpdateIndexOutOfRange (idx count : Z) : outcome error :=
  iface (WrapIntRange (sent "ErrBTreeKeyNotFound") "leaf update" idx count).
Definition BTreeLeafUpdateAlloc (err : error) : outcome error := iface (Wrap err "leaf update alloc").
Definition BTreeLeafUpdateRebuildAlloc (err : error) : outcome error := iface (Wrap err "leaf update rebuild alloc").
Definition BTreeLeafUpdateRebuild (err : error) : outcome error := iface (Wrap err "leaf update rebuild").
Definition BTreeLeafUpdateReinsert (err : error) : outcome error := iface (Wrap err "leaf update reinsert").
Definition BTreeLeafDeleteIndexOutOfRange (idx count : Z) : outcome error :=
  iface (WrapIntRange (sent "ErrBTreeKeyNotFound") "leaf delete" idx count).
Definition BTreeLeafDeleteAlloc (err : error) : outcome error := iface (Wrap err "leaf delete alloc").
Definition BTreeLeafDeleteRebuild (err : error) : outcome error := iface (Wrap err "leaf delete rebuild").
Definition BTreeLeafSplitMinKeys (count : Z) : outcome error := iface (WrapInt (sent "ErrBTreeNotImplemented") "leaf split: page has entries" count).
Definition BTreeLeafSplitAllocLeft (err : error) : outcome error := iface (Wrap err "leaf split alloc left").
Definition BTreeLeafSplitAllocRight (err : error) : outcome error := iface (Wrap err "leaf split alloc right").
Definition BTreeLeafSplitLeftBulkInit (err : error) : outcome error := iface (Wrap err "leaf split left bulk init").
Definition BTreeLeafSplitRightBulkInit (err : error) : outcome error := iface (Wrap err "leaf split right bulk init").
Definition BTreeLeafValidateNegativeCount (count : Z) : outcome error :=
  iface (WrapInt (sent "ErrBTreeInvalidPage") "leaf validate: negative count" count).
Definition BTreeLeafValidateKeyOrderingViolation (idx : Z) (prev curr : option bytes) : outcome error :=
  match prev, curr with
  | Some a, Some b => iface (mergeNexError (sent "ErrBTreeInvalidPage") ("leaf validate: key ordering violation at idx " ++ Itoa idx ++ ": " ++ bytesString a ++ " >= " ++ bytesString b))
  | _, _ => iface (WrapInt (sent "ErrBTreeInvalidPage") "leaf validate: key ordering violation at idx" idx)
  end.
Definition BTreeInitRootLeaf (err : error) : outcome error := iface (Wrap err "init root leaf").
Definition BTreeGetOrCreateChildren (err : error) : outcome error := iface (Wrap err "GetOrCreateChildren").
Definition BTreeSearchPathNilPageInfo (pageID : Z) : outcome error :=
  iface (WrapUint64 (sent "ErrBTreeInvalidPage") "searchPath: nil PageInfo on page" pageID).
Definition BTreeSearchPathError (err : error) : outcome error := iface (Wrap err "searchPath").
Definition BTreeSearchPathChildNotFound (idx pageID : Z) : outcome error :=
  iface (mergeNexError (sent "ErrBTreeInvalidPage") ("searchPath: child[" ++ Itoa idx ++ "] not found on page " ++ Itoa pageID)).
Definition BTreeWriteOpSearch (err : error) : outcome error := iface (Wrap err "write operation search").
Definition BTreeWriteOpGetLeaf (err : error) : outcome error := iface (Wrap err "write operation get leaf").
Definition BTreeNodeReplaceChildIndexOutOfRange (idx count : Z) : outcome error :=
  iface (WrapIntRange (sent "ErrBTreeInvalidPage") "node replace child" idx count).
Definition BTreeNodeReplaceChildAlloc (err : error) : outcome error := iface (Wrap err "node replace child alloc").
Definition BTreeNodeInsertChildIndexOutOfRange (idx count : Z) : outcome error :=
  iface (WrapIntRange (sent "ErrBTreeInvalidPage") "node insert child" idx count).
Definition BTreeNodeInsertChildAlloc (err : error) : outcome error := iface (Wrap err "node insert child alloc").
Definition BTreeNodeInsertChildEntry (err : error) : outcome error := iface (Wrap err "node insert child entry").
Definition BTreeNodeInsertChildAtEnd (err : error) : outcome error := iface (Wrap err "node insert child at end").
Definition BTreeNodeRemoveChildNotImplemented : outcome error := iface (Wrap (sent "ErrBTreeNotImplemented") "NodePage.RemoveChild not implemented").
Definition BTreeNodeSplitMinKeys (count : Z) : outcome error := iface (WrapInt (sent "ErrBTreeNotImplemented") "node split: page has entries" count).
Definition BTreeNodeSplitAllocLeft (err : error) : outcome error := iface (Wrap err "node split alloc left").
Definition BTreeNodeSplitAllocRight (err : error) : outcome error := iface (Wrap err "node split alloc right").
Definition BTreeNodeSplitLeftBulkInit (err : error) : outcome error := iface (Wrap err "node split left bulk init").
Definition BTreeNodeSplitRightBulkInit (err : error) : outcome error := iface (Wrap err "node split right bulk init").
Definition BTreeNodeValidateNegativeCount (count : Z) : outcome error :=
  iface (WrapInt (sent "ErrBTreeInvalidPage") "node validate: negative count" count).
Definition BTreeNodeValidateKeyOrderingViolation (idx : Z) (prev curr : option bytes) : outcome error :=
  match prev, curr with
  | Some a, Some b => iface (mergeNexError (sent "ErrBTreeInvalidPage") ("node validate: key ordering violation at idx " ++ Itoa idx ++ ": " ++ bytesString a ++ " >= " ++ bytesString b))
  | _, _ => iface (WrapInt (sent "ErrBTreeInvalidPage") "node validate: key ordering violation at idx" idx)
  end.
Definition BTreeNodeValidateChildCountMismatch (childCount keyCount : Z) : outcome error :=
  iface (WrapInt2 (sent "ErrBTreeInvalidPage") "node validate: child count != key count + 1" childCount keyCount).
Definition OffHeapPageHasChildAtZero (pageID idx : Z) : outcome error :=
  iface (WrapUint32Idx (sent "ErrOffHeapConstraintViolation") "page has child=0 at index" pageID idx).
Definition OffHeapPageHasExtraChildAtZero (pageID count : Z) : outcome error :=
  iface (WrapUint32 (sent "ErrOffHeapConstraintViolation") "page has extraChild=0 with count" pageID).
Definition OffHeapPageKeysNotSortedViolation (pageID idx : Z) : outcome error :=
  iface (WrapUint32Idx (sent "ErrOffHeapConstraintViolation") "page invariant violated: keys not sorted at index" pageID idx).
Definition OffHeapPageChildAtZeroViolation (pageID idx : Z) : outcome error :=
  iface (WrapUint32Idx (sent "ErrOffHeapConstraintViolation") "page invariant violated: child=0 at index" pageID idx).
Definition OffHeapPageExtraChildAtZeroViolation (pageID count : Z) : outcome error :=
  iface (WrapUint32 (sent "ErrOffHeapConstraintViolation") "page invariant violated: extraChild=0 with count" pageID).
Definition OffHeapIndexOutOfRange (index count : Z) : outcome error :=
  iface (mergeNexError (sent "ErrOffHeapInvalidPageID") ("index " ++ Itoa index ++ " out of range (count: " ++ Itoa count ++ ")")).
Definition OffHeapInvalidRange (startIdx endIdx totalCount : Z) : outcome error :=
  iface (mergeNexError (sent "ErrOffHeapInvalidPageID") ("invalid range [" ++ Itoa startIdx ++ ", " ++ Itoa endIdx ++ ") (count: " ++ Itoa totalCount ++ ")")).
Definition OffHeapSourcePageRecycled (err : error) : outcome error := iface (Wrap err "source page recycled during bulk init").
Definition OffHeapSelfLoopDetected (srcPageID idx child : Z) : outcome error :=
  iface (mergeNexError (sent "ErrOffHeapConstraintViolation")
    ("self-loop (or zero) detected in source page " ++ Itoa srcPageID ++ " at index " ++ Itoa idx ++ ", child=" ++ Itoa child)).
Definition OffHeapSelfLoopInExtraChild (srcPageID : Z) : outcome error :=
  iface (WrapUint32 (sent "ErrOffHeapConstraintViolation") "self-loop detected in source page extraChild" srcPageID).


End wrapping.

(** The constructors that wrap a cause. *)
Definition causeConstructors (coreID : Z) : list (loc -> error -> outcome error) :=
  [fun p => CoreRegisterFailed p coreID; fun p => CoreStartFailed p coreID;
   OffHeapMMapFailed; OffHeapCreateAllocatorFailed; OffHeapAllocMemoryFailed; BTreeCreatePageManager; BTreeAllocLeafPage; BTreeAllocNodePage;
   BTreeAllocForCOW; BTreeLeafInsertAlloc; BTreeLeafInsertEntry; BTreeLeafUpdateAlloc; BTreeLeafUpdateRebuildAlloc; BTreeLeafUpdateRebuild;
   BTreeLeafUpdateReinsert; BTreeLeafDeleteAlloc; BTreeLeafDeleteRebuild; BTreeLeafSplitAllocLeft; BTreeLeafSplitAllocRight;
   BTreeLeafSplitLeftBulkInit; BTreeLeafSplitRightBulkInit; BTreeInitRootLeaf; BTreeGetOrCreateChildren; BTreeSearchPathError;
   BTreeWriteOpSearch; BTreeWriteOpGetLeaf; BTreeNodeReplaceChildAlloc; BTreeNodeInsertChildAlloc; BTreeNodeInsertChildEntry;
   BTreeNodeInsertChildAtEnd; BTreeNodeSplitAllocLeft; BTreeNodeSplitAllocRight; BTreeNodeSplitLeftBulkInit; BTreeNodeSplitRightBulkInit;
   OffHeapSourcePageRecycled].

(** The constructors that wrap a sentinel, at arguments of every type, with the
    name of the sentinel. *)
Definition sentinelConstructors (p : loc) (a b c : Z) (s : string) (k1 k2 : option bytes) : list (outcome error * string) :=
  [(InvalidCoreID p a b, "ErrCPUInvalidCoreID");
   (Ret SourceIDEmpty, "ErrSourceIDEmpty");
   (Ret SourceIDInvalidFormat, "ErrSourceIDInvalidFormat");
   (Ret ModuleEmpty, "ErrSourceIDModuleEmpty");
   (Ret SubModuleEmpty, "ErrSourceIDSubModuleEmpty");
   (Ret ActionEmpty, "ErrSourceIDActionEmpty");
   (UnknownTaskMode p s, "ErrTaskModeUnknown");
   (TaskAlreadyRegistered p s, "ErrTaskAlreadyRegistered");
   (TaskNotFound p s, "ErrTaskNotFound");
   (Ret SchedulerNotStarted, "ErrSchedulerNotStarted");
   (Ret SchedulerAlreadyRunning, "ErrSchedulerRunning");
   (ExecutionOrderConflict p a s, "ErrExecutionOrderConflict");
   (CorePanicDetected p a, "ErrTaskPanic");
   (CoreQueueTooLong p a b, "ErrQueueTooLong");
   (OffHeapAllocatorSizeMustBePositive p a, "ErrOffHeapAllocatorSizeInvalid");
   (OffHeapAllocExceedsSize p a b, "ErrOffHeapAllocExceedsSize");
   (OffHeapPageFull p a b c, "ErrOffHeapPageFull");
   (OffHeapMMapSizeExceedsLimit p a b, "ErrOffHeapMMapExceedsLimit");
   (OffHeapOutOfMemory p a b, "ErrOffHeapOutOfMemory");
   (OffHeapInvalidPageID p a b, "ErrOffHeapInvalidPageID");
   (OffHeapConstraintViolation p s, "ErrOffHeapConstraintViolation");
   (BTreePageIDExceedsMax p a, "ErrBTreeInvalidPage");
   (BTreePageNotLeafPage p a, "ErrBTreeInvalidPage");
   (BTreePageNotNodePage p a, "ErrBTreeInvalidPage");
   (BTreePageNotFound p a, "ErrBTreePageNotInAO");
   (BTreeLeafUpdateIndexOutOfRange p a b, "ErrBTreeKeyNotFound");
   (BTreeLeafDeleteIndexOutOfRange p a b, "ErrBTreeKeyNotFound");
   (BTreeLeafSplitMinKeys p a, "ErrBTreeNotImplemented");
   (BTreeLeafValidateNegativeCount p a, "ErrBTreeInvalidPage");
   (BTreeSearchPathNilPageInfo p a, "ErrBTreeInvalidPage");
   (BTreeNodeReplaceChildIndexOutOfRange p a b, "ErrBTreeInvalidPage");
   (BTreeNodeInsertChildIndexOutOfRange p a b, "ErrBTreeInvalidPage");
   (BTreeNodeRemoveChildNotImplemented p, "ErrBTreeNotImplemented");
   (BTreeNodeSplitMinKeys p a, "ErrBTreeNotImplemented");
   (BTreeNodeValidateNegativeCount p a, "ErrBTreeInvalidPage");
   (BTreeNodeValidateChildCountMismatch p a b, "ErrBTreeInvalidPage");
   (OffHeapPageHasChildAtZero p a b, "ErrOffHeapConstraintViolation");
   (OffHeapPageHasExtraChildAtZero p a b, "ErrOffHeapConstraintViolation");
   (OffHeapPageKeysNotSortedViolation p a b, "ErrOffHeapConstraintViolation");
   (OffHeapPageChildAtZeroViolation p a b, "ErrOffHeapConstraintViolation");
   (OffHeapPageExtraChildAtZeroViolation p a b, "ErrOffHeapConstraintViolation");
   (OffHeapSelfLoopInExtraChild p a, "ErrOffHeapConstraintViolation");
   (BTreeLeafValidateKeyOrderingViolation p a k1 k2, "ErrBTreeInvalidPage");
   (BTreeSearchPathChildNotFound p a b, "ErrBTreeInvalidPage");
   (BTreeNodeValidateKeyOrderingViolation p a k1 k2, "ErrBTreeInvalidPage");
   (OffHeapIndexOutOfRange p a b, "ErrOffHeapInvalidPageID");
   (OffHeapInvalidRange p a b c, "ErrOffHeapInvalidPageID");
   (OffHeapSelfLoopDetected p a b c, "ErrOffHeapConstraintViolation")].

(** ** Wrapping never nests *)

Definition base (e : error) : Prop := match e with ErrorString _ _ | Foreign _ _ _ => True | _ => False end.
(** An error of another package, or a NexError directly around one. *)
Definition flat (e : error) : Prop := match e with Nex _ e _ => base e | _ => base e end.
Definition core (e : error) : error := match e with Nex _ e _ => e | _ => e end.
Definition details (e : error) : string := match e with Nex _ _ d => d | _ => "" end.
Definition isNex (e : error) : bool := match e with Nex _ _ _ | NexNil => true | _ => false end.

Definition join (d d' : string) : string := if String.eqb d "" then d' else if String.eqb d' "" then d else d ++ "; " ++ d'.
Definition nonempty (ds : list string) : list string := List.filter (fun d => negb (String.eqb d "")) ds.

Lemma nilOr_flat p err d : flat err -> nilOr p err d = Ret (Some (p, core err, join (details err) d)).
Proof.
  destruct err as [| | |q e D|]; try done; intros _. unfold nilOr, mergeNexError, join, core, details.
  destruct (String.eqb_spec D ""), (String.eqb_spec d ""); by subst.
Qed.

Lemma is_base e t : base e -> t <> Nil -> Is e t = is_ e t.
Proof. by destruct e, t. Qed.

(** Wrapping changes neither the category of an error nor what it unwraps to,
    except that the wrapped NexError itself is no longer found. *)
Lemma is_core e p d t : flat e -> isNex t = false -> Is (Nex p (core e) d) t = Is e t.
Proof.
  intros Hf Ht. assert (forall q D b, base b -> Is (Nex q b D) t = Is b t) as H.
  { intros q D b Hb. destruct t; try done; unfold Is; destruct b; try done; cbn; by rewrite orb_diag. }
  destruct e; try done; cbn [core]; by rewrite !H by done.
Qed.

(** Wrapping again and again, with the addresses of the new objects. *)
Fixpoint wraps (e : error) (ds : list (loc * string)) : outcome error :=
  match ds with [] => Ret e | (p, d) :: ds => e' ← iface (Wrap p e d); wraps e' ds end.

Lemma append_assoc s t u : (s ++ t) ++ u = s ++ t ++ u.
Proof. induction s as [|c s IH]; [done|]. change (String c ((s ++ t) ++ u) = String c (s ++ t ++ u)). by rewrite IH. Qed.
Lemma append_empty s t : s ++ t = "" -> s = "" /\ t = "".
Proof. by destruct s. Qed.

Lemma join_assoc a b c : join (join a b) c = join a (join b c).
Proof.
  unfold join. destruct (String.eqb_spec a "") as [->|Ha]; [done|]. destruct (String.eqb_spec b "") as [->|Hb].
  - cbn. destruct (String.eqb_spec c ""); by destruct (String.eqb_spec a "").
  - destruct (String.eqb_spec (a ++ "; " ++ b) "") as [E|_]; [by apply append_empty in E as [? _]|].
    destruct (String.eqb_spec c ""); [by destruct (String.eqb_spec b "")|].
    destruct (String.eqb_spec (b ++ "; " ++ c) "") as [E|_]; [by apply append_empty in E as [? _]|].
    by rewrite !append_assoc.
Qed.

Lemma concat_join ds : foldr join "" ds = String.concat "; " (nonempty ds).
Proof.
  unfold nonempty. induction ds as [|d ds IH]; [done|]. cbn [foldr List.filter]. rewrite IH. unfold join.
  destruct (String.eqb_spec d ""); [done|]. cbn [negb].
  destruct (List.filter _ ds) as [|d' ds'] eqn:E; [done|].
  destruct (String.eqb_spec (String.concat "; " (d' :: ds')) "") as [E'|_]; [exfalso|done].
  assert (d' <> "") as Hd'.
  { assert (In d' (List.filter (fun d => negb (String.eqb d "")) ds)) as Hin by (rewrite E; by left).
    apply filter_In in Hin as [_ Hin]. by destruct (String.eqb_spec d' ""). }
  destruct ds'; [done|]. cbn in E'. by apply append_empty in E' as [? _].
Qed.

Lemma wraps_spec err ds p d : flat err ->
  wraps err (ds ++ [(p, d)]) = Ret (Nex p (core err) (join (details err) (foldr join "" (map snd ds ++ [d])%list))).
Proof.
  revert err. induction ds as [|[q d'] ds IH]; intros err Hf; cbn [app wraps].
  - unfold Wrap. rewrite nilOr_flat by done. cbn [map app foldr]. unfold join at 3. by destruct (String.eqb_spec d "") as [->|].
  - unfold Wrap. rewrite nilOr_flat by done. cbn [iface mbind outcome_bind toError].
    rewrite IH by (by destruct err). cbn [core details map snd app foldr]. by rewrite join_assoc.
Qed.

(** C33: a chain of wraps of one error is a single NexError around what the first one
    was around: its details are the non-empty details of all, joined in their order,
    its text is the text of the core with them, and [errors.Is] finds in it the
    targets it found in the first error, NexErrors excepted. *)
Theorem wrap_chain err ds p d : flat err -> exists e,
  wraps err (ds ++ [(p, d)]) = Ret e /\ flat e /\ core e = core err /\
  details e = String.concat "; " (nonempty (details err :: map snd ds ++ [d])%list) /\
  Error e = (m ← Error (core err); Ret (if String.eqb (details e) "" then m else m ++ ": " ++ details e)) /\
  (forall t, isNex t = false -> Is e t = Is err t).
Proof.
  intros Hf. eexists. split; [by apply wraps_spec|]. split; [by destruct err|]. split; [done|]. split; [|split].
  - cbn [details]. by rewrite <- concat_join.
  - cbn [details]. by destruct err as [| | |q e D|]; try done; destruct e.
  - intros t Ht. by apply is_core.
Qed.

(** A file-system error about a page, wrapped by two levels of the tree. *)
Lemma wrap_chain_witness : exists e,
  wraps (Nex (Heap 0) (sent "ErrOffHeapPageFull") "used=4000") [(Heap 1, "leaf insert entry"); (Heap 2, ""); (Heap 3, "searchPath")]%nat = Ret e /\
  Error e = Ret "offheap: page full: used=4000; leaf insert entry; searchPath" /\ Is e (sent "ErrOffHeapPageFull") = true.
Proof.
  destruct (wrap_chain (Nex (Heap 0) (sent "ErrOffHeapPageFull") "used=4000") [(Heap 1, "leaf insert entry"); (Heap 2, "")] (Heap 3) "searchPath") as (e & E & _ & Hc & Hd & He & Hi); [done|].
  exists e. split; [done|]. split; [by rewrite He, Hd|]. by rewrite Hi.
Defined.

(** ** The constructors *)

(** What the constructors with a cause do: for an error to wrap, one flat NexError
    of the same category. *)
Lemma cause_constructor n f : f ∈ causeConstructors n -> exists text, forall p err, f p err = iface (nilOr p err text).
Proof. intros H. repeat (apply elem_of_cons in H as [->|H]; [by eexists|]). by apply not_elem_of_nil in H. Qed.

(** Every constructor with a cause keeps the category of its cause. *)
Theorem cause_constructors_keep n f p err : f ∈ causeConstructors n -> flat err ->
  exists e, f p err = Ret e /\ flat e /\ core e = core err /\ forall t, isNex t = false -> Is e t = Is err t.
Proof.
  intros (text & Hf)%cause_constructor Hflat. rewrite Hf, nilOr_flat by done. eexists. split; [done|].
  split; [by destruct err|]. split; [done|]. intros t Ht. by apply is_core.
Qed.
Lemma cause_constructors_keep_witness : exists e, BTreeLeafInsertEntry (Heap 1) (sent "ErrOffHeapPageFull") = Ret e /\ Is e (sent "ErrOffHeapPageFull") = true.
Proof.
  destruct (cause_constructors_keep 0 BTreeLeafInsertEntry (Heap 1) (sent "ErrOffHeapPageFull")) as (e & E & _ & _ & Hi); [|done|].
  - unfold causeConstructors. do 10 right. left.
  - exists e. split; [done|]. by rewrite Hi.
Defined.

(** A constructor given a nil cause, and [Wrap] itself, return a nil *NexError;
    as an [error] it is not nil, and wrapping it again panics. *)
Theorem nil_cause_trap n f g p q : f ∈ causeConstructors n -> g ∈ causeConstructors n ->
  f p Nil = Ret NexNil /\ same NexNil Nil = false /\ Is NexNil Nil = false /\ Error NexNil = Ret "error: nil" /\ g q NexNil = Panic.
Proof.
  intros (t1 & Hf)%cause_constructor (t2 & Hg)%cause_constructor. by rewrite Hf, Hg.
Qed.
Lemma nil_cause_trap_witness : (e ← BTreeAllocLeafPage (Heap 1) Nil; BTreeInitRootLeaf (Heap 2) e) = Panic.
Proof.
  destruct (nil_cause_trap 0 BTreeAllocLeafPage BTreeInitRootLeaf (Heap 1) (Heap 2)) as (E & _ & _ & _ & E').
  - unfold causeConstructors. do 6 right. left.
  - unfold causeConstructors. do 21 right. left.
  - rewrite E. exact E'.
Defined.

Definition names : list string := map fst sentinels.

Lemma names_NoDup : NoDup names.
Proof. apply (bool_decide_unpack _). vm_compute. exact I. Qed.

Lemma sent_name n : n ∈ names -> exists text, sent n = ErrorString (Global n) text.
Proof.
  unfold names, sent. induction sentinels as [|[m t] l IH]; [by intros ?%not_elem_of_nil|].
  cbn [map fst assoc]. intros Hin. destruct (String.eqb_spec n m) as [->|Hn]; [by eexists|].
  apply elem_of_cons in Hin as [?|Hin]; [done|]. by apply IH.
Qed.

Lemma is_sent n m : n ∈ names -> m ∈ names -> Is (sent n) (sent m) = bool_decide (n = m).
Proof.
  intros (t & ->)%sent_name (u & ->)%sent_name. cbn. by rewrite (bool_decide_ext (Global n = Global m) (n = m)) by (split; congruence).
Qed.

Definition ofCategory (r : outcome error) (n : string) : Prop :=
  exists e, r = Ret e /\ flat e /\ forall m, m ∈ names -> Is e (sent m) = bool_decide (n = m).

Lemma sent_category n : n ∈ names -> ofCategory (Ret (sent n)) n.
Proof.
  intros Hn. exists (sent n). split; [done|]. split; [by destruct (sent_name n Hn) as (t & ->)|]. intros m Hm. by apply is_sent.
Qed.
Lemma nilOr_category p n text : n ∈ names -> ofCategory (iface (nilOr p (sent n) text)) n.
Proof.
  intros Hn. destruct (sent_name n Hn) as (t & E).
  assert (flat (sent n)) as Hf by by rewrite E.
  rewrite nilOr_flat by done. eexists. split; [done|]. split; [by rewrite E|]. intros m Hm.
  transitivity (Is (sent n) (sent m)); [|by apply is_sent]. apply is_core; [done|]. by destruct (sent_name m Hm) as (u & ->).
Qed.
Lemma merge_category p n text : n ∈ names -> ofCategory (iface (mergeNexError p (sent n) text)) n.
Proof. intros Hn. pose proof (nilOr_category p n text Hn) as H. by destruct (sent_name n Hn) as (t & E); rewrite E in *. Qed.

(** Every constructor of an error of this system, whatever its arguments, builds
    an error that [errors.Is] finds to be of exactly one sentinel, the one it is
    named after. *)
Theorem sentinel_constructors p a b c s k1 k2 : Forall (fun x => ofCategory x.1 x.2) (sentinelConstructors p a b c s k1 k2).
Proof.
  assert (Forall (fun x => x.2 ∈ names) (sentinelConstructors p a b c s k1 k2)) as Hn.
  { apply Forall_forall. intros x Hx. apply (list_elem_of_fmap_2 snd) in Hx.
    assert (forall y, y ∈ map snd (sentinelConstructors p a b c s k1 k2) -> y ∈ names) as H; [|by apply H].
    apply Forall_forall. apply (bool_decide_unpack _). vm_compute. exact I. }
  unfold sentinelConstructors in *. repeat (apply Forall_cons in Hn as [? Hn]; apply Forall_cons; split); [..|by apply Forall_nil];
    cbn [fst snd] in *; first [by apply sent_category|by apply nilOr_category|by apply merge_category|by destruct k1, k2; first [apply merge_category|apply nilOr_category]].
Qed.

(** The parameter errors of [InvalidParamf] carry the text of ErrInvalidParam and
    are not ErrInvalidParam for [errors.Is]. *)
Theorem invalid_param_not_found n format args :
  Error (InvalidParamf (Heap n) format args) = (m ← Error (sent "ErrInvalidParam"); Ret (m ++ ": " ++ Sprintf format args)) /\
  Is (InvalidParamf (Heap n) format args) (sent "ErrInvalidParam") = false.
Proof. done. Qed.

(** ** The abstraction of the prelude *)

(** The sentinels of Prelude.v in this package; the others stand for errors of
    other packages. *)
Definition sentinelName (s : sentinel) : option string :=
  match s with
  | Prelude.ErrMVCCKeyNotFound => Some "ErrMVCCKeyNotFound"
  | Prelude.ErrMVCCValueTooShort => Some "ErrMVCCValueTooShort"
  | Prelude.ErrMVCCInvalidFlag => Some "ErrMVCCInvalidFlag"
  | Prelude.ErrMVCCZeroTimestamp => Some "ErrMVCCZeroTimestamp"
  | Prelude.ErrMVCCLockTimeout => Some "ErrMVCCLockTimeout"
  | Prelude.ErrMVCCTxCommitted => Some "ErrMVCCTxCommitted"
  | Prelude.ErrMVCCTxRolledBack => Some "ErrMVCCTxRolledBack"
  | Prelude.ErrMVCCTxPrepareCorrupted => Some "ErrMVCCTxPrepareCorrupted"
  | Prelude.ErrMVCCPanicRecovered => Some "ErrMVCCPanicRecovered"
  | Prelude.ErrMVCCGetError => Some "ErrMVCCGetError"
  | Prelude.ErrMVCCPutError => Some "ErrMVCCPutError"
  | Prelude.ErrMVCCDeleteError => Some "ErrMVCCDeleteError"
  | Prelude.ErrWALClosed => Some "ErrWALClosed"
  | Prelude.ErrWALEntryCorrupted => Some "ErrWALEntryCorrupted"
  | Prelude.ErrWALChecksumMismatch => Some "ErrWALChecksumMismatch"
  | Prelude.ErrWALTruncatedEntry => Some "ErrWALTruncatedEntry"
  | Prelude.ErrWALInvalidConfig => Some "ErrWALInvalidConfig"
  | Prelude.ErrWALIOError => Some "ErrWALIOError"
  | Prelude.ErrBTreeValidationError => Some "ErrBTreeValidationError"
  | Prelude.ErrBTreeDuplicateKey => Some "ErrBTreeDuplicateKey"
  | Prelude.ErrBTreeKeyNotFound => Some "ErrBTreeKeyNotFound"
  | Prelude.ErrBTreeNotImplemented => Some "ErrBTreeNotImplemented"
  | Prelude.ErrBTreeInvalidPage => Some "ErrBTreeInvalidPage"
  | Prelude.ErrBTreeBorrowSourceEmpty => Some "ErrBTreeBorrowSourceEmpty"
  | Prelude.ErrBTreeCASConflict => Some "ErrBTreeCASConflict"
  | Prelude.ErrBTreeRetry => Some "ErrBTreeRetry"
  | Prelude.ErrBTreeCASRetryExhausted => Some "ErrBTreeCASRetryExhausted"
  | Prelude.ErrBTreeClosed => Some "ErrBTreeClosed"
  | Prelude.ErrBTreePageFreed => Some "ErrBTreePageFreed"
  | Prelude.ErrBTreeSearchError => Some "ErrBTreeSearchError"
  | Prelude.ErrOffHeapPageFull => Some "ErrOffHeapPageFull"
  | Prelude.ErrOffHeapConstraintViolation => Some "ErrOffHeapConstraintViolation"
  | Prelude.ErrOffHeapMMapExceedsLimit => Some "ErrOffHeapMMapExceedsLimit"
  | Prelude.ErrOffHeapInvalidRange => Some "ErrOffHeapInvalidRange"
  | Prelude.ErrOffHeapInvalidPageID => Some "ErrOffHeapInvalidPageID"
  | Prelude.ErrOffHeapOutOfMemory => Some "ErrOffHeapOutOfMemory"
  | Prelude.ErrClockMarshalNil => Some "ErrClockMarshalNil"
  | Prelude.ErrClockInvalidSize => Some "ErrClockInvalidSize"
  | Prelude.ErrMessageTooLarge => Some "ErrMessageTooLarge"
  | Prelude.ErrInvalidMessage => Some "ErrInvalidMessage"
  | Prelude.ErrChunkInvalidHeader => Some "ErrChunkInvalidHeader"
  | Prelude.ErrChunkCRCMismatch => Some "ErrChunkCRCMismatch"
  | Prelude.ErrChunkPageNotFound => Some "ErrChunkPageNotFound"
  | Prelude.ErrChunkClosed => Some "ErrChunkClosed"
  | Prelude.ErrChunkNilDestination => Some "ErrChunkNilDestination"
  | Prelude.ErrChunkInvalidLength => Some "ErrChunkInvalidLength"
  | Prelude.ErrChunkIDExhausted => Some "ErrChunkIDExhausted"
  | Prelude.ErrChunkHeaderError => Some "ErrChunkHeaderError"
  | Prelude.ErrChunkFormatError => Some "ErrChunkFormatError"
  | Prelude.ErrChunkNotFound => Some "ErrChunkNotFound"
  | Prelude.ErrCheckpointNilRoot => Some "ErrCheckpointNilRoot"
  | _ => None
  end.

Section abstraction.
(** The errors of other packages: objects of their own, with any text. *)
Context (otherLoc : sentinel -> nat) (otherText : sentinel -> string).

Definition baseOf (s : sentinel) : error :=
  match sentinelName s with Some n => sent n | None => Foreign (Heap (otherLoc s)) (otherText s) Nil end.
Definition errorOf (p : loc) (e : gerr) : error :=
  match e with Sentinel s => baseOf s | Prelude.NexError s d => Nex p (baseOf s) d end.

Lemma sentinelName_in s n : sentinelName s = Some n -> n ∈ names.
Proof. destruct s; intros [= <-]; apply (bool_decide_unpack _); vm_compute; exact I. Qed.
Lemma sentinelName_inj s t n : sentinelName s = Some n -> sentinelName t = Some n -> s = t.
Proof. destruct s; intros [= <-]; destruct t; intros [=]; done. Qed.

Lemma base_baseOf s : base (baseOf s).
Proof.
  unfold baseOf. destruct (sentinelName s) as [n|] eqn:E; [|done]. destruct (sent_name n (sentinelName_in s n E)) as (t & ->). done.
Qed.

Lemma is_baseOf s t n : sentinelName t = Some n -> Is (baseOf s) (baseOf t) = bool_decide (s = t).
Proof.
  intros Ht. unfold baseOf. rewrite Ht. pose proof (sentinelName_in t n Ht) as Hn. destruct (sentinelName s) as [m|] eqn:Hs.
  - rewrite is_sent by (done || by eapply sentinelName_in). apply bool_decide_ext. split; [|congruence].
    intros ->. by eapply sentinelName_inj.
  - rewrite bool_decide_false by congruence. by destruct (sent_name n Hn) as (u & ->).
Qed.

(** The errors of the library's models behave as the package's: wrapping
    commutes with the abstraction, wherever the objects are, and [errors.Is] with a
    sentinel of the package is the test of the models. *)
Theorem prelude_errors_refine p q e d :
  iface (Wrap p (errorOf q e) d) = Ret (errorOf p (Prelude.Wrap e d)) /\
  forall s n, sentinelName s = Some n -> Is (errorOf q e) (baseOf s) = IsErr e s.
Proof.
  split.
  - destruct e as [s|s D]; unfold errorOf, Wrap; pose proof (base_baseOf s) as Hb.
    + rewrite nilOr_flat by (by destruct (baseOf s)). change (iface (Ret (Some (p, core (baseOf s), join (details (baseOf s)) d))) = Ret (Nex p (baseOf s) d)).
      by destruct (baseOf s).
    + rewrite nilOr_flat by done. unfold Prelude.Wrap, Prelude.mergeNexError, join, core, details.
      destruct (String.eqb_spec D ""), (String.eqb_spec d ""); by subst.
  - intros s n Hs. assert (isNex (baseOf s) = false) as Hn by (pose proof (base_baseOf s); by destruct (baseOf s)).
    destruct e as [t|t D]; cbn [errorOf IsErr]; [by eapply is_baseOf|].
    transitivity (Is (baseOf t) (baseOf s)); [|by eapply is_baseOf].
    pose proof (base_baseOf t) as Hb. assert (core (baseOf t) = baseOf t) as E by (by destruct (baseOf t)).
    rewrite <- E at 1. apply is_core; [by destruct (baseOf t)|done].
Qed.

End abstraction.

(** OffHeapPageHasExtraChildAtZero does not print its count. *)
Lemma extra_child_ignores_count p pageID c c' : OffHeapPageHasExtraChildAtZero p pageID c = OffHeapPageHasExtraChildAtZero p pageID c' /\
  OffHeapPageExtraChildAtZeroViolation p pageID c = OffHeapPageExtraChildAtZeroViolation p pageID c'.
Proof. done. Qed.
