(* ===== verification/MvccCodec.v ===== *)
(** * The MVCC value format (mvcc/codec.go) and its LOB routing (mvcc/lob.go)

    [ParseMVCC]/[BuildMVCC] translate the two functions of codec.go statement
    by statement, on buffers, with the [uint16] cursor of the parser kept at
    its width.  A nil-able [[]byte] is an [option bytes]; where the code only
    uses its length and contents it is a [bytes]. *)

From stdpp Require Import base list gmap strings.
From Stdlib Require Import ZArith Lia.
From S2P Require Import Prelude.

Local Open Scope Z_scope.

(** ** Flags *)

Definition FlagNormal : Z := 0.
Definition FlagTombstone : Z := 1.
Definition FlagLOBNormal : Z := 2.
Definition FlagLOBTombstone : Z := 3.
Definition FlagLOBFile : Z := 4.
Definition FlagLOBFileTombstone : Z := 5.

Definition MVCCHeaderSize : Z := 12.

Definition IsTombstoneFlag (flag : Z) : bool := Z.land flag 1 =? FlagTombstone.

Definition IsLOBFlag (flag : Z) : bool :=
  (flag =? FlagLOBNormal) || (flag =? FlagLOBTombstone).

Definition IsLOBFileFlag (flag : Z) : bool :=
  (flag =? FlagLOBFile) || (flag =? FlagLOBFileTombstone).

Definition isValidFlag (flag : Z) : bool :=
  (flag =? FlagNormal) || (flag =? FlagTombstone) ||
  (flag =? FlagLOBNormal) || (flag =? FlagLOBTombstone) ||
  (flag =? FlagLOBFile) || (flag =? FlagLOBFileTombstone).

(** ** Decoded values *)

Record LOBRef := mkLOBRef { FirstPageID : Z; LOBTotalLen : Z }.
Record LOBFileRef := mkLOBFileRef { LOBID : Z; FileTotalLen : Z }.

Record MVCCValue := mkMVCCValue {
  Flag : Z;
  BeginTS : Z;
  RealVal : bytes;
  PrevFlag : Z;
  PrevBeginTS : Z;
  PrevVal : option bytes;
  LOB : option LOBRef;
  LOBFile : option LOBFileRef;
}.

Definition IsTombstone (v : MVCCValue) : bool := IsTombstoneFlag (Flag v).

(** ** ParseMVCC *)

(** The [switch flag] of ParseMVCC that decodes a LOB reference. *)
Definition parseLOB (flag : Z) (realVal : bytes)
    : outcome (option LOBRef * option LOBFileRef) :=
  if IsLOBFlag flag then
    if 10 <=? zlen realVal then
      firstPageID ← be_at 4 realVal 2;
      totalLen ← be_at 4 realVal 6;
      Ret (Some (mkLOBRef firstPageID totalLen), None)
    else Ret (None, None)
  else if IsLOBFileFlag flag then
    if 18 <=? zlen realVal then
      lobID ← be_at 8 realVal 2;
      totalLen ← be_at 8 realVal 10;
      Ret (None, Some (mkLOBFileRef lobID totalLen))
    else Ret (None, None)
  else Ret (None, None).

Definition ParseMVCC (val : bytes) : outcome MVCCValue :=
  if zlen val <? MVCCHeaderSize then
    Fail (NexError ErrMVCCValueTooShort "got bytes, need 12") else
  flag ← index val 0;
  if negb (isValidFlag flag) then Fail (NexError ErrMVCCInvalidFlag "0x") else
  prevFlag ← index val 1;
  prevBeginTS ← be_at 8 val 2;
  prevValLen ← be_at 2 val 10;
  let pos := 12 in
  prev ← (if negb (prevBeginTS =? 0) && (0 <? prevValLen) then
            if zlen val <? u16 (pos + prevValLen) then
              Fail (NexError ErrMVCCValueTooShort "prevValLen exceeds remaining bytes")
            else
              prevVal ← slice val pos (u16 (pos + prevValLen));
              Ret (Some prevVal, u16 (pos + prevValLen))
          else Ret (None, pos));
  let '(prevVal, pos) := prev in
  if zlen val <? u16 (pos + 8) then
    Fail (NexError ErrMVCCValueTooShort "missing beginTS for current version") else
  ts ← slice val pos (u16 (pos + 8));
  let beginTS := be_dec ts in
  let pos := u16 (pos + 8) in
  realVal ← slice val pos (zlen val);
  refs ← parseLOB flag realVal;
  Ret (mkMVCCValue flag beginTS realVal prevFlag prevBeginTS prevVal
         (fst refs) (snd refs)).

(** ** BuildMVCC *)

Definition BuildMVCC (flag beginTS : Z) (realVal : bytes)
    (prevFlag prevBeginTS : Z) (prevVal : bytes) : outcome bytes :=
  if negb (isValidFlag flag) then Fail (NexError ErrMVCCInvalidFlag "0x") else
  if beginTS =? 0 then Fail (Sentinel ErrMVCCZeroTimestamp) else
  let prevValLen := u16 (zlen prevVal) in
  let totalSize := MVCCHeaderSize + prevValLen + 8 + zlen realVal in
  result ← write_at (zeros totalSize) 0 [flag];
  result ← write_at result 1 [prevFlag];
  result ← write_at result 2 (be_enc 8 prevBeginTS);
  result ← write_at result 10 (be_enc 2 prevValLen);
  st ← (if 0 <? prevValLen then
          result ← copy_at result 12 prevVal;
          Ret (result, 12 + prevValLen)
        else Ret (result, 12));
  let '(result, pos) := st in
  result ← write_at result pos (be_enc 8 beginTS);
  copy_at result (pos + 8) realVal.

(** The wire format as a concatenation of its fields. *)
Definition mvcc_wire (flag beginTS : Z) (realVal : bytes)
    (prevFlag prevBeginTS : Z) (prevVal : bytes) : bytes :=
  let prevValLen := u16 (zlen prevVal) in
  [flag; prevFlag] ++ be_enc 8 prevBeginTS ++ be_enc 2 prevValLen ++
  ztake prevValLen prevVal ++ be_enc 8 beginTS ++ realVal.

(** ** LOB managers (interfaces of mvcc/lob.go) and the LOB-aware codec *)

Record LOBManager (S : Type) := mkLOBManager {
  lob_Allocate : bytes -> S -> S * outcome LOBRef;
  lob_Read : LOBRef -> S -> outcome bytes;
  lob_Free : LOBRef -> S -> S * outcome unit;
}.
Arguments lob_Allocate {S}.
Arguments lob_Read {S}.
Arguments lob_Free {S}.

Record LOBFileManager (S : Type) := mkLOBFileManager {
  lobf_Create : bytes -> S -> S * outcome LOBFileRef;
  lobf_Read : LOBFileRef -> S -> outcome bytes;
  lobf_Delete : LOBFileRef -> S -> S * outcome unit;
}.
Arguments lobf_Create {S}.
Arguments lobf_Read {S}.
Arguments lobf_Delete {S}.

Definition LOBSizeThreshold : Z := 2048.
Definition LOBFileThreshold : Z := 262144.

Section lob_codec.
Context {S : Type}.
Implicit Types (lobMgr : option (LOBManager S)).
Implicit Types (lobFileMgr : option (LOBFileManager S)).

Definition lobRefBytes (r : LOBRef) : outcome bytes :=
  b ← write_at (zeros 10) 0 (be_enc 2 8);
  b ← write_at b 2 (be_enc 4 (FirstPageID r));
  write_at b 6 (be_enc 4 (LOBTotalLen r)).

Definition encodeLOBOverflow (data : bytes) (beginTS prevFlag prevBeginTS : Z)
    (prevVal : bytes) (m : LOBManager S) (s : S) : S * outcome bytes :=
  let '(s, r) := lob_Allocate m data s in
  (s, lobRef ← r;
      refBytes ← lobRefBytes lobRef;
      BuildMVCC FlagLOBNormal beginTS refBytes prevFlag prevBeginTS prevVal).

Definition lobFileRefBytes (r : LOBFileRef) : outcome bytes :=
  b ← write_at (zeros 18) 0 (be_enc 2 16);
  b ← write_at b 2 (be_enc 8 (LOBID r));
  write_at b 10 (be_enc 8 (FileTotalLen r)).

Definition encodeLOBFile (data : bytes) (beginTS prevFlag prevBeginTS : Z)
    (prevVal : bytes) (m : LOBFileManager S) (s : S) : S * outcome bytes :=
  let '(s, r) := lobf_Create m data s in
  (s, lobFileRef ← r;
      refBytes ← lobFileRefBytes lobFileRef;
      BuildMVCC FlagLOBFile beginTS refBytes prevFlag prevBeginTS prevVal).

Definition EncodeValue (value : bytes) (beginTS prevFlag prevBeginTS : Z)
    (prevVal : bytes) lobMgr lobFileMgr (s : S) : S * outcome bytes :=
  match (if LOBFileThreshold <? zlen value then lobFileMgr else None) with
  | Some m => encodeLOBFile value beginTS prevFlag prevBeginTS prevVal m s
  | None =>
      match (if LOBSizeThreshold <? zlen value then lobMgr else None) with
      | Some m => encodeLOBOverflow value beginTS prevFlag prevBeginTS prevVal m s
      | None => (s, BuildMVCC FlagNormal beginTS value prevFlag prevBeginTS prevVal)
      end
  end.

Definition EncodeDeleteValue (beginTS oldFlag oldBeginTS : Z) (oldVal : bytes)
    (prevFlag prevBeginTS : Z) (prevVal : bytes) : outcome bytes :=
  let '(flag, newVal) :=
    if IsLOBFlag oldFlag then (FlagLOBTombstone, oldVal)
    else if IsLOBFileFlag oldFlag then (FlagLOBFileTombstone, oldVal)
    else (FlagTombstone, []) in
  BuildMVCC flag beginTS newVal prevFlag prevBeginTS prevVal.

Definition with_RealVal (mv : MVCCValue) (v : bytes) : MVCCValue :=
  mkMVCCValue (Flag mv) (BeginTS mv) v (PrevFlag mv) (PrevBeginTS mv)
    (PrevVal mv) (LOB mv) (LOBFile mv).

Definition DecodeValue (raw : bytes) lobMgr lobFileMgr (s : S) : outcome MVCCValue :=
  mv ← ParseMVCC raw;
  mv ← match LOB mv, lobMgr with
       | Some r, Some m => expanded ← lob_Read m r s; Ret (with_RealVal mv expanded)
       | _, _ => Ret mv
       end;
  match LOBFile mv, lobFileMgr with
  | Some r, Some m => expanded ← lobf_Read m r s; Ret (with_RealVal mv expanded)
  | _, _ => Ret mv
  end.
End lob_codec.
(** The writes after the header, for any tail long enough. *)
Lemma build_tail hdr n prevVal realVal ts :
  zlen hdr = 12 -> 0 <= n <= zlen prevVal ->
  (st ← (if 0 <? n then
          result ← copy_at (hdr ++ zeros (n + 8 + zlen realVal)) 12 prevVal;
          Ret (result, 12 + n)
        else Ret (hdr ++ zeros (n + 8 + zlen realVal), 12));
  let '(result, pos) := st in
  result ← write_at result pos (be_enc 8 ts);
  copy_at result (pos + 8) realVal)
  = Ret (hdr ++ ztake n prevVal ++ be_enc 8 ts ++ realVal).
Proof.
  intros Hh Hn. pose proof (zlen_nonneg realVal).
  assert (exists t, zlen t = 8 + zlen realVal /\
    (if 0 <? n then
          result ← copy_at (hdr ++ zeros (n + 8 + zlen realVal)) 12 prevVal;
          Ret (result, 12 + n)
        else Ret (hdr ++ zeros (n + 8 + zlen realVal), 12))
    = Ret ((hdr ++ ztake n prevVal) ++ t, 12 + n)) as (t & Ht & ->).
  { destruct (Z.ltb_spec 0 n) as [Hp|Hz].
    - remember (n + 8 + zlen realVal) as m eqn:Em. rewrite copy_at_mid by lia.
      rewrite zlen_zeros by lia. cbn [mbind outcome_bind].
      set (p := ztake m prevVal).
      exists (zdrop n p ++ zdrop (zlen prevVal) (zeros m)). split.
      + destruct (decide (zlen prevVal <= m)).
        * unfold p. rewrite ztake_all, zdrop_zeros by lia. zlen_solve.
        * rewrite zlen_app, (zdrop_all (zlen prevVal)) by (rewrite zlen_zeros; lia).
          unfold p. zlen_solve.
      + do 2 f_equal. rewrite <- !app_assoc. f_equal. rewrite app_assoc. f_equal.
        rewrite <- (ztake_zdrop_id n p) at 1. f_equal.
        unfold p, ztake. rewrite take_take. f_equal. lia.
    - assert (n = 0) as -> by lia.
      exists (zeros (8 + zlen realVal)). split; [by rewrite zlen_zeros by lia|].
      change (ztake 0 prevVal) with (@nil Z). by rewrite app_nil_r. }
  rewrite bind_ret. cbv beta iota.
  rewrite write_at_mid by zlen_solve. rewrite bind_ret.
  rewrite copy_at_exact by zlen_solve. by rewrite <- !app_assoc.
Qed.

Lemma BuildMVCC_wire flag beginTS realVal prevFlag prevBeginTS prevVal :
  isValidFlag flag = true -> beginTS <> 0 ->
  BuildMVCC flag beginTS realVal prevFlag prevBeginTS prevVal =
    Ret (mvcc_wire flag beginTS realVal prevFlag prevBeginTS prevVal).
Proof.
  intros Hf Hts. unfold BuildMVCC, mvcc_wire, MVCCHeaderSize.
  rewrite Hf, (proj2 (Z.eqb_neq _ _)) by done. cbn [negb].
  pose proof (u16_range (zlen prevVal)) as Hp.
  pose proof (Z.mod_le (zlen prevVal) (2 ^ 16)) as Hle.
  fold (u16 (zlen prevVal)) in Hle.
  set (n := u16 (zlen prevVal)) in *. clearbody n. unfold is_u16 in Hp.
  pose proof (zlen_nonneg prevVal). pose proof (zlen_nonneg realVal).
  fill_buffer. autorewrite with zlen_db.
  replace (12 + n + 8 + zlen realVal - _ - _ - _ - _) with (n + 8 + zlen realVal) by lia.
  rewrite build_tail by zlen_solve. by rewrite <- !app_assoc.
Qed.


(** The reference decoder never fails: it only reads fields it has checked. *)
Lemma parseLOB_total flag realVal : exists refs, parseLOB flag realVal = Ret refs.
Proof.
  unfold parseLOB, be_at.
  repeat case_match; rewrite ?slice_spec by lia; simpl; eauto.
Qed.

(** ParseMVCC on a value whose 12-byte header is given field by field. *)
Lemma ParseMVCC_header flag prevFlag prevBeginTS n rest :
  isValidFlag flag = true -> is_u64 prevBeginTS -> is_u16 n ->
  let val := [flag; prevFlag] ++ be_enc 8 prevBeginTS ++ be_enc 2 n ++ rest in
  ParseMVCC val =
    (prev ← (if negb (prevBeginTS =? 0) && (0 <? n) then
            if zlen val <? u16 (12 + n) then
              Fail (NexError ErrMVCCValueTooShort "prevValLen exceeds remaining bytes")
            else
              prevVal ← slice val 12 (u16 (12 + n));
              Ret (Some prevVal, u16 (12 + n))
          else Ret (None, 12));
     let '(prevVal, pos) := prev in
     if zlen val <? u16 (pos + 8) then
       Fail (NexError ErrMVCCValueTooShort "missing beginTS for current version") else
     ts ← slice val pos (u16 (pos + 8));
     realVal ← slice val (u16 (pos + 8)) (zlen val);
     refs ← parseLOB flag realVal;
     Ret (mkMVCCValue flag (be_dec ts) realVal prevFlag prevBeginTS prevVal
         (fst refs) (snd refs))).
Proof.
  intros Hf Hp Hn val. unfold ParseMVCC, MVCCHeaderSize.
  assert (zlen val = 12 + zlen rest) as Hlen by (unfold val; zlen_solve).
  pose proof (zlen_nonneg rest).
  rewrite (proj2 (Z.ltb_ge (zlen val) 12)) by lia.
  change (index val 0) with (@Ret Z flag). rewrite bind_ret, Hf. cbn [negb].
  change (index val 1) with (@Ret Z prevFlag). rewrite bind_ret.
  assert (be_at 8 val 2 = Ret prevBeginTS) as ->.
  { unfold be_at, val. read_slice. by rewrite bind_ret, be_dec_enc_id. }
  assert (be_at 2 val 10 = Ret n) as ->.
  { unfold be_at, val. read_slice. by rewrite bind_ret, be_dec_enc_id. }
  done.
Qed.

(** [uint16] wrap-around of the cursor. *)
Lemma u16_cursor n k : is_u16 n -> 0 <= k <= 20 ->
  u16 (k + n) = if decide (k + n < 65536) then k + n else k + n - 65536.
Proof.
  unfold is_u16, u16. intros. case_decide.
  - apply Z.mod_small. lia.
  - symmetry. apply Z.mod_unique with 1; lia.
Qed.

Lemma ParseMVCC_layout flag prevFlag prevBeginTS n prevVal ts realVal :
  isValidFlag flag = true -> is_u64 prevBeginTS -> is_u64 ts ->
  n = zlen prevVal -> n <= 65515 -> (prevBeginTS = 0 -> n = 0) ->
  ParseMVCC ([flag; prevFlag] ++ be_enc 8 prevBeginTS ++ be_enc 2 n ++
             prevVal ++ be_enc 8 ts ++ realVal) =
    (refs ← parseLOB flag realVal;
     Ret (mkMVCCValue flag ts realVal prevFlag prevBeginTS
       (if n =? 0 then None else Some prevVal) (fst refs) (snd refs))).
Proof.
  intros Hf Hp Hts Hn Hmax H0. pose proof (zlen_nonneg prevVal).
  pose proof (zlen_nonneg realVal). assert (is_u16 n) as Hn16 by (unfold is_u16; lia).
  rewrite ParseMVCC_header by done.
  match goal with |- context [zlen ?l] => set (val := l) in * end.
  assert (zlen val = 20 + n + zlen realVal) as Hlen by (unfold val; zlen_solve).
  assert (u16 (12 + n + 8) = 20 + n) as E20 by (rewrite u16_id; unfold is_u16; lia).
  assert (u16 (12 + n) = 12 + n) as E12 by (rewrite u16_id; unfold is_u16; lia).
  match goal with |- (prev ← ?e; _) = _ =>
    assert (e = Ret (if n =? 0 then None else Some prevVal, 12 + n)) as -> end.
  { destruct (Z.eqb_spec prevBeginTS 0) as [Hz|Hz]; cbn [negb andb].
    - by rewrite (H0 Hz).
    - destruct (Z.ltb_spec 0 n).
      + rewrite E12, (proj2 (Z.ltb_ge _ _)), (proj2 (Z.eqb_neq _ _)) by lia.
        unfold val. read_slice. done.
      + by assert (n = 0) as -> by lia. }
  rewrite bind_ret. cbv beta iota zeta.
  rewrite E20, (proj2 (Z.ltb_ge _ _)) by lia.
  assert (slice val (12 + n) (20 + n) = Ret (be_enc 8 ts)) as ->.
  { unfold val. read_slice. done. }
  rewrite bind_ret, be_dec_enc_id by done.
  assert (slice val (20 + n) (zlen val) = Ret realVal) as ->; [|done].
  rewrite Hlen. unfold val. read_slice. done.
Qed.

(** A value written by BuildMVCC is read back by ParseMVCC with every field
    intact, as long as the embedded previous value has at most 65515 bytes
    and is empty when there is no previous version. *)
Theorem parse_build flag beginTS realVal prevFlag prevBeginTS prevVal :
  isValidFlag flag = true -> 0 < beginTS < 2 ^ 64 -> is_u64 prevBeginTS ->
  zlen prevVal <= 65515 -> (prevBeginTS = 0 -> prevVal = []) ->
  (enc ← BuildMVCC flag beginTS realVal prevFlag prevBeginTS prevVal;
   ParseMVCC enc) =
  (refs ← parseLOB flag realVal;
   Ret (mkMVCCValue flag beginTS realVal prevFlag prevBeginTS
          (match prevVal with [] => None | _ => Some prevVal end)
          (fst refs) (snd refs))).
Proof.
  intros Hf Hts Hp Hmax H0. pose proof (zlen_nonneg prevVal).
  rewrite BuildMVCC_wire by (done || lia). rewrite bind_ret. unfold mvcc_wire.
  rewrite u16_id, ztake_all by (unfold is_u16; lia).
  rewrite ParseMVCC_layout; try done; [|unfold is_u64; lia|].
  - destruct prevVal; [done|]. rewrite zlen_cons.
    rewrite (proj2 (Z.eqb_neq _ 0)) by zlen_solve. done.
  - intros Hz. by rewrite (H0 Hz).
Qed.

Lemma parse_build_witness :
  (enc ← BuildMVCC FlagNormal 9 [7; 8] FlagNormal 5 [1; 2; 3]; ParseMVCC enc) =
  Ret (mkMVCCValue FlagNormal 9 [7; 8] FlagNormal 5 (Some [1; 2; 3]) None None).
Proof.
  rewrite (parse_build FlagNormal 9 [7; 8] FlagNormal 5 [1; 2; 3]);
    try reflexivity; try (unfold is_u64; lia); discriminate.
Defined.

Lemma ParseMVCC_short val :
  zlen val < 12 -> exists d, ParseMVCC val = Fail (NexError ErrMVCCValueTooShort d).
Proof.
  intros. unfold ParseMVCC, MVCCHeaderSize.
  rewrite (proj2 (Z.ltb_lt _ _)) by lia. eauto.
Qed.

Lemma ParseMVCC_bad_flag flag rest :
  isValidFlag flag = false -> 11 <= zlen rest ->
  exists d, ParseMVCC (flag :: rest) = Fail (NexError ErrMVCCInvalidFlag d).
Proof.
  intros Hf Hl. unfold ParseMVCC, MVCCHeaderSize.
  rewrite (proj2 (Z.ltb_ge _ _)) by (rewrite zlen_cons; lia).
  change (index (flag :: rest) 0) with (@Ret Z flag). rewrite bind_ret, Hf. eauto.
Qed.

(** After the cursor is placed, the rest of the parse panics exactly when the
    [uint16] sum [pos + 8] wraps. *)
Lemma parse_rest_panics flag pf pb pv (val : bytes) pos :
  0 <= pos < 65536 -> pos <= zlen val ->
  (if zlen val <? u16 (pos + 8) then
     Fail (NexError ErrMVCCValueTooShort "missing beginTS for current version") else
   ts ← slice val pos (u16 (pos + 8));
   realVal ← slice val (u16 (pos + 8)) (zlen val);
   refs ← parseLOB flag realVal;
   Ret (mkMVCCValue flag (be_dec ts) realVal pf pb pv (fst refs) (snd refs))) = Panic
  <-> 65528 <= pos.
Proof.
  intros Hpos Hval.
  assert (is_u16 pos) as H16 by (unfold is_u16; lia).
  rewrite (Z.add_comm pos 8), u16_cursor by (done || lia). case_decide.
  - destruct (Z.ltb_spec (zlen val) (8 + pos)); [split; [done|lia]|].
    rewrite (slice_spec val pos) by lia. rewrite bind_ret, slice_spec by lia.
    rewrite bind_ret.
    destruct (parseLOB_total flag (ztake (zlen val - (8 + pos)) (zdrop (8 + pos) val)))
      as [r ->].
    split; [done|lia].
  - rewrite (proj2 (Z.ltb_ge _ _)) by lia.
    rewrite (slice_oob val pos) by lia. split; [lia|done].
Qed.

(** ParseMVCC panics, instead of returning an error, exactly on values with
    a valid flag and a previous version whose recorded length overflows the
    [uint16] cursor: a length of 65524 or more, or one of 65516 or more whose
    bytes are present. *)
Theorem ParseMVCC_panics_iff flag prevFlag prevBeginTS n rest :
  is_u64 prevBeginTS -> is_u16 n ->
  ParseMVCC ([flag; prevFlag] ++ be_enc 8 prevBeginTS ++ be_enc 2 n ++ rest) = Panic
  <-> isValidFlag flag = true /\ prevBeginTS <> 0 /\ (65524 <= n \/ 65516 <= n <= zlen rest).
Proof.
  intros Hp Hn. destruct (isValidFlag flag) eqn:Hf.
  2:{ destruct (ParseMVCC_bad_flag flag ([prevFlag] ++ be_enc 8 prevBeginTS ++ be_enc 2 n ++ rest)) as [d E];
      [done|pose proof (zlen_nonneg rest); zlen_solve|].
      rewrite (E : ParseMVCC ([flag; prevFlag] ++ _) = _). naive_solver. }
  rewrite ParseMVCC_header by done.
  match goal with |- context [zlen ?l] => lazymatch l with _ ++ _ => set (val := l) end end.
  assert (zlen val = 12 + zlen rest) as Hlen by (unfold val; zlen_solve).
  pose proof (zlen_nonneg rest). pose proof Hn as Hn'. unfold is_u16 in Hn'.
  destruct (Z.eqb_spec prevBeginTS 0) as [Hz|Hz]; cbn [negb andb].
  { rewrite bind_ret, parse_rest_panics by lia. naive_solver lia. }
  destruct (Z.ltb_spec 0 n) as [Hpos|Hpos].
  2:{ rewrite bind_ret, parse_rest_panics by lia. naive_solver lia. }
  rewrite u16_cursor by (done || lia). case_decide as Hw.
  - destruct (Z.ltb_spec (zlen val) (12 + n)).
    { rewrite bind_fail. split; [done|]. naive_solver lia. }
    rewrite slice_spec, !bind_ret, parse_rest_panics by lia. naive_solver lia.
  - rewrite (proj2 (Z.ltb_ge _ _)), slice_oob by lia.
    split; [intros _|done]. split_and!; [done|done|lia].
Qed.

Lemma ParseMVCC_panics_iff_witness :
  ParseMVCC ([0; 0] ++ be_enc 8 5 ++ be_enc 2 65535 ++ zeros 8) = Panic.
Proof.
  apply (proj2 (ParseMVCC_panics_iff 0 0 5 65535 (zeros 8)
    ltac:(unfold is_u64; lia) ltac:(unfold is_u16; lia))).
  split_and!; [reflexivity|lia|left; lia].
Defined.

(** Every 12-byte prefix is a header. *)
Lemma header_decompose (val : bytes) :
  bytes_ok val -> 12 <= zlen val ->
  exists flag pf pb n rest,
    val = [flag; pf] ++ be_enc 8 pb ++ be_enc 2 n ++ rest /\ is_u64 pb /\ is_u16 n.
Proof.
  intros Hok Hl. destruct val as [|flag [|pf val]]; [done|zlen_solve|].
  exists flag, pf, (be_dec (ztake 8 val)), (be_dec (ztake 2 (zdrop 8 val))), (zdrop 10 val).
  inversion Hok as [|? ? _ Hok']. inversion Hok' as [|? ? _ Hv]. subst.
  assert (10 <= zlen val) as Hl' by (revert Hl; rewrite !zlen_cons; lia).
  assert (bytes_ok (ztake 8 val)) as H8 by by apply Forall_take.
  assert (bytes_ok (ztake 2 (zdrop 8 val))) as H2 by by apply Forall_take, Forall_drop.
  assert (length (ztake 8 val) = 8%nat) as L8.
  { unfold ztake, zlen in *. rewrite length_take. lia. }
  assert (length (ztake 2 (zdrop 8 val)) = 2%nat) as L2.
  { unfold ztake, zdrop, zlen in *. rewrite length_take, length_drop. lia. }
  rewrite !be_enc_dec by done. split_and!.
  - cbn [app]. do 2 f_equal. rewrite <- (ztake_zdrop_id 8 val) at 1. f_equal.
    rewrite <- (ztake_zdrop_id 2 (zdrop 8 val)) at 1. f_equal.
    by rewrite zdrop_zdrop by lia.
  - apply be_dec_range in H8. unfold zlen in H8. rewrite L8 in H8. done.
  - apply be_dec_range in H2. unfold zlen in H2. rewrite L2 in H2. done.
Qed.

(** ** The LOB codec against the managers' contract *)

(** What lob.go relies on, in the states [I] of a manager: the reference that
    Allocate or Create returns fits its wire fields and reads back the stored
    data.  The length field of an overflow reference has 32 bits. *)
Class LOBManagerLaws {S} (I : S -> Prop) (m : LOBManager S) : Prop := lob_read_allocate :
  forall d s s' r, I s -> 0 < zlen d < 2 ^ 32 -> lob_Allocate m d s = (s', Ret r) ->
    lob_Read m r s' = Ret d /\ is_u32 (FirstPageID r) /\ is_u32 (LOBTotalLen r).

Class LOBFileManagerLaws {S} (I : S -> Prop) (m : LOBFileManager S) : Prop := lobf_read_create :
  forall d s s' r, I s -> 0 < zlen d < 2 ^ 63 -> lobf_Create m d s = (s', Ret r) ->
    lobf_Read m r s' = Ret d /\ is_u64 (LOBID r) /\ is_u64 (FileTotalLen r).

Definition opt_lob_ok {S} (I : S -> Prop) (m : option (LOBManager S)) : Prop :=
  match m with Some m => LOBManagerLaws I m | None => True end.
Definition opt_lobf_ok {S} (I : S -> Prop) (m : option (LOBFileManager S)) : Prop :=
  match m with Some m => LOBFileManagerLaws I m | None => True end.

Lemma lobRefBytes_eq r :
  lobRefBytes r = Ret (be_enc 2 8 ++ be_enc 4 (FirstPageID r) ++ be_enc 4 (LOBTotalLen r)).
Proof.
  unfold lobRefBytes. change (zeros 10) with (zeros 2 ++ zeros 8).
  rewrite write_at_head by zlen_solve. rewrite bind_ret.
  rewrite write_at_fill by zlen_solve. rewrite bind_ret, write_at_fill by zlen_solve.
  autorewrite with zlen_db. change (zeros _) with (@nil Z).
  by rewrite app_nil_r, <- app_assoc.
Qed.

Lemma lobFileRefBytes_eq r :
  lobFileRefBytes r = Ret (be_enc 2 16 ++ be_enc 8 (LOBID r) ++ be_enc 8 (FileTotalLen r)).
Proof.
  unfold lobFileRefBytes. change (zeros 18) with (zeros 2 ++ zeros 16).
  rewrite write_at_head by zlen_solve. rewrite bind_ret.
  rewrite write_at_fill by zlen_solve. rewrite bind_ret, write_at_fill by zlen_solve.
  autorewrite with zlen_db. change (zeros _) with (@nil Z).
  by rewrite app_nil_r, <- app_assoc.
Qed.

Lemma parseLOB_ref r :
  is_u32 (FirstPageID r) -> is_u32 (LOBTotalLen r) ->
  parseLOB FlagLOBNormal (be_enc 2 8 ++ be_enc 4 (FirstPageID r) ++ be_enc 4 (LOBTotalLen r))
  = Ret (Some r, None).
Proof.
  intros H1 H2. unfold parseLOB. change (IsLOBFlag FlagLOBNormal) with true. cbv iota.
  rewrite (proj2 (Z.leb_le _ _)) by zlen_solve. unfold be_at.
  read_slice. rewrite !bind_ret. read_slice.
  rewrite !bind_ret, !be_dec_enc_id by done. by destruct r.
Qed.

Lemma parseLOB_fileref r :
  is_u64 (LOBID r) -> is_u64 (FileTotalLen r) ->
  parseLOB FlagLOBFile (be_enc 2 16 ++ be_enc 8 (LOBID r) ++ be_enc 8 (FileTotalLen r))
  = Ret (None, Some r).
Proof.
  intros H1 H2. unfold parseLOB. change (IsLOBFlag FlagLOBFile) with false.
  change (IsLOBFileFlag FlagLOBFile) with true. cbv iota.
  rewrite (proj2 (Z.leb_le _ _)) by zlen_solve. unfold be_at.
  read_slice. rewrite !bind_ret. read_slice.
  rewrite !bind_ret, !be_dec_enc_id by done. by destruct r.
Qed.

(** The embedded previous version that BuildMVCC can represent. *)
Definition prev_fits (prevBeginTS : Z) (prevVal : bytes) : Prop :=
  is_u64 prevBeginTS /\ zlen prevVal <= 65515 /\ (prevBeginTS = 0 -> prevVal = []).

Lemma parse_of_build flag ts realVal pf pb pv enc refs :
  isValidFlag flag = true -> 0 < ts < 2 ^ 64 -> prev_fits pb pv ->
  parseLOB flag realVal = Ret refs ->
  BuildMVCC flag ts realVal pf pb pv = Ret enc ->
  ParseMVCC enc = Ret (mkMVCCValue flag ts realVal pf pb
    (match pv with [] => None | _ => Some pv end) (fst refs) (snd refs)).
Proof.
  intros Hf Hts (Hp & Hmax & H0) Href HB. pose proof (zlen_nonneg pv).
  rewrite BuildMVCC_wire in HB by (done || lia). injection HB as <-. unfold mvcc_wire.
  rewrite u16_id, ztake_all by (unfold is_u16; lia).
  rewrite ParseMVCC_layout; try done; [|unfold is_u64; lia|].
  - rewrite Href. destruct pv; [done|].
    rewrite (proj2 (Z.eqb_neq _ 0)) by zlen_solve. done.
  - intros Hz. by rewrite (H0 Hz).
Qed.

(** Whatever tier EncodeValue routes a value to (inline, overflow chain or
    LOB file), DecodeValue in the resulting store gives the value back, with
    its commit timestamp and as a live (non-tombstone) version. *)
Theorem decode_encode {S} (I : S -> Prop) (lm : option (LOBManager S)) (fm : option (LOBFileManager S))
    value ts pf pb pv s s' enc :
  opt_lob_ok I lm -> opt_lobf_ok I fm -> I s -> zlen value < 2 ^ 32 -> 0 < ts < 2 ^ 64 -> prev_fits pb pv ->
  EncodeValue value ts pf pb pv lm fm s = (s', Ret enc) ->
  exists mv, DecodeValue enc lm fm s' = Ret mv /\ RealVal mv = value /\
    BeginTS mv = ts /\ IsTombstone mv = false /\ PrevFlag mv = pf /\
    PrevBeginTS mv = pb /\ default [] (PrevVal mv) = pv.
Proof.
  intros Hlm Hfm HI Hlen Hts Hpv HE. unfold EncodeValue in HE. unfold DecodeValue.
  assert (forall o : bytes, default [] (match o with [] => None | _ => Some o end) = o)
    as Hd by by intros [].
  destruct (if LOBFileThreshold <? zlen value then fm else None) as [m|] eqn:Ef.
  - destruct fm as [m'|]; [|by destruct (_ <? _)].
    assert (m' = m /\ 0 < zlen value) as [-> Hpos].
    { destruct (Z.ltb_spec LOBFileThreshold (zlen value)); [|done]. unfold LOBFileThreshold in *. split; [congruence|lia]. }
    unfold encodeLOBFile in HE. destruct (lobf_Create m value s) as [s1 [r| |]] eqn:Ec;
      [|simpl in HE; congruence..].
    rewrite bind_ret, lobFileRefBytes_eq, bind_ret in HE.
    injection HE as <- HB. assert (Hl63 : 0 < zlen value < 2 ^ 63) by lia.
    destruct (Hfm _ _ _ _ HI Hl63 Ec) as (Hr & H1 & H2).
    rewrite (parse_of_build FlagLOBFile _ _ _ _ _ _ _ eq_refl Hts Hpv (parseLOB_fileref r H1 H2) HB).
    rewrite bind_ret. cbn [LOB LOBFile fst snd].
    exists (with_RealVal (mkMVCCValue FlagLOBFile ts (be_enc 2 16 ++ be_enc 8 (LOBID r) ++ be_enc 8 (FileTotalLen r)) pf pb (match pv with [] => None | _ => Some pv end) None (Some r)) value).
    split; [|split_and!; try done; by apply Hd].
    destruct lm; rewrite bind_ret; cbn [LOBFile]; by rewrite Hr.
  - clear Ef.
    destruct (if LOBSizeThreshold <? zlen value then lm else None) as [m|] eqn:El.
    + destruct lm as [m'|]; [|by destruct (_ <? _)].
      assert (m' = m /\ 0 < zlen value) as [-> Hpos].
      { destruct (Z.ltb_spec LOBSizeThreshold (zlen value)); [|done]. unfold LOBSizeThreshold in *. split; [congruence|lia]. }
      unfold encodeLOBOverflow in HE.
      destruct (lob_Allocate m value s) as [s1 [r| |]] eqn:Ec;
        [|simpl in HE; congruence..].
      rewrite bind_ret, lobRefBytes_eq, bind_ret in HE.
      injection HE as <- HB. destruct (Hlm _ _ _ _ HI (conj Hpos Hlen) Ec) as (Hr & H1 & H2).
      rewrite (parse_of_build FlagLOBNormal _ _ _ _ _ _ _ eq_refl Hts Hpv (parseLOB_ref r H1 H2) HB).
      rewrite bind_ret. cbn [LOB fst snd]. rewrite Hr, !bind_ret.
      eexists. split; [reflexivity|split_and!; try done; by apply Hd].
    + injection HE as <- HB.
      rewrite (parse_of_build FlagNormal _ _ _ _ _ _ (None, None) eq_refl Hts Hpv eq_refl HB).
      rewrite bind_ret. eexists. split; [reflexivity|split_and!; try done; by apply Hd].
Qed.

(** A LOB manager over a list of blobs, to instantiate the contract. *)
Definition list_lob : LOBManager (list bytes) := {|
  lob_Allocate d s :=
    if (zlen s <? 2 ^ 32) && (zlen d <? 2 ^ 32)
    then (s ++ [d], Ret (mkLOBRef (zlen s) (zlen d)))
    else (s, Fail (Sentinel ErrOffHeapOutOfMemory));
  lob_Read r s := index s (FirstPageID r);
  lob_Free r s := (s, Ret tt);
|}.

#[export] Instance list_lob_laws : LOBManagerLaws (fun _ => True) list_lob.
Proof.
  intros d s s' r _ _ H. cbn [lob_Allocate lob_Read list_lob] in *.
  pose proof (zlen_nonneg s). pose proof (zlen_nonneg d).
  destruct (Z.ltb_spec (zlen s) (2 ^ 32)), (Z.ltb_spec (zlen d) (2 ^ 32));
    simpl in H; try congruence. injection H as <- <-. simpl.
  unfold index, is_u32. rewrite (proj2 (Z.leb_le _ _)) by done.
  unfold zlen at 1. rewrite Nat2Z.id, lookup_app_r, Nat.sub_diag by lia. done.
Qed.

Lemma decode_encode_witness :
  exists mv, DecodeValue (default [] (match EncodeValue (zeros 2049) 7 0 5 [1; 2]
      (Some list_lob) None [] with (_, Ret e) => Some e | _ => None end))
      (Some list_lob) None [zeros 2049] = Ret mv /\ RealVal mv = zeros 2049 /\
    BeginTS mv = 7 /\ IsTombstone mv = false /\ PrevFlag mv = 0 /\
    PrevBeginTS mv = 5 /\ default [] (PrevVal mv) = [1; 2].
Proof.
  apply (decode_encode (fun _ => True) (Some list_lob) None (zeros 2049) 7 0 5 [1; 2] []).
  - exact list_lob_laws.
  - exact I.
  - exact I.
  - vm_compute. reflexivity.
  - lia.
  - unfold prev_fits, is_u64. split_and!; [lia|lia|vm_compute; discriminate|discriminate].
  - vm_compute. reflexivity.
Defined.

(** A deletion is always encoded as a tombstone, and keeps the external LOB
    reference of the deleted value for the garbage collector. *)
Lemma encode_delete ts oldFlag oldTS oldVal pf pb pv enc :
  isValidFlag oldFlag = true -> 0 < ts < 2 ^ 64 -> prev_fits pb pv ->
  EncodeDeleteValue ts oldFlag oldTS oldVal pf pb pv = Ret enc ->
  exists mv, ParseMVCC enc = Ret mv /\ IsTombstone mv = true /\ BeginTS mv = ts /\
    RealVal mv = (if IsLOBFlag oldFlag || IsLOBFileFlag oldFlag then oldVal else []) /\
    PrevFlag mv = pf /\ PrevBeginTS mv = pb /\ default [] (PrevVal mv) = pv.
Proof.
  intros Hv Hts Hpv HE. unfold EncodeDeleteValue in HE.
  destruct (IsLOBFlag oldFlag), (IsLOBFileFlag oldFlag); simpl in HE |- *;
    match type of HE with BuildMVCC ?f _ ?v _ _ _ = _ =>
      destruct (parseLOB_total f v) as [refs Hr];
      rewrite (parse_of_build f _ _ _ _ _ _ _ eq_refl Hts Hpv Hr HE) end;
    eexists; (split; [reflexivity|]); split_and!; try done; by destruct pv.
Qed.
