(* ===== verification/Hlc.v ===== *)
(** * Hybrid logical clocks

    [Module Model] is domain/model/hlc.go (the immutable value object),
    [Module Clock] is infrastructure/clock/hlc.go (the mutable clock, whose
    mutex makes each method one atomic step; the reading of the physical clock
    is an argument) and [Module ClockService] is application/clock. *)

From stdpp Require Import base list strings sorting.
From Stdlib Require Import ZArith Lia.
From S2P Require Import Prelude.

Local Open Scope Z_scope.

(** Both packages declare the same struct: an [int64] and a [uint16]. *)
Record HLC := mkHLC { pt : Z; c : Z }.

#[export] Instance HLC_eq_dec : EqDecision HLC.
Proof. solve_decision. Defined.

Definition hlc_ok (h : HLC) : Prop := is_i64 (pt h) /\ is_u16 (c h).

(** The order the clock is meant to realise. *)
Definition hlc_lt (a b : HLC) : Prop := pt a < pt b \/ (pt a = pt b /\ c a < c b).

#[export] Instance hlc_lt_dec a b : Decision (hlc_lt a b).
Proof. unfold hlc_lt. apply _. Defined.

#[export] Instance hlc_lt_strict : StrictOrder hlc_lt.
Proof.
  split; [intros [] [H|H]; simpl in H; lia|].
  intros [] [] []; unfold hlc_lt; simpl; lia.
Qed.

Lemma hlc_lt_total a b : hlc_lt a b \/ a = b \/ hlc_lt b a.
Proof.
  unfold hlc_lt. destruct a as [p d], b as [p' d']; simpl.
  destruct (Z.lt_trichotomy p p') as [|[->|]]; [auto| |auto].
  destruct (Z.lt_trichotomy d d') as [|[->|]]; auto.
Qed.

Module Model.
Definition NewHLCWithTime (p d : Z) : HLC := mkHLC p d.

Definition PhysicalTime (h : option HLC) : Z :=
  match h with None => 0 | Some h => pt h end.

Definition LogicalCounter (h : option HLC) : Z :=
  match h with None => 0 | Some h => c h end.

Definition LessThan (h other : option HLC) : bool :=
  match h, other with
  | Some h, Some other =>
      if negb (pt h =? pt other) then pt h <? pt other else c h <? c other
  | _, _ => false
  end.

(** [h == other] on pointers, one of them nil. *)
Definition Equal (h other : option HLC) : bool :=
  match h, other with
  | Some h, Some other => (pt h =? pt other) && (c h =? c other)
  | None, None => true
  | _, _ => false
  end.

Definition GreaterThan (h other : option HLC) : bool :=
  negb (LessThan h other) && negb (Equal h other).

Definition Compare (h other : option HLC) : Z :=
  if LessThan h other then -1 else if Equal h other then 0 else 1.

Definition MarshalBinary (h : option HLC) : outcome bytes :=
  match h with
  | None => Fail (NexError ErrClockMarshalNil "HLC is nil")
  | Some h => Ret (be_enc 8 (pt h) ++ be_enc 2 (c h))
  end.

(** The receiver is overwritten; its old contents play no role. *)
Definition UnmarshalBinary (data : bytes) : outcome HLC :=
  if negb (zlen data =? 10) then
    Fail (NexError ErrClockInvalidSize "expected 10 bytes, got")
  else
    p ← be_at 8 data 0;
    d ← be_at 2 data 8;
    Ret (mkHLC (i64 p) d).

Definition Clone (h : option HLC) : option HLC :=
  match h with None => None | Some h => Some (mkHLC (pt h) (c h)) end.

Definition IsAtMaxValue (h : option HLC) : bool :=
  match h with
  | None => false
  | Some h => (pt h =? 2 ^ 48 - 1) && (c h =? 65535)
  end.
End Model.

Module Clock.
Definition maxInt64 (values : list Z) : Z :=
  match values with
  | [] => 0
  | v :: vs => fold_left (fun maxVal v => if maxVal <? v then v else maxVal) vs v
  end.

Definition maxUint16 (a b : Z) : Z := if b <? a then a else b.

(** NewHLC with [time.Now().UnixMilli() = now]. *)
Definition NewHLC (now : Z) : HLC := mkHLC now 0.

(** Now: the new state, which is also the returned timestamp. *)
Definition Now (h : HLC) (now : Z) : HLC :=
  if pt h <? now then mkHLC now 0
  else
    let c' := u16 (c h + 1) in
    if c' =? 0 then mkHLC (i64 (pt h + 1)) 0 else mkHLC (pt h) c'.

Definition Update (h : HLC) (now eventTime : Z) (remoteHLC : option HLC) : HLC :=
  let remotePT := match remoteHLC with Some r => pt r | None => 0 end in
  let remoteC := match remoteHLC with Some r => c r | None => 0 end in
  let newPT := maxInt64 [now; pt h; eventTime; remotePT] in
  if (newPT =? pt h) && (newPT =? remotePT) then
    let newC := u16 (maxUint16 (c h) remoteC + 1) in
    if newC =? 0 then mkHLC (i64 (newPT + 1)) 0 else mkHLC newPT newC
  else mkHLC newPT 0.

Definition ToModelHLC (h : option HLC) : option HLC :=
  match h with None => None | Some h => Some (Model.NewHLCWithTime (pt h) (c h)) end.

Definition FromModelHLC (m : option HLC) : option HLC :=
  match m with
  | None => None
  | Some _ => Some (mkHLC (Model.PhysicalTime m) (Model.LogicalCounter m))
  end.

(** HLCProvider: the clock behind service.ClockProvider. *)
Definition HLCProvider_Now (h : HLC) (now : Z) : HLC * option HLC :=
  let h' := Now h now in (h', ToModelHLC (Some h')).

Definition HLCProvider_Update (h : HLC) (now eventTime : Z) (remoteHLC : option HLC)
    : HLC * option HLC :=
  let remote := match remoteHLC with None => None | Some _ => FromModelHLC remoteHLC end in
  let h' := Update h now eventTime remote in (h', ToModelHLC (Some h')).

Definition HLCProvider_Current (h : HLC) : option HLC :=
  ToModelHLC (Model.Clone (Some h)).

(** A clock and the timestamps it hands out: one event per locked call. *)
Inductive event :=
| EvNow (now : Z)
| EvUpdate (now eventTime : Z) (remote : option HLC).

Definition step (h : HLC) (e : event) : HLC :=
  match e with
  | EvNow now => Now h now
  | EvUpdate now ev r => Update h now ev r
  end.

(** The timestamps returned by a sequence of calls. *)
Fixpoint run (h : HLC) (es : list event) : list HLC :=
  match es with
  | [] => []
  | e :: es => let h' := step h e in h' :: run h' es
  end.
End Clock.

Module ClockService.
Definition CompareTimestamps (t1 t2 : option HLC) : Z := Model.Compare t1 t2.

Definition IsConcurrent (t1 t2 : option HLC) : bool :=
  match t1, t2 with
  | Some _, Some _ =>
      (Model.PhysicalTime t1 =? Model.PhysicalTime t2) &&
      (Model.LogicalCounter t1 =? Model.LogicalCounter t2)
  | _, _ => false
  end.

Definition MaxTimestamp (t1 t2 : option HLC) : option HLC :=
  match t1, t2 with
  | None, _ => t2
  | _, None => t1
  | Some _, Some _ => if Model.GreaterThan t1 t2 then t1 else t2
  end.

(** application/clock declares a second clock with the same state. *)
Definition Now (h : HLC) (now : Z) : HLC * HLC :=
  if pt h <? now then (mkHLC now 0, Model.NewHLCWithTime now 0)
  else
    let h1 := mkHLC (pt h) (u16 (c h + 1)) in
    let h2 := if c h1 =? 0 then mkHLC (i64 (pt h1 + 1)) 0 else h1 in
    (h2, Model.NewHLCWithTime (pt h2) (c h2)).

Definition Update (h : HLC) (now eventTime : Z) (remoteHLC : option HLC) : HLC * HLC :=
  let remotePT := match remoteHLC with Some _ => Model.PhysicalTime remoteHLC | None => 0 end in
  let remoteC := match remoteHLC with Some _ => Model.LogicalCounter remoteHLC | None => 0 end in
  let newPT := Clock.maxInt64 [now; pt h; eventTime; remotePT] in
  let '(newPT, newC) :=
    if (newPT =? pt h) && (newPT =? remotePT) then
      let newC := u16 (Clock.maxUint16 (c h) remoteC + 1) in
      if newC =? 0 then (i64 (newPT + 1), 0) else (newPT, newC)
    else (newPT, 0) in
  (mkHLC newPT newC, Model.NewHLCWithTime newPT newC).

Definition Current (h : HLC) : HLC := Model.NewHLCWithTime (pt h) (c h).
End ClockService.

(** ** Comparison *)

Lemma LessThan_spec a b : Model.LessThan (Some a) (Some b) = bool_decide (hlc_lt a b).
Proof.
  unfold hlc_lt. cbn [Model.LessThan].
  destruct (Z.eqb_spec (pt a) (pt b)); cbn [negb];
    case_bool_decide; (apply Z.ltb_lt || apply Z.ltb_ge); lia.
Qed.

Lemma Equal_spec a b : Model.Equal (Some a) (Some b) = bool_decide (a = b).
Proof.
  destruct a as [p d], b as [p' d']. cbn [Model.Equal pt c].
  case_bool_decide as H; [by simplify_eq; rewrite !Z.eqb_refl|].
  destruct (Z.eqb_spec p p'), (Z.eqb_spec d d'); simpl; congruence.
Qed.

(** Compare is the three-way comparison of the lexicographic order on
    (physical time, counter), and MaxTimestamp returns the larger argument. *)
Theorem compare_spec a b :
  (Model.Compare (Some a) (Some b) = -1 <-> hlc_lt a b) /\
  (Model.Compare (Some a) (Some b) = 0 <-> a = b) /\
  (Model.Compare (Some a) (Some b) = 1 <-> hlc_lt b a) /\
  (exists m, ClockService.MaxTimestamp (Some a) (Some b) = Some m /\
     (m = a \/ m = b) /\ ~ hlc_lt m a /\ ~ hlc_lt m b).
Proof.
  unfold Model.Compare, ClockService.MaxTimestamp, Model.GreaterThan.
  rewrite LessThan_spec, Equal_spec. pose proof hlc_lt_strict as [Hirr Htr].
  unfold Irreflexive, Reflexive, complement in Hirr.
  destruct (decide (hlc_lt a b)) as [H|H].
  - rewrite bool_decide_true by done. cbn [negb andb].
    assert (a <> b) by (intros ->; by apply (Hirr b)).
    assert (~ hlc_lt b a) by (intros ?; by apply (Hirr a), (Htr a b a)).
    split_and!; try (split; intros; done || lia). exists b. naive_solver.
  - rewrite bool_decide_false by done. cbn [negb andb].
    case_bool_decide as E; [subst|]; cbn [negb].
    + split_and!; try (split; intros; done || lia). exists b. naive_solver.
    + assert (hlc_lt b a) by (destruct (hlc_lt_total a b) as [?|[?|?]]; done).
      split_and!; try (split; intros; done || lia). exists a. naive_solver.
Qed.

(** ** The clock *)

Lemma ltb_max a b : (if a <? b then b else a) = Z.max a b.
Proof. destruct (Z.ltb_spec a b); lia. Qed.

Lemma maxInt64_4 a b d e : Clock.maxInt64 [a; b; d; e] = Z.max (Z.max (Z.max a b) d) e.
Proof. unfold Clock.maxInt64. cbn [fold_left]. by rewrite !ltb_max. Qed.

Lemma maxUint16_max a b : Clock.maxUint16 a b = Z.max a b.
Proof. unfold Clock.maxUint16. destruct (Z.ltb_spec b a); lia. Qed.

Lemma u16_succ d : is_u16 d -> u16 (d + 1) = if decide (d = 65535) then 0 else d + 1.
Proof.
  unfold is_u16, u16. intros. case_decide as E; [by rewrite E|].
  apply Z.mod_small. lia.
Qed.

Lemma Now_progress h now :
  hlc_ok h -> pt h < 2 ^ 63 - 1 -> hlc_lt h (Clock.Now h now) /\ now <= pt (Clock.Now h now).
Proof.
  unfold hlc_ok, is_i64, hlc_lt, Clock.Now. intros [Hp Hc] Hmax.
  destruct (Z.ltb_spec (pt h) now); [simpl; lia|].
  rewrite u16_succ by done. case_decide; [rewrite Z.eqb_refl|].
  - rewrite i64_id by (unfold is_i64; lia). simpl. lia.
  - unfold is_u16 in Hc. rewrite (proj2 (Z.eqb_neq _ _)) by lia. simpl. lia.
Qed.

Lemma Now_ok h now : hlc_ok h -> is_i64 now -> hlc_ok (Clock.Now h now).
Proof.
  unfold hlc_ok, Clock.Now. intros [Hp Hc] Hn.
  destruct (Z.ltb_spec (pt h) now); [split; unfold is_u16; simpl; done || lia|].
  destruct (Z.eqb_spec (u16 (c h + 1)) 0); simpl; split; try done; try apply u16_range.
  - unfold i64, is_i64. pose proof (Z.mod_pos_bound (pt h + 1 + 2 ^ 63) (2 ^ 64)). lia.
Qed.

(** Every call, and so every timestamp of a run, keeps the struct's fields in
    their machine ranges. *)
Lemma Update_ok h now ev r :
  hlc_ok h -> is_i64 now -> is_i64 ev -> from_option hlc_ok True r ->
  hlc_ok (Clock.Update h now ev r).
Proof.
  intros [Hp Hc] Hn He Hr. unfold Clock.Update. rewrite maxInt64_4.
  match goal with |- context [Z.max ?x (match r with _ => _ end)] => set (rp := match r with Some r => pt r | None => 0 end) end.
  assert (is_i64 rp) as Hrp by (destruct r as [[]|]; [apply Hr|unfold rp, is_i64; lia]).
  assert (is_i64 (Z.max (Z.max (Z.max now (pt h)) ev) rp)) as Hm
    by (unfold is_i64 in *; lia).
  destruct (_ && _); [|by split; simpl; [|unfold is_u16; lia]].
  destruct (_ =? 0); split; simpl; try done; try apply u16_range.
  unfold i64, is_i64. pose proof (Z.mod_pos_bound (Z.max (Z.max (Z.max now (pt h)) ev) rp + 1 + 2 ^ 63) (2 ^ 64)). lia.
Qed.

Lemma Now_pt_le h now : hlc_ok h -> pt h < 2 ^ 63 - 1 ->
  pt (Clock.Now h now) <= Z.max now (pt h + 1).
Proof.
  unfold hlc_ok, is_i64, Clock.Now. intros [Hp Hc] Hmax.
  destruct (Z.ltb_spec (pt h) now); [simpl; lia|].
  destruct (_ =? 0); simpl; [|lia]. rewrite i64_id by (unfold is_i64; lia). lia.
Qed.

(** A run of local events hands out strictly increasing timestamps, whatever
    the physical clock reads (stalls, jumps back), as long as the physical
    component stays clear of the end of [int64]. *)
Theorem now_run_increasing h (readings : list Z) :
  hlc_ok h -> Forall (fun now => - 2 ^ 62 <= now < 2 ^ 62 - zlen readings) readings ->
  pt h + zlen readings < 2 ^ 62 ->
  StronglySorted hlc_lt (h :: Clock.run h (map Clock.EvNow readings)).
Proof.
  intros Hok Hb Hl. apply Sorted_StronglySorted; [exact (StrictOrder_Transitive (R := hlc_lt))|].
  assert (forall n, zlen readings <= n ->
    Forall (fun now => - 2 ^ 62 <= now < 2 ^ 62 - n) readings -> pt h + n < 2 ^ 62 ->
    Sorted hlc_lt (h :: Clock.run h (map Clock.EvNow readings))) as Hgen.
  { clear Hb Hl. revert h Hok. induction readings as [|now rs IH]; intros h Hok n Hn Hb Hl.
    { repeat constructor. }
    rewrite zlen_cons in Hn. pose proof (zlen_nonneg rs).
    inversion Hb as [|? ? Hnow Hb']; subst.
    destruct (Now_progress h now) as [Hlt _]; [done|lia|].
    constructor; [|by constructor].
    apply (IH (Clock.Now h now) ltac:(apply Now_ok; [done|unfold is_i64; lia]) (n - 1)); [lia| |].
    - eapply Forall_impl; [exact Hb'|]. simpl. lia.
    - pose proof (Now_pt_le h now Hok). lia. }
  apply (Hgen (zlen readings)); [lia|done|done].
Qed.

Lemma now_run_increasing_witness :
  StronglySorted hlc_lt
    (mkHLC 100 65534 :: Clock.run (mkHLC 100 65534) (map Clock.EvNow [100; 90; 100; 101; 105])).
Proof.
  apply (now_run_increasing (mkHLC 100 65534) [100; 90; 100; 101; 105]).
  - split; [unfold is_i64|unfold is_u16]; simpl; lia.
  - change (zlen _) with 5. repeat constructor; lia.
  - change (zlen _) with 5. simpl. lia.
Defined.

(** Update moves a clock forward exactly when the new physical time exceeds
    the clock's, or local and remote physical times are both the maximum; in
    every other case (a remote strictly behind the clock) it keeps the physical
    time and resets the counter, so the clock stands still or goes back. *)
Theorem update_progress_iff h now ev r :
  hlc_ok h -> hlc_ok r -> now < 2 ^ 63 - 1 -> ev < 2 ^ 63 - 1 ->
  pt h < 2 ^ 63 - 1 -> pt r < 2 ^ 63 - 1 ->
  (hlc_lt h (Clock.Update h now ev (Some r)) <->
     pt h < Z.max (Z.max now ev) (pt r) \/ pt r = pt h) /\
  (~ hlc_lt h (Clock.Update h now ev (Some r)) ->
     Clock.Update h now ev (Some r) = mkHLC (pt h) 0).
Proof.
  intros [Hp Hc] [Hrp Hrc] Hn He Hmh Hmr. unfold Clock.Update, hlc_lt.
  rewrite maxInt64_4, maxUint16_max. unfold is_u16, is_i64 in *.
  set (m := Z.max (Z.max (Z.max now (pt h)) ev) (pt r)).
  assert (is_u16 (Z.max (c h) (c r))) as H16 by (unfold is_u16; lia).
  destruct (Z.eqb_spec m (pt h)) as [E1|E1], (Z.eqb_spec m (pt r)) as [E2|E2];
    cbn [andb]; cycle 1; try (simpl; split; [lia|intros; f_equal; lia]).
  rewrite u16_succ by done. case_decide.
  - rewrite Z.eqb_refl, i64_id by (unfold is_i64; lia). simpl. split; [lia|lia].
  - rewrite (proj2 (Z.eqb_neq _ 0)) by lia. simpl. split; lia.
Qed.

Lemma update_progress_iff_witness :
  Clock.Update (mkHLC 100 5) 90 0 (Some (mkHLC 50 3)) = mkHLC 100 0.
Proof.
  apply (update_progress_iff (mkHLC 100 5) 90 0 (mkHLC 50 3));
    try (split; unfold is_i64, is_u16; simpl; lia); simpl; try lia.
  unfold hlc_lt. vm_compute. intros [H|[_ H]]; discriminate.
Defined.

(** Receiving a message orders the result after the remote timestamp only when
    the remote is behind in physical time, or ties with the local clock. *)
Lemma update_after_remote_iff h now ev r :
  hlc_ok h -> hlc_ok r -> now < 2 ^ 63 - 1 -> ev < 2 ^ 63 - 1 ->
  pt h < 2 ^ 63 - 1 -> pt r < 2 ^ 63 - 1 ->
  hlc_lt r (Clock.Update h now ev (Some r)) <->
  pt r < Z.max (Z.max now ev) (pt h) \/ pt r = pt h.
Proof.
  intros [Hp Hc] [Hrp Hrc] Hn He Hmh Hmr. unfold Clock.Update, hlc_lt.
  rewrite maxInt64_4, maxUint16_max. unfold is_u16, is_i64 in *.
  set (m := Z.max (Z.max (Z.max now (pt h)) ev) (pt r)).
  assert (is_u16 (Z.max (c h) (c r))) as H16 by (unfold is_u16; lia).
  destruct (Z.eqb_spec m (pt h)) as [E1|E1], (Z.eqb_spec m (pt r)) as [E2|E2];
    cbn [andb]; cycle 1; try (simpl; lia).
  rewrite u16_succ by done. case_decide.
  - rewrite Z.eqb_refl, i64_id by (unfold is_i64; lia). simpl. lia.
  - rewrite (proj2 (Z.eqb_neq _ 0)) by lia. simpl. lia.
Qed.

(** ** The binary form *)

(** MarshalBinary and UnmarshalBinary are inverse bijections between the
    timestamps and the 10-byte strings, and UnmarshalBinary rejects every other
    length. *)
Theorem hlc_marshal_bijection :
  (forall h, hlc_ok h ->
     exists bs, Model.MarshalBinary (Some h) = Ret bs /\ zlen bs = 10 /\
       Model.UnmarshalBinary bs = Ret h) /\
  (forall bs, bytes_ok bs -> zlen bs = 10 ->
     exists h, Model.UnmarshalBinary bs = Ret h /\ hlc_ok h /\
       Model.MarshalBinary (Some h) = Ret bs) /\
  (forall bs, zlen bs <> 10 -> exists d,
     Model.UnmarshalBinary bs = Fail (NexError ErrClockInvalidSize d)).
Proof.
  split_and!.
  - intros [p d] [Hp Hc]. simpl in Hp, Hc. eexists. split; [reflexivity|].
    assert (zlen (be_enc 8 p ++ be_enc 2 d) = 10) as Hl by zlen_solve.
    split; [done|]. unfold Model.UnmarshalBinary, be_at.
    cbn [pt c]. rewrite Hl. cbn [negb Z.eqb Pos.eqb].
    read_slice. rewrite !bind_ret. read_slice.
    by rewrite !bind_ret, be_dec_enc8, be_dec_enc2, i64_u64, u16_id.
  - intros bs Hok Hl. unfold Model.UnmarshalBinary, be_at. rewrite Hl. cbn [negb Z.eqb Pos.eqb].
    rewrite <- (ztake_zdrop_id 8 bs) in Hok |- *. apply Forall_app in Hok as [H8 H2].
    set (b8 := ztake 8 bs) in *. set (b2 := zdrop 8 bs) in *.
    assert (zlen b8 = 8) as L8 by (unfold b8; zlen_solve).
    assert (zlen b2 = 2) as L2 by (unfold b2; zlen_solve).
    rewrite (slice_head b8 _ 0) by lia. rewrite !bind_ret, slice_skip by lia.
    rewrite slice_full by lia. rewrite !bind_ret.
    eexists. split; [reflexivity|].
    assert (is_u64 (be_dec b8)) as R8.
    { pose proof (be_dec_range b8 H8) as R. by rewrite L8 in R. }
    assert (is_u16 (be_dec b2)) as R2.
    { pose proof (be_dec_range b2 H2) as R. by rewrite L2 in R. }
    split; [split; [|done]|].
    + simpl. unfold i64, is_i64.
      pose proof (Z.mod_pos_bound (be_dec b8 + 2 ^ 63) (2 ^ 64)). lia.
    + cbn [Model.MarshalBinary pt c]. do 2 f_equal.
      * rewrite <- (be_enc_dec 8 b8) at 2; [|done|unfold zlen in L8; lia].
        apply be_enc_mod_eq. unfold i64.
        change (256 ^ Z.of_nat 8) with (2 ^ 64).
        rewrite Zminus_mod_idemp_l. f_equal. lia.
      * apply be_enc_dec; [done|unfold zlen in L2; lia].
  - intros bs Hl. unfold Model.UnmarshalBinary.
    rewrite (proj2 (Z.eqb_neq _ _)) by done. simpl. eauto.
Qed.

(** ** The application clock is the same clock *)

(** The two clock implementations of the code base step identically and
    return the state they leave behind. *)
Theorem app_clock_equiv h now ev r :
  (let '(h', t) := ClockService.Now h now in h' = Clock.Now h now /\ t = h') /\
  (let '(h', t) := ClockService.Update h now ev r in
     h' = Clock.Update h now ev r /\ t = h' /\
     Clock.HLCProvider_Update h now ev r = (h', Some t)).
Proof.
  split.
  - unfold ClockService.Now, Clock.Now. destruct (_ <? _); [done|]. cbn [pt c].
    destruct (_ =? 0); done.
  - unfold ClockService.Update, Clock.HLCProvider_Update, Clock.Update.
    destruct r as [[]|]; simpl; destruct (_ && _); try destruct (_ =? 0); done.
Qed.
