(* ===== verification/WalFormat.v ===== *)
(** * The write-ahead log entry format (wal/types.go, wal/crc.go,
    domain/service/wal.go)

    CRC32C is the reflected Castagnoli CRC of Go's hash/crc32, computed bit by
    bit.  [MarshalWALEntry] and [UnmarshalWALEntry] follow the two functions of
    types.go field by field. *)

From stdpp Require Import base list gmap strings.
From Stdlib Require Import ZArith Lia.
From S2P Require Import Prelude.

Local Open Scope Z_scope.

(** ** Entry types *)

Definition WALTypeInsert : Z := 0.
Definition WALTypeUpdate : Z := 1.
Definition WALTypeDelete : Z := 2.
Definition WALTypeCommit : Z := 3.
Definition WALTypeRollback : Z := 4.
Definition WALTypeCheckpoint : Z := 5.
Definition WALTypeSplit : Z := 6.
Definition WALTypeTxBegin : Z := 7.
Definition WALTypeTxWrite : Z := 8.
Definition WALTypeTxCommit : Z := 9.
Definition WALTypeTxRollback : Z := 10.
Definition WALTypeTxPrepare : Z := 11.

Definition LSNInvalid : Z := 0.

Definition WALTypeString (wt : Z) : string :=
  if wt =? WALTypeInsert then "Insert"
  else if wt =? WALTypeUpdate then "Update"
  else if wt =? WALTypeDelete then "Delete"
  else if wt =? WALTypeCommit then "Commit"
  else if wt =? WALTypeRollback then "Rollback"
  else if wt =? WALTypeCheckpoint then "Checkpoint"
  else if wt =? WALTypeSplit then "Split"
  else if wt =? WALTypeTxBegin then "TxBegin"
  else if wt =? WALTypeTxWrite then "TxWrite"
  else if wt =? WALTypeTxCommit then "TxCommit"
  else if wt =? WALTypeTxRollback then "TxRollback"
  else if wt =? WALTypeTxPrepare then "TxPrepare"
  else "Unknown".

(** Key and Value are nil-able slices. *)
Record WALEntry := mkWALEntry {
  LSN : Z;
  TxID : Z;
  Timestamp : Z;
  Type_ : Z;
  Key : option bytes;
  Value : option bytes;
  PrevLSN : Z;
  ShardID : Z;
  Term : Z;
}.

Definition zeroWALEntry : WALEntry := mkWALEntry 0 0 0 0 None None 0 0 0.

Abbreviation nilbytes o := (default (@nil Z) o).

Definition NewWALEntry (now entryType txID : Z) (key value : option bytes)
    (prevLSN : Z) : WALEntry :=
  mkWALEntry 0 txID now entryType key value prevLSN 0 0.

(** ** CRC32C *)

Definition castagnoli : Z := 0x82F63B78.

Definition crc_bit (crc : Z) : Z :=
  if Z.odd crc then Z.lxor (Z.shiftr crc 1) castagnoli else Z.shiftr crc 1.

Definition crc_byte (crc b : Z) : Z := Nat.iter 8 crc_bit (Z.lxor crc b).

Definition CRC32C (data : bytes) : Z :=
  Z.lxor (fold_left crc_byte data 0xFFFFFFFF) 0xFFFFFFFF.

Definition trailerMagic : Z := 0xDEADBEEF.

(** ** MarshalWALEntry *)

(** [(payloadLen + 7) &^ 7]. *)
Definition align8 (n : Z) : Z := Z.ldiff (n + 7) 7.

Definition MarshalWALEntry (e : WALEntry) : outcome bytes :=
  let key := nilbytes (Key e) in
  let value := nilbytes (Value e) in
  let keyLen := zlen key in
  let valueLen := zlen value in
  let payloadLen := 8 + 1 + 2 + 2 + 8 + 8 + 8 + 4 + 4 + keyLen + valueLen in
  let paddedLen := align8 payloadLen in
  let paddingLen := paddedLen - payloadLen in
  let totalLen := 4 + 4 + paddedLen + 4 in
  let buf := zeros totalLen in
  let offset := 0 in
  let offset := offset + 4 in
  buf ← write_at buf offset (be_enc 4 (u32 paddedLen));
  let offset := offset + 4 in
  buf ← write_at buf offset (be_enc 8 (LSN e));
  let offset := offset + 8 in
  buf ← write_at buf offset [u8 (Type_ e)];
  let offset := offset + 1 in
  buf ← write_at buf offset (be_enc 2 (ShardID e));
  let offset := offset + 2 in
  buf ← write_at buf offset (be_enc 2 (Term e));
  let offset := offset + 2 in
  buf ← write_at buf offset (be_enc 8 (TxID e));
  let offset := offset + 8 in
  buf ← write_at buf offset (be_enc 8 (u64 (Timestamp e)));
  let offset := offset + 8 in
  buf ← write_at buf offset (be_enc 8 (PrevLSN e));
  let offset := offset + 8 in
  buf ← write_at buf offset (be_enc 4 (u32 keyLen));
  let offset := offset + 4 in
  buf ← write_at buf offset (be_enc 4 (u32 valueLen));
  let offset := offset + 4 in
  buf ← (if 0 <? keyLen then copy_at buf offset key else Ret buf);
  let offset := if 0 <? keyLen then offset + keyLen else offset in
  buf ← (if 0 <? valueLen then copy_at buf offset value else Ret buf);
  let offset := if 0 <? valueLen then offset + valueLen else offset in
  buf ← write_at buf offset (zeros paddingLen);
  let offset := offset + paddingLen in
  buf ← write_at buf offset (be_enc 4 trailerMagic);
  covered ← slice buf 4 (4 + 4 + paddedLen);
  write_at buf 0 (be_enc 4 (CRC32C covered)).

(** ** UnmarshalWALEntry: the receiver [e] is overwritten *)

Definition UnmarshalWALEntry (data : bytes) : outcome WALEntry :=
  if zlen data <? 4 + 4 + 8 + 1 + 2 + 2 + 8 + 8 + 8 + 4 + 4 + 4 then
    Fail (Sentinel ErrWALEntryCorrupted) else
  crc ← be_at 4 data 0;
  length ← be_at 4 data 4;
  let paddedEnd := 4 + 4 + length in
  if zlen data <? paddedEnd + 4 then Fail (Sentinel ErrWALEntryCorrupted) else
  covered ← slice data 4 paddedEnd;
  if negb (CRC32C covered =? crc) then Fail (Sentinel ErrWALChecksumMismatch) else
  trailer ← be_at 4 data paddedEnd;
  if negb (trailer =? trailerMagic) then Fail (Sentinel ErrWALTruncatedEntry) else
  let offset := 8 in
  lsn ← be_at 8 data offset;
  let offset := offset + 8 in
  ty ← index data offset;
  let offset := offset + 1 in
  shard ← be_at 2 data offset;
  let offset := offset + 2 in
  term ← be_at 2 data offset;
  let offset := offset + 2 in
  txid ← be_at 8 data offset;
  let offset := offset + 8 in
  ts ← be_at 8 data offset;
  let offset := offset + 8 in
  prev ← be_at 8 data offset;
  let offset := offset + 8 in
  keyLen ← be_at 4 data offset;
  let offset := offset + 4 in
  valueLen ← be_at 4 data offset;
  let offset := offset + 4 in
  key ← (if 0 <? keyLen then k ← slice data offset (offset + keyLen); Ret (Some k)
         else Ret None);
  let offset := if 0 <? keyLen then offset + keyLen else offset in
  value ← (if 0 <? valueLen then v ← slice data offset (offset + valueLen); Ret (Some v)
           else Ret None);
  Ret (mkWALEntry lsn txid (i64 ts) ty key value prev shard term).

(** ** Configuration *)

Inductive SyncPolicy :=
| SyncPolicyEveryWrite | SyncPolicyEverySecond | SyncPolicyBatch | SyncPolicyGroupCommit.

#[export] Instance SyncPolicy_eq_dec : EqDecision SyncPolicy.
Proof. solve_decision. Defined.

Record WALConfig := mkWALConfig {
  Dir : string;
  SegmentSize : Z;
  Policy : SyncPolicy;
}.

Definition DefaultWALConfig : WALConfig :=
  mkWALConfig "" (64 * 1024 * 1024) SyncPolicyEveryWrite.

Definition Validate (cfg : WALConfig) : outcome unit :=
  if bool_decide (Dir cfg = ""%string) then Fail (Sentinel ErrWALInvalidConfig) else
  if SegmentSize cfg <? 1024 * 1024 then Fail (Sentinel ErrWALInvalidConfig) else
  Ret tt.

(** The wire format as a concatenation of its fields. *)
Definition wal_payload (e : WALEntry) : bytes :=
  let key := nilbytes (Key e) in
  let value := nilbytes (Value e) in
  be_enc 8 (LSN e) ++ [u8 (Type_ e)] ++ be_enc 2 (ShardID e) ++ be_enc 2 (Term e) ++
  be_enc 8 (TxID e) ++ be_enc 8 (u64 (Timestamp e)) ++ be_enc 8 (PrevLSN e) ++
  be_enc 4 (u32 (zlen key)) ++ be_enc 4 (u32 (zlen value)) ++ key ++ value.

Definition wal_covered (e : WALEntry) : bytes :=
  let p := wal_payload e in
  be_enc 4 (u32 (align8 (zlen p))) ++ p ++ zeros (align8 (zlen p) - zlen p).

Definition wal_wire (e : WALEntry) : bytes :=
  be_enc 4 (CRC32C (wal_covered e)) ++ wal_covered e ++ be_enc 4 trailerMagic.

(** Fields within their Go types, slices short enough for a 32-bit length. *)
Definition entry_ok (e : WALEntry) : Prop :=
  is_u64 (LSN e) /\ is_u64 (TxID e) /\ is_i64 (Timestamp e) /\ is_u8 (Type_ e) /\
  is_u64 (PrevLSN e) /\ is_u16 (ShardID e) /\ is_u16 (Term e) /\
  zlen (nilbytes (Key e)) + zlen (nilbytes (Value e)) < 2 ^ 32 - 64.

(** Decoding turns an empty slice into nil. *)
Definition norm_nil (o : option bytes) : option bytes :=
  match o with Some [] => None | o => o end.
Definition norm_entry (e : WALEntry) : WALEntry :=
  mkWALEntry (LSN e) (TxID e) (Timestamp e) (Type_ e) (norm_nil (Key e))
    (norm_nil (Value e)) (PrevLSN e) (ShardID e) (Term e).

(** ** The writer produces the wire format *)

Lemma copy_nonempty a n off src :
  off = zlen a -> zlen src <= n ->
  (if 0 <? zlen src then copy_at (a ++ zeros n) off src else Ret (a ++ zeros n))
  = Ret ((a ++ src) ++ zeros (n - zlen src)).
Proof.
  intros. destruct (Z.ltb_spec 0 (zlen src)); [by apply copy_at_fill|].
  rewrite (zlen_le_0 src) by lia.
  by rewrite app_nil_r, zlen_nil, Z.sub_0_r.
Qed.

Lemma advance_nonempty {A} off (l : list A) :
  (if 0 <? zlen l then off + zlen l else off) = off + zlen l.
Proof. pose proof (zlen_nonneg l). destruct (Z.ltb_spec 0 (zlen l)); lia. Qed.

Lemma align8_spec n : 0 <= n -> align8 n = 8 * ((n + 7) / 8).
Proof.
  intros. unfold align8. change 7 with (Z.ones 3).
  rewrite Z.ldiff_ones_r, Z.shiftl_mul_pow2, Z.shiftr_div_pow2 by lia.
  change (2 ^ 3) with 8. change (Z.ones 3) with 7. lia.
Qed.

Lemma align8_bounds n : 0 <= n -> n <= align8 n < n + 8.
Proof.
  intros. rewrite align8_spec by done.
  pose proof (Z.div_mod (n + 7) 8). pose proof (Z.mod_pos_bound (n + 7) 8). lia.
Qed.

Lemma zlen_wal_payload e :
  zlen (wal_payload e) =
    8 + 1 + 2 + 2 + 8 + 8 + 8 + 4 + 4 + zlen (nilbytes (Key e)) + zlen (nilbytes (Value e)).
Proof. unfold wal_payload. autorewrite with zlen_db. lia. Qed.

Lemma zlen_wal_covered e : zlen (wal_covered e) = 4 + align8 (zlen (wal_payload e)).
Proof.
  pose proof (align8_bounds (zlen (wal_payload e)) (zlen_nonneg _)).
  unfold wal_covered. autorewrite with zlen_db. lia.
Qed.

Lemma MarshalWALEntry_wire e : MarshalWALEntry e = Ret (wal_wire e).
Proof.
  unfold MarshalWALEntry. cbv zeta.
  set (key := nilbytes (Key e)). set (value := nilbytes (Value e)).
  pose proof (zlen_nonneg key). pose proof (zlen_nonneg value).
  pose proof (zlen_wal_payload e) as Hp. fold key value in Hp.
  rewrite <- Hp. set (p := zlen (wal_payload e)) in *.
  pose proof (align8_bounds p ltac:(lia)) as Ha. set (q := align8 p) in *.
  rewrite !advance_nonempty.
  replace (zeros (4 + 4 + q + 4)) with (zeros 4 ++ zeros (4 + q + 4))
    by (rewrite <- zeros_app by lia; f_equal; lia).
  rewrite (write_at_fill (zeros 4)) by zlen_solve.
  repeat first
    [ rewrite bind_ret
    | rewrite write_at_fill by zlen_solve
    | rewrite copy_nonempty by zlen_solve ].
  match goal with |- slice ?b _ _ ≫= _ = _ =>
    assert (b = zeros 4 ++ wal_covered e ++ be_enc 4 trailerMagic) as -> end.
  { replace (4 + q + 4 - _ - _ - _ - _ - _ - _ - _ - _ - _ - _ - _ - _ - _ - _) with 0
      by (autorewrite with zlen_db; lia).
    change (zeros 0) with (@nil Z). rewrite app_nil_r.
    unfold wal_covered, wal_payload. fold key value. fold (wal_payload e).
    rewrite <- !app_assoc. fold p q. done. }
  assert (zlen (wal_covered e) = 4 + q) as Hc by apply zlen_wal_covered.
  rewrite slice_mid by zlen_solve. rewrite bind_ret.
  by rewrite write_at_head by zlen_solve.
Qed.

(** ** CRC32C detects any change of one byte *)

Lemma odd_testbit z : Z.odd z = Z.testbit z 0.
Proof. by rewrite Z.bit0_odd. Qed.

(** One bit step is injective on 32-bit registers: the polynomial has its top
    bit set, so bit 31 of the result tells whether it was added. *)
Lemma crc_bit_top x : is_u32 x -> Z.testbit (crc_bit x) 31 = Z.odd x.
Proof.
  unfold is_u32, crc_bit. intros H.
  assert (Z.testbit (Z.shiftr x 1) 31 = false) as E.
  { rewrite Z.shiftr_spec by lia. apply Z.bits_above_log2; [lia|].
    destruct (decide (x = 0)) as [->|]; [done|]. apply Z.log2_lt_pow2; lia. }
  destruct (Z.odd x); [rewrite Z.lxor_spec, E|]; done.
Qed.

Lemma shiftr1_range x : is_u32 x -> is_u32 (Z.shiftr x 1).
Proof.
  unfold is_u32. rewrite Z.shiftr_div_pow2 by lia. change (2 ^ 1) with 2. intros.
  split; [apply Z.div_pos; lia|]. apply Z.div_lt_upper_bound; lia.
Qed.

Lemma lxor_range n x y : 0 <= n -> 0 <= x < 2 ^ n -> 0 <= y < 2 ^ n -> 0 <= Z.lxor x y < 2 ^ n.
Proof.
  intros Hn [Hx Hx'] [Hy Hy'].
  assert (0 <= Z.lxor x y) as H0 by (apply Z.lxor_nonneg; tauto).
  split; [done|].
  destruct (decide (Z.lxor x y = 0)) as [->|Hz]; [apply Z.pow_pos_nonneg; lia|].
  apply Z.log2_lt_pow2; [lia|].
  assert (forall z, 0 <= z < 2 ^ n -> z <> 0 -> Z.log2 z < n) as HL
    by (intros z ? ?; apply Z.log2_lt_pow2; lia).
  destruct (decide (x = 0)) as [->|Hx0]; [rewrite Z.lxor_0_l in *; by apply HL|].
  destruct (decide (y = 0)) as [->|Hy0]; [rewrite Z.lxor_0_r in *; by apply HL|].
  pose proof (Z.log2_lxor x y Hx Hy). pose proof (HL x ltac:(done) Hx0).
  pose proof (HL y ltac:(done) Hy0). lia.
Qed.

Lemma crc_bit_range x : is_u32 x -> is_u32 (crc_bit x).
Proof.
  intros H. unfold crc_bit. pose proof (shiftr1_range x H).
  destruct (Z.odd x); [|done]. apply (lxor_range 32); [lia|done|].
  unfold castagnoli. lia.
Qed.

Lemma lxor_cancel_r x y z : Z.lxor x z = Z.lxor y z -> x = y.
Proof.
  intros E. apply (f_equal (fun w => Z.lxor w z)) in E.
  by rewrite !Z.lxor_assoc, Z.lxor_nilpotent, !Z.lxor_0_r in E.
Qed.

Lemma crc_bit_inj x y : is_u32 x -> is_u32 y -> crc_bit x = crc_bit y -> x = y.
Proof.
  intros Hx Hy E. pose proof (crc_bit_top x Hx) as Tx. rewrite E, crc_bit_top in Tx by done.
  unfold crc_bit in E. rewrite Tx in E.
  assert (Z.shiftr x 1 = Z.shiftr y 1) as Es
    by (destruct (Z.odd x); [by eapply lxor_cancel_r|done]).
  rewrite !Z.shiftr_div_pow2 in Es by lia. change (2 ^ 1) with 2 in Es.
  rewrite (Zdiv2_odd_eqn x), (Zdiv2_odd_eqn y), Tx.
  rewrite !Z.div2_div, Es. done.
Qed.

Lemma crc_iter_range n x : is_u32 x -> is_u32 (Nat.iter n crc_bit x).
Proof. intros. induction n; simpl; [done|by apply crc_bit_range]. Qed.

Lemma crc_iter_inj n x y :
  is_u32 x -> is_u32 y -> Nat.iter n crc_bit x = Nat.iter n crc_bit y -> x = y.
Proof.
  intros Hx Hy. induction n; simpl; [done|]. intros E. apply IHn.
  apply crc_bit_inj; [by apply crc_iter_range..|done].
Qed.

Lemma crc_lxor_range crc b : is_u32 crc -> is_u8 b -> is_u32 (Z.lxor crc b).
Proof.
  intros Hc Hb. apply (lxor_range 32); [lia|done|]. unfold is_u8 in Hb. lia.
Qed.

Lemma crc_byte_range crc b : is_u32 crc -> is_u8 b -> is_u32 (crc_byte crc b).
Proof. intros. by apply crc_iter_range, crc_lxor_range. Qed.

Lemma crc_byte_inj_l x y b :
  is_u32 x -> is_u32 y -> is_u8 b -> crc_byte x b = crc_byte y b -> x = y.
Proof.
  intros Hx Hy Hb E. apply crc_iter_inj in E; [|by apply crc_lxor_range..].
  by eapply lxor_cancel_r.
Qed.

Lemma crc_byte_inj_r x b b' :
  is_u32 x -> is_u8 b -> is_u8 b' -> crc_byte x b = crc_byte x b' -> b = b'.
Proof.
  intros Hx Hb Hb' E. apply crc_iter_inj in E; [|by apply crc_lxor_range..].
  rewrite (Z.lxor_comm x b), (Z.lxor_comm x b') in E. by eapply lxor_cancel_r.
Qed.

Lemma crc_fold_range bs crc : is_u32 crc -> bytes_ok bs -> is_u32 (fold_left crc_byte bs crc).
Proof.
  revert crc. induction bs as [|b bs IH]; intros crc Hc Hok; [done|].
  inversion Hok; subst. apply IH; [by apply crc_byte_range|done].
Qed.

Lemma crc_fold_inj bs x y :
  is_u32 x -> is_u32 y -> bytes_ok bs ->
  fold_left crc_byte bs x = fold_left crc_byte bs y -> x = y.
Proof.
  revert x y. induction bs as [|b bs IH]; intros x y Hx Hy Hok E; [done|].
  inversion Hok; subst. eapply crc_byte_inj_l, IH; eauto using crc_byte_range.
Qed.

Lemma crc32c_range bs : bytes_ok bs -> is_u32 (CRC32C bs).
Proof.
  intros. apply (lxor_range 32); [lia|apply crc_fold_range; [unfold is_u32; lia|done]|lia].
Qed.

Lemma crc32c_single a b b' z :
  bytes_ok a -> is_u8 b -> is_u8 b' -> bytes_ok z -> b <> b' ->
  CRC32C (a ++ b :: z) <> CRC32C (a ++ b' :: z).
Proof.
  intros Ha Hb Hb' Hz Hne E. apply lxor_cancel_r in E.
  rewrite !fold_left_app in E. simpl in E.
  assert (is_u32 (fold_left crc_byte a 4294967295)) by (apply crc_fold_range; [unfold is_u32; lia|done]).
  apply crc_fold_inj in E; [|by apply crc_byte_range..|done].
  by apply crc_byte_inj_r in E.
Qed.

(** ** The reader inverts the writer *)

(** The decoded length field is the length of the padded payload. *)
Lemma be_dec_enc4_id v : is_u32 v -> be_dec (be_enc 4 v) = v.
Proof. intros. by rewrite be_dec_enc4, u32_id. Qed.

(** UnmarshalWALEntry on a frame whose covered bytes are arbitrary: the checks
    that precede the decoding of the fields. *)
Lemma unmarshal_frame crc cov trailer rest :
  is_u32 crc -> is_u32 trailer -> 49 <= zlen cov ->
  be_at 4 (cov ++ be_enc 4 trailer ++ rest) 0 = Ret (zlen cov - 4) ->
  let data := be_enc 4 crc ++ cov ++ be_enc 4 trailer ++ rest in
  (CRC32C cov <> crc -> UnmarshalWALEntry data = Fail (Sentinel ErrWALChecksumMismatch)) /\
  (CRC32C cov = crc -> trailer <> trailerMagic ->
     UnmarshalWALEntry data = Fail (Sentinel ErrWALTruncatedEntry)).
Proof.
  intros Hcrc Htr Hcov Hlen data. unfold UnmarshalWALEntry. cbv zeta.
  assert (zlen data = 8 + zlen cov + zlen rest) as Hd
    by (unfold data; autorewrite with zlen_db; lia).
  pose proof (zlen_nonneg rest).
  rewrite (proj2 (Z.ltb_ge _ _)) by lia.
  assert (be_at 4 data 0 = Ret crc) as ->.
  { unfold data. rewrite (be_at_slice 4 _ 0 (be_enc 4 crc)).
    - by rewrite be_dec_enc4_id.
    - read_slice. done. }
  assert (be_at 4 data 4 = Ret (zlen cov - 4)) as ->.
  { unfold be_at, data. rewrite slice_skip by zlen_solve. rewrite <- Hlen.
    unfold be_at. autorewrite with zlen_db. done. }
  rewrite !bind_ret.
  rewrite (proj2 (Z.ltb_ge _ _)) by lia.
  assert (slice data 4 (4 + 4 + (zlen cov - 4)) = Ret cov) as ->.
  { unfold data. apply slice_mid; autorewrite with zlen_db; lia. }
  rewrite bind_ret. split.
  - intros Hne. by rewrite (proj2 (Z.eqb_neq _ _)).
  - intros -> Hne. rewrite Z.eqb_refl. cbn [negb].
    assert (be_at 4 data (4 + 4 + (zlen cov - 4)) = Ret trailer) as ->.
    { rewrite (be_at_slice 4 _ _ (be_enc 4 trailer)); [by rewrite be_dec_enc4_id|].
      unfold data. read_slice. done. }
    rewrite bind_ret. by rewrite (proj2 (Z.eqb_neq _ _)).
Qed.

Lemma wal_payload_ok e :
  entry_ok e -> bytes_ok (nilbytes (Key e)) -> bytes_ok (nilbytes (Value e)) ->
  bytes_ok (wal_payload e).
Proof.
  intros _ Hk Hv. unfold wal_payload. rewrite !bytes_ok_app. auto 15.
Qed.

Lemma wal_covered_ok e :
  entry_ok e -> bytes_ok (nilbytes (Key e)) -> bytes_ok (nilbytes (Value e)) ->
  bytes_ok (wal_covered e).
Proof.
  intros. unfold wal_covered. rewrite !bytes_ok_app.
  split_and!; auto using wal_payload_ok.
Qed.

Lemma entry_padded_u32 e : entry_ok e -> is_u32 (align8 (zlen (wal_payload e))).
Proof.
  intros (_ & _ & _ & _ & _ & _ & _ & Hlen). rewrite zlen_wal_payload.
  set (n := zlen (nilbytes (Key e)) + zlen (nilbytes (Value e))) in *.
  pose proof (zlen_nonneg (nilbytes (Key e))). pose proof (zlen_nonneg (nilbytes (Value e))).
  pose proof (align8_bounds (8 + 1 + 2 + 2 + 8 + 8 + 8 + 4 + 4 + zlen (nilbytes (Key e)) + zlen (nilbytes (Value e))) ltac:(lia)).
  unfold is_u32. lia.
Qed.

Lemma slice_opt (data : bytes) off (o : option bytes) :
  slice data off (off + zlen (nilbytes o)) = Ret (nilbytes o) ->
  (if 0 <? zlen (nilbytes o)
   then k ← slice data off (off + zlen (nilbytes o)); Ret (Some k) else Ret None)
  = Ret (norm_nil o).
Proof.
  intros H. rewrite H. by destruct o as [[|x l]|].
Qed.

Lemma unmarshal_wire e rest :
  entry_ok e -> bytes_ok (nilbytes (Key e)) -> bytes_ok (nilbytes (Value e)) ->
  UnmarshalWALEntry (wal_wire e ++ rest) = Ret (norm_entry e).
Proof.
  intros Hok Hk Hv.
  pose proof (entry_padded_u32 e Hok) as Hpad.
  pose proof (wal_covered_ok e Hok Hk Hv) as Hcok.
  pose proof (zlen_wal_payload e) as Hpl. pose proof (zlen_wal_covered e) as Hcl.
  pose proof (align8_bounds (zlen (wal_payload e)) (zlen_nonneg _)) as Hal.
  set (data := wal_wire e ++ rest).
  assert (data = be_enc 4 (CRC32C (wal_covered e)) ++ wal_covered e ++
                 be_enc 4 trailerMagic ++ rest) as Ed
    by (unfold data, wal_wire; by rewrite <- !app_assoc).
  set (q := align8 (zlen (wal_payload e))) in *.
  assert (data = be_enc 4 (CRC32C (wal_covered e)) ++ be_enc 4 (u32 q) ++
            be_enc 8 (LSN e) ++ [u8 (Type_ e)] ++ be_enc 2 (ShardID e) ++ be_enc 2 (Term e) ++
            be_enc 8 (TxID e) ++ be_enc 8 (u64 (Timestamp e)) ++ be_enc 8 (PrevLSN e) ++
            be_enc 4 (u32 (zlen (nilbytes (Key e)))) ++ be_enc 4 (u32 (zlen (nilbytes (Value e)))) ++
            nilbytes (Key e) ++ nilbytes (Value e) ++
            zeros (q - zlen (wal_payload e)) ++ be_enc 4 trailerMagic ++ rest) as Ef.
  { rewrite Ed. generalize (CRC32C (wal_covered e)). intros crc.
    unfold wal_covered. fold q. generalize (zeros (q - zlen (wal_payload e))). intros z.
    unfold wal_payload. by rewrite <- !app_assoc. }
  destruct Hok as (H1 & H2 & H3 & H4 & H5 & H6 & H7 & H8).
  set (key := nilbytes (Key e)) in *. set (value := nilbytes (Value e)) in *.
  pose proof (zlen_nonneg key). pose proof (zlen_nonneg value). pose proof (zlen_nonneg rest).
  assert (zlen data = 12 + q + zlen rest) as Hd
    by (rewrite Ed; autorewrite with zlen_db; lia).
  assert (forall n off v, slice data off (off + Z.of_nat n) = Ret (be_enc n v) ->
            be_at n data off = Ret (v mod 256 ^ Z.of_nat n)) as Hbe.
  { intros n off v E. rewrite (be_at_slice _ _ _ _ E). by rewrite be_dec_enc. }
  unfold UnmarshalWALEntry. cbv zeta.
  rewrite (proj2 (Z.ltb_ge _ _)) by lia.
  rewrite (Hbe 4%nat 0 (CRC32C (wal_covered e))) by (rewrite Ef; read_slice; done).
  rewrite (Hbe 4%nat 4 (u32 q)) by (rewrite Ef; read_slice; done).
  change (256 ^ Z.of_nat 4) with (2 ^ 32). rewrite !bind_ret.
  rewrite (Z.mod_small (u32 q)) by apply u32_range. rewrite (u32_id q) by done.
  rewrite (proj2 (Z.ltb_ge _ _)) by lia.
  assert (slice data 4 (4 + 4 + q) = Ret (wal_covered e)) as ->.
  { rewrite Ed. apply slice_mid; autorewrite with zlen_db; lia. }
  rewrite bind_ret, (Z.mod_small (CRC32C _)) by by apply crc32c_range.
  rewrite Z.eqb_refl. cbn [negb].
  rewrite (Hbe 4%nat (4 + 4 + q) trailerMagic) by (rewrite Ed; read_slice; done).
  change (trailerMagic mod _) with trailerMagic. rewrite bind_ret, Z.eqb_refl. cbn [negb].
  rewrite (Hbe 8%nat 8 (LSN e)) by (rewrite Ef; read_slice; done).
  assert (index data (8 + 8) = Ret (u8 (Type_ e))) as -> by (rewrite Ef; read_index; done).
  rewrite (Hbe 2%nat (8 + 8 + 1) (ShardID e)) by (rewrite Ef; read_slice; done).
  rewrite (Hbe 2%nat (8 + 8 + 1 + 2) (Term e)) by (rewrite Ef; read_slice; done).
  rewrite (Hbe 8%nat (8 + 8 + 1 + 2 + 2) (TxID e)) by (rewrite Ef; read_slice; done).
  rewrite (Hbe 8%nat (8 + 8 + 1 + 2 + 2 + 8) (u64 (Timestamp e))) by (rewrite Ef; read_slice; done).
  rewrite (Hbe 8%nat (8 + 8 + 1 + 2 + 2 + 8 + 8) (PrevLSN e)) by (rewrite Ef; read_slice; done).
  rewrite (Hbe 4%nat (8 + 8 + 1 + 2 + 2 + 8 + 8 + 8) (u32 (zlen key))) by (rewrite Ef; read_slice; done).
  rewrite (Hbe 4%nat (8 + 8 + 1 + 2 + 2 + 8 + 8 + 8 + 4) (u32 (zlen value))) by (rewrite Ef; read_slice; done).
  change (256 ^ Z.of_nat 4) with (2 ^ 32). change (256 ^ Z.of_nat 8) with (2 ^ 64).
  change (256 ^ Z.of_nat 2) with (2 ^ 16). rewrite !bind_ret.
  rewrite (Z.mod_small (u32 (zlen key))) by apply u32_range.
  rewrite (Z.mod_small (u32 (zlen value))) by apply u32_range.
  rewrite (u32_id (zlen key)), (u32_id (zlen value)) by (unfold is_u32; lia).
  rewrite advance_nonempty. unfold key at 1 2 3 4. rewrite slice_opt
    by (fold key; rewrite Ef; read_slice; done).
  rewrite bind_ret. unfold value. rewrite slice_opt
    by (fold key value; rewrite Ef; read_slice; done).
  rewrite bind_ret. unfold norm_entry. f_equal.
  rewrite (Z.mod_small (u64 _)) by apply u64_range.
  rewrite i64_u64, !Z.mod_small, u8_id by done. done.
Qed.

(** C29: a marshalled WAL entry is decoded to the same entry (an empty key or
    value becomes nil), whatever bytes follow it. *)
Theorem unmarshal_marshal e rest :
  entry_ok e -> bytes_ok (nilbytes (Key e)) -> bytes_ok (nilbytes (Value e)) ->
  (bs ← MarshalWALEntry e; UnmarshalWALEntry (bs ++ rest)) = Ret (norm_entry e).
Proof. intros. rewrite MarshalWALEntry_wire, bind_ret. by apply unmarshal_wire. Qed.

Lemma unmarshal_marshal_witness :
  (bs ← MarshalWALEntry (mkWALEntry 1 2 (-3) 4 (Some [5; 6]) (Some []) 7 0 0);
   UnmarshalWALEntry (bs ++ [1; 2; 3]))
  = Ret (mkWALEntry 1 2 (-3) 4 (Some [5; 6]) None 7 0 0).
Proof.
  apply (unmarshal_marshal (mkWALEntry 1 2 (-3) 4 (Some [5; 6]) (Some []) 7 0 0) [1; 2; 3]).
  - unfold entry_ok, is_u64, is_i64, is_u8, is_u16. simpl. unfold zlen. simpl. lia.
  - repeat constructor; unfold is_u8; lia.
  - constructor.
Defined.



(** Inputs too short for a frame, or whose length field points past the end, are
    rejected without reading further. *)
Lemma unmarshal_short data :
  zlen data < 57 -> UnmarshalWALEntry data = Fail (Sentinel ErrWALEntryCorrupted).
Proof. intros. unfold UnmarshalWALEntry. by rewrite (proj2 (Z.ltb_lt _ _)) by lia. Qed.
