(* ===== verification/WriteBuffer.v ===== *)
(** * The transaction write buffer (mvcc/write_buffer.go) and its WAL encoding
    (mvcc/wal_integration.go)

    Keys are byte strings; [entries] is the Go map, [ordered] the insertion
    list.  The nil-ness of [OldValue] decides between insert and update, so the
    nil-able slices are [option bytes]. *)

From stdpp Require Import base list gmap strings sorting.
From Stdlib Require Import ZArith Lia.
From S2P Require Import Prelude MvccCodec WalFormat.

Local Open Scope Z_scope.

Inductive WriteOp := OpInsert | OpUpdate | OpDelete.

#[export] Instance WriteOp_eq_dec : EqDecision WriteOp.
Proof. solve_decision. Defined.

(** [byte(op)]: the iota constants. *)
Definition op_byte (op : WriteOp) : Z :=
  match op with OpInsert => 0 | OpUpdate => 1 | OpDelete => 2 end.

Record WriteEntry := mkWriteEntry {
  Op : WriteOp;
  WValue : option bytes;
  OldValue : option bytes;
  OldFlag : Z;
  OldBeginTS : Z;
  OldPrevFlag : Z;
  OldPrevVal : option bytes;
}.

Record WriteBuffer := mkWriteBuffer {
  entries : gmap bytes WriteEntry;
  ordered : list bytes;
}.

Definition NewWriteBuffer : WriteBuffer := mkWriteBuffer ∅ [].

Definition Reset (wb : WriteBuffer) : WriteBuffer := mkWriteBuffer ∅ [].

(** [deepCopy]: a fresh slice with the same contents, nil for nil. *)
Definition deepCopy (src : option bytes) : option bytes := src.

Definition Put (wb : WriteBuffer) (key : bytes) (value btreeOldValue : option bytes)
    (btreeOldFlag btreeOldBeginTS oldPrevFlag : Z) (oldPrevVal : option bytes)
    : WriteBuffer :=
  match entries wb !! key with
  | None =>
      let e := match btreeOldValue with
               | None => mkWriteEntry OpInsert value None 0 0 0 None
               | Some _ =>
                   mkWriteEntry OpUpdate value (deepCopy btreeOldValue) btreeOldFlag
                     btreeOldBeginTS oldPrevFlag (deepCopy oldPrevVal)
               end in
      mkWriteBuffer (<[key := e]> (entries wb)) (ordered wb ++ [key])
  | Some existing =>
      let op := match Op existing with
                | OpDelete => match OldValue existing with
                              | None => OpInsert | Some _ => OpUpdate end
                | op => op
                end in
      let e := mkWriteEntry op value (OldValue existing) (OldFlag existing)
                 (OldBeginTS existing) (OldPrevFlag existing) (OldPrevVal existing) in
      mkWriteBuffer (<[key := e]> (entries wb)) (ordered wb)
  end.

Definition Delete (wb : WriteBuffer) (key : bytes) (btreeOldValue : option bytes)
    (btreeOldFlag btreeOldBeginTS oldPrevFlag : Z) (oldPrevVal : option bytes)
    : WriteBuffer * outcome unit :=
  match entries wb !! key with
  | None =>
      match btreeOldValue with
      | None => (wb, Fail (Sentinel ErrMVCCKeyNotFound))
      | Some _ =>
          let e := mkWriteEntry OpDelete None (deepCopy btreeOldValue) btreeOldFlag
                     btreeOldBeginTS oldPrevFlag (deepCopy oldPrevVal) in
          (mkWriteBuffer (<[key := e]> (entries wb)) (ordered wb ++ [key]), Ret tt)
      end
  | Some existing =>
      if decide (Op existing = OpInsert) then
        (mkWriteBuffer (delete key (entries wb)) (ordered wb), Ret tt)
      else
        let e := mkWriteEntry OpDelete None (OldValue existing) (OldFlag existing)
                   (OldBeginTS existing) (OldPrevFlag existing) (OldPrevVal existing) in
        (mkWriteBuffer (<[key := e]> (entries wb)) (ordered wb), Ret tt)
  end.

Definition Get (wb : WriteBuffer) (key : bytes) : option WriteEntry := entries wb !! key.

Definition OrderedKeys (wb : WriteBuffer) : list bytes := ordered wb.

Definition Len (wb : WriteBuffer) : Z := Z.of_nat (size (entries wb)).

(** ** WAL encoding *)

(** WriteEntries: the buffered entries in insertion order, keys whose entry was
    cancelled skipped. *)
Definition walOf (key : bytes) (e : WriteEntry) : WALEntry :=
  let walType := match Op e with
                 | OpInsert => WALTypeInsert
                 | OpUpdate => WALTypeUpdate
                 | OpDelete => WALTypeDelete
                 end in
  mkWALEntry 0 0 0 walType (Some key) (WValue e) 0 0 0.

Definition WriteEntries (wb : WriteBuffer) : list WALEntry :=
  omap (fun key => walOf key <$> (entries wb !! key)) (OrderedKeys wb).

Definition CommitEntry (commitTS : Z) : outcome WALEntry :=
  commitKey ← write_at (zeros 8) 0 (be_enc 8 commitTS);
  Ret (mkWALEntry 0 0 0 WALTypeCommit (Some commitKey) None 0 0 0).

Definition ToWALEntries (wb : WriteBuffer) (commitTS : Z) : outcome (list WALEntry) :=
  c ← CommitEntry commitTS; Ret (WriteEntries wb ++ [c]).

(** Bytes of one key in a TxPrepare value. *)
Definition entrySize (key : bytes) (e : WriteEntry) : Z :=
  4 + zlen key + 1 + 1 + 8 + 4 + zlen (nilbytes (OldValue e)) + 1 + 4 +
  zlen (nilbytes (WValue e)).

(** The first loop of TxPrepareEntry. *)
Fixpoint prepareSize (m : gmap bytes WriteEntry) (keys : list bytes) (totalSize : Z) : Z :=
  match keys with
  | [] => totalSize
  | key :: keys =>
      match m !! key with
      | None => prepareSize m keys totalSize
      | Some e => prepareSize m keys (totalSize + entrySize key e)
      end
  end.

(** Its second loop: writes the entries and moves the offset. *)
Fixpoint prepareLoop (m : gmap bytes WriteEntry) (keys : list bytes) (buf : bytes)
    (offset : Z) : outcome bytes :=
  match keys with
  | [] => Ret buf
  | key :: keys =>
      match m !! key with
      | None => prepareLoop m keys buf offset
      | Some e =>
          let old := nilbytes (OldValue e) in
          let new := nilbytes (WValue e) in
          buf ← write_at buf offset (be_enc 4 (u32 (zlen key)));
          let offset := offset + 4 in
          buf ← copy_at buf offset key;
          let offset := offset + zlen key in
          buf ← write_at buf offset [op_byte (Op e)];
          let offset := offset + 1 in
          buf ← write_at buf offset [OldFlag e];
          let offset := offset + 1 in
          buf ← write_at buf offset (be_enc 8 (OldBeginTS e));
          let offset := offset + 8 in
          buf ← write_at buf offset (be_enc 4 (u32 (zlen old)));
          let offset := offset + 4 in
          buf ← copy_at buf offset old;
          let offset := offset + zlen old in
          let newFlag := if decide (Op e = OpDelete) then FlagTombstone else FlagNormal in
          buf ← write_at buf offset [newFlag];
          let offset := offset + 1 in
          buf ← write_at buf offset (be_enc 4 (u32 (zlen new)));
          let offset := offset + 4 in
          buf ← copy_at buf offset new;
          let offset := offset + zlen new in
          prepareLoop m keys buf offset
      end
  end.

(** TxPrepareEntry sorts the buffer's own [ordered] slice in place; the buffer
    with its keys sorted is returned with the entry. *)
Definition TxPrepareEntry (txID : Z) (wb : WriteBuffer) : WriteBuffer * outcome WALEntry :=
  let keys := SortStrings (OrderedKeys wb) in
  let wb' := mkWriteBuffer (entries wb) keys in
  let totalSize := prepareSize (entries wb) keys 4 in
  (wb',
   buf ← write_at (zeros totalSize) 0 (be_enc 4 (u32 (zlen keys)));
   buf ← prepareLoop (entries wb) keys buf 4;
   txIDKey ← write_at (zeros 8) 0 (be_enc 8 txID);
   Ret (mkWALEntry 0 0 0 WALTypeTxPrepare (Some txIDKey) (Some buf) 0 0 0)).

Record TxPrepareParsedEntry := mkParsed {
  PKey : bytes;
  POp : Z;
  POldFlag : Z;
  POldBeginTS : Z;
  POldValue : bytes;
  PNewFlag : Z;
  PNewValue : bytes;
}.

Definition corrupted (d : string) : gerr := NexError ErrMVCCTxPrepareCorrupted d.

(** The loop [for i := 0; i < keyCount; i++]; every turn consumes at least four
    bytes, so fuel for the length of the buffer is enough (parseLoop_fuel). *)
Fixpoint parseLoop (fuel : nat) (buf : bytes) (i keyCount offset : Z)
    (acc : list TxPrepareParsedEntry) : outcome (list TxPrepareParsedEntry) :=
  if negb (i <? keyCount) then Ret acc else
  match fuel with
  | O => Panic
  | S fuel =>
      if zlen buf <? offset + 4 then Fail (corrupted "TxPrepare: truncated at key") else
      keyLen ← be_at 4 buf offset;
      let offset := offset + 4 in
      if zlen buf <? offset + keyLen then Fail (corrupted "TxPrepare: truncated key data") else
      key ← slice buf offset (offset + keyLen);
      let offset := offset + keyLen in
      if zlen buf <? offset + 12 then
        Fail (corrupted "TxPrepare: truncated at entry header") else
      op ← index buf offset;
      let offset := offset + 1 in
      oldFlag ← index buf offset;
      let offset := offset + 1 in
      oldBeginTS ← be_at 8 buf offset;
      let offset := offset + 8 in
      oldValLen ← be_at 4 buf offset;
      let offset := offset + 4 in
      if zlen buf <? offset + oldValLen then Fail (corrupted "TxPrepare: truncated oldVal") else
      oldVal ← slice buf offset (offset + oldValLen);
      let offset := offset + oldValLen in
      if zlen buf <? offset + 5 then
        Fail (corrupted "TxPrepare: truncated at newVal header") else
      newFlag ← index buf offset;
      let offset := offset + 1 in
      newValLen ← be_at 4 buf offset;
      let offset := offset + 4 in
      if zlen buf <? offset + newValLen then Fail (corrupted "TxPrepare: truncated newVal") else
      newVal ← slice buf offset (offset + newValLen);
      let offset := offset + newValLen in
      parseLoop fuel buf (i + 1) keyCount offset
        (acc ++ [mkParsed key op oldFlag oldBeginTS oldVal newFlag newVal])
  end.

Definition ParseTxPrepareEntry (e : WALEntry) : outcome (Z * list TxPrepareParsedEntry) :=
  if negb (Type_ e =? WALTypeTxPrepare) then Fail (corrupted "not a TxPrepare entry") else
  let k := nilbytes (Key e) in
  if zlen k <? 8 then Fail (corrupted "TxPrepare: key too short") else
  txID ← be_at 8 k 0;
  let buf := nilbytes (Value e) in
  if zlen buf <? 4 then Fail (corrupted "TxPrepare: value too short") else
  keyCount ← be_at 4 buf 0;
  es ← parseLoop (S (length buf)) buf 0 keyCount 4 [];
  Ret (txID, es).

(** ** The buffer as a map overlay: refinement *)

(** What a read through the buffer sees, given the committed live values. *)
Definition overlay (base : gmap bytes bytes) (wb : WriteBuffer) : gmap bytes bytes :=
  merge (fun b e =>
    match e with
    | None => b
    | Some e => if decide (Op e = OpDelete) then None else Some (nilbytes (WValue e))
    end) base (entries wb).

(** The buffer recorded the committed values it overwrites, keeps every live
    key in its order list, and the operation tag agrees with the old value. *)
Record wb_ok (base : gmap bytes bytes) (wb : WriteBuffer) : Prop := {
  wb_old : forall k e, entries wb !! k = Some e -> OldValue e = base !! k;
  wb_op : forall k e, entries wb !! k = Some e -> Op e = OpInsert <-> OldValue e = None;
  wb_ordered : forall k e, entries wb !! k = Some e -> k ∈ ordered wb;
}.

Lemma wb_ok_empty base : wb_ok base NewWriteBuffer.
Proof. split; intros k e H; simpl in H; by rewrite lookup_empty in H. Qed.

Lemma lookup_overlay base wb k :
  overlay base wb !! k =
    match entries wb !! k with
    | None => base !! k
    | Some e => if decide (Op e = OpDelete) then None else Some (nilbytes (WValue e))
    end.
Proof.
  unfold overlay. rewrite lookup_merge. unfold diag_None.
  destruct (base !! k), (entries wb !! k); done.
Qed.

Lemma overlay_empty base : overlay base NewWriteBuffer = base.
Proof. apply map_eq. intros k. rewrite lookup_overlay. simpl. by rewrite lookup_empty. Qed.

(** Updating one entry preserves the invariant. *)
Lemma wb_ok_insert base wb k e ord :
  wb_ok base wb -> OldValue e = base !! k -> (Op e = OpInsert <-> OldValue e = None) ->
  (forall k', k' ∈ ordered wb -> k' ∈ ord) -> k ∈ ord ->
  wb_ok base (mkWriteBuffer (<[k := e]> (entries wb)) ord).
Proof.
  intros [H1 H2 H3] Ho Hp Hsub Hin. split; simpl; intros k' e' Hl;
    destruct (decide (k = k')) as [<-|Hne]; simplify_map_eq; eauto.
Qed.

Lemma overlay_insert base wb k e ord :
  overlay base (mkWriteBuffer (<[k := e]> (entries wb)) ord) =
    if decide (Op e = OpDelete) then delete k (overlay base wb)
    else <[k := nilbytes (WValue e)]> (overlay base wb).
Proof.
  apply map_eq. intros k'. rewrite lookup_overlay. simpl.
  destruct (decide (k = k')) as [<-|Hne].
  - rewrite lookup_insert_eq. case_decide; by rewrite ?lookup_delete_eq, ?lookup_insert_eq.
  - rewrite lookup_insert_ne by done.
    case_decide; rewrite ?lookup_delete_ne, ?lookup_insert_ne by done;
      by rewrite lookup_overlay.
Qed.

Lemma put_ok base wb k v f ts pf pv :
  wb_ok base wb ->
  let wb' := Put wb k v (base !! k) f ts pf pv in
  wb_ok base wb' /\ overlay base wb' = <[k := nilbytes v]> (overlay base wb).
Proof.
  intros Hok wb'. unfold wb', Put. destruct (entries wb !! k) as [ex|] eqn:E.
  - pose proof (wb_old _ _ Hok k ex E) as Ho. pose proof (wb_op _ _ Hok k ex E) as Hp.
    split.
    + apply wb_ok_insert; simpl; try done.
      * destruct (Op ex), (OldValue ex); naive_solver.
      * by eapply wb_ordered.
    + rewrite overlay_insert. simpl.
      by destruct (Op ex), (OldValue ex).
  - destruct (base !! k) as [old|] eqn:Eb; (split;
      [apply wb_ok_insert; simpl; [done|by rewrite ?Eb|done|set_solver|set_solver]
      |by rewrite overlay_insert]).
Qed.

Lemma delete_ok base wb k f ts pf pv wb' r :
  wb_ok base wb -> Delete wb k (base !! k) f ts pf pv = (wb', r) ->
  wb_ok base wb' /\
  ((r = Ret tt /\ overlay base wb' = delete k (overlay base wb)) \/
   (r = Fail (Sentinel ErrMVCCKeyNotFound) /\ wb' = wb /\ overlay base wb !! k = None)).
Proof.
  intros Hok. unfold Delete. destruct (entries wb !! k) as [ex|] eqn:E.
  - pose proof (wb_old _ _ Hok k ex E) as Ho. pose proof (wb_op _ _ Hok k ex E) as Hp.
    case_decide as Hi; intros [= <- <-].
    + split.
      * destruct Hok as [H1 H2 H3]. split; simpl; intros k' e' Hl;
          apply lookup_delete_Some in Hl as [_ Hl]; eauto.
      * left. split; [done|]. apply map_eq. intros k'. rewrite lookup_overlay. simpl.
        destruct (decide (k = k')) as [<-|Hne].
        -- rewrite !lookup_delete_eq. rewrite <- Ho. naive_solver.
        -- rewrite !lookup_delete_ne by done. by rewrite lookup_overlay.
    + split.
      * apply wb_ok_insert; simpl; try done.
        -- naive_solver.
        -- by eapply wb_ordered.
      * left. split; [done|]. by rewrite overlay_insert.
  - destruct (base !! k) as [old|] eqn:Eb; intros [= <- <-].
    + split.
      * apply wb_ok_insert; simpl; [done|by rewrite ?Eb|done|set_solver|set_solver].
      * left. split; [done|]. by rewrite overlay_insert.
    + split; [done|right]. by rewrite lookup_overlay, E.
Qed.

(** A client's sequence of buffered writes.  The old-version data it passes is
    irrelevant except for the committed value itself. *)
Inductive wb_op_t :=
| WPut (k : bytes) (v : option bytes) (f ts pf : Z) (pv : option bytes)
| WDelete (k : bytes) (f ts pf : Z) (pv : option bytes).

Definition wb_step (base : gmap bytes bytes) (wb : WriteBuffer) (o : wb_op_t) : WriteBuffer :=
  match o with
  | WPut k v f ts pf pv => Put wb k v (base !! k) f ts pf pv
  | WDelete k f ts pf pv => fst (Delete wb k (base !! k) f ts pf pv)
  end.

(** The same writes on a plain map. *)
Definition map_step (m : gmap bytes bytes) (o : wb_op_t) : gmap bytes bytes :=
  match o with
  | WPut k v _ _ _ _ => <[k := nilbytes v]> m
  | WDelete k _ _ _ _ => delete k m
  end.

(** Reading through the buffer after any sequence of Put and Delete gives
    exactly the map obtained by applying the writes to the committed values,
    and the buffer keeps its invariant. *)
Theorem buffer_refines_map base ops :
  wb_ok base (fold_left (wb_step base) ops NewWriteBuffer) /\
  overlay base (fold_left (wb_step base) ops NewWriteBuffer) = fold_left map_step ops base.
Proof.
  induction ops as [|o ops [IHok IHov]] using rev_ind.
  { split; [apply wb_ok_empty|apply overlay_empty]. }
  rewrite !fold_left_app. simpl. rewrite <- IHov.
  set (wb := fold_left (wb_step base) ops NewWriteBuffer) in *. destruct o as [k v|k]; simpl.
  - by apply put_ok.
  - destruct (Delete wb k (base !! k) f ts pf pv) as [wb' r] eqn:E.
    destruct (delete_ok _ _ _ _ _ _ _ _ _ IHok E) as [Hok' [[_ Ho]|(_ & -> & Hn)]];
      (split; [done|simpl]).
    + done.
    + symmetry. by apply delete_id.
Qed.

(** ** TxPrepare: the encoding of a whole buffer *)

Definition prepare_wire1 (key : bytes) (e : WriteEntry) : bytes :=
  be_enc 4 (u32 (zlen key)) ++ key ++ [op_byte (Op e)] ++ [OldFlag e] ++
  be_enc 8 (OldBeginTS e) ++ be_enc 4 (u32 (zlen (nilbytes (OldValue e)))) ++
  nilbytes (OldValue e) ++
  [if decide (Op e = OpDelete) then FlagTombstone else FlagNormal] ++
  be_enc 4 (u32 (zlen (nilbytes (WValue e)))) ++ nilbytes (WValue e).

(** The live keys with their entries, in the given order. *)
Definition live (m : gmap bytes WriteEntry) (keys : list bytes) : list (bytes * WriteEntry) :=
  omap (fun k => pair k <$> (m !! k)) keys.

Definition prepare_wire (l : list (bytes * WriteEntry)) : bytes :=
  concat (map (fun ke => prepare_wire1 (fst ke) (snd ke)) l).

Lemma zlen_prepare_wire1 key e : zlen (prepare_wire1 key e) = entrySize key e.
Proof. unfold prepare_wire1, entrySize. autorewrite with zlen_db. lia. Qed.

Lemma live_cons_Some m k e keys :
  m !! k = Some e -> live m (k :: keys) = (k, e) :: live m keys.
Proof. intros E. unfold live. simpl. by rewrite E. Qed.

Lemma live_cons_None m k keys : m !! k = None -> live m (k :: keys) = live m keys.
Proof. intros E. unfold live. simpl. by rewrite E. Qed.

Lemma prepare_wire_cons k e l :
  prepare_wire ((k, e) :: l) = prepare_wire1 k e ++ prepare_wire l.
Proof. done. Qed.

Lemma prepareSize_wire m keys n :
  prepareSize m keys n = n + zlen (prepare_wire (live m keys)).
Proof.
  revert n. induction keys as [|k keys IH]; intros n; cbn [prepareSize];
    [symmetry; apply Z.add_0_r|].
  destruct (m !! k) as [e|] eqn:E; rewrite IH.
  - rewrite (live_cons_Some _ _ _ _ E), prepare_wire_cons, zlen_app, zlen_prepare_wire1. lia.
  - by rewrite (live_cons_None _ _ _ E).
Qed.

Lemma prepareLoop_wire m keys a n :
  n = zlen (prepare_wire (live m keys)) ->
  prepareLoop m keys (a ++ zeros n) (zlen a) = Ret (a ++ prepare_wire (live m keys)).
Proof.
  revert a n. induction keys as [|k keys IH]; intros a n Hn.
  { rewrite Hn. done. }
  cbn [prepareLoop]. destruct (m !! k) as [e|] eqn:E.
  2:{ rewrite (live_cons_None _ _ _ E) in *. by apply IH. }
  rewrite (live_cons_Some _ _ _ _ E), prepare_wire_cons in *.
  rewrite zlen_app, zlen_prepare_wire1 in Hn. unfold entrySize in Hn.
  pose proof (zlen_nonneg (prepare_wire (live m keys))) as Hr.
  pose proof (zlen_nonneg k). pose proof (zlen_nonneg (nilbytes (OldValue e))).
  pose proof (zlen_nonneg (nilbytes (WValue e))).
  set (old := nilbytes (OldValue e)) in *. set (new := nilbytes (WValue e)) in *.
  repeat first
    [ rewrite bind_ret
    | rewrite write_at_fill by zlen_solve
    | rewrite copy_at_fill by zlen_solve ].
  match goal with |- prepareLoop _ _ (?b ++ zeros ?z) ?o = _ =>
    replace o with (zlen b) by zlen_solve end.
  rewrite IH by (autorewrite with zlen_db; lia).
  f_equal. unfold prepare_wire1. fold old new. by rewrite <- !app_assoc.
Qed.

(** The entry TxPrepareEntry writes. *)
Lemma TxPrepareEntry_wire txID wb :
  let keys := SortStrings (ordered wb) in
  TxPrepareEntry txID wb =
    (mkWriteBuffer (entries wb) keys,
     Ret (mkWALEntry 0 0 0 WALTypeTxPrepare (Some (be_enc 8 txID))
            (Some (be_enc 4 (u32 (zlen keys)) ++ prepare_wire (live (entries wb) keys))) 0 0 0)).
Proof.
  intros keys. unfold TxPrepareEntry, OrderedKeys. fold keys.
  rewrite prepareSize_wire. f_equal.
  set (w := prepare_wire (live (entries wb) keys)). pose proof (zlen_nonneg w).
  rewrite (write_at_zero (4 + zlen w)) by zlen_solve. rewrite bind_ret.
  change (prepareLoop (entries wb) keys ?b 4) with
    (prepareLoop (entries wb) keys b (zlen (be_enc 4 (u32 (zlen keys))))).
  rewrite prepareLoop_wire by (autorewrite with zlen_db; fold w; lia).
  rewrite bind_ret, write_at_zero by zlen_solve.
  rewrite zlen_be_enc. change (zeros _) with (@nil Z). by rewrite app_nil_r.
Qed.

(** ** Parsing it back *)

(** Slices and lengths that fit the format. *)
Definition ke_ok (ke : bytes * WriteEntry) : Prop :=
  let '(k, e) := ke in
  zlen k < 2 ^ 32 /\ zlen (nilbytes (OldValue e)) < 2 ^ 32 /\
  zlen (nilbytes (WValue e)) < 2 ^ 32 /\ is_u64 (OldBeginTS e).

Definition parsed_of (ke : bytes * WriteEntry) : TxPrepareParsedEntry :=
  let '(k, e) := ke in
  mkParsed k (op_byte (Op e)) (OldFlag e) (OldBeginTS e) (nilbytes (OldValue e))
    (if decide (Op e = OpDelete) then FlagTombstone else FlagNormal) (nilbytes (WValue e)).

(** One turn of the loop over one encoded entry. *)
Lemma parseLoop_step fuel pre ke rest i n acc :
  ke_ok ke -> i < n ->
  parseLoop (S fuel) (pre ++ prepare_wire1 (fst ke) (snd ke) ++ rest) i n (zlen pre) acc =
  parseLoop fuel ((pre ++ prepare_wire1 (fst ke) (snd ke)) ++ rest) (i + 1) n
    (zlen (pre ++ prepare_wire1 (fst ke) (snd ke))) (acc ++ [parsed_of ke]).
Proof.
  destruct ke as [k e]. intros (Hk & Ho & Hw & Hts) Hi. cbn [fst snd parsed_of].
  rewrite <- (app_assoc pre). set (buf := pre ++ prepare_wire1 k e ++ rest).
  pose proof (zlen_nonneg k). pose proof (zlen_nonneg (nilbytes (OldValue e))).
  pose proof (zlen_nonneg (nilbytes (WValue e))). pose proof (zlen_nonneg rest).
  pose proof (zlen_nonneg pre).
  assert (zlen buf = zlen pre + entrySize k e + zlen rest) as Hl
    by (unfold buf; rewrite !zlen_app, zlen_prepare_wire1; lia).
  rewrite (zlen_app pre), zlen_prepare_wire1. unfold entrySize in *.
  set (old := nilbytes (OldValue e)) in *. set (new := nilbytes (WValue e)) in *.
  assert (buf = pre ++ be_enc 4 (u32 (zlen k)) ++ k ++ [op_byte (Op e)] ++ [OldFlag e] ++
    be_enc 8 (OldBeginTS e) ++ be_enc 4 (u32 (zlen old)) ++ old ++
    [if decide (Op e = OpDelete) then FlagTombstone else FlagNormal] ++
    be_enc 4 (u32 (zlen new)) ++ new ++ rest) as Eb
    by (unfold buf, prepare_wire1; fold old new; by rewrite <- !app_assoc).
  assert (forall off v, 0 <= v < 2 ^ 32 ->
     slice buf off (off + Z.of_nat 4) = Ret (be_enc 4 (u32 v)) -> be_at 4 buf off = Ret v) as Hbe.
  { intros off v Hv E. rewrite (be_at_slice _ _ _ _ E), be_dec_enc4. by rewrite !(u32_id v). }
  cbn [parseLoop]. rewrite (proj2 (Z.ltb_lt i n)) by done. cbn [negb].
  rewrite (proj2 (Z.ltb_ge _ _)) by lia.
  rewrite (Hbe _ (zlen k)) by (try lia; rewrite Eb; read_slice; done). rewrite bind_ret.
  rewrite (proj2 (Z.ltb_ge _ _)) by lia.
  assert (slice buf (zlen pre + 4) (zlen pre + 4 + zlen k) = Ret k) as ->
    by (rewrite Eb; read_slice; done).
  rewrite bind_ret, (proj2 (Z.ltb_ge _ _)) by lia.
  assert (index buf (zlen pre + 4 + zlen k) = Ret (op_byte (Op e))) as ->
    by (rewrite Eb; read_index; done).
  assert (index buf (zlen pre + 4 + zlen k + 1) = Ret (OldFlag e)) as ->
    by (rewrite Eb; read_index; done).
  assert (be_at 8 buf (zlen pre + 4 + zlen k + 1 + 1) = Ret (OldBeginTS e)) as ->.
  { rewrite (be_at_slice 8 _ _ (be_enc 8 (OldBeginTS e))) by (rewrite Eb; read_slice; done).
    by rewrite be_dec_enc8, u64_id. }
  rewrite (Hbe _ (zlen old)) by (try lia; rewrite Eb; read_slice; done). rewrite !bind_ret.
  rewrite (proj2 (Z.ltb_ge _ _)) by lia.
  assert (slice buf (zlen pre + 4 + zlen k + 1 + 1 + 8 + 4)
    (zlen pre + 4 + zlen k + 1 + 1 + 8 + 4 + zlen old) = Ret old) as ->
    by (rewrite Eb; read_slice; done).
  rewrite bind_ret, (proj2 (Z.ltb_ge _ _)) by lia.
  assert (index buf (zlen pre + 4 + zlen k + 1 + 1 + 8 + 4 + zlen old) =
    Ret (if decide (Op e = OpDelete) then FlagTombstone else FlagNormal)) as ->
    by (rewrite Eb; read_index; done).
  rewrite (Hbe _ (zlen new)) by (try lia; rewrite Eb; read_slice; done). rewrite !bind_ret.
  rewrite (proj2 (Z.ltb_ge _ _)) by lia.
  assert (slice buf (zlen pre + 4 + zlen k + 1 + 1 + 8 + 4 + zlen old + 1 + 4)
    (zlen pre + 4 + zlen k + 1 + 1 + 8 + 4 + zlen old + 1 + 4 + zlen new) = Ret new) as ->
    by (rewrite Eb; read_slice; done).
  rewrite bind_ret. f_equal. lia.
Qed.

Lemma parseLoop_wire fuel l pre i n acc :
  Forall ke_ok l -> i + zlen l <= n -> (length l <= fuel)%nat ->
  parseLoop fuel (pre ++ prepare_wire l) i n (zlen pre) acc =
  parseLoop (fuel - length l) (pre ++ prepare_wire l) (i + zlen l) n
    (zlen (pre ++ prepare_wire l)) (acc ++ map parsed_of l).
Proof.
  revert fuel pre i acc. induction l as [|[k e] l IH]; intros fuel pre i acc Hok Hn Hf.
  - change (prepare_wire []) with (@nil Z). cbn [map length].
    by rewrite !app_nil_r, Nat.sub_0_r, Z.add_0_r.
  - inversion Hok; subst. rewrite zlen_cons in Hn. pose proof (zlen_nonneg l).
    destruct fuel as [|fuel]; [cbn [length] in Hf; lia|].
    rewrite prepare_wire_cons.
    rewrite (parseLoop_step fuel pre (k, e) (prepare_wire l)) by (done || lia).
    rewrite IH by (done || lia || (cbn [length] in Hf; lia)). cbn [fst snd map length].
    rewrite <- !app_assoc. cbn [app]. rewrite zlen_cons.
    replace (i + 1 + zlen l) with (i + (1 + zlen l)) by lia. done.
Qed.

Lemma prepare_wire_length l : (length l <= length (prepare_wire l))%nat.
Proof.
  induction l as [|[k e] l IH]; [cbn; lia|].
  rewrite prepare_wire_cons, length_app. cbn [length].
  pose proof (zlen_prepare_wire1 k e) as H. unfold entrySize in H.
  pose proof (zlen_nonneg k). pose proof (zlen_nonneg (nilbytes (OldValue e))).
  pose proof (zlen_nonneg (nilbytes (WValue e))). unfold zlen in H at 1. lia.
Qed.

Lemma live_length m keys :
  zlen (live m keys) <= zlen keys /\
  (zlen (live m keys) = zlen keys <-> Forall (fun k => is_Some (m !! k)) keys).
Proof.
  induction keys as [|k keys [IH1 IH2]]; [done|].
  destruct (m !! k) as [e|] eqn:E.
  - rewrite (live_cons_Some _ _ _ _ E), !zlen_cons, Forall_cons, <- IH2, E.
    split; [lia|]. split; [intros; split; [eauto|lia]|intros [_ ?]; lia].
  - rewrite (live_cons_None _ _ _ E), zlen_cons, Forall_cons, E.
    split; [lia|]. split; [lia|intros [[? ?] _]; done].
Qed.

(** Recovery can parse the TxPrepare record of a buffer, and gets back every
    buffered key with its old and new value, exactly when no buffered insert
    was cancelled; after a cancelled insert the record's key count exceeds its
    entries and parsing fails. *)
Theorem parse_prepare txID wb :
  is_u64 txID -> zlen (ordered wb) < 2 ^ 32 ->
  Forall ke_ok (live (entries wb) (SortStrings (ordered wb))) ->
  (e ← snd (TxPrepareEntry txID wb); ParseTxPrepareEntry e) =
  if decide (Forall (fun k => is_Some (entries wb !! k)) (ordered wb))
  then Ret (txID, map parsed_of (live (entries wb) (SortStrings (ordered wb))))
  else Fail (corrupted "TxPrepare: truncated at key").
Proof.
  intros Htx Hn Hok. rewrite TxPrepareEntry_wire. cbn [snd]. rewrite bind_ret.
  pose proof (SortStrings_perm (ordered wb)) as Hperm.
  set (keys := SortStrings (ordered wb)) in *.
  assert (zlen keys = zlen (ordered wb)) as Hk by (unfold zlen; by rewrite Hperm).
  set (l := live (entries wb) keys) in *.
  destruct (live_length (entries wb) keys) as [Hle Hiff]. fold l in Hle, Hiff.
  pose proof (zlen_nonneg keys). pose proof (zlen_nonneg l).
  unfold ParseTxPrepareEntry, nilbytes. cbn [Type_ Key Value default from_option id]. cbv zeta.
  rewrite Z.eqb_refl. cbn [negb].
  rewrite (proj2 (Z.ltb_ge (zlen (be_enc 8 txID)) 8)) by (rewrite zlen_be_enc; lia).
  rewrite (be_at_slice 8 _ 0 (be_enc 8 txID)) by (apply slice_full; rewrite ?zlen_be_enc; done).
  rewrite bind_ret, be_dec_enc8, u64_id by done. cbv zeta.
  pose proof (zlen_nonneg (prepare_wire l)).
  set (hdr := be_enc 4 (u32 (zlen keys))).
  assert (zlen hdr = 4) as Hh by apply zlen_be_enc.
  assert (be_dec hdr = zlen keys) as Hd.
  { unfold hdr. rewrite be_dec_enc4, !u32_id; unfold is_u32; rewrite ?u32_id; unfold is_u32; lia. }
  clearbody hdr.
  rewrite (proj2 (Z.ltb_ge (zlen (hdr ++ prepare_wire l)) 4)) by (rewrite zlen_app; lia).
  rewrite (be_at_slice 4 _ 0 hdr) by (apply slice_head; rewrite ?Hh; done).
  rewrite bind_ret, Hd.
  rewrite <- Hh at 1.
  pose proof (prepare_wire_length l) as Hwl.
  rewrite parseLoop_wire by (done || lia || (rewrite length_app; lia)).
  rewrite length_app. replace (S (length hdr + length (prepare_wire l)) - length l)%nat
    with (S (length hdr + length (prepare_wire l) - length l)) by lia.
  case_decide as Hall.
  - assert (zlen l = zlen keys) as E by (apply Hiff; by rewrite Hperm).
    cbn [parseLoop]. rewrite E, (proj2 (Z.ltb_ge (0 + zlen keys) (zlen keys))) by lia. done.
  - assert (zlen l <> zlen keys) by (intros E; apply Hall; apply Hiff in E; by rewrite <- Hperm).
    cbn [parseLoop]. rewrite (proj2 (Z.ltb_lt (0 + zlen l) (zlen keys))) by lia. cbn [negb].
    by rewrite (proj2 (Z.ltb_lt (zlen (hdr ++ prepare_wire l)) _)) by lia.
Qed.

(** A buffer after [Put a; Put b; Delete b]: the insert of [b] is cancelled. *)
Definition cancelled_buffer : WriteBuffer :=
  fst (Delete (Put (Put NewWriteBuffer [97] (Some [1]) None 0 0 0 None)
                [98] (Some [2]) None 0 0 0 None) [98] None 0 0 0 None).

Lemma parse_prepare_witness :
  (e ← snd (TxPrepareEntry 3 cancelled_buffer); ParseTxPrepareEntry e)
  = Fail (corrupted "TxPrepare: truncated at key").
Proof.
  rewrite (parse_prepare 3 cancelled_buffer).
  - rewrite decide_False; [reflexivity|].
    change (ordered cancelled_buffer) with ([[97]; [98]] : list bytes).
    intros H. apply Forall_cons in H as [_ H]. apply Forall_cons in H as [[e He] _].
    vm_compute in He. discriminate.
  - unfold is_u64. lia.
  - change (ordered cancelled_buffer) with ([[97]; [98]] : list bytes). unfold zlen. simpl. lia.
  - assert (live (entries cancelled_buffer) (SortStrings (ordered cancelled_buffer)) =
      [([97], mkWriteEntry OpInsert (Some [1]) None 0 0 0 None)]) as -> by reflexivity.
    apply Forall_singleton. unfold ke_ok, is_u64, zlen. simpl. lia.
Defined.

(** ** Malformed records *)

(** The bounds check before the fixed part of an entry asks for 12 bytes but
    14 are read, so a record cut 12 or 13 bytes after a key makes the parser
    panic instead of returning its truncation error. *)
Theorem parse_truncated_panics txID key h :
  zlen key < 2 ^ 32 -> 12 <= zlen h <= 13 ->
  ParseTxPrepareEntry (mkWALEntry 0 0 0 WALTypeTxPrepare (Some (be_enc 8 txID))
    (Some (be_enc 4 1 ++ be_enc 4 (zlen key) ++ key ++ h)) 0 0 0) = Panic.
Proof.
  intros Hk Hh. pose proof (zlen_nonneg key). unfold ParseTxPrepareEntry.
  unfold nilbytes. cbn [Type_ Key Value default from_option id]. rewrite Z.eqb_refl. cbn [negb]. cbv zeta.
  rewrite (proj2 (Z.ltb_ge (zlen (be_enc 8 txID)) 8)) by (rewrite zlen_be_enc; lia).
  rewrite (be_at_slice 8 _ 0 (be_enc 8 txID)) by (apply slice_full; rewrite ?zlen_be_enc; done).
  rewrite bind_ret. set (buf := be_enc 4 1 ++ be_enc 4 (zlen key) ++ key ++ h).
  assert (zlen buf = 8 + zlen key + zlen h) as Hl
    by (unfold buf; autorewrite with zlen_db; lia).
  rewrite (proj2 (Z.ltb_ge (zlen buf) 4)) by lia.
  assert (be_at 4 buf 0 = Ret 1) as -> by (unfold buf, be_at; read_slice; done).
  rewrite bind_ret. cbn [parseLoop Z.ltb Z.compare negb]. cbv zeta.
  rewrite (proj2 (Z.ltb_ge (zlen buf) (4 + 4))) by lia.
  assert (be_at 4 buf 4 = Ret (zlen key)) as ->.
  { rewrite (be_at_slice 4 _ 4 (be_enc 4 (zlen key))) by (unfold buf; read_slice; done).
    by rewrite be_dec_enc4, u32_id by (unfold is_u32; lia). }
  rewrite bind_ret, (proj2 (Z.ltb_ge (zlen buf) (4 + 4 + zlen key))) by lia.
  rewrite (slice_spec buf) by lia. rewrite bind_ret, (proj2 (Z.ltb_ge (zlen buf) _)) by lia.
  destruct (index_ok buf (4 + 4 + zlen key)) as [b1 ->]; [lia|].
  destruct (index_ok buf (4 + 4 + zlen key + 1)) as [b2 ->]; [lia|].
  destruct (be_at_ok 8 buf (4 + 4 + zlen key + 1 + 1)) as [v ->]; [lia..|].
  rewrite !bind_ret. by rewrite be_at_oob by lia.
Qed.

Lemma parse_truncated_panics_witness :
  ParseTxPrepareEntry (mkWALEntry 0 0 0 WALTypeTxPrepare (Some (be_enc 8 9))
    (Some (be_enc 4 1 ++ be_enc 4 1 ++ [107] ++ zeros 12)) 0 0 0) = Panic.
Proof.
  apply (parse_truncated_panics 9 [107] (zeros 12)).
  - unfold zlen. simpl. lia.
  - rewrite zlen_zeros; lia.
Defined.

(** The loop's fuel is enough: any two amounts above the bytes left to read give
    the same result, so the fuel of ParseTxPrepareEntry never decides. *)
Lemma parseLoop_fuel f1 f2 buf i n off acc :
  bytes_ok buf -> 0 <= off ->
  zlen buf - off < Z.of_nat f1 -> zlen buf - off < Z.of_nat f2 ->
  (0 < f1)%nat -> (0 < f2)%nat ->
  parseLoop f1 buf i n off acc = parseLoop f2 buf i n off acc.
Proof.
  intros Hok. revert f2 i off acc.
  induction f1 as [|f1 IH]; intros [|f2] i off acc Hoff H1 H2 Hp1 Hp2; try lia.
  cbn [parseLoop]. destruct (negb _); [done|].
  destruct (Z.ltb_spec (zlen buf) (off + 4)) as [|Hb]; [done|].
  assert (forall n o v, be_at n buf o = Ret v -> 0 <= v) as Hpos.
  { intros n0 o v. unfold be_at. destruct (slice buf o _) eqn:E; [|done..].
    intros [= <-]. apply (slice_bytes_ok _ _ _ _ Hok) in E.
    apply be_dec_range in E. lia. }
  repeat (match goal with
  | |- (x ← ?e; _) = _ => destruct e eqn:?; [rewrite !bind_ret; cbv zeta|done..]
  | |- (if ?b then _ else _) = _ => destruct b eqn:?; [done|]
  end).
  repeat match goal with
  | H : be_at _ buf _ = Ret _ |- _ => apply Hpos in H
  end.
  apply IH; lia.
Qed.
