(* ===== verification/DiskWal.v ===== *)
(** * The on-disk write-ahead log (wal/diskwal.go, wal/wal_append_item.go)

    The operating system is a directory of segments over inodes: [dir] maps the
    number of a segment (its name is that number printed with %020d, so names
    sort as numbers) to an inode, [deleting] the segments renamed to
    .wal.deleting, [inodes] the contents and [synced] how many bytes of an inode
    an fsync has covered.  [faults] is the oracle of I/O errors: every call that
    can fail takes one element, [Some n] makes it fail (a write then leaves its
    first n bytes in the file), [None] or the empty list lets it succeed. *)

From stdpp Require Import base list gmap strings sorting.
From Stdlib Require Import ZArith Lia.
From S2P Require Import Prelude MvccCodec WalFormat.

Local Open Scope Z_scope.

Record OS := mkOS {
  dir : gmap Z nat;
  deleting : gmap Z nat;
  inodes : gmap nat bytes;
  synced : gmap nat Z;
  next_inode : nat;
  faults : list (option nat);
}.

Record DiskWAL := mkDiskWAL {
  config : WALConfig;
  currentLSN : Z;
  closed : bool;
  file : option nat;     (* the inode of w.file; None for nil *)
  fileOpen : bool;       (* whether the *os.File is still open *)
  filePath : Z;
  TotalEntries : Z;
  TotalBytes : Z;
  syncCount : Z;
  writtenBytes : Z;
}.

Record World := mkWorld { os : OS; dw : DiskWAL }.

Definition set_os (f : OS -> OS) (w : World) : World := mkWorld (f (os w)) (dw w).
Definition set_dw (f : DiskWAL -> DiskWAL) (w : World) : World := mkWorld (os w) (f (dw w)).

Definition with_faults (fs : list (option nat)) (o : OS) : OS :=
  mkOS (dir o) (deleting o) (inodes o) (synced o) (next_inode o) fs.
Definition with_currentLSN (n : Z) (d : DiskWAL) : DiskWAL :=
  mkDiskWAL (config d) n (closed d) (file d) (fileOpen d) (filePath d)
    (TotalEntries d) (TotalBytes d) (syncCount d) (writtenBytes d).
Definition with_closed (d : DiskWAL) : DiskWAL :=
  mkDiskWAL (config d) (currentLSN d) true (file d) (fileOpen d) (filePath d)
    (TotalEntries d) (TotalBytes d) (syncCount d) (writtenBytes d).
Definition with_fileOpen (b : bool) (d : DiskWAL) : DiskWAL :=
  mkDiskWAL (config d) (currentLSN d) (closed d) (file d) b (filePath d)
    (TotalEntries d) (TotalBytes d) (syncCount d) (writtenBytes d).
Definition with_file (i : nat) (d : DiskWAL) : DiskWAL :=
  mkDiskWAL (config d) (currentLSN d) (closed d) (Some i) true (filePath d)
    (TotalEntries d) (TotalBytes d) (syncCount d) 0.
Definition with_filePath (n : Z) (d : DiskWAL) : DiskWAL :=
  mkDiskWAL (config d) (currentLSN d) (closed d) (file d) (fileOpen d) n
    (TotalEntries d) (TotalBytes d) (syncCount d) (writtenBytes d).
Definition with_writtenBytes (n : Z) (d : DiskWAL) : DiskWAL :=
  mkDiskWAL (config d) (currentLSN d) (closed d) (file d) (fileOpen d) (filePath d)
    (TotalEntries d) (TotalBytes d) (syncCount d) n.
Definition count_entry (size : Z) (d : DiskWAL) : DiskWAL :=
  mkDiskWAL (config d) (currentLSN d) (closed d) (file d) (fileOpen d) (filePath d)
    (TotalEntries d + 1) (TotalBytes d + size) (syncCount d) (writtenBytes d).
Definition count_sync (d : DiskWAL) : DiskWAL :=
  mkDiskWAL (config d) (currentLSN d) (closed d) (file d) (fileOpen d) (filePath d)
    (TotalEntries d) (TotalBytes d) (syncCount d + 1) (writtenBytes d).

(** ** The calls of package os *)

Definition pop_fault : stM World (option nat) := fun w =>
  match faults (os w) with
  | [] => (w, Ret None)
  | f :: fs => (set_os (with_faults fs) w, Ret f)
  end.

Definition os_error : gerr := Sentinel OSError.

(** A call that either fails without effect or runs [m]. *)
Definition os_call {A} (m : stM World A) : stM World A :=
  f ← pop_fault;
  match f with Some _ => failS os_error | None => m end.

(** [os.OpenFile] with O_CREATE|O_WRONLY|O_APPEND. *)
Definition OpenFile (n : Z) : stM World nat :=
  os_call (fun w =>
    match dir (os w) !! n with
    | Some i => (w, Ret i)
    | None =>
        let i := next_inode (os w) in
        (set_os (fun o => mkOS (<[n := i]> (dir o)) (deleting o) (<[i := []]> (inodes o))
                            (<[i := 0]> (synced o)) (S i) (faults o)) w, Ret i)
    end).

(** The open file of the log, or a nil dereference. *)
Definition the_file : stM World nat := fun w =>
  match file (dw w) with
  | None => (w, Panic)
  | Some i => if fileOpen (dw w) then (w, Ret i) else (w, Fail os_error)
  end.

Definition append_inode (i : nat) (data : bytes) : World -> World :=
  set_os (fun o => mkOS (dir o) (deleting o)
    (<[i := default [] (inodes o !! i) ++ data]> (inodes o)) (synced o)
    (next_inode o) (faults o)).

Definition FileWrite (data : bytes) : stM World unit :=
  i ← the_file;
  f ← pop_fault;
  match f with
  | Some n => _ ← modifyS (append_inode i (take n data)); failS os_error
  | None => modifyS (append_inode i data)
  end.

Definition FileSync : stM World unit :=
  i ← the_file;
  os_call (modifyS (set_os (fun o => mkOS (dir o) (deleting o) (inodes o)
    (<[i := zlen (default [] (inodes o !! i))]> (synced o)) (next_inode o) (faults o)))).

Definition FileClose : stM World unit :=
  _ ← the_file;
  f ← pop_fault;
  _ ← modifyS (set_dw (with_fileOpen false));
  match f with Some _ => failS os_error | None => mret tt end.

(** [os.ReadDir]: the segments, by name. *)
Definition walFiles (o : OS) : list Z :=
  merge_sort Z.le (map fst (map_to_list (dir o))).
Definition ReadDir : stM World (list Z) :=
  os_call (fun w => (w, Ret (walFiles (os w)))).
Definition ReadFile (n : Z) : stM World bytes :=
  os_call (fun w =>
    match dir (os w) !! n with
    | Some i => (w, Ret (default [] (inodes (os w) !! i)))
    | None => (w, Fail os_error)
    end).
Definition RenameDeleting (n : Z) : stM World unit :=
  os_call (fun w =>
    match dir (os w) !! n with
    | Some i => (set_os (fun o => mkOS (delete n (dir o)) (<[n := i]> (deleting o))
                   (inodes o) (synced o) (next_inode o) (faults o)) w, Ret tt)
    | None => (w, Fail os_error)
    end).
Definition RemoveDeleting (n : Z) : stM World unit :=
  os_call (modifyS (set_os (fun o => mkOS (dir o) (delete n (deleting o)) (inodes o)
    (synced o) (next_inode o) (faults o)))).

(** Runs [m] and drops its error. *)
Definition ignore_err {A} (m : stM World A) : stM World unit := fun w =>
  match m w with
  | (w', Panic) => (w', Panic)
  | (w', _) => (w', Ret tt)
  end.

(** ** Segments *)

Definition openSegment : stM World unit :=
  w ← getS;
  let n := u64 (currentLSN (dw w) + 1) in
  _ ← modifyS (set_dw (with_filePath n));
  f ← onErr (OpenFile n) (fun e => Wrap e "wal: open segment");
  modifyS (set_dw (with_file f)).

Definition NewDiskWAL (cfg : WALConfig) : stM World unit :=
  _ ← liftS (Validate cfg);
  _ ← onErr (os_call (mret tt)) (fun e => Wrap e "wal: create dir");
  _ ← modifyS (set_dw (fun _ => mkDiskWAL cfg 0 false None false 0 0 0 0 0));
  openSegment.

Definition rotateSegment : stM World unit :=
  w ← getS;
  _ ← (match file (dw w) with
       | Some _ => _ ← FileSync; ignore_err FileClose
       | None => mret tt
       end);
  openSegment.

Definition checkRotate (size : Z) : stM World unit :=
  w ← getS;
  let newSize := writtenBytes (dw w) + size in
  _ ← modifyS (set_dw (with_writtenBytes newSize));
  if SegmentSize (config (dw w)) <=? newSize then rotateSegment else mret tt.

(** ** Sync *)

Definition syncLocked : stM World unit :=
  _ ← onErr FileSync (fun e => Wrap e "wal: sync");
  modifyS (set_dw count_sync).

Definition ErrClosedIf (w : World) : stM World unit :=
  if closed (dw w) then failS (Sentinel ErrWALClosed) else mret tt.

Definition Sync : stM World unit :=
  w ← getS;
  _ ← ErrClosedIf w;
  syncLocked.

(** ** Append *)

Definition with_LSN (lsn : Z) (e : WALEntry) : WALEntry :=
  mkWALEntry lsn (TxID e) (Timestamp e) (Type_ e) (Key e) (Value e) (PrevLSN e)
    (ShardID e) (Term e).

(** The part of the loops of AppendBatch and writeEntries they share: marshal,
    rotate, write, count. *)
Definition writeEntry (entry : WALEntry) : stM World unit :=
  data ← onErr (liftS (MarshalWALEntry entry)) (fun e => Wrap e "wal: marshal");
  _ ← checkRotate (zlen data);
  _ ← onErr (FileWrite data) (fun e => Wrap e "wal: write");
  modifyS (set_dw (count_entry (zlen data))).

(** [currentLSN.Add(1)] and the assignment to [entry.LSN]. *)
Definition nextLSN (entry : WALEntry) : stM World WALEntry :=
  w ← getS;
  let lsn := u64 (currentLSN (dw w) + 1) in
  _ ← modifyS (set_dw (with_currentLSN lsn));
  mret (with_LSN lsn entry).

Fixpoint appendLoop (entries : list WALEntry) : stM World (list WALEntry) :=
  match entries with
  | [] => mret []
  | entry :: entries =>
      entry ← nextLSN entry;
      _ ← writeEntry entry;
      rest ← appendLoop entries;
      mret (entry :: rest)
  end.

(** Returns the LSNs; the entries are updated in place in the code, so they are
    returned with their LSN too. *)
Definition AppendBatch (entries : list WALEntry) : stM World (list Z * list WALEntry) :=
  w ← getS;
  _ ← ErrClosedIf w;
  es ← appendLoop entries;
  _ ← (if decide (Policy (config (dw w)) = SyncPolicyEveryWrite)
       then syncLocked else mret tt);
  mret (map LSN es, es).

Definition Append (entry : WALEntry) : stM World Z :=
  r ← AppendBatch [entry];
  liftS (index (fst r) 0).

Fixpoint writeEntries (entries : list WALEntry) : stM World unit :=
  match entries with
  | [] => mret tt
  | entry :: entries => _ ← writeEntry entry; writeEntries entries
  end.

(** ** Recovery *)

(** The loop of jumpScan; [off] grows by 8 each turn. *)
Fixpoint jumpLoop (fuel : nat) (data : bytes) (off maxOffset : Z) : outcome Z :=
  if negb (off <? maxOffset) then Ret (-1) else
  match fuel with
  | O => Panic
  | S fuel =>
      if zlen data <? off + 8 then Ret (-1) else
      length ← be_at 4 data (off + 4);
      let paddedEnd := off + 4 + 4 + length + 4 in
      if zlen data <? paddedEnd then jumpLoop fuel data (off + 8) maxOffset else
      crc ← be_at 4 data off;
      covered ← slice data (off + 4) paddedEnd;
      if negb (CRC32C covered =? crc) then jumpLoop fuel data (off + 8) maxOffset else
      trailer ← be_at 4 data (paddedEnd - 4);
      if negb (trailer =? trailerMagic) then jumpLoop fuel data (off + 8) maxOffset else
      Ret off
  end.

Definition jumpScan (data : bytes) (startOffset : Z) : outcome Z :=
  jumpLoop (S (length data)) data startOffset (zlen data - (4 + 4 + 4)).

Fixpoint recoverLoop (fuel : nat) (data : bytes) (offset : Z) (entries : list WALEntry)
    : outcome (list WALEntry) :=
  if negb (offset + 4 <=? zlen data) then Ret entries else
  match fuel with
  | O => Panic
  | S fuel =>
      if zlen data <? offset + 8 then Ret entries else
      length ← be_at 4 data (offset + 4);
      let entryEnd := offset + 4 + 4 + length + 4 in
      if zlen data <? entryEnd then Ret entries else
      frame ← slice data offset entryEnd;
      match UnmarshalWALEntry frame with
      | Panic => Panic
      | Fail _ =>
          nextOffset ← jumpScan data (offset + 8);
          if nextOffset <? 0 then Ret entries
          else recoverLoop fuel data nextOffset entries
      | Ret entry => recoverLoop fuel data entryEnd (entries ++ [entry])
      end
  end.

Definition recoverData (data : bytes) : outcome (list WALEntry) :=
  recoverLoop (S (length data)) data 0 [].

Definition recoverFile (n : Z) : stM World (list WALEntry) :=
  data ← ReadFile n;
  liftS (recoverData data).

Fixpoint scanLoop (names : list Z) (allEntries : list WALEntry) : stM World (list WALEntry) :=
  match names with
  | [] => mret allEntries
  | name :: names => fun w =>
      match recoverFile name w with
      | (w', Ret entries) => scanLoop names (allEntries ++ entries) w'
      | (w', Fail _) => scanLoop names allEntries w'
      | (w', Panic) => (w', Panic)
      end
  end.

(** The residue of interrupted truncations; all errors are ignored. *)
Fixpoint removeAll (names : list Z) : stM World unit :=
  match names with
  | [] => mret tt
  | n :: names => _ ← ignore_err (RemoveDeleting n); removeAll names
  end.
Definition cleanDeleting : stM World unit := fun w =>
  match os_call (fun w => (w, Ret (map fst (map_to_list (deleting (os w)))))) w with
  | (w', Ret names) => removeAll names w'
  | (w', _) => (w', Ret tt)
  end.

Definition scanSegments : stM World (list WALEntry) :=
  names ← onErr ReadDir (fun e => Wrap e "wal: read dir");
  allEntries ← scanLoop names [];
  _ ← cleanDeleting;
  mret allEntries.

Definition restoreLSN (cur : Z) (entries : list WALEntry) : Z :=
  fold_left (fun cur e => if cur <? LSN e then LSN e else cur) entries cur.

Definition Recover : stM World (list WALEntry) :=
  entries ← scanSegments;
  _ ← modifyS (set_dw (fun d => with_currentLSN (restoreLSN (currentLSN d) entries) d));
  mret entries.

(** ** Truncate *)

Fixpoint truncateLoop (lsn : Z) (names : list Z) : stM World unit :=
  match names with
  | [] => mret tt
  | fileLSN :: names =>
      if lsn <=? fileLSN then truncateLoop lsn names else fun w =>
      match RenameDeleting fileLSN w with
      | (w', Fail _) => truncateLoop lsn names w'
      | (w', Panic) => (w', Panic)
      | (w', Ret _) => (_ ← ignore_err (RemoveDeleting fileLSN); truncateLoop lsn names) w'
      end
  end.

Definition truncateBefore (lsn : Z) : stM World unit :=
  names ← ReadDir;
  truncateLoop lsn names.

Definition Truncate (lsn : Z) : stM World unit :=
  w ← getS;
  _ ← ErrClosedIf w;
  truncateBefore lsn.

(** ** Lifecycle *)

Definition Close : stM World unit :=
  w ← getS;
  _ ← ErrClosedIf w;
  _ ← modifyS (set_dw with_closed);
  _ ← syncLocked;
  match file (dw w) with
  | Some _ => onErr FileClose (fun e => Wrap e "wal: close")
  | None => mret tt
  end.

Definition flushPending : stM World unit := ignore_err syncLocked.

Definition CurrentLSN (w : World) : Z := currentLSN (dw w).

(** TotalEntries, TotalBytes, CurrentLSN, SyncCount. *)
Definition GetStats (w : World) : Z * Z * Z * Z :=
  (TotalEntries (dw w), TotalBytes (dw w), currentLSN (dw w), syncCount (dw w)).

(** ** What recovery reads from one segment *)

Definition entry_wf (e : WALEntry) : Prop :=
  entry_ok e /\ bytes_ok (nilbytes (Key e)) /\ bytes_ok (nilbytes (Value e)).

Definition wires (es : list WALEntry) : bytes := concat (map wal_wire es).

(** The entries that lie whole in the first [k] bytes of a log. *)
Fixpoint intact (k : Z) (es : list WALEntry) : list WALEntry :=
  match es with
  | [] => []
  | e :: es => if zlen (wal_wire e) <=? k then e :: intact (k - zlen (wal_wire e)) es else []
  end.

Lemma wires_app a b : wires (a ++ b) = wires a ++ wires b.
Proof. unfold wires. by rewrite map_app, concat_app. Qed.

Lemma zlen_wal_wire e : zlen (wal_wire e) = 12 + align8 (zlen (wal_payload e)).
Proof.
  unfold wal_wire. autorewrite with zlen_db. rewrite zlen_wal_covered. lia.
Qed.

Lemma zlen_wal_wire_min e : 57 <= zlen (wal_wire e).
Proof.
  rewrite zlen_wal_wire. pose proof (align8_bounds _ (zlen_nonneg (wal_payload e))) as H.
  rewrite zlen_wal_payload in *. pose proof (zlen_nonneg (nilbytes (Key e))).
  pose proof (zlen_nonneg (nilbytes (Value e))). lia.
Qed.

(** The length field of a frame gives its end. *)
Lemma frame_length pre e k :
  entry_ok e -> 8 <= k ->
  be_at 4 (pre ++ ztake k (wal_wire e)) (zlen pre + 4) = Ret (zlen (wal_wire e) - 12).
Proof.
  intros Hok Hk. pose proof (entry_padded_u32 e Hok) as Hq.
  rewrite (be_at_slice 4 _ _ (be_enc 4 (u32 (align8 (zlen (wal_payload e)))))).
  - rewrite be_dec_enc4_id by apply u32_range. rewrite u32_id by done.
    rewrite zlen_wal_wire. f_equal. lia.
  - rewrite slice_skip by lia. unfold wal_wire, wal_covered.
    set (q := be_enc 4 (u32 _)). set (c := be_enc 4 (CRC32C _)).
    assert (zlen q = 4) as Hq4 by apply zlen_be_enc.
    assert (zlen c = 4) as Hc4 by apply zlen_be_enc.
    rewrite <- !app_assoc, (app_assoc c q).
    unfold ztake. rewrite take_app_ge
      by (rewrite length_app; unfold zlen in Hq4, Hc4; lia).
    rewrite <- app_assoc. apply slice_mid; lia.
Qed.

Lemma recoverLoop_entry fuel pre e rest acc :
  entry_wf e ->
  recoverLoop (S fuel) (pre ++ wal_wire e ++ rest) (zlen pre) acc =
  recoverLoop fuel (pre ++ wal_wire e ++ rest) (zlen (pre ++ wal_wire e))
    (acc ++ [norm_entry e]).
Proof.
  intros (Hok & Hk & Hv). pose proof (zlen_wal_wire_min e) as Hmin.
  pose proof (zlen_nonneg rest). pose proof (zlen_nonneg pre).
  assert (zlen (pre ++ wal_wire e ++ rest) = zlen pre + zlen (wal_wire e) + zlen rest) as Hd
    by (rewrite !zlen_app; lia).
  cbn [recoverLoop]. cbv zeta.
  rewrite (proj2 (Z.leb_le (zlen pre + 4) _)) by lia. cbn [negb].
  rewrite (proj2 (Z.ltb_ge _ (zlen pre + 8))) by lia.
  assert (be_at 4 (pre ++ wal_wire e ++ rest) (zlen pre + 4) = Ret (zlen (wal_wire e) - 12)) as ->.
  { rewrite <- (frame_length pre e (zlen (wal_wire e))) by (done || lia).
    rewrite ztake_all by lia. unfold be_at. f_equal.
    rewrite app_assoc. apply slice_app_l. rewrite zlen_app. lia. }
  rewrite bind_ret.
  replace (zlen pre + 4 + 4 + (zlen (wal_wire e) - 12) + 4)
    with (zlen (pre ++ wal_wire e)) by (rewrite zlen_app; lia).
  rewrite (proj2 (Z.ltb_ge _ (zlen (pre ++ wal_wire e)))) by (rewrite !zlen_app; lia).
  rewrite slice_mid by (rewrite ?zlen_app; lia). rewrite bind_ret.
  pose proof (unmarshal_wire e [] Hok Hk Hv) as Hu.
  rewrite app_nil_r in Hu. by rewrite Hu.
Qed.

(** A torn frame at the end of the log is dropped. *)
Lemma recoverLoop_torn fuel pre e k acc :
  entry_ok e -> 0 <= k < zlen (wal_wire e) ->
  recoverLoop (S fuel) (pre ++ ztake k (wal_wire e)) (zlen pre) acc = Ret acc.
Proof.
  intros Hok Hk. pose proof (zlen_nonneg pre).
  assert (zlen (pre ++ ztake k (wal_wire e)) = zlen pre + k) as Hd
    by (rewrite zlen_app, zlen_ztake by lia; lia).
  cbn [recoverLoop]. cbv zeta. rewrite Hd.
  destruct (Z.leb_spec (zlen pre + 4) (zlen pre + k)); [|done]. cbn [negb].
  destruct (Z.ltb_spec (zlen pre + k) (zlen pre + 8)); [done|].
  rewrite frame_length by (done || lia). rewrite bind_ret.
  by rewrite (proj2 (Z.ltb_lt _ _)) by lia.
Qed.

Lemma recoverLoop_end fuel pre acc : recoverLoop fuel pre (zlen pre) acc = Ret acc.
Proof.
  destruct fuel; cbn [recoverLoop]; by rewrite (proj2 (Z.leb_gt _ _)) by lia.
Qed.

Lemma recoverLoop_prefix fuel es pre k acc :
  Forall entry_wf es -> 0 <= k -> (length (intact k es) < fuel)%nat ->
  recoverLoop fuel (pre ++ ztake k (wires es)) (zlen pre) acc =
  Ret (acc ++ map norm_entry (intact k es)).
Proof.
  revert fuel pre k acc. induction es as [|e es IH]; intros fuel pre k acc Hes Hk Hf.
  - change (wires []) with (@nil Z). unfold ztake. rewrite take_nil, app_nil_r.
    rewrite recoverLoop_end. cbn. by rewrite app_nil_r.
  - inversion Hes as [|?? He Hes']; subst. destruct fuel as [|fuel]; [cbn in Hf; lia|].
    change (wires (e :: es)) with (wal_wire e ++ wires es).
    pose proof (zlen_wal_wire_min e). cbn [intact].
    destruct (Z.leb_spec (zlen (wal_wire e)) k) as [Hle|Hgt].
    + assert (ztake k (wal_wire e ++ wires es) =
              wal_wire e ++ ztake (k - zlen (wal_wire e)) (wires es)) as ->.
      { unfold ztake. rewrite take_app_ge by (unfold zlen in *; lia). f_equal. f_equal.
        unfold zlen in *. lia. }
      rewrite recoverLoop_entry by done.
      rewrite (app_assoc pre). rewrite IH; [|done|lia|].
      2: { cbn [intact] in Hf. rewrite (proj2 (Z.leb_le _ _)) in Hf by lia. cbn in Hf. lia. }
      cbn [map]. by rewrite <- app_assoc.
    + assert (ztake k (wal_wire e ++ wires es) = ztake k (wal_wire e)) as ->.
      { apply take_app_le. unfold zlen in *; lia. }
      rewrite recoverLoop_torn by (apply He || lia). by rewrite app_nil_r.
Qed.

Lemma intact_length k es : (length (intact k es) <= length (ztake k (wires es)))%nat.
Proof.
  revert k. induction es as [|e es IH]; intros k; [cbn; lia|]. cbn [intact].
  destruct (Z.leb_spec (zlen (wal_wire e)) k); [|cbn; lia].
  change (wires (e :: es)) with (wal_wire e ++ wires es). cbn [length].
  specialize (IH (k - zlen (wal_wire e))). pose proof (zlen_wal_wire_min e).
  unfold ztake in *. rewrite length_take in *. rewrite length_app. unfold zlen in *. lia.
Qed.

Lemma recoverData_torn es k :
  Forall entry_wf es -> 0 <= k ->
  recoverData (ztake k (wires es)) = Ret (map norm_entry (intact k es)).
Proof.
  intros Hes Hk. unfold recoverData. apply (recoverLoop_prefix _ es [] k []); [done..|].
  cbn [app]. pose proof (intact_length k es). lia.
Qed.

(** C31: a segment cut at any byte (a crash that lost its tail) is recovered as
    exactly the entries that lie whole before the cut, in order. *)
Theorem recover_torn_log es k :
  Forall entry_wf es -> 0 <= k ->
  recoverData (ztake k (wires es)) = Ret (map norm_entry (intact k es)).
Proof. apply recoverData_torn. Qed.

Lemma recover_torn_log_witness :
  let es := [mkWALEntry 1 2 3 0 (Some [5]) (Some [6]) 0 0 0;
             mkWALEntry 2 2 3 0 (Some [7]) None 0 0 0] in
  recoverData (ztake 100 (wires es)) = Ret [mkWALEntry 1 2 3 0 (Some [5]) (Some [6]) 0 0 0].
Proof.
  cbv zeta. rewrite recover_torn_log.
  - reflexivity.
  - repeat constructor; unfold is_u64, is_i64, is_u8, is_u16, zlen; simpl; lia.
  - lia.
Defined.

(** ** The log on disk as a list of segments *)

Definition seg : Type := Z * nat * list WALEntry.
Definition seg_name (s : seg) : Z := s.1.1.
Definition seg_inode (s : seg) : nat := s.1.2.
Definition contents (segs : list seg) : list WALEntry := concat (map snd segs).

(** The disk holds the segments [pre] and, open for writing, segment [n] with
    inode [i] and entries [es], of which [syn] bytes are known to be on disk. *)
Record on_disk (w : World) (pre : list seg) (n : Z) (i : nat) (es : list WALEntry)
    (syn : Z) : Prop := {
  od_faults : faults (os w) = [];
  od_open : closed (dw w) = false /\ fileOpen (dw w) = true /\ file (dw w) = Some i;
  od_dir : dir (os w) = list_to_map (map fst (pre ++ [(n, i, es)]));
  od_deleting : deleting (os w) = ∅;
  od_sorted : StronglySorted Z.lt (map seg_name (pre ++ [(n, i, es)]));
  od_nodup : NoDup (map seg_inode (pre ++ [(n, i, es)]));
  od_fresh : Forall (fun s => (seg_inode s < next_inode (os w))%nat) (pre ++ [(n, i, es)]);
  od_data : Forall (fun s => inodes (os w) !! seg_inode s = Some (wires s.2))
              (pre ++ [(n, i, es)]);
  od_synced : Forall (fun s => synced (os w) !! seg_inode s = Some (zlen (wires s.2))) pre;
  od_syn : synced (os w) !! i = Some syn /\ 0 <= syn <= zlen (wires es);
  od_first : exists s, head (pre ++ [(n, i, es)]) = Some s /\ seg_name s = 1;
  od_wf : Forall entry_wf (contents (pre ++ [(n, i, es)]));
}.

(** Entries that survive any crash. *)
Definition durable (pre : list seg) (syn : Z) (es : list WALEntry) : nat :=
  length (contents pre) + length (intact syn es).

Lemma contents_snoc pre n i es : contents (pre ++ [(n, i, es)]) = contents pre ++ es.
Proof. unfold contents. rewrite map_app, concat_app. cbn. by rewrite app_nil_r. Qed.

Lemma StronglySorted_lt_le (l : list Z) : StronglySorted Z.lt l -> StronglySorted Z.le l.
Proof.
  induction 1 as [|x l _ IH Hx]; constructor; [done|].
  eapply Forall_impl; [exact Hx|]. simpl. lia.
Qed.
Lemma StronglySorted_lt_nodup (l : list Z) : StronglySorted Z.lt l -> NoDup l.
Proof.
  induction 1 as [|x l _ IH Hx]; constructor; [|done].
  intros Hin. rewrite Forall_forall in Hx. specialize (Hx x Hin). lia.
Qed.
Lemma StronglySorted_snoc (l : list Z) x :
  StronglySorted Z.lt l -> Forall (fun y => y < x) l -> StronglySorted Z.lt (l ++ [x]).
Proof.
  induction 1 as [|y l _ IH Hy]; intros Hx; cbn [app]; [repeat constructor|].
  inversion Hx; subst. constructor; [by apply IH|].
  apply Forall_app. split; [done|]. by repeat constructor.
Qed.
Lemma StronglySorted_last (l : list Z) x :
  StronglySorted Z.lt (l ++ [x]) -> Forall (fun y => y < x) l.
Proof.
  induction l as [|y l IH]; cbn [app]; intros H; [constructor|].
  inversion H as [|?? Hs Hy]; subst. constructor; [|by apply IH].
  apply Forall_app in Hy as [_ Hy]. by inversion Hy.
Qed.

Lemma map_names (segs : list seg) : map fst (map fst segs) = map seg_name segs.
Proof. by rewrite map_map. Qed.

(** ReadDir lists the segments in the order of their numbers. *)
Lemma walFiles_segs o (segs : list seg) :
  dir o = list_to_map (map fst segs) -> StronglySorted Z.lt (map seg_name segs) ->
  walFiles o = map seg_name segs.
Proof.
  intros Hd Hs. unfold walFiles. rewrite Hd.
  apply (StronglySorted_unique Z.le); [|by apply StronglySorted_lt_le|].
  - apply (StronglySorted_merge_sort Z.le).
  - rewrite (merge_sort_Permutation Z.le), map_to_list_to_map.
    + by rewrite map_names.
    + unfold fst at 1. fold (@fst Z nat). rewrite map_names. by apply StronglySorted_lt_nodup.
Qed.

Lemma dir_lookup (segs : list seg) s :
  StronglySorted Z.lt (map seg_name segs) -> s ∈ segs ->
  (list_to_map (map fst segs) : gmap Z nat) !! seg_name s = Some (seg_inode s).
Proof.
  intros Hs Hin. apply elem_of_list_to_map_1.
  - rewrite map_names. by apply StronglySorted_lt_nodup.
  - apply list_elem_of_fmap. exists s. split; [|done]. by destruct s as [[??]?].
Qed.

(** ** One write *)

Lemma the_file_ok w i :
  fileOpen (dw w) = true -> file (dw w) = Some i -> the_file w = (w, Ret i).
Proof. intros Ho Hf. unfold the_file. by rewrite Hf, Ho. Qed.

Lemma pop_fault_nil w : faults (os w) = [] -> pop_fault w = (w, Ret None).
Proof. unfold pop_fault. by intros ->. Qed.

Lemma os_call_ok {A} (m : stM World A) w : faults (os w) = [] -> os_call m w = m w.
Proof.
  intros H. unfold os_call. by rewrite (stM_bind_ret _ _ _ _ _ (pop_fault_nil w H)).
Qed.

Lemma FileWrite_ok w i data :
  faults (os w) = [] -> fileOpen (dw w) = true -> file (dw w) = Some i ->
  FileWrite data w = (append_inode i data w, Ret tt).
Proof.
  intros Hf Ho Hi. unfold FileWrite.
  rewrite (stM_bind_ret _ _ _ _ _ (the_file_ok w i Ho Hi)).
  by rewrite (stM_bind_ret _ _ _ _ _ (pop_fault_nil w Hf)).
Qed.

Lemma not_in_pre pre n i es s :
  NoDup (map seg_inode (pre ++ [(n, i, es)])) -> s ∈ pre -> seg_inode s <> i.
Proof.
  rewrite map_app. intros Hn Hin E. apply NoDup_app in Hn as (_ & Hn & _).
  apply (Hn i); [|by left]. rewrite <- E. by apply list_elem_of_fmap_2.
Qed.

(** Appending a frame to the open segment. *)
Lemma append_on_disk w pre n i es syn e :
  on_disk w pre n i es syn -> entry_wf e ->
  on_disk (append_inode i (wal_wire e) w) pre n i (es ++ [e]) syn.
Proof.
  intros H Hwf. destruct H as [Hf Ho Hd Hdel Hs Hn Hfr Hda Hsy [Hs1 Hs2] [s0 Hfi] Hw].
  assert (inodes (os w) !! i = Some (wires es)) as Hi.
  { apply Forall_app in Hda as [_ Hda]. by inversion Hda. }
  rewrite map_app in *. cbn [map seg_name seg_inode fst snd] in *.
  split; cbn [os dw append_inode set_os faults dir deleting inodes synced next_inode] in *;
    rewrite ?map_app; cbn [map seg_name seg_inode fst snd]; try done.
  - apply Forall_app in Hfr as [? Hfr]. apply Forall_app. split; [done|].
    inversion Hfr; subst. by repeat constructor.
  - rewrite Hi. cbn [default]. apply Forall_app in Hda as [Hda _]. apply Forall_app. split.
    + rewrite Forall_forall in Hda |- *. intros s Hin. rewrite lookup_insert_ne; [by auto|].
      apply not_eq_sym, (not_in_pre pre n i es); [|done]. rewrite map_app. exact Hn.
    + constructor; [|constructor]. cbn [seg_inode fst snd]. rewrite lookup_insert_eq. f_equal.
      rewrite wires_app. f_equal. unfold wires. cbn. by rewrite app_nil_r.
  - split; [done|]. rewrite wires_app, zlen_app. pose proof (zlen_nonneg (wires [e])). lia.
  - destruct pre; cbn in *; [|eauto]. destruct Hfi as [[= <-] Hfi]. by exists (n, i, es ++ [e]).
  - rewrite contents_snoc in *. rewrite app_assoc. apply Forall_app. split; [done|].
    by apply Forall_singleton.
Qed.

(** The record is about the disk and three fields of the receiver. *)
Lemma on_disk_dw w w' pre n i es syn :
  on_disk w pre n i es syn -> os w' = os w -> closed (dw w') = closed (dw w) ->
  fileOpen (dw w') = fileOpen (dw w) -> file (dw w') = file (dw w) ->
  on_disk w' pre n i es syn.
Proof.
  intros [] E1 E2 E3 E4. split; rewrite ?E1, ?E2, ?E3, ?E4; done.
Qed.

(** An fsync of the open segment makes all of it durable. *)
Definition sync_inode (i : nat) : World -> World :=
  set_os (fun o => mkOS (dir o) (deleting o) (inodes o)
    (<[i := zlen (default [] (inodes o !! i))]> (synced o)) (next_inode o) (faults o)).

Lemma FileSync_ok w i :
  faults (os w) = [] -> fileOpen (dw w) = true -> file (dw w) = Some i ->
  FileSync w = (sync_inode i w, Ret tt).
Proof.
  intros Hf Ho Hi. unfold FileSync.
  rewrite (stM_bind_ret _ _ _ _ _ (the_file_ok w i Ho Hi)).
  by rewrite os_call_ok.
Qed.

Lemma sync_on_disk w pre n i es syn :
  on_disk w pre n i es syn ->
  on_disk (sync_inode i w) pre n i es (zlen (wires es)).
Proof.
  intros H. destruct H as [Hf Ho Hd Hdel Hs Hn Hfr Hda Hsy [Hs1 Hs2] Hfi Hw].
  assert (inodes (os w) !! i = Some (wires es)) as Hi.
  { apply Forall_app in Hda as [_ Hda]. by inversion Hda. }
  split; cbn [os dw sync_inode set_os faults dir deleting inodes synced next_inode] in *;
    try done; rewrite Hi; cbn [default].
  - rewrite Forall_forall in Hsy |- *. intros s Hin. rewrite lookup_insert_ne; [by auto|].
    apply not_eq_sym. by eapply not_in_pre.
  - rewrite lookup_insert_eq. split; [done|]. cbn. lia.
Qed.

(** A fresh segment whose number is above all others. *)
Definition open_new (m : Z) : World -> World := fun w =>
  let j := next_inode (os w) in
  mkWorld (mkOS (<[m := j]> (dir (os w))) (deleting (os w)) (<[j := []]> (inodes (os w)))
             (<[j := 0]> (synced (os w))) (S j) (faults (os w)))
    (with_file j (with_filePath m (dw w))).

Lemma openSegment_new w :
  faults (os w) = [] -> dir (os w) !! u64 (currentLSN (dw w) + 1) = None ->
  openSegment w = (open_new (u64 (currentLSN (dw w) + 1)) w, Ret tt).
Proof.
  intros Hf Hd. unfold openSegment. autorewrite with stM_db.
  set (m := u64 _) in *.
  erewrite stM_bind_ret.
  2: { apply onErr_ret. unfold OpenFile. rewrite os_call_ok by done.
       cbn [os set_dw]. by rewrite Hd. }
  reflexivity.
Qed.

Lemma rotate_on_disk w pre n i es syn m :
  on_disk w pre n i es syn -> n < m ->
  dir (os w) !! m = None /\
  on_disk (open_new m (set_dw (with_fileOpen false) (sync_inode i w)))
    (pre ++ [(n, i, es)]) m (next_inode (os w)) [] 0.
Proof.
  intros H Hm. apply sync_on_disk in H.
  destruct H as [Hf Ho Hd Hdel Hs Hn Hfr Hda Hsy [Hs1 Hs2] [s0 Hfi] Hw].
  set (segs := pre ++ [(n, i, es)]) in *.
  cbn [os dw sync_inode set_os faults dir deleting inodes synced next_inode] in *.
  assert (Forall (fun y => y < m) (map seg_name segs)) as Hlt.
  { unfold segs in *. rewrite map_app in *. cbn in Hs. apply StronglySorted_last in Hs.
    apply Forall_app. split; [|by repeat constructor].
    eapply Forall_impl; [exact Hs|]. cbn. lia. }
  assert (dir (os w) !! m = None) as Hnone.
  { rewrite Hd. apply not_elem_of_list_to_map_1. rewrite map_names.
    intros Hin. rewrite Forall_forall in Hlt. specialize (Hlt m Hin). lia. }
  assert (Forall (fun s => seg_inode s <> next_inode (os w)) segs) as Hne.
  { eapply Forall_impl; [exact Hfr|]. simpl. lia. }
  split; [done|].
  split; cbn [os dw sync_inode set_os set_dw faults dir deleting inodes synced next_inode
              open_new closed fileOpen file with_file with_filePath with_fileOpen] in *;
    rewrite ?map_app; try done.
  - by destruct Ho.
  - rewrite Hd. cbn [map fst snd]. rewrite list_to_map_snoc; [done|].
    rewrite map_names. intros Hin. rewrite Forall_forall in Hlt. specialize (Hlt m Hin). lia.
  - apply StronglySorted_snoc; done.
  - apply NoDup_app. split; [done|]. split; [|apply NoDup_singleton].
    intros x Hin Hx. apply list_elem_of_singleton in Hx as ->. cbn in Hin.
    apply list_elem_of_fmap in Hin as (s & E & Hin). rewrite Forall_forall in Hne.
    by apply (Hne s Hin).
  - apply Forall_app. split; [|repeat constructor; cbn; lia].
    eapply Forall_impl; [exact Hfr|]. simpl. lia.
  - apply Forall_app. split; [|repeat constructor; cbn; by rewrite lookup_insert_eq].
    rewrite Forall_forall in Hda, Hne |- *. intros s Hin.
    rewrite lookup_insert_ne by (apply not_eq_sym; auto). auto.
  - rewrite Forall_forall in Hne |- *. intros s Hin.
    rewrite lookup_insert_ne by (apply not_eq_sym; auto).
    unfold segs in Hin. apply elem_of_app in Hin as [Hin|Hin].
    + rewrite Forall_forall in Hsy. auto.
    + apply list_elem_of_singleton in Hin as ->. cbn. exact Hs1.
  - rewrite lookup_insert_eq. done.
  - exists s0. split; [|by destruct Hfi]. destruct Hfi as [Hfi _].
    unfold segs in *. by destruct pre.
  - rewrite contents_snoc, app_nil_r. exact Hw.
Qed.

(** The log holds the entries [all], the first [d] of which are durable; its
    last segment is numbered at most [currentLSN + slack]. *)
Definition holds (slack : Z) (w : World) (all : list WALEntry) (d : nat) : Prop :=
  exists pre n i es syn, on_disk w pre n i es syn /\
    n <= currentLSN (dw w) + slack /\ 0 <= currentLSN (dw w) /\
    all = contents pre ++ es /\ (d <= durable pre syn es)%nat.

(** What the operations leave alone. *)
Definition same_config (w w' : World) : Prop := config (dw w') = config (dw w).

Lemma intact_app k a b : (length (intact k a) <= length (intact k (a ++ b)))%nat.
Proof.
  revert k. induction a as [|e a IH]; intros k; [cbn; lia|]. cbn [app intact].
  destruct (_ <=? _); [|cbn; lia]. cbn [length]. specialize (IH (k - zlen (wal_wire e))). lia.
Qed.

Lemma intact_all es k : zlen (wires es) <= k -> intact k es = es.
Proof.
  revert k. induction es as [|e es IH]; intros k H; [done|].
  change (wires (e :: es)) with (wal_wire e ++ wires es) in H. rewrite zlen_app in H.
  pose proof (zlen_nonneg (wires es)). cbn [intact].
  rewrite (proj2 (Z.leb_le _ _)) by lia. by rewrite IH by lia.
Qed.

Lemma intact_take k es : exists m, intact k es = take m es /\ (m <= length es)%nat.
Proof.
  revert k. induction es as [|e es IH]; intros k; [by exists 0%nat|]. cbn [intact].
  destruct (_ <=? _); [|by exists 0%nat; cbn; split; [|lia]].
  destruct (IH (k - zlen (wal_wire e))) as (m & -> & Hm). exists (S m). cbn. split; [done|lia].
Qed.

Lemma intact_mono k k' es : k <= k' -> (length (intact k es) <= length (intact k' es))%nat.
Proof.
  revert k k'. induction es as [|e es IH]; intros k k' H; [cbn; lia|]. cbn [intact].
  destruct (Z.leb_spec (zlen (wal_wire e)) k); [|cbn; lia].
  rewrite (proj2 (Z.leb_le _ k')) by lia. cbn [length].
  specialize (IH (k - zlen (wal_wire e)) (k' - zlen (wal_wire e)) ltac:(lia)). lia.
Qed.

Lemma durable_rotate pre n i es syn :
  (durable pre syn es <= durable (pre ++ [(n, i, es)]) 0 [])%nat.
Proof.
  unfold durable. rewrite contents_snoc, length_app. cbn [intact length].
  destruct (intact_take syn es) as (m & -> & Hm). rewrite length_take. lia.
Qed.

Lemma durable_le pre n i es syn : (durable pre syn es <= length (contents (pre ++ [(n, i, es)])))%nat.
Proof.
  unfold durable. rewrite contents_snoc, length_app.
  destruct (intact_take syn es) as (m & -> & Hm). rewrite length_take. lia.
Qed.

Lemma rotateSegment_ok w all d :
  holds 0 w all d -> currentLSN (dw w) + 1 < 2 ^ 64 ->
  exists w', rotateSegment w = (w', Ret tt) /\ holds 1 w' all d /\
    currentLSN (dw w') = currentLSN (dw w) /\ same_config w w'.
Proof.
  intros (pre & n & i & es & syn & H & Hn & Hc & -> & Hd) Hmax.
  pose proof H as [Hf (Hcl & Ho & Hi) _ _ _ _ _ _ _ _ _ _].
  set (m := u64 (currentLSN (dw w) + 1)).
  assert (m = currentLSN (dw w) + 1) as Em by (apply u64_id; unfold is_u64; lia).
  destruct (rotate_on_disk w pre n i es syn m H ltac:(lia)) as [Hnone Hnew].
  eexists. split; [|split; [|split]].
  - unfold rotateSegment. autorewrite with stM_db. rewrite Hi.
    erewrite stM_bind_ret.
    2: { rewrite (stM_bind_ret _ _ _ _ _ (FileSync_ok w i Hf Ho Hi)).
         unfold ignore_err, FileClose.
         rewrite (stM_bind_ret _ _ _ _ _ (the_file_ok (sync_inode i w) i Ho Hi)).
         rewrite (stM_bind_ret _ _ _ _ _ (pop_fault_nil (sync_inode i w) Hf)).
         rewrite stM_bind_modify. reflexivity. }
    apply openSegment_new; [exact Hf|exact Hnone].
  - exists (pre ++ [(n, i, es)]), m, (next_inode (os w)), [], 0. split; [exact Hnew|].
    cbn. split; [rewrite Em; lia|]. split; [done|]. rewrite contents_snoc, app_nil_r.
    split; [done|]. pose proof (durable_rotate pre n i es syn). lia.
  - reflexivity.
  - reflexivity.
Qed.

Lemma checkRotate_ok w all d size :
  holds 0 w all d -> currentLSN (dw w) + 1 < 2 ^ 64 ->
  exists w', checkRotate size w = (w', Ret tt) /\ holds 1 w' all d /\
    currentLSN (dw w') = currentLSN (dw w) /\ same_config w w'.
Proof.
  intros Hh Hmax. unfold checkRotate. autorewrite with stM_db.
  set (w1 := set_dw (with_writtenBytes _) w).
  assert (holds 0 w1 all d) as Hh1.
  { destruct Hh as (pre & n & i & es & syn & H & ?). exists pre, n, i, es, syn.
    split; [|done]. by apply (on_disk_dw w). }
  destruct (_ <=? _).
  - destruct (rotateSegment_ok w1 all d Hh1 Hmax) as (w' & ? & ? & ? & ?). eauto.
  - exists w1. split; [done|]. split; [|done].
    destruct Hh1 as (pre & n & i & es & syn & H & ? & ?). exists pre, n, i, es, syn.
    split; [done|]. split; [lia|done].
Qed.

Lemma writeEntry_ok w all d e :
  holds 0 w all d -> currentLSN (dw w) + 1 < 2 ^ 64 -> entry_wf e ->
  exists w', writeEntry e w = (w', Ret tt) /\ holds 1 w' (all ++ [e]) d /\
    currentLSN (dw w') = currentLSN (dw w) /\ same_config w w'.
Proof.
  intros Hh Hmax Hwf.
  destruct (checkRotate_ok w all d (zlen (wal_wire e)) Hh Hmax)
    as (w1 & H1 & (pre & n & i & es & syn & H & Hn & Hc & -> & Hd) & E1 & C1).
  pose proof H as [Hf (Hcl & Ho & Hi) _ _ _ _ _ _ _ _ _ _].
  eexists. split; [|split; [|split]].
  - unfold writeEntry. rewrite MarshalWALEntry_wire.
    erewrite stM_bind_ret; [|reflexivity].
    rewrite (stM_bind_ret _ _ _ _ _ H1).
    erewrite stM_bind_ret; [reflexivity|].
    apply onErr_ret. by apply (FileWrite_ok w1 i).
  - exists pre, n, i, (es ++ [e]), syn.
    split; [|split; [exact Hn|split; [exact Hc|split; [by rewrite app_assoc|]]]].
    + eapply on_disk_dw; [by apply append_on_disk|done..].
    + unfold durable in *. pose proof (intact_app syn es [e]). lia.
  - exact E1.
  - exact C1.
Qed.

(** ** Batches *)

(** The entries as AppendBatch numbers them, from [cur + 1]. *)
Fixpoint number (cur : Z) (es : list WALEntry) : list WALEntry :=
  match es with
  | [] => []
  | e :: es => with_LSN (cur + 1) e :: number (cur + 1) es
  end.

Lemma nextLSN_ok w all d e :
  holds 1 w all d -> currentLSN (dw w) + 1 < 2 ^ 64 ->
  exists w', nextLSN e w = (w', Ret (with_LSN (currentLSN (dw w) + 1) e)) /\
    holds 0 w' all d /\ currentLSN (dw w') = currentLSN (dw w) + 1 /\ same_config w w'.
Proof.
  intros (pre & n & i & es & syn & H & Hn & Hc & -> & Hd) Hmax.
  assert (u64 (currentLSN (dw w) + 1) = currentLSN (dw w) + 1) as E
    by (apply u64_id; unfold is_u64; lia).
  unfold nextLSN. autorewrite with stM_db. rewrite E. eexists. split; [reflexivity|].
  split; [|done]. exists pre, n, i, es, syn. split; [by apply (on_disk_dw w)|].
  cbn. split; [lia|]. split; [lia|done].
Qed.

Lemma with_LSN_wf lsn e : entry_wf e -> is_u64 lsn -> entry_wf (with_LSN lsn e).
Proof. unfold entry_wf, entry_ok. destruct e; cbn. tauto. Qed.

Lemma zlen_number cur es : zlen (number cur es) = zlen es.
Proof. revert cur. induction es as [|e es IH]; intros; [done|]. cbn [number]. by rewrite !zlen_cons, IH. Qed.

Lemma number_app cur a b : number cur (a ++ b) = number cur a ++ number (cur + zlen a) b.
Proof.
  revert cur. induction a as [|e a IH]; intros cur; [cbn; by rewrite Z.add_0_r|].
  cbn [app number]. rewrite IH, zlen_cons. do 3 f_equal. lia.
Qed.

Lemma appendLoop_ok w all d es :
  holds 1 w all d -> Forall entry_wf es -> currentLSN (dw w) + zlen es < 2 ^ 64 - 1 ->
  exists w', appendLoop es w = (w', Ret (number (currentLSN (dw w)) es)) /\
    holds 1 w' (all ++ number (currentLSN (dw w)) es) d /\
    currentLSN (dw w') = currentLSN (dw w) + zlen es /\ same_config w w'.
Proof.
  revert w all. induction es as [|e es IH]; intros w all Hh Hes Hmax.
  - exists w. rewrite zlen_nil, Z.add_0_r. cbn [number appendLoop]. by rewrite app_nil_r.
  - inversion Hes as [|?? He Hes']; subst. rewrite zlen_cons in Hmax.
    pose proof (zlen_nonneg es).
    assert (0 <= currentLSN (dw w)) as Hc by (destruct Hh as (?&?&?&?&?&?&?&?&?); lia).
    destruct (nextLSN_ok w all d e Hh ltac:(lia)) as (w1 & R1 & H1 & C1 & G1).
    destruct (writeEntry_ok w1 all d (with_LSN (currentLSN (dw w) + 1) e) H1 ltac:(lia))
      as (w2 & R2 & H2 & C2 & G2); [apply with_LSN_wf; [done|unfold is_u64; lia]|].
    destruct (IH w2 _ H2 Hes' ltac:(lia)) as (w3 & R3 & H3 & C3 & G3).
    rewrite C2, C1 in *. exists w3. split; [|split; [|split]].
    + cbn [appendLoop]. rewrite (stM_bind_ret _ _ _ _ _ R1), (stM_bind_ret _ _ _ _ _ R2).
      rewrite (stM_bind_ret _ _ _ _ _ R3). reflexivity.
    + cbn [number]. by rewrite <- app_assoc in H3.
    + rewrite zlen_cons. lia.
    + unfold same_config in *. congruence.
Qed.

Lemma syncLocked_ok w all d :
  holds 1 w all d ->
  exists w', syncLocked w = (w', Ret tt) /\ holds 1 w' all (length all) /\
    currentLSN (dw w') = currentLSN (dw w) /\ same_config w w'.
Proof.
  intros (pre & n & i & es & syn & H & Hn & Hc & -> & Hd).
  pose proof H as [Hf (Hcl & Ho & Hi) _ _ _ _ _ _ _ _ _ _].
  eexists. split; [|split; [|split]].
  - unfold syncLocked. erewrite stM_bind_ret; [reflexivity|].
    apply onErr_ret. by apply FileSync_ok.
  - exists pre, n, i, es, (zlen (wires es)). split.
    + eapply on_disk_dw; [by eapply sync_on_disk|done..].
    + split; [exact Hn|]. split; [exact Hc|]. split; [done|].
      unfold durable. rewrite intact_all by lia. rewrite length_app. lia.
  - reflexivity.
  - reflexivity.
Qed.

Lemma holds_open w all d : holds 1 w all d -> closed (dw w) = false.
Proof. intros (?&?&?&?&?&[]&?). naive_solver. Qed.

Lemma Sync_ok w all d :
  holds 1 w all d ->
  exists w', Sync w = (w', Ret tt) /\ holds 1 w' all (length all) /\
    currentLSN (dw w') = currentLSN (dw w) /\ same_config w w'.
Proof.
  intros H. destruct (syncLocked_ok w all d H) as (w' & R & H').
  exists w'. split; [|done]. unfold Sync, ErrClosedIf. autorewrite with stM_db.
  rewrite (holds_open w all d H). erewrite stM_bind_ret; [exact R|reflexivity].
Qed.

Lemma AppendBatch_ok w all d es :
  holds 1 w all d -> Forall entry_wf es -> currentLSN (dw w) + zlen es < 2 ^ 64 - 1 ->
  let all' := all ++ number (currentLSN (dw w)) es in
  exists w', AppendBatch es w =
      (w', Ret (map LSN (number (currentLSN (dw w)) es), number (currentLSN (dw w)) es)) /\
    holds 1 w' all' (if decide (Policy (config (dw w)) = SyncPolicyEveryWrite)
                     then length all' else d) /\
    currentLSN (dw w') = currentLSN (dw w) + zlen es /\ same_config w w'.
Proof.
  intros H Hes Hmax all'. destruct (appendLoop_ok w all d es H Hes Hmax) as (w1 & R & H1 & C & G).
  unfold AppendBatch, ErrClosedIf.
  destruct (decide (Policy (config (dw w)) = SyncPolicyEveryWrite)) as [E|E].
  - destruct (syncLocked_ok w1 all' d H1) as (w2 & R2 & H2 & C2 & G2).
    exists w2. split; [|split; [done|split; [lia|unfold same_config in *; congruence]]].
    autorewrite with stM_db. rewrite (holds_open w all d H).
    erewrite stM_bind_ret; [|reflexivity]. rewrite (stM_bind_ret _ _ _ _ _ R).
    rewrite decide_True by done. by rewrite (stM_bind_ret _ _ _ _ _ R2).
  - exists w1. split; [|done]. autorewrite with stM_db. rewrite (holds_open w all d H).
    erewrite stM_bind_ret; [|reflexivity]. rewrite (stM_bind_ret _ _ _ _ _ R).
    by rewrite decide_False by done.
Qed.

(** ** Crashes *)

Definition blank : DiskWAL := mkDiskWAL DefaultWALConfig 0 false None false 0 0 0 0 0.
Definition empty_os : OS := mkOS ∅ ∅ ∅ ∅ 0 [].

(** A crash keeps the directory and, of every inode, at least the bytes an fsync
    has covered; new files get new inodes. *)
Record crash (o o' : OS) : Prop := {
  cr_dir : dir o' = dir o;
  cr_deleting : deleting o' = deleting o;
  cr_faults : faults o' = [];
  cr_data : forall i data syn, inodes o !! i = Some data -> synced o !! i = Some syn ->
    exists k, syn <= k /\ inodes o' !! i = Some (ztake k data);
  cr_next : (next_inode o <= next_inode o')%nat;
}.

Fixpoint appendAll (batches : list (list WALEntry)) : stM World unit :=
  match batches with
  | [] => mret tt
  | b :: batches => _ ← AppendBatch b; appendAll batches
  end.

Definition durable_after (w : World) (all : list WALEntry) (d : nat) (bs : list (list WALEntry)) : nat :=
  if decide (Policy (config (dw w)) = SyncPolicyEveryWrite) then
    match bs with [] => d | _ => length all end
  else d.

Lemma appendAll_ok bs w all d :
  holds 1 w all d -> Forall (Forall entry_wf) bs ->
  currentLSN (dw w) + zlen (concat bs) < 2 ^ 64 - 1 ->
  let all' := all ++ number (currentLSN (dw w)) (concat bs) in
  exists w', appendAll bs w = (w', Ret tt) /\ holds 1 w' all' (durable_after w all' d bs) /\
    currentLSN (dw w') = currentLSN (dw w) + zlen (concat bs) /\ same_config w w'.
Proof.
  revert w all d. induction bs as [|b bs IH]; intros w all d Hh Hbs Hmax all'.
  - exists w. unfold all'. cbn [concat]. rewrite zlen_nil, Z.add_0_r. cbn [number]. rewrite app_nil_r.
    split; [done|]. unfold durable_after. split; [by case_decide|done].
  - inversion Hbs as [|?? Hb Hbs']; subst. cbn [concat] in *. rewrite zlen_app in *.
    pose proof (zlen_nonneg b). pose proof (zlen_nonneg (concat bs)).
    destruct (AppendBatch_ok w all d b Hh Hb ltac:(lia)) as (w1 & R1 & H1 & C1 & G1).
    destruct (IH w1 _ _ H1 Hbs' ltac:(lia)) as (w2 & R2 & H2 & C2 & G2).
    rewrite C1, <- app_assoc, <- number_app in H2. exists w2. split; [|split; [|split]].
    + cbn [appendAll]. by rewrite (stM_bind_ret _ _ _ _ _ R1).
    + fold all' in H2. unfold durable_after in *. unfold same_config in G1. rewrite G1 in H2.
      destruct (decide _) as [E|E]; [|done]. destruct bs; [|done].
      replace all' with (all ++ number (currentLSN (dw w)) b) in *
        by (unfold all'; cbn [concat]; by rewrite app_nil_r). done.
    + lia.
    + unfold same_config in *. congruence.
Qed.

Lemma NewDiskWAL_fresh cfg :
  Validate cfg = Ret tt ->
  exists w, NewDiskWAL cfg (mkWorld empty_os blank) = (w, Ret tt) /\ holds 1 w [] 0 /\
    currentLSN (dw w) = 0 /\ config (dw w) = cfg.
Proof.
  intros Hv. eexists. split; [|split; [|split]].
  - unfold NewDiskWAL. rewrite Hv. rewrite stM_bind_lift.
    erewrite stM_bind_ret; [|reflexivity]. rewrite stM_bind_modify. apply openSegment_new; done.
  - exists [], 1, 0%nat, [], 0. split; [|by cbn; repeat split; lia].
    split; cbn; try done; try by repeat constructor.
    + repeat constructor. set_solver.
    + by eexists.
  - reflexivity.
  - reflexivity.
Qed.

(** ** Reading the segments back *)

Lemma scanLoop_ok (segs : list seg) (ks : list Z) w acc :
  faults (os w) = [] ->
  Forall2 (fun s k => 0 <= k /\ Forall entry_wf s.2 /\
    dir (os w) !! seg_name s = Some (seg_inode s) /\
    inodes (os w) !! seg_inode s = Some (ztake k (wires s.2))) segs ks ->
  scanLoop (map seg_name segs) acc w =
  (w, Ret (acc ++ map norm_entry (concat (zip_with (fun s k => intact k s.2) segs ks)))).
Proof.
  intros Hf HF. revert acc.
  induction HF as [|s k segs ks (Hk & Hwf & Hd & Hi) _ IH]; intros acc.
  - cbn. by rewrite app_nil_r.
  - cbn [map scanLoop zip_with concat].
    assert (recoverFile (seg_name s) w = (w, Ret (map norm_entry (intact k s.2)))) as ->.
    { unfold recoverFile. erewrite stM_bind_ret.
      2: { unfold ReadFile. rewrite os_call_ok by done. rewrite Hd. reflexivity. }
      rewrite Hi. unfold liftS. cbn [from_option id]. by rewrite recoverData_torn. }
    rewrite IH, map_app. by rewrite <- app_assoc.
Qed.

Lemma cleanDeleting_ok w :
  faults (os w) = [] -> deleting (os w) = ∅ -> cleanDeleting w = (w, Ret tt).
Proof.
  intros Hf Hd. unfold cleanDeleting. rewrite os_call_ok by done. rewrite Hd.
  by rewrite map_to_list_empty.
Qed.

Lemma Recover_ok (segs : list seg) (ks : list Z) w :
  faults (os w) = [] -> deleting (os w) = ∅ ->
  dir (os w) = list_to_map (map fst segs) -> StronglySorted Z.lt (map seg_name segs) ->
  Forall2 (fun s k => 0 <= k /\ Forall entry_wf s.2 /\
    inodes (os w) !! seg_inode s = Some (ztake k (wires s.2))) segs ks ->
  let es := map norm_entry (concat (zip_with (fun s k => intact k s.2) segs ks)) in
  Recover w = (set_dw (fun d => with_currentLSN (restoreLSN (currentLSN d) es) d) w, Ret es).
Proof.
  intros Hf Hdel Hd Hs HF es. unfold Recover, scanSegments.
  erewrite stM_bind_ret; [reflexivity|].
  erewrite stM_bind_ret.
  2: { apply onErr_ret. unfold ReadDir. by rewrite os_call_ok. }
  rewrite (walFiles_segs _ segs Hd Hs).
  erewrite stM_bind_ret.
  2: { apply (scanLoop_ok segs ks); [done|]. apply Forall2_same_length_lookup in HF as [Hl HF].
       apply Forall2_same_length_lookup. split; [done|]. intros j s k Hj Hk.
       destruct (HF j s k Hj Hk) as (? & ? & ?). split; [done|]. split; [done|]. split; [|done].
       rewrite Hd. apply dir_lookup; [done|]. by eapply list_elem_of_lookup_2. }
  cbn [app]. by erewrite stM_bind_ret; [|apply cleanDeleting_ok].
Qed.

Lemma restoreLSN_number m es cur :
  0 <= cur ->
  restoreLSN cur (map norm_entry (take m (number cur es))) =
  cur + Z.of_nat (Nat.min m (length es)).
Proof.
  revert m cur. induction es as [|e es IH]; intros [|m] cur Hc; try (cbn; lia).
  cbn [number take map]. unfold restoreLSN. cbn [fold_left].
  change (LSN (norm_entry (with_LSN (cur + 1) e))) with (cur + 1).
  rewrite (proj2 (Z.ltb_lt cur (cur + 1))) by lia.
  fold (restoreLSN (cur + 1) (map norm_entry (take m (number (cur + 1) es)))).
  rewrite IH by lia. cbn [length]. lia.
Qed.

(** The process restarts on the surviving disk and recovers. *)
Definition restart (cfg : WALConfig) (o : OS) : World * outcome (list WALEntry) :=
  (_ ← NewDiskWAL cfg; Recover) (mkWorld o blank).

(** Reopening finds segment 1 and changes nothing on disk. *)
Lemma NewDiskWAL_reopen cfg o i :
  Validate cfg = Ret tt -> faults o = [] -> dir o !! 1 = Some i ->
  NewDiskWAL cfg (mkWorld o blank) =
  (mkWorld o (mkDiskWAL cfg 0 false (Some i) true 1 0 0 0 0), Ret tt).
Proof.
  intros Hv Hf Hd. unfold NewDiskWAL. rewrite Hv, stM_bind_lift.
  erewrite stM_bind_ret.
  2: { apply onErr_ret. by rewrite os_call_ok. }
  rewrite stM_bind_modify. unfold openSegment. autorewrite with stM_db.
  erewrite stM_bind_ret.
  2: { apply onErr_ret. unfold OpenFile. rewrite os_call_ok by done.
       cbn [os set_dw currentLSN dw]. change (u64 (0 + 1)) with 1. by rewrite Hd. }
  reflexivity.
Qed.

Lemma surviving pre es syn k :
  0 <= syn <= k ->
  let all := contents pre ++ es in
  exists m, contents pre ++ intact k es = take m all /\
    (durable pre syn es <= m <= length all)%nat.
Proof.
  intros Hk all. destruct (intact_take k es) as (m & E & Hm).
  pose proof (intact_mono syn k es ltac:(lia)) as Hmono. rewrite E in *.
  exists (length (contents pre) + m)%nat. unfold all, durable. split.
  - by rewrite take_app_add.
  - rewrite length_take in Hmono. rewrite length_app. lia.
Qed.

(** Segments that lost nothing. *)
Lemma contents_intact (segs : list seg) :
  concat (zip_with (fun s k => intact k s.2) segs (map (fun s => zlen (wires s.2)) segs)) =
  contents segs.
Proof.
  unfold contents. induction segs as [|s l IH]; [done|]. cbn [map zip_with concat].
  rewrite (intact_all s.2) by lia. by f_equal.
Qed.

Lemma restart_ok cfg w all d es o' :
  Validate cfg = Ret tt -> holds 1 w all d -> all = number 0 es -> crash (os w) o' ->
  exists m w', restart cfg o' = (w', Ret (map norm_entry (take m all))) /\
    (d <= m <= length all)%nat /\ CurrentLSN w' = Z.of_nat m /\
    os w' = o' /\ closed (dw w') = false /\ filePath (dw w') = 1 /\
    file (dw w') = dir o' !! 1.
Proof.
  intros Hv (pre & n & i & les & syn & H & Hn & Hc & -> & Hd) Eall [Cd Cdel Cf Cdata _].
  destruct H as [Hf Ho Hdir Hdel Hs Hnd Hfr Hda Hsy [Hs1 Hs2] [s0 [Hfi Hs0]] Hw].
  set (segs := pre ++ [(n, i, les)]) in *.
  assert (Forall (fun s => inodes o' !! seg_inode s = Some (wires s.2)) pre) as Hpre.
  { rewrite Forall_forall in Hsy |- *. intros s Hin.
    apply Forall_app in Hda as [Hda _]. rewrite Forall_forall in Hda.
    destruct (Cdata _ _ _ (Hda s Hin) (Hsy s Hin)) as (k & Hk & ->).
    by rewrite ztake_all by lia. }
  apply Forall_app in Hda as [_ Hlast]. apply Forall_inv in Hlast. cbn in Hlast.
  destruct (Cdata _ _ _ Hlast Hs1) as (k & Hk & Ei).
  destruct (surviving pre les syn k ltac:(lia)) as (m & Em & Hm).
  assert (dir o' !! 1 = Some (seg_inode s0)) as H1.
  { rewrite Cd, Hdir, <- Hs0. apply dir_lookup; [done|]. destruct segs; [done|].
    injection Hfi as ->. by left. }
  pose proof (NewDiskWAL_reopen cfg o' _ Hv Cf H1) as Hopen.
  set (ks := map (fun s : seg => zlen (wires s.2)) pre ++ [k]).
  assert (concat (zip_with (fun s k => intact k s.2) segs ks) =
          take m (contents pre ++ les)) as Ez.
  { rewrite <- Em. unfold segs, ks. rewrite zip_with_app by by rewrite length_map.
    rewrite concat_app. cbn [zip_with concat snd]. rewrite app_nil_r. f_equal.
    apply contents_intact. }
  assert (Forall2 (fun s k => 0 <= k /\ Forall entry_wf s.2 /\
    inodes o' !! seg_inode s = Some (ztake k (wires s.2))) segs ks) as HF.
  { unfold contents in Hw. rewrite Forall_concat, Forall_map in Hw. unfold segs in Hw.
    apply Forall_app in Hw as [Hw1 Hw2]. apply Forall_inv in Hw2.
    apply Forall2_app; [|by constructor; [split; [lia|]|constructor]].
    apply Forall2_fmap_r, Forall_Forall2_diag.
    rewrite Forall_forall in Hpre, Hw1 |- *. intros s Hin.
    split; [apply zlen_nonneg|]. split; [by apply Hw1|].
    rewrite ztake_all by lia. by apply Hpre. }
  assert (dir o' = list_to_map (map fst segs)) as Hdir' by congruence.
  assert (deleting o' = ∅) as Hdel' by congruence.
  pose proof (Recover_ok segs ks
    (mkWorld o' (mkDiskWAL cfg 0 false (Some (seg_inode s0)) true 1 0 0 0 0))
    Cf Hdel' Hdir' Hs HF) as HR. cbv zeta in HR. rewrite Ez in HR.
  eexists m, _. split; [unfold restart; by rewrite (stM_bind_ret _ _ _ _ _ Hopen)|].
  split; [lia|]. split; [|by rewrite H1]. unfold CurrentLSN.
  cbn [set_dw with_currentLSN currentLSN dw]. rewrite Eall, restoreLSN_number by lia. rewrite Eall in Hm.
  assert (length (number 0 es) = length es) as El.
  { pose proof (zlen_number 0 es). unfold zlen in *. lia. }
  lia.
Qed.


Lemma crash_intro o ino :
  (forall i data syn, inodes o !! i = Some data -> synced o !! i = Some syn ->
    exists k, syn <= k /\ ino !! i = Some (ztake k data)) ->
  crash o (mkOS (dir o) (deleting o) ino ∅ (next_inode o) []).
Proof. intros H. split; done. Qed.


(** ** Truncation *)

Definition with_dir (m : gmap Z nat) : World -> World :=
  set_os (fun o => mkOS m (deleting o) (inodes o) (synced o) (next_inode o) (faults o)).

Definition kept (lsn : Z) (segs : list seg) : list seg :=
  filter (fun s => lsn <= seg_name s) segs.

Lemma delete_seg (done rest : list seg) s :
  NoDup (map seg_name (done ++ s :: rest)) ->
  delete (seg_name s) (list_to_map (map fst (done ++ s :: rest)) : gmap Z nat) =
  list_to_map (map fst (done ++ rest)).
Proof.
  intros Hn.
  assert (map fst (done ++ s :: rest) ≡ₚ map fst (s :: done ++ rest)) as Hp
    by (by rewrite Permutation_middle).
  assert (NoDup (map seg_name (s :: done ++ rest))) as Hn'
    by (by rewrite <- Permutation_middle in Hn).
  assert (list_to_map (map fst (done ++ s :: rest)) =
          (list_to_map (map fst (s :: done ++ rest)) : gmap Z nat)) as ->
    by (apply list_to_map_proper; [by rewrite map_names|done]).
  cbn [map].
  inversion Hn'; subst. destruct s as [[n i] es]. unfold seg_name in *. cbn [fst snd] in *.
  rewrite list_to_map_cons.
  rewrite (delete_insert_id (list_to_map _)); [done|].
  apply not_elem_of_list_to_map_1. by rewrite map_names.
Qed.

Lemma truncateLoop_ok lsn (rest done : list seg) w :
  faults (os w) = [] -> deleting (os w) = ∅ ->
  dir (os w) = list_to_map (map fst (done ++ rest)) -> NoDup (map seg_name (done ++ rest)) ->
  truncateLoop lsn (map seg_name rest) w =
  (with_dir (list_to_map (map fst (done ++ kept lsn rest))) w, Ret tt).
Proof.
  revert done w. induction rest as [|s rest IH]; intros done w Hf Hdel Hd Hn.
  - cbn. rewrite <- Hd. by destruct w as [[] ?].
  - cbn [map truncateLoop]. unfold kept. rewrite filter_cons.
    destruct (Z.leb_spec lsn (seg_name s)).
    + rewrite decide_True by done.
      rewrite (IH (done ++ [s])) by (rewrite <- ?app_assoc; done). by rewrite <- app_assoc.
    + rewrite decide_False by lia.
      assert (dir (os w) !! seg_name s = Some (seg_inode s)) as Hs.
      { rewrite Hd. apply elem_of_list_to_map_1; [by rewrite map_names|].
        apply list_elem_of_fmap. exists s. split; [by destruct s as [[??]?]|].
        apply elem_of_app. right. by left. }
      unfold RenameDeleting. rewrite os_call_ok, Hs by done.
      set (w1 := with_dir (list_to_map (map fst (done ++ rest))) w).
      assert ((_ ← ignore_err (RemoveDeleting (seg_name s)); truncateLoop lsn (map seg_name rest))
                (set_os (fun o => mkOS (delete (seg_name s) (dir o))
                  (<[seg_name s := seg_inode s]> (deleting o)) (inodes o) (synced o)
                  (next_inode o) (faults o)) w)
              = truncateLoop lsn (map seg_name rest) w1) as ->.
      { refine (stM_bind_ret _ (fun _ => truncateLoop lsn (map seg_name rest)) _ w1 tt _).
        unfold ignore_err, RemoveDeleting. rewrite os_call_ok by done.
        unfold modifyS, w1, with_dir, set_os. cbn. rewrite Hd, delete_seg by done.
        do 4 f_equal. rewrite Hdel. by rewrite insert_empty, delete_singleton_eq. }
      rewrite (IH done w1); [done|done|done|done|].
      rewrite map_app in Hn |- *. cbn [map] in Hn.
      apply NoDup_app in Hn as (? & Hn1 & Hn2). inversion Hn2; subst.
      apply NoDup_app. split; [done|]. split; [|done].
      intros x Hx Hx'. apply (Hn1 x Hx). by right.
Qed.

Lemma kept_sorted lsn segs :
  StronglySorted Z.lt (map seg_name segs) -> StronglySorted Z.lt (map seg_name (kept lsn segs)).
Proof.
  induction segs as [|s segs IH]; cbn [map]; intros H; [constructor|].
  inversion H as [|?? Hs Hlt]; subst. unfold kept. rewrite filter_cons. case_decide; [|by apply IH].
  cbn [map]. constructor; [by apply IH|].
  rewrite Forall_map in Hlt |- *. rewrite Forall_forall in Hlt |- *.
  intros x Hx. apply list_elem_of_filter in Hx as [_ Hx]. by apply Hlt.
Qed.

Lemma Truncate_ok w pre n i es syn lsn : on_disk w pre n i es syn ->
  Truncate lsn w = (with_dir (list_to_map (map fst (kept lsn (pre ++ [(n, i, es)])))) w, Ret tt).
Proof.
  intros [Hf (Hcl & Ho & Hi) Hd Hdel Hs Hn Hfr Hda Hsy [Hs1 Hs2] Hfi Hw].
  set (segs := pre ++ [(n, i, es)]) in *. unfold Truncate, ErrClosedIf. autorewrite with stM_db. rewrite Hcl.
  erewrite stM_bind_ret; [|reflexivity]. unfold truncateBefore.
  erewrite stM_bind_ret; [|unfold ReadDir; by rewrite os_call_ok].
  rewrite (walFiles_segs _ segs Hd Hs).
  apply (truncateLoop_ok lsn segs [] w); [done..|]. by apply StronglySorted_lt_nodup.
Qed.

(** After [Truncate lsn] recovery returns exactly the entries of the
    segments numbered at least [lsn].  A segment that starts below [lsn] is
    removed whole, so its entries with LSN [lsn] or above are lost too. *)
Theorem truncate_recover w pre n i es syn lsn :
  on_disk w pre n i es syn ->
  exists w' w'', Truncate lsn w = (w', Ret tt) /\
    Recover w' = (w'', Ret (map norm_entry (contents (kept lsn (pre ++ [(n, i, es)]))))).
Proof.
  intros H. pose proof H as [Hf _ Hd Hdel Hs Hn Hfr Hda _ _ _ Hw]. set (segs := pre ++ [(n, i, es)]) in *.
  eexists _, _. split; [by eapply Truncate_ok|]. rewrite <- contents_intact.
  apply Recover_ok; try done; [by apply kept_sorted|].
  apply Forall2_fmap_r, Forall_Forall2_diag. rewrite Forall_forall. intros s Hin.
  apply list_elem_of_filter in Hin as [_ Hin]. split; [apply zlen_nonneg|].
  unfold contents in Hw. rewrite Forall_concat, Forall_map in Hw.
  rewrite Forall_forall in Hw, Hda. split; [by apply Hw|].
  rewrite ztake_all by lia. by apply Hda.
Qed.

(** Two entries in segment 1: truncating at LSN 2 loses entry 2. *)
Definition two_entries : list WALEntry :=
  number 0 [mkWALEntry 0 0 0 0 (Some [5]) (Some [6]) 0 0 0;
            mkWALEntry 0 0 0 0 (Some [5]) (Some [7]) 0 0 0].
Definition one_segment : World :=
  mkWorld (mkOS {[1 := 0%nat]} ∅ {[0%nat := wires two_entries]} {[0%nat := 0]} 1 [])
    (mkDiskWAL (mkWALConfig "wal" (1024 * 1024) SyncPolicyBatch) 2 false (Some 0%nat) true 1
       2 120 0 120).

Lemma one_segment_on_disk : on_disk one_segment [] 1 0 two_entries 0.
Proof.
  split; cbn [app map contents concat]; try done.
  - repeat constructor.
  - apply NoDup_singleton.
  - apply Forall_singleton. cbn. lia.
  - apply Forall_singleton, lookup_singleton_eq.
  - by exists (1, 0%nat, two_entries).
  - repeat constructor; unfold is_u64, is_i64, is_u8, is_u16, zlen; simpl; lia.
Qed.

Lemma truncate_recover_witness :
  exists w' w'', Truncate 2 one_segment = (w', Ret tt) /\ Recover w' = (w'', Ret []).
Proof. apply (truncate_recover one_segment [] 1 0 two_entries 0 2), one_segment_on_disk. Defined.

(** ** Appending after a restart *)

(** After a restart the log appends to segment 1, whatever segments are on
    disk: new entries land before older ones, in the segment any truncation
    removes first. *)
Theorem restart_appends_to_first cfg w all d es o' :
  Validate cfg = Ret tt -> holds 1 w all d -> all = number 0 es -> crash (os w) o' ->
  let w' := fst (restart cfg o') in
  filePath (dw w') = 1 /\ file (dw w') = dir (os w') !! 1 /\
  walFiles (os w') = walFiles (os w) /\
  forall lsn, 1 < lsn -> dir (os (fst (Truncate lsn w'))) !! 1 = None.
Proof.
  intros Hv Hh Hall Hc w'.
  destruct (restart_ok cfg w all d es o' Hv Hh Hall Hc)
    as (m & w1 & R & _ & _ & Eo & Ecl & Efp & Ef).
  assert (w' = w1) as -> by (unfold w'; by rewrite R).
  destruct Hc as [Cd Cdel Cf _]. destruct Hh as (pre & n & i & les & syn & H & _).
  destruct H as [_ _ Hd Hdel Hs _ _ _ _ _ _ _].
  set (segs := pre ++ [(n, i, les)]) in *. rewrite Eo.
  split; [done|]. split; [done|]. split; [unfold walFiles; by rewrite Cd|]. intros lsn Hlsn.
  unfold Truncate, ErrClosedIf. autorewrite with stM_db. rewrite Ecl.
  erewrite stM_bind_ret; [|reflexivity]. unfold truncateBefore.
  erewrite stM_bind_ret; [|unfold ReadDir; by rewrite os_call_ok by (by rewrite Eo)].
  rewrite Eo. rewrite (walFiles_segs o' segs) by congruence.
  rewrite (truncateLoop_ok lsn segs []); cbn [app]; rewrite ?Eo; try congruence.
  - cbn [fst with_dir set_os os dir]. apply not_elem_of_list_to_map_1. rewrite map_names.
    intros Hin. apply list_elem_of_fmap in Hin as (s & E & Hin).
    apply list_elem_of_filter in Hin as [Hle _]. lia.
  - by apply StronglySorted_lt_nodup.
Qed.

Lemma restart_appends_to_first_witness :
  filePath (dw (fst (restart (mkWALConfig "wal" (1024 * 1024) SyncPolicyBatch)
     (mkOS {[1 := 0%nat]} ∅ {[0%nat := []]} ∅ 1 [])))) = 1.
Proof.
  eapply (restart_appends_to_first _ one_segment two_entries 0
    [mkWALEntry 0 0 0 0 (Some [5]) (Some [6]) 0 0 0;
     mkWALEntry 0 0 0 0 (Some [5]) (Some [7]) 0 0 0]).
  - reflexivity.
  - exists [], 1, 0%nat, two_entries, 0. split; [exact one_segment_on_disk|].
    cbn. repeat split; lia.
  - reflexivity.
  - split; [done..| |done]. intros i data syn Hi Hs. exists 0.
    cbn [one_segment os inodes synced] in Hi, Hs.
    apply lookup_singleton_Some in Hi as [<- <-]. apply lookup_singleton_Some in Hs as [_ <-].
    split; [lia|]. cbn [inodes]. by rewrite lookup_singleton_eq.
Defined.

(** ** A corrupted entry *)

(** The checksum of an entry does not cover its trailer, but the one jumpScan
    computes does; it accepts an intact entry only when both agree. *)
Lemma jumpScan_frame fuel pre e rest maxOffset :
  entry_wf e -> zlen pre < maxOffset ->
  CRC32C (wal_covered e ++ be_enc 4 trailerMagic) <> CRC32C (wal_covered e) ->
  jumpLoop (S fuel) (pre ++ wal_wire e ++ rest) (zlen pre) maxOffset =
  jumpLoop fuel (pre ++ wal_wire e ++ rest) (zlen pre + 8) maxOffset.
Proof.
  intros (Hok & Hk & Hv) Hmax Hne. pose proof (zlen_wal_wire_min e). pose proof (zlen_nonneg pre).
  pose proof (zlen_nonneg rest). cbn [jumpLoop]. cbv zeta.
  rewrite (proj2 (Z.ltb_lt _ _)) by done. cbn [negb].
  rewrite (proj2 (Z.ltb_ge _ (zlen pre + 8))) by (rewrite !zlen_app; lia).
  assert (be_at 4 (pre ++ wal_wire e ++ rest) (zlen pre + 4) = Ret (zlen (wal_wire e) - 12)) as ->.
  { rewrite <- (frame_length pre e (zlen (wal_wire e))) by (done || lia).
    rewrite ztake_all by lia. unfold be_at. f_equal.
    rewrite app_assoc. apply slice_app_l. rewrite zlen_app. lia. }
  rewrite bind_ret. set (c := CRC32C (wal_covered e)) in *.
  assert (is_u32 c) as Hc by by apply crc32c_range, wal_covered_ok.
  assert (zlen (wal_covered e) = zlen (wal_wire e) - 8) as Hl
    by (rewrite zlen_wal_wire, zlen_wal_covered; lia).
  rewrite (proj2 (Z.ltb_ge _ _)) by (rewrite !zlen_app; lia).
  rewrite (be_at_slice 4 _ (zlen pre) (be_enc 4 c)).
  2: { unfold wal_wire. rewrite <- app_assoc. apply slice_mid; rewrite ?zlen_be_enc; lia. }
  rewrite bind_ret, be_dec_enc4_id by done.
  assert (pre ++ wal_wire e ++ rest =
    (pre ++ be_enc 4 c) ++ (wal_covered e ++ be_enc 4 trailerMagic) ++ rest) as E
    by (unfold wal_wire; fold c; by rewrite <- !app_assoc).
  assert (slice (pre ++ wal_wire e ++ rest) (zlen pre + 4)
    (zlen pre + 4 + 4 + (zlen (wal_wire e) - 12) + 4) =
    Ret (wal_covered e ++ be_enc 4 trailerMagic)) as ->
    by (rewrite E; apply slice_mid; rewrite !zlen_app, !zlen_be_enc; lia).
  rewrite bind_ret. by rewrite (proj2 (Z.eqb_neq _ _)) by done.
Qed.

(** Three intact entries; the checksum of the first is damaged.  The scan
    accepts neither of the others, and the whole segment is lost. *)
Lemma jumpScan_misses :
  let e n := mkWALEntry n 0 0 0 (Some [n]) (Some [6]) 0 0 0 in
  let log := wires [e 1; e 2; e 3] in
  recoverData log = Ret [e 1; e 2; e 3] /\
  recoverData (0 :: drop 1 log) = Ret [].
Proof. split; vm_compute; reflexivity. Qed.

(** ** The fuel of the two scans is enough *)

Lemma jumpLoop_fuel f1 f2 data off maxOffset :
  maxOffset - off < 8 * Z.of_nat f1 -> maxOffset - off < 8 * Z.of_nat f2 ->
  jumpLoop f1 data off maxOffset = jumpLoop f2 data off maxOffset.
Proof.
  revert f2 off. induction f1 as [|f1 IH]; intros [|f2] off H1 H2; cbn [jumpLoop]; try done.
  - by rewrite (proj2 (Z.ltb_ge _ _)) by lia.
  - by rewrite (proj2 (Z.ltb_ge _ _)) by lia.
  - cbv zeta. rewrite (IH f2 (off + 8)) by lia. done.
Qed.

Lemma jumpLoop_min f data off maxOffset n :
  jumpLoop f data off maxOffset = Ret n -> n < 0 \/ off <= n.
Proof.
  revert off. induction f as [|f IH]; intros off; cbn [jumpLoop]; cbv zeta.
  { destruct (negb _); [intros [= <-]; lia|done]. }
  destruct (negb _); [intros [= <-]; lia|].
  destruct (_ <? _); [intros [= <-]; lia|].
  destruct (be_at 4 data (off + 4)); [rewrite bind_ret|done..].
  destruct (_ <? _); [intros H%IH; lia|].
  destruct (be_at 4 data off); [rewrite bind_ret|done..].
  destruct (slice _ _ _); [rewrite bind_ret|done..].
  destruct (negb _); [intros H%IH; lia|].
  destruct (be_at 4 data _); [rewrite bind_ret|done..].
  destruct (negb _); [intros H%IH; lia|]. intros [= <-]. lia.
Qed.

Lemma recoverLoop_fuel f1 f2 data off acc :
  bytes_ok data -> zlen data - off < 8 * Z.of_nat f1 -> zlen data - off < 8 * Z.of_nat f2 ->
  recoverLoop f1 data off acc = recoverLoop f2 data off acc.
Proof.
  intros Hok. revert f2 off acc.
  induction f1 as [|f1 IH]; intros [|f2] off acc H1 H2; cbn [recoverLoop]; try done.
  1, 2: by rewrite (proj2 (Z.leb_gt _ _)) by lia.
  destruct (negb _); [done|]. cbv zeta. destruct (_ <? _); [done|].
  destruct (be_at 4 data (off + 4)) as [len|?|] eqn:El; [|done..]. rewrite !bind_ret.
  assert (0 <= len) as Hlen.
  { unfold be_at in El. destruct (slice data _ _) as [s| |] eqn:Es; try done.
    injection El as <-. apply (slice_bytes_ok _ _ _ _ Hok) in Es. apply be_dec_range in Es. lia. }
  destruct (_ <? _); [done|]. destruct (slice data off _); [|done..]. rewrite !bind_ret.
  destruct (UnmarshalWALEntry _); [by apply IH; lia| |done].
  destruct (jumpScan data (off + 8)) as [nx|?|] eqn:Ej; [|done..]. rewrite !bind_ret.
  destruct (Z.ltb_spec nx 0); [done|]. apply jumpLoop_min in Ej. apply IH; lia.
Qed.
