(* ===== verification/TxManager.v ===== *)
(** * The transaction engine (mvcc/transaction.go, mvcc/active_tx_registry.go,
    mvcc/ts_generator.go, mvcc/key_lock.go, mvcc/gc.go)

    The engine is a record of its mutable fields; a transaction method is a
    state-passing computation over the engine and the transaction.  The storage
    backend, the WAL writer and the LOB managers are interfaces in the code and
    here: a class with laws for the storage, records of operations for the others. *)

From stdpp Require Import base list gmap strings sorting.
From Stdlib Require Import ZArith Lia.
From S2P Require Import Prelude MvccCodec WalFormat WriteBuffer.

Local Open Scope Z_scope.

(** ** Interfaces *)

Class StorageBackend (B : Type) := {
  GetRaw : B -> bytes -> outcome bytes;
  SetRaw : B -> bytes -> bytes -> B * outcome unit;
  SetBatch : B -> list (bytes * bytes) -> B * outcome Z;
  GetBatchRaw : B -> list bytes -> outcome (list (option bytes));
}.

(** What transaction.go relies on: reads return what is stored, and a write
    touches its own keys only, completely when it succeeds; a batch that fails
    has applied some of its pairs. *)
Class StorageLaws (B : Type) `{StorageBackend B} := {
  view : B -> gmap bytes bytes;
  GetRaw_spec : forall b k, GetRaw b k =
    match view b !! k with Some v => Ret v | None => Fail (Sentinel ErrMVCCKeyNotFound) end;
  SetRaw_spec : forall b k v b' r, SetRaw b k v = (b', r) ->
    r <> Panic /\ (r = Ret tt -> view b' = <[k := v]> (view b)) /\
    forall j, j <> k -> view b' !! j = view b !! j;
  SetBatch_spec : forall b ps b' r, SetBatch b ps = (b', r) ->
    r <> Panic /\
    ((exists n, r = Ret n) -> view b' = foldl (fun m p => <[p.1 := p.2]> m) (view b) ps) /\
    (forall j, j ∉ map fst ps -> view b' !! j = view b !! j) /\
    (forall j, view b' !! j = view b !! j \/ exists v, (j, v) ∈ ps /\ view b' !! j = Some v);
  GetBatchRaw_spec : forall b ks, GetBatchRaw b ks = Ret (map (fun k => view b !! k) ks);
}.

Record WALWriter (W : Type) := mkWALWriter {
  wal_Append : WALEntry -> W -> W * outcome Z;
  wal_Sync : W -> W * outcome unit;
}.
Arguments wal_Append {W}.
Arguments wal_Sync {W}.

Record LOBEpochRetirer (L : Type) := mkLOBEpochRetirer {
  RetireLobChain : Z -> L -> L;
  RetireLobFile : Z -> L -> L;
}.
Arguments RetireLobChain {L}.
Arguments RetireLobFile {L}.

(** ** ActiveTxRegistry *)

Record ActiveTxRegistry := mkRegistry {
  txs : gmap Z Z;
  remoteWatermarks : gmap string Z;
}.

Definition NewActiveTxRegistry : ActiveTxRegistry := mkRegistry ∅ ∅.
Definition Register (r : ActiveTxRegistry) (txID snapshotTS : Z) : ActiveTxRegistry :=
  mkRegistry (<[txID := snapshotTS]> (txs r)) (remoteWatermarks r).
Definition Unregister (r : ActiveTxRegistry) (txID : Z) : ActiveTxRegistry :=
  mkRegistry (delete txID (txs r)) (remoteWatermarks r).
Definition Watermark (r : ActiveTxRegistry) : Z :=
  if decide (txs r = ∅) then 0
  else map_fold (fun _ ts m => if ts <? m then ts else m) (2 ^ 64 - 1) (txs r).
Definition SetRemoteWatermark (r : ActiveTxRegistry) (nodeID : string) (watermark : Z)
    : ActiveTxRegistry :=
  let existing := default 0 (remoteWatermarks r !! nodeID) in
  if existing <? watermark
  then mkRegistry (txs r) (<[nodeID := watermark]> (remoteWatermarks r)) else r.
Definition RemoveRemoteWatermark (r : ActiveTxRegistry) (nodeID : string) : ActiveTxRegistry :=
  mkRegistry (txs r) (delete nodeID (remoteWatermarks r)).
Definition ActiveCount (r : ActiveTxRegistry) : Z := Z.of_nat (size (txs r)).

(** ** LocalTS and KeyLock *)

Definition LocalTS_NextTS (counter : Z) : Z * outcome Z :=
  let ts := u64 (counter + 1) in
  (ts, if ts =? 0 then Panic else Ret ts).

(** [KeyLock.Lock]: at most 1000 attempts; [cas i] is the outcome of the i-th
    compare-and-swap. *)
Fixpoint lockLoop (cas : nat -> bool) (i n : nat) : outcome unit :=
  match n with
  | O => Fail (Sentinel ErrMVCCLockTimeout)
  | S n => if cas i then Ret tt else lockLoop cas (S i) n
  end.
Definition KeyLock_Lock (cas : nat -> bool) : outcome unit := lockLoop cas 0 1000.

(** ** The engine *)

Inductive IsolationLevel := ReadCommitted | SnapshotIsolation.
#[export] Instance IsolationLevel_eq_dec : EqDecision IsolationLevel.
Proof. solve_decision. Defined.

Record GCStats := mkGCStats { Cycles : Z; TotalReclaimed : Z; LastWatermark : Z }.

Record txManager (B W L : Type) := mkTxManager {
  storage : B;
  tsGen : Z;                      (* the counter of LocalTS *)
  activeTxRegistry : ActiveTxRegistry;
  txIDCounter : Z;
  siCount : Z;
  keyLocks : gset bytes;          (* the locked KeyLocks of the sync.Map *)
  gcStats : GCStats;
  wal : option (WALWriter W);
  walState : W;
  lobState : L;
}.
Arguments mkTxManager {B W L}.
Arguments storage {B W L}.
Arguments tsGen {B W L}.
Arguments activeTxRegistry {B W L}.
Arguments txIDCounter {B W L}.
Arguments siCount {B W L}.
Arguments keyLocks {B W L}.
Arguments gcStats {B W L}.
Arguments wal {B W L}.
Arguments walState {B W L}.
Arguments lobState {B W L}.

Record SnapshotTx := mkSnapshotTx {
  snapshotTS : Z;
  txID : Z;
  isolationLevel : IsolationLevel;
  writeBuffer : option WriteBuffer;   (* None for nil *)
  completed : bool;
  heldLocks : gset bytes;             (* nil after release: no key is held *)
}.

Record UndoEntry := mkUndo {
  UKey : bytes;
  OldRawVal : option bytes;
  CommitTS : Z;
  EncodedVal : bytes;
}.

Section engine.
Context {B W L : Type} `{StorageBackend B}.
Context (lobManager : option (LOBManager L)) (lobFileManager : option (LOBFileManager L)).
Context (lobEpoch : option (LOBEpochRetirer L)).

Record St := mkSt { eng : txManager B W L; tx : SnapshotTx }.

Definition set_eng (f : txManager B W L -> txManager B W L) (s : St) : St :=
  mkSt (f (eng s)) (tx s).
Definition set_tx (f : SnapshotTx -> SnapshotTx) (s : St) : St := mkSt (eng s) (f (tx s)).

Definition with_storage (b : B) (e : txManager B W L) : txManager B W L :=
  mkTxManager b (tsGen e) (activeTxRegistry e) (txIDCounter e) (siCount e) (keyLocks e)
    (gcStats e) (wal e) (walState e) (lobState e).
Definition with_ts (t : Z) (e : txManager B W L) : txManager B W L :=
  mkTxManager (storage e) t (activeTxRegistry e) (txIDCounter e) (siCount e) (keyLocks e)
    (gcStats e) (wal e) (walState e) (lobState e).
Definition with_registry (r : ActiveTxRegistry) (e : txManager B W L) : txManager B W L :=
  mkTxManager (storage e) (tsGen e) r (txIDCounter e) (siCount e) (keyLocks e)
    (gcStats e) (wal e) (walState e) (lobState e).
Definition with_siCount (n : Z) (e : txManager B W L) : txManager B W L :=
  mkTxManager (storage e) (tsGen e) (activeTxRegistry e) (txIDCounter e) n (keyLocks e)
    (gcStats e) (wal e) (walState e) (lobState e).
Definition with_keyLocks (l : gset bytes) (e : txManager B W L) : txManager B W L :=
  mkTxManager (storage e) (tsGen e) (activeTxRegistry e) (txIDCounter e) (siCount e) l
    (gcStats e) (wal e) (walState e) (lobState e).
Definition with_gcStats (g : GCStats) (e : txManager B W L) : txManager B W L :=
  mkTxManager (storage e) (tsGen e) (activeTxRegistry e) (txIDCounter e) (siCount e)
    (keyLocks e) g (wal e) (walState e) (lobState e).
Definition with_walState (w : W) (e : txManager B W L) : txManager B W L :=
  mkTxManager (storage e) (tsGen e) (activeTxRegistry e) (txIDCounter e) (siCount e)
    (keyLocks e) (gcStats e) (wal e) w (lobState e).
Definition with_lobState (l : L) (e : txManager B W L) : txManager B W L :=
  mkTxManager (storage e) (tsGen e) (activeTxRegistry e) (txIDCounter e) (siCount e)
    (keyLocks e) (gcStats e) (wal e) (walState e) l.
Definition SetWAL (w : option (WALWriter W)) (e : txManager B W L) : txManager B W L :=
  mkTxManager (storage e) (tsGen e) (activeTxRegistry e) (txIDCounter e) (siCount e)
    (keyLocks e) (gcStats e) w (walState e) (lobState e).

Definition with_writeBuffer (wb : option WriteBuffer) (t : SnapshotTx) : SnapshotTx :=
  mkSnapshotTx (snapshotTS t) (txID t) (isolationLevel t) wb (completed t) (heldLocks t).
Definition with_completed (t : SnapshotTx) : SnapshotTx :=
  mkSnapshotTx (snapshotTS t) (txID t) (isolationLevel t) (writeBuffer t) true (heldLocks t).
Definition with_heldLocks (l : gset bytes) (t : SnapshotTx) : SnapshotTx :=
  mkSnapshotTx (snapshotTS t) (txID t) (isolationLevel t) (writeBuffer t) (completed t) l.

Definition NewTxManager (b : B) (w : W) (l : L) : txManager B W L :=
  mkTxManager b 0 NewActiveTxRegistry 0 0 ∅ (mkGCStats 0 0 0) None w l.

(** An outcome of a read that does not change the state. *)
Definition NextTS : stM St Z := fun s =>
  let '(c, r) := LocalTS_NextTS (tsGen (eng s)) in (set_eng (with_ts c) s, r).

Definition beginTx (level : IsolationLevel) (e : txManager B W L)
    : txManager B W L * outcome SnapshotTx :=
  let '(c, r) := LocalTS_NextTS (tsGen e) in
  let e := with_ts c e in
  match r with
  | Ret ts =>
      let id := u64 (txIDCounter e + 1) in
      let e := mkTxManager (storage e) (tsGen e) (Register (activeTxRegistry e) id ts) id
                 (if decide (level = SnapshotIsolation) then siCount e + 1 else siCount e)
                 (keyLocks e) (gcStats e) (wal e) (walState e) (lobState e) in
      (e, Ret (mkSnapshotTx ts id level (Some NewWriteBuffer) false ∅))
  | Fail er => (e, Fail er)
  | Panic => (e, Panic)
  end.

(** ** Lifecycle helpers *)

Definition checkActive : stM St unit := fun s =>
  if completed (tx s) then
    match writeBuffer (tx s) with
    | None => (s, Fail (Sentinel ErrMVCCTxRolledBack))
    | Some _ => (s, Fail (Sentinel ErrMVCCTxCommitted))
    end
  else (s, Ret tt).

Definition cleanup (s : St) : St :=
  if completed (tx s) then s else
  let s := set_tx with_completed s in
  if decide (isolationLevel (tx s) = SnapshotIsolation)
  then set_eng (fun e => with_siCount (siCount e - 1) e) s else s.

Definition releaseHeldLocks (s : St) : St :=
  mkSt (with_keyLocks (keyLocks (eng s) ∖ heldLocks (tx s)) (eng s))
    (with_heldLocks ∅ (tx s)).

Definition unregister (s : St) : St :=
  set_eng (fun e => with_registry (Unregister (activeTxRegistry e) (txID (tx s))) e) s.

(** [tx.writeBuffer], nil dereferences panic. *)
Definition the_buffer : stM St WriteBuffer := fun s =>
  match writeBuffer (tx s) with Some wb => (s, Ret wb) | None => (s, Panic) end.

(** ** Read path *)

Definition prevTomb (mv : MVCCValue) : bool := IsTombstoneFlag (PrevFlag mv).

Definition snapshotGet (key : bytes) : stM St (option bytes) := fun s =>
  (s,
   raw ← GetRaw (storage (eng s)) key;
   mv ← DecodeValue raw lobManager lobFileManager (lobState (eng s));
   if BeginTS mv <=? snapshotTS (tx s) then
     if IsTombstone mv then Fail (Sentinel ErrMVCCKeyNotFound)
     else Ret (Some (RealVal mv))
   else if negb (PrevBeginTS mv =? 0) && (PrevBeginTS mv <=? snapshotTS (tx s)) then
     if IsTombstoneFlag (PrevFlag mv) then Fail (Sentinel ErrMVCCKeyNotFound)
     else if IsLOBFlag (PrevFlag mv) then
       prevMV ← DecodeValue (nilbytes (PrevVal mv)) lobManager lobFileManager (lobState (eng s));
       Ret (Some (RealVal prevMV))
     else Ret (PrevVal mv)
   else Fail (Sentinel ErrMVCCKeyNotFound)).

Definition TxGet (key : bytes) : stM St (option bytes) :=
  _ ← checkActive;
  if zlen key =? 0 then failS (Wrap (Sentinel ErrMVCCGetError) "get: empty key") else
  wb ← the_buffer;
  match Get wb key with
  | Some entry =>
      if decide (Op entry = OpDelete) then failS (Sentinel ErrMVCCKeyNotFound)
      else mret (WValue entry)
  | None => snapshotGet key
  end.

(** Phase 3 of GetBatch for one key: the value at its index, None for nil. *)
Definition batchVisible (snap : Z) (raw : option bytes) (l : L) : outcome (option bytes) :=
  match raw with
  | None => Ret None
  | Some raw =>
      match DecodeValue raw lobManager lobFileManager l with
      | Panic => Panic
      | Fail _ => Ret None
      | Ret mv =>
          if BeginTS mv <=? snap then
            if IsTombstone mv then Ret None else Ret (Some (RealVal mv))
          else if negb (PrevBeginTS mv =? 0) && (PrevBeginTS mv <=? snap) then
            if IsTombstoneFlag (PrevFlag mv) then Ret None
            else if IsLOBFlag (PrevFlag mv) then
              match DecodeValue (nilbytes (PrevVal mv)) lobManager lobFileManager l with
              | Ret prevMV => Ret (Some (RealVal prevMV))
              | Fail _ => Ret None
              | Panic => Panic
              end
            else Ret (PrevVal mv)
          else Ret None
      end
  end.

(** Phase 1: the buffered keys are answered, the others collected in order;
    the results of the backend fill the holes. *)
Fixpoint bufferFilter (wb : WriteBuffer) (keys : list bytes)
    : outcome (list (option (option bytes)) * list bytes) :=
  match keys with
  | [] => Ret ([], [])
  | key :: keys =>
      if zlen key =? 0 then Fail (Wrap (Sentinel ErrMVCCGetError) "getbatch: empty key") else
      rest ← bufferFilter wb keys;
      match Get wb key with
      | Some entry =>
          Ret (Some (if decide (Op entry = OpDelete) then None else WValue entry) :: fst rest,
               snd rest)
      | None => Ret (None :: fst rest, key :: snd rest)
      end
  end.

Fixpoint fillHoles (snap : Z) (l : L) (rs : list (option (option bytes)))
    (raws : list (option bytes)) : outcome (list (option bytes)) :=
  match rs with
  | [] => Ret []
  | Some r :: rs => rest ← fillHoles snap l rs raws; Ret (r :: rest)
  | None :: rs =>
      match raws with
      | [] => rest ← fillHoles snap l rs []; Ret (None :: rest)
      | raw :: raws =>
          v ← batchVisible snap raw l;
          rest ← fillHoles snap l rs raws; Ret (v :: rest)
      end
  end.

Definition batchRead (results : list (option (option bytes))) (btreeKeys : list bytes)
    : stM St (list (option bytes)) := fun s =>
  (s, if bool_decide (btreeKeys = [])
      then fillHoles (snapshotTS (tx s)) (lobState (eng s)) results []
      else raws ← GetBatchRaw (storage (eng s)) btreeKeys;
           fillHoles (snapshotTS (tx s)) (lobState (eng s)) results raws).

Definition TxGetBatch (keys : list bytes) : stM St (list (option bytes)) :=
  _ ← checkActive;
  wb ← the_buffer;
  filtered ← liftS (bufferFilter wb keys);
  batchRead (fst filtered) (snd filtered).

(** ** Write path *)

(** [kl.Lock()] on the key's lock: it times out while another transaction
    holds it. *)
Definition lockKey (key : bytes) : stM St unit := fun s =>
  if decide (key ∈ keyLocks (eng s)) then (s, Fail (Sentinel ErrMVCCLockTimeout))
  else (set_eng (fun e => with_keyLocks ({[key]} ∪ keyLocks e) e) s, Ret tt).
Definition unlockKey (key : bytes) (s : St) : St :=
  set_eng (fun e => with_keyLocks (keyLocks e ∖ {[key]}) e) s.

Definition acquire (key : bytes) : stM St unit := fun s =>
  if decide (key ∈ heldLocks (tx s)) then (s, Ret tt) else
  (_ ← onErr (lockKey key) (fun e => Wrap e "pessimistic lock key: timeout");
   modifyS (set_tx (fun t => with_heldLocks ({[key]} ∪ heldLocks t) t))) s.

Definition setBuffer (wb : WriteBuffer) : stM St unit :=
  modifyS (set_tx (with_writeBuffer (Some wb))).

(** The committed version Put reads: old value, flag, beginTS and the version
    that will be dropped. *)
Definition oldPrev (mv : MVCCValue) : option bytes :=
  if negb (PrevBeginTS mv =? 0) && (0 <? zlen (nilbytes (PrevVal mv)))
  then deepCopy (PrevVal mv) else None.

Definition readOld (raw : outcome bytes)
    : outcome (option bytes * Z * Z * Z * option bytes) :=
  match raw with
  | Panic => Panic
  | Fail _ => Ret (None, 0, 0, 0, None)
  | Ret raw =>
      match ParseMVCC raw with
      | Panic => Panic
      | Fail _ => Ret (None, 0, 0, 0, None)
      | Ret mv =>
          let live := (Flag mv =? FlagNormal) || (Flag mv =? FlagLOBNormal) ||
                      (Flag mv =? FlagLOBFile) in
          Ret (if live then deepCopy (Some (RealVal mv)) else None,
               Flag mv, BeginTS mv, PrevFlag mv, oldPrev mv)
      end
  end.

Definition TxPut (key : bytes) (value : option bytes) : stM St unit :=
  _ ← checkActive;
  if zlen key =? 0 then failS (Wrap (Sentinel ErrMVCCPutError) "put: empty key") else
  _ ← acquire key;
  s ← getS;
  old ← liftS (readOld (GetRaw (storage (eng s)) key));
  wb ← the_buffer;
  let '(oldValue, oldFlag, oldBeginTS, oldPrevFlag, oldPrevVal) := old in
  setBuffer (Put wb key value oldValue oldFlag oldBeginTS oldPrevFlag oldPrevVal).

(** [tx.writeBuffer.Delete(...)]. *)
Definition bufferDelete (wb : WriteBuffer) (key : bytes) (oldValue : option bytes)
    (oldFlag oldBeginTS oldPrevFlag : Z) (oldPrevVal : option bytes) : stM St unit :=
  let '(wb', r) := Delete wb key oldValue oldFlag oldBeginTS oldPrevFlag oldPrevVal in
  _ ← setBuffer wb';
  liftS r.

Definition committedDelete (key : bytes) (raw : bytes) (wb : WriteBuffer) : stM St unit :=
  mv ← liftS (ParseMVCC raw);
  if IsTombstone mv then failS (Sentinel ErrMVCCKeyNotFound) else
  bufferDelete wb key (deepCopy (Some (RealVal mv))) (Flag mv) (BeginTS mv)
    (PrevFlag mv) (oldPrev mv).

Definition with_entry (wb : WriteBuffer) (key : bytes) (e : WriteEntry) : WriteBuffer :=
  mkWriteBuffer (<[key := e]> (entries wb)) (ordered wb).

Definition TxDelete (key : bytes) : stM St unit :=
  _ ← checkActive;
  if zlen key =? 0 then failS (Wrap (Sentinel ErrMVCCDeleteError) "delete: empty key") else
  _ ← acquire key;
  wb ← the_buffer;
  match Get wb key with
  | Some e =>
      match Op e with
      | OpInsert =>
          bufferDelete (with_entry wb key (mkWriteEntry OpInsert None None 0 0 0 None))
            key None 0 0 0 None
      | OpDelete => mret tt
      | OpUpdate =>
          setBuffer (with_entry wb key (mkWriteEntry OpDelete None (OldValue e) (OldFlag e)
            (OldBeginTS e) (OldPrevFlag e) (OldPrevVal e)))
      end
  | None =>
      s ← getS;
      match GetRaw (storage (eng s)) key with
      | Ret raw => committedDelete key raw wb
      | Fail _ => failS (Sentinel ErrMVCCKeyNotFound)
      | Panic => liftS Panic
      end
  end.

(** ** Commit path *)

Definition modifyLob (f : L -> L) : stM St unit :=
  modifyS (set_eng (fun e => with_lobState (f (lobState e)) e)).

Definition retireLOBOverflow (oldPrevVal : bytes) : stM St unit :=
  if zlen oldPrevVal <? 10 then mret tt else
  firstPageID ← liftS (be_at 4 oldPrevVal 2);
  if firstPageID =? 0 then mret tt else
  match lobEpoch, lobManager with
  | Some ep, _ => modifyLob (RetireLobChain ep firstPageID)
  | None, Some m => modifyLob (fun l => fst (lob_Free m (mkLOBRef firstPageID 0) l))
  | None, None => mret tt
  end.

Definition retireLOBFile (oldPrevVal : bytes) : stM St unit :=
  if zlen oldPrevVal <? 18 then mret tt else
  lobID ← liftS (be_at 8 oldPrevVal 2);
  if lobID =? 0 then mret tt else
  match lobEpoch, lobFileManager with
  | Some ep, _ => modifyLob (RetireLobFile ep lobID)
  | None, Some m => modifyLob (fun l => fst (lobf_Delete m (mkLOBFileRef lobID 0) l))
  | None, None => mret tt
  end.

Definition retireOldPrev (entry : WriteEntry) : stM St unit :=
  if IsLOBFlag (OldPrevFlag entry) then retireLOBOverflow (nilbytes (OldPrevVal entry))
  else if IsLOBFileFlag (OldPrevFlag entry) then retireLOBFile (nilbytes (OldPrevVal entry))
  else mret tt.

(** [oldRawVal, _ = BuildMVCC(...)]: nil for an insert or on an error. *)
Definition oldRaw (entry : WriteEntry) : option bytes :=
  if decide (Op entry = OpInsert) then None else
  match BuildMVCC (OldFlag entry) (OldBeginTS entry) (nilbytes (OldValue entry)) 0 0 [] with
  | Ret b => Some b
  | _ => None
  end.

Definition encodeEntry (entry : WriteEntry) (commitTS : Z) : stM St bytes := fun s =>
  let old := nilbytes (OldValue entry) in
  if decide (Op entry = OpDelete) then
    (s, EncodeDeleteValue commitTS (OldFlag entry) (OldBeginTS entry) old
          (OldFlag entry) (OldBeginTS entry) old)
  else
    let '(l, r) := EncodeValue (nilbytes (WValue entry)) commitTS (OldFlag entry)
                     (OldBeginTS entry) old lobManager lobFileManager (lobState (eng s)) in
    (set_eng (with_lobState l) s, r).

Definition panicErr (d : string) : gerr := Wrap (Sentinel ErrMVCCPanicRecovered) d.

(** Both results of commitKey; a recovered panic returns no undo entry. *)
Definition commitKey (key : bytes) (entry : WriteEntry) (commitTS : Z) (s : St)
    : St * (option UndoEntry * outcome unit) :=
  let old := oldRaw entry in
  match encodeEntry entry commitTS s with
  | (s, Fail e) => (s, (Some (mkUndo key old commitTS []), Fail (Wrap e "build mvcc for key")))
  | (s, Panic) => (s, (None, Fail (panicErr "commit key: panic")))
  | (s, Ret encoded) =>
      match retireOldPrev entry s with
      | (s, Panic) => (s, (None, Fail (panicErr "commit key: panic")))
      | (s, _) => (s, (Some (mkUndo key old commitTS encoded), Ret tt))
      end
  end.

(** ** Rollback of applied keys *)

(** The body of rollbackOneKey once the key's lock is held. *)
Definition rollbackBody (entry : UndoEntry) : stM St unit := fun s =>
  match GetRaw (storage (eng s)) (UKey entry) with
  | Panic => (s, Panic)
  | Fail e =>
      if decide (e = Sentinel ErrMVCCKeyNotFound) then (s, Ret tt)
      else (s, Fail (Wrap e "rollback key: GetRaw failed"))
  | Ret current =>
      match ParseMVCC current with
      | Panic => (s, Panic)
      | Fail e => (s, Fail (Wrap e "rollback key: parse failed"))
      | Ret mv =>
          if negb (BeginTS mv =? CommitTS entry) then (s, Ret tt) else
          let s := match (if IsLOBFlag (Flag mv) then LOB mv else None), lobManager with
                   | Some r, Some m =>
                       set_eng (fun e => with_lobState (fst (lob_Free m r (lobState e))) e) s
                   | _, _ => s
                   end in
          match (match OldRawVal entry with
                 | None => BuildMVCC FlagTombstone (CommitTS entry) [] 0 0 []
                 | Some old => Ret old
                 end) with
          | Panic => (s, Panic)
          | Fail e => (s, Fail (Wrap e "rollback key: build tombstone failed"))
          | Ret v =>
              let '(b, r) := SetRaw (storage (eng s)) (UKey entry) v in
              (set_eng (with_storage b) s,
               match r with Fail e => Fail (Wrap e "rollback key: restore failed") | r => r end)
          end
      end
  end.

(** The deferred recover. *)
Definition recovered (d : string) (r : St * outcome unit) : St * outcome unit :=
  match r with (s, Panic) => (s, Fail (panicErr d)) | r => r end.

Definition rollbackOneKey (entry : UndoEntry) : stM St unit := fun s =>
  if decide (UKey entry ∈ heldLocks (tx s)) then
    recovered "rollback key: panic" (rollbackBody entry s)
  else
    match lockKey (UKey entry) s with
    | (s, Ret _) =>
        let '(s, r) := recovered "rollback key: panic" (rollbackBody entry s) in
        (unlockKey (UKey entry) s, r)
    | (s, Fail e) => (s, Fail (Wrap e "rollback key: lock timeout"))
    | (s, Panic) => (s, Panic)
    end.

(** The first error is kept, all keys are tried. *)
Fixpoint rollbackLoop (undos : list UndoEntry) (firstErr : outcome unit) : stM St unit :=
  match undos with
  | [] => fun s => (s, firstErr)
  | u :: undos => fun s =>
      match rollbackOneKey u s with
      | (s, Panic) => (s, Panic)
      | (s, r) =>
          let firstErr := match firstErr, r with Ret _, Fail e => Fail e | f, _ => f end in
          rollbackLoop undos firstErr s
      end
  end.
Definition rollbackApplied (undoBuf : list UndoEntry) : stM St unit :=
  rollbackLoop (rev undoBuf) (Ret tt).

(** Fails with [e], after undoing the applied keys. *)
Definition failRollback {A} (undoBuf : list UndoEntry) (e : gerr) (d : string) : stM St A := fun s =>
  match rollbackApplied undoBuf s with
  | (s, Ret _) => (s, Fail e)
  | (s, Fail _) => (s, Fail (Wrap e d))
  | (s, Panic) => (s, Panic)
  end.

Definition option_list {A} (o : option A) : list A :=
  match o with Some a => [a] | None => [] end.

(** Phase 1 of applyWriteBuffer: the undo entries and the pairs to write. *)
Fixpoint prepareKeys (m : gmap bytes WriteEntry) (keys : list bytes) (commitTS : Z)
    (undoBuf : list UndoEntry) (pairs : list (bytes * bytes))
    : stM St (list UndoEntry * list (bytes * bytes)) :=
  match keys with
  | [] => mret (undoBuf, pairs)
  | key :: keys =>
      match m !! key with
      | None => prepareKeys m keys commitTS undoBuf pairs
      | Some entry => fun s =>
          match commitKey key entry commitTS s with
          | (s, (undo, Fail e)) =>
              let undoBuf := undoBuf ++ option_list undo in
              if bool_decide (undoBuf = []) then (s, Fail e)
              else failRollback undoBuf e "apply failed, rollback also failed" s
          | (s, (None, _)) => (s, Panic)
          | (s, (Some undo, _)) =>
              prepareKeys m keys commitTS (undoBuf ++ [undo])
                (pairs ++ [(key, EncodedVal undo)]) s
          end
      end
  end.

(** Phase 2: one batch; its failure undoes everything. *)
Definition batchWrite (undoBuf : list UndoEntry) (pairs : list (bytes * bytes))
    : stM St (list UndoEntry) := fun s =>
  if bool_decide (pairs = []) then (s, Ret undoBuf) else
  let '(b, r) := SetBatch (storage (eng s)) pairs in
  let s := set_eng (with_storage b) s in
  match r with
  | Ret _ => (s, Ret undoBuf)
  | Fail e => failRollback undoBuf e "batch set failed, rollback also failed" s
  | Panic => (s, Panic)
  end.

Definition applyWriteBuffer (commitTS : Z) : stM St (list UndoEntry) :=
  wb ← the_buffer;
  let keys := SortStrings (OrderedKeys wb) in
  _ ← setBuffer (mkWriteBuffer (entries wb) keys);
  r ← prepareKeys (entries wb) keys commitTS [] [];
  batchWrite (fst r) (snd r).

(** [if err != nil { cleanup; return Wrap(err, d) }]. *)
Definition orCleanup {A} (m : stM St A) (h : gerr -> gerr) : stM St A := fun s =>
  match m s with
  | (s, Fail e) => (cleanup s, Fail (h e))
  | r => r
  end.

Definition walCall {A} (f : W -> W * outcome A) : stM St A := fun s =>
  let '(w, r) := f (walState (eng s)) in (set_eng (with_walState w) s, r).

(** Phase 2: TxPrepare and its sync. *)
Definition walPrepare : stM St unit :=
  s ← getS;
  match wal (eng s) with
  | None => mret tt
  | Some w =>
      wb ← the_buffer;
      let '(wb', prepare) := TxPrepareEntry (txID (tx s)) wb in
      _ ← setBuffer wb';
      entry ← liftS prepare;
      _ ← orCleanup (walCall (wal_Append w entry)) (fun e => Wrap e "wal txprepare");
      orCleanup (walCall (wal_Sync w)) (fun e => Wrap e "wal txprepare sync")
  end.

(** The TxCommit record: transaction id and commit timestamp in its key. *)
Definition txCommitEntry (txID commitTS : Z) : outcome WALEntry :=
  k ← write_at (zeros 16) 0 (be_enc 8 txID);
  k ← write_at k 8 (be_enc 8 commitTS);
  Ret (mkWALEntry 0 0 0 WALTypeTxCommit (Some k) None 0 0 0).

Definition orUndo {A} (undoBuf : list UndoEntry) (m : stM St A) (h : gerr -> gerr) : stM St A :=
  fun s =>
  match m s with
  | (s, Fail e) =>
      match rollbackApplied undoBuf s with
      | (s, Panic) => (s, Panic)
      | (s, _) => (cleanup s, Fail (h e))
      end
  | r => r
  end.

(** Phase 5: TxCommit and its sync; a failure undoes the applied keys. *)
Definition walCommit (commitTS : Z) (undoBuf : list UndoEntry) : stM St unit :=
  s ← getS;
  match wal (eng s) with
  | None => mret tt
  | Some w =>
      entry ← liftS (txCommitEntry (txID (tx s)) commitTS);
      _ ← orUndo undoBuf (walCall (wal_Append w entry)) (fun e => Wrap e "wal txcommit");
      orUndo undoBuf (walCall (wal_Sync w)) (fun e => Wrap e "wal txcommit sync")
  end.

Definition commitBody : stM St unit :=
  _ ← orCleanup checkActive id;
  _ ← walPrepare;
  commitTS ← NextTS;
  undoBuf ← orCleanup (applyWriteBuffer commitTS) id;
  _ ← walCommit commitTS undoBuf;
  modifyS (fun s => set_tx (with_writeBuffer None) (cleanup s)).

(** The deferred release and unregistration run on every exit. *)
Definition TxCommit : stM St unit := fun s =>
  if completed (tx s) then (s, Ret tt) else
  let '(s, r) := commitBody s in
  (unregister (releaseHeldLocks s), r).

Definition TxRollback : stM St unit := fun s =>
  if completed (tx s) then (s, Ret tt) else
  let '(s, r) :=
    (_ ← checkActive;
     modifyS (fun s => cleanup (set_tx (with_writeBuffer None) s))) s in
  (unregister (releaseHeldLocks s), r).

(** ** GC *)

Definition gcCycle (e : txManager B W L) : txManager B W L :=
  let watermark := Watermark (activeTxRegistry e) in
  let watermark := if watermark =? 0 then tsGen e else watermark in
  with_gcStats (mkGCStats (Cycles (gcStats e) + 1) (TotalReclaimed (gcStats e)) watermark) e.
End engine.
Arguments St : clear implicits.
