(* ===== verification/SnapshotIsolation.v ===== *)
(** * What the transaction engine guarantees to its clients

    The theorems about TxManager.v: what a snapshot read returns, what a commit
    installs, and how the two-version storage relates to the full multi-version
    history of a key.  Values are inline (no LOB manager), there is no WAL, and
    the storage does not fail; the failure paths have their own lemmas. *)

From stdpp Require Import base list gmap strings sorting.
From Stdlib Require Import ZArith Lia.
From S2P Require Import Prelude MvccCodec WalFormat WriteBuffer TxManager.

Local Open Scope Z_scope.

(** ** Versions *)

(** A version: its commit timestamp and its value, None for a deletion. *)
Abbreviation version := (Z * option bytes)%type.

Definition flagged (flag : Z) (v : bytes) : option bytes :=
  if IsTombstoneFlag flag then None else Some v.

(** The versions a stored value holds, newest first. *)
Definition versions (mv : MVCCValue) : list version :=
  (BeginTS mv, flagged (Flag mv) (RealVal mv)) ::
  if PrevBeginTS mv =? 0 then []
  else [(PrevBeginTS mv, flagged (PrevFlag mv) (nilbytes (PrevVal mv)))].

(** The value visible at a timestamp: the newest version not after it. *)
Fixpoint read_at (snap : Z) (vs : list version) : option bytes :=
  match vs with
  | [] => None
  | (ts, v) :: vs => if ts <=? snap then v else read_at snap vs
  end.

(** An inline stored value whose timestamps are those of a commit up to [clock]. *)
Record raw_ok (clock : Z) (raw : bytes) (mv : MVCCValue) : Prop := {
  ro_parse : ParseMVCC raw = Ret mv;
  ro_flag : Flag mv = FlagNormal \/ Flag mv = FlagTombstone;
  ro_prevFlag : PrevFlag mv = FlagNormal \/ PrevFlag mv = FlagTombstone;
  ro_ts : 0 < BeginTS mv <= clock;
  ro_prevTS : 0 <= PrevBeginTS mv < BeginTS mv;
  ro_size : zlen (RealVal mv) <= 65515;
  ro_lob : LOB mv = None /\ LOBFile mv = None;
}.

Lemma raw_ok_mono c c' raw mv : c <= c' -> raw_ok c raw mv -> raw_ok c' raw mv.
Proof. intros ? []. split; try done. lia. Qed.

Lemma raw_ok_unique c c' raw mv mv' : raw_ok c raw mv -> raw_ok c' raw mv' -> mv = mv'.
Proof. intros [] []. congruence. Qed.

Lemma DecodeValue_inline {L} (l : L) c raw mv :
  raw_ok c raw mv -> DecodeValue raw None None l = Ret mv.
Proof.
  intros [Hp _ _ _ _ _ [H1 H2]]. unfold DecodeValue. rewrite Hp, bind_ret, H1, bind_ret, H2. done.
Qed.

(** A read answers: found with a value, not found, or something else. *)
Definition found (r : outcome (option bytes)) : option (option bytes) :=
  match r with
  | Ret o => Some (Some (nilbytes o))
  | Fail e => if decide (e = Sentinel ErrMVCCKeyNotFound) then Some None else None
  | Panic => None
  end.

Section engine.
Context {B W L : Type} `{SL : StorageLaws B}.
Implicit Types (s : St B W L) (b : B).

Definition stored b (k : bytes) : list version :=
  match view b !! k with
  | None => []
  | Some raw => match ParseMVCC raw with Ret mv => versions mv | _ => [] end
  end.

Definition store_ok (clock : Z) b : Prop :=
  forall k raw, view b !! k = Some raw -> exists mv, raw_ok clock raw mv.

Lemma stored_some c b k raw mv :
  view b !! k = Some raw -> raw_ok c raw mv -> stored b k = versions mv.
Proof. intros E []. unfold stored. by rewrite E, ro_parse0. Qed.

(** ** Reads *)

Lemma snapshotGet_found s c k :
  store_ok c (storage (eng s)) ->
  exists r, snapshotGet None None k s = (s, r) /\
    found r = Some (read_at (snapshotTS (tx s)) (stored (storage (eng s)) k)).
Proof.
  intros Hs. eexists. split; [reflexivity|]. rewrite GetRaw_spec.
  destruct (view (storage (eng s)) !! k) as [raw|] eqn:E.
  2: { unfold stored. by rewrite E. }
  destruct (Hs k raw E) as [mv Hmv]. rewrite (stored_some c _ _ _ _ E Hmv).
  rewrite bind_ret, (DecodeValue_inline _ _ _ _ Hmv), bind_ret.
  unfold versions, flagged, IsTombstone. cbn [read_at].
  destruct (BeginTS mv <=? snapshotTS (tx s)).
  { by destruct (IsTombstoneFlag (Flag mv)). }
  destruct (Z.eqb_spec (PrevBeginTS mv) 0); cbn [negb andb]; [done|]. cbn [read_at].
  destruct (PrevBeginTS mv <=? snapshotTS (tx s)); [|done].
  destruct (IsTombstoneFlag (PrevFlag mv)) eqn:Et; [done|].
  assert (PrevFlag mv = FlagNormal) as -> by (destruct (ro_prevFlag _ _ _ Hmv) as [|E1];
    [done|by rewrite E1 in Et]). done.
Qed.

(** ** What the buffer knows about the storage *)

Record entry_match (clock : Z) b (k : bytes) (e : WriteEntry) : Prop := {
  em_size : zlen (nilbytes (WValue e)) <= 65515;
  em_flag : OldFlag e = FlagNormal;
  em_prev : OldPrevFlag e = FlagNormal \/ OldPrevFlag e = FlagTombstone;
  em_old : match Op e with
    | OpInsert => OldValue e = None /\ OldBeginTS e = 0 /\
        (forall ts v vs, stored b k = (ts, v) :: vs -> v = None)
    | _ => exists raw mv, view b !! k = Some raw /\ raw_ok clock raw mv /\
        Flag mv = FlagNormal /\ OldBeginTS e = BeginTS mv /\ OldValue e = Some (RealVal mv)
    end;
}.

Record buffer_ok (clock : Z) b (wb : WriteBuffer) : Prop := {
  bo_entry : forall k e, entries wb !! k = Some e -> entry_match clock b k e;
  bo_ordered : forall k e, entries wb !! k = Some e -> k ∈ ordered wb;
}.

(** The new stored value of a buffered key. *)
Definition encoded (e : WriteEntry) (ts : Z) : bytes :=
  if decide (Op e = OpDelete)
  then mvcc_wire FlagTombstone ts [] (OldFlag e) (OldBeginTS e) (nilbytes (OldValue e))
  else mvcc_wire FlagNormal ts (nilbytes (WValue e)) (OldFlag e) (OldBeginTS e)
         (nilbytes (OldValue e)).

Lemma encodeEntry_plain s c b k e ts :
  entry_match c b k e -> ts <> 0 ->
  encodeEntry None None e ts s = (s, Ret (encoded e ts)).
Proof.
  intros [_ Hf _ _] Hts. unfold encodeEntry, encoded. rewrite Hf. case_decide.
  - unfold EncodeDeleteValue. cbn [IsLOBFlag IsLOBFileFlag].
    change (IsLOBFlag FlagNormal) with false. change (IsLOBFileFlag FlagNormal) with false.
    cbv iota beta. by rewrite BuildMVCC_wire.
  - unfold EncodeValue. destruct (LOBFileThreshold <? _), (LOBSizeThreshold <? _);
      rewrite BuildMVCC_wire by done; by destruct s as [[] ?].
Qed.

Lemma retireOldPrev_plain s c b k e :
  entry_match c b k e -> retireOldPrev None None None e s = (s, Ret tt).
Proof. intros [_ _ Hp _]. unfold retireOldPrev. by destruct Hp as [-> | ->]. Qed.

Definition undo_of (ts : Z) (ke : bytes * WriteEntry) : UndoEntry :=
  mkUndo ke.1 (oldRaw ke.2) ts (encoded ke.2 ts).

Lemma commitKey_plain s c b k e ts :
  entry_match c b k e -> ts <> 0 ->
  commitKey None None None k e ts s = (s, (Some (undo_of ts (k, e)), Ret tt)).
Proof.
  intros Hm Hts. unfold commitKey. rewrite (encodeEntry_plain s c b k e ts Hm Hts).
  by rewrite (retireOldPrev_plain s c b k e Hm).
Qed.

(** The live entries of a key list, in order. *)
Definition chosen (m : gmap bytes WriteEntry) (keys : list bytes) : list (bytes * WriteEntry) :=
  omap (fun k => pair k <$> (m !! k)) keys.

Lemma prepareKeys_plain s c b m keys ts undos pairs :
  (forall k e, m !! k = Some e -> entry_match c b k e) -> ts <> 0 ->
  prepareKeys None None None m keys ts undos pairs s =
  (s, Ret (undos ++ map (undo_of ts) (chosen m keys),
           pairs ++ map (fun ke => (ke.1, encoded ke.2 ts)) (chosen m keys))).
Proof.
  intros Hm Hts. revert undos pairs. induction keys as [|k keys IH]; intros undos pairs.
  - cbn. by rewrite !app_nil_r.
  - cbn [prepareKeys]. unfold chosen in *. cbn [omap list_omap].
    destruct (m !! k) as [e|] eqn:E; cbn [fmap option_fmap option_map map]; [|apply IH].
    rewrite (commitKey_plain s c b k e ts (Hm k e E) Hts). rewrite IH.
    by rewrite <- !app_assoc.
Qed.

Lemma chosen_in m keys k e :
  (k, e) ∈ chosen m keys <-> k ∈ keys /\ m !! k = Some e.
Proof.
  unfold chosen. rewrite list_elem_of_omap. split.
  - intros (k' & Hin & He). destruct (m !! k') as [e'|] eqn:E; [|done].
    cbn in He. injection He as -> ->. done.
  - intros [Hin E]. exists k. split; [done|]. by rewrite E.
Qed.

(** Writing a list of pairs whose values are determined by their keys. *)
Lemma foldl_insert_fun (f : bytes -> bytes) (ks : list bytes) (m : gmap bytes bytes) k :
  foldl (fun m p => <[p.1 := p.2]> m) m (map (fun k => (k, f k)) ks) !! k =
  if decide (k ∈ ks) then Some (f k) else m !! k.
Proof.
  revert m. induction ks as [|k0 ks IH]; intros m.
  - by rewrite decide_False by set_solver.
  - cbn [map foldl fst snd]. rewrite IH. destruct (decide (k ∈ ks)).
    + by rewrite decide_True by (by right).
    + destruct (decide (k = k0)) as [->|].
      * rewrite decide_True by (by left). apply lookup_insert_eq.
      * rewrite decide_False by (rewrite elem_of_cons; tauto).
        by apply lookup_insert_ne.
Qed.

Lemma write_chosen (m : gmap bytes WriteEntry) (keys : list bytes) (v : gmap bytes bytes) ts k :
  (forall k e, m !! k = Some e -> k ∈ keys) ->
  foldl (fun m p => <[p.1 := p.2]> m) v
    (map (fun ke => (ke.1, encoded ke.2 ts)) (chosen m keys)) !! k =
  match m !! k with Some e => Some (encoded e ts) | None => v !! k end.
Proof.
  intros Hk. set (f := fun k => match m !! k with Some e => encoded e ts | None => [] end).
  assert (map (fun ke => (ke.1, encoded ke.2 ts)) (chosen m keys) =
          map (fun k => (k, f k)) (map fst (chosen m keys))) as ->.
  { rewrite map_map. apply map_ext_in. intros [k' e] Hin%list_elem_of_In.
    apply chosen_in in Hin as [_ E]. cbn. unfold f. by rewrite E. }
  rewrite foldl_insert_fun. unfold f. destruct (m !! k) as [e|] eqn:E.
  - rewrite decide_True; [done|]. apply list_elem_of_fmap. exists (k, e). split; [done|].
    apply chosen_in. eauto.
  - rewrite decide_False; [done|]. intros Hin. apply list_elem_of_fmap in Hin as ([k' e] & -> & Hin).
    apply chosen_in in Hin as [_ E']. cbn in E. congruence.
Qed.
End engine.

Section commit.
Context {B W L : Type} `{SL : StorageLaws B}.
Implicit Types (s : St B W L) (b : B).

(** ** What a commit installs *)

Definition new_value (e : WriteEntry) : option bytes :=
  if decide (Op e = OpDelete) then None else Some (nilbytes (WValue e)).

(** The versions of a key after a commit wrote it. *)
Definition installed (ts : Z) (e : WriteEntry) (old : list version) : list version :=
  (ts, new_value e) :: if decide (Op e = OpInsert) then [] else take 1 old.

Lemma parse_wire c (flag ts : Z) v e mv :
  flag = FlagNormal \/ flag = FlagTombstone -> 0 < ts < 2 ^ 64 -> c < ts ->
  zlen v <= 65515 -> OldFlag e = FlagNormal ->
  (OldBeginTS e = 0 /\ OldValue e = None \/
   OldBeginTS e = BeginTS mv /\ OldValue e = Some (RealVal mv) /\
     0 < BeginTS mv <= c /\ zlen (RealVal mv) <= 65515) ->
  exists mv', raw_ok ts (mvcc_wire flag ts v (OldFlag e) (OldBeginTS e) (nilbytes (OldValue e))) mv' /\
    versions mv' = (ts, flagged flag v) ::
      (if OldBeginTS e =? 0 then [] else [(OldBeginTS e, Some (nilbytes (OldValue e)))]).
Proof.
  intros Hf Hts Hc Hv Ho Hold. rewrite Ho.
  assert (isValidFlag flag = true) as Hvf by (by destruct Hf as [-> | ->]).
  assert (prev_fits (OldBeginTS e) (nilbytes (OldValue e))) as Hfit.
  { destruct Hold as [[-> ->]|(-> & -> & ? & ?)]; unfold prev_fits, is_u64.
    - done.
    - cbn [from_option id]. split; [lia|]. split; [done|lia]. }
  assert (parseLOB flag v = Ret (None, None)) as Hlob by (by destruct Hf as [-> | ->]).
  pose proof (BuildMVCC_wire flag ts v FlagNormal (OldBeginTS e) (nilbytes (OldValue e))
    Hvf ltac:(lia)) as HB.
  pose proof (parse_of_build _ _ _ _ _ _ _ _ Hvf Hts Hfit Hlob HB) as HP.
  eexists. split.
  - split; [exact HP|exact Hf|by left|cbn; lia| |exact Hv|done]. cbn.
    destruct Hold as [[-> _]|(-> & _ & ? & _)]; lia.
  - unfold versions. cbn. destruct (OldBeginTS e =? 0); [done|]. f_equal.
    unfold flagged. change (IsTombstoneFlag FlagNormal) with false. cbv iota.
    by destruct (nilbytes (OldValue e)).
Qed.

Lemma parse_encoded c b k e ts :
  entry_match c b k e -> 0 < ts < 2 ^ 64 -> c < ts ->
  exists mv, raw_ok ts (encoded e ts) mv /\ versions mv = installed ts e (stored b k).
Proof.
  intros [Hsz Hf Hp Hold] Hts Hc. unfold encoded, installed, new_value.
  destruct (Op e) eqn:Eop; cbn [decide].
  - destruct Hold as (Ho1 & Ho2 & _).
    destruct (parse_wire c FlagNormal ts (nilbytes (WValue e)) e
      (mkMVCCValue 0 0 [] 0 0 None None None)) as (mv & Hr & Hv); auto.
    exists mv. split; [done|].
    by rewrite Hv, Ho2.
  - destruct Hold as (raw & mv0 & Hv0 & Hr0 & Hf0 & Hb0 & Ho0).
    destruct (ro_ts _ _ _ Hr0) as [? ?]. pose proof (ro_size _ _ _ Hr0).
    destruct (parse_wire c FlagNormal ts (nilbytes (WValue e)) e mv0)
      as (mv & Hr & Hv); auto; [right; auto|].
    exists mv. split; [done|]. rewrite Hv.
    rewrite (stored_some _ _ _ _ _ Hv0 Hr0). rewrite (proj2 (Z.eqb_neq _ _)) by lia.
    rewrite Ho0, Hb0. unfold versions, flagged. rewrite Hf0. done.
  - destruct Hold as (raw & mv0 & Hv0 & Hr0 & Hf0 & Hb0 & Ho0).
    destruct (ro_ts _ _ _ Hr0) as [? ?]. pose proof (ro_size _ _ _ Hr0).
    destruct (parse_wire c FlagTombstone ts [] e mv0)
      as (mv & Hr & Hv); auto; [by cbn|right; auto|].
    exists mv. split; [done|]. rewrite Hv.
    rewrite (stored_some _ _ _ _ _ Hv0 Hr0). rewrite (proj2 (Z.eqb_neq _ _)) by lia.
    rewrite Ho0, Hb0. unfold versions, flagged. rewrite Hf0. done.
Qed.

(** ** Commit *)

Context (reliable : forall b ps, exists n, snd (SetBatch b ps) = Ret n).

(** The state after a successful commit that wrote storage [b]. *)
Definition committed s b : St B W L :=
  let e := eng s in let t := tx s in
  mkSt (mkTxManager b (tsGen e + 1) (Unregister (activeTxRegistry e) (txID t)) (txIDCounter e)
          (if decide (isolationLevel t = SnapshotIsolation) then siCount e - 1 else siCount e)
          (keyLocks e ∖ heldLocks t) (gcStats e) (wal e) (walState e) (lobState e))
    (mkSnapshotTx (snapshotTS t) (txID t) (isolationLevel t) None true ∅).

Definition commit_view (wb : WriteBuffer) (ts : Z) (old : gmap bytes bytes) (k : bytes)
    : option bytes :=
  match entries wb !! k with Some e => Some (encoded e ts) | None => old !! k end.

Lemma apply_plain s c wb ts :
  writeBuffer (tx s) = Some wb -> buffer_ok c (storage (eng s)) wb -> ts <> 0 ->
  exists b' undos wb', applyWriteBuffer None None None ts s =
    (mkSt (with_storage b' (eng s)) (with_writeBuffer (Some wb') (tx s)), Ret undos) /\
    forall k, view b' !! k = commit_view wb ts (view (storage (eng s))) k.
Proof.
  intros Hwb [Hbo Hord] Hts. set (keys := SortStrings (OrderedKeys wb)).
  set (wb' := mkWriteBuffer (entries wb) keys).
  assert (forall k e, entries wb !! k = Some e -> k ∈ keys) as Hin.
  { intros k e E. unfold keys. rewrite SortStrings_perm. by eapply Hord. }
  set (pairs := map (fun ke => (ke.1, encoded ke.2 ts)) (chosen (entries wb) keys)).
  assert (forall k, foldl (fun m p => <[p.1 := p.2]> m) (view (storage (eng s))) pairs !! k =
                    commit_view wb ts (view (storage (eng s))) k) as Hview
    by (intros k; by apply write_chosen).
  pose proof (prepareKeys_plain (set_tx (with_writeBuffer (Some wb')) s) c (storage (eng s))
    (entries wb) keys ts [] [] Hbo Hts) as Hprep. cbn [app] in Hprep. fold pairs in Hprep.
  set (undos := map (undo_of ts) (chosen (entries wb) keys)) in *.
  assert (applyWriteBuffer None None None ts s =
    batchWrite None undos pairs (set_tx (with_writeBuffer (Some wb')) s)) as ->.
  { unfold applyWriteBuffer, the_buffer.
    erewrite stM_bind_ret; [|rewrite Hwb; reflexivity].
    cbv beta zeta. fold keys wb'. unfold setBuffer. rewrite stM_bind_modify.
    by rewrite (stM_bind_ret _ _ _ _ _ Hprep). }
  unfold batchWrite.
  destruct (bool_decide (pairs = [])) eqn:Ep.
  - apply bool_decide_eq_true in Ep. rewrite Ep in Hview.
    exists (storage (eng s)), undos, wb'. split; [by destruct s as [[] ?]|]. exact Hview.
  - cbn [set_tx eng]. destruct (SetBatch (storage (eng s)) pairs) as [b' r] eqn:ES.
    destruct (reliable (storage (eng s)) pairs) as [n Hn]. rewrite ES in Hn. cbn in Hn. subst r.
    destruct (SetBatch_spec _ _ _ _ ES) as (_ & HV & _).
    exists b', undos, wb'. split; [by destruct s|].
    intros k. rewrite HV by eauto. apply Hview.
Qed.

Lemma commit_plain s c wb :
  completed (tx s) = false -> writeBuffer (tx s) = Some wb -> wal (eng s) = None ->
  buffer_ok c (storage (eng s)) wb -> 0 <= tsGen (eng s) < 2 ^ 64 - 1 ->
  exists b', TxCommit None None None s = (committed s b', Ret tt) /\
    forall k, view b' !! k = commit_view wb (tsGen (eng s) + 1) (view (storage (eng s))) k.
Proof.
  intros Hc Hwb Hwal Hbo Hts. set (ts := tsGen (eng s) + 1).
  assert (u64 ts = ts) as Ets by (apply u64_id; unfold is_u64; lia).
  set (s1 := set_eng (with_ts ts) s).
  assert (NextTS s = (s1, Ret ts)) as Hnext.
  { unfold NextTS, LocalTS_NextTS. fold ts. rewrite Ets.
    by rewrite (proj2 (Z.eqb_neq ts 0)) by lia. }
  destruct (apply_plain s1 c wb ts) as (b' & undos & wb' & Happ & Hview); [done|done|lia|].
  exists b'. split; [|exact Hview].
  unfold TxCommit. rewrite Hc. unfold commitBody.
  erewrite stM_bind_ret; [|unfold orCleanup, checkActive; rewrite Hc; reflexivity].
  erewrite stM_bind_ret; [|unfold walPrepare; rewrite stM_bind_get, Hwal; reflexivity].
  rewrite (stM_bind_ret _ _ _ _ _ Hnext).
  erewrite stM_bind_ret; [|unfold orCleanup; rewrite Happ; reflexivity].
  erewrite stM_bind_ret; [|unfold walCommit; rewrite stM_bind_get; cbn [eng with_storage wal s1 set_eng with_ts];
                           rewrite Hwal; reflexivity].
  unfold modifyS, cleanup. cbn [tx with_writeBuffer completed s1 set_eng]. rewrite Hc.
  destruct s as [e t]. unfold committed. cbn in *.
  destruct (decide (isolationLevel t = SnapshotIsolation)); reflexivity.
Qed.
End commit.

(** ** The steps of one transaction keep its own invariant *)

Section steps.
Context {B W L : Type} `{SL : StorageLaws B}.
Implicit Types (s : St B W L) (b : B) (e : txManager B W L) (t : SnapshotTx).

(** A running transaction holds the lock of every buffered key, and its buffer
    agrees with the storage; a finished one holds nothing. *)
Definition tx_ok e t : Prop :=
  heldLocks t ⊆ keyLocks e /\
  (if completed t then heldLocks t = ∅ else
   exists wb, writeBuffer t = Some wb /\ buffer_ok (tsGen e) (storage e) wb /\
     forall k we, entries wb !! k = Some we -> k ∈ heldLocks t).

(** A write may take new free locks and change the buffer, nothing else. *)
Record local_step s s' : Prop := {
  ls_eng : exists l, eng s' = with_keyLocks l (eng s) /\ l = keyLocks (eng s) ∪ heldLocks (tx s');
  ls_tx : completed (tx s') = completed (tx s) /\ snapshotTS (tx s') = snapshotTS (tx s) /\
          txID (tx s') = txID (tx s);
  ls_held : heldLocks (tx s) ⊆ heldLocks (tx s');
  ls_free : forall k, k ∈ heldLocks (tx s') -> k ∈ heldLocks (tx s) \/ k ∉ keyLocks (eng s);
  ls_ok : tx_ok (eng s') (tx s');
}.

Lemma with_keyLocks_id e : with_keyLocks (keyLocks e) e = e.
Proof. by destruct e. Qed.

Lemma local_refl s : tx_ok (eng s) (tx s) -> local_step s s.
Proof.
  intros Hok. split; [|done|done|by left|done].
  exists (keyLocks (eng s)). rewrite with_keyLocks_id. split; [done|].
  destruct Hok as [Hsub _]. set_solver.
Qed.

Lemma acquire_spec k s s' r :
  acquire k s = (s', r) -> tx_ok (eng s) (tx s) -> completed (tx s) = false ->
  r <> Panic /\ local_step s s' /\ writeBuffer (tx s') = writeBuffer (tx s) /\
  (r = Ret tt -> k ∈ heldLocks (tx s')).
Proof.
  intros HA Hok Hact. unfold acquire in HA. case_decide as Hin.
  { injection HA as <- <-. split; [done|]. split; [by apply local_refl|done]. }
  unfold onErr, lockKey, mbind, stM_bind in HA. case_decide as Hl.
  { injection HA as <- <-. split; [done|]. split; [by apply local_refl|done]. }
  unfold modifyS in HA. injection HA as <- <-. cbn [eng tx set_eng set_tx].
  split; [done|]. split; [|split; [done|intros _; cbn; set_solver]].
  destruct Hok as [Hsub Hb].
  split; cbn [eng tx heldLocks completed snapshotTS txID with_heldLocks set_eng set_tx].
  - eexists. split; [done|]. cbn. set_solver.
  - done.
  - set_solver.
  - intros k' Hk'. destruct (decide (k' = k)) as [->|]; [by right|left]. set_solver.
  - split; cbn; [set_solver|]. rewrite Hact in *.
    destruct Hb as (wb & E & Hbo & Hk). exists wb. split; [done|]. split; [done|].
    intros k' we Hwe. specialize (Hk k' we Hwe). set_solver.
Qed.

(** Replacing the buffer of a running transaction that holds its keys. *)
Lemma setBuffer_local s s1 wb :
  local_step s s1 -> completed (tx s) = false ->
  buffer_ok (tsGen (eng s)) (storage (eng s)) wb ->
  (forall k we, entries wb !! k = Some we -> k ∈ heldLocks (tx s1)) ->
  local_step s (set_tx (with_writeBuffer (Some wb)) s1).
Proof.
  intros [[l [El ->]] (Ec & ? & ?) ? ? [Hsub _]] Hact Hbo Hk.
  split; cbn [eng tx set_tx with_writeBuffer completed snapshotTS txID heldLocks]; try done.
  - eauto.
  - split; [done|]. cbn [completed with_writeBuffer writeBuffer]. rewrite Ec, Hact.
    exists wb. split; [done|]. split; [by rewrite El|done].
Qed.

(** Buffers of a committed storage: changing one entry. *)
Lemma buffer_ok_insert c b wb k we ord :
  buffer_ok c b wb -> entry_match c b k we -> (forall x, x ∈ ordered wb -> x ∈ ord) -> k ∈ ord ->
  buffer_ok c b (mkWriteBuffer (<[k := we]> (entries wb)) ord).
Proof.
  intros [H1 H2] Hm Hsub Hin. split; cbn; intros k' we' Hl;
    destruct (decide (k = k')) as [<-|]; simplify_map_eq; eauto.
Qed.

Lemma buffer_ok_delete c b wb k :
  buffer_ok c b wb -> buffer_ok c b (mkWriteBuffer (delete k (entries wb)) (ordered wb)).
Proof.
  intros [H1 H2]. split; cbn; intros k' we' Hl; apply lookup_delete_Some in Hl as [_ Hl]; eauto.
Qed.

(** What [readOld] reports about a key. *)
Lemma readOld_spec c b k :
  store_ok c b ->
  exists ov f ts pf pv, readOld (GetRaw b k) = Ret (ov, f, ts, pf, pv) /\
    match ov with
    | None => forall ts v vs, stored b k = (ts, v) :: vs -> v = None
    | Some old => exists raw mv, view b !! k = Some raw /\ raw_ok c raw mv /\
        Flag mv = FlagNormal /\ f = FlagNormal /\ ts = BeginTS mv /\ old = RealVal mv /\
        (pf = FlagNormal \/ pf = FlagTombstone)
    end.
Proof.
  intros Hs. rewrite GetRaw_spec. destruct (view b !! k) as [raw|] eqn:E.
  2: { exists None, 0, 0, 0, None. split; [done|]. unfold stored. by rewrite E. }
  destruct (Hs k raw E) as [mv Hmv]. unfold readOld. rewrite (ro_parse _ _ _ Hmv).
  eexists _, _, _, _, _. split; [reflexivity|].
  destruct (ro_flag _ _ _ Hmv) as [Ef|Ef]; rewrite Ef; cbn.
  - exists raw, mv. pose proof (ro_prevFlag _ _ _ Hmv). naive_solver.
  - intros ts v vs Hst. rewrite (stored_some _ _ _ _ _ E Hmv) in Hst.
    unfold versions, flagged in Hst. rewrite Ef in Hst. cbn in Hst. by injection Hst.
Qed.

Lemma put_buffer_ok c b wb k v ov f ts pf pv :
  buffer_ok c b wb -> store_ok c b -> zlen (nilbytes v) <= 65515 ->
  readOld (GetRaw b k) = Ret (ov, f, ts, pf, pv) ->
  buffer_ok c b (Put wb k v ov f ts pf pv).
Proof.
  intros Hbo Hs Hv Hr. unfold Put. destruct (entries wb !! k) as [ex|] eqn:E.
  - apply buffer_ok_insert; [done| |done|by eapply bo_ordered].
    destruct (bo_entry _ _ _ Hbo k ex E) as [_ Hf Hp Ho]. split; cbn; [done..|].
    destruct (Op ex); [done|done|]. destruct Ho as (raw & mv & ? & ? & ? & ? & Ho).
    rewrite Ho. eauto 10.
  - destruct (readOld_spec c b k Hs) as (ov' & f' & ts' & pf' & pv' & Hr' & Hov).
    rewrite Hr in Hr'. injection Hr' as <- <- <- <- <-.
    apply buffer_ok_insert; [done| |set_solver|set_solver].
    destruct ov as [old|]; cbn.
    + destruct Hov as (raw & mv & ? & ? & ? & -> & -> & -> & ?).
      split; cbn; eauto 10.
    + split; cbn; [done|done|by left|done].
Qed.

Lemma put_entries wb k v ov f ts pf pv k' we :
  entries (Put wb k v ov f ts pf pv) !! k' = Some we ->
  k' = k \/ exists we', entries wb !! k' = Some we'.
Proof.
  unfold Put. destruct (entries wb !! k); cbn; intros Hl; destruct (decide (k' = k)); auto;
    rewrite lookup_insert_ne in Hl by done; eauto.
Qed.

Lemma TxPut_local k v s s' r :
  TxPut k v s = (s', r) -> tx_ok (eng s) (tx s) -> store_ok (tsGen (eng s)) (storage (eng s)) ->
  zlen (nilbytes v) <= 65515 -> local_step s s'.
Proof.
  intros HP Hok Hs Hv. unfold TxPut in HP. unfold checkActive in HP.
  destruct (completed (tx s)) eqn:Hact.
  { assert (s' = s) as ->; [|by apply local_refl].
    unfold mbind, stM_bind in HP. rewrite Hact in HP.
    destruct (writeBuffer (tx s)); by injection HP. }
  rewrite (stM_bind_ret _ _ s s tt) in HP by by rewrite Hact.
  destruct (zlen k =? 0). { injection HP as <- _. by apply local_refl. }
  destruct (acquire k s) as [s1 r1] eqn:HA.
  destruct (acquire_spec k s s1 r1 HA Hok Hact) as (Hnp & Hl & Hwb & Hk).
  destruct r1 as [[]|er|]; [|rewrite (stM_bind_fail _ _ _ _ _ HA) in HP; by injection HP as <- _|done].
  rewrite (stM_bind_ret _ _ _ _ _ HA), stM_bind_get in HP.
  pose proof (ls_eng _ _ Hl) as (l & El & Ell).
  destruct Hok as [_ Hok]. rewrite Hact in Hok. destruct Hok as (wb & Ewb & Hbo & Hheld).
  rewrite El in HP. cbn [storage with_keyLocks] in HP.
  destruct (readOld_spec _ _ k Hs) as (ov & f & ts & pf & pv & Hr & _).
  rewrite Hr, stM_bind_lift in HP.
  rewrite (stM_bind_ret _ _ s1 s1 wb) in HP by (unfold the_buffer; by rewrite Hwb, Ewb).
  unfold setBuffer, modifyS in HP. injection HP as <- _.
  apply setBuffer_local; [done|done|by eapply put_buffer_ok|].
  intros k' we [->|[we' Hwe]]%put_entries; [by apply Hk|].
  apply (ls_held _ _ Hl). by eapply Hheld.
Qed.

Lemma committedDelete_local k raw wb s s1 s' r :
  committedDelete k raw wb s1 = (s', r) -> local_step s s1 -> completed (tx s) = false ->
  store_ok (tsGen (eng s)) (storage (eng s)) -> view (storage (eng s)) !! k = Some raw ->
  buffer_ok (tsGen (eng s)) (storage (eng s)) wb -> entries wb !! k = None ->
  (forall x we, entries wb !! x = Some we -> x ∈ heldLocks (tx s1)) ->
  k ∈ heldLocks (tx s1) -> local_step s s'.
Proof.
  intros HD Hl Hact Hs Eraw Hbo Enone Hheld Hk. unfold committedDelete in HD.
  destruct (Hs k raw Eraw) as [mv Hmv]. rewrite (ro_parse _ _ _ Hmv), stM_bind_lift in HD.
  unfold IsTombstone in HD. destruct (ro_flag _ _ _ Hmv) as [Ef|Ef]; rewrite Ef in HD.
  2: { by injection HD as <- _. }
  change (IsTombstoneFlag FlagNormal) with false in HD. cbv iota in HD.
  unfold bufferDelete, Delete in HD. rewrite Enone in HD. cbn [deepCopy] in HD.
  unfold setBuffer, modifyS, liftS, mbind, stM_bind in HD. injection HD as <- _.
  apply setBuffer_local; [done|done| |].
  - apply buffer_ok_insert; [done| |set_solver|set_solver].
    pose proof (ro_prevFlag _ _ _ Hmv). split; cbn; [done|done|done|]. by exists raw, mv.
  - cbn. intros x we Hx. destruct (decide (x = k)) as [->|]; [done|].
    rewrite lookup_insert_ne in Hx by done. eauto.
Qed.

Lemma TxDelete_local k s s' r :
  TxDelete k s = (s', r) -> tx_ok (eng s) (tx s) -> store_ok (tsGen (eng s)) (storage (eng s)) ->
  local_step s s'.
Proof.
  intros HP Hok Hs. unfold TxDelete in HP. unfold checkActive in HP.
  destruct (completed (tx s)) eqn:Hact.
  { assert (s' = s) as ->; [|by apply local_refl].
    unfold mbind, stM_bind in HP. rewrite Hact in HP.
    destruct (writeBuffer (tx s)); by injection HP. }
  rewrite (stM_bind_ret _ _ s s tt) in HP by by rewrite Hact.
  destruct (zlen k =? 0). { injection HP as <- _. by apply local_refl. }
  destruct (acquire k s) as [s1 r1] eqn:HA.
  destruct (acquire_spec k s s1 r1 HA Hok Hact) as (Hnp & Hl & Hwb & Hk).
  destruct r1 as [[]|er|]; [|rewrite (stM_bind_fail _ _ _ _ _ HA) in HP; by injection HP as <- _|done].
  rewrite (stM_bind_ret _ _ _ _ _ HA) in HP.
  pose proof (ls_eng _ _ Hl) as (l & El & Ell).
  destruct Hok as [_ Hok]. rewrite Hact in Hok. destruct Hok as (wb & Ewb & Hbo & Hheld).
  rewrite (stM_bind_ret _ _ s1 s1 wb) in HP by (unfold the_buffer; by rewrite Hwb, Ewb).
  assert (forall x we, entries wb !! x = Some we -> x ∈ heldLocks (tx s1)) as Hheld1
    by (intros x we Hx; apply (ls_held _ _ Hl); by eapply Hheld).
  specialize (Hk eq_refl). unfold Get in HP. destruct (entries wb !! k) as [ex|] eqn:Ek.
  - destruct (Op ex) eqn:Eop.
    + unfold bufferDelete, Delete, with_entry in HP. cbn [entries ordered] in HP.
      rewrite lookup_insert_eq in HP. cbn [Op] in HP. rewrite decide_True in HP by done.
      rewrite delete_insert_eq in HP.
      unfold setBuffer, modifyS, liftS, mbind, stM_bind in HP. injection HP as <- _.
      apply setBuffer_local; [done|done|by apply buffer_ok_delete|].
      cbn. intros x we Hx. apply lookup_delete_Some in Hx as [_ Hx]. eauto.
    + unfold setBuffer, modifyS in HP. injection HP as <- _. unfold with_entry.
      apply setBuffer_local; [done|done| |].
      * apply buffer_ok_insert; [done| |done|by eapply bo_ordered].
        destruct (bo_entry _ _ _ Hbo k ex Ek) as [_ Hf Hp Ho]. rewrite Eop in Ho.
        by split.
      * cbn. intros x we Hx. destruct (decide (x = k)) as [->|]; [done|].
        rewrite lookup_insert_ne in Hx by done. eauto.
    + by injection HP as <- _.
  - rewrite stM_bind_get, El in HP. cbn [storage with_keyLocks] in HP.
    rewrite GetRaw_spec in HP. destruct (view (storage (eng s)) !! k) as [raw|] eqn:Eraw.
    + by eapply committedDelete_local.
    + by injection HP as <- _.
Qed.

Lemma TxRollback_spec s :
  completed (tx s) = false ->
  exists n, TxRollback s =
    (mkSt (mkTxManager (storage (eng s)) (tsGen (eng s))
             (Unregister (activeTxRegistry (eng s)) (txID (tx s))) (txIDCounter (eng s)) n
             (keyLocks (eng s) ∖ heldLocks (tx s)) (gcStats (eng s)) (wal (eng s))
             (walState (eng s)) (lobState (eng s)))
       (mkSnapshotTx (snapshotTS (tx s)) (txID (tx s)) (isolationLevel (tx s)) None true ∅),
     Ret tt).
Proof.
  intros Hact. unfold TxRollback, checkActive. rewrite Hact.
  unfold mbind, stM_bind. rewrite Hact. unfold modifyS, cleanup.
  cbn [tx set_tx with_writeBuffer completed]. rewrite Hact.
  destruct s as [e t]. cbn in *.
  destruct (decide (isolationLevel t = SnapshotIsolation)); eexists; reflexivity.
Qed.
End steps.

(** ** The system: one engine, many transactions *)

Section system.
Context {B W L : Type} `{SL : StorageLaws B}.
Context (reliable : forall (b : B) ps, exists n, snd (SetBatch b ps) = Ret n).

(** [hist] is ghost state: the committed versions of every key, newest first.
    No operation reads it. *)
Record Sys := mkSys {
  s_eng : txManager B W L;
  s_txs : gmap Z SnapshotTx;
  s_hist : bytes -> list version;
}.

Definition buffered (t : SnapshotTx) (k : bytes) : option WriteEntry :=
  wb ← writeBuffer t; entries wb !! k.

(** The history after [t] committed at [ts]. *)
Definition extend (h : bytes -> list version) (t : SnapshotTx) (ts : Z) (k : bytes)
    : list version :=
  match buffered t k with Some we => (ts, new_value we) :: h k | None => h k end.

Inductive client_op :=
| OpTxPut (k : bytes) (v : option bytes)
| OpTxDelete (k : bytes)
| OpTxRollback.

Definition exec (o : client_op) : stM (St B W L) unit :=
  match o with
  | OpTxPut k v => TxPut k v
  | OpTxDelete k => TxDelete k
  | OpTxRollback => TxRollback
  end.

Definition op_fits (o : client_op) : Prop :=
  match o with OpTxPut _ v => zlen (nilbytes v) <= 65515 | _ => True end.

(** One call of the API by some transaction, whatever it returns.  Reads change
    nothing. *)
Inductive step : Sys -> Sys -> Prop :=
| step_begin e txs h level e' t :
    beginTx level e = (e', Ret t) ->
    step (mkSys e txs h) (mkSys e' (<[txID t := t]> txs) h)
| step_op e txs h id t o e' t' r :
    txs !! id = Some t -> op_fits o ->
    exec o (mkSt e t) = (mkSt e' t', r) ->
    step (mkSys e txs h) (mkSys e' (<[id := t']> txs) h)
| step_commit e txs h id t e' t' r :
    txs !! id = Some t -> completed t = false -> tsGen e < 2 ^ 64 - 1 ->
    TxCommit None None None (mkSt e t) = (mkSt e' t', r) ->
    step (mkSys e txs h) (mkSys e' (<[id := t']> txs) (extend h t (tsGen e'))).

Definition initial (b : B) (w : W) (l : L) : Sys :=
  mkSys (NewTxManager b w l) ∅ (fun _ => []).

Inductive reachable : Sys -> Prop :=
| reach_init b w l : view b = ∅ -> reachable (initial b w l)
| reach_step x y : reachable x -> step x y -> reachable y.

(** What the storage keeps of a history: its newest version and, unless that
    overwrote a deletion, the one before. *)
Inductive trimmed : list version -> list version -> Prop :=
| trimmed_nil : trimmed [] []
| trimmed_one v h :
    (forall ts w h', h = (ts, w) :: h' -> w = None) -> trimmed [v] (v :: h)
| trimmed_two v w h : trimmed [v; w] (v :: w :: h).

Definition newer (x y : version) : Prop := y.1 < x.1.

Record sys_ok (x : Sys) : Prop := {
  ok_wal : wal (s_eng x) = None;
  ok_clock : 0 <= txIDCounter (s_eng x) <= tsGen (s_eng x);
  ok_clock_max : tsGen (s_eng x) < 2 ^ 64;
  ok_store : store_ok (tsGen (s_eng x)) (storage (s_eng x));
  ok_trimmed : forall k, trimmed (stored (storage (s_eng x)) k) (s_hist x k);
  ok_sorted : forall k, StronglySorted newer (s_hist x k);
  ok_bound : forall k, Forall (fun v => 0 < v.1 <= tsGen (s_eng x)) (s_hist x k);
  ok_ids : forall id t, s_txs x !! id = Some t -> id <= txIDCounter (s_eng x) /\ txID t = id;
  ok_txs : forall id t, s_txs x !! id = Some t -> tx_ok (s_eng x) t;
  ok_disjoint : forall i j t u, s_txs x !! i = Some t -> s_txs x !! j = Some u -> i <> j ->
    heldLocks t ## heldLocks u;
}.

Lemma entry_match_mono c c' (b b' : B) k we :
  c <= c' -> view b' !! k = view b !! k -> entry_match c b k we -> entry_match c' b' k we.
Proof.
  intros Hc Hv [H1 H2 H3 H4]. assert (stored b' k = stored b k) as Es
    by (unfold stored; by rewrite Hv).
  split; [done..|]. destruct (Op we); [by rewrite Es| |];
    destruct H4 as (raw & mv & ? & ? & ?); exists raw, mv; rewrite Hv;
    (split; [done|split; [by eapply raw_ok_mono|done]]).
Qed.

Lemma buffer_ok_mono c c' (b b' : B) wb :
  c <= c' -> (forall k we, entries wb !! k = Some we -> view b' !! k = view b !! k) ->
  buffer_ok c b wb -> buffer_ok c' b' wb.
Proof.
  intros Hc Hv [H1 H2]. split; [|done]. intros k we Hk.
  eapply entry_match_mono; [done|by eapply Hv|by apply H1].
Qed.

Lemma store_ok_mono c c' (b : B) : c <= c' -> store_ok c b -> store_ok c' b.
Proof. intros Hc Hs k raw E. destruct (Hs k raw E) as [mv ?]. exists mv. by eapply raw_ok_mono. Qed.

Lemma initial_ok b w l : view b = ∅ -> sys_ok (initial b w l).
Proof.
  intros Hv. split; cbn; try done; try lia.
  - intros k raw E. rewrite Hv, lookup_empty in E. done.
  - intros k. unfold stored. rewrite Hv, lookup_empty. constructor.
  - intros k. constructor.
Qed.

Lemma begin_ok e txs h level e' t :
  sys_ok (mkSys e txs h) -> beginTx level e = (e', Ret t) ->
  sys_ok (mkSys e' (<[txID t := t]> txs) h).
Proof.
  intros [Hw Hc Hm Hs Ht Hso Hb Hi Htx Hd] HB. cbn in *. unfold beginTx, LocalTS_NextTS in HB.
  destruct (Z.eqb_spec (u64 (tsGen e + 1)) 0) as [|Hn]; [done|].
  assert (tsGen e + 1 < 2 ^ 64) as Hlt.
  { destruct (decide (tsGen e + 1 = 2 ^ 64)) as [E|]; [by rewrite E in Hn|lia]. }
  rewrite !u64_id in HB by (unfold is_u64; cbn; lia).
  injection HB as <- <-. cbn [txID txIDCounter with_ts].
  assert (txs !! (txIDCounter e + 1) = None) as Hfresh.
  { destruct (txs !! _) as [u|] eqn:E; [|done]. destruct (Hi _ _ E). lia. }
  split; cbn; try done; try lia.
  - by eapply store_ok_mono; [|exact Hs]; lia.
  - intros k. eapply Forall_impl; [apply Hb|]. simpl. lia.
  - intros id u E. destruct (decide (id = txIDCounter e + 1)) as [->|].
    + rewrite lookup_insert_eq in E. injection E as <-. cbn. lia.
    + rewrite lookup_insert_ne in E by done. destruct (Hi _ _ E). lia.
  - intros id u E. destruct (decide (id = txIDCounter e + 1)) as [->|].
    + rewrite lookup_insert_eq in E. injection E as <-. split; [cbn; set_solver|].
      cbn. exists NewWriteBuffer. split; [done|]. split; [|by intros k we; cbn; rewrite lookup_empty].
      split; intros k we; cbn; by rewrite lookup_empty.
    + rewrite lookup_insert_ne in E by done. destruct (Htx _ _ E) as [? Hu]. split; [done|].
      cbn. destruct (completed u); [done|]. destruct Hu as (wb & ? & ? & ?).
      exists wb. split; [done|]. split; [|done]. eapply buffer_ok_mono; [|done|done]. lia.
  - intros i j u v Ei Ej Hij. destruct (decide (i = txIDCounter e + 1)) as [->|];
      [rewrite lookup_insert_eq in Ei; injection Ei as <-; cbn; set_solver|].
    destruct (decide (j = txIDCounter e + 1)) as [->|];
      [rewrite lookup_insert_eq in Ej; injection Ej as <-; cbn; set_solver|].
    rewrite lookup_insert_ne in Ei, Ej by done. by eapply Hd.
Qed.

Lemma local_step_ok e txs h id t e' t' :
  sys_ok (mkSys e txs h) -> txs !! id = Some t -> local_step (mkSt e t) (mkSt e' t') ->
  sys_ok (mkSys e' (<[id := t']> txs) h).
Proof.
  intros [Hw Hc Hm Hs Ht Hso Hb Hi Htx Hd] Et [[l [El Ell]] (Hc1 & Hc2 & Hc3) Hheld Hfree Hok].
  cbn in *. subst e'. split; cbn; try done.
  - intros i u E. destruct (decide (i = id)) as [->|].
    + rewrite lookup_insert_eq in E. injection E as <-. destruct (Hi _ _ Et). by rewrite Hc3.
    + rewrite lookup_insert_ne in E by done. by apply Hi.
  - intros i u E. destruct (decide (i = id)) as [->|].
    + rewrite lookup_insert_eq in E. by injection E as <-.
    + rewrite lookup_insert_ne in E by done. destruct (Htx _ _ E) as [Hsub Hu].
      split; [|exact Hu]. cbn. set_solver.
  - assert (forall j u, txs !! j = Some u -> j <> id -> heldLocks t' ## heldLocks u) as Hd'.
    { intros j u Ej Hj. intros k Hk Hk'. destruct (Hfree k Hk) as [Hkt|Hkt].
      - by eapply (Hd id j t u).
      - destruct (Htx _ _ Ej) as [Hsub _]. apply Hkt. cbn in Hsub. by apply Hsub. }
    intros i j u v Ei Ej Hij.
    destruct (decide (i = id)) as [->|], (decide (j = id)) as [->|]; try done;
      rewrite ?lookup_insert_eq, ?lookup_insert_ne in Ei by done;
      rewrite ?lookup_insert_eq, ?lookup_insert_ne in Ej by done.
    + injection Ei as <-. by eapply Hd'.
    + injection Ej as <-. symmetry. by eapply Hd'.
    + by eapply Hd.
Qed.

(** A transaction that ends: it drops its locks; the storage may change at keys
    whose locks it held. *)
Lemma finish_ok e txs h h' id t e' t' :
  sys_ok (mkSys e txs h) -> txs !! id = Some t ->
  wal e' = None -> txIDCounter e' = txIDCounter e -> tsGen e <= tsGen e' < 2 ^ 64 ->
  keyLocks e' = keyLocks e ∖ heldLocks t ->
  (forall k, k ∉ heldLocks t -> view (storage e') !! k = view (storage e) !! k) ->
  store_ok (tsGen e') (storage e') -> (forall k, trimmed (stored (storage e') k) (h' k)) ->
  (forall k, StronglySorted newer (h' k)) ->
  (forall k, Forall (fun v => 0 < v.1 <= tsGen e') (h' k)) ->
  completed t' = true -> heldLocks t' = ∅ -> txID t' = txID t ->
  sys_ok (mkSys e' (<[id := t']> txs) h').
Proof.
  intros [Hw Hc Hm Hs Ht Hso Hb Hi Htx Hd] Et Hw' Hid Hclk Hkl Hview Hs' Htr' Hso' Hb' Hcomp Hheld Htid.
  cbn in *. split; cbn; try done; try lia.
  - intros i u E. destruct (decide (i = id)) as [->|].
    + rewrite lookup_insert_eq in E. injection E as <-. destruct (Hi _ _ Et). by rewrite Htid, Hid.
    + rewrite lookup_insert_ne in E by done. rewrite Hid. by apply Hi.
  - intros i u E. destruct (decide (i = id)) as [->|].
    + rewrite lookup_insert_eq in E. injection E as <-. split; [set_solver|]. by rewrite Hcomp.
    + rewrite lookup_insert_ne in E by done. destruct (Htx _ _ E) as [Hsub Hu].
      assert (heldLocks u ## heldLocks t) as Hdis by by eapply Hd.
      split; [rewrite Hkl; set_solver|]. destruct (completed u); [done|].
      destruct Hu as (wb & ? & Hbo & Hk). exists wb. split; [done|]. split; [|done].
      eapply buffer_ok_mono; [|intros k we Hkw; apply Hview|exact Hbo]; [lia|].
      specialize (Hk k we Hkw). set_solver.
  - intros i j u v Ei Ej Hij.
    destruct (decide (i = id)) as [->|], (decide (j = id)) as [->|]; try done;
      rewrite ?lookup_insert_eq, ?lookup_insert_ne in Ei by done;
      rewrite ?lookup_insert_eq, ?lookup_insert_ne in Ej by done.
    + injection Ei as <-. rewrite Hheld. set_solver.
    + injection Ej as <-. rewrite Hheld. set_solver.
    + by eapply Hd.
Qed.

Lemma op_ok e txs h id t o e' t' r :
  sys_ok (mkSys e txs h) -> txs !! id = Some t -> op_fits o ->
  exec o (mkSt e t) = (mkSt e' t', r) -> sys_ok (mkSys e' (<[id := t']> txs) h).
Proof.
  intros Hok Et Hfit HE. pose proof (ok_txs _ Hok id t Et) as Htx. pose proof (ok_store _ Hok) as Hs.
  cbn in Htx, Hs. destruct o as [k v|k|]; cbn in HE.
  - eapply local_step_ok; [done|done|]. by eapply TxPut_local.
  - eapply local_step_ok; [done|done|]. by eapply TxDelete_local.
  - destruct (completed t) eqn:Hact.
    + unfold TxRollback in HE. cbn [tx] in HE. rewrite Hact in HE. injection HE as <- <- _.
      by rewrite insert_id.
    + destruct (TxRollback_spec (mkSt e t) Hact) as [n HR]. rewrite HR in HE. cbn in HE.
      injection HE as <- <- _. pose proof Hok as [Hw Hc Hm _ Htr Hso Hb _ _ _].
      cbn in *. eapply finish_ok; cbn; eauto; lia.
Qed.

Lemma trimmed_installed we ts old h :
  (Op we = OpInsert -> forall ts v vs, old = (ts, v) :: vs -> v = None) ->
  (Op we <> OpInsert -> old <> []) ->
  trimmed old h -> trimmed (installed ts we old) ((ts, new_value we) :: h).
Proof.
  intros Hins Hupd Htr. unfold installed. case_decide as Ho.
  - constructor. specialize (Hins Ho). intros ts' w h' ->. inversion Htr; subst; by eapply Hins.
  - specialize (Hupd Ho). inversion Htr; subst; [done|..]; constructor.
Qed.

Lemma commit_ok e txs h id t e' t' r :
  sys_ok (mkSys e txs h) -> txs !! id = Some t -> completed t = false ->
  tsGen e < 2 ^ 64 - 1 -> TxCommit None None None (mkSt e t) = (mkSt e' t', r) ->
  r = Ret tt /\ sys_ok (mkSys e' (<[id := t']> txs) (extend h t (tsGen e'))).
Proof.
  intros Hok Et Hact Hmax HC. pose proof Hok as [Hw Hc Hm Hs Htr Hso Hb _ Htx _]. cbn in *.
  destruct (Htx id t Et) as [Hsub Hbuf]. rewrite Hact in Hbuf.
  destruct Hbuf as (wb & Ewb & Hbo & Hheld).
  destruct (commit_plain reliable (mkSt e t) (tsGen e) wb) as (b' & HCC & Hview); [done..|cbn; lia|].
  rewrite HCC in HC. cbn in HC. injection HC as <- <- <-. split; [done|].
  assert (forall k, buffered t k = entries wb !! k) as Ebuf
    by (intros k; unfold buffered; by rewrite Ewb).
  assert (forall k we, entries wb !! k = Some we -> exists mv,
    raw_ok (tsGen e + 1) (encoded we (tsGen e + 1)) mv /\
    versions mv = installed (tsGen e + 1) we (stored (storage e) k)) as Henc.
  { intros k we Hk. apply (parse_encoded (tsGen e)); [by eapply bo_entry|lia|lia]. }
  cbn [eng storage tsGen] in Hview. unfold commit_view in Hview.
  eapply finish_ok; cbn [storage tsGen wal txIDCounter keyLocks completed heldLocks txID]; eauto; try lia.
  - intros k Hk. rewrite Hview. destruct (entries wb !! k) as [we|] eqn:E; [|done].
    destruct Hk. by eapply Hheld.
  - intros k raw. rewrite Hview. destruct (entries wb !! k) as [we|] eqn:E.
    + intros [= <-]. destruct (Henc k we E) as (mv & ? & _). eauto.
    + intros Er. destruct (Hs k raw Er) as [mv ?]. exists mv. eapply raw_ok_mono; [|done]. lia.
  - intros k. unfold extend. rewrite Ebuf. unfold stored. rewrite Hview.
    destruct (entries wb !! k) as [we|] eqn:E; [|apply Htr].
    destruct (Henc k we E) as (mv & Hr & Hv). rewrite (ro_parse _ _ _ Hr), Hv.
    destruct (bo_entry _ _ _ Hbo k we E) as [_ _ _ Ho].
    apply trimmed_installed; [| |apply Htr].
    + intros Eo. rewrite Eo in Ho. apply Ho.
    + intros Eo. destruct (Op we); [done| |];
        destruct Ho as (raw & mv0 & Hraw & Hr0 & _);
        rewrite (stored_some _ _ _ _ _ Hraw Hr0); done.
  - intros k. unfold extend. rewrite Ebuf. destruct (entries wb !! k); [|apply Hso].
    constructor; [apply Hso|]. eapply Forall_impl; [apply Hb|]. unfold newer. simpl. lia.
  - intros k. unfold extend. rewrite Ebuf.
    assert (Forall (fun v : version => 0 < v.1 <= tsGen e + 1) (h k)) as Hbk
      by (eapply Forall_impl; [apply Hb|]; simpl; lia).
    destruct (entries wb !! k); [|done]. constructor; [cbn; lia|done].
Qed.

Lemma reachable_ok x : reachable x -> sys_ok x.
Proof.
  induction 1 as [b w l Hv|x y _ IH Hst]; [by apply initial_ok|].
  destruct Hst.
  - by eapply begin_ok.
  - by eapply op_ok.
  - by eapply commit_ok.
Qed.
End system.

(** ** The guarantees *)

Section guarantees.
Context {B W L : Type} `{SL : StorageLaws B}.
Context (reliable : forall (b : B) ps, exists n, snd (SetBatch b ps) = Ret n).
Implicit Types (x : Sys (B:=B) (W:=W) (L:=L)).

Definition newer_count (snap : Z) (h : list version) : nat :=
  length (filter (fun v : version => snap < v.1) h).

Lemma newer_none snap (h : list version) v :
  StronglySorted newer (v :: h) -> v.1 <= snap -> newer_count snap (v :: h) = 0%nat.
Proof.
  intros Hs Hle. unfold newer_count. apply length_zero_iff_nil, elem_of_nil_inv.
  intros y Hin. apply list_elem_of_filter in Hin as [Hy Hin].
  inversion Hs as [|?? _ Hall]; subst. apply elem_of_cons in Hin as [->|Hin]; [lia|].
  rewrite Forall_forall in Hall. specialize (Hall y Hin). unfold newer in Hall. lia.
Qed.

Lemma newer_cons snap (h : list version) v :
  snap < v.1 -> newer_count snap (v :: h) = S (newer_count snap h).
Proof. intros. unfold newer_count. by rewrite filter_cons_True by done. Qed.

(** Reading the trimmed history of a key. *)
Lemma read_trimmed snap st h :
  trimmed st h -> StronglySorted newer h ->
  read_at snap st = if decide (newer_count snap h <= 1)%nat then read_at snap h else None.
Proof.
  intros [|[ts v] h' Hh|[ts v] [us w] h'] Hs; cbn [read_at].
  - by case_decide.
  - destruct (Z.leb_spec ts snap).
    { rewrite decide_True; [done|]. rewrite newer_none by done. lia. }
    rewrite newer_cons by done. case_decide as Hc; [|done].
    destruct h' as [|[us w] h']; [done|]. cbn [read_at].
    destruct (Z.leb_spec us snap); [by rewrite (Hh us w h' eq_refl)|].
    rewrite newer_cons in Hc by done. lia.
  - destruct (Z.leb_spec ts snap).
    { rewrite decide_True; [done|]. rewrite newer_none by done. lia. }
    rewrite newer_cons by done. inversion Hs; subst.
    destruct (Z.leb_spec us snap).
    { rewrite newer_none by done. by rewrite decide_True by lia. }
    rewrite newer_cons by done. by rewrite decide_False by lia.
Qed.

Lemma TxGet_committed k (s : St B W L) :
  completed (tx s) = false -> buffered (tx s) k = None -> k <> [] ->
  is_Some (writeBuffer (tx s)) -> TxGet None None k s = snapshotGet None None k s.
Proof.
  intros Hact Hb Hk [wb Ewb]. unfold TxGet, checkActive, the_buffer.
  rewrite (stM_bind_ret _ _ s s tt) by by rewrite Hact.
  rewrite (proj2 (Z.eqb_neq (zlen k) 0)) by (destruct k; [done|rewrite zlen_cons; pose proof (zlen_nonneg k); lia]).
  rewrite (stM_bind_ret _ _ s s wb) by by rewrite Ewb.
  unfold buffered in Hb. rewrite Ewb in Hb. cbn in Hb. unfold Get. by rewrite Hb.
Qed.


(** C32: writers exclude each other: in every reachable state no two running
    transactions have a buffered write of the same key. *)
Theorem writers_exclusive x i j t u k :
  reachable x -> s_txs x !! i = Some t -> s_txs x !! j = Some u -> i <> j ->
  completed t = false -> completed u = false ->
  buffered t k = None \/ buffered u k = None.
Proof.
  intros Hr Ei Ej Hij Ht Hu. pose proof (reachable_ok reliable x Hr) as Hok.
  destruct (ok_txs _ Hok i t Ei) as [_ Hwt]. destruct (ok_txs _ Hok j u Ej) as [_ Hwu].
  rewrite Ht in Hwt. rewrite Hu in Hwu.
  destruct Hwt as (wb & E1 & _ & H1). destruct Hwu as (wc & E2 & _ & H2).
  unfold buffered. rewrite E1, E2. cbn.
  destruct (entries wb !! k) as [w1|] eqn:Ek1; [|by left].
  destruct (entries wc !! k) as [w2|] eqn:Ek2; [|by right].
  destruct (ok_disjoint _ Hok i j t u Ei Ej Hij k); eauto.
Qed.

(** Commits of the in-memory engine never fail: there is no write-write
    conflict check, so a transaction whose keys were overwritten by others
    after its snapshot commits over them (lost update); and the transaction,
    once committed, answers that it was rolled back. *)
Theorem commit_never_conflicts x id t :
  reachable x -> s_txs x !! id = Some t -> completed t = false ->
  tsGen (s_eng x) < 2 ^ 64 - 1 ->
  exists e' t', TxCommit None None None (mkSt (s_eng x) t) = (mkSt e' t', Ret tt) /\
    (forall k we, buffered t k = Some we ->
      exists vs, stored (storage e') k = (tsGen (s_eng x) + 1, new_value we) :: vs) /\
    forall k, snd (TxGet None None k (mkSt e' t')) = Fail (Sentinel ErrMVCCTxRolledBack).
Proof.
  intros Hr Et Hact Hmax. pose proof (reachable_ok reliable x Hr) as Hok.
  destruct (ok_txs _ Hok id t Et) as [_ Hwb]. rewrite Hact in Hwb.
  destruct Hwb as (wb & Ewb & Hbo & _). pose proof (ok_clock _ Hok).
  destruct (commit_plain reliable (mkSt (s_eng x) t) (tsGen (s_eng x)) wb)
    as (b' & HC & Hv); [done..|apply (ok_wal _ Hok)|done|cbn; lia|].
  eexists _, _. split; [exact HC|]. split; [|reflexivity].
  intros k we Hk. unfold buffered in Hk. rewrite Ewb in Hk. cbn in Hk.
  cbn [storage committed]. unfold stored. rewrite Hv. unfold commit_view. rewrite Hk.
  destruct (parse_encoded (tsGen (s_eng x)) (storage (s_eng x)) k we (tsGen (s_eng x) + 1))
    as (mv & Hr' & Hv'); [by eapply bo_entry|lia|lia|].
  cbn [eng tsGen]. rewrite (ro_parse _ _ _ Hr'), Hv'. unfold installed. eauto.
Qed.

(** ** Batch reads *)

(** GetBatch reports a missing key, and a key with an error, as nil. *)
Definition got (r : outcome (option bytes)) : option bytes :=
  match r with Ret o => o | _ => None end.

Lemma batchVisible_got c (e : txManager B W L) t k :
  store_ok c (storage e) ->
  batchVisible None None (snapshotTS t) (view (storage e) !! k) (lobState e) =
  Ret (got (snd (snapshotGet None None k (mkSt e t)))).
Proof.
  intros Hs. unfold snapshotGet. cbn [snd eng tx]. rewrite GetRaw_spec. unfold batchVisible.
  destruct (view (storage e) !! k) as [raw|] eqn:E; [|done].
  destruct (Hs k raw E) as [mv Hmv]. rewrite bind_ret, (DecodeValue_inline _ _ _ _ Hmv), bind_ret.
  destruct (BeginTS mv <=? snapshotTS t); [by destruct (IsTombstone mv)|].
  destruct (_ && _); [|done]. destruct (IsTombstoneFlag (PrevFlag mv)) eqn:Et; [done|].
  destruct (ro_prevFlag _ _ _ Hmv) as [Ef|Ef]; rewrite Ef in *; done.
Qed.

(** A batch read agrees with single reads: in every reachable state
    GetBatch returns, for each key, what Get returns for it, with a missing
    key reported as nil. *)
Theorem getbatch_agrees x id t keys :
  reachable x -> s_txs x !! id = Some t -> completed t = false -> Forall (fun k => k <> []) keys ->
  TxGetBatch None None keys (mkSt (s_eng x) t) =
  (mkSt (s_eng x) t,
   Ret (map (fun k => got (snd (TxGet None None k (mkSt (s_eng x) t)))) keys)).
Proof.
  intros Hr Et Hact Hk. pose proof (reachable_ok reliable x Hr) as Hok.
  destruct (ok_txs _ Hok id t Et) as [_ Hwb]. rewrite Hact in Hwb.
  destruct Hwb as (wb & Ewb & _). set (s := mkSt (s_eng x) t).
  assert (forall keys, Forall (fun k => k <> []) keys -> exists rs ks,
    bufferFilter wb keys = Ret (rs, ks) /\
    fillHoles None None (snapshotTS t) (lobState (s_eng x)) rs
      (map (fun k => view (storage (s_eng x)) !! k) ks) =
    Ret (map (fun k => got (snd (TxGet None None k s))) keys)) as Hfill.
  { clear Hk keys. induction 1 as [|k keys Hk _ (rs & ks & E1 & E2)]; [by exists [], []|].
    cbn [bufferFilter]. rewrite (proj2 (Z.eqb_neq (zlen k) 0))
      by (destruct k; [done|rewrite zlen_cons; pose proof (zlen_nonneg k); lia]).
    rewrite E1, bind_ret. unfold Get. destruct (entries wb !! k) as [we|] eqn:Ek.
    - eexists _, _. split; [reflexivity|]. cbn [fillHoles fst snd map]. rewrite E2, bind_ret.
      do 2 f_equal. unfold TxGet, checkActive, the_buffer. unfold s.
      rewrite (stM_bind_ret _ _ (mkSt (s_eng x) t) (mkSt (s_eng x) t) tt) by (cbn; by rewrite Hact).
      rewrite (proj2 (Z.eqb_neq (zlen k) 0))
        by (destruct k; [done|rewrite zlen_cons; pose proof (zlen_nonneg k); lia]).
      rewrite (stM_bind_ret _ _ (mkSt (s_eng x) t) (mkSt (s_eng x) t) wb) by (cbn; by rewrite Ewb).
      unfold Get. rewrite Ek. by case_decide.
    - eexists _, _. split; [reflexivity|]. cbn [fillHoles fst snd map].
      rewrite (batchVisible_got _ (s_eng x) t k (ok_store _ Hok)), bind_ret, E2, bind_ret.
      rewrite (TxGet_committed k s); [done|done| |done|by exists wb].
      unfold buffered. cbn. by rewrite Ewb. }
  destruct (Hfill keys Hk) as (rs & ks & E1 & E2).
  unfold TxGetBatch, checkActive, the_buffer.
  rewrite (stM_bind_ret _ _ s s tt) by (cbn; by rewrite Hact).
  rewrite (stM_bind_ret _ _ s s wb) by (cbn; by rewrite Ewb).
  rewrite E1, stM_bind_lift. unfold batchRead. cbn [fst snd tx eng s].
  destruct (bool_decide (ks = [])) eqn:Eks.
  - apply bool_decide_eq_true in Eks as ->. by rewrite <- E2.
  - by rewrite GetBatchRaw_spec, bind_ret, E2.
Qed.
End guarantees.

(** ** A backend in memory, and concrete runs *)

#[export] Instance map_backend : StorageBackend (gmap bytes bytes) := {
  GetRaw m k := match m !! k with Some v => Ret v | None => Fail (Sentinel ErrMVCCKeyNotFound) end;
  SetRaw m k v := (<[k := v]> m, Ret tt);
  SetBatch m ps := (foldl (fun m p => <[p.1 := p.2]> m) m ps, Ret (zlen ps));
  GetBatchRaw m ks := Ret (map (fun k => m !! k) ks);
}.

Lemma foldl_insert_other (ps : list (bytes * bytes)) (m : gmap bytes bytes) j :
  j ∉ map fst ps -> foldl (fun m p => <[p.1 := p.2]> m) m ps !! j = m !! j.
Proof.
  revert m. induction ps as [|[k v] ps IH]; intros m Hj; [done|].
  cbn [map fst] in Hj. apply not_elem_of_cons in Hj as [Hne Hj]. cbn [foldl fst snd].
  rewrite IH by done. by rewrite lookup_insert_ne.
Qed.

(** A written key holds one of the values written to it. *)
Lemma foldl_insert_last (ps : list (bytes * bytes)) (m : gmap bytes bytes) j :
  j ∈ map fst ps ->
  exists v, (j, v) ∈ ps /\ foldl (fun m p => <[p.1 := p.2]> m) m ps !! j = Some v.
Proof.
  revert m. induction ps as [|[k v] ps IH]; intros m Hj; [by apply elem_of_nil in Hj|].
  cbn [map fst] in Hj. cbn [foldl fst snd]. destruct (decide (j ∈ map fst ps)) as [Hin|Hout].
  - destruct (IH (<[k := v]> m) Hin) as (w & ? & ?). exists w. split; [by right|done].
  - apply elem_of_cons in Hj as [->|]; [|done]. exists v. split; [by left|].
    rewrite foldl_insert_other by done. apply lookup_insert_eq.
Qed.

#[export] Program Instance map_laws : StorageLaws (gmap bytes bytes) := { view m := m }.
Next Obligation. done. Qed.
Next Obligation.
  intros m k v m' r [= <- <-]. split; [done|]. split; [done|].
  intros j Hj. by rewrite lookup_insert_ne.
Qed.
Next Obligation.
  intros m ps m' r [= <- <-]. split; [done|]. split; [done|]. split; [intros j; apply foldl_insert_other|].
  intros j. destruct (decide (j ∈ map fst ps)) as [Hin|]; [right|left; by apply foldl_insert_other].
  by apply foldl_insert_last.
Qed.
Next Obligation. done. Qed.

Lemma map_reliable (m : gmap bytes bytes) ps : exists n, snd (SetBatch m ps) = Ret n.
Proof. by eexists. Qed.

Section runs.
Abbreviation MSys := (Sys (B:=gmap bytes bytes) (W:=unit) (L:=unit)).

Definition run_begin (x : MSys) : MSys :=
  match beginTx SnapshotIsolation (s_eng x) with
  | (e', Ret t) => mkSys e' (<[txID t := t]> (s_txs x)) (s_hist x)
  | _ => x
  end.
Definition run_op (id : Z) (o : client_op) (x : MSys) : MSys :=
  match s_txs x !! id with
  | Some t => let '(s', r) := exec o (mkSt (s_eng x) t) in
              mkSys (eng s') (<[id := tx s']> (s_txs x)) (s_hist x)
  | None => x
  end.
Definition run_commit (id : Z) (x : MSys) : MSys :=
  match s_txs x !! id with
  | Some t =>
      if completed t then x else if 2 ^ 64 - 1 <=? tsGen (s_eng x) then x else
      let '(s', r) := TxCommit None None None (mkSt (s_eng x) t) in
      mkSys (eng s') (<[id := tx s']> (s_txs x)) (extend (s_hist x) t (tsGen (eng s')))
  | None => x
  end.

Lemma run_begin_reachable x : reachable x -> reachable (run_begin x).
Proof.
  intros Hr. unfold run_begin. destruct (beginTx _ _) as [e' [t|e|]] eqn:E; try done.
  destruct x. by eapply reach_step, step_begin.
Qed.
Lemma run_op_reachable id o x : op_fits o -> reachable x -> reachable (run_op id o x).
Proof.
  intros Hf Hr. unfold run_op. destruct (s_txs x !! id) as [t|] eqn:E; [|done].
  destruct (exec o _) as [[e' t'] r] eqn:EX. destruct x. by eapply reach_step, step_op.
Qed.
Lemma run_commit_reachable id x : reachable x -> reachable (run_commit id x).
Proof.
  intros Hr. unfold run_commit. destruct (s_txs x !! id) as [t|] eqn:E; [|done].
  destruct (completed t) eqn:Ec; [done|].
  destruct (Z.leb_spec (2 ^ 64 - 1) (tsGen (s_eng x))); [done|].
  destruct (TxCommit None None None _) as [[e' t'] r] eqn:EX.
  destruct x. by eapply reach_step, step_commit.
Qed.

(** Transactions 1 and 2 begin; 1 commits [a = 1]; 3 begins, commits [a = 2]. *)
Definition two_commits : MSys :=
  run_commit 3 (run_op 3 (OpTxPut [97] (Some [2]))
    (run_begin (run_commit 1 (run_op 1 (OpTxPut [97] (Some [1]))
      (run_begin (run_begin (initial ∅ tt tt))))))).

Lemma two_commits_reachable : reachable two_commits.
Proof.
  apply run_commit_reachable, run_op_reachable; [by cbn|].
  apply run_begin_reachable, run_commit_reachable, run_op_reachable; [by cbn|].
  by apply run_begin_reachable, run_begin_reachable, reach_init.
Qed.

(** A reader that began between the two commits, and one before both. *)
Definition reader (snap : Z) : SnapshotTx :=
  mkSnapshotTx snap 2 SnapshotIsolation (Some NewWriteBuffer) false ∅.

Lemma two_commits_tx2 : s_txs two_commits !! 2 = Some (reader 2).
Proof. vm_compute. reflexivity. Qed.

Lemma two_commits_hist : s_hist two_commits [97] = [(5, Some [2]); (3, Some [1])].
Proof. vm_compute. reflexivity. Qed.
End runs.


(** Transactions 1 and 2 run; 1 writes [a], then 2 tries to. *)
Definition two_writers : Sys :=
  run_op 2 (OpTxPut [97] (Some [2])) (run_op 1 (OpTxPut [97] (Some [1]))
    (run_begin (run_begin (initial ∅ tt tt)))).

Lemma two_writers_reachable : reachable two_writers.
Proof.
  apply run_op_reachable; [by cbn|]. apply run_op_reachable; [by cbn|].
  by apply run_begin_reachable, run_begin_reachable, reach_init.
Qed.

Definition writer1 : SnapshotTx :=
  default (reader 0) (s_txs two_writers !! 1).

Lemma writers_exclusive_witness :
  buffered writer1 [97] = None \/ buffered (reader 2) [97] = None.
Proof.
  apply (writers_exclusive map_reliable two_writers 1 2 writer1 (reader 2) [97]).
  - exact two_writers_reachable.
  - vm_compute. reflexivity.
  - vm_compute. reflexivity.
  - discriminate.
  - vm_compute. reflexivity.
  - reflexivity.
Defined.

(** Transaction 2 read [a] in its snapshot, 3 overwrote it, and 2 still commits. *)
Definition lost_update : Sys :=
  run_op 2 (OpTxPut [97] (Some [9])) two_commits.

Definition writer2 : SnapshotTx := default (reader 0) (s_txs lost_update !! 2).

Lemma commit_never_conflicts_witness :
  exists e' t', TxCommit None None None (mkSt (s_eng lost_update) writer2) = (mkSt e' t', Ret tt) /\
    (forall k we, buffered writer2 k = Some we ->
      exists vs, stored (storage e') k = (6, new_value we) :: vs) /\
    forall k, snd (TxGet None None k (mkSt e' t')) = Fail (Sentinel ErrMVCCTxRolledBack).
Proof.
  apply (commit_never_conflicts map_reliable lost_update 2 writer2).
  - apply run_op_reachable; [by cbn|]. exact two_commits_reachable.
  - vm_compute. reflexivity.
  - vm_compute. reflexivity.
  - vm_compute. reflexivity.
Defined.

Lemma getbatch_agrees_witness :
  TxGetBatch None None [[97]; [98]] (mkSt (s_eng two_commits) (reader 2)) =
  (mkSt (s_eng two_commits) (reader 2), Ret [None; None]).
Proof.
  rewrite (getbatch_agrees map_reliable two_commits 2 (reader 2) [[97]; [98]]).
  - reflexivity.
  - exact two_commits_reachable.
  - exact two_commits_tx2.
  - reflexivity.
  - repeat constructor; discriminate.
Defined.
