(* ===== verification/TxFailure.v ===== *)
(** * Commits that fail (mvcc/transaction.go: applyWriteBuffer, rollbackApplied)

    When the batch write fails half-way, or a WAL record cannot be written after
    the batch, the engine walks its undo list.  The theorem: the latest committed
    value of every key is what it was; what is lost is the older version that
    each touched key embedded. *)

From stdpp Require Import base list gmap strings sorting.
From Stdlib Require Import ZArith Lia.
From S2P Require Import Prelude MvccCodec WalFormat WriteBuffer TxManager SnapshotIsolation.

Local Open Scope Z_scope.

Lemma elem_of_rev {A} (x : A) l : x ∈ rev l <-> x ∈ l.
Proof. rewrite !list_elem_of_In. symmetry. apply in_rev. Qed.

Section failure.
Context {B W L : Type} `{SL : StorageLaws B}.
Context (set_ok : forall (b : B) k v, snd (SetRaw b k v) = Ret tt).
Implicit Types (s : St B W L) (b : B).

(** The latest committed value of a key. *)
Definition latest b (k : bytes) : option bytes :=
  match stored b k with (_, v) :: _ => v | [] => None end.

(** What an undo entry writes back. *)
Definition restored (e : WriteEntry) (ts : Z) : bytes :=
  if decide (Op e = OpInsert) then mvcc_wire FlagTombstone ts [] 0 0 []
  else mvcc_wire FlagNormal (OldBeginTS e) (nilbytes (OldValue e)) 0 0 [].

Lemma restored_parse c b k e ts :
  entry_match c b k e -> 0 < ts < 2 ^ 64 -> c < ts ->
  exists mv, raw_ok ts (restored e ts) mv /\
    BeginTS mv = (if decide (Op e = OpInsert) then ts else OldBeginTS e) /\
    versions mv = [(BeginTS mv, latest b k)].
Proof.
  intros [_ _ _ Hold] Hts Hc. unfold restored.
  assert (forall flag t v, flag = FlagNormal \/ flag = FlagTombstone -> 0 < t < 2 ^ 64 ->
    t <= ts -> zlen v <= 65515 -> exists mv, raw_ok ts (mvcc_wire flag t v 0 0 []) mv /\
    BeginTS mv = t /\ versions mv = [(t, flagged flag v)]) as Hw.
  { intros flag t v Hf Ht Hle Hv.
    assert (isValidFlag flag = true) as Hvf by (by destruct Hf as [-> | ->]).
    assert (parseLOB flag v = Ret (None, None)) as Hlob by (by destruct Hf as [-> | ->]).
    assert (prev_fits 0 []) as Hfit by (unfold prev_fits, is_u64; done).
    pose proof (BuildMVCC_wire flag t v 0 0 [] Hvf ltac:(lia)) as HB.
    pose proof (parse_of_build _ _ _ _ _ _ _ _ Hvf Ht Hfit Hlob HB) as HP.
    eexists. split; [split; [exact HP|exact Hf|by left|cbn; lia|cbn; lia|exact Hv|done]|].
    done. }
  case_decide as Ho.
  - rewrite Ho in Hold. destruct Hold as (_ & _ & Htomb).
    destruct (Hw FlagTombstone ts [] ltac:(by right) Hts ltac:(lia) ltac:(done)) as (mv & Hr & Eb & Ev).
    exists mv. split; [done|]. split; [done|]. rewrite Ev, Eb. do 2 f_equal.
    unfold latest. destruct (stored b k) as [|[t v] vs] eqn:E; [done|].
    by rewrite (Htomb t v vs eq_refl).
  - assert (exists raw mv, view b !! k = Some raw /\ raw_ok c raw mv /\
        Flag mv = FlagNormal /\ OldBeginTS e = BeginTS mv /\ OldValue e = Some (RealVal mv))
      as (raw & mv0 & Hraw & Hr0 & Hf0 & -> & ->) by (by destruct (Op e)).
    pose proof (ro_ts _ _ _ Hr0). pose proof (ro_size _ _ _ Hr0).
    destruct (Hw FlagNormal (BeginTS mv0) (RealVal mv0) ltac:(by left) ltac:(lia) ltac:(lia)
      ltac:(done)) as (mv & Hr & Eb & Ev).
    exists mv. split; [done|]. split; [done|]. cbn [from_option id]. rewrite Ev, Eb. do 2 f_equal.
    unfold latest. rewrite (stored_some _ _ _ _ _ Hraw Hr0). unfold versions, flagged.
    by rewrite Hf0.
Qed.

Lemma oldRaw_eq c b k e :
  entry_match c b k e ->
  oldRaw e = if decide (Op e = OpInsert) then None
             else Some (mvcc_wire FlagNormal (OldBeginTS e) (nilbytes (OldValue e)) 0 0 []).
Proof.
  intros [_ Hf _ Hold]. unfold oldRaw. case_decide; [done|].
  assert (OldBeginTS e <> 0) as Hn.
  { assert (exists raw mv, view b !! k = Some raw /\ raw_ok c raw mv /\
        Flag mv = FlagNormal /\ OldBeginTS e = BeginTS mv /\ OldValue e = Some (RealVal mv))
      as (raw & mv & _ & Hr & _ & -> & _) by (by destruct (Op e)).
    destruct (ro_ts _ _ _ Hr). lia. }
  by rewrite Hf, BuildMVCC_wire.
Qed.

(** ** One key *)

(** A key during the rollback: untouched, written by the commit, or undone. *)
Definition cell b0 (ts : Z) (k : bytes) (e : WriteEntry) (x : option bytes) : Prop :=
  x = view b0 !! k \/ x = Some (encoded e ts) \/ x = Some (restored e ts).
Definition undone b0 (ts : Z) (k : bytes) (e : WriteEntry) (x : option bytes) : Prop :=
  x = view b0 !! k \/ x = Some (restored e ts).

Lemma rollbackBody_spec s c b0 k e ts :
  entry_match c b0 k e -> store_ok c b0 -> 0 < ts < 2 ^ 64 -> c < ts ->
  cell b0 ts k e (view (storage (eng s)) !! k) ->
  exists b', rollbackBody None (undo_of ts (k, e)) s = (set_eng (with_storage b') s, Ret tt) /\
    undone b0 ts k e (view b' !! k) /\
    forall j, j <> k -> view b' !! j = view (storage (eng s)) !! j.
Proof.
  intros Hm Hs Hts Hc Hcell.
  assert (set_eng (with_storage (storage (eng s))) s = s) as Hid by (by destruct s as [[] ?]).
  assert (view (storage (eng s)) !! k = view b0 !! k \/ view (storage (eng s)) !! k = Some (restored e ts) ->
    undone b0 ts k e (view (storage (eng s)) !! k)) as Hundone by done.
  unfold rollbackBody. cbn [UKey undo_of fst]. rewrite GetRaw_spec.
  destruct (view (storage (eng s)) !! k) as [cur|] eqn:Ecur.
  2: { rewrite decide_True by done. exists (storage (eng s)). rewrite Hid. split; [done|].
       rewrite Ecur. split; [|done]. destruct Hcell as [E|[?|?]]; [by left|done..]. }
  assert (exists mv, raw_ok ts cur mv /\
    (BeginTS mv <> ts -> undone b0 ts k e (Some cur))) as (mv & Hmv & Hstay).
  { destruct Hcell as [E|[[= ->]|[= ->]]].
    - destruct (Hs k cur (eq_sym E)) as [mv Hmv]. exists mv.
      split; [eapply raw_ok_mono; [|done]; lia|]. by left.
    - destruct (parse_encoded c b0 k e ts Hm Hts Hc) as (mv & Hmv & Hv). exists mv.
      split; [done|]. intros Hne. unfold versions, installed in Hv. by injection Hv.
    - destruct (restored_parse c b0 k e ts Hm Hts Hc) as (mv & Hmv & _). exists mv.
      split; [done|]. by right. }
  rewrite (ro_parse _ _ _ Hmv). cbn [CommitTS undo_of].
  destruct (Z.eqb_spec (BeginTS mv) ts) as [Eb|Eb]; cbn [negb].
  2: { exists (storage (eng s)). rewrite Hid, Ecur. split; [done|]. split; [by apply Hstay|done]. }
  assert (IsLOBFlag (Flag mv) = false) as -> by (by destruct (ro_flag _ _ _ Hmv) as [-> | ->]).
  cbn [OldRawVal undo_of snd]. rewrite (oldRaw_eq c b0 k e Hm).
  assert ((match (if decide (Op e = OpInsert) then None
             else Some (mvcc_wire FlagNormal (OldBeginTS e) (nilbytes (OldValue e)) 0 0 [])) with
    | Some old => Ret old
    | None => BuildMVCC FlagTombstone ts [] 0 0 []
    end) = Ret (restored e ts)) as ->.
  { unfold restored. case_decide; [|done]. by rewrite BuildMVCC_wire by (done || lia). }
  destruct (SetRaw (storage (eng s)) k (restored e ts)) as [b' r] eqn:ES.
  pose proof (set_ok (storage (eng s)) k (restored e ts)) as Hr. rewrite ES in Hr. cbn in Hr. subst r.
  destruct (SetRaw_spec _ _ _ _ _ ES) as (_ & Hv & Hother).
  exists b'. split; [done|]. split; [|done].
  rewrite (Hv eq_refl), lookup_insert_eq. by right.
Qed.

(** ** The whole undo list *)

Lemma rollbackLoop_spec (l : list (bytes * WriteEntry)) s (c : Z) b0
    (m : gmap bytes WriteEntry) (ts : Z) :
  (forall k e, m !! k = Some e -> entry_match c b0 k e) -> store_ok c b0 ->
  0 < ts < 2 ^ 64 -> c < ts ->
  (forall k e, (k, e) ∈ l -> m !! k = Some e /\ k ∈ heldLocks (tx s)) ->
  (forall k e, m !! k = Some e -> cell b0 ts k e (view (storage (eng s)) !! k)) ->
  exists b', rollbackLoop None (map (undo_of ts) l) (Ret tt) s =
      (set_eng (with_storage b') s, Ret tt) /\
    (forall k e, m !! k = Some e -> cell b0 ts k e (view b' !! k)) /\
    (forall k e, (k, e) ∈ l \/ m !! k = Some e /\ undone b0 ts k e (view (storage (eng s)) !! k) ->
       undone b0 ts k e (view b' !! k)) /\
    (forall k, m !! k = None -> view b' !! k = view (storage (eng s)) !! k).
Proof.
  intros Hm Hs Hts Hc. revert s. induction l as [|[k e] l IH]; intros s Hl Hcell.
  { exists (storage (eng s)). split; [by destruct s as [[] ?]|]. split; [done|]. split; [|done].
    intros k e [Hin|[_ Hu]]; [by apply elem_of_nil in Hin|done]. }
  destruct (Hl k e ltac:(by left)) as [Hk Hheld].
  destruct (rollbackBody_spec s c b0 k e ts (Hm k e Hk) Hs Hts Hc (Hcell k e Hk))
    as (b1 & H1 & Hu1 & Ho1).
  set (s1 := set_eng (with_storage b1) s).
  destruct (IH s1) as (b2 & H2 & Hc2 & Hu2 & Hn2).
  { intros k' e' Hin. cbn. apply Hl. by right. }
  { intros k' e' Hk'. cbn. destruct (decide (k' = k)) as [->|Hne].
    - assert (e' = e) as -> by congruence. destruct Hu1 as [->|Hu1]; [by left|by right; right].
    - rewrite Ho1 by done. by apply Hcell. }
  exists b2. split; [|split; [done|split]].
  - cbn [map rollbackLoop]. unfold rollbackOneKey. cbn [UKey undo_of fst].
    rewrite decide_True by done. fold (undo_of ts (k, e)). rewrite H1. cbn [recovered].
    fold s1. rewrite H2. by destruct s.
  - intros k' e' H'. apply Hu2. cbn. destruct (decide (k' = k)) as [->|Hne].
    + assert (e' = e) as ->.
      { destruct H' as [[[= ->]|Hin]%elem_of_cons|[Hk' _]]; [done| |congruence].
        destruct (Hl k e' ltac:(by right)). congruence. }
      by right.
    + destruct H' as [[[= -> _]|Hin]%elem_of_cons|[Hk' Hu']]; [done|by left|].
      right. by rewrite Ho1.
  - intros k' Hk'. rewrite Hn2 by done. apply Ho1. intros ->. congruence.
Qed.

Lemma undone_latest c b0 b ts k e :
  entry_match c b0 k e -> 0 < ts < 2 ^ 64 -> c < ts ->
  undone b0 ts k e (view b !! k) -> latest b k = latest b0 k.
Proof.
  intros Hm Hts Hc [E|E]; unfold latest, stored at 1; rewrite E; [done|].
  destruct (restored_parse c b0 k e ts Hm Hts Hc) as (mv & Hmv & _ & Hv).
  rewrite (ro_parse _ _ _ Hmv), Hv. done.
Qed.

Lemma chosen_entries c b wb k we : buffer_ok c b wb ->
  (k, we) ∈ chosen (entries wb) (SortStrings (OrderedKeys wb)) <-> entries wb !! k = Some we.
Proof.
  intros [_ Hord]. rewrite chosen_in. split; [tauto|]. intros E. split; [|done].
  rewrite SortStrings_perm. by eapply Hord.
Qed.

(** The transaction with its keys in order, as [applyWriteBuffer] leaves it. *)
Definition sorted_tx (wb : WriteBuffer) (ts : Z) (s : St B W L) : St B W L :=
  set_tx (with_writeBuffer (Some (mkWriteBuffer (entries wb) (SortStrings (OrderedKeys wb))))) (set_eng (with_ts ts) s).

Lemma failed_apply s c wb e ts :
  writeBuffer (tx s) = Some wb -> store_ok c (storage (eng s)) -> buffer_ok c (storage (eng s)) wb ->
  (forall k we, entries wb !! k = Some we -> k ∈ heldLocks (tx s)) -> c < ts -> 0 < ts < 2 ^ 64 ->
  (forall ps, snd (SetBatch (storage (eng s)) ps) = Fail e) -> entries wb <> ∅ ->
  exists b2, applyWriteBuffer None None None ts (set_eng (with_ts ts) s) = (set_eng (with_storage b2) (sorted_tx wb ts s), Fail e) /\
    forall k, latest b2 k = latest (storage (eng s)) k.
Proof.
  intros Hwb Hs Hbo Hheld Hc Hts Hfail Hne. set (s1 := sorted_tx wb ts s). pose proof Hbo as [Hm _].
  set (keys := SortStrings (OrderedKeys wb)). set (l := chosen (entries wb) keys).
  set (pairs := map (fun ke : bytes * WriteEntry => (ke.1, encoded ke.2 ts)) l).
  assert (forall k we, (k, we) ∈ l <-> entries wb !! k = Some we) as Hl by (intros k we; by eapply chosen_entries).
  assert (pairs <> []) as Hp.
  { intros E. apply map_eq_nil in E. apply Hne, map_eq. intros k. rewrite lookup_empty.
    destruct (entries wb !! k) as [we|] eqn:Ek; [|done]. apply Hl in Ek. rewrite E in Ek. by apply elem_of_nil in Ek. }
  destruct (SetBatch (storage (eng s)) pairs) as [b1 r1] eqn:ES.
  pose proof (Hfail pairs) as Hr1. rewrite ES in Hr1. cbn in Hr1. subst r1.
  destruct (SetBatch_spec _ _ _ _ ES) as (_ & _ & Hother & Hpart).
  destruct (rollbackLoop_spec (rev l) (set_eng (with_storage b1) s1) c (storage (eng s))
    (entries wb) ts Hm Hs ltac:(lia) ltac:(lia)) as (b2 & H2 & _ & Hu2 & Hn2).
  { intros k we Hin. rewrite <- Hl. rewrite elem_of_rev in Hin. split; [done|]. apply Hl in Hin. cbn. by eapply Hheld. }
  { intros k we Hk. cbn. destruct (Hpart k) as [E|(v & Hin & E)]; [by left|].
    right. left. rewrite E. f_equal. apply list_elem_of_fmap in Hin as ([k' we'] & [= -> ->] & Hin).
    apply Hl in Hin. by assert (we' = we) as -> by congruence. }
  exists b2. split.
  - unfold applyWriteBuffer, the_buffer. erewrite stM_bind_ret; [|cbn [tx set_eng]; rewrite Hwb; reflexivity].
    cbv beta zeta. fold keys. unfold setBuffer. rewrite stM_bind_modify. fold (sorted_tx wb ts s) s1.
    rewrite (stM_bind_ret _ _ _ _ _ (prepareKeys_plain s1 c (storage (eng s)) (entries wb) keys ts [] [] Hm ltac:(lia))).
    cbn [app fst snd]. fold l pairs. unfold batchWrite.
    rewrite bool_decide_eq_false_2 by done. change (storage (eng s1)) with (storage (eng s)).
    rewrite ES. unfold failRollback, rollbackApplied. rewrite <- map_rev. rewrite H2. by destruct s.
  - intros k. destruct (entries wb !! k) as [we|] eqn:Ek.
    + apply (undone_latest c _ _ ts k we); [by apply Hm|lia|lia|]. apply Hu2. left. rewrite elem_of_rev. by apply Hl.
    + unfold latest, stored. rewrite Hn2 by done. cbn [eng set_eng storage with_storage].
      rewrite Hother; [done|]. intros Hin. apply list_elem_of_fmap in Hin as ([k1 v] & -> & Hin).
      apply list_elem_of_fmap in Hin as ([k2 we] & [= -> _] & Hin). apply Hl in Hin. cbn in Ek. congruence.
Qed.

Lemma cleanup_storage (s : St B W L) : storage (eng (cleanup s)) = storage (eng s).
Proof. unfold cleanup. destruct (completed (tx s)); [done|]. by destruct (decide _). Qed.

(** A commit without a log whose write buffer cannot be applied. *)
Lemma commit_fails s s2 e (ts := tsGen (eng s) + 1) :
  completed (tx s) = false -> wal (eng s) = None -> 0 < ts < 2 ^ 64 ->
  applyWriteBuffer None None None ts (set_eng (with_ts ts) s) = (s2, Fail e) ->
  exists s', TxCommit None None None s = (s', Fail e) /\ storage (eng s') = storage (eng s2).
Proof.
  intros Hact Hwal Hts Happ. assert (u64 ts = ts) as Ets by (apply u64_id; unfold is_u64; lia). eexists. split.
  - unfold TxCommit. rewrite Hact. unfold commitBody.
    erewrite stM_bind_ret; [|unfold orCleanup, checkActive; rewrite Hact; reflexivity].
    erewrite stM_bind_ret; [|unfold walPrepare; rewrite stM_bind_get, Hwal; reflexivity].
    erewrite stM_bind_ret; [|unfold NextTS, LocalTS_NextTS; fold ts; rewrite Ets, (proj2 (Z.eqb_neq ts 0)) by lia; reflexivity].
    erewrite stM_bind_fail; [reflexivity|]. unfold orCleanup. rewrite Happ. reflexivity.
  - cbn [eng releaseHeldLocks unregister set_eng with_keyLocks with_registry storage]. apply cleanup_storage.
Qed.

End failure.

(** ** A backend whose batches fail half-way *)

Record FaultyMap := mkFaulty { fm_map : gmap bytes bytes; fm_limit : nat }.

#[export] Instance faulty_backend : StorageBackend FaultyMap := {
  GetRaw b k := match fm_map b !! k with Some v => Ret v | None => Fail (Sentinel ErrMVCCKeyNotFound) end;
  SetRaw b k v := (mkFaulty (<[k := v]> (fm_map b)) (fm_limit b), Ret tt);
  SetBatch b ps :=
    (mkFaulty (foldl (fun m p => <[p.1 := p.2]> m) (fm_map b) (take (fm_limit b) ps)) (fm_limit b),
     Fail (Sentinel OSError));
  GetBatchRaw b ks := Ret (map (fun k => fm_map b !! k) ks);
}.

#[export] Program Instance faulty_laws : StorageLaws FaultyMap := { view := fm_map }.
Next Obligation. done. Qed.
Next Obligation.
  intros m k v m' r [= <- <-]. split; [done|]. split; [done|].
  intros j Hj. cbn. by rewrite lookup_insert_ne.
Qed.
Next Obligation.
  intros m ps m' r [= <- <-]. cbn. split; [done|]. split; [by intros [n ?]|].
  assert (forall j, j ∈ map fst (take (fm_limit m) ps) -> j ∈ map fst ps) as Hsub.
  { intros j Hj. apply list_elem_of_fmap in Hj as (p & -> & Hin).
    apply list_elem_of_fmap_2. by eapply elem_of_take in Hin as (i & Hi & _); eapply list_elem_of_lookup_2. }
  split; [intros j Hj; apply foldl_insert_other; auto|].
  intros j. destruct (decide (j ∈ map fst (take (fm_limit m) ps))) as [Hin|];
    [right|left; by apply foldl_insert_other].
  destruct (foldl_insert_last _ (fm_map m) j Hin) as (v & Hv & E). exists v. split; [|done].
  by eapply elem_of_take in Hv as (i & Hi & _); eapply list_elem_of_lookup_2.
Qed.
Next Obligation. done. Qed.

(** Key [a] holds [1]; the transaction updates [a] and inserts [b], and the batch
    fails after the first pair. *)
Definition raw_a : bytes := mvcc_wire FlagNormal 3 [1] 0 0 [].
Definition half_commit : St FaultyMap unit unit :=
  mkSt (mkTxManager (mkFaulty {[[97] := raw_a]} 1) 4
          (mkRegistry {[2 := 4]} ∅) 2 1 {[[97]; [98]]} (mkGCStats 0 0 0) None tt tt)
    (mkSnapshotTx 4 2 SnapshotIsolation
       (Some (Put (Put NewWriteBuffer [97] (Some [7]) (Some [1]) 0 3 0 None)
                [98] (Some [8]) None 0 0 0 None)) false {[[97]; [98]]}).

Lemma raw_a_ok : raw_ok 4 raw_a (mkMVCCValue 0 3 [1] 0 0 None None None).
Proof. split; [vm_compute; reflexivity|by left|by left|cbn; lia|cbn; lia|done|done]. Qed.

Lemma half_commit_store : store_ok 4 (storage (eng half_commit)).
Proof.
  intros k raw Hk. cbn in Hk. apply lookup_singleton_Some in Hk as [_ <-].
  eexists. exact raw_a_ok.
Qed.

Definition half_buffer : WriteBuffer := default NewWriteBuffer (writeBuffer (tx half_commit)).

Lemma half_buffer_entries k we :
  entries half_buffer !! k = Some we ->
  k = [98] /\ we = mkWriteEntry OpInsert (Some [8]) None 0 0 0 None \/
  k = [97] /\ we = mkWriteEntry OpUpdate (Some [7]) (Some [1]) 0 3 0 None.
Proof.
  change (entries half_buffer) with
    (<[[98] := mkWriteEntry OpInsert (Some [8]) None 0 0 0 None]>
      (<[[97] := mkWriteEntry OpUpdate (Some [7]) (Some [1]) 0 3 0 None]> (∅ : gmap bytes WriteEntry))).
  rewrite !lookup_insert_Some, lookup_empty. naive_solver.
Qed.

Lemma half_buffer_ok : buffer_ok 4 (storage (eng half_commit)) half_buffer.
Proof.
  split; intros k we Hk; apply half_buffer_entries in Hk as [[-> ->]|[-> ->]].
  - split; [cbn; unfold zlen; cbn; lia|done|by left|]. cbn. done.
  - split; [cbn; unfold zlen; cbn; lia|done|by left|]. cbn.
    exists raw_a. eexists. split; [reflexivity|]. split; [exact raw_a_ok|done].
  - cbn. set_solver.
  - cbn. set_solver.
Qed.

Lemma faulty_set_ok (b : FaultyMap) k v : snd (SetRaw b k v) = Ret tt.
Proof. done. Qed.

