(* ===== verification/Recovery.v ===== *)
(** * Crash recovery from the log (wal/recovery.go, wal/recovery_manager.go,
    btree/get_with_meta.go)

    The Go code groups entries in a map and then ranges over it, in an order the
    language leaves open: [order] is that order, an arbitrary permutation of the
    map's keys.  [cancelled n] tells whether the context is done before the n-th
    group. *)

From stdpp Require Import base list gmap strings sorting.
From Stdlib Require Import ZArith Lia.
From S2P Require Import Prelude MvccCodec WalFormat WriteBuffer DiskWal TxManager SnapshotIsolation.

Local Open Scope Z_scope.

(** ** BTreeAccessor *)

(** btree.GetWithMeta: the [uint16] sum places the timestamp. *)
Definition GetWithMeta {B} `{StorageBackend B} (b : B) (key : bytes) : outcome (bytes * Z) :=
  raw ← GetRaw b key;
  if zlen raw <? MVCCHeaderSize + 8 then
    Fail (NexError ErrBTreeValidationError "btree: GetWithMeta: value too short") else
  prevValLen ← be_at 2 raw 10;
  ts ← slice raw (u16 (12 + prevValLen)) (u16 (12 + prevValLen + 8));
  Ret (raw, be_dec ts).

Definition extractOldValueWithTS (raw : option bytes) : outcome (bytes * Z * Z) :=
  match raw with
  | None => Ret ([], FlagTombstone, 0)
  | Some raw =>
      match ParseMVCC raw with
      | Panic => Panic
      | Fail _ => Ret ([], FlagTombstone, 0)
      | Ret mv => Ret (RealVal mv, Flag mv, BeginTS mv)
      end
  end.

(** ** Grouping *)

Record txGroup := mkGroup {
  g_entries : list WALEntry;
  g_commitTS : Z;
  g_hasCommit : bool;
  g_txPrepare : option WALEntry;
}.
Definition empty_group : txGroup := mkGroup [] 0 false None.

Definition isCommit (ty : Z) : bool := (ty =? WALTypeCommit) || (ty =? WALTypeTxCommit).
Definition isRollback (ty : Z) : bool := (ty =? WALTypeRollback) || (ty =? WALTypeTxRollback).

(** The [switch e.Type] of RecoverFromWAL on its group. *)
Definition groupEntry (g : txGroup) (e : WALEntry) : outcome txGroup :=
  let key := nilbytes (Key e) in
  if isCommit (Type_ e) then
    let off := if (Type_ e =? WALTypeTxCommit) && (16 <=? zlen key) then 8 else 0 in
    ts ← (if off + 8 <=? zlen key then be_at 8 key off else Ret (g_commitTS g));
    Ret (mkGroup (g_entries g) ts true (g_txPrepare g))
  else if isRollback (Type_ e) then
    Ret (mkGroup (g_entries g) (g_commitTS g) false (g_txPrepare g))
  else if Type_ e =? WALTypeTxPrepare then
    Ret (mkGroup (g_entries g) (g_commitTS g) (g_hasCommit g) (Some e))
  else if Type_ e =? WALTypeTxBegin then Ret g
  else Ret (mkGroup (g_entries g ++ [e]) (g_commitTS g) (g_hasCommit g) (g_txPrepare g)).

Fixpoint groupEntries (step : txGroup -> WALEntry -> outcome txGroup) (es : list WALEntry)
    (groups : gmap Z txGroup) : outcome (gmap Z txGroup) :=
  match es with
  | [] => Ret groups
  | e :: es =>
      g ← step (default empty_group (groups !! TxID e)) e;
      groupEntries step es (<[TxID e := g]> groups)
  end.

(** The latest checkpoint's start LSN. *)
Fixpoint replayStart (es : list WALEntry) (start : Z) : outcome Z :=
  match es with
  | [] => Ret start
  | e :: es =>
      if (Type_ e =? WALTypeCheckpoint) && (12 <=? zlen (nilbytes (Key e))) then
        cksn ← be_at 8 (nilbytes (Key e)) 0;
        replayStart es (if start <? cksn then cksn else start)
      else replayStart es start
  end.

(** [sort.Slice(entries, LSN)]. *)
Definition lsn_le (a b : WALEntry) : Prop := LSN a <= LSN b.
#[export] Instance lsn_le_dec a b : Decision (lsn_le a b).
Proof. unfold lsn_le. apply _. Defined.
Definition sortByLSN (es : list WALEntry) : list WALEntry := merge_sort lsn_le es.

Section replay.
Context {B : Type} `{StorageBackend B}.
Implicit Types (b : B).

(** [encoded, _ := BuildMVCC(...); _ = bt.Set(...)]: a failed build leaves nil. *)
Definition buildAndSet (b : B) (key : bytes) (enc : outcome bytes) : B * outcome unit :=
  match enc with
  | Panic => (b, Panic)
  | Fail _ => let '(b, r) := SetRaw b key [] in (b, match r with Panic => Panic | _ => Ret tt end)
  | Ret v => let '(b, r) := SetRaw b key v in (b, match r with Panic => Panic | _ => Ret tt end)
  end.

Definition replaySingleKey (e : WALEntry) (commitTS : Z) (oldRaw : option bytes) (b : B)
    : B * outcome unit :=
  match extractOldValueWithTS oldRaw with
  | Ret (oldVal, oldFlag, oldBeginTS) =>
      let key := nilbytes (Key e) in
      if Type_ e =? WALTypeInsert then
        buildAndSet b key (BuildMVCC FlagNormal commitTS (nilbytes (Value e)) 0 0 [])
      else if Type_ e =? WALTypeUpdate then
        buildAndSet b key
          (BuildMVCC FlagNormal commitTS (nilbytes (Value e)) oldFlag oldBeginTS oldVal)
      else if Type_ e =? WALTypeDelete then
        buildAndSet b key (BuildMVCC FlagTombstone commitTS [] oldFlag oldBeginTS oldVal)
      else (b, Ret tt)
  | Fail e => (b, Fail e)
  | Panic => (b, Panic)
  end.

(** One entry of a committed group: skipped below the checkpoint and when the
    tree already has that commit or a newer one. *)
Definition replayEntry (start commitTS : Z) (e : WALEntry) (st : B * Z) : B * Z * outcome unit :=
  let '(b, n) := st in
  if negb (start =? LSNInvalid) && (LSN e <? start) then (b, n, Ret tt) else
  match GetWithMeta b (nilbytes (Key e)) with
  | Panic => (b, n, Panic)
  | Ret (raw, beginTS) =>
      if commitTS <? beginTS then (b, n, Ret tt)
      else if beginTS =? commitTS then (b, n, Ret tt)
      else let '(b, r) := replaySingleKey e commitTS (Some raw) b in (b, n + 1, r)
  | Fail _ => let '(b, r) := replaySingleKey e commitTS None b in (b, n + 1, r)
  end.

Fixpoint replayEntries (start commitTS : Z) (es : list WALEntry) (st : B * Z)
    : B * Z * outcome unit :=
  match es with
  | [] => (st, Ret tt)
  | e :: es =>
      match replayEntry start commitTS e st with
      | (st, Ret _) => replayEntries start commitTS es st
      | r => r
      end
  end.

(** The range over the groups: replay the committed ones. *)
Fixpoint replayGroups (cancelled : nat -> bool) (start : Z) (groups : gmap Z txGroup)
    (ids : list Z) (i : nat) (committed : gmap Z Z) (st : B * Z)
    : B * Z * gmap Z Z * outcome bool :=
  match ids with
  | [] => (st, committed, Ret true)
  | id :: ids =>
      if cancelled i then (st, committed, Ret false) else
      match groups !! id with
      | None => replayGroups cancelled start groups ids (S i) committed st
      | Some g =>
          if negb (g_hasCommit g) then
            replayGroups cancelled start groups ids (S i) committed st
          else
            let committed := <[id := g_commitTS g]> committed in
            match replayEntries start (g_commitTS g) (g_entries g) st with
            | (st, Ret _) => replayGroups cancelled start groups ids (S i) committed st
            | (st, Fail e) => (st, committed, Fail e)
            | (st, Panic) => (st, committed, Panic)
            end
      end
  end.

(** The undo of a prepared key: the parser never yields a nil old value. *)
Definition undoPrepared (commitTS : Z) (pe : TxPrepareParsedEntry) (b : B) : B * outcome unit :=
  let OldValue := Some (POldValue pe) in
  match OldValue with
  | None =>
      if POldFlag pe =? FlagTombstone
      then buildAndSet b (PKey pe) (BuildMVCC FlagTombstone commitTS [] 0 0 [])
      else (b, Ret tt)
  | Some old => let '(b, r) := SetRaw b (PKey pe) old in
                (b, match r with Panic => Panic | _ => Ret tt end)
  end.

Fixpoint undoAll (commitTS : Z) (ps : list TxPrepareParsedEntry) (b : B) : B * outcome unit :=
  match ps with
  | [] => (b, Ret tt)
  | p :: ps =>
      match undoPrepared commitTS p b with
      | (b, Ret _) => undoAll commitTS ps b
      | r => r
      end
  end.

Fixpoint rollbackGroups (groups : gmap Z txGroup) (ids : list Z) (b : B) : B * outcome unit :=
  match ids with
  | [] => (b, Ret tt)
  | id :: ids =>
      match groups !! id with
      | Some (mkGroup _ ts false (Some p)) =>
          match ParseTxPrepareEntry p with
          | Panic => (b, Panic)
          | Fail _ => rollbackGroups groups ids b
          | Ret (_, parsed) =>
              match undoAll ts parsed b with
              | (b, Ret _) => rollbackGroups groups ids b
              | r => r
              end
          end
      | _ => rollbackGroups groups ids b
      end
  end.

(** RecoverFromWAL on the scanned entries: the final tree, the committed
    transactions and the number of replayed entries; [Ret false] stands for
    ctx.Err(). *)
Definition recoverEntries (order : gmap Z txGroup -> list Z) (cancelled : nat -> bool)
    (entries : list WALEntry) (b : B) : B * Z * gmap Z Z * outcome bool :=
  let entries := sortByLSN entries in
  match (start ← replayStart entries LSNInvalid;
         groups ← groupEntries groupEntry entries ∅; Ret (start, groups)) with
  | Fail e => (b, 0, ∅, Fail e)
  | Panic => (b, 0, ∅, Panic)
  | Ret (start, groups) =>
      match replayGroups cancelled start groups (order groups) 0 ∅ (b, 0) with
      | (b, n, committed, Ret true) =>
          let '(b, r) := rollbackGroups groups (order groups) b in
          (b, n, committed, match r with Ret _ => Ret true | Fail e => Fail e | Panic => Panic end)
      | r => r
      end
  end.

Definition RecoverFromWAL (order : gmap Z txGroup -> list Z) (cancelled : nat -> bool)
    (w : World) (b : B) : World * (B * Z * gmap Z Z * outcome bool) :=
  match Recover w with
  | (w, Ret entries) => (w, recoverEntries order cancelled entries b)
  | (w, Fail e) => (w, (b, 0, ∅, Fail e))
  | (w, Panic) => (w, (b, 0, ∅, Panic))
  end.

(** ** RecoveryManager (recovery_manager.go) *)

Definition rm_groupEntry (g : txGroup) (e : WALEntry) : outcome txGroup :=
  let key := nilbytes (Key e) in
  if Type_ e =? WALTypeCommit then
    ts ← (if zlen key =? 8 then be_at 8 key 0 else Ret (g_commitTS g));
    Ret (mkGroup (g_entries g) ts true (g_txPrepare g))
  else if Type_ e =? WALTypeRollback then
    Ret (mkGroup (g_entries g) (g_commitTS g) false (g_txPrepare g))
  else Ret (mkGroup (g_entries g ++ [e]) (g_commitTS g) (g_hasCommit g) (g_txPrepare g)).

Definition rm_replayEntry (start commitTS : Z) (e : WALEntry) (st : B * Z)
    : B * Z * outcome unit :=
  let '(b, n) := st in
  if negb (start =? LSNInvalid) && (LSN e <? start) then (b, n, Ret tt) else
  match GetWithMeta b (nilbytes (Key e)) with
  | Panic => (b, n, Panic)
  | Ret (raw, beginTS) =>
      if commitTS <=? beginTS then (b, n, Ret tt)
      else let '(b, r) := replaySingleKey e commitTS (Some raw) b in (b, n + 1, r)
  | Fail _ => let '(b, r) := replaySingleKey e commitTS None b in (b, n + 1, r)
  end.

Fixpoint rm_replayEntries (start commitTS : Z) (es : list WALEntry) (st : B * Z)
    : B * Z * outcome unit :=
  match es with
  | [] => (st, Ret tt)
  | e :: es =>
      match rm_replayEntry start commitTS e st with
      | (st, Ret _) => rm_replayEntries start commitTS es st
      | r => r
      end
  end.

Fixpoint rm_replayGroups (cancelled : nat -> bool) (start : Z) (groups : gmap Z txGroup)
    (ids : list Z) (i : nat) (committed : gmap Z Z) (st : B * Z)
    : B * Z * gmap Z Z * outcome bool :=
  match ids with
  | [] => (st, committed, Ret true)
  | id :: ids =>
      if cancelled i then (st, committed, Ret false) else
      match groups !! id with
      | None => rm_replayGroups cancelled start groups ids (S i) committed st
      | Some g =>
          if negb (g_hasCommit g) then
            rm_replayGroups cancelled start groups ids (S i) committed st
          else
            let committed := <[id := g_commitTS g]> committed in
            match rm_replayEntries start (g_commitTS g) (g_entries g) st with
            | (st, Ret _) => rm_replayGroups cancelled start groups ids (S i) committed st
            | (st, Fail e) => (st, committed, Fail e)
            | (st, Panic) => (st, committed, Panic)
            end
      end
  end.

(** The checkpoint loop also collects page locations, which are discarded. *)
Fixpoint rm_pageLocs (i off pageCount : Z) (key : bytes) (fuel : nat) (locs : gmap Z Z)
    : outcome (gmap Z Z) :=
  match fuel with
  | O => Ret locs
  | S fuel =>
      if (i <? pageCount) && (off + 16 <=? zlen key) then
        pid ← be_at 8 key off;
        cpos ← be_at 8 key (off + 8);
        rm_pageLocs (i + 1) (off + 16) pageCount key fuel (<[pid := cpos]> locs)
      else Ret locs
  end.

Fixpoint rm_checkpoint (es : list WALEntry) (start : Z) (locs : gmap Z Z)
    : outcome (Z * gmap Z Z) :=
  match es with
  | [] => Ret (start, locs)
  | e :: es =>
      let key := nilbytes (Key e) in
      if negb (Type_ e =? WALTypeCheckpoint) || (zlen key <? 12) then rm_checkpoint es start locs
      else
        cksn ← be_at 8 key 0;
        if start <? cksn then
          pageCount ← be_at 4 key 8;
          locs ← rm_pageLocs 0 12 pageCount key (S (length key)) ∅;
          rm_checkpoint es cksn locs
        else rm_checkpoint es start locs
  end.

Definition rm_recoverEntries (order : gmap Z txGroup -> list Z) (cancelled : nat -> bool)
    (entries : list WALEntry) (b : B) : B * Z * gmap Z Z * outcome bool :=
  let entries := sortByLSN entries in
  match (ck ← rm_checkpoint entries 0 ∅;
         groups ← groupEntries rm_groupEntry entries ∅; Ret (fst ck, groups)) with
  | Fail e => (b, 0, ∅, Fail e)
  | Panic => (b, 0, ∅, Panic)
  | Ret (start, groups) => rm_replayGroups cancelled start groups (order groups) 0 ∅ (b, 0)
  end.
End replay.

(** ** Replay is idempotent *)

Section theorems.
Context {B : Type} `{SL : StorageLaws B}.
Context (set_ok : forall (b : B) k v, snd (SetRaw b k v) = Ret tt).
Implicit Types (b : B) (e : WALEntry).

(** Stored values are what BuildMVCC wrote, with inline flags. *)
Definition wired (raw : bytes) (ts : Z) : Prop :=
  exists flag v pf pts pv, raw = mvcc_wire flag ts v pf pts pv /\
    (flag = FlagNormal \/ flag = FlagTombstone) /\ 0 < ts < 2 ^ 64 /\ is_u64 pts /\
    zlen v <= 65515 /\ zlen pv <= 65515 /\ (pts = 0 -> pv = []).
Definition wire_store b : Prop := forall k raw, view b !! k = Some raw -> exists ts, wired raw ts.

Lemma wired_parse raw ts :
  wired raw ts -> exists mv, ParseMVCC raw = Ret mv /\ BeginTS mv = ts /\
    zlen (RealVal mv) <= 65515 /\ (Flag mv = FlagNormal \/ Flag mv = FlagTombstone).
Proof.
  intros (flag & v & pf & pts & pv & -> & Hf & Hts & Hp & Hv & Hpv & H0).
  assert (isValidFlag flag = true) as Hvf by (by destruct Hf as [-> | ->]).
  assert (parseLOB flag v = Ret (None, None)) as Hlob by (by destruct Hf as [-> | ->]).
  assert (prev_fits pts pv) as Hfit by done.
  pose proof (BuildMVCC_wire flag ts v pf pts pv Hvf ltac:(lia)) as HB.
  rewrite (parse_of_build _ _ _ _ _ _ _ _ Hvf Hts Hfit Hlob HB). eauto.
Qed.

Lemma wired_meta b k raw ts :
  view b !! k = Some raw -> wired raw ts -> GetWithMeta b k = Ret (raw, ts).
Proof.
  intros E (flag & v & pf & pts & pv & -> & Hf & Hts & Hp & Hv & Hpv & H0).
  unfold GetWithMeta. rewrite GetRaw_spec, E, bind_ret. unfold mvcc_wire, MVCCHeaderSize.
  pose proof (zlen_nonneg pv). pose proof (zlen_nonneg v).
  rewrite u16_id, ztake_all by (unfold is_u16; lia).
  rewrite (proj2 (Z.ltb_ge _ _)) by (autorewrite with zlen_db; lia).
  rewrite (be_at_slice 2 _ 10 (be_enc 2 (zlen pv))) by (read_slice; done).
  rewrite bind_ret, be_dec_enc_id by lia. rewrite !u16_id by (unfold is_u16; lia).
  assert (slice ([flag; pf] ++ be_enc 8 pts ++ be_enc 2 (zlen pv) ++ pv ++ be_enc 8 ts ++ v)
    (12 + zlen pv) (12 + zlen pv + 8) = Ret (be_enc 8 ts)) as -> by (read_slice; done).
  rewrite bind_ret, be_dec_enc_id by (change (256 ^ Z.of_nat 8) with (2 ^ 64); lia). done.
Qed.

Definition has_ts b (k : bytes) (t : Z) : Prop :=
  exists raw ts, GetWithMeta b k = Ret (raw, ts) /\ t <= ts.
Definition grows b b' : Prop := forall k t, has_ts b k t -> has_ts b' k t.

(** A data entry of a committed transaction. *)
Definition data_entry e : Prop :=
  (Type_ e = WALTypeInsert \/ Type_ e = WALTypeUpdate \/ Type_ e = WALTypeDelete) /\
  zlen (nilbytes (Value e)) <= 65515.

Definition applies (start : Z) e : Prop := start = LSNInvalid \/ start <= LSN e.

Lemma set_wired b k raw ts :
  wire_store b -> wired raw ts -> (forall t, has_ts b k t -> t <= ts) ->
  exists b', SetRaw b k raw = (b', Ret tt) /\ wire_store b' /\ grows b b' /\ has_ts b' k ts.
Proof.
  intros Hw Hr Hle. destruct (SetRaw b k raw) as [b' r] eqn:ES.
  pose proof (set_ok b k raw) as Hr'. rewrite ES in Hr'. cbn in Hr'. subst r.
  destruct (SetRaw_spec _ _ _ _ _ ES) as (_ & Hv & Hother). specialize (Hv eq_refl).
  exists b'. split; [done|].
  assert (view b' !! k = Some raw) as Ek by (by rewrite Hv, lookup_insert_eq).
  assert (has_ts b' k ts) as Hts by (exists raw, ts; split; [by apply wired_meta|lia]).
  split; [|split; [|done]].
  - intros k' raw' E. destruct (decide (k' = k)) as [->|].
    + rewrite Ek in E. injection E as <-. eauto.
    + rewrite Hother in E by done. eauto.
  - intros k' t Ht. destruct (decide (k' = k)) as [->|].
    + exists raw, ts. split; [by apply wired_meta|]. by apply Hle.
    + destruct Ht as (raw' & ts' & E & Hle'). exists raw', ts'. split; [|done].
      unfold GetWithMeta in *. rewrite GetRaw_spec in *. by rewrite Hother.
Qed.

Lemma replaySingleKey_spec b e ts (oldRaw : option bytes) :
  wire_store b -> data_entry e -> 0 < ts < 2 ^ 64 ->
  (oldRaw = None \/ exists raw ots, oldRaw = Some raw /\ wired raw ots) ->
  (forall t, has_ts b (nilbytes (Key e)) t -> t <= ts) ->
  exists b', replaySingleKey e ts oldRaw b = (b', Ret tt) /\ wire_store b' /\ grows b b' /\
    has_ts b' (nilbytes (Key e)) ts.
Proof.
  intros Hw [Hty Hv] Hts Hold Hle. unfold replaySingleKey.
  assert (exists oldVal oldFlag oldTS,
    extractOldValueWithTS oldRaw = Ret (oldVal, oldFlag, oldTS) /\ is_u64 oldTS /\
    zlen oldVal <= 65515 /\ (oldTS = 0 -> oldVal = [])) as (ov & ofl & ots & -> & Hu & Hz & H0).
  { destruct Hold as [->|(raw & ots & -> & Hwd)].
    - exists [], FlagTombstone, 0. by unfold is_u64.
    - pose proof Hwd as (_ & _ & _ & _ & _ & _ & _ & Hots & _).
      destruct (wired_parse _ _ Hwd) as (mv & E & Eb & Hz & _). cbn. rewrite E.
      eexists _, _, _. split; [reflexivity|]. rewrite Eb. unfold is_u64. split; [lia|].
      split; [done|lia]. }
  unfold buildAndSet. rewrite !BuildMVCC_wire by (done || lia).
  assert (forall raw, wired raw ts -> exists b', (let '(b, r) := SetRaw b (nilbytes (Key e)) raw in
      (b, match r with Panic => Panic | _ => Ret tt end)) = (b', Ret tt) /\ wire_store b' /\
      grows b b' /\ has_ts b' (nilbytes (Key e)) ts) as Hset.
  { intros raw Hwd. destruct (set_wired b (nilbytes (Key e)) raw ts Hw Hwd Hle)
      as (b' & -> & ?). by exists b'. }
  destruct Hty as [-> |[-> | ->]]; apply Hset; eexists _, _, _, _, _;
    (split; [reflexivity|]); unfold is_u64 in *; split_and!; try done; try lia; auto.
Qed.

Lemma replayEntry_spec start ts e b n :
  wire_store b -> data_entry e -> 0 < ts < 2 ^ 64 ->
  exists b' n', replayEntry start ts e (b, n) = (b', n', Ret tt) /\ wire_store b' /\
    grows b b' /\ (applies start e -> has_ts b' (nilbytes (Key e)) ts).
Proof.
  intros Hw He Hts. unfold replayEntry, LSNInvalid in *.
  destruct (negb (start =? 0) && (LSN e <? start)) eqn:Eskip.
  { apply andb_prop in Eskip as [E1 E2]. exists b, n. split; [done|]. split; [done|].
    split; [by intros ??|]. intros [Ha|Ha]; unfold LSNInvalid in *; [by rewrite Ha in E1|lia]. }
  destruct (view b !! nilbytes (Key e)) as [raw|] eqn:Er.
  - destruct (Hw _ _ Er) as [bts Hwd]. rewrite (wired_meta b _ raw bts Er Hwd).
    assert (has_ts b (nilbytes (Key e)) bts) as Hbts
      by (exists raw, bts; split; [by apply wired_meta|lia]).
    assert (ts <= bts -> exists b' n', (b, n, Ret tt) = (b', n', Ret tt) /\ wire_store b' /\
      grows b b' /\ (applies start e -> has_ts b' (nilbytes (Key e)) ts)) as Hskip.
    { intros Hle. exists b, n. split; [done|]. split; [done|]. split; [by intros ??|].
      intros _. exists raw, bts. split; [by apply wired_meta|done]. }
    destruct (Z.ltb_spec ts bts); [apply Hskip; lia|].
    destruct (Z.eqb_spec bts ts); [apply Hskip; lia|].
    destruct (replaySingleKey_spec b e ts (Some raw) Hw He Hts) as (b' & -> & ? & ? & ?).
    { right. eauto. }
    { intros t (raw' & ts' & E & Ht). rewrite (wired_meta b _ raw bts Er Hwd) in E.
      injection E as <- <-. lia. }
    exists b', (n + 1). auto.
  - assert (GetWithMeta b (nilbytes (Key e)) = Fail (Sentinel ErrMVCCKeyNotFound)) as Hnf
      by (unfold GetWithMeta; by rewrite GetRaw_spec, Er).
    rewrite Hnf. destruct (replaySingleKey_spec b e ts None Hw He Hts) as (b' & -> & ? & ? & ?).
    { by left. }
    { intros t (raw' & ts' & E & Ht). by rewrite Hnf in E. }
    exists b', (n + 1). auto.
Qed.

Lemma replayEntries_spec start ts es b n :
  wire_store b -> Forall data_entry es -> 0 < ts < 2 ^ 64 ->
  exists b' n', replayEntries start ts es (b, n) = (b', n', Ret tt) /\ wire_store b' /\
    grows b b' /\ Forall (fun e => applies start e -> has_ts b' (nilbytes (Key e)) ts) es.
Proof.
  intros Hw Hes Hts. revert b n Hw. induction Hes as [|e es He _ IH]; intros b n Hw.
  { exists b, n. split; [done|]. split; [done|]. split; [by intros ??|constructor]. }
  destruct (replayEntry_spec start ts e b n Hw He Hts) as (b1 & n1 & H1 & Hw1 & Hg1 & Ha1).
  destruct (IH b1 n1 Hw1) as (b2 & n2 & H2 & Hw2 & Hg2 & Ha2).
  exists b2, n2. cbn [replayEntries]. rewrite H1. split; [done|]. split; [done|].
  split; [intros k t Ht; by apply Hg2, Hg1|]. constructor; [|done].
  intros Ha. by apply Hg2, Ha1.
Qed.

(** What replay has to establish for a committed group, and what makes a second
    replay skip it. *)
Definition covered (start : Z) b (g : txGroup) : Prop :=
  g_hasCommit g = true -> Forall (fun e => applies start e ->
    has_ts b (nilbytes (Key e)) (g_commitTS g)) (g_entries g).

Definition group_ok (g : txGroup) : Prop :=
  Forall data_entry (g_entries g) /\ g_txPrepare g = None /\
  (g_hasCommit g = true -> 0 < g_commitTS g < 2 ^ 64).

Definition never : nat -> bool := fun _ => false.

(** The committed transactions, in the order of the range. *)
Fixpoint commit_map (groups : gmap Z txGroup) (ids : list Z) (c : gmap Z Z) : gmap Z Z :=
  match ids with
  | [] => c
  | id :: ids =>
      commit_map groups ids
        (match groups !! id with
         | Some g => if g_hasCommit g then <[id := g_commitTS g]> c else c
         | None => c
         end)
  end.

Lemma replayGroups_spec start groups ids i c b n :
  (forall id g, groups !! id = Some g -> group_ok g) -> wire_store b ->
  exists b' n', replayGroups never start groups ids i c (b, n) =
      (b', n', commit_map groups ids c, Ret true) /\ wire_store b' /\ grows b b' /\
    forall id g, id ∈ ids -> groups !! id = Some g -> covered start b' g.
Proof.
  intros Hg. revert i c b n. induction ids as [|id ids IH]; intros i c b n Hw.
  { exists b, n. split; [done|]. split; [done|]. split; [by intros ??|].
    intros id g Hin. by apply elem_of_nil in Hin. }
  cbn [replayGroups commit_map never]. cbv iota.
  destruct (groups !! id) as [g|] eqn:Eg.
  2: { destruct (IH (S i) c b n Hw) as (b' & n' & H1 & H2 & H3 & H4). exists b', n'.
       split; [done|]. split; [done|]. split; [done|].
       intros id' g' [->|Hin]%elem_of_cons E; [congruence|by eapply H4]. }
  destruct (Hg id g Eg) as (Hd & _ & Hts). destruct (g_hasCommit g) eqn:Ec; cbn [negb].
  2: { destruct (IH (S i) c b n Hw) as (b' & n' & H1 & H2 & H3 & H4). exists b', n'.
       split; [done|]. split; [done|]. split; [done|].
       intros id' g' [->|Hin]%elem_of_cons E; [|by eapply H4].
       intros Hc. congruence. }
  destruct (replayEntries_spec start (g_commitTS g) (g_entries g) b n Hw Hd (Hts eq_refl))
    as (b1 & n1 & E1 & Hw1 & Hg1 & Ha1). rewrite E1.
  destruct (IH (S i) (<[id := g_commitTS g]> c) b1 n1 Hw1) as (b' & n' & H1 & H2 & H3 & H4).
  exists b', n'. split; [done|]. split; [done|].
  split; [intros k t Ht; by apply H3, Hg1|].
  intros id' g' [->|Hin]%elem_of_cons E; [|by eapply H4].
  assert (g' = g) as -> by congruence. intros _.
  eapply Forall_impl; [exact Ha1|]. simpl. intros e He Ha. by apply H3, He.
Qed.

Lemma replayEntries_skip start ts es b n :
  wire_store b -> Forall (fun e => applies start e -> has_ts b (nilbytes (Key e)) ts) es ->
  replayEntries start ts es (b, n) = (b, n, Ret tt).
Proof.
  intros Hw. induction 1 as [|e es He _ IH]; [done|]. cbn [replayEntries].
  assert (replayEntry start ts e (b, n) = (b, n, Ret tt)) as ->; [|done].
  unfold replayEntry, LSNInvalid. destruct (negb (start =? 0) && (LSN e <? start)) eqn:Es; [done|].
  destruct He as (raw & ts' & E & Hle).
  { unfold applies, LSNInvalid. destruct (Z.eqb_spec start 0); [by left|right]. cbn in Es. lia. }
  rewrite E. destruct (Z.ltb_spec ts ts'); [done|].
  destruct (Z.eqb_spec ts' ts); [done|lia].
Qed.

Lemma replayGroups_skip start groups ids i c b n :
  wire_store b -> (forall id g, id ∈ ids -> groups !! id = Some g -> covered start b g) ->
  replayGroups never start groups ids i c (b, n) = (b, n, commit_map groups ids c, Ret true).
Proof.
  intros Hw. revert i c. induction ids as [|id ids IH]; intros i c Hc; [done|].
  assert (forall id' g, id' ∈ ids -> groups !! id' = Some g -> covered start b g) as Hc'
    by (intros id' g Hin; apply Hc; by right).
  cbn [replayGroups commit_map never]. cbv iota.
  destruct (groups !! id) as [g|] eqn:Eg; [|by apply IH].
  destruct (g_hasCommit g) eqn:Ec; cbn [negb]; [|by apply IH].
  rewrite replayEntries_skip; [by apply IH|done|].
  apply (Hc id g); [by left|done|done].
Qed.

(** ** Logs of plain committed transactions *)

(** The records that WriteBuffer.ToWALEntries writes, and rollbacks. *)
Definition classic e : Prop :=
  data_entry e \/
  (Type_ e = WALTypeCommit /\ exists ts, Key e = Some (be_enc 8 ts) /\ 0 < ts < 2 ^ 64) \/
  Type_ e = WALTypeRollback.

Lemma groupEntry_classic g e :
  group_ok g -> classic e -> exists g', groupEntry g e = Ret g' /\ rm_groupEntry g e = Ret g' /\
    group_ok g'.
Proof.
  intros (Hd & Hp & Hts) Hc. unfold groupEntry, rm_groupEntry.
  destruct Hc as [He|[(Ety & ts & Ek & Hr)| Ety]].
  - assert (isCommit (Type_ e) = false /\ isRollback (Type_ e) = false /\
      (Type_ e =? WALTypeTxPrepare) = false /\ (Type_ e =? WALTypeTxBegin) = false /\
      (Type_ e =? WALTypeCommit) = false /\ (Type_ e =? WALTypeRollback) = false)
      as (-> & -> & -> & -> & -> & ->) by (by destruct (proj1 He) as [-> |[-> | ->]]).
    eexists. split; [reflexivity|]. split; [reflexivity|]. split; [|done]. cbn.
    apply Forall_app. split; [done|]. by apply Forall_singleton.
  - rewrite Ety, Ek. cbn [from_option id]. change (isCommit WALTypeCommit) with true.
    change (WALTypeCommit =? WALTypeTxCommit) with false. cbn [andb].
    rewrite Z.eqb_refl, zlen_be_enc. change (0 + 8 <=? Z.of_nat 8) with true.
    change (Z.of_nat 8 =? 8) with true. cbv iota.
    rewrite (be_at_slice 8 _ 0 (be_enc 8 ts)) by (apply slice_full; rewrite ?zlen_be_enc; done).
    rewrite bind_ret, be_dec_enc8, u64_id by (unfold is_u64; lia).
    eexists. split; [reflexivity|]. split; [reflexivity|]. done.
  - rewrite Ety. eexists. split; [reflexivity|]. split; [reflexivity|]. done.
Qed.

Lemma groupEntries_classic es groups :
  Forall classic es -> (forall id g, groups !! id = Some g -> group_ok g) ->
  exists groups', groupEntries groupEntry es groups = Ret groups' /\
    groupEntries rm_groupEntry es groups = Ret groups' /\
    forall id g, groups' !! id = Some g -> group_ok g.
Proof.
  intros Hes. revert groups. induction Hes as [|e es He _ IH]; intros groups Hg.
  { by exists groups. }
  assert (group_ok (default empty_group (groups !! TxID e))) as Hg0.
  { destruct (groups !! TxID e) as [g|] eqn:E; [by eapply Hg|]. split; [constructor|done]. }
  destruct (groupEntry_classic _ e Hg0 He) as (g' & E1 & E2 & Hg').
  destruct (IH (<[TxID e := g']> groups)) as (groups' & F1 & F2 & F3).
  { intros id g E. destruct (decide (id = TxID e)) as [->|].
    - rewrite lookup_insert_eq in E. by injection E as <-.
    - rewrite lookup_insert_ne in E by done. by eapply Hg. }
  exists groups'. cbn [groupEntries]. by rewrite E1, E2, !bind_ret.
Qed.

Lemma rollbackGroups_none groups ids b :
  (forall id g, groups !! id = Some g -> group_ok g) -> rollbackGroups groups ids b = (b, Ret tt).
Proof.
  intros Hg. induction ids as [|id ids IH]; [done|]. cbn [rollbackGroups].
  destruct (groups !! id) as [[es ts hc p]|] eqn:E; [|done].
  destruct (Hg id _ E) as (_ & Hp & _). cbn in Hp. subst p. by destruct hc.
Qed.

Lemma classic_not_checkpoint e : classic e -> (Type_ e =? WALTypeCheckpoint) = false.
Proof. by intros [[[-> |[-> | ->]] _]|[[-> _]| ->]]. Qed.

Lemma replayStart_classic es start : Forall classic es -> replayStart es start = Ret start.
Proof.
  induction 1 as [|e es He _ IH]; [done|]. cbn [replayStart].
  by rewrite (classic_not_checkpoint e He).
Qed.
Lemma rm_checkpoint_classic es start locs :
  Forall classic es -> rm_checkpoint es start locs = Ret (start, locs).
Proof.
  induction 1 as [|e es He _ IH]; [done|]. cbn [rm_checkpoint].
  by rewrite (classic_not_checkpoint e He).
Qed.

Lemma sorted_classic es : Forall classic es -> Forall classic (sortByLSN es).
Proof. intros Hes. unfold sortByLSN. by rewrite merge_sort_Permutation. Qed.


(** ** RecoveryManager *)

Lemma rm_replayEntry_eq start ts e st : rm_replayEntry start ts e st = replayEntry start ts e st.
Proof.
  destruct st as [b n]. unfold rm_replayEntry, replayEntry.
  destruct (_ && _); [done|]. destruct (GetWithMeta b _) as [[raw bts]| |]; try done.
  destruct (Z.leb_spec ts bts), (Z.ltb_spec ts bts), (Z.eqb_spec bts ts); try done; lia.
Qed.
Lemma rm_replayEntries_eq start ts es st :
  rm_replayEntries start ts es st = replayEntries start ts es st.
Proof.
  revert st. induction es as [|e es IH]; intros st; [done|]. cbn. rewrite rm_replayEntry_eq.
  destruct (replayEntry start ts e st) as [st' [| |]]; auto.
Qed.
Lemma rm_replayGroups_eq cancelled start groups ids i c st :
  rm_replayGroups cancelled start groups ids i c st =
  replayGroups cancelled start groups ids i c st.
Proof.
  revert i c st. induction ids as [|id ids IH]; intros i c st; [done|]. cbn.
  destruct (cancelled i); [done|]. destruct (groups !! id) as [g|]; [|done].
  destruct (negb _); [done|]. rewrite rm_replayEntries_eq.
  destruct (replayEntries start (g_commitTS g) (g_entries g) st) as [st' [| |]]; auto.
Qed.

(** On logs without two-phase records and checkpoints, the two recovery
    entry points, RecoverFromWAL and RecoveryManager.Recover, do the same:
    same tree, same committed transactions, same count, for any map order, any
    cancellation and any tree. *)
Theorem recovery_manager_agrees order cancelled es b :
  Forall classic es ->
  rm_recoverEntries order cancelled es b = recoverEntries order cancelled es b.
Proof.
  intros Hes%sorted_classic. unfold rm_recoverEntries, recoverEntries.
  rewrite replayStart_classic, rm_checkpoint_classic by done. rewrite !bind_ret.
  destruct (groupEntries_classic _ ∅ Hes) as (groups & -> & -> & Hg); [by intros id g|].
  rewrite !bind_ret. cbn [fst]. rewrite rm_replayGroups_eq. change LSNInvalid with 0.
  destruct (replayGroups cancelled 0 groups (order groups) 0 ∅ (b, 0)) as [[[b' n] c] [[|]| |]];
    try done. by rewrite rollbackGroups_none.
Qed.

(** ** Logs of the transaction engine *)

(** The records SnapshotTx.Commit appends: TxPrepare and TxCommit, both with
    their TxID field left zero (engine_records). *)
Definition engine_record e : Prop :=
  (Type_ e = WALTypeTxPrepare \/
   Type_ e = WALTypeTxCommit /\ 16 <= zlen (nilbytes (Key e))) /\ TxID e = 0.

Lemma engine_records txID wb ts p c :
  snd (TxPrepareEntry txID wb) = Ret p -> txCommitEntry txID ts = Ret c ->
  engine_record p /\ engine_record c.
Proof.
  intros HP HC. rewrite TxPrepareEntry_wire in HP. injection HP as <-.
  unfold txCommitEntry in HC. change (zeros 16) with (zeros 8 ++ zeros 8) in HC.
  rewrite write_at_head, bind_ret in HC by (by rewrite zlen_be_enc).
  rewrite write_at_fill, bind_ret in HC by (rewrite zlen_be_enc; done).
  injection HC as <-. split; (split; [|done]); [by left|right; split; [done|]].
  cbn [Key from_option id]. autorewrite with zlen_db. lia.
Qed.

Lemma group_engine_record g e :
  engine_record e -> g_entries g = [] -> exists g', groupEntry g e = Ret g' /\ g_entries g' = [] /\
    (g_hasCommit g = true \/ Type_ e = WALTypeTxCommit -> g_hasCommit g' = true).
Proof.
  intros [[Ety|[Ety Hk]] _] Hg; unfold groupEntry; rewrite Ety; cbn.
  - eexists. split; [reflexivity|]. split; [done|]. by intros [?|?].
  - rewrite (proj2 (Z.leb_le 16 _)) by done. cbn. rewrite (proj2 (Z.leb_le _ _)) by lia.
    destruct (be_at_ok 8 (nilbytes (Key e)) 8) as [ts ->]; [lia..|]. rewrite bind_ret.
    eexists. split; [reflexivity|]. done.
Qed.

Lemma groupEntries_engine es groups :
  Forall engine_record es ->
  (forall id g, groups !! id = Some g -> id = 0 /\ g_entries g = []) ->
  exists groups', groupEntries groupEntry es groups = Ret groups' /\
    (forall id g, groups' !! id = Some g -> id = 0 /\ g_entries g = []) /\
    ((exists g, groups !! 0 = Some g /\ g_hasCommit g = true) \/
     Exists (fun e => Type_ e = WALTypeTxCommit) es ->
     exists g, groups' !! 0 = Some g /\ g_hasCommit g = true).
Proof.
  intros Hes. revert groups. induction Hes as [|e es He _ IH]; intros groups Hg.
  { exists groups. split; [done|]. split; [done|]. intros [?|Hx]; [done|]. by inversion Hx. }
  assert (g_entries (default empty_group (groups !! TxID e)) = []) as H0.
  { destruct (groups !! TxID e) as [g|] eqn:E; [by eapply Hg|done]. }
  destruct (group_engine_record _ e He H0) as (g' & E1 & E2 & E3).
  destruct He as [_ Eid]. rewrite Eid in *.
  destruct (IH (<[0 := g']> groups)) as (groups' & F1 & F2 & F3).
  { intros id g E. destruct (decide (id = 0)) as [->|].
    - rewrite lookup_insert_eq in E. by injection E as <-.
    - rewrite lookup_insert_ne in E by done. by eapply Hg. }
  exists groups'. cbn [groupEntries]. rewrite Eid, E1, bind_ret. split; [done|]. split; [done|].
  intros Hc. apply F3. destruct Hc as [(g & Eg & Hc)|Hx].
  - left. exists g'. rewrite lookup_insert_eq. split; [done|]. apply E3. left. by rewrite Eg.
  - inversion Hx; subst; [|by right]. left. exists g'. rewrite lookup_insert_eq.
    split; [done|]. apply E3. by right.
Qed.

Lemma replayGroups_nothing groups ids i c b :
  (forall id g, groups !! id = Some g -> g_entries g = []) ->
  replayGroups never LSNInvalid groups ids i c (b, 0) = (b, 0, commit_map groups ids c, Ret true).
Proof.
  intros Hg. revert i c. induction ids as [|id ids IH]; intros i c; [done|].
  cbn [replayGroups commit_map never]. cbv iota.
  destruct (groups !! id) as [g|] eqn:E; [|done]. destruct (g_hasCommit g); cbn [negb]; [|done].
  rewrite (Hg id g E). apply IH.
Qed.

Lemma engine_start es : Forall engine_record es -> replayStart es LSNInvalid = Ret LSNInvalid.
Proof.
  induction 1 as [|e es He _ IH]; [done|]. cbn [replayStart].
  assert ((Type_ e =? WALTypeCheckpoint) = false) as -> by (by destruct He as [[-> |[-> _]] _]).
  done.
Qed.

(** Recovering a log of transactions committed by the engine restores
    nothing: their data is only in the TxPrepare records, which are not
    replayed once any TxCommit of the log marks the common group 0 committed. *)
Theorem engine_log_not_replayed order es b :
  Forall engine_record es -> Exists (fun e => Type_ e = WALTypeTxCommit) es ->
  exists c, recoverEntries order never es b = (b, 0, c, Ret true).
Proof.
  intros Hes Hx. unfold recoverEntries.
  assert (Forall engine_record (sortByLSN es)) as Hes'
    by (unfold sortByLSN; by rewrite merge_sort_Permutation).
  assert (Exists (fun e => Type_ e = WALTypeTxCommit) (sortByLSN es)) as Hx'.
  { rewrite Exists_exists in *. destruct Hx as (e & Hin & ?). exists e. split; [|done].
    unfold sortByLSN. by rewrite merge_sort_Permutation. }
  rewrite (engine_start _ Hes'), bind_ret.
  destruct (groupEntries_engine _ ∅ Hes') as (groups & -> & Hg & Hc); [by intros id g|].
  rewrite bind_ret. destruct (Hc (or_intror Hx')) as (g0 & E0 & H0).
  rewrite replayGroups_nothing by (intros id g E; by apply (Hg id g)).
  assert (forall ids, rollbackGroups groups ids b = (b, Ret tt)) as Hrb.
  { induction ids as [|id ids IH]; [done|]. cbn [rollbackGroups].
    destruct (groups !! id) as [[es' ts hc p]|] eqn:E; [|done].
    destruct (Hg id _ E) as [-> _]. rewrite E0 in E. injection E as ->. cbn in H0. by subst hc. }
  rewrite Hrb. eauto.
Qed.

(** Recovering a log that ends in a prepared, uncommitted transaction
    writes back each old value bare, without its MVCC header: keys are left
    holding values that are not in the storage format. *)
Theorem prepared_undo_writes_bare order p txID parsed b :
  Type_ p = WALTypeTxPrepare -> ParseTxPrepareEntry p = Ret (txID, parsed) ->
  (forall groups, order groups ≡ₚ map fst (map_to_list groups)) ->
  exists b' c, recoverEntries order never [p] b = (b', 0, c, Ret true) /\
    view b' = foldl (fun m pe => <[PKey pe := POldValue pe]> m) (view b) parsed.
Proof.
  intros Hty Hparse Hord. unfold recoverEntries, sortByLSN.
  change (merge_sort lsn_le [p]) with [p].
  cbn [replayStart groupEntries]. rewrite lookup_empty. cbn [from_option].
  assert ((Type_ p =? WALTypeCheckpoint) = false) as -> by by rewrite Hty. cbn [andb].
  rewrite bind_ret.
  assert (groupEntry empty_group p = Ret (mkGroup [] 0 false (Some p))) as ->
    by (unfold groupEntry; by rewrite Hty).
  rewrite !bind_ret.
  set (groups := <[TxID p := mkGroup [] 0 false (Some p)]> (∅ : gmap Z txGroup)).
  assert (order groups = [TxID p]) as ->.
  { pose proof (Hord groups) as Hp. unfold groups in Hp at 2.
    rewrite insert_empty, map_to_list_singleton in Hp. cbn in Hp.
    by apply Permutation_singleton_r in Hp. }
  assert (groups !! TxID p = Some (mkGroup [] 0 false (Some p))) as Eg by apply lookup_insert_eq.
  cbn [replayGroups never rollbackGroups]. rewrite Eg. cbn [g_hasCommit negb]. rewrite Hparse.
  assert (exists b', undoAll 0 parsed b = (b', Ret tt) /\
    view b' = foldl (fun m pe => <[PKey pe := POldValue pe]> m) (view b) parsed) as (b' & -> & Hv).
  { clear Hparse. revert b. induction parsed as [|pe parsed IH]; intros b; [by exists b|].
    cbn [undoAll foldl]. unfold undoPrepared. destruct (SetRaw b (PKey pe) (POldValue pe)) as [b1 r] eqn:ES.
    pose proof (set_ok b (PKey pe) (POldValue pe)) as Hr. rewrite ES in Hr. cbn in Hr. subst r.
    destruct (SetRaw_spec _ _ _ _ _ ES) as (_ & Hv1 & _). rewrite <- (Hv1 eq_refl). apply IH. }
  eauto.
Qed.
End theorems.

(** ** Concrete runs *)

Lemma map_set_ok (b : gmap bytes bytes) k v : snd (SetRaw b k v) = Ret tt.
Proof. done. Qed.

Definition key_order (groups : gmap Z txGroup) : list Z := map fst (map_to_list groups).

(** Transaction 1 wrote [a], 2 was rolled back. *)
Definition small_log : list WALEntry :=
  [mkWALEntry 1 1 0 WALTypeInsert (Some [97]) (Some [1]) 0 0 0;
   mkWALEntry 2 2 0 WALTypeInsert (Some [98]) (Some [2]) 0 0 0;
   mkWALEntry 3 1 0 WALTypeCommit (Some (be_enc 8 9)) None 0 0 0;
   mkWALEntry 4 2 0 WALTypeRollback None None 0 0 0].

Lemma small_log_classic : Forall classic small_log.
Proof.
  unfold small_log. repeat (apply Forall_cons; split); [| | | |constructor].
  - left. split; [by left|]. unfold zlen. cbn. lia.
  - left. split; [by left|]. unfold zlen. cbn. lia.
  - right. left. split; [done|]. exists 9. split; [done|lia].
  - by right; right.
Qed.


Lemma recovery_manager_agrees_witness :
  rm_recoverEntries key_order never small_log (∅ : gmap bytes bytes) =
  recoverEntries key_order never small_log ∅.
Proof. apply recovery_manager_agrees. exact small_log_classic. Defined.

(** What the commit of a transaction that wrote [a = 7] leaves in the log. *)
Definition engine_log : list WALEntry :=
  match snd (TxPrepareEntry 1 (Put NewWriteBuffer [97] (Some [7]) None 0 0 0 None)),
        txCommitEntry 1 3 with
  | Ret p, Ret c => [p; c]
  | _, _ => []
  end.

Lemma engine_log_not_replayed_witness :
  exists c, recoverEntries key_order never engine_log (∅ : gmap bytes bytes) = (∅, 0, c, Ret true).
Proof.
  apply (engine_log_not_replayed key_order engine_log ∅).
  - destruct (engine_records 1 (Put NewWriteBuffer [97] (Some [7]) None 0 0 0 None) 3
      (nth 0 engine_log zeroWALEntry) (nth 1 engine_log zeroWALEntry)) as [H1 H2];
      [vm_compute; reflexivity|vm_compute; reflexivity|].
    assert (engine_log = [nth 0 engine_log zeroWALEntry; nth 1 engine_log zeroWALEntry]) as ->
      by (vm_compute; reflexivity).
    constructor; [exact H1|]. constructor; [exact H2|constructor].
  - apply Exists_cons_tl, Exists_cons_hd. vm_compute. reflexivity.
Defined.

(** A crash after TxPrepare of an update of [a] from [1] to [7]. *)
Definition prepared_log : WALEntry :=
  default zeroWALEntry (match snd (TxPrepareEntry 1
    (Put NewWriteBuffer [97] (Some [7]) (Some [1]) 0 3 0 None)) with Ret p => Some p | _ => None end).

Lemma prepared_undo_writes_bare_witness :
  exists b' c, recoverEntries key_order never [prepared_log] (∅ : gmap bytes bytes) =
      (b', 0, c, Ret true) /\ view b' = {[[97] := [1]]}.
Proof.
  destruct (prepared_undo_writes_bare map_set_ok key_order prepared_log 1
    [mkParsed [97] 1 0 3 [1] 0 [7]] ∅) as (b' & c & E & V).
  - vm_compute. reflexivity.
  - vm_compute. reflexivity.
  - done.
  - exists b', c. split; [exact E|]. rewrite V. vm_compute. reflexivity.
Defined.
