(* ===== verification/OffHeap.v ===== *)
(** * Off-heap memory and the page manager (storage/offheap/page_manager.go)

    The mmap region is a flat byte memory: page [p] occupies the addresses
    [p * 4096 .. p * 4096 + 4095], and an integer field is stored little-endian
    (amd64 and arm64).  A byte that was never written is 0, as in an anonymous
    mapping.  The free list is the queue of page numbers it holds; the page
    tracker is a debugging aid that is off by default and is not modelled. *)

From stdpp Require Import base list gmap strings.
From Stdlib Require Import ZArith Lia.
From S2P Require Import Prelude.

Local Open Scope Z_scope.

(** ** Flat memory *)

Abbreviation memory := (gmap Z Z).

Definition byteAt (m : memory) (a : Z) : Z := default 0 (m !! a).

Definition load (m : memory) (a n : Z) : bytes :=
  (fun i => byteAt m (a + Z.of_nat i)) <$> seq 0 (Z.to_nat n).

Fixpoint store (m : memory) (a : Z) (bs : bytes) : memory :=
  match bs with
  | [] => m
  | b :: bs => store (<[a := b]> m) (a + 1) bs
  end.

(** Little-endian integers of [n] bytes. *)
Definition loadU (n : nat) (m : memory) (a : Z) : Z :=
  be_dec (rev (load m a (Z.of_nat n))).
Definition storeU (n : nat) (m : memory) (a v : Z) : memory :=
  store m a (rev (be_enc n v)).

(** ** Page header: the fields of [PageHeader] at their offsets *)

Definition PageSize : Z := 4096.
Definition SizeofPageHeader : Z := 56.
Definition PageTypeIndex : Z := 0.
Definition PageTypeLeaf : Z := 1.
Definition PageTypeOverflow : Z := 2.
Definition MaxPageID : Z := 16 ^ 8 - 1.

Inductive PageHeader : Set :=
| hVersion | hPrevPage | hNextPage | hExtraChild | hCount | hPageType
| hDeleted | hTombstoneCount | hDeleteEpoch | hChunkPos.

Definition field_off (f : PageHeader) : Z :=
  match f with
  | hVersion => 0 | hPrevPage => 8 | hNextPage => 12 | hExtraChild => 16
  | hCount => 24 | hPageType => 26 | hDeleted => 27 | hTombstoneCount => 28
  | hDeleteEpoch => 32 | hChunkPos => 40
  end.
Definition field_len (f : PageHeader) : nat :=
  match f with
  | hVersion | hExtraChild | hDeleteEpoch | hChunkPos => 8
  | hPrevPage | hNextPage => 4
  | hCount | hTombstoneCount => 2
  | hPageType | hDeleted => 1
  end%nat.

(** ** The page manager *)

Record PageManager := {
  total : Z;
  used : Z;
  nextPageID : Z;
  freeList : list Z;
  mem : memory
}.

Definition with_mem (m : memory) (s : PageManager) : PageManager :=
  {| total := total s; used := used s; nextPageID := nextPageID s;
     freeList := freeList s; mem := m |}.
Definition with_used (u : Z) (s : PageManager) : PageManager :=
  {| total := total s; used := u; nextPageID := nextPageID s;
     freeList := freeList s; mem := mem s |}.
Definition with_nextPageID (n : Z) (s : PageManager) : PageManager :=
  {| total := total s; used := used s; nextPageID := n;
     freeList := freeList s; mem := mem s |}.
Definition with_freeList (l : list Z) (s : PageManager) : PageManager :=
  {| total := total s; used := used s; nextPageID := nextPageID s;
     freeList := l; mem := mem s |}.

(** [pageIDToPtrUnchecked]: the address of a page. *)
Definition getPtr (pageID : Z) : Z := pageID * PageSize.

Definition getField (s : PageManager) (pageID : Z) (f : PageHeader) : Z :=
  loadU (field_len f) (mem s) (getPtr pageID + field_off f).
Definition setField (pageID : Z) (f : PageHeader) (v : Z) (s : PageManager) : PageManager :=
  with_mem (storeU (field_len f) (mem s) (getPtr pageID + field_off f) v) s.

Definition PageIDToPtr (pageID : Z) : stM PageManager Z :=
  s ← getS; if total s <=? pageID then liftS Panic else mret (getPtr pageID).

(** The allocator is the operating system's mmap: [allocated] is its answer. *)
Definition NewPageManager (allocated : outcome unit) (mmapSize : Z) : outcome PageManager :=
  let maxPages := Z.quot mmapSize PageSize in
  if MaxPageID <? maxPages then Fail (NexError ErrOffHeapMMapExceedsLimit "mmap size exceeds 32-bit PageID limit"%string)
  else match allocated with
  | Ret _ => Ret {| total := u32 maxPages; used := 0; nextPageID := 0; freeList := []; mem := ∅ |}
  | Fail e => Fail (Wrap e "failed to allocate memory"%string)
  | Panic => Panic
  end.

Definition clearPage (pageID : Z) : stM PageManager unit :=
  ptr ← PageIDToPtr pageID;
  modifyS (fun s => with_mem (store (mem s) ptr (zeros SizeofPageHeader)) s).

Definition addUsed (d : Z) : stM PageManager unit :=
  modifyS (fun s => with_used (u32 (used s + d)) s).

(** [Alloc], path 1: a recycled page. *)
Definition allocFree (pageID : Z) (rest : list Z) : stM PageManager Z :=
  _ ← modifyS (with_freeList rest);
  _ ← clearPage pageID;
  _ ← modifyS (setField pageID hVersion 1);
  _ ← modifyS (setField pageID hDeleted 0);
  _ ← addUsed 1;
  mret pageID.

(** [Alloc], path 2: the next page that was never used. *)
Definition allocNext : stM PageManager Z :=
  s ← getS;
  let newVal := u32 (nextPageID s + 1) in
  let pageID := u32 (newVal - 1) in
  _ ← putS (with_nextPageID newVal s);
  if total s <=? pageID
  then failS (NexError ErrOffHeapOutOfMemory "out of memory: no free pages available"%string)
  else
    _ ← modifyS (setField pageID hVersion 1);
    _ ← addUsed 1;
    mret pageID.

Definition Alloc : stM PageManager Z :=
  s ← getS;
  match freeList s with
  | pageID :: rest => allocFree pageID rest
  | [] => allocNext
  end.

Definition Free (pageID : Z) : stM PageManager unit :=
  s ← getS;
  if total s <=? pageID then failS (NexError ErrOffHeapInvalidPageID "invalid pageID"%string)
  else
    _ ← modifyS (setField pageID hDeleted 1);
    _ ← modifyS (fun s => with_freeList (freeList s ++ [pageID]) s);
    addUsed (-1).

Definition IsDeleted (pageID : Z) (s : PageManager) : bool :=
  if (pageID =? 0) || (total s <=? pageID) then false
  else getField s pageID hDeleted =? 1.

Record Stats := { Total : Z; Used : Z; FreePages : Z; TotalSize : Z; UsedSize : Z }.
Definition GetStats (s : PageManager) : Stats :=
  {| Total := total s; Used := used s; FreePages := u32 (total s - used s);
     TotalSize := total s * PageSize; UsedSize := used s * PageSize |}.

(** ** Overflow chains *)

Definition OverflowPageMetaSize : Z := 16.
Definition OverflowPageDataSize : Z := PageSize - SizeofPageHeader - OverflowPageMetaSize.

(** [overflowMeta]: next page (8 bytes) and chunk size (4 bytes) after the header. *)
Definition nextOf (m : memory) (ptr : Z) : Z := u32 (loadU 8 m (ptr + SizeofPageHeader)).
Definition chunkSizeOf (m : memory) (ptr : Z) : Z := loadU 4 m (ptr + SizeofPageHeader + 8).
Definition dataPtr (ptr : Z) : Z := ptr + SizeofPageHeader + OverflowPageMetaSize.

(** [FreeOverflow]: the loop of the code, with fuel. *)
Fixpoint freeOverflowLoop (fuel : nat) (pageID : Z) : stM PageManager unit :=
  match fuel with
  | O => liftS Panic
  | S fuel =>
      ptr ← PageIDToPtr pageID;
      s ← getS;
      let next := nextOf (mem s) ptr in
      _ ← Free pageID;
      if next =? 0 then mret tt else freeOverflowLoop fuel next
  end.
Definition FreeOverflow (fuel : nat) (firstPageID : Z) : stM PageManager unit :=
  if firstPageID =? 0 then mret tt else freeOverflowLoop fuel firstPageID.

(** One page of the chain: link from the previous page, type, size, data. *)
Definition writeChunk (first : bool) (prevPageID pageID : Z) (chunk : bytes) : stM PageManager unit :=
  _ ← (if first then mret tt else
         ptr ← PageIDToPtr prevPageID;
         modifyS (fun s => with_mem (storeU 8 (mem s) (ptr + SizeofPageHeader) pageID) s));
  ptr ← PageIDToPtr pageID;
  _ ← modifyS (setField pageID hPageType PageTypeOverflow);
  _ ← modifyS (fun s => with_mem (storeU 4 (mem s) (ptr + SizeofPageHeader + 8) (zlen chunk)) s);
  modifyS (fun s => with_mem (store (mem s) (dataPtr ptr) chunk) s).

(** The loop over the chunks of the data that is left; on a failed allocation
    the pages already linked are freed. *)
Fixpoint allocOverflowLoop (fuel : nat) (first : bool) (firstPageID prevPageID : Z)
    (data : bytes) : stM PageManager Z :=
  match fuel with
  | O => liftS Panic
  | S fuel' =>
      if zlen data =? 0 then mret firstPageID
      else fun s =>
        match Alloc s with
        | (s1, Ret pageID) =>
            (let firstPageID := if first then pageID else firstPageID in
             _ ← writeChunk first prevPageID pageID (ztake OverflowPageDataSize data);
             allocOverflowLoop fuel' false firstPageID pageID (zdrop OverflowPageDataSize data)) s1
        | (s1, Fail e) =>
            if firstPageID =? 0 then (s1, Fail e)
            else match FreeOverflow (S (Z.to_nat (total s1))) firstPageID s1 with
                 | (s2, Panic) => (s2, Panic)
                 | (s2, _) => (s2, Fail e)
                 end
        | (s1, Panic) => (s1, Panic)
        end
  end.

Definition AllocOverflow (data : bytes) : stM PageManager Z :=
  if zlen data =? 0 then mret 0
  else allocOverflowLoop (S (length data)) true 0 0 data.

(** [ReadOverflow]: follows the links until one is 0.  The expected length
    only decides the empty case and the capacity of the result. *)
Fixpoint readOverflowLoop (fuel : nat) (pageID : Z) (result : bytes) : stM PageManager bytes :=
  match fuel with
  | O => liftS Panic
  | S fuel =>
      ptr ← PageIDToPtr pageID;
      s ← getS;
      let chunk := load (mem s) (dataPtr ptr) (chunkSizeOf (mem s) ptr) in
      let next := nextOf (mem s) ptr in
      if next =? 0 then mret (result ++ chunk)
      else readOverflowLoop fuel next (result ++ chunk)
  end.
Definition ReadOverflow (fuel : nat) (firstPageID totalLen : Z) : stM PageManager bytes :=
  if totalLen =? 0 then mret [] else readOverflowLoop fuel firstPageID [].

Fixpoint retireLoop (fuel : nat) (pageID : Z) (ids : list Z) : stM PageManager (list Z) :=
  match fuel with
  | O => liftS Panic
  | S fuel =>
      ptr ← PageIDToPtr pageID;
      s ← getS;
      let next := nextOf (mem s) ptr in
      if next =? 0 then mret (ids ++ [pageID]) else retireLoop fuel next (ids ++ [pageID])
  end.
Definition RetireOverflowChain (fuel : nat) (firstPageID : Z) : stM PageManager (list Z) :=
  if firstPageID =? 0 then mret [] else retireLoop fuel firstPageID [].

(** ** Lemmas on loads and stores *)

Lemma byteAt_store m a bs x :
  byteAt (store m a bs) x =
    if decide (a <= x < a + zlen bs) then nth (Z.to_nat (x - a)) bs 0 else byteAt m x.
Proof.
  revert m a. induction bs as [|b bs IH]; intros m a; cbn [store].
  { rewrite decide_False by (unfold zlen; cbn [length]; lia). done. }
  pose proof (zlen_nonneg bs). rewrite IH, zlen_cons.
  destruct (decide (x = a)) as [->|Hne].
  - rewrite decide_False by lia. rewrite decide_True by lia.
    rewrite Z.sub_diag. unfold byteAt. by rewrite lookup_insert_eq.
  - destruct (decide (a + 1 <= x < a + 1 + zlen bs)).
    + rewrite decide_True by lia.
      replace (Z.to_nat (x - a)) with (S (Z.to_nat (x - (a + 1)))) by lia. done.
    + rewrite decide_False by lia. unfold byteAt. by rewrite lookup_insert_ne by lia.
Qed.

Lemma load_length m a n : zlen (load m a n) = Z.max 0 n.
Proof. unfold load, zlen. rewrite length_fmap, length_seq. lia. Qed.
#[export] Hint Rewrite load_length : zlen_db.

Lemma nth_load m a n i : 0 <= i < n -> nth (Z.to_nat i) (load m a n) 0 = byteAt m (a + i).
Proof.
  intros Hi. unfold load.
  rewrite (nth_indep _ 0 (byteAt m (a + Z.of_nat 0))) by (rewrite length_fmap, length_seq; lia).
  rewrite (map_nth (fun i => byteAt m (a + Z.of_nat i))), seq_nth by lia. f_equal. lia.
Qed.

(** Loads that see the same bytes agree. *)
Lemma load_ext m m' a a' n :
  (forall i, 0 <= i < n -> byteAt m' (a' + i) = byteAt m (a + i)) ->
  load m' a' n = load m a n.
Proof.
  intros H. unfold load. apply list_fmap_ext. intros i x Hx.
  apply lookup_seq in Hx as [-> Hx]. apply H. lia.
Qed.

Lemma loadU_ext n m m' a a' :
  (forall i, 0 <= i < Z.of_nat n -> byteAt m' (a' + i) = byteAt m (a + i)) ->
  loadU n m' a' = loadU n m a.
Proof. intros H. unfold loadU. by rewrite (load_ext m m' a a'). Qed.

Lemma load_store_disj m a n b bs :
  a + n <= b \/ b + zlen bs <= a -> load (store m b bs) a n = load m a n.
Proof.
  intros H. apply load_ext. intros i Hi. rewrite byteAt_store.
  rewrite decide_False by lia. done.
Qed.

Lemma load_store_same m a bs n : n = zlen bs -> load (store m a bs) a n = bs.
Proof.
  intros ->. apply nth_ext with (d := 0) (d' := 0).
  { unfold load. rewrite length_fmap, length_seq. unfold zlen. lia. }
  intros i Hi. unfold load in Hi. rewrite length_fmap, length_seq in Hi.
  rewrite <- (Nat2Z.id i), nth_load by lia.
  rewrite byteAt_store, decide_True by lia. f_equal. lia.
Qed.

Lemma zlen_le n v : zlen (rev (be_enc n v)) = Z.of_nat n.
Proof. unfold zlen. rewrite length_rev, length_be_enc. done. Qed.

Lemma loadU_store_disj n m a b bs :
  a + Z.of_nat n <= b \/ b + zlen bs <= a -> loadU n (store m b bs) a = loadU n m a.
Proof. intros. unfold loadU. by rewrite load_store_disj. Qed.

Lemma loadU_storeU_same n m a v : loadU n (storeU n m a v) a = v mod 256 ^ Z.of_nat n.
Proof.
  unfold loadU, storeU. rewrite load_store_same by (by rewrite zlen_le).
  rewrite rev_involutive. apply be_dec_enc.
Qed.

Lemma loadU_storeU_disj n k m a b v :
  a + Z.of_nat n <= b \/ b + Z.of_nat k <= a -> loadU n (storeU k m b v) a = loadU n m a.
Proof. intros. unfold storeU. apply loadU_store_disj. rewrite zlen_le. lia. Qed.

Lemma load_storeU_disj k m a n b v :
  a + n <= b \/ b + Z.of_nat k <= a -> load (storeU k m b v) a n = load m a n.
Proof. intros. unfold storeU. apply load_store_disj. rewrite zlen_le. lia. Qed.

Lemma byteAt_storeU k m b v x :
  x < b \/ b + Z.of_nat k <= x -> byteAt (storeU k m b v) x = byteAt m x.
Proof.
  intros. unfold storeU. rewrite byteAt_store, zlen_le, decide_False by lia. done.
Qed.

Lemma byteAt_store_out m a bs x :
  x < a \/ a + zlen bs <= x -> byteAt (store m a bs) x = byteAt m x.
Proof. intros. rewrite byteAt_store, decide_False by lia. done. Qed.

(** A block copied from [b] to [a] (source read first, as [copy] does). *)
Lemma byteAt_copy m m' a b n x :
  a <= x < a + n -> byteAt (store m' a (load m b n)) x = byteAt m (b + (x - a)).
Proof.
  intros H. rewrite byteAt_store, load_length, decide_True by lia.
  rewrite nth_load by lia. done.
Qed.

(** *** Header fields *)

Lemma getField_setField_same s p f v :
  getField (setField p f v s) p f = v mod 256 ^ Z.of_nat (field_len f).
Proof. apply loadU_storeU_same. Qed.

Lemma getField_setField_other s p f g v :
  f <> g -> getField (setField p g v s) p f = getField s p f.
Proof.
  intros H. unfold getField, setField. cbn [mem with_mem]. apply loadU_storeU_disj.
  destruct f, g; try done; cbn; lia.
Qed.

Lemma field_bounds f : 0 <= field_off f /\ field_off f + Z.of_nat (field_len f) <= SizeofPageHeader.
Proof. destruct f; cbn; unfold SizeofPageHeader; lia. Qed.

Lemma getField_setField_page s p q f g v :
  p <> q -> getField (setField q g v s) p f = getField s p f.
Proof.
  intros H. unfold getField, setField. cbn [mem with_mem]. apply loadU_storeU_disj.
  pose proof (field_bounds f). pose proof (field_bounds g).
  unfold getPtr, PageSize, SizeofPageHeader in *. lia.
Qed.

Create Rewrite HintDb page_db.
#[export] Hint Rewrite getField_setField_same : page_db.

(** ** Allocation hands out pages that are not in use *)

(** A page is live if it was handed out and not given back. *)
Definition live (s : PageManager) (p : Z) : Prop :=
  0 <= p < nextPageID s /\ p < total s /\ p ∉ freeList s.

Record pm_ok (s : PageManager) : Prop := {
  ok_total : 0 <= total s < 2 ^ 32 - 1;
  ok_next : 0 <= nextPageID s < 2 ^ 32 - 1;
  ok_free : Forall (fun p => 0 <= p < nextPageID s /\ p < total s) (freeList s);
  ok_nodup : NoDup (freeList s)
}.

Lemma PageIDToPtr_ok p s : p < total s -> PageIDToPtr p s = (s, Ret (getPtr p)).
Proof.
  intros. unfold PageIDToPtr, mbind, stM_bind, getS.
  rewrite (proj2 (Z.leb_gt _ _)) by lia. done.
Qed.

Lemma Alloc_free s p rest :
  freeList s = p :: rest -> p < total s ->
  Alloc s = (with_used (u32 (used s + 1))
               (setField p hDeleted 0 (setField p hVersion 1
                 (with_mem (store (mem s) (getPtr p) (zeros SizeofPageHeader)) (with_freeList rest s)))),
             Ret p).
Proof.
  intros E Hp. unfold Alloc. rewrite stM_bind_get, E. unfold allocFree.
  rewrite stM_bind_modify. unfold clearPage.
  rewrite (stM_bind_ret _ _ _ (with_mem (store (mem s) (getPtr p) (zeros SizeofPageHeader)) (with_freeList rest s)) tt).
  2:{ rewrite (stM_bind_ret _ _ _ (with_freeList rest s) (getPtr p)) by (by apply PageIDToPtr_ok). done. }
  reflexivity.
Qed.

Lemma Alloc_next s :
  freeList s = [] -> 0 <= nextPageID s < 2 ^ 32 - 1 -> nextPageID s < total s ->
  Alloc s = (with_used (u32 (used s + 1))
               (setField (nextPageID s) hVersion 1 (with_nextPageID (nextPageID s + 1) s)),
             Ret (nextPageID s)).
Proof.
  intros E Hn Ht. unfold Alloc. rewrite stM_bind_get, E. unfold allocNext.
  rewrite stM_bind_get. rewrite (u32_id (nextPageID s + 1)) by (unfold is_u32; lia).
  replace (nextPageID s + 1 - 1) with (nextPageID s) by lia.
  rewrite (u32_id (nextPageID s)) by (unfold is_u32; lia).
  cbv zeta. rewrite (proj2 (Z.leb_gt _ _)) by lia. reflexivity.
Qed.

Lemma Alloc_oom s :
  freeList s = [] -> 0 <= nextPageID s < 2 ^ 32 - 1 -> total s <= nextPageID s ->
  Alloc s = (with_nextPageID (nextPageID s + 1) s,
             Fail (NexError ErrOffHeapOutOfMemory "out of memory: no free pages available"%string)).
Proof.
  intros E Hn Ht. unfold Alloc. rewrite stM_bind_get, E. unfold allocNext.
  rewrite stM_bind_get. rewrite (u32_id (nextPageID s + 1)) by (unfold is_u32; lia).
  replace (nextPageID s + 1 - 1) with (nextPageID s) by lia.
  rewrite (u32_id (nextPageID s)) by (unfold is_u32; lia).
  cbv zeta. rewrite (proj2 (Z.leb_le _ _)) by lia. reflexivity.
Qed.

(** Pages that [Alloc] can still hand out. *)
Definition avail (s : PageManager) : Z :=
  zlen (freeList s) + Z.max 0 (total s - nextPageID s).

(** What [Alloc] promises when a page is left. *)
Record alloc_post (s : PageManager) (p : Z) (s' : PageManager) : Prop := {
  ap_fresh : ~ live s p;
  ap_range : 0 <= p < total s;
  ap_total : total s' = total s;
  ap_live : forall q, live s' q <-> live s q \/ q = p;
  ap_ok : pm_ok s';
  ap_avail : avail s' = avail s - 1;
  ap_mem : forall x, x < getPtr p \/ getPtr p + SizeofPageHeader <= x ->
           byteAt (mem s') x = byteAt (mem s) x;
  ap_version : getField s' p hVersion = 1
}.

Lemma byteAt_setField p f v s x :
  x < getPtr p \/ getPtr p + SizeofPageHeader <= x ->
  byteAt (mem (setField p f v s)) x = byteAt (mem s) x.
Proof.
  intros H. unfold setField. cbn [mem with_mem].
  pose proof (field_bounds f). apply byteAt_storeU. lia.
Qed.

Lemma Alloc_post_free s p rest :
  pm_ok s -> freeList s = p :: rest ->
  exists s', Alloc s = (s', Ret p) /\ alloc_post s p s'.
Proof.
  intros [Ht Hn Hf Hd] E. rewrite E in Hf, Hd.
  apply Forall_cons in Hf as [[Hp1 Hp2] Hf]. apply NoDup_cons in Hd as [Hnin Hd].
  eexists. split; [by apply Alloc_free|]. constructor; cbn [total nextPageID freeList mem with_used with_mem setField with_freeList].
  - intros (_ & _ & Hl). rewrite E in Hl. apply Hl. by left.
  - lia.
  - done.
  - intros q. unfold live. cbn. rewrite E, elem_of_cons. split.
    + intros (? & ? & ?). destruct (decide (q = p)); [by right|left]. naive_solver.
    + intros [(? & ? & ?)| ->]; naive_solver.
  - constructor; done.
  - unfold avail. cbn. rewrite E. zlen_solve.
  - intros x Hx. cbn. rewrite !byteAt_storeU by (cbn; unfold SizeofPageHeader in Hx; lia).
    apply byteAt_store_out. rewrite zlen_zeros by (unfold SizeofPageHeader; lia). done.
  - unfold getField. cbn. rewrite loadU_storeU_disj by (cbn; lia).
    by rewrite loadU_storeU_same.
Qed.

Lemma Alloc_post_next s :
  pm_ok s -> freeList s = [] -> nextPageID s < total s ->
  exists s', Alloc s = (s', Ret (nextPageID s)) /\ alloc_post s (nextPageID s) s'.
Proof.
  intros [Ht Hn Hf Hd] E Hlt.
  eexists. split; [by apply Alloc_next|]. constructor; cbn [total nextPageID freeList mem with_used with_mem setField with_nextPageID].
  - intros (Hl & _). lia.
  - lia.
  - done.
  - intros q. unfold live. cbn. rewrite E. split.
    + intros (? & ? & ?). destruct (decide (q = nextPageID s)); [by right|left]. repeat split; auto; lia.
    + intros [(? & ? & ?)| ->]; repeat split; auto; try lia. apply not_elem_of_nil.
  - constructor; cbn; rewrite ?E; try constructor; lia.
  - unfold avail. cbn. lia.
  - intros x Hx. cbn. apply byteAt_storeU. cbn. unfold SizeofPageHeader in Hx. lia.
  - unfold getField. cbn. by rewrite loadU_storeU_same.
Qed.

Lemma Alloc_post s :
  pm_ok s -> 0 < avail s -> exists p s', Alloc s = (s', Ret p) /\ alloc_post s p s'.
Proof.
  intros Hok Ha. destruct (freeList s) as [|p rest] eqn:E.
  - unfold avail in Ha. rewrite E in Ha. cbn in Ha.
    destruct (Alloc_post_next s) as (s' & ? & ?); eauto. unfold zlen in Ha. cbn [length] in Ha. lia.
  - destruct (Alloc_post_free s p rest) as (s' & ? & ?); eauto.
Qed.

(** [Free] of a live page gives it back. *)
Record free_post (s : PageManager) (p : Z) (s' : PageManager) : Prop := {
  fp_total : total s' = total s;
  fp_live : forall q, live s' q <-> live s q /\ q <> p;
  fp_ok : pm_ok s';
  fp_avail : avail s' = avail s + 1;
  fp_mem : forall x, x < getPtr p \/ getPtr p + SizeofPageHeader <= x ->
           byteAt (mem s') x = byteAt (mem s) x
}.

Lemma Free_eq s p :
  p < total s ->
  Free p s = (with_used (u32 (used s + -1)) (with_freeList (freeList s ++ [p]) (setField p hDeleted 1 s)), Ret tt).
Proof. intros. unfold Free. rewrite stM_bind_get, (proj2 (Z.leb_gt _ _)) by lia. reflexivity. Qed.

Lemma Free_post s p :
  pm_ok s -> live s p -> exists s', Free p s = (s', Ret tt) /\ free_post s p s'.
Proof.
  intros [Ht Hn Hf Hd] (Hp & Hpt & Hnin). eexists. split; [by apply Free_eq|].
  constructor; cbn.
  - done.
  - intros q. unfold live. cbn. rewrite elem_of_app, list_elem_of_singleton. naive_solver.
  - constructor; cbn; try done.
    + apply Forall_app. split; [done|]. apply Forall_singleton. lia.
    + apply NoDup_app. split; [done|]. split; [|apply NoDup_singleton].
      intros x Hx Hx'. apply list_elem_of_singleton in Hx'. by subst.
  - unfold avail. cbn. zlen_solve.
  - intros x Hx. apply byteAt_storeU. cbn. unfold SizeofPageHeader in Hx. lia.
Qed.

(** *** Reachable states of a manager whose clients free only live pages *)

Inductive pm_reach : PageManager -> Prop :=
| reach_new size s :
    0 <= size -> size / PageSize < 2 ^ 32 - 1 ->
    NewPageManager (Ret tt) size = Ret s -> pm_reach s
| reach_alloc s : pm_reach s -> nextPageID s < 2 ^ 32 - 2 -> pm_reach (Alloc s).1
| reach_free s p : pm_reach s -> live s p -> pm_reach (Free p s).1
| reach_write s m : pm_reach s -> pm_reach (with_mem m s).

Lemma pm_ok_mem s m : pm_ok s -> pm_ok (with_mem m s).
Proof. intros []. by constructor. Qed.

Lemma avail_pos_or_full s : pm_ok s -> 0 < avail s \/ (freeList s = [] /\ total s <= nextPageID s).
Proof.
  intros Hok. unfold avail. pose proof (zlen_nonneg (freeList s)).
  destruct (freeList s) as [|p l] eqn:E; [|left; rewrite zlen_cons; pose proof (zlen_nonneg l); lia].
  destruct (Z_lt_le_dec (nextPageID s) (total s)); [left|right]; rewrite ?zlen_nil; auto; lia.
Qed.

Lemma pm_reach_ok s : pm_reach s -> pm_ok s.
Proof.
  induction 1 as [size s H0 Hs E|s Hr IH Hn|s p Hr IH Hl|s m Hr IH].
  - unfold NewPageManager in E. rewrite Z.quot_div_nonneg in E by (unfold PageSize; lia).
    destruct (_ <? _) in E; [done|]. injection E as <-.
    pose proof (Z.div_pos size PageSize H0 ltac:(unfold PageSize; lia)).
    constructor; cbn; rewrite ?u32_id by (unfold is_u32; lia); try constructor; lia.
  - destruct (avail_pos_or_full s IH) as [Ha|[E Ht]].
    + destruct (Alloc_post s IH Ha) as (p & s' & E & Hp). rewrite E. apply Hp.
    + destruct IH. rewrite Alloc_oom by done. constructor; cbn; rewrite ?E; try constructor; lia.
  - destruct (Free_post s p IH Hl) as (s' & E & Hp). rewrite E. apply Hp.
  - by apply pm_ok_mem.
Qed.


(** A page freed twice is handed out to two owners: when no other page is
    free, the next two calls of Alloc return the same page. *)
Theorem double_free_shares_page s p (Hok : pm_ok s) (Hl : live s p) (Hf : freeList s = []) :
  exists s', (_ ← Free p; _ ← Free p; a ← Alloc; b ← Alloc; mret (a, b)) s = (s', Ret (p, p)).
Proof.
  destruct Hl as (Hp & Ht & _).
  set (s1 := (Free p s).1). set (s2 := (Free p s1).1).
  assert (E1 : Free p s = (s1, Ret tt)) by (unfold s1; by rewrite Free_eq).
  assert (Ht1 : p < total s1) by (unfold s1; by rewrite Free_eq).
  assert (E2 : Free p s1 = (s2, Ret tt)) by (unfold s2; by rewrite Free_eq).
  assert (Ht2 : p < total s2) by (unfold s2; by rewrite Free_eq).
  assert (F2 : freeList s2 = [p; p]).
  { unfold s2. rewrite Free_eq by done. cbn. unfold s1. rewrite Free_eq by done. cbn. by rewrite Hf. }
  rewrite (stM_bind_ret _ _ _ _ _ E1), (stM_bind_ret _ _ _ _ _ E2).
  pose proof (Alloc_free s2 p [p] F2 Ht2) as E3. remember (with_used (u32 (used s2 + 1)) _) as s3 eqn:Es3 in E3.
  assert (F3 : freeList s3 = [p]) by (by rewrite Es3).
  assert (Ht3 : p < total s3) by (by rewrite Es3).
  rewrite (stM_bind_ret _ _ _ _ _ E3). eexists.
  rewrite (stM_bind_ret _ _ _ _ _ (Alloc_free s3 p [] F3 Ht3)). reflexivity.
Qed.

(** ** Overflow chains: what is written is read back *)

(** Page [p] of a chain: link [nx], data [c]. *)
Definition overflow_page (m : memory) (p nx : Z) (c : bytes) : Prop :=
  nextOf m (getPtr p) = nx /\ chunkSizeOf m (getPtr p) = zlen c /\
  load m (dataPtr (getPtr p)) (zlen c) = c.

(** The pages [ps] hold the chunks [cs] and are linked in order. *)
Definition chained (m : memory) (T : Z) (ps : list Z) (cs : list bytes) : Prop :=
  length ps = length cs /\ NoDup ps /\ Forall (fun p => 0 <= p < T) ps /\
  Forall (fun p => p <> 0) (tail ps) /\
  forall i p c, ps !! i = Some p -> cs !! i = Some c ->
    overflow_page m p (default 0 (ps !! S i)) c.

Lemma chained_tail m T p ps c cs :
  chained m T (p :: ps) (c :: cs) -> chained m T ps cs.
Proof.
  intros (Hl & Hn & Hr & Hz & H). cbn in Hl, Hz. apply NoDup_cons in Hn as [_ Hn].
  apply Forall_cons in Hr as [_ Hr]. split; [lia|]. split; [done|]. split; [done|]. split.
  - destruct ps; cbn; [constructor|by apply Forall_cons in Hz as [_ Hz]].
  - intros i q d Hq Hd. apply (H (S i) q d Hq Hd).
Qed.

Lemma readOverflowLoop_chained s p ps c cs fuel result :
  chained (mem s) (total s) (p :: ps) (c :: cs) -> (length ps < fuel)%nat ->
  readOverflowLoop fuel p result s = (s, Ret (result ++ concat (c :: cs))).
Proof.
  revert p c cs fuel result. induction ps as [|q ps IH]; intros p c cs fuel result Hc Hf;
    (destruct fuel as [|fuel]; [lia|]); pose proof Hc as (Hlen & _ & Hr & Hz & Hi);
    apply Forall_cons in Hr as [Hp Hr];
    destruct (Hi 0%nat p c eq_refl eq_refl) as (Hnx & Hsz & Hld);
    cbn [readOverflowLoop]; rewrite (stM_bind_ret _ _ _ _ _ (PageIDToPtr_ok p s (proj2 Hp)));
    rewrite stM_bind_get;
    rewrite Hsz, Hld, Hnx.
  - destruct cs; [|done]. cbn. by rewrite app_nil_r.
  - cbn in Hz. apply Forall_cons in Hz as [Hq _].
    destruct cs as [|c' cs]; [done|].
    change (default 0 ((p :: q :: ps) !! 1%nat)) with q.
    rewrite (proj2 (Z.eqb_neq q 0)) by done.
    cbn in Hf. rewrite (IH q c' cs) by (eauto using chained_tail || lia).
    cbn [concat]. by rewrite <- app_assoc.
Qed.

Lemma retireLoop_chained s p ps c cs fuel ids :
  chained (mem s) (total s) (p :: ps) (c :: cs) -> (length ps < fuel)%nat ->
  retireLoop fuel p ids s = (s, Ret (ids ++ p :: ps)).
Proof.
  revert p c cs fuel ids. induction ps as [|q ps IH]; intros p c cs fuel ids Hc Hf;
    (destruct fuel as [|fuel]; [lia|]); pose proof Hc as (Hlen & _ & Hr & Hz & Hi);
    apply Forall_cons in Hr as [Hp Hr];
    destruct (Hi 0%nat p c eq_refl eq_refl) as (Hnx & _);
    cbn [retireLoop]; rewrite (stM_bind_ret _ _ _ _ _ (PageIDToPtr_ok p s (proj2 Hp)));
    rewrite stM_bind_get, Hnx; [done|].
  cbn in Hz. apply Forall_cons in Hz as [Hq _]. destruct cs as [|c' cs]; [done|].
  change (default 0 ((p :: q :: ps) !! 1%nat)) with q.
  rewrite (proj2 (Z.eqb_neq q 0)) by done. cbn in Hf.
  rewrite (IH q c' cs) by (eauto using chained_tail || lia). by rewrite <- app_assoc.
Qed.

(** Two memories that agree on a page, its header aside. *)
Definition same_data (m m' : memory) (p : Z) : Prop :=
  forall x, getPtr p + SizeofPageHeader <= x < getPtr p + PageSize -> byteAt m' x = byteAt m x.

Ltac off_lia :=
  unfold getPtr, dataPtr, OverflowPageDataSize, OverflowPageMetaSize, PageSize, SizeofPageHeader in *;
  cbn [field_off field_len] in *; lia.

Lemma overflow_page_data m m' p c :
  (forall x, dataPtr (getPtr p) - 8 <= x < getPtr p + PageSize -> byteAt m' x = byteAt m x) ->
  zlen c <= OverflowPageDataSize ->
  chunkSizeOf m (getPtr p) = zlen c -> load m (dataPtr (getPtr p)) (zlen c) = c ->
  chunkSizeOf m' (getPtr p) = zlen c /\ load m' (dataPtr (getPtr p)) (zlen c) = c.
Proof.
  intros H Hc Hs Hl. split.
  - rewrite <- Hs. apply loadU_ext. intros i Hi. apply H. off_lia.
  - rewrite <- Hl at 2. apply load_ext. intros i Hi. apply H. off_lia.
Qed.

Lemma overflow_page_same m m' p nx c :
  same_data m m' p -> zlen c <= OverflowPageDataSize ->
  overflow_page m p nx c -> overflow_page m' p nx c.
Proof.
  intros H Hc (Hn & Hs & Hl). split.
  - rewrite <- Hn. unfold nextOf. f_equal. apply loadU_ext. intros i Hi. apply H. off_lia.
  - apply (overflow_page_data m); auto. intros x Hx. apply H. off_lia.
Qed.

(** What [writeChunk] does to the memory. *)
Record chunk_written (first : bool) (prev q : Z) (c : bytes) (m m' : memory) : Prop := {
  cw_out : forall x, (x < getPtr q \/ getPtr q + PageSize <= x) ->
    (first = true \/ x < getPtr prev + SizeofPageHeader \/ getPtr prev + SizeofPageHeader + 8 <= x) ->
    byteAt m' x = byteAt m x;
  cw_link : first = false -> loadU 8 m' (getPtr prev + SizeofPageHeader) = u64 q;
  cw_page : overflow_page m' q (nextOf m (getPtr q)) c
}.

Lemma writeChunk_ok first prev q c s :
  q < total s -> (first = false -> prev < total s /\ prev <> q) -> zlen c <= OverflowPageDataSize ->
  exists m', writeChunk first prev q c s = (with_mem m' s, Ret tt) /\
    chunk_written first prev q c (mem s) m'.
Proof.
  intros Hq Hprev Hc. pose proof (zlen_nonneg c).
  set (m0 := if first then mem s else storeU 8 (mem s) (getPtr prev + SizeofPageHeader) q).
  set (m1 := storeU 1 m0 (getPtr q + 26) PageTypeOverflow).
  set (m2 := storeU 4 m1 (getPtr q + SizeofPageHeader + 8) (zlen c)).
  exists (store m2 (dataPtr (getPtr q)) c). split.
  { unfold writeChunk. rewrite (stM_bind_ret _ _ _ (with_mem m0 s) tt).
    2:{ unfold m0. destruct first; [by destruct s|].
        rewrite (stM_bind_ret _ _ _ _ _ (PageIDToPtr_ok prev s (proj1 (Hprev eq_refl)))). done. }
    rewrite (stM_bind_ret _ _ _ _ _ (PageIDToPtr_ok q (with_mem m0 s) Hq)). reflexivity. }
  assert (Hm0 : forall x, first = true \/ x < getPtr prev + SizeofPageHeader \/ getPtr prev + SizeofPageHeader + 8 <= x ->
    byteAt m0 x = byteAt (mem s) x).
  { intros x Hx. unfold m0. destruct first; [done|]. apply byteAt_storeU. destruct Hx; [done|lia]. }
  constructor.
  - intros x Hx1 Hx2. rewrite byteAt_store_out by off_lia. unfold m2, m1.
    rewrite !byteAt_storeU by off_lia. by apply Hm0.
  - intros ->. destruct (Hprev eq_refl). unfold m2, m1. rewrite loadU_store_disj by off_lia.
    rewrite !loadU_storeU_disj by off_lia. unfold m0. by rewrite loadU_storeU_same.
  - split; [|split].
    + unfold nextOf. f_equal. unfold m2, m1. rewrite loadU_store_disj by off_lia.
      rewrite !loadU_storeU_disj by off_lia. unfold m0. destruct first; [done|].
      rewrite loadU_storeU_disj; [done|]. destruct (Hprev eq_refl). off_lia.
    + unfold chunkSizeOf. rewrite loadU_store_disj by off_lia. unfold m2.
      rewrite loadU_storeU_same. apply Z.mod_small. off_lia.
    + by apply load_store_same.
Qed.

(** Stale links: a page that is not live has a zero link field. *)
Definition links_clean (s : PageManager) : Prop :=
  live s 0 /\ forall p, 0 <= p < total s -> ~ live s p -> nextOf (mem s) (getPtr p) = 0.

(** A chain under construction. *)
Record building (s : PageManager) (ps : list Z) (cs : list bytes) : Prop := {
  bd_ok : pm_ok s;
  bd_chain : chained (mem s) (total s) ps cs;
  bd_live : Forall (fun p => live s p /\ p <> 0) ps;
  bd_size : Forall (fun c => zlen c <= OverflowPageDataSize) cs;
  bd_clean : links_clean s
}.

Lemma building_nil s : pm_ok s -> links_clean s -> building s [] [].
Proof.
  intros. constructor; [done| |done|done|done]. split; [done|]. split; [apply NoDup_nil_2|]. by repeat (split; [done|]).
Qed.

Lemma live_mem s m q : live (with_mem m s) q <-> live s q.
Proof. done. Qed.

(** Linking a new page behind the last one extends the chain. *)
Lemma chained_snoc m m' T (ps : list Z) (cs : list bytes) (first : bool) prev q (c : bytes) :
  chained m T ps cs -> Forall (fun c => zlen c <= OverflowPageDataSize) cs ->
  last ps = (if first then None else Some prev) -> q ∉ ps -> 0 <= q < T -> q <> 0 ->
  T < 2 ^ 32 ->
  chunk_written first prev q c m m' -> nextOf m (getPtr q) = 0 ->
  chained m' T (ps ++ [q]) (cs ++ [c]).
Proof.
  intros (Hlen & Hnd & Hr & Hz & Hi) Hcs Hlast Hq HqT Hq0 HT [Hout Hlink Hpage] Hclean.
  rewrite Hclean in Hpage.
  split; [rewrite !length_app; cbn; lia|]. split.
  { apply NoDup_app. split; [done|]. split; [|apply NoDup_singleton].
    intros x Hx Hx'. apply list_elem_of_singleton in Hx' as ->. done. }
  split; [apply Forall_app; split; [done|by apply Forall_singleton]|]. split.
  { destruct ps as [|p0 ps]; cbn; [constructor|]. apply Forall_app.
    split; [done|by apply Forall_singleton]. }
  intros i p d Hp Hd.
  destruct (decide (i < length ps)%nat) as [Hlt|Hge].
  2:{ assert (i = length ps) as ->.
      { apply lookup_lt_Some in Hp. rewrite length_app in Hp. cbn in Hp. lia. }
      rewrite lookup_app_r, Nat.sub_diag in Hp by lia. injection Hp as <-.
      rewrite Hlen, lookup_app_r, Nat.sub_diag in Hd by lia. injection Hd as <-.
      rewrite (lookup_ge_None_2 (ps ++ [q]) (S (length ps))) by (rewrite length_app; cbn; lia). done. }
  rewrite lookup_app_l in Hp by lia. rewrite lookup_app_l in Hd by lia.
  assert (Hpq : p <> q) by (intros ->; apply Hq; by eapply list_elem_of_lookup_2).
  assert (Hdn : zlen d <= OverflowPageDataSize) by (by eapply (Forall_lookup_1 _ _ _ _ Hcs)).
  pose proof (Hi i p d Hp Hd) as (Hn & Hs & Hl).
  destruct (decide (S i < length ps)%nat) as [Hlt'|Hge'].
  - rewrite lookup_app_l by lia. apply (overflow_page_same m); [|done|by split].
    intros x Hx. apply Hout; [off_lia|]. destruct first; [by left|right].
    assert (Hpp : p <> prev); [|off_lia]. intros ->.
    rewrite last_lookup in Hlast.
    pose proof (NoDup_lookup _ _ _ _ Hnd Hp Hlast). lia.
  - assert (S i = length ps) as ES by lia. rewrite ES.
    rewrite lookup_app_r, Nat.sub_diag by lia. cbn [lookup list_lookup default from_option].
    rewrite last_lookup, <- ES in Hlast. cbn [Nat.pred] in Hlast. rewrite Hp in Hlast.
    destruct first; [done|]. injection Hlast as <-. split.
    + unfold nextOf. rewrite Hlink by done. rewrite u64_id, u32_id by (unfold is_u64, is_u32; lia). done.
    + apply (overflow_page_data m); auto. intros x Hx. apply Hout; [off_lia|right; off_lia].
Qed.

Lemma building_step s s1 m' (ps : list Z) (cs : list bytes) (first : bool) prev q (c : bytes) :
  building s ps cs -> alloc_post s q s1 ->
  last ps = (if first then None else Some prev) ->
  chunk_written first prev q c (mem s1) m' -> zlen c <= OverflowPageDataSize ->
  building (with_mem m' s1) (ps ++ [q]) (cs ++ [c]).
Proof.
  intros [Hok Hch Hlv Hsz [H0 Hclean]] Hp Hlast Hcw Hc.
  assert (Hq0 : q <> 0) by (intros ->; by destruct Hp).
  assert (Hqps : q ∉ ps).
  { intros Hin. rewrite Forall_forall in Hlv. destruct (Hlv q Hin) as [Hl _]. by apply Hp in Hl. }
  assert (Hch1 : chained (mem s1) (total s1) ps cs).
  { destruct Hch as (? & ? & Hr & ? & Hi). rewrite (ap_total _ _ _ Hp). repeat (split; [done|]).
    intros i p d Ep Ed. apply (overflow_page_same (mem s)); [|by eapply (Forall_lookup_1 _ _ _ _ Hsz)|eauto].
    intros x Hx. apply (ap_mem _ _ _ Hp).
    assert (p <> q) by (intros ->; apply Hqps; by eapply list_elem_of_lookup_2). off_lia. }
  assert (Hnq : nextOf (mem s1) (getPtr q) = 0).
  { rewrite <- (Hclean q (ap_range _ _ _ Hp) (ap_fresh _ _ _ Hp)). unfold nextOf. f_equal.
    apply loadU_ext. intros i Hi. apply (ap_mem _ _ _ Hp). off_lia. }
  constructor.
  - apply pm_ok_mem, Hp.
  - apply (chained_snoc (mem s1) m' _ ps cs first prev); auto; cbn.
    + rewrite (ap_total _ _ _ Hp). apply Hp.
    + rewrite (ap_total _ _ _ Hp). destruct Hok. lia.
  - apply Forall_app. split.
    + eapply Forall_impl; [exact Hlv|]. intros x [Hx ?]. split; [|done]. apply live_mem, Hp. by left.
    + apply Forall_singleton. split; [|done]. apply live_mem, Hp. by right.
  - apply Forall_app. split; [done|by apply Forall_singleton].
  - split; [apply live_mem, Hp; by left|]. cbn. intros p Hpr Hpl.
    rewrite live_mem, (ap_live _ _ _ Hp) in Hpl.
    assert (Hpl1 : ~ live s p) by tauto. assert (Hpq : p <> q) by tauto.
    rewrite (ap_total _ _ _ Hp) in Hpr. rewrite <- (Hclean p Hpr Hpl1). unfold nextOf. f_equal.
    apply loadU_ext. intros i Hi. rewrite (cw_out _ _ _ _ _ _ Hcw).
    + apply (ap_mem _ _ _ Hp). off_lia.
    + off_lia.
    + destruct first; [by left|right].
      assert (p <> prev); [|off_lia]. intros ->. apply last_Some_elem_of in Hlast.
      rewrite Forall_forall in Hlv. by destruct (Hlv prev Hlast).
Qed.

Lemma zlen_chunk (data : bytes) :
  zlen (ztake OverflowPageDataSize data) <= OverflowPageDataSize.
Proof. rewrite zlen_ztake_min. off_lia. Qed.

(** The loop of [AllocOverflow], from any point of the construction. *)
Lemma allocOverflowLoop_ok fuel (data : bytes) s (ps : list Z) (cs : list bytes) prev :
  building s ps cs -> last ps = (if bool_decide (ps = []) then None else Some prev) ->
  zlen data <= OverflowPageDataSize * avail s -> (length data < fuel)%nat ->
  exists s' new newcs,
    allocOverflowLoop fuel (bool_decide (ps = [])) (default 0 (head ps)) prev data s =
      (s', Ret (default 0 (head (ps ++ new)))) /\
    building s' (ps ++ new) (cs ++ newcs) /\ concat newcs = data /\
    total s' = total s /\ (forall q, live s' q <-> live s q \/ q ∈ new) /\
    Z.of_nat (length new) <= zlen data.
Proof.
  revert data s ps cs prev. induction fuel as [|fuel IH]; intros data s ps cs prev Hb Hlast Ha Hf; [lia|].
  cbn [allocOverflowLoop]. destruct (Z.eqb_spec (zlen data) 0) as [Hz|Hz].
  { exists s, [], []. rewrite !app_nil_r. assert (data = []) as -> by (apply zlen_le_0; lia).
    split; [done|]. split; [done|]. split; [done|]. split; [done|]. split; [|done].
    intros q. rewrite elem_of_nil. tauto. }
  pose proof (zlen_nonneg data).
  destruct (Alloc_post s (bd_ok _ _ _ Hb)) as (q & s1 & E & Hp); [off_lia|]. rewrite E.
  set (first := bool_decide (ps = [])) in *.
  destruct (writeChunk_ok first prev q (ztake OverflowPageDataSize data) s1) as (m' & Ew & Hcw).
  { rewrite (ap_total _ _ _ Hp). apply Hp. }
  { intros ->. apply last_Some_elem_of in Hlast. pose proof (bd_live _ _ _ Hb) as Hl.
    rewrite Forall_forall in Hl. destruct (Hl _ Hlast) as [Hlp _]. split.
    - rewrite (ap_total _ _ _ Hp). apply Hlp.
    - intros ->. by apply Hp in Hlp. }
  { apply zlen_chunk. }
  rewrite (stM_bind_ret _ _ _ _ _ Ew).
  pose proof (building_step _ _ _ _ _ _ _ _ _ Hb Hp Hlast Hcw (zlen_chunk data)) as Hb'.
  destruct (IH (zdrop OverflowPageDataSize data) (with_mem m' s1) (ps ++ [q]) _ q Hb')
    as (s' & new & newcs & El & Hbs & Hc & Ht & Hlive & Hn).
  { rewrite bool_decide_false by (by destruct ps). apply last_snoc. }
  { rewrite zlen_zdrop_max. change (avail (with_mem m' s1)) with (avail s1).
    rewrite (ap_avail _ _ _ Hp). off_lia. }
  { assert (zlen (zdrop OverflowPageDataSize data) <= zlen data - 1) by (rewrite zlen_zdrop_max; off_lia).
    unfold zlen in *. lia. }
  rewrite (bool_decide_false (ps ++ [q] = [])) in El by (by destruct ps).
  exists s', (q :: new), (ztake OverflowPageDataSize data :: newcs).
  replace (ps ++ q :: new) with ((ps ++ [q]) ++ new) by (by rewrite <- app_assoc).
  replace (cs ++ ztake OverflowPageDataSize data :: newcs)
    with ((cs ++ [ztake OverflowPageDataSize data]) ++ newcs) by (by rewrite <- app_assoc).
  split.
  { rewrite <- El. f_equal. unfold first. by destruct ps. }
  split; [done|]. split; [cbn [concat]; rewrite Hc; apply ztake_zdrop_id|].
  split; [rewrite Ht; apply Hp|]. split.
  - intros r. rewrite Hlive, live_mem, (ap_live _ _ _ Hp), elem_of_cons. tauto.
  - cbn [length]. rewrite zlen_zdrop_max in Hn. off_lia.
Qed.

Lemma head_app_default (l k : list Z) : l <> [] -> default 0 (head (l ++ k)) = default 0 (head l).
Proof. by destruct l. Qed.

(** A value of any length that fits the free pages is written to a fresh
    overflow chain and read back from its first page, and collecting the chain
    yields exactly the pages that became live, provided page 0 is held by
    someone else and the pages to be handed out have no stale link. *)
Theorem overflow_roundtrip s data fuel (Hok : pm_ok s) (Hclean : links_clean s)
    (Hne : data <> []) (Hfit : zlen data <= OverflowPageDataSize * avail s)
    (Hfuel : (length data < fuel)%nat) :
  exists s' first ids,
    AllocOverflow data s = (s', Ret first) /\ first <> 0 /\
    ReadOverflow fuel first (zlen data) s' = (s', Ret data) /\
    RetireOverflowChain fuel first s' = (s', Ret ids) /\
    forall q, live s' q <-> live s q \/ q ∈ ids.
Proof.
  assert (Hz : (zlen data =? 0) = false).
  { apply Z.eqb_neq. destruct data; [done|]. unfold zlen. cbn. lia. }
  pose proof (building_nil s Hok Hclean) as Hb.
  destruct (allocOverflowLoop_ok (S (length data)) data s [] [] 0 Hb eq_refl Hfit ltac:(lia))
    as (s' & ps & cs & El & Hbs & Hc & Ht & Hlive & Hn).
  rewrite !app_nil_l in *. destruct ps as [|p ps].
  { destruct (bd_chain _ _ _ Hbs) as (Hlen & _). destruct cs; [|done]. by subst data. }
  destruct cs as [|c cs]; [by destruct (bd_chain _ _ _ Hbs)|].
  pose proof (bd_chain _ _ _ Hbs) as Hch. pose proof (bd_live _ _ _ Hbs) as Hlv.
  apply Forall_cons in Hlv as [[_ Hp0] _].
  assert (Hps : (length ps < fuel)%nat) by (cbn [length] in Hn; unfold zlen in Hn; lia).
  exists s', p, (p :: ps). split; [|split; [done|split; [|split; [|done]]]].
  - unfold AllocOverflow. by rewrite Hz.
  - unfold ReadOverflow. rewrite Hz, (readOverflowLoop_chained s' p ps c cs) by done. by rewrite Hc.
  - unfold RetireOverflowChain. rewrite (proj2 (Z.eqb_neq p 0)) by done.
    by rewrite (retireLoop_chained s' p ps c cs).
Qed.

(** A page that is recycled keeps the bytes behind its header, and
    AllocOverflow does not write the link of the last page: a value that fits
    one page, stored in a recycled page whose first eight data bytes hold [nx],
    is read back followed by the contents of page [nx], or the read panics if
    there is no such page. *)
Theorem overflow_stale_link s p rest data fuel
    (Hok : pm_ok s) (Hfree : freeList s = p :: rest) (Hp : p <> 0) (Hne : data <> [])
    (Hfit : zlen data <= OverflowPageDataSize)
    (Hstale : nextOf (mem s) (getPtr p) <> 0) :
  exists s', AllocOverflow data s = (s', Ret p) /\
    ReadOverflow (S fuel) p (zlen data) s' =
      readOverflowLoop fuel (nextOf (mem s) (getPtr p)) data s' /\
    (total s <= nextOf (mem s) (getPtr p) -> (0 < fuel)%nat ->
       ReadOverflow (S fuel) p (zlen data) s' = (s', Panic)).
Proof.
  assert (Hz : (zlen data =? 0) = false).
  { apply Z.eqb_neq. destruct data; [done|]. unfold zlen. cbn. lia. }
  destruct (Alloc_post_free s p rest Hok Hfree) as (s1 & E & Hpost).
  destruct (writeChunk_ok true 0 p data s1) as (m' & Ew & Hcw); [|done|done|].
  { rewrite (ap_total _ _ _ Hpost). apply Hpost. }
  assert (Hnx : nextOf (mem s1) (getPtr p) = nextOf (mem s) (getPtr p)).
  { unfold nextOf. f_equal. apply loadU_ext. intros i Hi. apply (ap_mem _ _ _ Hpost). off_lia. }
  assert (Hpt : p < total (with_mem m' s1)) by (cbn; rewrite (ap_total _ _ _ Hpost); apply Hpost).
  assert (Hread : ReadOverflow (S fuel) p (zlen data) (with_mem m' s1) =
    readOverflowLoop fuel (nextOf (mem s) (getPtr p)) data (with_mem m' s1)).
  { unfold ReadOverflow. rewrite Hz. cbn [readOverflowLoop].
    rewrite (stM_bind_ret _ _ _ _ _ (PageIDToPtr_ok _ _ Hpt)), stM_bind_get.
    destruct Hcw as [_ _ (Hn & Hs & Hl)]. cbn [mem with_mem].
    rewrite Hn, Hs, Hl, Hnx, (proj2 (Z.eqb_neq _ _)) by done. done. }
  exists (with_mem m' s1). split; [|split; [done|]].
  - unfold AllocOverflow. rewrite Hz. cbn [allocOverflowLoop]. rewrite Hz, E.
    rewrite (ztake_all _ data) by done. rewrite (stM_bind_ret _ _ _ _ _ Ew).
    rewrite (zdrop_all _ data) by done. destruct data; [done|]. reflexivity.
  - intros Ht Hf. rewrite Hread. destruct fuel; [lia|]. cbn [readOverflowLoop].
    apply stM_bind_panic. unfold PageIDToPtr. rewrite stM_bind_get.
    cbn [total with_mem]. rewrite (ap_total _ _ _ Hpost), (proj2 (Z.leb_le _ _)) by done. done.
Qed.

(** ** The theorems at concrete states *)

(** A manager of eight pages whose page 0 was handed out. *)
Definition example_manager : PageManager :=
  {| total := 8; used := 1; nextPageID := 1; freeList := []; mem := ∅ |}.

Lemma example_manager_ok : pm_ok example_manager.
Proof. constructor; cbn; try constructor; lia. Qed.


Lemma double_free_shares_page_witness :
  live example_manager 0 /\
  exists s', (_ ← Free 0; _ ← Free 0; a ← Alloc; b ← Alloc; mret (a, b)) example_manager = (s', Ret (0, 0)).
Proof.
  assert (Hl : live example_manager 0) by (split; [cbn; lia|split; [cbn; lia|apply not_elem_of_nil]]).
  split; [exact Hl|].
  exact (double_free_shares_page example_manager 0 example_manager_ok Hl eq_refl).
Defined.

Lemma example_manager_clean : links_clean example_manager.
Proof.
  split; [split; [cbn; lia|split; [cbn; lia|apply not_elem_of_nil]]|].
  intros p _ _. unfold nextOf. cbn [mem example_manager]. by rewrite (loadU_ext 8 ∅ ∅ 0).
Qed.

Lemma overflow_roundtrip_witness :
  exists s' first ids, AllocOverflow [1; 2; 3] example_manager = (s', Ret first) /\
    ReadOverflow 4 first 3 s' = (s', Ret [1; 2; 3]) /\ RetireOverflowChain 4 first s' = (s', Ret ids).
Proof.
  destruct (overflow_roundtrip example_manager [1; 2; 3] 4 example_manager_ok example_manager_clean)
    as (s' & first & ids & E & _ & R & T & _); [discriminate|vm_compute; discriminate|cbn; lia|].
  exists s', first, ids. split; [exact E|]. split; [exact R|exact T].
Defined.

(** Page 1 was a leaf whose first key starts at offset 4000, and was freed. *)
Definition recycled_manager : PageManager :=
  {| total := 8; used := 1; nextPageID := 2; freeList := [1];
     mem := storeU 4 ∅ (getPtr 1 + 56) 4000 |}.

Lemma overflow_stale_link_witness :
  exists s', AllocOverflow [1; 2; 3] recycled_manager = (s', Ret 1) /\
    ReadOverflow 3 1 3 s' = (s', Panic).
Proof.
  destruct (overflow_stale_link recycled_manager 1 [] [1; 2; 3] 2) as (s' & E & _ & P);
    [|reflexivity|discriminate|discriminate|vm_compute; discriminate|vm_compute; discriminate|].
  - constructor; cbn; [lia|lia|apply Forall_singleton; lia|apply NoDup_singleton].
  - exists s'. split; [exact E|]. apply P; [vm_compute; discriminate|lia].
Defined.
