(* ===== verification/LockFreeQueue.v ===== *)
(** * The lock-free queue of free pages (offheap/lockfree_queue.go)

    A Michael-Scott queue: a linked list of nodes with a head and a tail pointer,
    changed by compare-and-swap.  Each atomic access is one step of a thread
    ([exec]); a [step] of the system is a call, or one access of one thread, so
    all interleavings are runs.  Nodes are garbage collected: an address is not
    used again while a thread may hold it, so addresses are never reused here.

    The last section proves that every run is linearizable to a list used first
    in, first out, and that a thread left alone finishes within twenty accesses. *)

From stdpp Require Import base list gmap sets relations.
From Stdlib Require Import ZArith Lia.
From S2P Require Import Prelude.

Local Open Scope Z_scope.

Definition loc : Type := nat.
Record node := mkNode { value : Z; next : option loc }.

(** [fresh]: where the allocator puts the next node. *)
Record LockFreeQueue := mkQueue { heap : gmap loc node; head : loc; tail : loc; fresh : loc }.

Definition NewLockFreeQueue : LockFreeQueue := mkQueue {[0%nat := mkNode 0 None]} 0%nat 0%nat 1%nat.

Definition nextOf (q : LockFreeQueue) (a : loc) : option loc := n ← heap q !! a; next n.
Definition valueOf (q : LockFreeQueue) (a : loc) : Z := match heap q !! a with Some n => value n | None => 0 end.

Definition casTail (old new : loc) (q : LockFreeQueue) : LockFreeQueue := if decide (tail q = old) then mkQueue (heap q) (head q) new (fresh q) else q.
Definition setNext (a n : loc) (q : LockFreeQueue) : LockFreeQueue :=
  mkQueue (alter (fun x => mkNode (value x) (Some n)) a (heap q)) (head q) (tail q) (fresh q).
Definition setHead (a : loc) (q : LockFreeQueue) : LockFreeQueue := mkQueue (heap q) a (tail q) (fresh q).
Definition newNode (v : Z) (q : LockFreeQueue) : LockFreeQueue := mkQueue (<[fresh q := mkNode v None]> (heap q)) (head q) (tail q) (S (fresh q)).

(** The next access of a thread, with its local variables; [n] is the node that
    [Enqueue] made. *)
Inductive pc :=
| EnqTail (n : loc)                                (* tail := q.tail.Load() *)
| EnqNext (n t : loc)                              (* next := tail.next.Load() *)
| EnqCheck (n t : loc) (nx : option loc)           (* tail != q.tail.Load(), next != nil *)
| EnqHelp (n t x : loc)                            (* q.tail.CompareAndSwap(tail, next) *)
| EnqLink (n t : loc)                              (* tail.next.CompareAndSwap(nil, n) *)
| EnqSwing (n t : loc)                             (* q.tail.CompareAndSwap(tail, n); return *)
| DeqHead                                          (* head := q.head.Load() *)
| DeqTail (h : loc)                                (* tail := q.tail.Load() *)
| DeqNext (h t : loc)                              (* next := head.next.Load() *)
| DeqCheck (h t : loc) (nx : option loc)           (* head != q.head.Load(), next == nil, head == tail *)
| DeqHelp (t x : loc)                              (* q.tail.CompareAndSwap(tail, next) *)
| DeqValue (h x : loc)                             (* value := next.value *)
| DeqCas (h x : loc) (v : Z).                      (* q.head.CompareAndSwap(head, next); return *)

Inductive result := REnqueue (v : Z) | RDequeue (o : option Z).
Inductive after := Continue (c : pc) | Return (r : result).

Definition exec (c : pc) (q : LockFreeQueue) : LockFreeQueue * after :=
  match c with
  | EnqTail n => (q, Continue (EnqNext n (tail q)))
  | EnqNext n t => (q, Continue (EnqCheck n t (nextOf q t)))
  | EnqCheck n t nx =>
      if decide (t = tail q) then match nx with Some x => (q, Continue (EnqHelp n t x)) | None => (q, Continue (EnqLink n t)) end
      else (q, Continue (EnqTail n))
  | EnqHelp n t x => (casTail t x q, Continue (EnqTail n))
  | EnqLink n t =>
      match nextOf q t with
      | None => (setNext t n q, Continue (EnqSwing n t))
      | Some _ => (q, Continue (EnqTail n))
      end
  | EnqSwing n t => (casTail t n q, Return (REnqueue (valueOf q n)))
  | DeqHead => (q, Continue (DeqTail (head q)))
  | DeqTail h => (q, Continue (DeqNext h (tail q)))
  | DeqNext h t => (q, Continue (DeqCheck h t (nextOf q h)))
  | DeqCheck h t nx =>
      if decide (h = head q) then
        match nx with
        | None => (q, Return (RDequeue None))
        | Some x => if decide (h = t) then (q, Continue (DeqHelp t x)) else (q, Continue (DeqValue h x))
        end
      else (q, Continue DeqHead)
  | DeqHelp t x => (casTail t x q, Continue DeqHead)
  | DeqValue h x => (q, Continue (DeqCas h x (valueOf q x)))
  | DeqCas h x v => if decide (head q = h) then (setHead x q, Return (RDequeue (Some v))) else (q, Continue DeqHead)
  end.

(** The first access of a call. *)
Definition callEnqueue (v : Z) (q : LockFreeQueue) : LockFreeQueue * pc := (newNode v q, EnqTail (fresh q)).
Definition callDequeue (q : LockFreeQueue) : LockFreeQueue * pc := (q, DeqHead).

(** One thread alone. *)
Fixpoint solo (fuel : nat) (c : pc) (q : LockFreeQueue) : option (LockFreeQueue * result) :=
  match fuel with
  | O => None
  | S fuel => match exec c q with (q, Continue c) => solo fuel c q | (q, Return r) => Some (q, r) end
  end.
Definition soloFuel : nat := 20.
Definition Enqueue (v : Z) (q : LockFreeQueue) : option LockFreeQueue := let '(q, c) := callEnqueue v q in fst <$> solo soloFuel c q.
Definition Dequeue (q : LockFreeQueue) : option (LockFreeQueue * option Z) :=
  let '(q, c) := callDequeue q in match solo soloFuel c q with Some (q, RDequeue o) => Some (q, o) | _ => None end.

(** The nodes behind the head. *)
Fixpoint walk (fuel : nat) (q : LockFreeQueue) (a : option loc) : list loc :=
  match fuel, a with S fuel, Some a => a :: walk fuel q (nextOf q a) | _, _ => [] end.
Definition nodes (q : LockFreeQueue) : list loc := walk (size (heap q)) q (nextOf q (head q)).
Definition contents (q : LockFreeQueue) : list Z := map (valueOf q) (nodes q).

Fixpoint sizeLoop (fuel : nat) (q : LockFreeQueue) (a : option loc) (count : Z) : Z :=
  match fuel, a with S fuel, Some a => sizeLoop fuel q (nextOf q a) (count + 1) | _, _ => count end.
Definition Size (q : LockFreeQueue) : Z := sizeLoop (size (heap q)) q (nextOf q (head q)) 0.
Definition IsEmpty (q : LockFreeQueue) : bool := match nextOf q (head q) with None => true | Some _ => false end.

Fixpoint drainLoop (fuel : nat) (q : LockFreeQueue) (values : list Z) : option (LockFreeQueue * list Z) :=
  match fuel with
  | O => None
  | S fuel =>
      match Dequeue q with
      | Some (q, Some v) => drainLoop fuel q (values ++ [v])
      | Some (q, None) => Some (q, values)
      | None => None
      end
  end.
Definition Drain (q : LockFreeQueue) : option (LockFreeQueue * list Z) := drainLoop (size (heap q)) q [].

(** ** Runs, with a record of what happened *)

(** What a thread did to the queue, at the access where it took effect. *)
Inductive event := Enqueued (v : Z) | Dequeued (v : Z).
Definition effect (c : pc) (q : LockFreeQueue) : option event :=
  match c with
  | EnqLink n t => match nextOf q t with None => Some (Enqueued (valueOf q n)) | Some _ => None end
  | DeqCas h x v => if decide (head q = h) then Some (Dequeued v) else None
  | _ => None
  end.

(** [hist]: the effects in order.  [returned]: the results in order; the boolean
    says whether the queue was empty at some moment of the call.  [sawEmpty]: the
    threads for which it has been so since their call. *)
Record sys := mkSys {
  queue : LockFreeQueue;
  threads : gmap nat pc;
  hist : list (nat * event);
  returned : list (nat * result * bool);
  sawEmpty : gset nat }.

Definition initial : sys := mkSys NewLockFreeQueue ∅ [] [] ∅.

Definition observe (q : LockFreeQueue) (ts : gmap nat pc) (seen : gset nat) : gset nat := if IsEmpty q then seen ∪ dom ts else seen.

Definition call (i : nat) (qc : LockFreeQueue * pc) (s : sys) : sys :=
  let ts := <[i := qc.2]> (threads s) in
  mkSys qc.1 ts (hist s) (returned s) (observe qc.1 ts (sawEmpty s ∖ {[i]})).

Definition access (i : nat) (c : pc) (s : sys) : sys :=
  let h := match effect c (queue s) with Some e => hist s ++ [(i, e)] | None => hist s end in
  match exec c (queue s) with
  | (q, Continue c') => mkSys q (<[i := c']> (threads s)) h (returned s) (observe q (threads s) (sawEmpty s))
  | (q, Return r) => mkSys q (delete i (threads s)) h (returned s ++ [(i, r, bool_decide (i ∈ sawEmpty s))]) (observe q (threads s) (sawEmpty s))
  end.

Inductive step : sys -> sys -> Prop :=
| step_enqueue s i v : threads s !! i = None -> step s (call i (callEnqueue v (queue s)) s)
| step_dequeue s i : threads s !! i = None -> step s (call i (callDequeue (queue s)) s)
| step_access s i c : threads s !! i = Some c -> step s (access i c s).

(** ** The specification: a list, first in, first out *)

Fixpoint fifo (es : list event) (l : list Z) : option (list Z) :=
  match es with
  | [] => Some l
  | Enqueued v :: es => fifo es (l ++ [v])
  | Dequeued v :: es => match l with w :: l => if v =? w then fifo es l else None | [] => None end
  end.

Definition eventsOf (i : nat) (h : list (nat * event)) : list event := map snd (List.filter (fun x => Nat.eqb x.1 i) h).
Definition resultEvents (r : result) : list event := match r with REnqueue v => [Enqueued v] | RDequeue (Some v) => [Dequeued v] | RDequeue None => [] end.
Definition resultsOf (i : nat) (rs : list (nat * result * bool)) : list event :=
  concat (map (fun x => resultEvents x.1.2) (List.filter (fun x => Nat.eqb x.1.1 i) rs)).
(** An enqueue that has taken effect and not returned. *)
Definition pending (q : LockFreeQueue) (c : option pc) : list event := match c with Some (EnqSwing n _) => [Enqueued (valueOf q n)] | _ => [] end.

(** ** The list of nodes *)

(** The nodes [l], linked in order, the last one to nothing. *)
Definition path (h : gmap loc node) (l : list loc) : Prop := forall k a, l !! k = Some a -> exists v, h !! a = Some (mkNode v (l !! S k)).

(** [ch]: all nodes ever linked, the head at [p], the tail at [kt]. *)
Record qinv (q : LockFreeQueue) (ch : list loc) (p kt : nat) : Prop := {
  q_path : path (heap q) ch;
  q_nodup : NoDup ch;
  q_head : ch !! p = Some (head q);
  q_tail : ch !! kt = Some (tail q);
  q_ord : (p <= kt)%nat;
  q_lag : (length ch <= kt + 2)%nat;
  q_fresh : forall a n, heap q !! a = Some n -> (a < fresh q)%nat }.

(** The node of an [Enqueue] that is not linked yet. *)
Definition owner (c : pc) : option loc :=
  match c with EnqTail n | EnqNext n _ | EnqCheck n _ _ | EnqHelp n _ _ | EnqLink n _ => Some n | _ => None end.
Definition private (q : LockFreeQueue) (ch : list loc) (n : loc) : Prop := (n ∉ ch) /\ exists v, heap q !! n = Some (mkNode v None).

(** What the local variables of a thread say. *)
Definition linked (ch : list loc) (k : nat) (a b : loc) : Prop := ch !! k = Some a /\ ch !! S k = Some b.
Definition locals_ok (q : LockFreeQueue) (ch : list loc) (p kt : nat) (seen : Prop) (c : pc) : Prop :=
  match c with
  | EnqTail _ | DeqHead => True
  | EnqNext n t | EnqLink n t => exists k, (k <= kt)%nat /\ ch !! k = Some t
  | EnqCheck n t nx => exists k, (k <= kt)%nat /\ ch !! k = Some t /\ forall x, nx = Some x -> ch !! S k = Some x
  | EnqHelp _ t x | EnqSwing x t | DeqHelp t x => exists k, linked ch k t x
  | DeqTail h => exists i, (i <= p)%nat /\ ch !! i = Some h
  | DeqNext h t => exists i k, (i <= p)%nat /\ (i <= k <= kt)%nat /\ ch !! i = Some h /\ ch !! k = Some t
  | DeqCheck h t nx => exists i k, (i <= p)%nat /\ (i <= k <= kt)%nat /\ ch !! i = Some h /\ ch !! k = Some t /\ match nx with Some x => ch !! S i = Some x | None => seen end
  | DeqValue h x => exists i, (i < kt)%nat /\ linked ch i h x
  | DeqCas h x v => (exists i, (i < kt)%nat /\ linked ch i h x) /\ valueOf q x = v
  end.
Definition owns (q : LockFreeQueue) (ch : list loc) (c : pc) : Prop := forall n, owner c = Some n -> private q ch n.

(** The values behind the head. *)
Definition vals (q : LockFreeQueue) (ch : list loc) (p : nat) : list Z := map (valueOf q) (drop (S p) ch).

Lemma path_next h ch k a : path h ch -> ch !! k = Some a -> (n ← h !! a; next n) = ch !! S k.
Proof. intros H Ha. destruct (H k a Ha) as (v & E). by rewrite E. Qed.

Lemma index_inj {ch : list loc} {i j a} : NoDup ch -> ch !! i = Some a -> ch !! j = Some a -> i = j.
Proof. intros H. by apply NoDup_lookup. Qed.

(** The last node of a list with [next] nil. *)
Lemma last_index (ch : list loc) k a : ch !! k = Some a -> ch !! S k = None -> length ch = S k.
Proof. intros H1%lookup_lt_Some H2%lookup_ge_None. lia. Qed.

Lemma nextOf_ch q ch p kt k a : qinv q ch p kt -> ch !! k = Some a -> nextOf q a = ch !! S k.
Proof. intros I. apply path_next, I. Qed.

Lemma empty_vals q ch p kt : qinv q ch p kt -> IsEmpty q = bool_decide (vals q ch p = []).
Proof.
  intros I. unfold IsEmpty, vals. rewrite (nextOf_ch q ch p kt p _ I (q_head _ _ _ _ I)).
  destruct (ch !! S p) as [x|] eqn:E.
  - rewrite (drop_S _ x _ E). by rewrite bool_decide_false.
  - apply lookup_ge_None in E. rewrite drop_ge by done. by rewrite bool_decide_true.
Qed.

(** ** What later states keep *)

Record later (q : LockFreeQueue) (ch : list loc) (p kt : nat) (q' : LockFreeQueue) (ch' : list loc) (p' kt' : nat) : Prop := {
  l_chain : exists l, ch' = ch ++ l;
  l_head : (p <= p')%nat;
  l_tail : (kt <= kt')%nat;
  l_value : forall a v nx, heap q !! a = Some (mkNode v nx) -> exists nx', heap q' !! a = Some (mkNode v nx') }.

Lemma later_refl q ch p kt : later q ch p kt q ch p kt.
Proof. split; [exists []; by rewrite app_nil_r|lia|lia|by eexists]. Qed.

Lemma later_lookup q ch p kt q' ch' p' kt' k a : later q ch p kt q' ch' p' kt' -> ch !! k = Some a -> ch' !! k = Some a.
Proof. intros [[l ->] _ _ _]. apply lookup_app_l_Some. Qed.

Lemma later_valueOf q ch p kt q' ch' p' kt' k a : qinv q ch p kt -> later q ch p kt q' ch' p' kt' -> ch !! k = Some a -> valueOf q' a = valueOf q a.
Proof.
  intros I L Ha. destruct (q_path _ _ _ _ I k a Ha) as (v & E). destruct (l_value _ _ _ _ _ _ _ _ L a v _ E) as (nx & E').
  unfold valueOf. by rewrite E, E'.
Qed.

Lemma locals_later q ch p kt q' ch' p' kt' (seen seen' : Prop) c : qinv q ch p kt -> later q ch p kt q' ch' p' kt' -> (seen -> seen') ->
  locals_ok q ch p kt seen c -> locals_ok q' ch' p' kt' seen' c.
Proof.
  intros I L Hs. pose proof (fun k a => later_lookup q ch p kt q' ch' p' kt' k a L) as Hl. pose proof (l_head _ _ _ _ _ _ _ _ L). pose proof (l_tail _ _ _ _ _ _ _ _ L).
  assert (forall k a b, linked ch k a b -> linked ch' k a b) as Hll by (intros k a b [? ?]; split; auto).
  destruct c as [n|n t|n t nx|n t x|n t|n t| |h|h t|h t nx|t x|h x|h x v]; cbn; try done.
  - intros (k & ? & ?). exists k. split; [lia|auto].
  - intros (k & ? & ? & Hx). exists k. split; [lia|]. split; [auto|]. intros x E. auto.
  - intros (k & ?). exists k. auto.
  - intros (k & ? & ?). exists k. split; [lia|auto].
  - intros (k & ?). exists k. auto.
  - intros (k & ? & ?). exists k. split; [lia|auto].
  - intros (i & k & ? & ? & ? & ?). exists i, k. split; [lia|]. split; [lia|]. auto.
  - intros (i & k & ? & ? & ? & ? & Hx). exists i, k. split; [lia|]. split; [lia|]. split; [auto|]. split; [auto|]. destruct nx; auto.
  - intros (k & ?). exists k. auto.
  - intros (i & ? & ?). exists i. split; [lia|auto].
  - intros ((i & ? & Hi) & Hv). split; [exists i; split; [lia|auto]|]. rewrite <- Hv. destruct Hi. by eapply later_valueOf.
Qed.

(** ** The changes *)

Lemma casTail_ok q ch p kt k t x : qinv q ch p kt -> linked ch k t x ->
  exists kt', qinv (casTail t x q) ch p kt' /\ later q ch p kt (casTail t x q) ch p kt' /\ heap (casTail t x q) = heap q.
Proof.
  intros I [Ht Hx]. unfold casTail. destruct (decide (tail q = t)) as [<-|]; [|by exists kt; split; [done|split; [apply later_refl|]]].
  assert (k = kt) as -> by (eapply index_inj; [apply I|done|apply I]). destruct I as [I1 I2 I3 I4 I5 I6 I7]. apply lookup_lt_Some in Hx as Hlt.
  exists (S kt). split; [constructor; cbn; try done; lia|]. split; [|done].
  split; cbn; try lia; [exists []; by rewrite app_nil_r|by eexists].
Qed.

Lemma setNext_value t n q a v nx : heap q !! a = Some (mkNode v nx) -> heap (setNext t n q) !! a = Some (mkNode v (if decide (a = t) then Some n else nx)).
Proof.
  intros E. cbn. destruct (decide (a = t)) as [->|Ha]; [by rewrite lookup_alter_eq, E|by rewrite lookup_alter_ne by done].
Qed.

Lemma setNext_later q ch p kt t n : later q ch p kt (setNext t n q) (ch ++ [n]) p kt.
Proof.
  split; try lia; [by exists [n]|]. intros a v nx E. rewrite (setNext_value _ _ _ _ _ _ E). by eexists.
Qed.

Lemma setNext_private q ch t n m : private q ch m -> m <> n -> t ∈ ch -> private (setNext t n q) (ch ++ [n]) m.
Proof.
  intros [Hm (v & E)] Hn Ht. split; [rewrite elem_of_app, list_elem_of_singleton; by intros [?|?]|].
  exists v. rewrite (setNext_value _ _ _ _ _ _ E). by rewrite decide_False by (intros ->; done).
Qed.

Lemma setNext_ok q ch p kt k t n : qinv q ch p kt -> (k <= kt)%nat -> ch !! k = Some t -> nextOf q t = None -> private q ch n ->
  qinv (setNext t n q) (ch ++ [n]) p kt /\ linked (ch ++ [n]) k t n.
Proof.
  intros I Hk Ht Hnx [Hn (v & En)]. rewrite (nextOf_ch _ _ _ _ _ _ I Ht) in Hnx. pose proof (last_index _ _ _ Ht Hnx) as Hlen.
  pose proof (lookup_lt_Some _ _ _ (q_tail _ _ _ _ I)) as Hkt. assert (k = kt) as -> by lia.
  assert (linked (ch ++ [n]) kt t n) as Hlk.
  { split; [by apply lookup_app_l_Some|]. rewrite lookup_app_r by lia. by rewrite Hlen, Nat.sub_diag. }
  split; [|done]. destruct I as [I1 I2 I3 I4 I5 I6 I7]. constructor; try (by apply lookup_app_l_Some); try done.
  - intros i a Ha. apply lookup_app_Some in Ha as [Ha|[Hi Ha]].
    + destruct (I1 i a Ha) as (w & E). exists w. rewrite (setNext_value _ _ _ _ _ _ E). do 2 f_equal.
      destruct (decide (a = t)) as [->|Hat].
      * assert (i = kt) as -> by (by eapply index_inj). by destruct Hlk as [_ ->].
      * apply lookup_lt_Some in Ha as Hi. assert (i <> kt) by (intros ->; congruence). by rewrite lookup_app_l by lia.
    + destruct (i - length ch)%nat eqn:Ei; [|done]. injection Ha as <-. exists v. rewrite (setNext_value _ _ _ _ _ _ En).
      rewrite decide_False by (intros ->; apply Hn; by apply (list_elem_of_lookup_2 _ kt)).
      rewrite (proj2 (lookup_ge_None _ _)); [done|]. rewrite length_app. cbn. lia.
  - apply NoDup_app. split; [done|]. split; [|apply NoDup_singleton]. by intros y Hy ->%list_elem_of_singleton.
  - rewrite length_app. cbn. lia.
  - intros a m E. cbn in E. apply lookup_alter_Some in E as [(<- & m0 & E & _)|[_ E]]; by eapply I7.
Qed.

Lemma later_vals q ch p kt q' ch' p' kt' n : qinv q ch p kt -> later q ch p kt q' ch' p' kt' -> map (valueOf q') (drop n ch) = map (valueOf q) (drop n ch).
Proof.
  intros I L. apply map_ext_in. intros a Ha. apply list_elem_of_In in Ha. apply list_elem_of_lookup in Ha as (i & Ha). rewrite lookup_drop in Ha.
  by eapply later_valueOf.
Qed.

Lemma setNext_vals q ch p kt t n : qinv q ch p kt -> (exists v, heap q !! n = Some (mkNode v None)) ->
  vals (setNext t n q) (ch ++ [n]) p = vals q ch p ++ [valueOf q n].
Proof.
  intros I (v & En). unfold vals. pose proof (lookup_lt_Some _ _ _ (q_head _ _ _ _ I)) as Hp.
  rewrite drop_app_le by lia. rewrite map_app. cbn [map]. f_equal.
  - eapply later_vals; [done|apply setNext_later].
  - f_equal. unfold valueOf. by rewrite (setNext_value _ _ _ _ _ _ En), En.
Qed.

Lemma setHead_ok q ch p kt i x : qinv q ch p kt -> (i < kt)%nat -> linked ch i (head q) x ->
  qinv (setHead x q) ch (S p) kt /\ later q ch p kt (setHead x q) ch (S p) kt /\ vals q ch p = valueOf q x :: vals (setHead x q) ch (S p).
Proof.
  intros I Hi [Hh Hx]. assert (i = p) as -> by (eapply index_inj; [apply I|done|apply I]).
  split; [destruct I; constructor; cbn; try done; lia|]. split.
  - split; try lia; [exists []; by rewrite app_nil_r|by eexists].
  - unfold vals. by rewrite (drop_S _ x _ Hx).
Qed.

Lemma newNode_ok q ch p kt v : qinv q ch p kt ->
  qinv (newNode v q) ch p kt /\ later q ch p kt (newNode v q) ch p kt /\ private (newNode v q) ch (fresh q) /\
  vals (newNode v q) ch p = vals q ch p /\ IsEmpty (newNode v q) = IsEmpty q /\ heap q !! fresh q = None /\
  forall m, private q ch m -> private (newNode v q) ch m.
Proof.
  intros I. assert (heap q !! fresh q = None) as Hf.
  { destruct (heap q !! fresh q) eqn:E; [|done]. apply (q_fresh _ _ _ _ I) in E. lia. }
  assert (forall a n, heap q !! a = Some n -> heap (newNode v q) !! a = Some n) as Hin by (intros a n E; cbn; by rewrite lookup_insert_ne by congruence).
  assert (later q ch p kt (newNode v q) ch p kt) as L.
  { split; try lia; [exists []; by rewrite app_nil_r|]. intros a w nx E. exists nx. by apply Hin. }
  assert (qinv (newNode v q) ch p kt) as I'.
  { destruct I as [I1 I2 I3 I4 I5 I6 I7]. constructor; cbn; try done.
    - intros i a Ha. destruct (I1 i a Ha) as (w & E). exists w. by apply Hin.
    - intros a n [[<- _]|[_ E]]%lookup_insert_Some; [lia|]. apply I7 in E. lia. }
  assert (forall m, private q ch m -> private (newNode v q) ch m) as Hp.
  { intros m [Hm (w & E)]. split; [done|]. exists w. by apply Hin. }
  split; [done|]. split; [done|]. split; [|split; [|split; [|done]]].
  - split; [|exists v; cbn; by rewrite lookup_insert_eq]. intros (i & Hi)%list_elem_of_lookup.
    destruct (q_path _ _ _ _ I i _ Hi) as (w & E). congruence.
  - by eapply later_vals.
  - unfold IsEmpty. rewrite (nextOf_ch _ _ _ _ p _ I' (q_head _ _ _ _ I')), (nextOf_ch _ _ _ _ p _ I (q_head _ _ _ _ I)). done.
Qed.

(** ** One access *)

Definition changed (e : option event) (old new : list Z) : Prop :=
  match e with None => new = old | Some (Enqueued v) => new = old ++ [v] | Some (Dequeued v) => old = v :: new end.

Record exec_spec (q : LockFreeQueue) (ch : list loc) (p kt : nat) (seen : Prop) (c : pc) (q' : LockFreeQueue) (a : after) (ch' : list loc) (p' kt' : nat) : Prop := {
  e_inv : qinv q' ch' p' kt';
  e_later : later q ch p kt q' ch' p' kt';
  e_private : forall m, private q ch m -> owner c <> Some m -> private q' ch' m;
  e_vals : changed (effect c q) (vals q ch p) (vals q' ch' p');
  e_after : match a with
    | Continue c' => owns q' ch' c' /\ (owner c' = None \/ owner c' = owner c) /\ locals_ok q' ch' p' kt' (seen \/ IsEmpty q' = true) c'
    | Return r => r = RDequeue None -> seen
    end;
  e_events : pending q (Some c) ++ option_list (effect c q) = match a with Continue c' => pending q' (Some c') | Return r => resultEvents r end }.

(** An access that changes nothing. *)
Lemma exec_same q ch p kt (seen : Prop) c a : qinv q ch p kt -> owns q ch c -> effect c q = None -> pending q (Some c) = [] ->
  match a with
  | Continue c' => (owner c' = None \/ owner c' = owner c) /\ pending q (Some c') = [] /\ locals_ok q ch p kt (seen \/ IsEmpty q = true) c'
  | Return r => (r = RDequeue None -> seen) /\ resultEvents r = []
  end -> exec_spec q ch p kt seen c q a ch p kt.
Proof.
  intros I Ho He Hp Ha. constructor; try done; [apply later_refl|by rewrite He| |rewrite He, Hp].
  - destruct a as [c'|r]; [|apply Ha]. destruct Ha as (Hc & _ & Hl). split; [|done]. intros n Hn. apply Ho.
    destruct Hc as [Hc|Hc]; congruence.
  - destruct a as [c'|r]; [destruct Ha as (_ & -> & _)|destruct Ha as (_ & ->)]; done.
Qed.

(** An access that may only move the tail. *)
Lemma exec_help q ch p kt (seen : Prop) c k t x a : qinv q ch p kt -> owns q ch c -> effect c q = None -> linked ch k t x ->
  match a with
  | Continue c' => (owner c' = None \/ owner c' = owner c) /\ pending q (Some c) = [] /\ (forall q', pending q' (Some c') = []) /\ forall q' kt', locals_ok q' ch p kt' seen c'
  | Return r => r <> RDequeue None /\ pending q (Some c) = resultEvents r
  end -> exists kt', exec_spec q ch p kt seen c (casTail t x q) a ch p kt'.
Proof.
  intros I Ho He Hl Ha. destruct (casTail_ok q ch p kt k t x I Hl) as (kt' & I' & L & Eh). exists kt'.
  assert (forall m, private q ch m -> private (casTail t x q) ch m) as Hpr by (intros m; unfold private; by rewrite Eh).
  constructor; try done; [by auto|rewrite He; unfold vals; by eapply later_vals| |rewrite He, app_nil_r].
  - destruct a as [c'|r]; [|by destruct Ha]. destruct Ha as (Hc & _ & _ & Hlo). split; [|split; [done|]].
    + intros n Hn. apply Hpr, Ho. destruct Hc as [Hc|Hc]; congruence.
    + assert (locals_ok (casTail t x q) ch p kt' seen c') as H by apply Hlo. eapply locals_later; [exact I'|apply later_refl| |exact H]. by left.
  - destruct a as [c'|r]; [destruct Ha as (_ & -> & -> & _)|destruct Ha as (_ & ->)]; done.
Qed.

Lemma exec_ok q ch p kt (seen : Prop) c : qinv q ch p kt -> owns q ch c -> locals_ok q ch p kt seen c ->
  exists ch' p' kt', exec_spec q ch p kt seen c (exec c q).1 (exec c q).2 ch' p' kt'.
Proof.
  intros I Ho Hl. destruct c as [n|n t|n t nx|n t x|n t|n t| |h|h t|h t nx|t x|h x|h x v]; cbn [exec locals_ok] in *.
  - exists ch, p, kt. apply exec_same; try done. split; [by right|]. split; [done|]. exists kt. split; [lia|apply I].
  - exists ch, p, kt. apply exec_same; try done. split; [by right|]. split; [done|]. destruct Hl as (k & Hk & Ht). exists k.
    split; [done|]. split; [done|]. intros x. by rewrite (nextOf_ch _ _ _ _ _ _ I Ht).
  - exists ch, p, kt. destruct Hl as (k & Hk & Ht & Hx). destruct (decide (t = tail q)); [destruct nx as [x|]|]; apply exec_same; try done;
      (split; [by right|]; split; [done|]; try done).
    + exists k. split; [done|by apply Hx].
    + by exists k.
  - destruct Hl as (k & Hl). destruct (exec_help q ch p kt seen (EnqHelp n t x) k t x (Continue (EnqTail n)) I Ho eq_refl Hl) as (kt' & H); [|by exists ch, p, kt'].
    split; [by right|done].
  - destruct Hl as (k & Hk & Ht). destruct (nextOf q t) as [y|] eqn:En.
    + exists ch, p, kt. apply exec_same; try done; [by cbn; rewrite En|]. split; [by right|done].
    + pose proof (Ho n eq_refl) as Hn. destruct (setNext_ok q ch p kt k t n I Hk Ht En Hn) as [I' Hlk]. exists (ch ++ [n]), p, kt.
      constructor; try done; [apply setNext_later| | | |]; cbn [effect fst snd]; rewrite ?En.
      * intros m Hm Hnm. apply setNext_private; [done|cbn in Hnm; congruence|]. by eapply list_elem_of_lookup_2.
      * eapply setNext_vals; [done|apply Hn].
      * split; [done|]. split; [by left|]. by exists k.
      * cbn. destruct Hn as [_ (v & E)]. unfold valueOf. by rewrite (setNext_value _ _ _ _ _ _ E), E.
  - destruct Hl as (k & Hl). destruct (exec_help q ch p kt seen (EnqSwing n t) k t n (Return (REnqueue (valueOf q n))) I Ho eq_refl Hl) as (kt' & H); [done|by exists ch, p, kt'].
  - exists ch, p, kt. apply exec_same; try done. split; [by left|]. split; [done|]. exists p. split; [lia|apply I].
  - exists ch, p, kt. apply exec_same; try done. split; [by left|]. split; [done|]. destruct Hl as (i & Hi & Hh). exists i, kt.
    pose proof (q_ord _ _ _ _ I). split; [done|]. split; [lia|]. split; [done|apply I].
  - exists ch, p, kt. apply exec_same; try done. split; [by left|]. split; [done|]. destruct Hl as (i & k & Hi & Hk & Hh & Ht). exists i, k.
    split; [done|]. split; [done|]. split; [done|]. split; [done|]. rewrite (nextOf_ch _ _ _ _ _ _ I Hh). destruct (ch !! S i) eqn:En; [done|]. right.
    pose proof (last_index _ _ _ Hh En). pose proof (lookup_lt_Some _ _ _ (q_head _ _ _ _ I)). assert (i = p) as -> by lia.
    unfold IsEmpty. cbn [fst]. rewrite (nextOf_ch _ _ _ _ _ _ I (q_head _ _ _ _ I)), En. done.
  - exists ch, p, kt. destruct Hl as (i & k & Hi & Hk & Hh & Ht & Hx). destruct (decide (h = head q)); [destruct nx as [x|]; [destruct (decide (h = t)) as [<-|Hne]|]|]; apply exec_same; try done.
    + split; [by left|]. split; [done|]. by exists i.
    + split; [by left|]. split; [done|]. exists i. split; [|done]. assert (i <> k) by (intros ->; congruence). lia.
    + split; [by left|done].
  - destruct Hl as (k & Hl). destruct (exec_help q ch p kt seen (DeqHelp t x) k t x (Continue DeqHead) I Ho eq_refl Hl) as (kt' & H); [|by exists ch, p, kt'].
    split; [by left|done].
  - exists ch, p, kt. apply exec_same; try done. split; [by left|]. split; [done|]. by split.
  - destruct Hl as [(i & Hi & Hlk) Hv]. destruct (decide (head q = h)) as [<-|Hne].
    + destruct (setHead_ok q ch p kt i x I Hi Hlk) as (I' & L & Ev). exists ch, (S p), kt.
      constructor; try done; cbn [effect fst snd]; rewrite ?decide_True by done; [|done]. by rewrite <- Hv.
    + exists ch, p, kt. apply exec_same; try done; [cbn; by rewrite decide_False|]. split; [by left|done].
Qed.

(** ** All runs *)

Record sinv (s : sys) (ch : list loc) (p kt : nat) : Prop := {
  s_queue : qinv (queue s) ch p kt;
  s_owns : forall i c, threads s !! i = Some c -> owns (queue s) ch c;
  s_locals : forall i c, threads s !! i = Some c -> locals_ok (queue s) ch p kt (i ∈ sawEmpty s) c;
  s_apart : forall i j c d n, threads s !! i = Some c -> threads s !! j = Some d -> owner c = Some n -> owner d = Some n -> i = j;
  s_hist : fifo (map snd (hist s)) [] = Some (vals (queue s) ch p);
  s_results : forall i, eventsOf i (hist s) = resultsOf i (returned s) ++ pending (queue s) (threads s !! i);
  s_empty : forall i b, (i, RDequeue None, b) ∈ returned s -> b = true }.

Lemma fifo_app es e l l' l'' : fifo es l = Some l' -> changed (Some e) l' l'' -> fifo (es ++ [e]) l = Some l''.
Proof.
  revert l. induction es as [|[v|v] es IH]; intros l; cbn [fifo app].
  - intros [= ->]. destruct e as [v|v]; cbn; [by intros ->|]. intros ->. by rewrite Z.eqb_refl.
  - apply IH.
  - destruct l as [|w l]; [done|]. destruct (v =? w); [apply IH|done].
Qed.

Lemma eventsOf_app i h h' : eventsOf i (h ++ h') = eventsOf i h ++ eventsOf i h'.
Proof. unfold eventsOf. by rewrite List.filter_app, map_app. Qed.
Lemma resultsOf_app i h h' : resultsOf i (h ++ h') = resultsOf i h ++ resultsOf i h'.
Proof. unfold resultsOf. by rewrite List.filter_app, map_app, concat_app. Qed.

Lemma resultsOf_one i j r b : resultsOf j [(i, r, b)] = if decide (i = j) then resultEvents r else [].
Proof.
  unfold resultsOf. cbn. destruct (decide (i = j)) as [->|Hij]; [rewrite Nat.eqb_refl; cbn; by rewrite app_nil_r|by rewrite (proj2 (Nat.eqb_neq i j))].
Qed.

Lemma observe_mono q ts seen i : i ∈ seen -> i ∈ observe q ts seen.
Proof. unfold observe. destruct (IsEmpty q); set_solver. Qed.
Lemma observe_empty q ts seen i : is_Some (ts !! i) -> IsEmpty q = true -> i ∈ observe q ts seen.
Proof. intros Hi%elem_of_dom E. unfold observe. rewrite E. set_solver. Qed.

(** The effects recorded by an access. *)
Definition noted (i : nat) (c : pc) (q : LockFreeQueue) : list (nat * event) := map (pair i) (option_list (effect c q)).
Lemma access_hist i c s : hist (access i c s) = hist s ++ noted i c (queue s).
Proof. unfold access, noted. destruct (effect c (queue s)), (exec c (queue s)) as [q [c'|r]]; cbn; by rewrite ?app_nil_r. Qed.
Lemma access_queue i c s : queue (access i c s) = (exec c (queue s)).1.
Proof. unfold access. by destruct (exec c (queue s)) as [q [c'|r]]. Qed.

Lemma eventsOf_noted i j c q : eventsOf j (noted i c q) = if decide (i = j) then option_list (effect c q) else [].
Proof.
  unfold noted, eventsOf. destruct (effect c q) as [e|]; cbn; [|by destruct (decide (i = j))].
  destruct (decide (i = j)) as [->|Hij]; [by rewrite Nat.eqb_refl|]. by rewrite (proj2 (Nat.eqb_neq i j)).
Qed.

Lemma pending_later q ch p kt q' ch' p' kt' seen c : qinv q ch p kt -> later q ch p kt q' ch' p' kt' -> (forall d, c = Some d -> locals_ok q ch p kt seen d) ->
  pending q' c = pending q c.
Proof.
  intros I L Hc. destruct c as [[]|]; try done. destruct (Hc _ eq_refl) as (k & _ & Hn). cbn. by erewrite later_valueOf.
Qed.

Lemma initial_inv : sinv initial [0%nat] 0 0.
Proof.
  constructor; cbn; try done; try (by intros i; rewrite lookup_empty); try set_solver.
  constructor; cbn; try done; try lia.
  - intros [|k] a; [|done]. intros [= <-]. exists 0. by rewrite lookup_singleton_eq.
  - apply NoDup_singleton.
  - intros a n [<- _]%lookup_singleton_Some. lia.
Qed.

(** A call: the new thread is the only change that others could see. *)
Lemma call_inv s ch p kt i q' c : sinv s ch p kt -> threads s !! i = None ->
  qinv q' ch p kt -> later (queue s) ch p kt q' ch p kt -> vals q' ch p = vals (queue s) ch p -> (forall m, private (queue s) ch m -> private q' ch m) ->
  owns q' ch c -> (forall n, owner c = Some n -> ~ private (queue s) ch n) -> locals_ok q' ch p kt (i ∈ observe q' (<[i := c]> (threads s)) (sawEmpty s ∖ {[i]})) c -> pending q' (Some c) = [] ->
  sinv (call i (q', c) s) ch p kt.
Proof.
  intros I Hi Hq L Hv Hp Ho Hn Hlo Hpd. pose proof I as [I1 I2 I3 I4 I5 I6 I7]. constructor; cbn [call queue threads hist returned sawEmpty fst snd]; try done.
  - intros j d [[<- <-]|[Hj Hd]]%lookup_insert_Some; [done|]. intros n E. apply Hp. by eapply I2.
  - intros j d [[<- <-]|[Hj Hd]]%lookup_insert_Some; [done|].
    eapply locals_later; [exact I1|exact L| |by apply I3]. intros Hs. apply observe_mono. set_solver.
  - intros j k d e n [[<- <-]|[Hj Hd]]%lookup_insert_Some [[<- <-]|[Hk He]]%lookup_insert_Some Ed Ee; [done| | |by eapply I4].
    + destruct (Hn n Ed). by eapply I2.
    + destruct (Hn n Ee). by eapply I2.
  - by rewrite Hv.
  - intros j. rewrite I6. f_equal. destruct (decide (i = j)) as [<-|Hij].
    + by rewrite lookup_insert_eq, Hi, Hpd.
    + rewrite lookup_insert_ne by done. symmetry. eapply pending_later; [exact I1|exact L|]. intros d Hd. by apply I3.
Qed.

Lemma access_inv s ch p kt i c : sinv s ch p kt -> threads s !! i = Some c -> exists ch' p' kt', sinv (access i c s) ch' p' kt'.
Proof.
  intros I Hc. pose proof I as [I1 I2 I3 I4 I5 I6 I7].
  destruct (exec_ok (queue s) ch p kt (i ∈ sawEmpty s) c I1 (I2 _ _ Hc) (I3 _ _ Hc)) as (ch' & p' & kt' & [E1 E2 E3 E4 E5 E6]).
  exists ch', p', kt'.
  assert (forall j d, i <> j -> threads s !! j = Some d -> owns (exec c (queue s)).1 ch' d) as Hown.
  { intros j d Hij Hd n Hn. apply E3; [by eapply I2|]. intros Hcn. by destruct Hij; eapply I4. }
  assert (forall j d, threads s !! j = Some d -> forall seen : Prop, (j ∈ sawEmpty s -> seen) -> locals_ok (exec c (queue s)).1 ch' p' kt' seen d) as Hloc.
  { intros j d Hd seen Hs. eapply locals_later; [exact I1|exact E2|exact Hs|by apply I3]. }
  assert (fifo (map snd (hist (access i c s))) [] = Some (vals (exec c (queue s)).1 ch' p')) as Hf.
  { rewrite access_hist, map_app. unfold noted. destruct (effect c (queue s)) as [e|]; cbn.
    - by eapply fifo_app.
    - rewrite app_nil_r, I5. by rewrite E4. }
  assert (forall j, i <> j -> eventsOf j (hist (access i c s)) = resultsOf j (returned s) ++ pending (exec c (queue s)).1 (threads s !! j)) as Hoth.
  { intros j Hij. rewrite access_hist, eventsOf_app, eventsOf_noted, decide_False, app_nil_r, I6 by done. f_equal.
    symmetry. eapply pending_later; [exact I1|exact E2|]. intros d Hd. by apply I3. }
  assert (eventsOf i (hist (access i c s)) = resultsOf i (returned s) ++ (pending (queue s) (Some c) ++ option_list (effect c (queue s)))) as Hself.
  { by rewrite access_hist, eventsOf_app, eventsOf_noted, decide_True, I6, Hc, app_assoc. }
  rewrite E6 in Hself. unfold access in *. destruct (exec c (queue s)) as [q' [c'|r]]; cbn [fst snd] in *.
  - destruct E5 as (Ho & Hc' & Hl). constructor; cbn [queue threads hist returned sawEmpty] in *; try done.
    + intros j d [[<- <-]|[Hj Hd]]%lookup_insert_Some; [done|by eapply Hown].
    + intros j d [[<- <-]|[Hj Hd]]%lookup_insert_Some.
      * eapply locals_later; [exact E1|apply later_refl| |exact Hl]. intros [Hs|He]; [by apply observe_mono|by apply observe_empty].
      * apply (Hloc j d Hd). apply observe_mono.
    + intros j k d e n [[<- <-]|[Hj Hd]]%lookup_insert_Some [[<- <-]|[Hk He]]%lookup_insert_Some Ed Ee; [done| | |by eapply I4].
      * eapply I4; [exact Hc|exact He| |exact Ee]. destruct Hc'; congruence.
      * eapply I4; [exact Hd|exact Hc|exact Ed|]. destruct Hc'; congruence.
    + intros j. destruct (decide (i = j)) as [<-|Hij]; [by rewrite lookup_insert_eq|rewrite lookup_insert_ne by done; by apply Hoth].
  - constructor; cbn [queue threads hist returned sawEmpty] in *; try done.
    + intros j d [Hj Hd]%lookup_delete_Some. by eapply Hown.
    + intros j d [Hj Hd]%lookup_delete_Some. apply (Hloc j d Hd). apply observe_mono.
    + intros j k d e n [Hj Hd]%lookup_delete_Some [Hk He]%lookup_delete_Some Ed Ee. by eapply I4.
    + intros j. rewrite resultsOf_app. destruct (decide (i = j)) as [<-|Hij].
      * rewrite lookup_delete_eq. cbn [pending]. by rewrite app_nil_r, Hself, resultsOf_one, decide_True.
      * rewrite lookup_delete_ne by done. by rewrite (Hoth j Hij), resultsOf_one, decide_False, app_nil_r.
    + intros j b [Hin|Hin%list_elem_of_singleton]%elem_of_app; [by eapply I7|]. injection Hin as -> <- ->. apply bool_decide_eq_true. by apply E5.
Qed.

Lemma reachable_inv s : rtc step initial s -> exists ch p kt, sinv s ch p kt.
Proof.
  intros H. apply (rtc_ind_r (R := step) (fun s => exists ch p kt, sinv s ch p kt) initial) in H; [done|exists [0%nat], 0%nat, 0%nat; apply initial_inv|].
  clear. intros s s' _ Hs (ch & p & kt & I). destruct Hs as [s i v Hi|s i Hi|s i c Hc]; [exists ch, p, kt| |by eapply access_inv].
  - destruct (newNode_ok (queue s) ch p kt v (s_queue _ _ _ _ I)) as (I' & L & Hp & Hv & _ & Hf & Hm).
    apply call_inv; try done; cbn; [by intros n [= <-]|]. intros n [= <-] [_ (w & E)]. congruence.
  - exists ch, p, kt. apply call_inv; try done; [apply I|apply later_refl].
Qed.

(** ** The loops over the nodes *)

Definition holds (q : LockFreeQueue) (l : list Z) : Prop := exists ch p kt, qinv q ch p kt /\ vals q ch p = l.

Lemma chain_size q ch p kt : qinv q ch p kt -> (length ch <= size (heap q))%nat.
Proof.
  intros I. rewrite <- size_dom, <- (size_list_to_set (C := gset loc) ch (q_nodup _ _ _ _ I)). apply subseteq_size.
  intros a. rewrite elem_of_list_to_set. intros (k & Hk)%list_elem_of_lookup. destruct (q_path _ _ _ _ I k a Hk) as (v & E).
  apply elem_of_dom. by eexists.
Qed.

Lemma walk_chain q ch p kt fuel k : qinv q ch p kt -> (length ch <= fuel + k)%nat -> walk fuel q (ch !! k) = drop k ch.
Proof.
  intros I. revert k. induction fuel as [|fuel IH]; intros k Hf.
  - by rewrite drop_ge by lia.
  - cbn [walk]. destruct (ch !! k) as [a|] eqn:E.
    + rewrite (drop_S _ a _ E), (nextOf_ch _ _ _ _ _ _ I E). f_equal. apply IH. lia.
    + apply lookup_ge_None in E. by rewrite drop_ge.
Qed.

Lemma nodes_chain q ch p kt : qinv q ch p kt -> nodes q = drop (S p) ch.
Proof.
  intros I. unfold nodes. rewrite (nextOf_ch _ _ _ _ _ _ I (q_head _ _ _ _ I)). eapply walk_chain; [exact I|].
  pose proof (chain_size _ _ _ _ I). lia.
Qed.

Lemma sizeLoop_walk fuel q a n : sizeLoop fuel q a n = n + zlen (walk fuel q a).
Proof.
  revert a n. induction fuel as [|fuel IH]; intros a n; cbn; [unfold zlen; cbn; lia|].
  destruct a as [a|]; [|unfold zlen; cbn; lia]. rewrite IH. unfold zlen. cbn. lia.
Qed.

Lemma holds_contents q l : holds q l -> contents q = l /\ Size q = zlen l /\ IsEmpty q = bool_decide (l = []).
Proof.
  intros (ch & p & kt & I & <-). split; [|split].
  - unfold contents. by rewrite (nodes_chain _ _ _ _ I).
  - unfold Size. rewrite sizeLoop_walk. change (walk _ _ _) with (nodes q). rewrite (nodes_chain _ _ _ _ I). unfold vals, zlen. rewrite length_map. lia.
  - by eapply empty_vals.
Qed.
Lemma reachable_holds s : rtc step initial s -> holds (queue s) (contents (queue s)).
Proof.
  intros (ch & p & kt & I)%reachable_inv. pose proof (s_queue _ _ _ _ I) as Iq. exists ch, p, kt. split; [done|].
  unfold contents. by rewrite (nodes_chain _ _ _ _ Iq).
Qed.

(** C7: the queue is linearizable.  In every run of any number of threads the calls
    take effect one at a time, each at one access between its call and its return;
    the effects in their order are a run of the list, first in, first out, that
    ends with what the queue holds; the results of each thread are its effects in
    order, but for an enqueue that has not returned yet; and where a dequeue
    answered that the queue is empty it was so at some moment of that call. *)
Theorem lockfree_queue_linearizable s : rtc step initial s ->
  fifo (map snd (hist s)) [] = Some (contents (queue s)) /\
  (forall i, eventsOf i (hist s) = resultsOf i (returned s) ++ pending (queue s) (threads s !! i)) /\
  (forall i b, (i, RDequeue None, b) ∈ returned s -> b = true).
Proof.
  intros (ch & p & kt & I)%reachable_inv. pose proof (s_queue _ _ _ _ I) as Iq. split; [|split; [apply I|apply I]].
  rewrite (s_hist _ _ _ _ I). unfold contents. by rewrite (nodes_chain _ _ _ _ Iq).
Qed.

(** ** A thread alone *)

Lemma solo_more n m c q x : solo n c q = Some x -> (n <= m)%nat -> solo m c q = Some x.
Proof.
  revert m c q. induction n as [|n IH]; intros m c q; [done|]. intros H Hm. destruct m as [|m]; [lia|]. cbn in *.
  destruct (exec c q) as [q' [c'|r]]; [|done]. apply IH; [done|lia].
Qed.

Lemma solo_step n c q c' : (exec c q).2 = Continue c' -> is_Some (solo n c' (exec c q).1) -> is_Some (solo (S n) c q).
Proof. cbn. destruct (exec c q) as [q' a]. cbn. by intros ->. Qed.

Lemma solo_up n m c q : is_Some (solo n c q) -> (n <= m)%nat -> is_Some (solo m c q).
Proof. intros [x Hx] Hm. exists x. by eapply solo_more. Qed.

(** [EnqTail] and [DeqHead] when the tail is the last node, and when it lags. *)
Lemma solo_enq_clean n q : nextOf q (tail q) = None -> is_Some (solo 5 (EnqTail n) q).
Proof. intros En. repeat (progress (cbn [solo exec]; rewrite ?En; rewrite ?decide_True by done)). by eexists. Qed.
Lemma solo_deq_ahead q : head q <> tail q -> is_Some (solo 6 DeqHead q).
Proof.
  intros Hne. cbn [solo exec]. rewrite decide_True by done. destruct (nextOf q (head q)) as [x|]; [|by eexists].
  rewrite decide_False by done. cbn [solo exec]. rewrite decide_True by done. by eexists.
Qed.

Lemma lag_clean q ch p kt x : qinv q ch p kt -> nextOf q (tail q) = Some x -> nextOf (casTail (tail q) x q) x = None.
Proof.
  intros I. pose proof (q_tail _ _ _ _ I) as Ht. rewrite (nextOf_ch _ _ _ _ _ _ I Ht). intros Hx.
  unfold nextOf. replace (heap (casTail (tail q) x q)) with (heap q) by (unfold casTail; by case_decide).
  change (nextOf q x = None). rewrite (nextOf_ch _ _ _ _ _ _ I Hx). apply lookup_ge_None. pose proof (q_lag _ _ _ _ I). lia.
Qed.
Lemma casTail_hit q x : tail (casTail (tail q) x q) = x.
Proof. unfold casTail. by rewrite decide_True. Qed.

Lemma solo_EnqTail q ch p kt n : qinv q ch p kt -> is_Some (solo 9 (EnqTail n) q).
Proof.
  intros I. destruct (nextOf q (tail q)) as [x|] eqn:En; [|apply (solo_up 5); [by apply solo_enq_clean|lia]].
  pose proof (lag_clean _ _ _ _ _ I En) as Hc. rewrite <- (casTail_hit q x) in Hc at 2.
  destruct (solo_enq_clean n _ Hc) as [r Hr]. exists r. rewrite <- Hr.
  change (solo 9 (EnqTail n) q) with (solo 7 (EnqCheck n (tail q) (nextOf q (tail q))) q). rewrite En.
  change (solo 7 (EnqCheck n (tail q) (Some x)) q) with
    (match (if decide (tail q = tail q) then (q, Continue (EnqHelp n (tail q) x)) else (q, Continue (EnqTail n))) with (q, Continue c) => solo 6 c q | (q, Return r) => Some (q, r) end).
  by rewrite decide_True.
Qed.

Lemma solo_DeqHead q ch p kt : qinv q ch p kt -> is_Some (solo 11 DeqHead q).
Proof.
  intros I. destruct (decide (head q = tail q)) as [E|Hne]; [|apply (solo_up 6); [by apply solo_deq_ahead|lia]].
  cbn [solo exec]. rewrite decide_True by done. destruct (nextOf q (head q)) as [x|] eqn:En; [|by eexists]. rewrite decide_True by done.
  cbn [solo exec]. apply solo_deq_ahead. unfold casTail. rewrite decide_True by done. cbn [head tail]. intros <-.
  rewrite (nextOf_ch _ _ _ _ _ _ I (q_head _ _ _ _ I)) in En. pose proof (index_inj (q_nodup _ _ _ _ I) En (q_head _ _ _ _ I)). lia.
Qed.

Lemma solo_start c q ch p kt : qinv q ch p kt -> (c = DeqHead \/ exists n, c = EnqTail n) -> is_Some (solo 11 c q).
Proof. intros I [->|[n ->]]; [by eapply solo_DeqHead|]. apply (solo_up 9); [by eapply solo_EnqTail|lia]. Qed.

Lemma solo_exec n c q : match (exec c q).2 with Continue c' => is_Some (solo n c' (exec c q).1) | Return _ => True end -> is_Some (solo (S n) c q).
Proof. cbn. destruct (exec c q) as [q' [c'|r]]; [done|]. by eexists. Qed.

(** Every other access is followed, within a few, by a start or the return. *)
Lemma solo_any q ch p kt seen c : qinv q ch p kt -> owns q ch c -> locals_ok q ch p kt seen c -> is_Some (solo soloFuel c q).
Proof.
  intros I Ho Hl.
  assert (forall f c', (11 <= f)%nat -> (c' = DeqHead \/ exists m, c' = EnqTail m) -> is_Some (solo f c' q)) as Hstart.
  { intros f c' Hf Hc. apply (solo_up 11); [by eapply solo_start|done]. }
  assert (forall f k t x c', (11 <= f)%nat -> linked ch k t x -> (c' = DeqHead \/ exists m, c' = EnqTail m) -> is_Some (solo f c' (casTail t x q))) as Hhelp.
  { intros f k t x c' Hf Hk Hc. destruct (casTail_ok q ch p kt k t x I Hk) as (kt' & I' & _). apply (solo_up 11); [by eapply solo_start|done]. }
  assert (forall n t, is_Some (solo 12 (EnqLink n t) q)) as Hlink.
  { intros n t. apply solo_exec. cbn [exec]. destruct (nextOf q t); cbn [fst snd]; [apply Hstart; eauto; lia|]. by apply solo_exec. }
  assert (forall n t nx, (forall x, nx = Some x -> exists k, linked ch k t x) -> is_Some (solo 13 (EnqCheck n t nx) q)) as Hcheck.
  { intros n t nx Hx. apply solo_exec. cbn [exec]. case_decide; [|apply Hstart; eauto; lia]. destruct nx as [x|]; [|apply Hlink].
    destruct (Hx x eq_refl) as (k & Hk). apply solo_exec. cbn [exec fst snd]. eapply Hhelp; eauto; lia. }
  assert (forall h x v, is_Some (solo 12 (DeqCas h x v) q)) as Hcas.
  { intros h x v. apply solo_exec. cbn [exec]. case_decide; [done|]. apply Hstart; eauto; lia. }
  assert (forall h t nx, (forall x, nx = Some x -> exists k, linked ch k h x) -> is_Some (solo 14 (DeqCheck h t nx) q)) as Hdeq.
  { intros h t nx Hx. apply solo_exec. cbn [exec]. case_decide; [|apply Hstart; eauto; lia]. destruct nx as [x|]; [|done].
    destruct (Hx x eq_refl) as (k & Hk). case_decide as Eht; cbn [fst snd]; apply solo_exec; cbn [exec fst snd]; [rewrite <- Eht; eapply Hhelp; eauto; lia|apply Hcas]. }
  assert (forall a k, ch !! k = Some a -> forall x, nextOf q a = Some x -> exists k, linked ch k a x) as Hnext.
  { intros a k Ha x. rewrite (nextOf_ch _ _ _ _ _ _ I Ha). intros Hx. by exists k. }
  unfold soloFuel. destruct c as [n|n t|n t nx|n t x|n t|n t| |h|h t|h t nx|t x|h x|h x v]; cbn [locals_ok] in Hl.
  - apply Hstart; eauto; lia.
  - destruct Hl as (k & _ & Ht). apply (solo_up 14); [|lia]. apply solo_exec. cbn [exec fst snd]. apply Hcheck. by eapply Hnext.
  - destruct Hl as (k & _ & Ht & Hx). apply (solo_up 13); [|lia]. apply Hcheck. intros x E. exists k. split; auto.
  - destruct Hl as (k & Hk). apply (solo_up 12); [|lia]. apply solo_exec. cbn [exec fst snd]. eapply Hhelp; eauto; lia.
  - apply (solo_up 12); [apply Hlink|lia].
  - by apply solo_exec.
  - apply Hstart; eauto; lia.
  - destruct Hl as (i & _ & Hh). apply (solo_up 16); [|lia]. do 2 (apply solo_exec; cbn [exec fst snd]). apply Hdeq. by eapply Hnext.
  - destruct Hl as (i & k & _ & _ & Hh & _). apply (solo_up 15); [|lia]. apply solo_exec. cbn [exec fst snd]. apply Hdeq. by eapply Hnext.
  - destruct Hl as (i & k & _ & _ & Hh & _ & Hx). apply (solo_up 14); [|lia]. apply Hdeq. intros x ->. exists i. by split.
  - destruct Hl as (k & Hk). apply (solo_up 12); [|lia]. apply solo_exec. cbn [exec fst snd]. eapply Hhelp; eauto; lia.
  - apply (solo_up 13); [|lia]. apply solo_exec. cbn [exec fst snd]. apply Hcas.
  - apply (solo_up 12); [apply Hcas|lia].
Qed.

(** C22: a call ends if its thread is left alone: from any state of any run, a thread
    in a call returns after at most twenty of its own accesses, wherever the others
    stopped. *)
Theorem lockfree_queue_obstruction_free s i c : rtc step initial s -> threads s !! i = Some c -> is_Some (solo soloFuel c (queue s)).
Proof.
  intros (ch & p & kt & I)%reachable_inv Hc. eapply solo_any; [apply I|by eapply s_owns|by eapply s_locals].
Qed.

(** ** Calls that nobody disturbs *)

Lemma exec_value c q a : valueOf (exec c q).1 a = valueOf q a.
Proof.
  assert (forall t x, valueOf (casTail t x q) a = valueOf q a) as Hc by (intros t x; unfold casTail; by case_decide).
  destruct c; cbn [exec]; repeat (case_match; try done); cbn [fst]; try done.
  unfold valueOf, setNext. cbn. destruct (decide (a = t)) as [->|Hne]; [|by rewrite lookup_alter_ne].
  rewrite lookup_alter_eq. by destruct (heap q !! t).
Qed.

(** The node of an enqueue; a dequeue has none. *)
Definition enqNode (c : pc) : option loc := match c with EnqSwing n _ => Some n | _ => owner c end.
Lemma exec_kind c q : match (exec c q).2 with
  | Continue c' => enqNode c' = enqNode c
  | Return r => match enqNode c with Some n => r = REnqueue (valueOf q n) | None => exists o, r = RDequeue o end end.
Proof.
  destruct c as [n|n t|n t [x|]|n t x|n t|n t| |h|h t|h t [x|]|t x|h x|h x v]; cbn [exec]; repeat case_decide; try done; try by eexists.
  by destruct (nextOf q t).
Qed.

Lemma solo_kind fuel c q q' r : solo fuel c q = Some (q', r) -> match enqNode c with Some n => r = REnqueue (valueOf q n) | None => exists o, r = RDequeue o end.
Proof.
  revert c q. induction fuel as [|fuel IH]; [done|]. intros c q H. cbn [solo] in H.
  pose proof (exec_kind c q) as Hk. pose proof (exec_value c q) as Hv. destruct (exec c q) as [q1 [c'|r']]; cbn [fst snd] in *; [|by injection H as <- <-].
  apply IH in H. rewrite Hk in H. destruct (enqNode c) as [n|]; [by rewrite <- Hv|done].
Qed.

Lemma effect_enqueue c q v : effect c q = Some (Enqueued v) -> exists n t, (exec c q).2 = Continue (EnqSwing n t).
Proof. destruct c; cbn; try done; [|by case_decide]. destruct (nextOf q t); [done|]. by eexists _, _. Qed.

Lemma solo_effects fuel q ch p kt c q' r : qinv q ch p kt -> owns q ch c -> locals_ok q ch p kt (vals q ch p = []) c ->
  solo fuel c q = Some (q', r) ->
  exists ch' p' kt' es, qinv q' ch' p' kt' /\ resultEvents r = pending q (Some c) ++ es /\ fifo es (vals q ch p) = Some (vals q' ch' p') /\
    (r = RDequeue None -> vals q ch p = []).
Proof.
  revert q ch p kt c. induction fuel as [|fuel IH]; [done|]. intros q ch p kt c I Ho Hl H. cbn [solo] in H.
  destruct (exec_ok q ch p kt _ c I Ho Hl) as (ch1 & p1 & kt1 & [E1 _ _ E4 E5 E6]). pose proof (effect_enqueue c q) as Heq.
  assert (fifo (option_list (effect c q)) (vals q ch p) = Some (vals (exec c q).1 ch1 p1)) as Hf.
  { destruct (effect c q) as [[v|v]|]; cbn in *; [by rewrite E4|by rewrite E4, Z.eqb_refl|by rewrite E4]. }
  assert (forall es l l1 l2, fifo (option_list (effect c q)) l = Some l1 -> fifo es l1 = Some l2 -> fifo (option_list (effect c q) ++ es) l = Some l2) as Happ.
  { intros es l l1 l2. destruct (effect c q) as [[v|v]|]; cbn; [by intros [= ->]| |by intros [= ->]]. destruct l as [|w l]; [done|]. destruct (v =? w); [by intros [= ->]|done]. }
  destruct (exec c q) as [q1 [c'|r']]; cbn [fst snd] in *.
  - destruct E5 as (Ho' & _ & Hl').
    assert (locals_ok q1 ch1 p1 kt1 (vals q1 ch1 p1 = []) c') as Hl1.
    { destruct (effect c q) as [[v|v]|]; cbn in E4.
      - destruct (Heq v eq_refl) as (n & t & [= ->]). exact Hl'.
      - eapply locals_later; [exact E1|apply later_refl| |exact Hl']. rewrite E4. intros [?|He]; [done|].
        rewrite (empty_vals _ _ _ _ E1) in He. by apply bool_decide_eq_true in He.
      - eapply locals_later; [exact E1|apply later_refl| |exact Hl']. rewrite <- E4. intros [?|He]; [done|].
        rewrite (empty_vals _ _ _ _ E1) in He. by apply bool_decide_eq_true in He. }
    destruct (IH q1 ch1 p1 kt1 c' E1 Ho' Hl1 H) as (ch2 & p2 & kt2 & es & I2 & Ee & Ef & En). exists ch2, p2, kt2, (option_list (effect c q) ++ es).
    split; [done|]. split; [by rewrite Ee, <- E6, app_assoc|]. split; [by eapply Happ|].
    intros ->. cbn [resultEvents] in Ee. symmetry in Ee. apply app_nil in Ee as [Ep ->]. rewrite Ep in E6. apply app_nil in E6 as [_ E6].
    destruct (effect c q); [done|]. cbn in E4. rewrite <- E4. auto.
  - injection H as <- <-. exists ch1, p1, kt1, (option_list (effect c q)). split; [done|]. split; [by rewrite E6|]. split; [done|exact E5].
Qed.

Lemma enqueue_alone q l v : holds q l -> exists q', Enqueue v q = Some q' /\ holds q' (l ++ [v]).
Proof.
  intros (ch & p & kt & I & <-). destruct (newNode_ok q ch p kt v I) as (I' & _ & Hp & Hv & _).
  assert (owns (newNode v q) ch (EnqTail (fresh q))) as Ho by (by intros n [= <-]).
  destruct (solo_any _ _ _ _ (vals (newNode v q) ch p = []) (EnqTail (fresh q)) I' Ho ltac:(done)) as [[q' r] Hs].
  exists q'. unfold Enqueue, callEnqueue. rewrite Hs. split; [done|].
  destruct (solo_effects _ _ _ _ _ (EnqTail (fresh q)) _ _ I' Ho ltac:(done) Hs) as (ch' & p' & kt' & es & I2 & Ee & Ef & _).
  pose proof (solo_kind _ _ _ _ _ Hs) as ->. cbn in Ee. subst es. exists ch', p', kt'. split; [done|].
  rewrite Hv in Ef. cbn in Ef. unfold valueOf at 1, newNode at 1 in Ef. cbn in Ef. rewrite lookup_insert_eq in Ef. by injection Ef.
Qed.
Lemma dequeue_alone q l : holds q l -> exists q', Dequeue q = Some (q', List.hd_error l) /\ holds q' (List.tl l).
Proof.
  intros (ch & p & kt & I & <-). assert (owns q ch DeqHead) as Ho by done.
  destruct (solo_any _ _ _ _ (vals q ch p = []) DeqHead I Ho ltac:(done)) as [[q' r] Hs].
  destruct (solo_effects _ _ _ _ _ DeqHead _ _ I Ho ltac:(done) Hs) as (ch' & p' & kt' & es & I2 & Ee & Ef & En).
  destruct (solo_kind _ _ _ _ _ Hs) as [o ->]. exists q'. unfold Dequeue, callDequeue. rewrite Hs. destruct o as [v|].
  + cbn in Ee. subst es. cbn in Ef. destruct (vals q ch p) as [|w l]; [done|]. destruct (Z.eqb_spec v w) as [->|]; [|done]. injection Ef as Ef.
    split; [done|]. by exists ch', p', kt'.
  + cbn in Ee. subst es. rewrite En in * by done. cbn in Ef. injection Ef as Ef. split; [done|]. by exists ch', p', kt'.
Qed.

(** A call that no other disturbs, from any state the queue can be in, is the
    operation of the list: [Enqueue] adds at the end, [Dequeue] takes the first or
    finds nothing, and [Size] and [IsEmpty] are those of the list. *)
Theorem lockfree_queue_calls q l : holds q l ->
  (forall v, exists q', Enqueue v q = Some q' /\ holds q' (l ++ [v])) /\
  (exists q', Dequeue q = Some (q', List.hd_error l) /\ holds q' (List.tl l)) /\
  Size q = zlen l /\ IsEmpty q = bool_decide (l = []).
Proof. intros Hq. split; [|split; [|apply (holds_contents q l Hq)]]; [intros v; by apply enqueue_alone|by apply dequeue_alone]. Qed.

Lemma drainLoop_holds fuel q l acc : holds q l -> (length l < fuel)%nat -> exists q', drainLoop fuel q acc = Some (q', acc ++ l) /\ holds q' [].
Proof.
  revert q l acc. induction fuel as [|fuel IH]; intros q l acc Hq Hf; [lia|].
  destruct (dequeue_alone q l Hq) as (q' & Ed & Hq'). cbn [drainLoop]. rewrite Ed. destruct l as [|v l]; cbn in *.
  - exists q'. by rewrite app_nil_r.
  - destruct (IH q' l (acc ++ [v]) Hq') as (q2 & -> & H2); [lia|]. exists q2. by rewrite <- app_assoc.
Qed.
(** [Drain] takes everything, in order, and leaves the queue empty. *)
Lemma Drain_holds q l : holds q l -> exists q', Drain q = Some (q', l) /\ holds q' [].
Proof.
  intros Hq. apply (drainLoop_holds (size (heap q)) q l []); [done|]. destruct Hq as (ch & p & kt & I & <-). unfold vals. rewrite length_map, length_drop.
  pose proof (chain_size _ _ _ _ I). pose proof (lookup_lt_Some _ _ _ (q_head _ _ _ _ I)). lia.
Qed.

(** ** Two threads that meet *)

(** Thread 0 enqueues 7 and stops after linking its node; thread 1 dequeues, helps
    the tail forward and takes the 7; then the first thread returns. *)
Definition run (order : list nat) (s : sys) : sys := foldl (fun s i => match threads s !! i with Some c => access i c s | None => s end) s order.
Definition meeting : sys := let s := call 0 (callEnqueue 7 (queue initial)) initial in call 1 (callDequeue (queue s)) s.

Lemma run_reaches order s : rtc step s (run order s).
Proof.
  revert s. induction order as [|i order IH]; intros s; [done|]. unfold run. cbn [foldl]. destruct (threads s !! i) as [c|] eqn:E; [|apply IH].
  eapply rtc_l; [by apply step_access|apply IH].
Qed.

Lemma meeting_reachable order : rtc step initial (run order meeting).
Proof. eapply rtc_l; [by apply (step_enqueue _ 0%nat 7)|]. eapply rtc_l; [by apply (step_dequeue _ 1%nat)|]. apply run_reaches. Qed.

Definition met : sys := run [0; 0; 0; 0; 1; 1; 1; 1; 1; 1; 1; 1; 1; 1; 1; 0]%nat meeting.

Lemma lockfree_queue_linearizable_witness :
  returned met = [(1%nat, RDequeue (Some 7), true); (0%nat, REnqueue 7, true)] /\
  eventsOf 1 (hist met) = [Dequeued 7] /\ fifo (map snd (hist met)) [] = Some [].
Proof.
  destruct (lockfree_queue_linearizable met (meeting_reachable _)) as (Hf & He & _).
  assert (returned met = [(1%nat, RDequeue (Some 7), true); (0%nat, REnqueue 7, true)]) as Er by (vm_compute; reflexivity).
  split; [exact Er|]. split; [rewrite He, Er; vm_compute; reflexivity|]. rewrite Hf. vm_compute. reflexivity.
Defined.

(** Thread 1, when thread 0 has stopped with the tail behind. *)
Lemma lockfree_queue_obstruction_free_witness : exists q, solo soloFuel DeqHead (queue (run [0; 0; 0; 0]%nat meeting)) = Some (q, RDequeue (Some 7)).
Proof.
  destruct (lockfree_queue_obstruction_free (run [0; 0; 0; 0]%nat meeting) 1 DeqHead (meeting_reachable _)) as [[q r] E]; [vm_compute; reflexivity|].
  exists q. rewrite E. do 2 f_equal.
  assert (exists q, solo soloFuel DeqHead (queue (run [0; 0; 0; 0]%nat meeting)) = Some (q, RDequeue (Some 7))) as (q2 & E2) by (eexists; vm_compute; reflexivity).
  congruence.
Defined.

Lemma lockfree_queue_calls_witness : exists q q', Enqueue 5 NewLockFreeQueue = Some q /\ Dequeue q = Some (q', Some 5) /\ Size q = 1.
Proof.
  assert (holds NewLockFreeQueue []) as H0 by (exists [0%nat], 0%nat, 0%nat; split; [apply initial_inv|done]).
  destruct (lockfree_queue_calls _ _ H0) as (He & _). destruct (He 5) as (q & Eq & Hq).
  destruct (lockfree_queue_calls _ _ Hq) as (_ & (q' & Ed & _) & Hs & _). by exists q, q'.
Defined.
