(* ===== verification/LobCache.v ===== *)
(** * The cache of open LOB descriptors (lob/file_store.go)

    A map over a doubly linked list of entries, here a heap of entries with
    their [prev] and [next] addresses, refined to a list in order of use; and
    the counts of borrowed descriptors under interleaved readers. *)

From stdpp Require Import base list gmap strings.
From Stdlib Require Import ZArith Lia.
From S2P Require Import Prelude.

Local Open Scope Z_scope.

Module Fd.

(** An open file is a number; [prev] and [next] are addresses of entries. *)
Record lobFDCacheEntry := mkEntry {
  file : Z;
  lobID : Z;
  refCount : Z;
  prev : option Z;
  next : option Z }.

Record lobFDCache := mkCache {
  capacity : Z;
  heap : gmap Z lobFDCacheEntry;
  nextAddr : Z;
  entries : gmap Z Z;
  pendingClose : gmap Z Z;
  chead : option Z;
  ctail : option Z;
  hits : Z;
  misses : Z }.

Definition newLobFDCache (cap : Z) : lobFDCache := mkCache cap ∅ 0 ∅ ∅ None None 0 0.

Definition with_heap (h : gmap Z lobFDCacheEntry) (c : lobFDCache) : lobFDCache :=
  mkCache (capacity c) h (nextAddr c) (entries c) (pendingClose c) (chead c) (ctail c) (hits c) (misses c).
Definition with_entries (m : gmap Z Z) (c : lobFDCache) : lobFDCache :=
  mkCache (capacity c) (heap c) (nextAddr c) m (pendingClose c) (chead c) (ctail c) (hits c) (misses c).
Definition with_pending (m : gmap Z Z) (c : lobFDCache) : lobFDCache :=
  mkCache (capacity c) (heap c) (nextAddr c) (entries c) m (chead c) (ctail c) (hits c) (misses c).
Definition with_head (a : option Z) (c : lobFDCache) : lobFDCache :=
  mkCache (capacity c) (heap c) (nextAddr c) (entries c) (pendingClose c) a (ctail c) (hits c) (misses c).
Definition with_tail (a : option Z) (c : lobFDCache) : lobFDCache :=
  mkCache (capacity c) (heap c) (nextAddr c) (entries c) (pendingClose c) (chead c) a (hits c) (misses c).
Definition with_counts (h m : Z) (c : lobFDCache) : lobFDCache :=
  mkCache (capacity c) (heap c) (nextAddr c) (entries c) (pendingClose c) (chead c) (ctail c) h m.

Definition upd (a : Z) (g : lobFDCacheEntry -> lobFDCacheEntry) (c : lobFDCache) : lobFDCache :=
  with_heap (alter g a (heap c)) c.
Definition set_prev (p : option Z) (e : lobFDCacheEntry) := mkEntry (file e) (lobID e) (refCount e) p (next e).
Definition set_next (n : option Z) (e : lobFDCacheEntry) := mkEntry (file e) (lobID e) (refCount e) (prev e) n.
Definition set_file (f : Z) (e : lobFDCacheEntry) := mkEntry f (lobID e) (refCount e) (prev e) (next e).
Definition add_ref (d : Z) (e : lobFDCacheEntry) := mkEntry (file e) (lobID e) (refCount e + d) (prev e) (next e).

(** Fields read through an address. *)
Definition prevOf (c : lobFDCache) (a : Z) : option Z := e ← heap c !! a; prev e.
Definition nextOf (c : lobFDCache) (a : Z) : option Z := e ← heap c !! a; next e.
Definition fileOf (c : lobFDCache) (a : Z) : option Z := file <$> heap c !! a.
Definition refsOf (c : lobFDCache) (a : Z) : Z := from_option refCount 0 (heap c !! a).
Definition idOf (c : lobFDCache) (a : Z) : Z := from_option lobID 0 (heap c !! a).

Definition addToHead (a : Z) (c : lobFDCache) : lobFDCache :=
  let c := upd a (set_next (chead c)) c in
  let c := upd a (set_prev None) c in
  let c := match chead c with Some h => upd h (set_prev (Some a)) c | None => c end in
  let c := with_head (Some a) c in
  match ctail c with None => with_tail (Some a) c | Some _ => c end.

Definition unlink (a : Z) (c : lobFDCache) : lobFDCache :=
  let c := match prevOf c a with Some p => upd p (set_next (nextOf c a)) c | None => c end in
  let c := match nextOf c a with Some n => upd n (set_prev (prevOf c a)) c | None => c end in
  let c := if decide (chead c = Some a) then with_head (nextOf c a) c else c in
  let c := if decide (ctail c = Some a) then with_tail (prevOf c a) c else c in
  upd a (set_next None) (upd a (set_prev None) c).

Definition moveToHead (a : Z) (c : lobFDCache) : lobFDCache :=
  if decide (chead c = Some a) then c else addToHead a (unlink a c).

(** The operations that close descriptors return them; [None]: not cached. *)
Definition get (id : Z) (c : lobFDCache) : lobFDCache * option Z :=
  match entries c !! id with
  | None => (with_counts (hits c) (u64 (misses c + 1)) c, None)
  | Some a =>
      let c := with_counts (u64 (hits c + 1)) (misses c) c in
      let c := moveToHead a (upd a (add_ref 1) c) in
      (c, fileOf c a)
  end.

Definition release (id : Z) (c : lobFDCache) : lobFDCache * list Z :=
  match entries c !! id with
  | Some a => (upd a (add_ref (-1)) c, [])
  | None =>
      match pendingClose c !! id with
      | None => (c, [])
      | Some a =>
          let c := upd a (add_ref (-1)) c in
          if refsOf c a <=? 0
          then (with_pending (delete id (pendingClose c)) c, option_list (fileOf c a))
          else (c, [])
      end
  end.

(** The removed entry is closed, or kept while it is borrowed. *)
Definition retire (id a : Z) (c : lobFDCache) : lobFDCache * list Z :=
  if 0 <? refsOf c a then (with_pending (<[id := a]> (pendingClose c)) c, [])
  else (c, option_list (fileOf c a)).

Definition evictTail (c : lobFDCache) : lobFDCache * list Z :=
  match ctail c with
  | None => (c, [])
  | Some a =>
      let c := unlink a c in
      let id := idOf c a in
      retire id a (with_entries (delete id (entries c)) c)
  end.

Definition add (id f : Z) (c : lobFDCache) : lobFDCache * list Z :=
  match entries c !! id with
  | Some a => (moveToHead a (upd a (set_file f) c), [])
  | None =>
      let a := nextAddr c in
      let c := mkCache (capacity c) (<[a := mkEntry f id 0 None None]> (heap c)) (a + 1)
                 (<[id := a]> (entries c)) (pendingClose c) (chead c) (ctail c) (hits c) (misses c) in
      let c := addToHead a c in
      if capacity c <? Z.of_nat (size (entries c)) then evictTail c else (c, [])
  end.

Definition remove (id : Z) (c : lobFDCache) : lobFDCache * list Z :=
  match entries c !! id with
  | None => (c, [])
  | Some a =>
      let c := unlink a c in
      retire id a (with_entries (delete id (entries c)) c)
  end.

Definition closeAll (c : lobFDCache) : lobFDCache * list Z :=
  (mkCache (capacity c) (heap c) (nextAddr c) ∅ ∅ None None (hits c) (misses c),
   omap (fun p => fileOf c p.2) (map_to_list (entries c)) ++ omap (fun p => fileOf c p.2) (map_to_list (pendingClose c))).

(** Hits, misses and the number of entries. *)
Definition stats (c : lobFDCache) : Z * Z * Z := (hits c, misses c, Z.of_nat (size (entries c))).

(** *** The linked list *)

Definition head_or (l : list Z) (q : option Z) : option Z := match l with a :: _ => Some a | [] => q end.
Definition last_or (l : list Z) (p : option Z) : option Z := match last l with Some a => Some a | None => p end.

(** The entries of [l] linked in this order, with neighbours [p] and [q]. *)
Fixpoint dseg (h : gmap Z lobFDCacheEntry) (p : option Z) (l : list Z) (q : option Z) : Prop :=
  match l with
  | [] => True
  | a :: l => (exists e, h !! a = Some e /\ prev e = p /\ next e = head_or l q) /\ dseg h (Some a) l q
  end.

Lemma dseg_app h p l k q : dseg h p (l ++ k) q <-> dseg h p l (head_or k q) /\ dseg h (last_or l p) k q.
Proof.
  revert p. induction l as [|a l IH]; intros p; cbn [app dseg].
  - unfold last_or. cbn. naive_solver.
  - rewrite IH. replace (last_or (a :: l) p) with (last_or l (Some a)).
    + assert (head_or (l ++ k) q = head_or l (head_or k q)) as -> by (by destruct l). naive_solver.
    + unfold last_or. destruct l as [|b l]; [done|]. change (last (a :: b :: l)) with (last (b :: l)).
      destruct (last (b :: l)) eqn:E; [done|]. by apply last_None in E.
Qed.

(** Only the links of the list's entries matter. *)
Definition links (e : lobFDCacheEntry) : option Z * option Z := (prev e, next e).
Lemma dseg_ext h h' p l q :
  (forall a, a ∈ l -> links <$> h' !! a = links <$> h !! a) -> dseg h p l q -> dseg h' p l q.
Proof.
  revert p. induction l as [|a l IH]; intros p He Hd; [done|]. destruct Hd as [(e & Ha & Hp & Hn) Hd]. split.
  - specialize (He a (list_elem_of_here _ _)). rewrite Ha in He. destruct (h' !! a) as [e'|]; [|done].
    injection He as H1 H2. exists e'. split; [done|]. split; congruence.
  - apply IH; [|done]. intros b Hb. apply He. by apply list_elem_of_further.
Qed.

Abbreviation item := (Z * (Z * Z))%type.

(** Its number, descriptor and borrowers. *)
Definition payload (e : lobFDCacheEntry) : item := (lobID e, (file e, refCount e)).

(** What an operation on the links leaves alone. *)
Definition same_payload (c c' : lobFDCache) : Prop :=
  (forall a, payload <$> heap c' !! a = payload <$> heap c !! a) /\
  entries c' = entries c /\ pendingClose c' = pendingClose c /\ capacity c' = capacity c /\
  nextAddr c' = nextAddr c /\ hits c' = hits c /\ misses c' = misses c.

#[export] Instance same_payload_preorder : PreOrder same_payload.
Proof.
  split; [by intros c|]. intros c c' c'' (H1 & H2 & H3 & H4 & H5 & H6 & H7) (K1 & K2 & K3 & K4 & K5 & K6 & K7).
  split; [intros a; by rewrite K1|]. split_and!; congruence.
Qed.

Lemma upd_same a g c : (forall e, payload (g e) = payload e) -> same_payload c (upd a g c).
Proof.
  intros Hg. split; [|done]. intros b. cbn [upd with_heap heap]. destruct (decide (b = a)) as [->|].
  - rewrite lookup_alter_eq. destruct (heap c !! a); [|done]. cbn. by rewrite Hg.
  - by rewrite lookup_alter_ne.
Qed.
Lemma with_head_same a c : same_payload c (with_head a c).
Proof. done. Qed.
Lemma with_tail_same a c : same_payload c (with_tail a c).
Proof. done. Qed.

(** A list from [chead] to [ctail]. *)
Record dll (c : lobFDCache) (l : list Z) : Prop := {
  dll_nodup : NoDup l;
  dll_seg : dseg (heap c) None l None;
  dll_head : chead c = head l;
  dll_tail : ctail c = last l }.

Lemma dll_in c l a : dll c l -> a ∈ l -> is_Some (heap c !! a).
Proof.
  intros [_ Hs _ _] (l1 & l2 & ->)%list_elem_of_split. apply dseg_app in Hs as [_ [(e & He & _) _]]. by exists e.
Qed.

Ltac same_chain :=
  repeat match goal with
  | |- same_payload ?c ?c => reflexivity
  | |- same_payload ?c (upd _ _ _) => etrans; [|apply upd_same; by intros []]
  | |- same_payload ?c (with_head _ _) => etrans; [|apply with_head_same]
  | |- same_payload ?c (with_tail _ _) => etrans; [|apply with_tail_same]
  | |- same_payload ?c (if decide _ then _ else _) => destruct (decide _)
  | |- same_payload ?c (match ?x with _ => _ end) => destruct x
  end.

Lemma addToHead_same a c : same_payload c (addToHead a c).
Proof. unfold addToHead. cbv zeta. same_chain. Qed.
Lemma unlink_same a c : same_payload c (unlink a c).
Proof. unfold unlink. cbv zeta. same_chain. Qed.
Lemma moveToHead_same a c : same_payload c (moveToHead a c).
Proof.
  unfold moveToHead. destruct (decide _); [done|]. etrans; [apply unlink_same|apply addToHead_same].
Qed.

Lemma links_upd_ne c a b g : b <> a -> links <$> heap (upd a g c) !! b = links <$> heap c !! b.
Proof. intros Hne. cbn [upd with_heap heap]. by rewrite lookup_alter_ne. Qed.

Lemma heap_upd c a g e : heap c !! a = Some e -> heap (upd a g c) !! a = Some (g e).
Proof. intros Ha. cbn [upd with_heap heap]. by rewrite lookup_alter_eq, Ha. Qed.

Lemma heap_upd_ne c a g b : b <> a -> heap (upd a g c) !! b = heap c !! b.
Proof. intros Ha. cbn [upd with_heap heap]. by rewrite lookup_alter_ne. Qed.

Lemma head_or_None l : head_or l None = head l.
Proof. by destruct l. Qed.
Lemma last_or_None l : last_or l None = last l.
Proof. unfold last_or. by destruct (last l). Qed.

(** An update that leaves the links alone. *)
Lemma dll_upd c l a g : (forall e, links (g e) = links e) -> dll c l -> dll (upd a g c) l.
Proof.
  intros Hg [Hn Hs Hh Ht]. constructor; [done| |done|done]. eapply dseg_ext; [|exact Hs].
  intros b _. cbn [upd with_heap heap]. destruct (decide (b = a)) as [->|].
  - rewrite lookup_alter_eq. destruct (heap c !! a); [|done]. cbn. by rewrite Hg.
  - by rewrite lookup_alter_ne.
Qed.

Lemma addToHead_dll c l a : dll c l -> a ∉ l -> is_Some (heap c !! a) -> dll (addToHead a c) (a :: l).
Proof.
  intros [Hn Hs Hh Ht] Ha [e He]. unfold addToHead. cbv zeta.
  assert (E1 : chead (upd a (set_prev None) (upd a (set_next (chead c)) c)) = head l) by exact Hh.
  rewrite E1, Hh. destruct l as [|h l]; cbn [head].
  - cbn [ctail with_head upd with_heap]. rewrite Ht. constructor; [apply NoDup_singleton| |done|done].
    split; [|done]. exists (mkEntry (file e) (lobID e) (refCount e) None None).
    cbn [last heap with_tail with_head upd with_heap]. by rewrite !lookup_alter_eq, He.
  - assert (Hah : a <> h /\ a ∉ l) by (by apply not_elem_of_cons in Ha). destruct Hah as [Hah Hal].
    apply NoDup_cons in Hn as [Hhl Hn]. destruct Hs as [(eh & Hhe & Hp & Hnx) Hs].
    cbn [ctail with_head upd with_heap]. rewrite Ht.
    destruct (last (h :: l)) as [t|] eqn:El; [|by apply last_None in El].
    constructor.
    + by repeat (apply NoDup_cons; split; [by (rewrite ?not_elem_of_cons; auto)|]).
    + cbn [heap with_head]. split; [|split].
      * exists (mkEntry (file e) (lobID e) (refCount e) None (Some h)).
        cbn [upd with_heap heap]. rewrite lookup_alter_ne by done. rewrite lookup_alter_eq, lookup_alter_eq, He. done.
      * exists (set_prev (Some a) eh). cbn [upd with_heap heap]. rewrite lookup_alter_eq, !lookup_alter_ne, Hhe by done. done.
      * eapply dseg_ext; [|exact Hs]. intros b Hb. cbn [upd with_heap heap].
        rewrite !lookup_alter_ne; [done| | |]; set_solver.
    + done.
    + cbn [ctail with_head upd with_heap]. rewrite Ht. cbn. by destruct l.
Qed.

Definition alter_opt (g : lobFDCacheEntry -> lobFDCacheEntry) (o : option Z) (h : gmap Z lobFDCacheEntry) :=
  match o with Some x => alter g x h | None => h end.
Lemma alter_opt_ne g o h b : o <> Some b -> alter_opt g o h !! b = h !! b.
Proof. intros Hb. destruct o as [x|]; [|done]. cbn. rewrite lookup_alter_ne; congruence. Qed.

(** [unlink] on an entry that is not its own neighbour. *)
Lemma unlink_eq c a e : heap c !! a = Some e -> prev e <> Some a -> next e <> Some a ->
  heap (unlink a c) = alter (set_next None) a (alter (set_prev None) a
    (alter_opt (set_prev (prev e)) (next e) (alter_opt (set_next (next e)) (prev e) (heap c)))) /\
  chead (unlink a c) = (if decide (chead c = Some a) then next e else chead c) /\
  ctail (unlink a c) = (if decide (ctail c = Some a) then prev e else ctail c).
Proof.
  intros He Hp Hn. unfold unlink. cbv zeta.
  assert (E1 : prevOf c a = prev e) by (unfold prevOf; by rewrite He).
  assert (E2 : nextOf c a = next e) by (unfold nextOf; by rewrite He).
  rewrite E1, E2. set (c1 := match prev e with Some p => _ | None => c end).
  assert (Hc1 : heap c1 = alter_opt (set_next (next e)) (prev e) (heap c) /\ chead c1 = chead c /\ ctail c1 = ctail c).
  { subst c1. by destruct (prev e). }
  destruct Hc1 as (H1 & Hh1 & Ht1).
  assert (He1 : heap c1 !! a = Some e) by (by rewrite H1, alter_opt_ne).
  assert (E3 : prevOf c1 a = prev e) by (unfold prevOf; by rewrite He1).
  assert (E4 : nextOf c1 a = next e) by (unfold nextOf; by rewrite He1).
  rewrite E3, E4. set (c2 := match next e with Some n => _ | None => c1 end).
  assert (Hc2 : heap c2 = alter_opt (set_prev (prev e)) (next e) (heap c1) /\ chead c2 = chead c1 /\ ctail c2 = ctail c1).
  { subst c2. by destruct (next e). }
  destruct Hc2 as (H2 & Hh2 & Ht2).
  assert (He2 : heap c2 !! a = Some e) by (by rewrite H2, alter_opt_ne).
  assert (E5 : nextOf c2 a = next e) by (unfold nextOf; by rewrite He2).
  rewrite E5, Hh2, Hh1. set (c3 := if decide (chead c = Some a) then _ else c2).
  assert (Hc3 : heap c3 = heap c2 /\ chead c3 = (if decide (chead c = Some a) then next e else chead c) /\ ctail c3 = ctail c2).
  { subst c3. destruct (decide _); [done|]. by rewrite Hh2, Hh1. }
  destruct Hc3 as (H3 & Hh3 & Ht3).
  assert (E6 : prevOf c3 a = prev e) by (unfold prevOf; by rewrite H3, He2).
  rewrite E6, Ht3, Ht2, Ht1. clearbody c3. subst c2 c1.
  destruct (decide (ctail c = Some a)); cbn [upd with_heap heap with_tail chead ctail].
  - rewrite H3, H2, H1. split; [done|]. by split.
  - rewrite H3, H2, H1. split; [done|]. split; [done|]. by rewrite Ht3, Ht2, Ht1.
Qed.

Lemma unlink_dll c l1 a l2 : dll c (l1 ++ a :: l2) -> dll (unlink a c) (l1 ++ l2).
Proof.
  intros [Hnd Hs Hh Ht]. pose proof Hs as (Hs1 & (e & He & Hp & Hn) & Hs2)%dseg_app.
  rewrite last_or_None in Hp. rewrite head_or_None in Hn. cbn [head_or] in Hs1.
  apply NoDup_app in Hnd as (Hn1 & Hd & [Ha2 Hn2]%NoDup_cons).
  assert (Ha1 : a ∉ l1) by (intros Hi; by apply (Hd a Hi), list_elem_of_here).
  assert (Hd2 : forall b, b ∈ l1 -> b ∉ l2) by (intros b Hb Hb2; apply (Hd b Hb); by apply list_elem_of_further).
  assert (Hpa : prev e <> Some a) by (rewrite Hp; intros E%last_Some_elem_of; done).
  assert (Hna : next e <> Some a) by (rewrite Hn; intros E%head_Some_elem_of; done).
  destruct (unlink_eq c a e He Hpa Hna) as (Eh & Ec & Et). rewrite Hp, Hn in Eh. rewrite Hn in Ec. rewrite Hp in Et.
  assert (Hk : forall b, b <> a -> heap (unlink a c) !! b =
     alter_opt (set_prev (last l1)) (head l2) (alter_opt (set_next (head l2)) (last l1) (heap c)) !! b).
  { intros b Hb. rewrite Eh, !lookup_alter_ne by done. done. }
  constructor.
  - apply NoDup_app. split; [done|]. by split.
  - apply dseg_app. rewrite head_or_None, last_or_None. split.
    + destruct (decide (l1 = [])) as [->|Hne]; [done|].
      destruct (exists_last Hne) as (l0 & p & ->). rewrite last_snoc in *.
      apply NoDup_app in Hn1 as (_ & Hd0 & _). apply dseg_app in Hs1 as [Hs0 [(ep & Hep & Hpp & Hpn) _]].
      apply dseg_app. split.
      * eapply dseg_ext; [|exact Hs0]. intros b Hb. rewrite Hk by set_solver.
        rewrite alter_opt_ne by (intros E%head_Some_elem_of; set_solver).
        rewrite alter_opt_ne; [done|]. intros [= ->]. apply (Hd0 b Hb). set_solver.
      * split; [|done]. exists (set_next (head l2) ep). rewrite Hk by set_solver.
        rewrite alter_opt_ne by (intros E%head_Some_elem_of; set_solver).
        cbn [alter_opt]. rewrite lookup_alter_eq, Hep. done.
    + destruct l2 as [|n l2]; [done|]. cbn [head] in *. destruct Hs2 as [(en & Hen & Hnp & Hnn) Hs2].
      apply NoDup_cons in Hn2 as [Hnl Hn2]. split.
      * exists (set_prev (last l1) en). rewrite Hk by set_solver. cbn [alter_opt]. rewrite lookup_alter_eq.
        rewrite alter_opt_ne by (intros E%last_Some_elem_of; set_solver). by rewrite Hen.
      * eapply dseg_ext; [|exact Hs2]. intros b Hb. rewrite Hk by set_solver. cbn [alter_opt].
        rewrite lookup_alter_ne by (intros ->; done).
        rewrite alter_opt_ne; [done|]. intros E%last_Some_elem_of. set_solver.
  - rewrite Ec, Hh. destruct l1 as [|b l1]; cbn [app head].
    + by rewrite decide_True.
    + rewrite decide_False; [done|]. intros [= ->]. set_solver.
  - rewrite Et, Ht. destruct (decide (l2 = [])) as [->|Hne].
    + rewrite last_snoc, decide_True by done. by rewrite app_nil_r.
    + destruct (exists_last Hne) as (l0 & t & ->). rewrite app_comm_cons, !app_assoc, !last_snoc.
      rewrite decide_False; [done|]. intros [= ->]. set_solver.
Qed.

Lemma moveToHead_dll c l1 a l2 : dll c (l1 ++ a :: l2) -> dll (moveToHead a c) (a :: l1 ++ l2).
Proof.
  intros Hd. unfold moveToHead. destruct (decide _) as [E|Hne].
  - destruct l1 as [|b l1]; [done|]. rewrite (dll_head _ _ Hd) in E. injection E as ->.
    exfalso. pose proof (dll_nodup _ _ Hd) as Hn. apply NoDup_cons in Hn as [Hn _]. set_solver.
  - pose proof (dll_nodup _ _ Hd) as Hn. apply addToHead_dll.
    + by apply unlink_dll.
    + intros Hi. apply NoDup_app in Hn as (_ & Hx & [Hy _]%NoDup_cons). apply elem_of_app in Hi as [Hi|Hi]; [|done].
      apply (Hx a Hi). apply list_elem_of_here.
    + destruct (dll_in c _ a Hd ltac:(set_solver)) as [e He].
      destruct (unlink_same a c) as [Hp _]. specialize (Hp a). rewrite He in Hp. by destruct (heap (unlink a c) !! a).
Qed.

(** *** The cache as a list in order of use *)

(** Number, descriptor and borrowers; [lent]: evicted while borrowed. *)
Record LRU := mkLRU { items : list item; lent : gmap Z (Z * Z) }.

Fixpoint assoc (id : Z) (its : list item) : option (Z * Z) :=
  match its with
  | [] => None
  | i :: its => if decide (i.1 = id) then Some i.2 else assoc id its
  end.
Definition drop_id (id : Z) (its : list item) : list item := filter (fun i => i.1 <> id) its.
Definition set_item (id : Z) (v : Z * Z) (its : list item) : list item :=
  (fun i => if decide (i.1 = id) then (id, v) else i) <$> its.

Definition lru_get (id : Z) (s : LRU) : LRU * option Z :=
  match assoc id (items s) with
  | None => (s, None)
  | Some (f, r) => (mkLRU ((id, (f, r + 1)) :: drop_id id (items s)) (lent s), Some f)
  end.

Definition lru_release (id : Z) (s : LRU) : LRU * list Z :=
  match assoc id (items s) with
  | Some (f, r) => (mkLRU (set_item id (f, r - 1) (items s)) (lent s), [])
  | None =>
      match lent s !! id with
      | None => (s, [])
      | Some (f, r) =>
          if r - 1 <=? 0 then (mkLRU (items s) (delete id (lent s)), [f])
          else (mkLRU (items s) (<[id := (f, r - 1)]> (lent s)), [])
      end
  end.

(** [i] leaves the list [its]. *)
Definition lru_retire (i : item) (its : list item) (m : gmap Z (Z * Z)) : LRU * list Z :=
  if 0 <? i.2.2 then (mkLRU its (<[i.1 := i.2]> m), []) else (mkLRU its m, [i.2.1]).

Definition lru_remove (id : Z) (s : LRU) : LRU * list Z :=
  match assoc id (items s) with
  | None => (s, [])
  | Some v => lru_retire (id, v) (drop_id id (items s)) (lent s)
  end.

Definition lru_add (cap id f : Z) (s : LRU) : LRU * list Z :=
  match assoc id (items s) with
  | Some (_, r) => (mkLRU ((id, (f, r)) :: drop_id id (items s)) (lent s), [])
  | None =>
      let its := (id, (f, 0)) :: items s in
      if cap <? zlen its then
        match last its with
        | Some i => lru_retire i (take (length its - 1) its) (lent s)
        | None => (s, [])
        end
      else (mkLRU its (lent s), [])
  end.

Lemma assoc_None id its : assoc id its = None <-> id ∉ its.*1.
Proof.
  induction its as [|i its IH]; cbn.
  - split; [intros _; apply not_elem_of_nil|done].
  - rewrite not_elem_of_cons. destruct (decide (i.1 = id)); [naive_solver|]. rewrite IH. naive_solver.
Qed.
Lemma assoc_mid id v i1 i2 : NoDup (i1 ++ (id, v) :: i2).*1 -> assoc id (i1 ++ (id, v) :: i2) = Some v.
Proof.
  rewrite fmap_app, fmap_cons. cbn [fst]. intros (_ & Hd & _)%NoDup_app.
  induction i1 as [|i i1 IH]; cbn; [by rewrite decide_True|].
  rewrite decide_False; [|intros <-; eapply (Hd i.1); [apply list_elem_of_here|apply list_elem_of_here]].
  apply IH. intros x Hx. apply Hd. by apply list_elem_of_further.
Qed.
Lemma assoc_split id v its : assoc id its = Some v -> exists i1 i2, its = i1 ++ (id, v) :: i2.
Proof.
  induction its as [|[j w] its IH]; cbn; [done|]. destruct (decide (j = id)) as [->|]; intros H.
  - injection H as ->. by exists [], its.
  - destruct (IH H) as (i1 & i2 & ->). by exists ((j, w) :: i1), i2.
Qed.
Lemma drop_id_none id its : id ∉ its.*1 -> drop_id id its = its.
Proof.
  unfold drop_id. induction its as [|i its IH]; [done|]. rewrite fmap_cons, not_elem_of_cons. intros [Hi His].
  rewrite filter_cons_True by congruence. f_equal. by apply IH.
Qed.
Lemma drop_id_mid id v i1 i2 : NoDup (i1 ++ (id, v) :: i2).*1 -> drop_id id (i1 ++ (id, v) :: i2) = i1 ++ i2.
Proof.
  rewrite fmap_app, fmap_cons. cbn [fst]. intros (_ & Hd & [H2 _]%NoDup_cons)%NoDup_app.
  unfold drop_id. rewrite filter_app, filter_cons_False by (cbn; intros H; by apply H).
  f_equal; apply drop_id_none; [|done]. intros H1. apply (Hd _ H1). apply list_elem_of_here.
Qed.
Lemma set_item_none id v its : id ∉ its.*1 -> set_item id v its = its.
Proof.
  unfold set_item. induction its as [|i its IH]; [done|]. rewrite fmap_cons, not_elem_of_cons. intros [Hi His].
  rewrite fmap_cons, decide_False by congruence. by rewrite IH.
Qed.
Lemma set_item_mid id v w i1 i2 : NoDup (i1 ++ (id, v) :: i2).*1 ->
  set_item id w (i1 ++ (id, v) :: i2) = i1 ++ (id, w) :: i2.
Proof.
  rewrite fmap_app, fmap_cons. cbn [fst]. intros (_ & Hd & [H2 _]%NoDup_cons)%NoDup_app.
  unfold set_item. rewrite fmap_app, fmap_cons. cbn [fst]. rewrite decide_True by done.
  f_equal; [|f_equal]; apply set_item_none; [|done]. intros H1. apply (Hd _ H1). apply list_elem_of_here.
Qed.

(** [c] represents [s]: the list [l] of addresses carries the items. *)
Record rep (c : lobFDCache) (l : list Z) (s : LRU) : Prop := {
  rep_dll : dll c l;
  rep_items : Forall2 (fun a i => payload <$> heap c !! a = Some i) l (items s);
  rep_entries : forall id a, entries c !! id = Some a <-> a ∈ l /\ idOf c a = id;
  rep_size : size (entries c) = length l;
  rep_pending : forall id a, pendingClose c !! id = Some a -> (a ∉ l) /\ idOf c a = id /\ is_Some (payload <$> heap c !! a);
  rep_lent : forall id, lent s !! id = pendingClose c !! id ≫= (fun a => snd <$> (payload <$> heap c !! a));
  rep_fresh : forall a, is_Some (heap c !! a) -> a < nextAddr c }.

Lemma Forall2_impl_in {A B} (P Q : A -> B -> Prop) l k :
  Forall2 P l k -> (forall a b, a ∈ l -> P a b -> Q a b) -> Forall2 Q l k.
Proof.
  induction 1 as [|a b l k Hab _ IH]; intros HQ; constructor.
  - apply HQ; [apply list_elem_of_here|done].
  - apply IH. intros x y Hx. apply HQ. by apply list_elem_of_further.
Qed.

Lemma payload_idOf c a i : payload <$> heap c !! a = Some i -> idOf c a = i.1 /\ fileOf c a = Some i.2.1 /\ refsOf c a = i.2.2.
Proof. unfold idOf, fileOf, refsOf. destruct (heap c !! a) as [e|]; [|done]. by intros [= <-]. Qed.

Lemma idOf_same c c' a : payload <$> heap c' !! a = payload <$> heap c !! a -> idOf c' a = idOf c a.
Proof. unfold idOf. destruct (heap c' !! a), (heap c !! a); try done. by intros [= H _ _]. Qed.

Lemma rep_ids c l s : rep c l s -> (items s).*1 = idOf c <$> l.
Proof.
  intros H. pose proof (rep_items _ _ _ H) as Hi. clear H. induction Hi as [|a i l0 its0 Ha _ IH]; [done|].
  rewrite !fmap_cons, IH. f_equal. symmetry. by apply payload_idOf.
Qed.

Lemma rep_nodup c l s : rep c l s -> NoDup (items s).*1.
Proof.
  intros H. rewrite (rep_ids _ _ _ H). apply NoDup_fmap_2_strong; [|apply (rep_dll _ _ _ H)].
  intros a b Ha Hb E. assert (Ea : entries c !! idOf c b = Some a) by (by apply (rep_entries _ _ _ H)).
  assert (Eb : entries c !! idOf c b = Some b) by (by apply (rep_entries _ _ _ H)). congruence.
Qed.

Lemma rep_none c l s id : rep c l s -> entries c !! id = None -> assoc id (items s) = None.
Proof.
  intros H He. apply assoc_None. rewrite (rep_ids _ _ _ H). intros (a & -> & Ha)%list_elem_of_fmap.
  assert (entries c !! idOf c a = Some a) by (by apply (rep_entries _ _ _ H)). congruence.
Qed.

Lemma rep_split c l s id a : rep c l s -> entries c !! id = Some a ->
  exists l1 l2 i1 i2 v, l = l1 ++ a :: l2 /\ items s = i1 ++ (id, v) :: i2 /\
    Forall2 (fun a i => payload <$> heap c !! a = Some i) l1 i1 /\
    payload <$> heap c !! a = Some (id, v) /\
    Forall2 (fun a i => payload <$> heap c !! a = Some i) l2 i2.
Proof.
  intros H He. apply (rep_entries _ _ _ H) in He as [(l1 & l2 & ->)%list_elem_of_split Hid].
  pose proof (rep_items _ _ _ H) as Hi. apply Forall2_app_inv_l in Hi as (i1 & i2' & H1 & H2 & E).
  apply Forall2_cons_inv_l in H2 as (i & i2 & Ha & H2 & ->). destruct i as [j v].
  destruct (payload_idOf _ _ _ Ha) as [Hj _]. cbn in Hj. subst j. rewrite Hid in *. by exists l1, l2, i1, i2, v.
Qed.

(** The links change, the entries stay in the list. *)
Lemma rep_relink c c' l l' s its : rep c l s -> same_payload c c' -> dll c' l' -> l' ≡ₚ l ->
  Forall2 (fun a i => payload <$> heap c !! a = Some i) l' its -> rep c' l' (mkLRU its (lent s)).
Proof.
  intros H (Hp & He & Hpc & _ & Hna & _) Hd Hl Hi. constructor; cbn [items lent]; try done.
  - eapply Forall2_impl; [exact Hi|]. intros a i Ha. cbn. by rewrite Hp.
  - intros id a. rewrite He, (rep_entries _ _ _ H), Hl. by rewrite (idOf_same c c').
  - rewrite He, (rep_size _ _ _ H). by rewrite Hl.
  - intros id a. rewrite Hpc. intros (Ha & Hid & Hs)%(rep_pending _ _ _ H). rewrite Hl, Hp. split; [done|]. by rewrite (idOf_same c c').
  - intros id. rewrite Hpc, (rep_lent _ _ _ H). destruct (pendingClose c !! id) as [a|]; [|done]. cbn. by rewrite Hp.
  - intros a Ha. rewrite Hna. apply (rep_fresh _ _ _ H). specialize (Hp a).
    destruct (heap c !! a); [done|]. destruct Ha as [e Ha]. by rewrite Ha in Hp.
Qed.

(** The payload of one entry of the list changes. *)
Lemma rep_upd c l1 a l2 i1 id v i2 s g w :
  rep c (l1 ++ a :: l2) s -> items s = i1 ++ (id, v) :: i2 -> length l1 = length i1 ->
  payload <$> heap c !! a = Some (id, v) ->
  (forall e, links (g e) = links e) -> (forall e, payload e = (id, v) -> payload (g e) = (id, w)) ->
  rep (upd a g c) (l1 ++ a :: l2) (mkLRU (i1 ++ (id, w) :: i2) (lent s)).
Proof.
  intros H Hs Hlen Ha Hg Hw. pose proof (dll_nodup _ _ (rep_dll _ _ _ H)) as Hn.
  apply NoDup_app in Hn as (_ & Hd & [H2 _]%NoDup_cons).
  assert (Hid : forall b, idOf (upd a g c) b = idOf c b).
  { intros b. unfold idOf. destruct (decide (b = a)) as [->|]; [|by rewrite heap_upd_ne].
    destruct (heap c !! a) as [e|] eqn:E; [|done]. rewrite (heap_upd _ _ _ e) by done. cbn.
    assert (He : payload e = (id, v)) by (cbn in Ha; congruence). pose proof (Hw e He) as Hw'. unfold payload in *. congruence. }
  assert (Hne : forall b, b <> a -> payload <$> heap (upd a g c) !! b = payload <$> heap c !! b) by (intros b Hb; by rewrite heap_upd_ne).
  pose proof (rep_items _ _ _ H) as Hi. rewrite Hs in Hi.
  apply Forall2_app_inv in Hi as [Hi1 Hi2]; [|done]. apply Forall2_cons in Hi2 as [_ Hi2].
  constructor; cbn [items lent].
  - apply dll_upd; [done|apply (rep_dll _ _ _ H)].
  - apply Forall2_app; [|constructor].
    + eapply Forall2_impl_in; [exact Hi1|]. intros b i Hb Hp. cbn. rewrite Hne; [done|]. intros ->. apply (Hd a Hb), list_elem_of_here.
    + destruct (heap c !! a) as [e|] eqn:E; [|done]. rewrite (heap_upd _ _ _ e) by done. cbn. f_equal. apply Hw. cbn in Ha. congruence.
    + eapply Forall2_impl_in; [exact Hi2|]. intros b i Hb Hp. cbn. rewrite Hne; [done|]. by intros ->.
  - intros j b. rewrite Hid. apply (rep_entries _ _ _ H).
  - apply (rep_size _ _ _ H).
  - intros j b. rewrite Hid. intros (Hb & Hj & Hx)%(rep_pending _ _ _ H). split; [done|]. split; [done|]. rewrite Hne; [done|]. intros ->. set_solver.
  - intros j. cbn [pendingClose upd with_heap]. rewrite (rep_lent _ _ _ H).
    destruct (pendingClose c !! j) as [b|] eqn:Ej; [|done]. cbn. change (alter g a (heap c)) with (heap (upd a g c)). rewrite Hne; [done|].
    intros ->. apply (rep_pending _ _ _ H) in Ej as (Hx & _). apply Hx. set_solver.
  - intros b Hb. cbn [nextAddr upd with_heap]. apply (rep_fresh _ _ _ H). cbn [heap upd with_heap] in Hb. by rewrite lookup_alter_is_Some in Hb.
Qed.

Lemma rep_move c l1 a l2 i1 i i2 s :
  rep c (l1 ++ a :: l2) s -> items s = i1 ++ i :: i2 -> length l1 = length i1 ->
  rep (moveToHead a c) (a :: l1 ++ l2) (mkLRU (i :: i1 ++ i2) (lent s)).
Proof.
  intros H Hs Hlen. eapply rep_relink; [exact H|apply moveToHead_same|apply moveToHead_dll, (rep_dll _ _ _ H)| |].
  - apply Permutation_middle.
  - pose proof (rep_items _ _ _ H) as Hi. rewrite Hs in Hi.
    apply Forall2_app_inv in Hi as [Hi1 Hi2]; [|done]. apply Forall2_cons in Hi2 as [Ha Hi2].
    constructor; [done|]. by apply Forall2_app.
Qed.

Lemma rep_counts c l s h m : rep c l s -> rep (with_counts h m c) l s.
Proof. by intros [[]]. Qed.

Lemma assoc_here l1 l2 id (v : Z * Z) c l s : rep c l s -> items s = l1 ++ (id, v) :: l2 ->
  assoc id (items s) = Some v /\ drop_id id (items s) = l1 ++ l2 /\
  forall w, set_item id w (items s) = l1 ++ (id, w) :: l2.
Proof.
  intros H Hs. pose proof (rep_nodup _ _ _ H) as Hn. rewrite Hs in *.
  split; [by apply assoc_mid|]. split; [by eapply drop_id_mid|]. intros w. by apply set_item_mid.
Qed.

Lemma get_ok c l s id : rep c l s -> exists c' l', get id c = (c', (lru_get id s).2) /\ rep c' l' (lru_get id s).1.
Proof.
  intros H. unfold get, lru_get. destruct (entries c !! id) as [a|] eqn:E.
  - apply (rep_counts _ _ _ (u64 (hits c + 1)) (misses c)) in H.
    destruct (rep_split _ _ _ _ _ H E) as (l1 & l2 & i1 & i2 & v & -> & Hs & H1 & Ha & H2).
    destruct (assoc_here _ _ _ _ _ _ _ H Hs) as (-> & -> & _). destruct v as [f r]. cbn [fst snd].
    pose proof (Forall2_length _ _ _ H1) as Hlen.
    eapply (rep_upd _ _ _ _ _ _ _ _ _ (add_ref 1) (f, r + 1)) in H; [|done..| |]; [|by intros []|by intros [] [= -> -> ->]].
    eapply rep_move in H; [|done..]. cbn [lent] in H. eexists _, _. split; [|exact H]. f_equal.
    pose proof (rep_items _ _ _ H) as Hi. apply Forall2_cons in Hi as [Hi _]. by apply payload_idOf in Hi as (_ & -> & _).
  - rewrite (rep_none _ _ _ _ H E). eexists _, l. split; [done|]. by apply rep_counts.
Qed.

(** An entry is taken out of the list and the map. *)
Lemma rep_take c l1 a l2 i1 id v i2 s :
  rep c (l1 ++ a :: l2) s -> items s = i1 ++ (id, v) :: i2 -> length l1 = length i1 ->
  payload <$> heap c !! a = Some (id, v) ->
  let c' := with_entries (delete id (entries (unlink a c))) (unlink a c) in
  rep c' (l1 ++ l2) (mkLRU (i1 ++ i2) (lent s)) /\ payload <$> heap c' !! a = Some (id, v) /\ (a ∉ l1 ++ l2) /\ a < nextAddr c'.
Proof.
  intros H Hs Hlen Ha c'. destruct (unlink_same a c) as (Hp & He & Hpc & _ & Hna & _).
  pose proof (dll_nodup _ _ (rep_dll _ _ _ H)) as Hn. apply NoDup_app in Hn as (Hn1 & Hd & [H2 _]%NoDup_cons).
  assert (Hal : a ∉ l1 ++ l2).
  { rewrite elem_of_app. intros [Hi|Hi]; [|done]. apply (Hd a Hi), list_elem_of_here. }
  assert (Hid : forall b, idOf c' b = idOf c b) by (intros b; apply idOf_same, Hp).
  assert (Hfr : forall b, is_Some (heap c' !! b) -> b < nextAddr c').
  { intros b [e Hb]. cbn [c' nextAddr with_entries]. rewrite Hna. apply (rep_fresh _ _ _ H). specialize (Hp b).
    cbn [c' heap with_entries] in Hb. rewrite Hb in Hp. destruct (heap c !! b); [done|]. by cbn in Hp. }
  assert (Ha' : payload <$> heap c' !! a = Some (id, v)) by (by rewrite <- Ha; apply Hp).
  split; [|split; [done|split; [done|]]].
  - pose proof (rep_items _ _ _ H) as Hi. rewrite Hs in Hi.
    apply Forall2_app_inv in Hi as [Hi1 Hi2]; [|done]. apply Forall2_cons in Hi2 as [_ Hi2].
    constructor; cbn [items lent]; try done.
    + destruct (unlink_dll _ _ _ _ (rep_dll _ _ _ H)). by constructor.
    + apply Forall2_app; (eapply Forall2_impl; [eassumption|]; intros b i Hb; cbn; cbn [c' heap with_entries]; by rewrite Hp).
    + intros j b. rewrite Hid. cbn [c' entries with_entries]. rewrite He. destruct (payload_idOf _ _ _ Ha) as [Hia _]. cbn in Hia.
      destruct (decide (j = id)) as [->|Hne].
      * rewrite lookup_delete_eq. split; [done|]. intros [Hb Hbid]. exfalso. apply Hal.
        assert (entries c !! id = Some b) by (apply (rep_entries _ _ _ H); set_solver).
        assert (entries c !! id = Some a) by (apply (rep_entries _ _ _ H); set_solver). congruence.
      * rewrite lookup_delete_ne by done. rewrite (rep_entries _ _ _ H).
        assert (b ∈ l1 ++ a :: l2 <-> b = a \/ b ∈ l1 ++ l2) as -> by set_solver.
        split; [intros [[->|Hb] Hb2]|intros [Hb Hb2]]; [congruence|done|auto].
    + cbn [c' entries with_entries]. rewrite He, map_size_delete_Some.
      * rewrite (rep_size _ _ _ H), !length_app. cbn [length]. lia.
      * exists a. apply (rep_entries _ _ _ H). destruct (payload_idOf _ _ _ Ha) as [Hia _]. set_solver.
    + intros j b. cbn [c' pendingClose with_entries]. rewrite Hpc, Hid. intros (Hx & Hy & Hz)%(rep_pending _ _ _ H). split; [set_solver|]. split; [done|].
      cbn [c' heap with_entries]. by rewrite Hp.
    + intros j. cbn [c' pendingClose with_entries heap]. rewrite Hpc, (rep_lent _ _ _ H).
      destruct (pendingClose c !! j) as [b|]; [|done]. cbn. by rewrite Hp.
  - apply Hfr. destruct (heap c' !! a); [done|]. by cbn in Ha'.
Qed.

Lemma retire_ok c l s id a v : rep c l s -> payload <$> heap c !! a = Some (id, v) -> a ∉ l ->
  exists c', retire id a c = (c', (lru_retire (id, v) (items s) (lent s)).2) /\
    rep c' l (lru_retire (id, v) (items s) (lent s)).1.
Proof.
  intros H Ha Hal. destruct (payload_idOf _ _ _ Ha) as (Hid & Hf & Hr). cbn in Hid, Hf, Hr.
  unfold retire, lru_retire. cbn [fst snd]. rewrite Hr, Hf. destruct (0 <? v.2).
  - eexists. split; [done|]. destruct H as [[Hd1 Hd2 Hd3 Hd4] H2 H3 H4 H5 H6 H7]. constructor; cbn [fst items lent]; try done.
    + intros j b. cbn [pendingClose with_pending]. destruct (decide (j = id)) as [->|].
      * rewrite lookup_insert_eq. intros [= <-]. split; [done|]. split; [done|]. cbn [heap with_pending]. rewrite Ha. by eexists.
      * rewrite lookup_insert_ne by done. apply H5.
    + intros j. cbn [pendingClose with_pending heap]. destruct (decide (j = id)) as [->|].
      * rewrite !lookup_insert_eq. cbn. by rewrite Ha.
      * by rewrite !lookup_insert_ne.
  - eexists. split; [done|]. by destruct s.
Qed.

Lemma remove_ok c l s id : rep c l s -> exists c' l', remove id c = (c', (lru_remove id s).2) /\ rep c' l' (lru_remove id s).1.
Proof.
  intros H. unfold remove, lru_remove. destruct (entries c !! id) as [a|] eqn:E.
  - destruct (rep_split _ _ _ _ _ H E) as (l1 & l2 & i1 & i2 & v & -> & Hs & H1 & Ha & H2).
    destruct (assoc_here _ _ _ _ _ _ _ H Hs) as (-> & -> & _). pose proof (Forall2_length _ _ _ H1) as Hlen.
    destruct (rep_take _ _ _ _ _ _ _ _ _ H Hs Hlen Ha) as (Hc & Ha' & Hal & _).
    destruct (retire_ok _ _ _ _ _ _ Hc Ha' Hal) as (c' & E' & H'). exists c', (l1 ++ l2). by split.
  - rewrite (rep_none _ _ _ _ H E). by exists c, l.
Qed.

(** The payload of an evicted entry changes. *)
Lemma rep_upd_lent c l s id a e g w : rep c l s -> pendingClose c !! id = Some a -> heap c !! a = Some e ->
  links (g e) = links e -> payload (g e) = (id, w) -> rep (upd a g c) l (mkLRU (items s) (<[id := w]> (lent s))).
Proof.
  intros H Ep Ea Hg Hw. destruct (rep_pending _ _ _ H _ _ Ep) as (Hal & Hid & _).
  assert (Ei : lobID e = id) by (unfold idOf in Hid; rewrite Ea in Hid; done).
  assert (Hids : forall b, idOf (upd a g c) b = idOf c b).
  { intros b. unfold idOf. destruct (decide (b = a)) as [->|]; [|by rewrite heap_upd_ne].
    rewrite (heap_upd _ _ _ e), Ea by done. cbn. unfold payload in Hw. congruence. }
  assert (Hne : forall b, b <> a -> payload <$> heap (upd a g c) !! b = payload <$> heap c !! b) by (intros b Hb; by rewrite heap_upd_ne).
  assert (Hpa : payload <$> heap (upd a g c) !! a = Some (id, w)) by (rewrite (heap_upd _ _ _ e) by done; cbn; by rewrite Hw).
  constructor; cbn [items lent].
  - destruct (rep_dll _ _ _ H) as [D1 D2 D3 D4]. constructor; try done. eapply dseg_ext; [|exact D2].
    intros b Hb. rewrite heap_upd_ne; [done|]. by intros ->.
  - eapply Forall2_impl_in; [apply (rep_items _ _ _ H)|]. intros b i Hb Hp. cbn. rewrite Hne; [done|]. by intros ->.
  - intros j b. rewrite Hids. apply (rep_entries _ _ _ H).
  - apply (rep_size _ _ _ H).
  - intros j b. rewrite Hids. intros (Hb & Hj & Hx)%(rep_pending _ _ _ H). split; [done|]. split; [done|].
    destruct (decide (b = a)) as [->|]; [by rewrite Hpa|by rewrite Hne].
  - intros j. cbn [pendingClose upd with_heap]. change (alter g a (heap c)) with (heap (upd a g c)). destruct (decide (j = id)) as [->|Hj].
    + rewrite lookup_insert_eq, Ep. transitivity (snd <$> (payload <$> heap (upd a g c) !! a)); [by rewrite Hpa|done].
    + rewrite lookup_insert_ne by done. rewrite (rep_lent _ _ _ H). destruct (pendingClose c !! j) as [b|] eqn:Ej; [|done].
      transitivity (snd <$> (payload <$> heap (upd a g c) !! b)); [|done]. rewrite Hne; [done|].
      intros ->. apply (rep_pending _ _ _ H) in Ej as (_ & Hx & _). congruence.
  - intros b Hb. cbn [nextAddr upd with_heap]. apply (rep_fresh _ _ _ H). cbn [heap upd with_heap] in Hb. by rewrite lookup_alter_is_Some in Hb.
Qed.

Lemma rep_forget c l s id : rep c l s ->
  rep (with_pending (delete id (pendingClose c)) c) l (mkLRU (items s) (delete id (lent s))).
Proof.
  intros [[D1 D2 D3 D4] H2 H3 H4 H5 H6 H7]. constructor; cbn [items lent]; try done.
  - intros j a. cbn [pendingClose with_pending]. intros [_ Hj]%lookup_delete_Some. by apply H5.
  - intros j. cbn [pendingClose with_pending heap]. destruct (decide (j = id)) as [->|].
    + by rewrite !lookup_delete_eq.
    + by rewrite !lookup_delete_ne.
Qed.

Lemma release_ok c l s id : rep c l s -> exists c', release id c = (c', (lru_release id s).2) /\ rep c' l (lru_release id s).1.
Proof.
  intros H. unfold release, lru_release. destruct (entries c !! id) as [a|] eqn:E.
  - destruct (rep_split _ _ _ _ _ H E) as (l1 & l2 & i1 & i2 & v & -> & Hs & H1 & Ha & H2).
    destruct (assoc_here _ _ _ _ _ _ _ H Hs) as (-> & _ & Hset). destruct v as [f r]. rewrite Hset.
    eexists. split; [done|]. eapply rep_upd; [exact H|exact Hs|by eapply Forall2_length|done|by intros []|by intros [] [= -> -> ->]].
  - rewrite (rep_none _ _ _ _ H E), (rep_lent _ _ _ H). destruct (pendingClose c !! id) as [a|] eqn:Ep; [|by exists c].
    destruct (rep_pending _ _ _ H _ _ Ep) as (Hal & Hid & Hs). cbn.
    destruct (heap c !! a) as [e|] eqn:Ea; [|by destruct Hs]. cbn.
    assert (H' : rep (upd a (add_ref (-1)) c) l (mkLRU (items s) (<[id := (file e, refCount e - 1)]> (lent s)))).
    { eapply rep_upd_lent; [done|done|exact Ea|by destruct e|]. unfold idOf in Hid. rewrite Ea in Hid. cbn in Hid. by subst id. }
    assert (Er : refsOf (upd a (add_ref (-1)) c) a = refCount e - 1) by (unfold refsOf; by rewrite (heap_upd _ _ _ e)).
    assert (Ef : fileOf (upd a (add_ref (-1)) c) a = Some (file e)) by (unfold fileOf; by rewrite (heap_upd _ _ _ e)).
    rewrite Er, Ef. destruct (refCount e - 1 <=? 0).
    + eexists. split; [done|]. apply (rep_forget _ _ _ id) in H'. cbn [items lent] in H'. by rewrite delete_insert_eq in H'.
    + eexists. by split.
Qed.

Lemma addToHead_new c l s id f : rep c l s -> entries c !! id = None ->
  let a := nextAddr c in
  let c0 := mkCache (capacity c) (<[a := mkEntry f id 0 None None]> (heap c)) (a + 1)
              (<[id := a]> (entries c)) (pendingClose c) (chead c) (ctail c) (hits c) (misses c) in
  rep (addToHead a c0) (a :: l) (mkLRU ((id, (f, 0)) :: items s) (lent s)).
Proof.
  intros H Hid a c0. assert (Hna : heap c !! a = None).
  { destruct (heap c !! a) eqn:E; [|done]. assert (a < nextAddr c) by (apply (rep_fresh _ _ _ H); by eexists). subst a. lia. }
  assert (Hal : a ∉ l).
  { intros Ha. destruct (dll_in _ _ _ (rep_dll _ _ _ H) Ha) as [e He]. congruence. }
  assert (Hne : forall b, b <> a -> heap c0 !! b = heap c !! b) by (intros b Hb; cbn [heap c0]; by rewrite lookup_insert_ne).
  assert (Ha : heap c0 !! a = Some (mkEntry f id 0 None None)) by (cbn [heap c0]; by rewrite lookup_insert_eq).
  assert (Hd : dll c0 l).
  { destruct (rep_dll _ _ _ H) as [D1 D2 D3 D4]. constructor; try done. eapply dseg_ext; [|exact D2].
    intros b Hb. rewrite Hne; [done|]. by intros ->. }
  destruct (addToHead_same a c0) as (Hp & He & Hpc & _ & Hn & _).
  assert (Hpne : forall b, b <> a -> payload <$> heap (addToHead a c0) !! b = payload <$> heap c !! b) by (intros b Hb; by rewrite Hp, Hne).
  assert (Hpa : payload <$> heap (addToHead a c0) !! a = Some (id, (f, 0))) by (by rewrite Hp, Ha).
  assert (Hids : forall b, b <> a -> idOf (addToHead a c0) b = idOf c b) by (intros b Hb; by apply idOf_same, Hpne).
  destruct (payload_idOf _ _ _ Hpa) as [Hida _]. cbn in Hida.
  assert (Hpend : forall j b, pendingClose c !! j = Some b -> b <> a).
  { intros j b (_ & _ & Hx)%(rep_pending _ _ _ H) ->. rewrite Hna in Hx. by destruct Hx. }
  constructor; cbn [items lent].
  - apply addToHead_dll; [done|done|by rewrite Ha].
  - constructor; [done|]. eapply Forall2_impl_in; [apply (rep_items _ _ _ H)|]. intros b i Hb Hi. cbn. rewrite Hpne; [done|]. by intros ->.
  - intros j b. rewrite He. cbn [c0 entries]. rewrite elem_of_cons. destruct (decide (j = id)) as [->|Hj].
    + rewrite lookup_insert_eq. split; [intros [= <-]; auto|]. intros [[->|Hb] Hbid]; [done|]. exfalso.
      rewrite Hids in Hbid by (by intros ->). assert (entries c !! id = Some b) by (by apply (rep_entries _ _ _ H)). congruence.
    + rewrite lookup_insert_ne, (rep_entries _ _ _ H) by done. split.
      * intros [Hb Hbid]. rewrite Hids by (by intros ->). auto.
      * intros [[->|Hb] Hbid]; [congruence|]. rewrite Hids in Hbid by (by intros ->). auto.
  - rewrite He. cbn [c0 entries]. rewrite map_size_insert_None by done. by rewrite (rep_size _ _ _ H).
  - intros j b. rewrite Hpc. cbn [c0 pendingClose]. intros Hj. pose proof (Hpend _ _ Hj) as Hb.
    apply (rep_pending _ _ _ H) in Hj as (Hx & Hy & Hz). rewrite Hids, Hpne, not_elem_of_cons by done. auto.
  - intros j. rewrite Hpc, (rep_lent _ _ _ H). cbn [c0 pendingClose]. destruct (pendingClose c !! j) as [b|] eqn:Ej; [|done].
    cbn. rewrite Hpne; [done|]. by eapply Hpend.
  - intros b [e Hb]. rewrite Hn. cbn [c0 nextAddr]. destruct (decide (b = a)) as [->|Hba]; [subst a; lia|].
    specialize (Hpne b Hba). rewrite Hb in Hpne. assert (b < nextAddr c); [|subst a; lia].
    apply (rep_fresh _ _ _ H). by destruct (heap c !! b).
Qed.

Lemma evictTail_ok c l s i : rep c l s -> last (items s) = Some i ->
  exists c' l', evictTail c = (c', (lru_retire i (take (length (items s) - 1) (items s)) (lent s)).2) /\
    rep c' l' (lru_retire i (take (length (items s) - 1) (items s)) (lent s)).1.
Proof.
  intros H Hl. apply last_Some in Hl as [i1 Hs]. rewrite Hs. rewrite length_app. cbn [length].
  replace (length i1 + 1 - 1)%nat with (length i1) by lia. rewrite take_app_length.
  pose proof (rep_items _ _ _ H) as Hi. rewrite Hs in Hi. apply Forall2_app_inv_r in Hi as (l1 & l2 & H1 & H2 & El).
  apply Forall2_cons_inv_r in H2 as (a & l3 & Ha & H3 & ->). apply Forall2_nil_inv_r in H3 as ->. subst l.
  destruct (payload_idOf _ _ _ Ha) as [Hid _]. destruct i as [id v]. cbn in Hid.
  destruct (rep_take _ l1 a [] i1 id v [] s H Hs (Forall2_length _ _ _ H1) Ha) as (Hc & Ha' & Hal & _).
  rewrite !app_nil_r in *. destruct (retire_ok _ _ _ _ _ _ Hc Ha' Hal) as (c' & E' & H').
  exists c', l1. split; [|done]. unfold evictTail. rewrite (dll_tail _ _ (rep_dll _ _ _ H)), last_snoc. cbv zeta.
  replace (idOf (unlink a c) a) with id; [done|]. rewrite <- Hid. symmetry. apply idOf_same. apply unlink_same.
Qed.

Lemma add_ok c l s id f : rep c l s ->
  exists c' l', add id f c = (c', (lru_add (capacity c) id f s).2) /\ rep c' l' (lru_add (capacity c) id f s).1.
Proof.
  intros H. unfold add, lru_add. destruct (entries c !! id) as [a|] eqn:E.
  - destruct (rep_split _ _ _ _ _ H E) as (l1 & l2 & i1 & i2 & v & -> & Hs & H1 & Ha & H2).
    destruct (assoc_here _ _ _ _ _ _ _ H Hs) as (-> & -> & _). destruct v as [f0 r]. pose proof (Forall2_length _ _ _ H1) as Hlen.
    eapply (rep_upd _ _ _ _ _ _ _ _ _ (set_file f) (f, r)) in H; [|done..| |]; [|by intros []|by intros [] [= -> -> ->]].
    eapply rep_move in H; [|done..]. eexists _, _. split; [done|exact H].
  - rewrite (rep_none _ _ _ _ H E). pose proof (addToHead_new _ _ _ id f H E) as H'. cbv zeta in H' |- *.
    set (c1 := addToHead _ _) in *. assert (capacity c1 = capacity c) as ->.
    { unfold c1. by destruct (addToHead_same (nextAddr c) (mkCache (capacity c) (<[nextAddr c:=mkEntry f id 0 None None]> (heap c)) (nextAddr c + 1)
              (<[id:=nextAddr c]> (entries c)) (pendingClose c) (chead c) (ctail c) (hits c) (misses c))) as (_ & _ & _ & -> & _). }
    rewrite (rep_size _ _ _ H'). cbn [length].
    replace (zlen ((id, (f, 0)) :: items s)) with (Z.of_nat (S (length l))).
    + destruct (capacity c <? Z.of_nat (S (length l))).
      * destruct (last ((id, (f, 0)) :: items s)) as [i|] eqn:El; [|by apply last_None in El].
        by apply (evictTail_ok _ _ _ _ H').
      * eexists _, _. split; [done|exact H'].
    + unfold zlen. cbn [length]. by rewrite (Forall2_length _ _ _ (rep_items _ _ _ H)).
Qed.

(** *** Sequences of calls *)

Inductive call := Get (id : Z) | Release (id : Z) | Add (id f : Z) | Remove (id : Z).

(** The descriptor returned and those closed. *)
Definition exec (x : call) (c : lobFDCache) : lobFDCache * (option Z * list Z) :=
  match x with
  | Get id => let '(c, r) := get id c in (c, (r, []))
  | Release id => let '(c, fs) := release id c in (c, (None, fs))
  | Add id f => let '(c, fs) := add id f c in (c, (None, fs))
  | Remove id => let '(c, fs) := remove id c in (c, (None, fs))
  end.
Definition lru_exec (cap : Z) (x : call) (s : LRU) : LRU * (option Z * list Z) :=
  match x with
  | Get id => let '(s, r) := lru_get id s in (s, (r, []))
  | Release id => let '(s, fs) := lru_release id s in (s, (None, fs))
  | Add id f => let '(s, fs) := lru_add cap id f s in (s, (None, fs))
  | Remove id => let '(s, fs) := lru_remove id s in (s, (None, fs))
  end.
Fixpoint runAll {A B R} (f : B -> A -> A * R) (xs : list B) (a : A) : A * list R :=
  match xs with
  | [] => (a, [])
  | x :: xs => let '(a, r) := f x a in let '(a, rs) := runAll f xs a in (a, r :: rs)
  end.

Lemma retire_capacity id a c : capacity (retire id a c).1 = capacity c.
Proof. unfold retire. by destruct (0 <? _). Qed.
Lemma unlink_capacity a c : capacity (unlink a c) = capacity c.
Proof. by destruct (unlink_same a c) as (_ & _ & _ & -> & _). Qed.
Lemma moveToHead_capacity a c : capacity (moveToHead a c) = capacity c.
Proof. by destruct (moveToHead_same a c) as (_ & _ & _ & -> & _). Qed.
Lemma addToHead_capacity a c : capacity (addToHead a c) = capacity c.
Proof. by destruct (addToHead_same a c) as (_ & _ & _ & -> & _). Qed.

#[local] Opaque unlink addToHead moveToHead retire.

Lemma get_capacity id c : capacity (get id c).1 = capacity c.
Proof. unfold get. destruct (entries c !! id); [|done]. cbn [fst]. by rewrite moveToHead_capacity. Qed.
Lemma release_capacity id c : capacity (release id c).1 = capacity c.
Proof.
  unfold release. destruct (entries c !! id); [done|]. destruct (pendingClose c !! id); [|done]. cbv zeta. by destruct (_ <=? 0).
Qed.
Lemma remove_capacity id c : capacity (remove id c).1 = capacity c.
Proof.
  unfold remove. destruct (entries c !! id); [|done]. cbv zeta. rewrite retire_capacity. cbn [capacity with_entries].
  apply unlink_capacity.
Qed.
Lemma evictTail_capacity c : capacity (evictTail c).1 = capacity c.
Proof.
  unfold evictTail. destruct (ctail c); [|done]. cbv zeta. rewrite retire_capacity. cbn [capacity with_entries].
  apply unlink_capacity.
Qed.
#[local] Opaque evictTail.
Lemma add_capacity id f c : capacity (add id f c).1 = capacity c.
Proof.
  unfold add. destruct (entries c !! id); [cbn [fst]; by rewrite moveToHead_capacity|]. cbv zeta.
  destruct (_ <? _); [rewrite evictTail_capacity|cbn [fst]]; by rewrite addToHead_capacity.
Qed.

Lemma exec_capacity x c : capacity (exec x c).1 = capacity c.
Proof.
  destruct x as [id|id|id f|id]; cbn [exec].
  - pose proof (get_capacity id c). by destruct (get id c).
  - pose proof (release_capacity id c). by destruct (release id c).
  - pose proof (add_capacity id f c). by destruct (add id f c).
  - pose proof (remove_capacity id c). by destruct (remove id c).
Qed.

Lemma cache_exec_ok x c l s : rep c l s ->
  exists c' l', exec x c = (c', (lru_exec (capacity c) x s).2) /\ rep c' l' (lru_exec (capacity c) x s).1.
Proof.
  intros H. destruct x as [id|id|id f|id]; cbn [exec lru_exec].
  - destruct (get_ok _ _ _ id H) as (c' & l' & -> & H'). destruct (lru_get id s). by exists c', l'.
  - destruct (release_ok _ _ _ id H) as (c' & -> & H'). destruct (lru_release id s). by exists c', l.
  - destruct (add_ok _ _ _ id f H) as (c' & l' & -> & H'). destruct (lru_add (capacity c) id f s). by exists c', l'.
  - destruct (remove_ok _ _ _ id H) as (c' & l' & -> & H'). destruct (lru_remove id s). by exists c', l'.
Qed.

Lemma drop_id_length id v its : assoc id its = Some v -> (S (length (drop_id id its)) <= length its)%nat.
Proof.
  assert (Hle : forall l, (length (drop_id id l) <= length l)%nat) by (intros l; apply length_filter).
  assert (Happ : forall l k, drop_id id (l ++ k) = drop_id id l ++ drop_id id k) by (intros l k; apply filter_app).
  assert (Hcons : forall l, drop_id id ((id, v) :: l) = drop_id id l) by (intros l; apply filter_cons_False; cbn; tauto).
  intros (i1 & i2 & ->)%assoc_split. rewrite Happ, Hcons, !length_app. cbn [length].
  pose proof (Hle i1). pose proof (Hle i2). lia.
Qed.

Lemma lru_retire_items i its m : items (lru_retire i its m).1 = its.
Proof. unfold lru_retire. by destruct (0 <? _). Qed.

Lemma lru_exec_bound cap x s : zlen (items s) <= Z.max 0 cap -> zlen (items (lru_exec cap x s).1) <= Z.max 0 cap.
Proof.
  intros H. unfold zlen in *. destruct x as [id|id|id f|id]; cbn [lru_exec].
  - unfold lru_get. destruct (assoc id (items s)) as [[f r]|] eqn:E; [|done]. apply drop_id_length in E. cbn [fst items length]. lia.
  - unfold lru_release. destruct (assoc id (items s)) as [[f r]|] eqn:E.
    + cbn [fst items]. unfold set_item. by rewrite length_fmap.
    + destruct (lent s !! id) as [[f r]|]; [|done]. by destruct (r - 1 <=? 0).
  - unfold lru_add. destruct (assoc id (items s)) as [[f0 r]|] eqn:E.
    + apply drop_id_length in E. cbn [fst items length]. lia.
    + cbv zeta. destruct (Z.ltb_spec cap (zlen ((id, (f, 0)) :: items s))) as [Hc|Hc].
      * destruct (last _) as [i|]; [|done].
        match goal with |- context [lru_retire ?i ?t ?m] => pose proof (lru_retire_items i t m) as Er; destruct (lru_retire i t m) end.
        cbn [fst] in *. rewrite Er, length_take. cbn [length]. lia.
      * unfold zlen in Hc. cbn [fst items]. lia.
  - unfold lru_remove. destruct (assoc id (items s)) as [v|] eqn:E; [|done]. apply drop_id_length in E.
    match goal with |- context [lru_retire ?i ?t ?m] => pose proof (lru_retire_items i t m) as Er; destruct (lru_retire i t m) end.
    cbn [fst] in *. rewrite Er. lia.
Qed.

Lemma new_rep cap : rep (newLobFDCache cap) [] (mkLRU [] ∅).
Proof.
  constructor.
  - constructor; [apply NoDup_nil_2|done..].
  - constructor.
  - intros id a. cbn. rewrite lookup_empty. set_solver.
  - done.
  - intros id a. cbn. by rewrite lookup_empty.
  - intros id. cbn. by rewrite !lookup_empty.
  - intros a [e He]. cbn in He. by rewrite lookup_empty in He.
Qed.

Lemma runAll_ok calls c l s : rep c l s ->
  exists c' l', runAll exec calls c = (c', (runAll (lru_exec (capacity c)) calls s).2) /\
    rep c' l' (runAll (lru_exec (capacity c)) calls s).1.
Proof.
  revert c l s. induction calls as [|x calls IH]; intros c l s H; [by exists c, l|]. cbn [runAll].
  destruct (cache_exec_ok x c l s H) as (c1 & l1 & E & H1). pose proof (exec_capacity x c) as Hc. rewrite E in Hc. cbn [fst] in Hc.
  rewrite E. destruct (IH c1 l1 _ H1) as (c2 & l2 & E2 & H2). rewrite Hc in E2, H2.
  destruct (lru_exec (capacity c) x s) as [s1 r1]. cbn [fst snd] in *. rewrite E2.
  destruct (runAll (lru_exec (capacity c)) calls s1). by exists c2, l2.
Qed.

Lemma runAll_bound cap calls s : zlen (items s) <= Z.max 0 cap ->
  zlen (items (runAll (lru_exec cap) calls s).1) <= Z.max 0 cap.
Proof.
  revert s. induction calls as [|x calls IH]; intros s H; [done|]. cbn [runAll].
  pose proof (lru_exec_bound cap x s H) as H1. destruct (lru_exec cap x s) as [s1 r1]. specialize (IH s1 H1).
  by destruct (runAll (lru_exec cap) calls s1).
Qed.

(** C17: the descriptor cache, a map over a doubly linked list, is a list in order
    of use: for any sequence of calls, each returns and closes the descriptors the
    list says, the links and the map keep representing the list, and no more
    entries are cached than the capacity allows. *)
Theorem fd_cache_refines_lru cap calls :
  exists c l, runAll exec calls (newLobFDCache cap) = (c, (runAll (lru_exec cap) calls (mkLRU [] ∅)).2) /\
    rep c l (runAll (lru_exec cap) calls (mkLRU [] ∅)).1 /\ Z.of_nat (size (entries c)) <= Z.max 0 cap.
Proof.
  destruct (runAll_ok calls _ _ _ (new_rep cap)) as (c & l & E & H). cbn [capacity newLobFDCache] in *.
  exists c, l. split; [done|]. split; [done|]. rewrite (rep_size _ _ _ H), (Forall2_length _ _ _ (rep_items _ _ _ H)).
  apply runAll_bound. cbn. unfold zlen. cbn. lia.
Qed.

(** The list and the items of a cache are determined. *)
Lemma dseg_unique h p l k : dseg h p l None -> dseg h p k None -> head l = head k -> l = k.
Proof.
  revert p k. induction l as [|a l IH]; intros p [|b k]; try done.
  intros [(e & Ha & _ & He) Hl] [(e' & Hb & _ & He') Hk] [= <-]. f_equal. assert (e = e') as <- by congruence.
  apply (IH (Some a)); [done|done|]. rewrite !head_or_None in *. congruence.
Qed.
Lemma dll_unique c l k : dll c l -> dll c k -> l = k.
Proof.
  intros [_ H1 H2 _] [_ K1 K2 _]. eapply dseg_unique; [exact H1|exact K1|congruence].
Qed.
Lemma rep_items_unique c l i k : Forall2 (fun a i => payload <$> heap c !! a = Some i) l i ->
  Forall2 (fun a i => payload <$> heap c !! a = Some i) l k -> i = k.
Proof.
  intros H. revert k. induction H as [|a x l i Hx _ IH]; intros k Hk.
  - by apply Forall2_nil_inv_l in Hk.
  - apply Forall2_cons_inv_l in Hk as (y & k' & Hy & Hk & ->). f_equal; [congruence|by apply IH].
Qed.

(** *** Borrowed descriptors

    Readers hold descriptors between [get] and [release] while other readers
    use the cache.  [opened] maps every descriptor ever cached to its file. *)

Record shared := mkShared {
  cache : lobFDCache;
  borrows : list (Z * Z);
  closedFds : list Z;
  opened : gmap Z Z }.

(** [guarded]: no file is cached again while an evicted descriptor of it is
    still borrowed, which the code does not ensure. *)
Inductive sstep (guarded : bool) : shared -> shared -> Prop :=
| s_borrow c b k o id f c' : get id c = (c', Some f) ->
    sstep guarded (mkShared c b k o) (mkShared c' ((id, f) :: b) k o)
| s_miss c b k o id c' : get id c = (c', None) ->
    sstep guarded (mkShared c b k o) (mkShared c' b k o)
| s_return c b1 id f b2 k o c' fs : release id c = (c', fs) ->
    sstep guarded (mkShared c (b1 ++ (id, f) :: b2) k o) (mkShared c' (b1 ++ b2) (fs ++ k) o)
| s_add c b k o id f c' fs : o !! f = None -> (guarded = true -> pendingClose c !! id = None) ->
    add id f c = (c', fs) -> sstep guarded (mkShared c b k o) (mkShared c' b (fs ++ k) (<[f := id]> o))
| s_remove c b k o id c' fs : remove id c = (c', fs) ->
    sstep guarded (mkShared c b k o) (mkShared c' b (fs ++ k) o).

Definition initial (cap : Z) : shared := mkShared (newLobFDCache cap) [] [] ∅.

(** The readers of a file. *)
Definition readers (id : Z) (b : list (Z * Z)) : Z := zlen (filter (fun x => x.1 = id) b).

Lemma readers_cons id j f b : readers id ((j, f) :: b) = readers id b + (if decide (j = id) then 1 else 0).
Proof.
  unfold readers. destruct (decide (j = id)) as [->|].
  - rewrite filter_cons_True by done. rewrite zlen_cons. lia.
  - rewrite filter_cons_False by done. lia.
Qed.
Lemma readers_mid id b1 j f b2 : readers id (b1 ++ (j, f) :: b2) = readers id (b1 ++ b2) + (if decide (j = id) then 1 else 0).
Proof.
  pose proof (readers_cons id j f b2) as H. unfold readers in *. rewrite !filter_app, !zlen_app. lia.
Qed.
Lemma readers_in id f b : (id, f) ∈ b -> 0 < readers id b.
Proof.
  intros (b1 & b2 & ->)%list_elem_of_split. rewrite readers_mid, decide_True by done. unfold readers.
  pose proof (zlen_nonneg (filter (fun x : Z * Z => x.1 = id) (b1 ++ b2))). lia.
Qed.
Lemma readers_nonneg id b : 0 <= readers id b.
Proof. apply zlen_nonneg. Qed.

(** The counts are right and nothing in use is closed. *)
Record counted (u : LRU) (b : list (Z * Z)) (k : list Z) (o : gmap Z Z) : Prop := {
  cd_items : forall id f r, (id, (f, r)) ∈ items u -> o !! f = Some id /\ (f ∉ k) /\ r = readers id b;
  cd_lent : forall id f r, lent u !! id = Some (f, r) -> o !! f = Some id /\ (f ∉ k) /\ r = readers id b /\ id ∉ (items u).*1;
  cd_none : forall id, id ∉ (items u).*1 -> lent u !! id = None -> readers id b = 0;
  cd_borrow : forall id f, (id, f) ∈ b -> o !! f = Some id /\ f ∉ k;
  cd_closed : forall f, f ∈ k -> is_Some (o !! f);
  cd_nodup : NoDup (items u).*1 }.

(** A descriptor without readers may be closed once its entry is gone. *)
Lemma counted_close u b k o id f :
  counted u b k o -> o !! f = Some id -> readers id b = 0 -> id ∉ (items u).*1 -> lent u !! id = None ->
  counted u b (f :: k) o.
Proof.
  intros H Hf Hr Hi Hl. constructor; try apply H.
  - intros j g r Hj. destruct (cd_items _ _ _ _ H _ _ _ Hj) as (H1 & H2 & H3). split; [done|]. split; [|done].
    apply not_elem_of_cons. split; [|done]. intros ->. assert (j = id) as -> by congruence.
    apply Hi. apply list_elem_of_fmap. by exists (id, (f, r)).
  - intros j g r Hj. destruct (cd_lent _ _ _ _ H _ _ _ Hj) as (H1 & H2 & H3 & H4). split; [done|]. split; [|done].
    apply not_elem_of_cons. split; [|done]. intros ->. congruence.
  - intros j g Hj. destruct (cd_borrow _ _ _ _ H _ _ Hj) as (H1 & H2). split; [done|].
    apply not_elem_of_cons. split; [|done]. intros ->. assert (j = id) as -> by congruence.
    apply readers_in in Hj. lia.
  - intros g [->|Hg]%elem_of_cons; [by eexists|by apply (cd_closed _ _ _ _ H)].
Qed.

(** An item leaves the list. *)
Lemma counted_retire u b k o i its :
  counted u b k o -> items u ≡ₚ i :: its -> 
  counted (lru_retire i its (lent u)).1 b ((lru_retire i its (lent u)).2 ++ k) o.
Proof.
  intros H Hp. destruct i as [id [f r]]. pose proof (cd_nodup _ _ _ _ H) as Hn. rewrite Hp, fmap_cons in Hn. cbn [fst] in Hn.
  apply NoDup_cons in Hn as [Hid Hn]. destruct (cd_items _ _ _ _ H id f r) as (H1 & H2 & H3); [rewrite Hp; apply list_elem_of_here|].
  assert (Hids : forall j, j ∈ (items u).*1 <-> j = id \/ j ∈ its.*1) by (intros j; rewrite Hp, fmap_cons; apply elem_of_cons).
  assert (Hl : lent u !! id = None).
  { destruct (lent u !! id) as [[g q]|] eqn:E; [|done]. apply (cd_lent _ _ _ _ H) in E as (_ & _ & _ & E). rewrite Hids in E. naive_solver. }
  unfold lru_retire. cbn [fst snd]. destruct (Z.ltb_spec 0 r) as [Hr|Hr].
  - constructor; cbn [fst snd app items lent]; try apply H; [| | |done].
    + intros j g q Hj. apply (cd_items _ _ _ _ H). rewrite Hp. by apply list_elem_of_further.
    + intros j g q. destruct (decide (j = id)) as [->|].
      * rewrite lookup_insert_eq. intros [= <- <-]. done.
      * rewrite lookup_insert_ne by done. intros (K1 & K2 & K3 & K4)%(cd_lent _ _ _ _ H). rewrite Hids in K4. naive_solver.
    + intros j Hj. destruct (decide (j = id)) as [->|]; [by rewrite lookup_insert_eq|]. rewrite lookup_insert_ne by done.
      intros Hj2. apply (cd_none _ _ _ _ H); [|done]. rewrite Hids. naive_solver.
  - assert (H' : counted (mkLRU its (lent u)) b k o).
    { constructor; cbn [items lent]; try apply H; [| | |done].
      + intros j g q Hj. apply (cd_items _ _ _ _ H). rewrite Hp. by apply list_elem_of_further.
      + intros j g q (K1 & K2 & K3 & K4)%(cd_lent _ _ _ _ H). rewrite Hids in K4. naive_solver.
      + intros j Hj Hj2. destruct (decide (j = id)) as [->|]; [pose proof (readers_nonneg id b); lia|].
        apply (cd_none _ _ _ _ H); [|done]. rewrite Hids. naive_solver. }
    cbn [fst snd app]. apply (counted_close _ _ _ _ id); try done. pose proof (readers_nonneg id b). lia.
Qed.

Lemma assoc_perm id v its : NoDup its.*1 -> assoc id its = Some v -> its ≡ₚ (id, v) :: drop_id id its.
Proof.
  intros Hn (i1 & i2 & ->)%assoc_split. rewrite drop_id_mid by done. symmetry. apply Permutation_middle.
Qed.

(** The list is reordered, an entry's readers and descriptor change. *)
Lemma counted_items u b k o its : counted u b k o -> its ≡ₚ items u -> counted (mkLRU its (lent u)) b k o.
Proof.
  intros H Hp. constructor; cbn [items lent]; try apply H.
  - intros id f r. rewrite Hp. apply (cd_items _ _ _ _ H).
  - intros id f r Hl. rewrite Hp. by apply (cd_lent _ _ _ _ H).
  - intros id. rewrite Hp. apply (cd_none _ _ _ _ H).
  - rewrite Hp. apply H.
Qed.

Lemma counted_get u b k o id f r its : counted u b k o -> items u ≡ₚ (id, (f, r)) :: its ->
  counted (mkLRU ((id, (f, r + 1)) :: its) (lent u)) ((id, f) :: b) k o.
Proof.
  intros H Hp. pose proof (cd_nodup _ _ _ _ H) as Hn. rewrite Hp, fmap_cons in Hn. cbn [fst] in Hn.
  destruct (cd_items _ _ _ _ H id f r) as (H1 & H2 & H3); [rewrite Hp; apply list_elem_of_here|].
  assert (Hids : forall j, j ∈ ((id, (f, r + 1)) :: its).*1 <-> j ∈ (items u).*1) by (intros j; by rewrite Hp).
  constructor; cbn [items lent]; try apply H.
  - intros j g q. rewrite elem_of_cons, readers_cons. intros [[= -> -> ->]|Hj].
    + rewrite decide_True by done. split_and!; [done|done|lia].
    + destruct (cd_items _ _ _ _ H j g q) as (K1 & K2 & K3); [rewrite Hp; by apply list_elem_of_further|].
      rewrite decide_False; [split_and!; [done|done|lia]|]. intros <-. apply NoDup_cons in Hn as [Hn _]. apply Hn.
      apply list_elem_of_fmap. by exists (id, (g, q)).
  - intros j g q (K1 & K2 & K3 & K4)%(cd_lent _ _ _ _ H). rewrite Hids, readers_cons. split_and!; [done|done| |done].
    rewrite decide_False; [lia|]. intros <-. apply K4. rewrite Hp. apply list_elem_of_here.
  - intros j. rewrite Hids, readers_cons. intros Hj Hl. rewrite decide_False, (cd_none _ _ _ _ H) by (done || intros <-; apply Hj; rewrite Hp; apply list_elem_of_here). done.
  - intros j g [[= -> ->]|Hj]%elem_of_cons; [done|]. by apply (cd_borrow _ _ _ _ H).
  - by rewrite fmap_cons.
Qed.

Lemma counted_release u b1 id g b2 k o : counted u (b1 ++ (id, g) :: b2) k o ->
  counted (lru_release id u).1 (b1 ++ b2) ((lru_release id u).2 ++ k) o.
Proof.
  intros H. assert (Hb : forall j f, (j, f) ∈ b1 ++ b2 -> (j, f) ∈ b1 ++ (id, g) :: b2).
  { intros j f. rewrite !elem_of_app, elem_of_cons. naive_solver. }
  pose proof (cd_nodup _ _ _ _ H) as Hn. unfold lru_release. destruct (assoc id (items u)) as [[f r]|] eqn:E.
  - apply assoc_split in E as (i1 & i2 & Hu). rewrite Hu in Hn |- *. rewrite set_item_mid by done. cbn [fst snd app].
    assert (Hids : (i1 ++ (id, (f, r - 1)) :: i2).*1 = (items u).*1) by (by rewrite Hu, !fmap_app).
    assert (Hne : forall j v, (j, v) ∈ i1 ++ i2 -> j <> id).
    { intros j v Hj ->. rewrite fmap_app, fmap_cons in Hn. apply NoDup_app in Hn as (_ & Hd & [Hi2 _]%NoDup_cons).
      apply elem_of_app in Hj as [Hj|Hj]; apply (list_elem_of_fmap_2 fst) in Hj; [|done].
      apply (Hd _ Hj). apply list_elem_of_here. }
    constructor; cbn [items lent]; try apply H.
    + intros j h q. rewrite elem_of_app, elem_of_cons. intros Hj.
      assert ((j, (h, q)) = (id, (f, r - 1)) \/ (j, (h, q)) ∈ i1 ++ i2) as [[= -> -> ->]|Hj'] by (rewrite elem_of_app; naive_solver).
      * destruct (cd_items _ _ _ _ H id f r) as (K1 & K2 & K3); [rewrite Hu; set_solver|].
        rewrite readers_mid, decide_True in K3 by done. split_and!; [done|done|lia].
      * destruct (cd_items _ _ _ _ H j h q) as (K1 & K2 & K3); [rewrite Hu; set_solver|].
        pose proof (Hne _ _ Hj'). rewrite readers_mid, decide_False in K3 by done. split_and!; [done|done|lia].
    + intros j h q Hj. destruct (cd_lent _ _ _ _ H _ _ _ Hj) as (K1 & K2 & K3 & K4). rewrite Hids.
      rewrite readers_mid, decide_False in K3; [split_and!; [done|done|lia|done]|]. intros <-. apply K4. rewrite Hu, fmap_app. set_solver.
    + intros j. rewrite Hids. intros Hj Hl. pose proof (cd_none _ _ _ _ H j Hj Hl) as K. rewrite readers_mid in K.
      pose proof (readers_nonneg j (b1 ++ b2)). destruct (decide (id = j)); lia.
    + intros j h Hj. by apply (cd_borrow _ _ _ _ H), Hb.
    + rewrite Hids. apply H.
  - apply assoc_None in E. destruct (lent u !! id) as [[f r]|] eqn:El.
    + destruct (cd_lent _ _ _ _ H _ _ _ El) as (K1 & K2 & K3 & K4). rewrite readers_mid, decide_True in K3 by done.
      assert (Hother : forall j, j <> id -> readers j (b1 ++ (id, g) :: b2) = readers j (b1 ++ b2)).
      { intros j Hj. rewrite readers_mid, decide_False by done. lia. }
      assert (Hgen : forall m, (forall j, j <> id -> m !! j = lent u !! j) ->
        (forall v, m !! id = Some v -> v = (f, readers id (b1 ++ b2))) -> (m !! id = None -> readers id (b1 ++ b2) = 0) ->
        counted (mkLRU (items u) m) (b1 ++ b2) k o).
      { intros m Hm Hmid Hmn. constructor; cbn [items lent]; try apply H.
        - intros j h q Hj. destruct (cd_items _ _ _ _ H _ _ _ Hj) as (L1 & L2 & L3). split_and!; [done|done|].
          rewrite Hother in L3; [done|]. intros ->. apply E. apply list_elem_of_fmap. by exists (id, (h, q)).
        - intros j h q Hj. destruct (decide (j = id)) as [->|Hne].
          + apply Hmid in Hj as [= -> ->]. done.
          + rewrite Hm in Hj by done. apply (cd_lent _ _ _ _ H) in Hj as (L1 & L2 & L3 & L4). by rewrite Hother in L3.
        - intros j Hj Hl. destruct (decide (j = id)) as [->|Hne]; [by apply Hmn|].
          rewrite Hm in Hl by done. rewrite <- (Hother j Hne). by apply (cd_none _ _ _ _ H).
        - intros j h Hj. by apply (cd_borrow _ _ _ _ H), Hb. }
      destruct (Z.leb_spec (r - 1) 0) as [Hr|Hr]; cbn [fst snd app].
      * assert (readers id (b1 ++ b2) = 0) as Hz by (pose proof (readers_nonneg id (b1 ++ b2)); lia).
        apply (counted_close _ _ _ _ id); [|done|done|done|cbn [lent]; by rewrite lookup_delete_eq].
        apply Hgen; [intros j Hj; by rewrite lookup_delete_ne|by rewrite lookup_delete_eq|done].
      * apply Hgen; [intros j Hj; by rewrite lookup_insert_ne| |by rewrite lookup_insert_eq].
        intros v. rewrite lookup_insert_eq. intros [= <-]. f_equal. lia.
    + exfalso. pose proof (cd_none _ _ _ _ H id E El) as K. rewrite readers_mid, decide_True in K by done.
      pose proof (readers_nonneg id (b1 ++ b2)). lia.
Qed.

Lemma counted_open u b k o id f : counted u b k o -> o !! f = None -> counted u b k (<[f := id]> o).
Proof.
  intros H Hf. assert (Ho : forall g j, o !! g = Some j -> <[f := id]> o !! g = Some j).
  { intros g j Hg. rewrite lookup_insert_ne; [done|]. congruence. }
  constructor; try apply H.
  - intros j g r Hj. apply (cd_items _ _ _ _ H) in Hj as (K1 & K2 & K3). auto.
  - intros j g r Hj. apply (cd_lent _ _ _ _ H) in Hj as (K1 & K2 & K3 & K4). auto.
  - intros j g Hj. apply (cd_borrow _ _ _ _ H) in Hj as (K1 & K2). auto.
  - intros g Hg. apply (cd_closed _ _ _ _ H) in Hg as [j Hj]. exists j. auto.
Qed.

(** The entry of a file gets a new descriptor, or a file gets its first entry. *)
Lemma counted_file u b k o id f f0 r its :
  counted u b k o -> o !! f = Some id -> f ∉ k -> items u ≡ₚ (id, (f0, r)) :: its ->
  counted (mkLRU ((id, (f, r)) :: its) (lent u)) b k o.
Proof.
  intros H Ho Hk Hp. assert (Hids : forall j, j ∈ ((id, (f, r)) :: its).*1 <-> j ∈ (items u).*1) by (intros j; by rewrite Hp).
  constructor; cbn [items lent]; try apply H.
  - intros j g q [[= -> -> ->]|Hj]%elem_of_cons; [|apply (cd_items _ _ _ _ H); rewrite Hp; by apply list_elem_of_further].
    split_and!; [done|done|]. apply (cd_items _ _ _ _ H _ f0). rewrite Hp. apply list_elem_of_here.
  - intros j g q Hj. rewrite Hids. by apply (cd_lent _ _ _ _ H).
  - intros j. rewrite Hids. apply (cd_none _ _ _ _ H).
  - pose proof (cd_nodup _ _ _ _ H) as Hn. by rewrite Hp in Hn.
Qed.
Lemma counted_new u b k o id f :
  counted u b k o -> o !! f = Some id -> f ∉ k -> id ∉ (items u).*1 -> lent u !! id = None ->
  counted (mkLRU ((id, (f, 0)) :: items u) (lent u)) b k o.
Proof.
  intros H Ho Hk Hi Hl. constructor; cbn [items lent]; try apply H.
  - intros j g q [[= -> -> ->]|Hj]%elem_of_cons; [|by apply (cd_items _ _ _ _ H)].
    split_and!; [done|done|]. symmetry. by apply (cd_none _ _ _ _ H).
  - intros j g q Hj. destruct (cd_lent _ _ _ _ H _ _ _ Hj) as (K1 & K2 & K3 & K4). split_and!; [done|done|done|].
    rewrite fmap_cons, not_elem_of_cons. split; [|done]. cbn. intros ->. congruence.
  - intros j. rewrite fmap_cons, not_elem_of_cons. intros [_ Hj] Hjl. by apply (cd_none _ _ _ _ H).
  - rewrite fmap_cons. apply NoDup_cons. split; [done|apply H].
Qed.

Definition shared_ok (s : shared) : Prop :=
  exists l u, rep (cache s) l u /\ counted u (borrows s) (closedFds s) (opened s).

Lemma counted_add u b k o cap id f c l :
  rep c l u -> counted u b k o -> o !! f = None -> lent u !! id = None \/ (exists v, assoc id (items u) = Some v) ->
  counted (lru_add cap id f u).1 b ((lru_add cap id f u).2 ++ k) (<[f := id]> o).
Proof.
  intros Hr H Ho Hg. assert (Hk : f ∉ k) by (intros Hf; apply (cd_closed _ _ _ _ H) in Hf as [j Hj]; congruence).
  pose proof (counted_open _ _ _ _ id f H Ho) as H'. assert (Hf : <[f := id]> o !! f = Some id) by (by rewrite lookup_insert_eq).
  unfold lru_add. destruct (assoc id (items u)) as [[f0 r]|] eqn:E.
  - cbn [fst snd app]. eapply counted_file; [done|done|done|]. apply assoc_perm; [apply H|done].
  - destruct Hg as [Hg|[v Hg]]; [|done]. apply assoc_None in E.
    pose proof (counted_new _ _ _ _ _ _ H' Hf Hk E Hg) as Hn. cbv zeta.
    destruct (_ <? _); [|by cbn [fst snd app]]. destruct (last _) as [i|] eqn:El; [|by apply last_None in El].
    apply last_Some in El as [its El]. rewrite El, length_app. cbn [length].
    replace (length its + 1 - 1)%nat with (length its) by lia. rewrite take_app_length.
    apply (counted_retire _ _ _ _ i its) in Hn; [exact Hn|]. cbn [items]. rewrite El. by rewrite Permutation_app_comm.
Qed.

Lemma rep_lent_None c l u id : rep c l u -> pendingClose c !! id = None -> lent u !! id = None.
Proof. intros H E. rewrite (rep_lent _ _ _ H), E. done. Qed.

Lemma sstep_ok s s' : sstep true s s' -> shared_ok s -> shared_ok s'.
Proof.
  intros Hs (l & u & Hr & Hc). inversion Hs as [c b k o id f c' E|c b k o id c' E|c b1 id f b2 k o c' fs E|c b k o id f c' fs Ho Hg E|c b k o id c' fs E];
    subst s s'; cbn [cache borrows closedFds opened] in *.
  - destruct (get_ok _ _ _ id Hr) as (c2 & l2 & E2 & H2). rewrite E2 in E. injection E as <- Ef. exists l2. eexists. split; [exact H2|].
    cbn [borrows closedFds opened]. unfold lru_get in *. destruct (assoc id (items u)) as [[g r]|] eqn:Ea; [|done].
    cbn [fst snd] in *. injection Ef as ->. apply counted_get; [done|]. apply assoc_perm; [apply Hc|done].
  - destruct (get_ok _ _ _ id Hr) as (c2 & l2 & E2 & H2). rewrite E2 in E. injection E as <- Ef. exists l2. eexists. split; [exact H2|].
    cbn [borrows closedFds opened]. unfold lru_get in *. destruct (assoc id (items u)) as [[g r]|] eqn:Ea; done.
  - destruct (release_ok _ _ _ id Hr) as (c2 & E2 & H2). rewrite E2 in E. injection E as <- <-. exists l. eexists. split; [exact H2|].
    by apply (counted_release _ _ _ f).
  - destruct (add_ok _ _ _ id f Hr) as (c2 & l2 & E2 & H2). rewrite E2 in E. injection E as <- <-. exists l2. eexists. split; [exact H2|].
    cbn [borrows closedFds opened]. eapply counted_add; [exact Hr|done|done|]. left. eapply rep_lent_None; [exact Hr|by apply Hg].
  - destruct (remove_ok _ _ _ id Hr) as (c2 & l2 & E2 & H2). rewrite E2 in E. injection E as <- <-. exists l2. eexists. split; [exact H2|].
    cbn [borrows closedFds opened]. unfold lru_remove. destruct (assoc id (items u)) as [v|] eqn:Ea; [|done].
    apply counted_retire; [done|]. apply assoc_perm; [apply Hc|done].
Qed.

Lemma cache_initial_ok cap : shared_ok (initial cap).
Proof.
  exists [], (mkLRU [] ∅). split; [apply new_rep|]. constructor; cbn.
  - intros id f r Hi. by apply elem_of_nil in Hi.
  - intros id f r Hl. by rewrite lookup_empty in Hl.
  - done.
  - intros id f Hi. by apply elem_of_nil in Hi.
  - intros f Hi. by apply elem_of_nil in Hi.
  - apply NoDup_nil_2.
Qed.

(** C19: while no file is cached again before the last reader of its evicted
    descriptor is done, no reachable interleaving of readers closes a descriptor
    that somebody has borrowed. *)
Theorem borrowed_stays_open cap s id f :
  rtc (sstep true) (initial cap) s -> (id, f) ∈ borrows s -> f ∉ closedFds s.
Proof.
  intros Hs Hb. assert (Hok : shared_ok s).
  { clear Hb. revert Hs. apply (rtc_ind_r (fun s => shared_ok s)); [apply cache_initial_ok|]. intros y z _ Hyz. by apply sstep_ok. }
  destruct Hok as (l & u & _ & Hc). by destruct (cd_borrow _ _ _ _ Hc _ _ Hb).
Qed.

#[local] Transparent unlink addToHead moveToHead retire evictTail.

(** Steps as functions, to follow a run. *)
Definition do_borrow (id f : Z) (s : shared) : shared :=
  mkShared (get id (cache s)).1 ((id, f) :: borrows s) (closedFds s) (opened s).
Definition do_add (id f : Z) (s : shared) : shared :=
  mkShared (add id f (cache s)).1 (borrows s) ((add id f (cache s)).2 ++ closedFds s) (<[f := id]> (opened s)).
Definition do_return (b1 : list (Z * Z)) (id : Z) (b2 : list (Z * Z)) (s : shared) : shared :=
  mkShared (release id (cache s)).1 (b1 ++ b2) ((release id (cache s)).2 ++ closedFds s) (opened s).

Lemma run_borrow g s0 s id f : rtc (sstep g) s0 s -> (get id (cache s)).2 = Some f -> rtc (sstep g) s0 (do_borrow id f s).
Proof.
  intros H E. eapply rtc_r; [exact H|]. destruct s as [c b k o]. apply s_borrow. cbn [cache] in E.
  by rewrite <- E, <- surjective_pairing.
Qed.
Lemma run_add g s0 s id f : rtc (sstep g) s0 s -> opened s !! f = None -> (g = true -> pendingClose (cache s) !! id = None) ->
  rtc (sstep g) s0 (do_add id f s).
Proof.
  intros H Ho Hg. eapply rtc_r; [exact H|]. destruct s as [c b k o]. eapply s_add; [done|done|apply surjective_pairing].
Qed.
Lemma run_return g s0 s b1 id f b2 : rtc (sstep g) s0 s -> borrows s = b1 ++ (id, f) :: b2 ->
  rtc (sstep g) s0 (do_return b1 id b2 s).
Proof.
  intros H Hb. eapply rtc_r; [exact H|]. destruct s as [c b k o]. cbn [borrows] in Hb. subst b.
  eapply s_return. apply surjective_pairing.
Qed.

(** Without that restriction the count goes wrong.  Reader A borrows file 1,
    it is evicted, opened again and borrowed by B; A's release is charged to the
    new entry, and the next eviction closes B's descriptor. *)
Theorem borrowed_descriptor_closed :
  exists s, rtc (sstep false) (initial 1) s /\ (1, 12) ∈ borrows s /\ 12 ∈ closedFds s.
Proof.
  exists (do_add 3 13 (do_return [(1, 12)] 1 [] (do_borrow 1 12 (do_add 1 12 (do_add 2 11 (do_borrow 1 10 (do_add 1 10 (initial 1)))))))).
  split; [|split].
  - apply run_add; [|by vm_compute|done]. eapply run_return; [|reflexivity]. apply run_borrow; [|by vm_compute].
    apply run_add; [|by vm_compute|done]. apply run_add; [|by vm_compute|done]. apply run_borrow; [|by vm_compute].
    apply run_add; [apply rtc_refl|by vm_compute|done].
  - vm_compute. constructor.
  - vm_compute. constructor.
Qed.

Lemma borrowed_stays_open_witness :
  (1, 10) ∈ borrows (do_borrow 1 10 (do_add 1 10 (initial 1))) /\
  10 ∉ closedFds (do_borrow 1 10 (do_add 1 10 (initial 1))).
Proof.
  split; [apply list_elem_of_here|]. apply (borrowed_stays_open 1 _ 1 10); [|apply list_elem_of_here].
  apply run_borrow; [|vm_compute; reflexivity]. apply run_add; [apply rtc_refl|vm_compute; reflexivity|intros _; vm_compute; reflexivity].
Defined.

End Fd.
