(* ===== verification/LobStore.v ===== *)
(** * LOB files (lob/file_store.go, file_manager.go, manager.go, config.go)

    A large value is written to a temporary file, synced and renamed to the name
    of its number.  The directory maps numbers to inodes ([files] for
    lob_<id>.ao, [tmps] for lob_tmp_<id>.ao; %020d is injective), an open
    descriptor is a number bound to an inode, [faults] is the oracle of I/O
    errors and [synced] what an fsync has covered, as in DiskWal.v.  The queue of
    the group commit is never used (see below), so a file is synced by its own
    fsync.  LobTiers.v puts the store behind the codec. *)

From stdpp Require Import base list gmap strings.
From Stdlib Require Import ZArith Lia.
From S2P Require Import Prelude MvccCodec OffHeap LobCache.

Local Open Scope Z_scope.

(** ** Configuration (config.go); durations in nanoseconds *)

Record Config := mkConfig {
  OverflowThreshold : Z;
  FileThreshold : Z;
  FileMMapThreshold : Z;
  FDCacheCapacity : Z;
  FsyncInterval : Z;
  FsyncMaxBatch : Z;
  FsyncQueueSize : Z;
  FsyncEnabled : bool;
  MaxLOBRetiredLen : Z }.

Definition DefaultConfig : Config := mkConfig 2048 262144 65536 64 1000000 32 256 false 65536.

Definition Option : Type := Config -> Config.
Definition WithFsyncEnabled (v : bool) : Option := fun c =>
  mkConfig (OverflowThreshold c) (FileThreshold c) (FileMMapThreshold c) (FDCacheCapacity c) (FsyncInterval c)
    (FsyncMaxBatch c) (FsyncQueueSize c) v (MaxLOBRetiredLen c).
Definition WithFDCacheCapacity (n : Z) : Option := fun c =>
  mkConfig (OverflowThreshold c) (FileThreshold c) (FileMMapThreshold c) n (FsyncInterval c)
    (FsyncMaxBatch c) (FsyncQueueSize c) (FsyncEnabled c) (MaxLOBRetiredLen c).
Definition WithFileMMapThreshold (n : Z) : Option := fun c =>
  mkConfig (OverflowThreshold c) (FileThreshold c) n (FDCacheCapacity c) (FsyncInterval c)
    (FsyncMaxBatch c) (FsyncQueueSize c) (FsyncEnabled c) (MaxLOBRetiredLen c).
Definition Apply (opts : list Option) (c : Config) : Config := foldl (fun c o => o c) c opts.

(** ** The file system *)

Record FS := mkFS {
  files : gmap Z nat;
  tmps : gmap Z nat;
  inodes : gmap nat bytes;
  synced : gmap nat Z;
  nextInode : nat;
  fds : gmap Z nat;
  nextFd : Z;
  faults : list (option nat) }.

Record lobFileStore := mkStore {
  fs : FS;
  cfg : Config;
  nextLOBID : Z;
  fdCache : Fd.lobFDCache }.

Definition set_fs (g : FS -> FS) (s : lobFileStore) : lobFileStore := mkStore (g (fs s)) (cfg s) (nextLOBID s) (fdCache s).
Definition with_cache (c : Fd.lobFDCache) (s : lobFileStore) : lobFileStore := mkStore (fs s) (cfg s) (nextLOBID s) c.
Definition with_nextLOBID (n : Z) (s : lobFileStore) : lobFileStore := mkStore (fs s) (cfg s) n (fdCache s).

Definition with_faults (l : list (option nat)) (o : FS) : FS :=
  mkFS (files o) (tmps o) (inodes o) (synced o) (nextInode o) (fds o) (nextFd o) l.
Definition with_dirs (f t : gmap Z nat) (o : FS) : FS :=
  mkFS f t (inodes o) (synced o) (nextInode o) (fds o) (nextFd o) (faults o).
Definition with_content (i : nat) (c : bytes) (o : FS) : FS :=
  mkFS (files o) (tmps o) (<[i := c]> (inodes o)) (synced o) (nextInode o) (fds o) (nextFd o) (faults o).
Definition with_synced (i : nat) (n : Z) (o : FS) : FS :=
  mkFS (files o) (tmps o) (inodes o) (<[i := n]> (synced o)) (nextInode o) (fds o) (nextFd o) (faults o).
Definition with_fds (m : gmap Z nat) (o : FS) : FS :=
  mkFS (files o) (tmps o) (inodes o) (synced o) (nextInode o) m (nextFd o) (faults o).

Definition os_error : gerr := Sentinel OSError.
Definition contentOf (o : FS) (i : nat) : bytes := default [] (inodes o !! i).

Definition pop_fault : stM lobFileStore (option nat) := fun s =>
  match faults (fs s) with
  | [] => (s, Ret None)
  | f :: l => (set_fs (with_faults l) s, Ret f)
  end.

(** A call that fails without effect or runs [m]. *)
Definition os_call {A} (m : stM lobFileStore A) : stM lobFileStore A :=
  f ← pop_fault;
  match f with Some _ => failS os_error | None => m end.

(** A new descriptor for an inode. *)
Definition newFd (i : nat) : stM lobFileStore Z := fun s =>
  (set_fs (fun o => mkFS (files o) (tmps o) (inodes o) (synced o) (nextInode o) (<[nextFd o := i]> (fds o)) (nextFd o + 1) (faults o)) s,
   Ret (nextFd (fs s))).

(** [os.OpenFile] with O_WRONLY|O_CREATE|O_TRUNC of a temporary name. *)
Definition OpenTmp (id : Z) : stM lobFileStore Z :=
  os_call (
    s ← getS;
    match tmps (fs s) !! id with
    | Some i =>
        _ ← modifyS (set_fs (fun o => with_synced i 0 (with_content i [] o)));
        newFd i
    | None =>
        let i := nextInode (fs s) in
        _ ← modifyS (set_fs (fun o => mkFS (files o) (<[id := i]> (tmps o)) (<[i := []]> (inodes o)) (<[i := 0]> (synced o))
                                        (S i) (fds o) (nextFd o) (faults o)));
        newFd i
    end).

(** The inode of an open descriptor; an error when it is closed. *)
Definition inodeOf (f : Z) : stM lobFileStore nat := fun s =>
  match fds (fs s) !! f with Some i => (s, Ret i) | None => (s, Fail os_error) end.

(** [f.Write]: the file was empty when opened, so this appends; a failing call
    may leave a prefix. *)
Definition FileWrite (f : Z) (data : bytes) : stM lobFileStore unit :=
  i ← inodeOf f;
  e ← pop_fault;
  let append d := modifyS (set_fs (fun o => with_content i (contentOf o i ++ d) o)) in
  match e with
  | Some n => _ ← append (take n data); failS os_error
  | None => append data
  end.

Definition FileSync (f : Z) : stM lobFileStore unit :=
  i ← inodeOf f;
  os_call (modifyS (set_fs (fun o => with_synced i (zlen (contentOf o i)) o))).

(** [f.Close()]; its error is never looked at. *)
Definition FileClose (f : Z) : stM lobFileStore unit :=
  modifyS (set_fs (fun o => with_fds (delete f (fds o)) o)).

(** [f.ReadAt] of [n] bytes; fewer are an error (io.EOF). *)
Definition ReadAt (f n off : Z) : stM lobFileStore bytes :=
  i ← inodeOf f;
  os_call (
    s ← getS;
    let c := contentOf (fs s) i in
    if off + n <=? zlen c then mret (ztake n (zdrop off c)) else failS os_error).

Definition RemoveTmp (id : Z) : stM lobFileStore unit :=
  os_call (modifyS (set_fs (fun o => with_dirs (files o) (delete id (tmps o)) o))).

(** The error of a missing file is ignored by the only caller. *)
Definition RemoveFinal (id : Z) : stM lobFileStore unit :=
  os_call (modifyS (set_fs (fun o => with_dirs (delete id (files o)) (tmps o) o))).

Definition Rename (id : Z) : stM lobFileStore unit :=
  os_call (
    s ← getS;
    match tmps (fs s) !! id with
    | Some i => modifyS (set_fs (fun o => with_dirs (<[id := i]> (files o)) (delete id (tmps o)) o))
    | None => failS os_error
    end).

(** [os.Open]; [None]: no such file. *)
Definition OpenFinal (id : Z) : stM lobFileStore (option Z) :=
  os_call (
    s ← getS;
    match files (fs s) !! id with
    | Some i => f ← newFd i; mret (Some f)
    | None => mret None
    end).

Definition ReadDirTmps : stM lobFileStore (list Z) :=
  os_call (s ← getS; mret (map fst (map_to_list (tmps (fs s))))).

Definition ignoreErr {A} (m : stM lobFileStore A) : stM lobFileStore unit := fun s =>
  match m s with
  | (s, Ret _) => (s, Ret tt)
  | (s, Fail _) => (s, Ret tt)
  | (s, Panic) => (s, Panic)
  end.

(** ** The cache in the store *)

Fixpoint closeFiles (l : list Z) : stM lobFileStore unit :=
  match l with [] => mret tt | f :: l => _ ← FileClose f; closeFiles l end.

Definition cacheGet (id : Z) : stM lobFileStore (option Z) := fun s =>
  let '(c, r) := Fd.get id (fdCache s) in (with_cache c s, Ret r).
Definition onCache (g : Fd.lobFDCache -> Fd.lobFDCache * list Z) : stM lobFileStore unit := fun s =>
  let '(c, l) := g (fdCache s) in closeFiles l (with_cache c s).
Definition cacheRelease (id : Z) := onCache (Fd.release id).
Definition cacheAdd (id f : Z) := onCache (Fd.add id f).
Definition cacheRemove (id : Z) := onCache (Fd.remove id).

(** ** The store *)

Definition lobFileHeaderSize : Z := 40.
Definition lobMagic : bytes := [78; 88; 76; 66].
Definition lobVersion1 : Z := 1.
Definition lobFlagDeleted : Z := 1.

Definition errorfAs (details : string) (err : gerr) : gerr := Wrap err details.
Definition errorf (details : string) : gerr := NexError PlainError details.

(** [rand]: the random number, if reading it succeeds.  The directory is made. *)
Definition newLOBFileStore (o : FS) (c : Config) (rand : option Z) : lobFileStore * outcome unit :=
  let n := match rand with Some r => Z.lor (Z.shiftl r 32) 1 | None => 0 end in
  onErr (os_call (mret tt)) (errorfAs "lob: create root dir") (mkStore o c n (Fd.newLobFDCache (FDCacheCapacity c))).

Definition Close : stM lobFileStore unit := onCache Fd.closeAll.

(** [fsync.Sync]: nothing when disabled, else the file is synced, directly or by
    the loop. *)
Definition fsyncSync (f : Z) : stM lobFileStore unit :=
  s ← getS; if FsyncEnabled (cfg s) then FileSync f else mret tt.

Definition lobHeader (lobID len : Z) : outcome bytes :=
  h ← write_at (zeros lobFileHeaderSize) 0 lobMagic;
  h ← write_at h 4 (be_enc 2 lobVersion1);
  h ← write_at h 8 (be_enc 8 lobID);
  write_at h 16 (be_enc 8 len).

(** On an error: close, remove the temporary file, wrap. *)
Definition orAbort (f id : Z) (details : string) (m : stM lobFileStore unit) : stM lobFileStore unit := fun s =>
  match m s with
  | (s, Fail e) => (_ ← FileClose f; _ ← ignoreErr (RemoveTmp id); failS (errorfAs details e)) s
  | r => r
  end.

Definition renameOrRemove (id : Z) : stM lobFileStore unit := fun s =>
  match Rename id s with
  | (s, Fail e) => (_ ← ignoreErr (RemoveTmp id); failS (errorfAs "lob: rename" e)) s
  | r => r
  end.

Definition Create (data : bytes) : stM lobFileStore LOBFileRef :=
  s ← getS;
  let lobID := u64 (nextLOBID s + 1) in
  _ ← modifyS (with_nextLOBID lobID);
  f ← onErr (OpenTmp lobID) (errorfAs "lob: create tmp");
  header ← liftS (lobHeader lobID (u64 (zlen data)));
  _ ← orAbort f lobID "lob: write header" (FileWrite f header);
  _ ← orAbort f lobID "lob: write data" (FileWrite f data);
  _ ← orAbort f lobID "lob: fsync tmp" (fsyncSync f);
  _ ← FileClose f;
  _ ← renameOrRemove lobID;
  mret (mkLOBFileRef lobID (u64 (zlen data))).

(** os.Getpagesize(), taken to be 4096. *)
Definition pageSize : Z := 4096.
Definition mmapLenOf (n : Z) : Z := if n mod pageSize =? 0 then n else n + (pageSize - n mod pageSize).

(** The mapping falls back to ReadAt when it cannot be made; touching a page
    wholly behind the end of the file is a fault of the process, the rest of the
    last page reads as 0. *)
Definition mmapRead (f offset length : Z) : stM lobFileStore bytes :=
  let mmapLen := mmapLenOf (i64 (offset + length)) in
  s ← getS;
  e ← pop_fault;
  match e, fds (fs s) !! f with
  | None, Some i =>
      if 0 <? mmapLen then
        let c := contentOf (fs s) i in
        if mmapLenOf (zlen c) <? offset + length then liftS Panic
        else mret (ztake length (zdrop offset (c ++ zeros (mmapLenOf (zlen c) - zlen c))))
      else if length <? 0 then liftS Panic else ReadAt f length offset
  | _, _ => if length <? 0 then liftS Panic else ReadAt f length offset
  end.

(** The reader gives its descriptor back: to the cache, or to the system. *)
Definition dropFile (cached : bool) (id f : Z) : stM lobFileStore unit :=
  if cached then cacheRelease id else FileClose f.
Definition orDrop {A} (cached : bool) (id f : Z) (h : gerr -> gerr) (m : stM lobFileStore A) : stM lobFileStore A := fun s =>
  match m s with
  | (s, Fail e) => (_ ← dropFile cached id f; failS (h e)) s
  | r => r
  end.

(** From the open descriptor on. *)
Definition readFile (cached : bool) (ref : LOBFileRef) (f : Z) : stM lobFileStore bytes :=
  let id := LOBID ref in
  let drop e := orDrop (A := bytes) cached id f (fun _ => e) (failS e) in
  header ← orDrop cached id f (errorfAs "lob: read header") (ReadAt f lobFileHeaderSize 0);
  magic ← liftS (slice header 0 4);
  if negb (bool_decide (magic = lobMagic)) then drop (errorf "lob: bad magic") else
  storedID ← liftS (be_at 8 header 8);
  if negb (storedID =? id) then drop (errorf "lob: LOBID mismatch") else
  flags ← liftS (be_at 2 header 6);
  if negb (Z.land flags lobFlagDeleted =? 0) then drop (errorf "lob: deleted (tombstone)") else
  dataLen ← liftS (be_at 8 header 16);
  if dataLen =? 0 then
    _ ← (if (cached : bool) then cacheRelease id else mret tt);
    mret []
  else
    s ← getS;
    data ← orDrop cached id f (errorfAs "lob: read data")
             (if u64 (FileMMapThreshold (cfg s)) <? dataLen then mmapRead f lobFileHeaderSize (i64 dataLen)
              else ReadAt f dataLen lobFileHeaderSize);
    _ ← (if (cached : bool) then cacheRelease id else cacheAdd id f);
    mret data.

Definition Read (ref : LOBFileRef) : stM lobFileStore bytes :=
  c ← cacheGet (LOBID ref);
  match c with
  | Some f => readFile true ref f
  | None =>
      o ← onErr (OpenFinal (LOBID ref)) (errorfAs "lob: open");
      match o with
      | Some f => readFile false ref f
      | None => failS (errorf "lob: file not found")
      end
  end.

Definition Delete (ref : LOBFileRef) : stM lobFileStore unit :=
  _ ← cacheRemove (LOBID ref);
  onErr (RemoveFinal (LOBID ref)) (errorfAs "lob: unlink").

Fixpoint removeTmps (l : list Z) : stM lobFileStore unit :=
  match l with [] => mret tt | id :: l => _ ← ignoreErr (RemoveTmp id); removeTmps l end.
Definition CleanupTmp : stM lobFileStore unit :=
  names ← ReadDirTmps; removeTmps names.

(** ** Reasoning about calls *)

(** No I/O errors lie ahead. *)
Definition clean (s : lobFileStore) : Prop := faults (fs s) = [].

(** Only the oracle differs; with no faults ahead it stays so. *)
Definition popped (s s' : lobFileStore) : Prop := exists l, s' = set_fs (with_faults l) s /\ (clean s -> clean s').

Lemma popped_refl s : popped s s.
Proof. exists (faults (fs s)). split; [|done]. by destruct s as [[]]. Qed.

Lemma lob_wp_pop s (Q : option nat -> lobFileStore -> Prop) E :
  (forall e s', popped s s' -> (e <> None -> ~ clean s) -> Q e s') -> wp pop_fault s Q E.
Proof.
  intros H. unfold wp, pop_fault. destruct (faults (fs s)) as [|e l] eqn:Ef.
  - apply H; [apply popped_refl|done].
  - apply H.
    + exists l. split; [done|]. unfold clean. by rewrite Ef.
    + intros _. unfold clean. by rewrite Ef.
Qed.

Lemma lob_wp_os_call {A} (m : stM lobFileStore A) s Q E :
  (forall s', popped s s' -> wp m s' Q E) -> (forall s', popped s s' -> ~ clean s -> E s') -> wp (os_call m) s Q E.
Proof.
  intros HQ HE. unfold os_call. apply wp_bind. apply lob_wp_pop. intros [e|] s' Hp He; [|by apply HQ].
  unfold wp, failS. apply HE; [done|]. by apply He.
Qed.

(** ** The invariant of the store *)

(** What a LOB file holds. *)
Definition headerOf (id n : Z) : bytes :=
  lobMagic ++ be_enc 2 lobVersion1 ++ be_enc 2 0 ++ be_enc 8 id ++ be_enc 8 n ++ zeros 16.
Definition lobBytes (id : Z) (d : bytes) : bytes := headerOf id (zlen d) ++ d.

Lemma lobHeader_eq id n : lobHeader id n = Ret (headerOf id n).
Proof.
  unfold lobHeader, headerOf, lobFileHeaderSize. rewrite write_at_zero by (vm_compute; discriminate). rewrite bind_ret.
  change (40 - zlen lobMagic) with 36. rewrite write_at_fill by (done || rewrite zlen_be_enc; lia). rewrite bind_ret, zlen_be_enc.
  change (zeros (36 - Z.of_nat 2)) with (be_enc 2 0 ++ zeros 32). rewrite app_assoc.
  rewrite write_at_fill by (rewrite ?zlen_app, ?zlen_be_enc; done || lia). rewrite bind_ret, zlen_be_enc.
  rewrite write_at_fill by (rewrite ?zlen_app, ?zlen_be_enc; done || lia). rewrite zlen_be_enc. by rewrite <- !app_assoc.
Qed.

Lemma zlen_header id n : zlen (headerOf id n) = lobFileHeaderSize.
Proof. unfold headerOf. by rewrite !zlen_app, !zlen_be_enc. Qed.

(** The cache and the descriptors; [b]: the file that is being read. *)
Definition cache_ok (b : option Z) (s : lobFileStore) : Prop :=
  exists l u, Fd.rep (fdCache s) l u /\ Fd.lent u = ∅ /\ NoDup ((fun i => i.2.1) <$> Fd.items u) /\
    forall id f r, (id, (f, r)) ∈ Fd.items u ->
      r = (if decide (b = Some id) then 1 else 0) /\ exists i, fds (fs s) !! f = Some i /\ files (fs s) !! id = Some i.

(** The files are those of [m]. *)
Record disk_ok (s : lobFileStore) (m : gmap Z bytes) : Prop := {
  dk_some : forall id d, m !! id = Some d ->
    is_u64 id /\ zlen d < 2 ^ 63 /\ exists i, files (fs s) !! id = Some i /\ inodes (fs s) !! i = Some (lobBytes id d);
  dk_none : forall id, m !! id = None -> files (fs s) !! id = None;
  dk_fresh : forall id i, files (fs s) !! id = Some i \/ tmps (fs s) !! id = Some i -> (i < nextInode (fs s))%nat;
  dk_sep : forall id j i, files (fs s) !! id = Some i -> tmps (fs s) !! j = Some i -> False;
  dk_fds : forall f i, fds (fs s) !! f = Some i -> f < nextFd (fs s);
  dk_synced : FsyncEnabled (cfg s) = true -> forall id i, files (fs s) !! id = Some i ->
    exists n, synced (fs s) !! i = Some n /\ zlen (contentOf (fs s) i) <= n;
  dk_inj : forall j k i, tmps (fs s) !! j = Some i -> tmps (fs s) !! k = Some i -> j = k }.

Record store_ok (b : option Z) (s : lobFileStore) (m : gmap Z bytes) : Prop := {
  so_cache : cache_ok b s;
  so_disk : disk_ok s m;
  so_mmap : 0 <= FileMMapThreshold (cfg s) < 2 ^ 63 }.

Lemma lob_popped_ok b s s' m : popped s s' -> store_ok b s m -> store_ok b s' m.
Proof. intros (l & -> & _) [(l0 & u & H) [] ?]. constructor; [by exists l0, u| |done]. by constructor. Qed.
Lemma popped_clean s s' : popped s s' -> clean s -> clean s'.
Proof. by intros (l & _ & H). Qed.
Lemma popped_cfg s s' : popped s s' -> cfg s' = cfg s /\ nextLOBID s' = nextLOBID s /\ fdCache s' = fdCache s.
Proof. by intros (l & -> & _). Qed.
Lemma popped_fs s s' : popped s s' -> files (fs s') = files (fs s) /\ tmps (fs s') = tmps (fs s) /\ inodes (fs s') = inodes (fs s) /\
  fds (fs s') = fds (fs s) /\ nextFd (fs s') = nextFd (fs s) /\ nextInode (fs s') = nextInode (fs s) /\ synced (fs s') = synced (fs s).
Proof. by intros (l & -> & _). Qed.

(** *** Cache operations *)

Lemma closeFiles_eq l s : closeFiles l s = (set_fs (fun o => with_fds (foldl (fun m f => delete f m) (fds o) l) o) s, Ret tt).
Proof.
  revert s. induction l as [|f l IH]; intros s; [by destruct s as [[]]|]. cbn [closeFiles foldl].
  unfold FileClose. rewrite stM_bind_modify, IH. done.
Qed.

Lemma onCache_eq g s c l : g (fdCache s) = (c, l) ->
  onCache g s = (set_fs (fun o => with_fds (foldl (fun m f => delete f m) (fds o) l) o) (with_cache c s), Ret tt).
Proof. intros E. unfold onCache. rewrite E. apply closeFiles_eq. Qed.

(** Disk state and descriptors apart, an operation on the cache changes nothing. *)
Definition same_disk (s s' : lobFileStore) : Prop :=
  files (fs s') = files (fs s) /\ tmps (fs s') = tmps (fs s) /\ inodes (fs s') = inodes (fs s) /\ synced (fs s') = synced (fs s) /\
  nextInode (fs s') = nextInode (fs s) /\ nextFd (fs s') = nextFd (fs s) /\ faults (fs s') = faults (fs s) /\
  cfg s' = cfg s /\ nextLOBID s' = nextLOBID s /\ (forall f i, fds (fs s') !! f = Some i -> fds (fs s) !! f = Some i).

Lemma foldl_delete_sub l (m : gmap Z nat) f i : foldl (fun m f => delete f m) m l !! f = Some i -> m !! f = Some i.
Proof.
  revert m. induction l as [|g l IH]; intros m; [done|]. cbn [foldl]. intros [_ H]%IH%lookup_delete_Some. done.
Qed.
Lemma foldl_delete_ne l (m : gmap Z nat) f : f ∉ l -> foldl (fun m f => delete f m) m l !! f = m !! f.
Proof.
  revert m. induction l as [|g l IH]; intros m; [done|]. cbn [foldl]. rewrite not_elem_of_cons. intros [Hg Hl].
  rewrite IH by done. by rewrite lookup_delete_ne.
Qed.

Lemma same_disk_ok s s' m : same_disk s s' -> disk_ok s m -> disk_ok s' m.
Proof.
  intros (H1 & H2 & H3 & H4 & H5 & H6 & _ & H8 & _ & H7) [D1 D2 D3 D4 D5 D6 D7].
  constructor; unfold contentOf; rewrite ?H1, ?H2, ?H3, ?H4, ?H5, ?H6, ?H8; try done. intros f i Hf. by apply (D5 f i), H7.
Qed.
Lemma onCache_same g s c l : g (fdCache s) = (c, l) -> same_disk s (onCache g s).1.
Proof. intros E. rewrite (onCache_eq _ _ _ _ E). split_and!; try done. intros f i. apply foldl_delete_sub. Qed.

Lemma cache_ok_ext b s s' : fdCache s' = fdCache s -> files (fs s') = files (fs s) -> fds (fs s') = fds (fs s) ->
  cache_ok b s -> cache_ok b s'.
Proof. intros H1 H2 H3 (l & u & H). exists l, u. by rewrite H1, H2, H3. Qed.

Lemma cacheGet_hit s id c f : cache_ok None s -> Fd.get id (fdCache s) = (c, Some f) ->
  cache_ok (Some id) (with_cache c s) /\ exists i, fds (fs s) !! f = Some i /\ files (fs s) !! id = Some i.
Proof.
  intros (l & u & H & Hl & Hn & Hi) E. destruct (Fd.get_ok _ _ _ id H) as (c' & l' & E' & H'). rewrite E' in E. injection E as -> Ef.
  pose proof (Fd.rep_nodup _ _ _ H) as Hnd. unfold Fd.lru_get in *. destruct (Fd.assoc id (Fd.items u)) as [[g r]|] eqn:Ea; [|done].
  cbn [fst snd] in *. injection Ef as ->. pose proof (Fd.assoc_perm _ _ _ Hnd Ea) as Hp.
  assert (Hin : (id, (f, r)) ∈ Fd.items u) by (rewrite Hp; apply list_elem_of_here).
  split; [|by apply Hi in Hin as [_ Hin]].
  exists l'. eexists. split; [exact H'|]. cbn [Fd.lent Fd.items]. split; [done|]. split.
  - rewrite Hp, fmap_cons in Hn. by rewrite fmap_cons.
  - intros j h q [[= -> -> ->]|Hj]%elem_of_cons.
    + rewrite decide_True by done. apply Hi in Hin as [-> Hx]. by rewrite decide_False.
    + assert (Hj' : (j, (h, q)) ∈ Fd.items u) by (rewrite Hp; by apply list_elem_of_further).
      apply Hi in Hj' as [-> Hx]. split; [|done]. rewrite !decide_False; [done| |done]. intros [= ->].
      rewrite Hp, fmap_cons in Hnd. apply NoDup_cons in Hnd as [Hnd _]. apply Hnd.
      apply list_elem_of_fmap. by exists (j, (h, 0)).
Qed.

Lemma cacheGet_miss s id c : cache_ok None s -> Fd.get id (fdCache s) = (c, None) -> cache_ok None (with_cache c s).
Proof.
  intros (l & u & H & Hl & Hn & Hi) E. destruct (Fd.get_ok _ _ _ id H) as (c' & l' & E' & H'). rewrite E' in E. injection E as -> Ef.
  unfold Fd.lru_get in *. destruct (Fd.assoc id (Fd.items u)) as [[g r]|] eqn:Ea; [done|]. by exists l', u.
Qed.

Lemma elem_set_item id v its j w : (j, w) ∈ Fd.set_item id v its -> j <> id -> (j, w) ∈ its.
Proof.
  unfold Fd.set_item. intros ([k x] & E & Hi)%list_elem_of_fmap Hj. cbn in E. destruct (decide (k = id)); congruence.
Qed.

Lemma cacheRelease_ok s id : cache_ok (Some id) s ->
  exists s', cacheRelease id s = (s', Ret tt) /\ cache_ok None s' /\ same_disk s s'.
Proof.
  intros (l & u & H & Hl & Hn & Hi). destruct (Fd.release_ok _ _ _ id H) as (c' & E' & H').
  unfold cacheRelease. rewrite (onCache_eq _ _ _ _ E'). eexists. split; [done|].
  pose proof (onCache_same (Fd.release id) s _ _ E') as Hs. rewrite (onCache_eq _ _ _ _ E') in Hs. split; [|exact Hs].
  pose proof (Fd.rep_nodup _ _ _ H) as Hnd. unfold Fd.lru_release in *.
  destruct (Fd.assoc id (Fd.items u)) as [[g r]|] eqn:Ea.
  - cbn [fst snd] in *. exists l. eexists. split; [exact H'|]. cbn [Fd.items Fd.lent]. split; [done|].
    apply Fd.assoc_split in Ea as (i1 & i2 & Eu). rewrite Eu in Hn, Hnd, Hi |- *.
    rewrite Fd.set_item_mid by done. split; [by rewrite !fmap_app in *|].
    intros j h q. rewrite elem_of_app, elem_of_cons.
    assert (Hx : (id, (g, r)) ∈ i1 ++ (id, (g, r)) :: i2) by set_solver.
    assert (Hmid : forall j v, (j, v) ∈ i1 ++ i2 -> j <> id).
    { intros k v Hk ->. rewrite fmap_app, fmap_cons in Hnd. apply NoDup_app in Hnd as (_ & Hd & [Hi2 _]%NoDup_cons).
      apply elem_of_app in Hk as [Hk|Hk]; apply (list_elem_of_fmap_2 fst) in Hk; [|done].
      apply (Hd _ Hk). apply list_elem_of_here. }
    intros Hj. assert ((j, (h, q)) = (id, (g, r - 1)) \/ (j, (h, q)) ∈ i1 ++ i2) as [[= -> -> ->]|Hj'] by (rewrite elem_of_app; naive_solver).
    + apply Hi in Hx as [-> Hx]. rewrite decide_True by done. split; [done|]. exact Hx.
    + pose proof (Hmid _ _ Hj') as Hne. assert (Hj2 : (j, (h, q)) ∈ i1 ++ (id, (g, r)) :: i2) by set_solver.
      apply Hi in Hj2 as [-> Hx2]. rewrite decide_False by congruence. split; [done|]. exact Hx2.
  - rewrite Hl in *. rewrite lookup_empty in *. cbn [fst snd foldl] in *. exists l, u. split; [done|]. split; [done|]. split; [done|].
    intros j h q Hj. pose proof (Hi _ _ _ Hj) as [-> Hx]. split; [|exact Hx]. rewrite decide_False; [done|]. intros [= ->].
    apply Fd.assoc_None in Ea. apply Ea. apply list_elem_of_fmap. by exists (j, (h, if decide (Some j = Some j) then 1 else 0)).
Qed.

(** An entry without readers leaves the list and its descriptor is closed. *)
Lemma cache_retire s c l i its u :
  Fd.rep c l (Fd.lru_retire i its (Fd.lent u)).1 -> Fd.lent u = ∅ -> i.2.2 = 0 ->
  NoDup (i.2.1 :: ((fun i : Z * (Z * Z) => i.2.1) <$> its)) ->
  (forall id f r, (id, (f, r)) ∈ its -> r = 0 /\ exists i, fds (fs s) !! f = Some i /\ files (fs s) !! id = Some i) ->
  cache_ok None (set_fs (fun o => with_fds (foldl (fun m f => delete f m) (fds o) (Fd.lru_retire i its (Fd.lent u)).2) o) (with_cache c s)).
Proof.
  intros H Hl Hi [Hf Hn]%NoDup_cons Hits. unfold Fd.lru_retire in *. rewrite Hi in *. cbn [Z.ltb Z.compare fst snd foldl] in *.
  exists l. eexists. split; [exact H|]. cbn [Fd.lent Fd.items]. split; [done|]. split; [done|].
  intros id f r Hin. destruct (Hits _ _ _ Hin) as (-> & j & Hj & Hj2). split; [done|]. exists j. split; [|done].
  cbn [fds with_fds set_fs fs with_cache]. rewrite lookup_delete_ne; [done|]. intros E.
  apply Hf. rewrite E. apply list_elem_of_fmap. by exists (id, (f, 0)).
Qed.

Lemma cacheAdd_ok s id f i : cache_ok None s -> fds (fs s) !! f = Some i -> files (fs s) !! id = Some i ->
  (forall l u, Fd.rep (fdCache s) l u -> f ∉ ((fun i => i.2.1) <$> Fd.items u)) ->
  exists s', cacheAdd id f s = (s', Ret tt) /\ cache_ok None s' /\ same_disk s s'.
Proof.
  intros (l & u & H & Hl & Hn & Hi) Hf Hfile Hnew. specialize (Hnew l u H).
  destruct (Fd.add_ok _ _ _ id f H) as (c' & l' & E' & H').
  unfold cacheAdd. rewrite (onCache_eq _ _ _ _ E'). eexists. split; [done|].
  pose proof (onCache_same (Fd.add id f) s _ _ E') as Hs. rewrite (onCache_eq _ _ _ _ E') in Hs. split; [|exact Hs].
  pose proof (Fd.rep_nodup _ _ _ H) as Hnd.
  assert (Hi0 : forall j g r, (j, (g, r)) ∈ Fd.items u -> r = 0 /\ exists i, fds (fs s) !! g = Some i /\ files (fs s) !! j = Some i).
  { intros j g r Hj. destruct (Hi _ _ _ Hj) as [-> Hx]. by rewrite decide_False. }
  unfold Fd.lru_add in *. destruct (Fd.assoc id (Fd.items u)) as [[g r]|] eqn:Ea.
  - cbn [fst snd foldl] in *. pose proof (Fd.assoc_perm _ _ _ Hnd Ea) as Hp. exists l'. eexists. split; [exact H'|].
    cbn [Fd.items Fd.lent]. split; [done|]. rewrite Hp, fmap_cons in Hn, Hnew. apply NoDup_cons in Hn as [_ Hn].
    apply not_elem_of_cons in Hnew as [_ Hnew]. split; [rewrite fmap_cons; by apply NoDup_cons|].
    intros j h q [[= -> -> ->]|Hj]%elem_of_cons.
    + destruct (Hi0 id g r) as [-> _]; [rewrite Hp; apply list_elem_of_here|]. rewrite decide_False by done. split; [done|]. by exists i.
    + destruct (Hi0 j h q) as [-> Hx]; [rewrite Hp; by apply list_elem_of_further|]. by rewrite decide_False.
  - cbv zeta in *. destruct (_ <? _).
    + destruct (last ((id, (f, 0)) :: Fd.items u)) as [k|] eqn:El; [|by apply last_None in El].
      apply last_Some in El as [its El]. rewrite El in H' |- *. rewrite length_app in H' |- *. cbn [length] in H' |- *.
      replace (length its + 1 - 1)%nat with (length its) in H' |- * by lia. rewrite take_app_length in H' |- *.
      assert (Hall : forall j h q, (j, (h, q)) ∈ its ++ [k] -> q = 0 /\ exists i, fds (fs s) !! h = Some i /\ files (fs s) !! j = Some i).
      { intros j h q. rewrite <- El. intros [[= -> -> ->]|Hj]%elem_of_cons; [|by apply Hi0]. split; [done|]. by exists i. }
      eapply cache_retire; [exact H'|done| | |].
      * destruct k as [j [h q]]. cbn. apply (Hall j h q). set_solver.
      * assert (Hnn : NoDup ((fun i : Z * (Z * Z) => i.2.1) <$> (its ++ [k]))).
        { rewrite <- El, fmap_cons. by apply NoDup_cons. }
        rewrite fmap_app in Hnn. cbn [fmap list_fmap] in Hnn. rewrite Permutation_app_comm in Hnn. exact Hnn.
      * intros j h q Hj. apply Hall. set_solver.
    + cbn [fst snd foldl] in *. exists l'. eexists. split; [exact H'|]. cbn [Fd.items Fd.lent]. split; [done|].
      split; [rewrite fmap_cons; by apply NoDup_cons|]. intros j h q [[= -> -> ->]|Hj]%elem_of_cons.
      * rewrite decide_False by done. split; [done|]. by exists i.
      * destruct (Hi0 _ _ _ Hj) as [-> Hx]. by rewrite decide_False.
Qed.

Lemma fresh_fd b s : cache_ok b s -> (forall f i, fds (fs s) !! f = Some i -> f < nextFd (fs s)) ->
  forall l u, Fd.rep (fdCache s) l u -> nextFd (fs s) ∉ ((fun i => i.2.1) <$> Fd.items u).
Proof.
  intros (l0 & u0 & H0 & Hl & Hn & Hi) Hf l u H (x & E & Hx)%list_elem_of_fmap.
  assert (Hu : Fd.items u = Fd.items u0).
  { pose proof (Fd.rep_dll _ _ _ H) as D1. pose proof (Fd.rep_dll _ _ _ H0) as D2. assert (l = l0) as -> by by apply (Fd.dll_unique (fdCache s)).
    apply (Fd.rep_items_unique (fdCache s) l0); [apply (Fd.rep_items _ _ _ H)|apply (Fd.rep_items _ _ _ H0)]. }
  rewrite Hu in Hx. destruct x as [id [f r]]. apply Hi in Hx as (_ & i & Hx & _). cbn in E. subst f. apply Hf in Hx. lia.
Qed.

(** What all operations keep. *)
Definition keeps (s s' : lobFileStore) : Prop :=
  (clean s -> clean s') /\ cfg s' = cfg s /\ nextLOBID s' = nextLOBID s.
#[export] Instance keeps_preorder : PreOrder keeps.
Proof.
  split; [by intros s|]. intros s1 s2 s3 (H1 & H2 & H3) (K1 & K2 & K3). split; [auto|]. split; congruence.
Qed.
Lemma popped_keeps s s' : popped s s' -> keeps s s'.
Proof. intros H. split; [by apply popped_clean|]. by destruct (popped_cfg _ _ H) as (-> & -> & _). Qed.
Lemma same_disk_keeps s s' : same_disk s s' -> keeps s s'.
Proof. intros (_ & _ & _ & _ & _ & _ & H1 & H2 & H3 & _). split; [|done]. unfold clean. by rewrite H1. Qed.

(** An error: the store is as it was, and the disk is to blame. *)
Definition failed (s : lobFileStore) (m : gmap Z bytes) (s' : lobFileStore) : Prop :=
  store_ok None s' m /\ keeps s s' /\ ~ clean s.

Lemma failed_trans s s1 s2 m : keeps s s1 -> failed s1 m s2 -> failed s m s2.
Proof. intros Hk (H1 & H2 & H3). split; [done|]. split; [by etrans|]. intros Hc. by apply H3, Hk. Qed.

(** Descriptor [f] writes the temporary file of [id], with [c] in it so far. *)
Record writing (s : lobFileStore) (m : gmap Z bytes) (id f : Z) (i : nat) (c : bytes) : Prop := {
  w_ok : store_ok None s m;
  w_fd : fds (fs s) !! f = Some i;
  w_tmp : tmps (fs s) !! id = Some i;
  w_inode : inodes (fs s) !! i = Some c;
  w_free : forall l u, Fd.rep (fdCache s) l u -> f ∉ ((fun i => i.2.1) <$> Fd.items u) }.

Lemma writing_popped s s' m id f i c : popped s s' -> writing s m id f i c -> writing s' m id f i c.
Proof.
  intros Hp [H1 H2 H3 H4 H5]. destruct (popped_fs _ _ Hp) as (_ & E2 & E3 & E4 & _). destruct (popped_cfg _ _ Hp) as (_ & _ & E5).
  constructor; rewrite ?E2, ?E3, ?E4, ?E5; try done. by eapply lob_popped_ok.
Qed.

(** The inode of a temporary file is no file's. *)
Lemma tmp_not_file s m id j i k : disk_ok s m -> tmps (fs s) !! id = Some i -> files (fs s) !! j = Some k -> k <> i.
Proof. intros H Ht Hf ->. by eapply (dk_sep _ _ H). Qed.

(** Changes to the content of an inode that belongs to no file. *)
Lemma store_ok_inode s m i g : store_ok None s m -> (forall id k, files (fs s) !! id = Some k -> k <> i) ->
  (forall o, files (g o) = files o /\ tmps (g o) = tmps o /\ nextInode (g o) = nextInode o /\ fds (g o) = fds o /\ nextFd (g o) = nextFd o /\
     (forall k, k <> i -> inodes (g o) !! k = inodes o !! k /\ synced (g o) !! k = synced o !! k)) ->
  store_ok None (set_fs g s) m.
Proof.
  intros [Hc [D1 D2 D3 D4 D5 D6 D7] Hm] Hi Hg. destruct (Hg (fs s)) as (G1 & G2 & G3 & G4 & G5 & G6).
  constructor; [|constructor; cbn [fs cfg set_fs]; rewrite ?G1, ?G2, ?G3, ?G4, ?G5; try done|done].
  - apply (cache_ok_ext _ s); [done|exact G1|exact G4|done].
  - intros id d Hd. destruct (D1 _ _ Hd) as (K1 & K2 & k & K3 & K4). split; [done|]. split; [done|]. exists k. split; [done|].
    by destruct (G6 k) as [-> _]; [by eapply Hi|].
  - intros He id k Hk. destruct (D6 He _ _ Hk) as (n & K1 & K2). unfold contentOf in *. destruct (G6 k) as [-> ->]; [by eapply Hi|]. by exists n.
Qed.

Lemma OpenTmp_ok s m id : store_ok None s m ->
  wp (OpenTmp id) s (fun f s' => (exists i, writing s' m id f i []) /\ keeps s s' /\ files (fs s') = files (fs s)) (failed s m).
Proof.
  intros H. unfold OpenTmp. apply lob_wp_os_call.
  2: { intros s' Hp Hc. split; [by eapply lob_popped_ok|]. split; [by apply popped_keeps|done]. }
  intros s1 Hp. pose proof (lob_popped_ok _ _ _ _ Hp H) as H1. pose proof (popped_keeps _ _ Hp) as Hk.
  destruct (popped_fs _ _ Hp) as (<- & _). apply wp_get. pose proof (so_disk _ _ _ H1) as Hd.
  assert (Hnew : forall s2 i, store_ok None s2 m -> tmps (fs s2) !! id = Some i -> inodes (fs s2) !! i = Some [] ->
     keeps s1 s2 -> files (fs s2) = files (fs s1) ->
     wp (newFd i) s2 (fun f s' => (exists i, writing s' m id f i []) /\ keeps s s' /\ files (fs s') = files (fs s1)) (failed s m)).
  { intros s2 i H2 Ht Hi Hk2 Hf2. unfold wp, newFd. pose proof (fresh_fd None s2 (so_cache _ _ _ H2) (dk_fds _ _ (so_disk _ _ _ H2))) as Hfr.
    split; [|split; [by etrans|done]]. exists i. constructor; cbn [fs set_fs fds tmps inodes fdCache]; try done; [|by rewrite lookup_insert_eq].
    destruct H2 as [(l & u & Hr & Hl & Hn & Hits) [D1 D2 D3 D4 D5 D6 D7] Hm2]. constructor; [|constructor; cbn; try done|done].
    - exists l, u. split; [done|]. split; [done|]. split; [done|]. intros j g r Hj. destruct (Hits _ _ _ Hj) as (-> & k & Hg & Hfk).
      split; [done|]. exists k. split; [|done]. cbn [fs set_fs fds]. rewrite lookup_insert_ne; [done|]. apply D5 in Hg. lia.
    - intros g k. destruct (decide (g = nextFd (fs s2))) as [->|]; [intros _; lia|]. rewrite lookup_insert_ne by done. intros Hg%D5. lia. }
  destruct (tmps (fs s1) !! id) as [i|] eqn:Et.
  - apply wp_bind, wp_modify. apply Hnew; [|done| |done|done].
    + apply (store_ok_inode _ _ i); [done|by intros j k; eapply tmp_not_file|]. intros o. cbn. split_and!; try done.
      intros k Hk'. by rewrite !lookup_insert_ne.
    + cbn. by rewrite lookup_insert_eq.
  - apply wp_bind, wp_modify. apply Hnew; [|cbn; by rewrite lookup_insert_eq|cbn; by rewrite lookup_insert_eq|done|done].
    destruct H1 as [Hc [D1 D2 D3 D4 D5 D6 D7] Hm]. constructor; [by apply (cache_ok_ext _ s1)|constructor; cbn|done].
    + intros j d Hj. destruct (D1 _ _ Hj) as (K1 & K2 & k & K3 & K4). split; [done|]. split; [done|]. exists k. split; [done|].
      rewrite lookup_insert_ne; [done|]. specialize (D3 j k (or_introl K3)). lia.
    + done.
    + intros j k [Hj|Hj]; [specialize (D3 j k (or_introl Hj)); lia|]. destruct (decide (j = id)) as [->|].
      * rewrite lookup_insert_eq in Hj. injection Hj as <-. lia.
      * rewrite lookup_insert_ne in Hj by done. specialize (D3 j k (or_intror Hj)). lia.
    + intros j j' k Hj Hj'. destruct (decide (j' = id)) as [->|].
      * rewrite lookup_insert_eq in Hj'. injection Hj' as <-. specialize (D3 j _ (or_introl Hj)). lia.
      * rewrite lookup_insert_ne in Hj' by done. by eapply D4.
    + done.
    + intros He j k Hj. destruct (D6 He _ _ Hj) as (n & K1 & K2). exists n. specialize (D3 j _ (or_introl Hj)). unfold contentOf in *. cbn.
      rewrite !lookup_insert_ne by lia. done.
    + intros j j' k. destruct (decide (j = id)) as [->|]; destruct (decide (j' = id)) as [->|]; rewrite ?lookup_insert_eq, ?lookup_insert_ne by done; [done| | |apply D7].
      * intros [= <-] Hj'. specialize (D3 j' _ (or_intror Hj')). lia.
      * intros Hj [= <-]. specialize (D3 j _ (or_intror Hj)). lia.
Qed.

Lemma writing_inode s m id f i c g c' : writing s m id f i c ->
  (forall o, files (g o) = files o /\ tmps (g o) = tmps o /\ nextInode (g o) = nextInode o /\ fds (g o) = fds o /\ nextFd (g o) = nextFd o /\
     (forall k, k <> i -> inodes (g o) !! k = inodes o !! k /\ synced (g o) !! k = synced o !! k)) ->
  inodes (g (fs s)) !! i = Some c' -> writing (set_fs g s) m id f i c'.
Proof.
  intros [H1 H2 H3 H4 H5] Hg Hc. pose proof (Hg (fs s)) as (G1 & G2 & G3 & G4 & G5 & G6).
  constructor; cbn [fs set_fs fdCache]; rewrite ?G2, ?G4; try done.
  apply (store_ok_inode _ _ i); [done| |done]. intros j k. by apply (tmp_not_file s m id j i k (so_disk _ _ _ H1)).
Qed.

Definition wfailed (s : lobFileStore) (m : gmap Z bytes) (id f : Z) (i : nat) (s' : lobFileStore) : Prop :=
  (exists c, writing s' m id f i c) /\ keeps s s' /\ ~ clean s.

Lemma inodeOf_ok {B} s m id f i c (k : nat -> stM lobFileStore B) Q E : writing s m id f i c -> wp (k i) s Q E -> wp (inodeOf f ≫= k) s Q E.
Proof. intros H Hk. apply wp_bind. unfold wp at 1, inodeOf. by rewrite (w_fd _ _ _ _ _ _ H). Qed.

Lemma lob_FileWrite_ok s m id f i c d : writing s m id f i c ->
  wp (FileWrite f d) s (fun _ s' => writing s' m id f i (c ++ d) /\ keeps s s' /\ files (fs s') = files (fs s)) (wfailed s m id f i).
Proof.
  intros H. unfold FileWrite. eapply inodeOf_ok; [exact H|]. apply wp_bind, lob_wp_pop. intros e s' Hp He.
  pose proof (writing_popped _ _ _ _ _ _ _ Hp H) as H'. pose proof (popped_keeps _ _ Hp) as Hk. destruct (popped_fs _ _ Hp) as (Hf & _).
  assert (Happ : forall d', writing (set_fs (fun o => with_content i (contentOf o i ++ d') o) s') m id f i (c ++ d')).
  { intros d'. eapply writing_inode; [exact H'| |].
    - intros o. cbn. split_and!; try done. intros k Hk'. by rewrite lookup_insert_ne.
    - cbn. rewrite lookup_insert_eq. unfold contentOf. by rewrite (w_inode _ _ _ _ _ _ H'). }
  destruct e as [n|].
  - apply wp_bind, wp_modify. unfold wp, failS. split; [by exists (c ++ take n d)|]. split; [|by apply He].
    etrans; [exact Hk|]. done.
  - apply wp_modify. split; [done|]. split; [|done]. etrans; [exact Hk|done].
Qed.

Lemma fsyncSync_ok s m id f i c : writing s m id f i c ->
  wp (fsyncSync f) s (fun _ s' => writing s' m id f i c /\ keeps s s' /\ files (fs s') = files (fs s) /\
      (FsyncEnabled (cfg s') = true -> synced (fs s') !! i = Some (zlen c))) (wfailed s m id f i).
Proof.
  intros H. unfold fsyncSync. apply wp_get. destruct (FsyncEnabled (cfg s)) eqn:Ee.
  - unfold FileSync. eapply inodeOf_ok; [exact H|]. apply lob_wp_os_call.
    + intros s' Hp. pose proof (writing_popped _ _ _ _ _ _ _ Hp H) as H'. destruct (popped_fs _ _ Hp) as (Hf & _). apply wp_modify. split; [|split; [|split]].
      * eapply writing_inode; [exact H'| |apply (w_inode _ _ _ _ _ _ H')]. intros o. cbn. split_and!; try done.
        intros k Hk'. by rewrite lookup_insert_ne.
      * etrans; [by apply popped_keeps|done].
      * done.
      * intros _. cbn. rewrite lookup_insert_eq. unfold contentOf. by rewrite (w_inode _ _ _ _ _ _ H').
    + intros s' Hp Hc. split; [exists c; by eapply writing_popped|]. split; [by apply popped_keeps|done].
  - apply wp_ret. split; [done|]. split; [done|]. split; [done|]. by rewrite Ee.
Qed.

Lemma cache_ok_close s f : cache_ok None s -> (forall l u, Fd.rep (fdCache s) l u -> f ∉ ((fun i => i.2.1) <$> Fd.items u)) ->
  cache_ok None (set_fs (fun o => with_fds (delete f (fds o)) o) s).
Proof.
  intros (l & u & H & Hl & Hn & Hi) Hf. exists l, u. split; [done|]. split; [done|]. split; [done|].
  intros id g r Hg. destruct (Hi _ _ _ Hg) as (-> & i & Hx & Hy). split; [done|]. exists i. split; [|done].
  cbn. rewrite lookup_delete_ne; [done|]. intros ->. apply (Hf l u H). apply list_elem_of_fmap. by exists (id, (g, if decide (None = Some id) then 1 else 0)).
Qed.

Lemma writing_close s m id f i c : writing s m id f i c ->
  store_ok None (set_fs (fun o => with_fds (delete f (fds o)) o) s) m.
Proof.
  intros [[Hc [D1 D2 D3 D4 D5 D6 D7] Hm] _ _ _ Hf]. constructor; [by apply cache_ok_close|constructor; cbn; try done|done].
  intros g k [_ Hg]%lookup_delete_Some. by eapply D5.
Qed.

Lemma store_ok_drop_tmp s m id : store_ok None s m -> store_ok None (set_fs (fun o => with_dirs (files o) (delete id (tmps o)) o) s) m.
Proof.
  intros [Hc [D1 D2 D3 D4 D5 D6 D7] Hm]. constructor; [by apply (cache_ok_ext _ s)|constructor; cbn; try done|done].
  - intros j k [Hj|[_ Hj]%lookup_delete_Some]; eauto.
  - intros j j' k Hj [_ Hj']%lookup_delete_Some. eauto.
  - intros j j' k [_ Hj]%lookup_delete_Some [_ Hj']%lookup_delete_Some. eauto.
Qed.

Lemma ignoreRemoveTmp_ok s m id : store_ok None s m ->
  exists s', ignoreErr (RemoveTmp id) s = (s', Ret tt) /\ store_ok None s' m /\ keeps s s'.
Proof.
  intros H. assert (Hw : wp (RemoveTmp id) s (fun _ s' => store_ok None s' m /\ keeps s s') (fun s' => store_ok None s' m /\ keeps s s')).
  { apply lob_wp_os_call.
    - intros s' Hp. apply wp_modify. split; [apply store_ok_drop_tmp; by eapply lob_popped_ok|]. etrans; [by apply popped_keeps|done].
    - intros s' Hp _. split; [by eapply lob_popped_ok|by apply popped_keeps]. }
  unfold wp in Hw. unfold ignoreErr. destruct (RemoveTmp id s) as [s' [[]|e|]]; [..|done]; destruct Hw; by exists s'.
Qed.

Lemma orAbort_ok s0 s m id f i d x Q : keeps s0 s -> wp x s Q (wfailed s m id f i) -> wp (orAbort f id d x) s Q (failed s0 m).
Proof.
  intros Hk Hw. unfold wp, orAbort in *. destruct (x s) as [s1 [a|e|]]; [done| |done].
  destruct Hw as ([c Hw] & Hk1 & Hc). unfold FileClose. rewrite stM_bind_modify.
  destruct (ignoreRemoveTmp_ok _ m id (writing_close _ _ _ _ _ _ Hw)) as (s2 & E2 & H2 & Hk2).
  rewrite (stM_bind_ret _ _ _ _ _ E2). cbn. apply (failed_trans _ s); [done|]. split; [done|]. split; [|done].
  etrans; [exact Hk1|]. etrans; [|exact Hk2]. done.
Qed.

(** The temporary file becomes the file of [id]. *)
Lemma store_ok_rename s m id i d : store_ok None s m -> tmps (fs s) !! id = Some i -> inodes (fs s) !! i = Some (lobBytes id d) ->
  (FsyncEnabled (cfg s) = true -> synced (fs s) !! i = Some (zlen (lobBytes id d))) ->
  files (fs s) !! id = None -> is_u64 id -> zlen d < 2 ^ 63 ->
  store_ok None (set_fs (fun o => with_dirs (<[id := i]> (files o)) (delete id (tmps o)) o) s) (<[id := d]> m).
Proof.
  intros [Hc [D1 D2 D3 D4 D5 D6 D7] Hm] Ht Hi Hs Hf Hid Hd. constructor; [|constructor; cbn|done].
  - destruct Hc as (l & u & H & Hl & Hn & Hits). exists l, u. split; [done|]. split; [done|]. split; [done|].
    intros j g r Hj. destruct (Hits _ _ _ Hj) as (-> & k & Hx & Hy). split; [done|]. exists k. split; [done|].
    cbn. rewrite lookup_insert_ne; [done|]. intros ->. congruence.
  - intros j e. destruct (decide (j = id)) as [->|].
    + rewrite lookup_insert_eq. intros [= <-]. split; [done|]. split; [done|]. exists i. by rewrite lookup_insert_eq.
    + rewrite !lookup_insert_ne by done. apply D1.
  - intros j. destruct (decide (j = id)) as [->|]; [by rewrite lookup_insert_eq|]. rewrite !lookup_insert_ne by done. apply D2.
  - intros j k [Hj|[_ Hj]%lookup_delete_Some]; [|by eapply D3; right]. destruct (decide (j = id)) as [->|].
    + rewrite lookup_insert_eq in Hj. injection Hj as <-. by eapply D3; right.
    + rewrite lookup_insert_ne in Hj by done. by eapply D3; left.
  - intros j j' k Hj [Hne Hj']%lookup_delete_Some. destruct (decide (j = id)) as [->|].
    + rewrite lookup_insert_eq in Hj. injection Hj as <-. apply Hne. by eapply D7.
    + rewrite lookup_insert_ne in Hj by done. by eapply D4.
  - done.
  - intros He j k. destruct (decide (j = id)) as [->|].
    + rewrite lookup_insert_eq. intros [= <-]. eexists. split; [by apply Hs|]. unfold contentOf. cbn. by rewrite Hi.
    + rewrite lookup_insert_ne by done. apply D6, He.
  - intros j j' k [_ Hj]%lookup_delete_Some [_ Hj']%lookup_delete_Some. by eapply D7.
Qed.

Lemma store_ok_next n s m : store_ok None s m -> store_ok None (with_nextLOBID n s) m.
Proof. by intros [? [] ?]. Qed.

(** [Create] under the next number, which names no file yet. *)
Lemma Create_ok s m d (id := u64 (nextLOBID s + 1)) :
  store_ok None s m -> zlen d < 2 ^ 63 -> files (fs s) !! id = None ->
  wp (Create d) s (fun ref s' => ref = mkLOBFileRef id (zlen d) /\ store_ok None s' (<[id := d]> m) /\
                     (clean s -> clean s') /\ cfg s' = cfg s /\ nextLOBID s' = id)
                  (fun s' => store_ok None s' m /\ cfg s' = cfg s /\ nextLOBID s' = id /\ ~ clean s).
Proof.
  intros H Hd Hid. unfold Create. apply wp_get. fold id. apply wp_bind, wp_modify.
  set (s0 := with_nextLOBID id s). assert (H0 : store_ok None s0 m) by by apply store_ok_next.
  assert (Hlen : u64 (zlen d) = zlen d) by (apply u64_id; pose proof (zlen_nonneg d); unfold is_u64; lia). rewrite Hlen.
  assert (Hk0 : forall s', failed s0 m s' -> store_ok None s' m /\ cfg s' = cfg s /\ nextLOBID s' = id /\ ~ clean s).
  { intros s' (K1 & (K2 & K3 & K4) & K5). by split_and!. }
  apply wp_bind. eapply wp_mono; [apply wp_onErr, OpenTmp_ok, H0| |apply Hk0]. cbn beta.
  intros f s1 ((i & H1) & Hk1 & Hf1). rewrite lobHeader_eq. apply wp_bind, wp_lift.
  apply wp_bind. eapply wp_mono; [eapply orAbort_ok; [exact Hk1|by eapply lob_FileWrite_ok]| |apply Hk0]. cbn beta.
  intros [] s2 (H2 & Hk2 & Hf2). assert (Hk02 : keeps s0 s2) by (by etrans). rewrite app_nil_l in H2.
  apply wp_bind. eapply wp_mono; [eapply orAbort_ok; [exact Hk02|by eapply lob_FileWrite_ok]| |apply Hk0]. cbn beta.
  intros [] s3 (H3 & Hk3 & Hf3). assert (Hk03 : keeps s0 s3) by (by etrans). change (headerOf id (zlen d) ++ d) with (lobBytes id d) in H3.
  apply wp_bind. eapply wp_mono; [eapply orAbort_ok; [exact Hk03|by eapply fsyncSync_ok]| |apply Hk0]. cbn beta.
  intros [] s4 (H4 & Hk4 & Hf4 & Hsy). assert (Hk04 : keeps s0 s4) by (by etrans).
  apply wp_bind. unfold FileClose at 1. apply wp_modify. pose proof (writing_close _ _ _ _ _ _ H4) as H5.
  set (s5 := set_fs _ s4) in *. assert (Hk05 : keeps s0 s5) by exact Hk04.
  apply wp_bind. unfold renameOrRemove.
  assert (Hr : wp (Rename id) s5 (fun _ s' => store_ok None s' (<[id := d]> m) /\ keeps s5 s') (failed s5 m)).
  { apply lob_wp_os_call.
    - intros s6 Hp. apply wp_get. destruct (popped_fs _ _ Hp) as (E1 & E2 & E3 & E4 & E5 & E6 & E7).
      destruct (popped_cfg _ _ Hp) as (Ec & _).
      rewrite E2. cbn [s5 tmps fs set_fs with_fds]. rewrite (w_tmp _ _ _ _ _ _ H4). apply wp_modify.
      split; [|etrans; [by apply popped_keeps|done]]. apply store_ok_rename; rewrite ?E1, ?E2, ?E3, ?E7, ?Ec; cbn [s5 tmps fs set_fs with_fds].
      + by eapply lob_popped_ok.
      + apply H4.
      + apply H4.
      + exact Hsy.
      + transitivity (files (fs s4) !! id); [done|]. rewrite Hf4, Hf3, Hf2, Hf1. exact Hid.
      + apply u64_range.
      + done.
    - intros s6 Hp Hc. split; [by eapply lob_popped_ok|]. split; [by apply popped_keeps|done]. }
  unfold wp in Hr |- *. destruct (Rename id s5) as [s6 [[]|e|]]; [| |done].
  - destruct Hr as (H6 & Hk6). cbn. split; [done|]. split; [done|]. destruct Hk6 as (K1 & K2 & K3). destruct Hk05 as (L1 & L2 & L3).
    split; [intros Hc; by apply K1, L1|]. split; [by rewrite K2, L2|by rewrite K3, L3].
  - destruct Hr as (H6 & Hk6 & Hc). destruct (ignoreRemoveTmp_ok _ m id H6) as (s7 & E7 & H7 & Hk7).
    rewrite (stM_bind_ret _ _ _ _ _ E7). cbn. apply Hk0, (failed_trans _ s5); [done|]. split; [done|]. split; [by etrans|done].
Qed.

(** A reader of [id] holds descriptor [f], from the cache or its own. *)
Record reading (cached : bool) (s : lobFileStore) (m : gmap Z bytes) (id f : Z) (i : nat) : Prop := {
  r_ok : store_ok (if cached then Some id else None) s m;
  r_fd : fds (fs s) !! f = Some i;
  r_file : files (fs s) !! id = Some i;
  r_free : cached = false -> forall l u, Fd.rep (fdCache s) l u -> f ∉ ((fun i => i.2.1) <$> Fd.items u) }.

Lemma reading_popped cached s s' m id f i : popped s s' -> reading cached s m id f i -> reading cached s' m id f i.
Proof.
  intros Hp [H1 H2 H3 H4]. destruct (popped_fs _ _ Hp) as (E1 & _ & _ & E4 & _). destruct (popped_cfg _ _ Hp) as (_ & _ & E5).
  constructor; rewrite ?E1, ?E4, ?E5; try done. by eapply lob_popped_ok.
Qed.

Lemma store_ok_same b s s' m : same_disk s s' -> cache_ok None s' -> store_ok b s m -> store_ok None s' m.
Proof.
  intros Hs Hc [_ Hd Hm]. constructor; [done|by eapply same_disk_ok|]. destruct Hs as (_ & _ & _ & _ & _ & _ & _ & -> & _). done.
Qed.

Lemma dropFile_ok cached s m id f i : reading cached s m id f i ->
  exists s', dropFile cached id f s = (s', Ret tt) /\ store_ok None s' m /\ keeps s s'.
Proof.
  intros H. unfold dropFile. destruct cached.
  - destruct (cacheRelease_ok s id (so_cache _ _ _ (r_ok _ _ _ _ _ _ H))) as (s' & E & Hc & Hs). exists s'. split; [done|].
    split; [eapply store_ok_same; [exact Hs|done|apply H]|by apply same_disk_keeps].
  - eexists. split; [done|]. split; [|done]. destruct H as [[Hc [D1 D2 D3 D4 D5 D6 D7] Hm] _ _ Hf].
    constructor; [apply cache_ok_close; [exact Hc|by apply Hf]|constructor; cbn; try done|done]. intros g k [_ Hg]%lookup_delete_Some. by eapply D5.
Qed.

Lemma orDrop_ok {A} cached s0 s m id f i h (x : stM lobFileStore A) Q : keeps s0 s ->
  wp x s Q (fun s' => reading cached s' m id f i /\ keeps s s' /\ ~ clean s) -> wp (orDrop cached id f h x) s Q (failed s0 m).
Proof.
  intros Hk Hw. unfold wp, orDrop in *. destruct (x s) as [s1 [a|e|]]; [done| |done]. destruct Hw as (Hr & Hk1 & Hc).
  destruct (dropFile_ok _ _ _ _ _ _ Hr) as (s2 & E & H2 & Hk2). rewrite (stM_bind_ret _ _ _ _ _ E). cbn.
  apply (failed_trans _ s); [done|]. split; [done|]. split; [by etrans|done].
Qed.

Lemma reading_content cached s m id f i d : reading cached s m id f i -> m !! id = Some d -> contentOf (fs s) i = lobBytes id d.
Proof.
  intros H Hd. destruct (dk_some _ _ (so_disk _ _ _ (r_ok _ _ _ _ _ _ H)) _ _ Hd) as (_ & _ & k & Hk & Hi).
  rewrite (r_file _ _ _ _ _ _ H) in Hk. injection Hk as <-. unfold contentOf. by rewrite Hi.
Qed.

Lemma ReadAt_ok cached s m id f i d n off : reading cached s m id f i -> m !! id = Some d -> off + n <= zlen (lobBytes id d) ->
  wp (ReadAt f n off) s (fun x s' => x = ztake n (zdrop off (lobBytes id d)) /\ reading cached s' m id f i /\ keeps s s')
    (fun s' => reading cached s' m id f i /\ keeps s s' /\ ~ clean s).
Proof.
  intros H Hd Hn. unfold ReadAt. apply wp_bind. unfold wp at 1, inodeOf. rewrite (r_fd _ _ _ _ _ _ H). apply lob_wp_os_call.
  - intros s' Hp. pose proof (reading_popped _ _ _ _ _ _ _ Hp H) as H'. apply wp_get.
    rewrite (reading_content _ _ _ _ _ _ _ H' Hd), (proj2 (Z.leb_le _ _)) by done. apply wp_ret.
    split; [done|]. split; [done|by apply popped_keeps].
  - intros s' Hp Hc. split; [by eapply reading_popped|]. split; [by apply popped_keeps|done].
Qed.

(** *** Reading *)

Lemma mmapLenOf_ge n : n <= mmapLenOf n.
Proof.
  unfold mmapLenOf, pageSize. pose proof (Z.mod_pos_bound n 4096 ltac:(lia)). destruct (n mod 4096 =? 0); lia.
Qed.

Lemma mmapRead_ok cached s m id f i d : reading cached s m id f i -> m !! id = Some d -> zlen d < 2 ^ 63 ->
  wp (mmapRead f lobFileHeaderSize (i64 (zlen d))) s (fun x s' => x = d /\ reading cached s' m id f i /\ keeps s s')
    (fun s' => reading cached s' m id f i /\ keeps s s' /\ ~ clean s).
Proof.
  intros H Hd Hlen. pose proof (zlen_nonneg d) as Hpos. rewrite i64_id by (unfold is_i64; lia). unfold mmapRead. cbv zeta.
  assert (Hz : zlen (lobBytes id d) = lobFileHeaderSize + zlen d) by (unfold lobBytes; by rewrite zlen_app, zlen_header).
  assert (Hdrop : zdrop lobFileHeaderSize (lobBytes id d) = d) by (apply zdrop_app_exact; by rewrite zlen_header).
  apply wp_get, wp_bind, lob_wp_pop. intros e s' Hp He. pose proof (reading_popped _ _ _ _ _ _ _ Hp H) as H'.
  assert (Hk : keeps s s') by by apply popped_keeps.
  assert (Hread : wp (if zlen d <? 0 then liftS Panic else ReadAt f (zlen d) lobFileHeaderSize) s'
    (fun x s' => x = d /\ reading cached s' m id f i /\ keeps s s') (fun s' => reading cached s' m id f i /\ keeps s s' /\ ~ clean s)).
  { rewrite (proj2 (Z.ltb_ge _ _)) by done. eapply wp_mono; [eapply ReadAt_ok; [exact H'|exact Hd|lia]| |].
    - intros x s2 (-> & Hr & Hk2). rewrite Hdrop, ztake_all by lia. split; [done|]. split; [done|by etrans].
    - intros s2 (Hr & Hk2 & Hc). split; [done|]. split; [by etrans|]. intros Hcl. by apply Hc, Hk. }
  destruct e as [e|]; [exact Hread|]. destruct (popped_fs _ _ Hp) as (_ & _ & _ & Ef & _).
  rewrite (r_fd _ _ _ _ _ _ H). destruct (0 <? _); [|exact Hread].
  rewrite (reading_content _ _ _ _ _ _ _ H Hd), Hz. pose proof (mmapLenOf_ge (lobFileHeaderSize + zlen d)).
  rewrite (proj2 (Z.ltb_ge _ _)) by done. apply wp_ret. split; [|done].
  unfold lobBytes. rewrite <- app_assoc, zdrop_app_exact by (by rewrite zlen_header). by apply ztake_app_exact.
Qed.

Lemma header_fields id n : is_u64 id -> 0 <= n < 2 ^ 63 ->
  slice (headerOf id n) 0 4 = Ret lobMagic /\ be_at 8 (headerOf id n) 8 = Ret id /\
  be_at 2 (headerOf id n) 6 = Ret 0 /\ be_at 8 (headerOf id n) 16 = Ret n.
Proof.
  intros Hid Hn. unfold headerOf. assert (Hn' : is_u64 n) by (unfold is_u64; lia).
  split; [by apply slice_head|]. unfold be_at. split; [|split].
  - rewrite (app_assoc lobMagic), (app_assoc (lobMagic ++ _)).
    rewrite slice_mid by (rewrite ?zlen_app, ?zlen_be_enc; done). rewrite bind_ret. by rewrite be_dec_enc8, u64_id.
  - rewrite (app_assoc lobMagic). rewrite slice_mid by (rewrite ?zlen_app, ?zlen_be_enc; done). done.
  - rewrite (app_assoc lobMagic), (app_assoc (lobMagic ++ _)), (app_assoc ((lobMagic ++ _) ++ _)).
    rewrite slice_mid by (rewrite ?zlen_app, ?zlen_be_enc; done). rewrite bind_ret. by rewrite be_dec_enc8, u64_id.
Qed.

Lemma readFile_ok cached s m f i ref d : reading cached s m (LOBID ref) f i -> m !! LOBID ref = Some d ->
  wp (readFile cached ref f) s (fun x s' => x = d /\ store_ok None s' m /\ keeps s s') (failed s m).
Proof.
  intros H Hd. set (id := LOBID ref) in *. destruct (dk_some _ _ (so_disk _ _ _ (r_ok _ _ _ _ _ _ H)) _ _ Hd) as (Hid & Hlen & _).
  pose proof (zlen_nonneg d) as Hpos. destruct (header_fields id (zlen d) Hid (conj Hpos Hlen)) as (F1 & F2 & F3 & F4).
  unfold readFile. cbv zeta. fold id.
  assert (Hzl : zlen (lobBytes id d) = lobFileHeaderSize + zlen d) by (unfold lobBytes; by rewrite zlen_app, zlen_header).
  apply wp_bind. eapply wp_mono; [eapply orDrop_ok; [done|eapply ReadAt_ok; [exact H|exact Hd|rewrite Hzl; unfold lobFileHeaderSize; lia]]| |done].
  cbn beta. intros h s1 (-> & H1 & Hk1). assert (Eh : ztake lobFileHeaderSize (zdrop 0 (lobBytes id d)) = headerOf id (zlen d)).
  { rewrite zdrop_0. apply ztake_app_exact. by rewrite zlen_header. }
  rewrite Eh, F1. apply wp_bind, wp_lift. rewrite bool_decide_true by done. cbn [negb].
  rewrite F2. apply wp_bind, wp_lift. rewrite Z.eqb_refl. cbn [negb].
  rewrite F3. apply wp_bind, wp_lift. change (Z.land 0 lobFlagDeleted =? 0) with true. cbn [negb].
  rewrite F4. apply wp_bind, wp_lift. destruct (Z.eqb_spec (zlen d) 0) as [Hz|Hz].
  - assert (d = []) as -> by (apply zlen_le_0; lia). destruct cached.
    + destruct (cacheRelease_ok s1 id (so_cache _ _ _ (r_ok _ _ _ _ _ _ H1))) as (s2 & E & Hc & Hs).
      apply wp_bind. unfold wp at 1. rewrite E. apply wp_ret. split; [done|].
      split; [eapply store_ok_same; [exact Hs|done|apply H1]|]. etrans; [exact Hk1|by apply same_disk_keeps].
    + apply wp_bind, wp_ret, wp_ret. split; [done|]. split; [apply H1|done].
  - apply wp_get. rewrite u64_id by (pose proof (so_mmap _ _ _ (r_ok _ _ _ _ _ _ H1)); unfold is_u64; lia).
    apply wp_bind. eapply wp_mono; [eapply (orDrop_ok cached s s1 m id f i _ _ (fun x s' => x = d /\ reading cached s' m id f i /\ keeps s1 s') Hk1)| |done].
    + destruct (_ <? zlen d).
      * by apply mmapRead_ok.
      * eapply wp_mono; [eapply ReadAt_ok; [exact H1|exact Hd|lia]| |done]. intros x s2 (-> & Hr & Hk2). split; [|done].
        unfold lobBytes. rewrite zdrop_app_exact by (by rewrite zlen_header). by apply ztake_all.
    + cbn beta. intros x s2 (-> & H2 & Hk2). assert (Hk : keeps s s2) by (by etrans). destruct cached.
      * destruct (cacheRelease_ok s2 id (so_cache _ _ _ (r_ok _ _ _ _ _ _ H2))) as (s3 & E & Hc & Hs).
        apply wp_bind. unfold wp at 1. rewrite E. apply wp_ret. split; [done|].
        split; [eapply store_ok_same; [exact Hs|done|apply H2]|]. etrans; [exact Hk|by apply same_disk_keeps].
      * destruct (cacheAdd_ok s2 id f i) as (s3 & E & Hc & Hs); [apply H2|apply H2|apply H2|by apply (r_free _ _ _ _ _ _ H2)|].
        apply wp_bind. unfold wp at 1. rewrite E. apply wp_ret. split; [done|].
        split; [eapply store_ok_same; [exact Hs|done|apply H2]|]. etrans; [exact Hk|by apply same_disk_keeps].
Qed.

Lemma Read_ok s m ref : store_ok None s m ->
  wp (Read ref) s (fun x s' => m !! LOBID ref = Some x /\ store_ok None s' m /\ keeps s s')
    (fun s' => store_ok None s' m /\ keeps s s' /\ (clean s -> m !! LOBID ref = None)).
Proof.
  intros H. unfold Read. set (id := LOBID ref). apply wp_bind. unfold wp at 1, cacheGet.
  destruct (Fd.get id (fdCache s)) as [c [f|]] eqn:E.
  - destruct (cacheGet_hit s id c f (so_cache _ _ _ H) E) as (Hc & i & Hf & Hi).
    assert (Hr : reading true (with_cache c s) m id f i).
    { destruct H as [_ [] ?]. constructor; [constructor; [done|by constructor|done]|done|done|done]. }
    destruct (m !! id) as [d|] eqn:Ed; [|apply (dk_none _ _ (so_disk _ _ _ H)) in Ed; congruence].
    eapply wp_mono; [by eapply readFile_ok| |].
    + intros x s' (-> & Hs & Hk). done.
    + intros s' (Hs & Hk & Hcl). split; [done|]. split; [exact Hk|]. intros Hc'. by destruct Hcl.
  - pose proof (cacheGet_miss s id c (so_cache _ _ _ H) E) as Hc.
    assert (H1 : store_ok None (with_cache c s) m).
    { destruct H as [_ [] ?]. constructor; [done|by constructor|done]. }
    set (s1 := with_cache c s) in *. assert (Hk1 : keeps s s1) by done.
    apply wp_bind, wp_onErr. unfold OpenFinal. apply lob_wp_os_call.
    + intros s2 Hp. apply wp_get. pose proof (lob_popped_ok _ _ _ _ Hp H1) as H2. pose proof (popped_keeps _ _ Hp) as Hk2.
      destruct (files (fs s2) !! id) as [i|] eqn:Ef.
      * destruct (m !! id) as [d|] eqn:Ed; [|apply (dk_none _ _ (so_disk _ _ _ H2)) in Ed; congruence].
        apply wp_bind. unfold wp at 1, newFd. apply wp_ret.
        set (s3 := set_fs _ s2). pose proof (fresh_fd None s2 (so_cache _ _ _ H2) (dk_fds _ _ (so_disk _ _ _ H2))) as Hfr.
        assert (Hr : reading false s3 m id (nextFd (fs s2)) i).
        { constructor; [|cbn; by rewrite lookup_insert_eq|done|done].
          destruct H2 as [(l & u & Hr & Hl & Hn & Hits) [D1 D2 D3 D4 D5 D6 D7] Hm2]. constructor; [|constructor; cbn; try done|done].
          - exists l, u. split; [done|]. split; [done|]. split; [done|]. intros j g r Hj. destruct (Hits _ _ _ Hj) as (-> & k & Hg & Hfk).
            split; [done|]. exists k. split; [|done]. cbn. rewrite lookup_insert_ne; [done|]. apply D5 in Hg. lia.
          - intros g k. destruct (decide (g = nextFd (fs s2))) as [->|]; [intros _; lia|]. rewrite lookup_insert_ne by done. intros Hg%D5. lia. }
        assert (Hk3 : keeps s s3) by (etrans; [exact Hk1|]; etrans; [exact Hk2|done]).
        eapply wp_mono; [by eapply readFile_ok| |].
        -- intros x s' (-> & Hs & Hk). split; [done|]. split; [done|by etrans].
        -- intros s' (Hs & Hk & Hcl). split; [done|]. split; [by etrans|]. intros Hc'. destruct Hcl. by apply Hk3.
      * apply wp_ret. cbn. split; [done|]. split; [by etrans|]. intros _. destruct (m !! id) as [d|] eqn:Ed; [|done].
        destruct (dk_some _ _ (so_disk _ _ _ H2) _ _ Ed) as (_ & _ & i & Hi & _). congruence.
    + intros s2 Hp Hcl. split; [by eapply lob_popped_ok|]. split; [etrans; [exact Hk1|by apply popped_keeps]|]. intros Hc'. by destruct Hcl.
Qed.

(** *** Deleting *)

Lemma cacheRemove_ok s id : cache_ok None s ->
  exists s', cacheRemove id s = (s', Ret tt) /\ same_disk s s' /\ cache_ok None s' /\
    forall s2, fdCache s2 = fdCache s' -> fds (fs s2) = fds (fs s') -> files (fs s2) = delete id (files (fs s')) -> cache_ok None s2.
Proof.
  intros (l & u & H & Hl & Hn & Hi). destruct (Fd.remove_ok _ _ _ id H) as (c' & l' & E' & H').
  unfold cacheRemove. rewrite (onCache_eq _ _ _ _ E'). eexists. split; [done|].
  pose proof (onCache_same (Fd.remove id) s _ _ E') as Hs. rewrite (onCache_eq _ _ _ _ E') in Hs. split; [exact Hs|].
  pose proof (Fd.rep_nodup _ _ _ H) as Hnd.
  assert (Hgen : forall s1, cache_ok None s1 -> (forall l u, Fd.rep (fdCache s1) l u -> id ∉ (Fd.items u).*1) ->
    forall s2, fdCache s2 = fdCache s1 -> fds (fs s2) = fds (fs s1) -> files (fs s2) = delete id (files (fs s1)) -> cache_ok None s2).
  { intros s1 (l1 & u1 & H1 & Hl1 & Hn1 & Hi1) Hno s2 E1 E2 E3. exists l1, u1. rewrite E1. split; [done|]. split; [done|]. split; [done|].
    intros j g r Hj. destruct (Hi1 _ _ _ Hj) as (-> & k & Hx & Hy). split; [done|]. exists k. rewrite E2, E3. split; [done|].
    rewrite lookup_delete_ne; [done|]. intros ->. apply (Hno _ _ H1). by apply (list_elem_of_fmap_2 fst) in Hj. }
  assert (Hi0 : forall j g r, (j, (g, r)) ∈ Fd.items u -> r = 0 /\ exists i, fds (fs s) !! g = Some i /\ files (fs s) !! j = Some i).
  { intros j g r Hj. destruct (Hi _ _ _ Hj) as [-> Hx]. by rewrite decide_False. }
  match goal with |- cache_ok None ?x /\ _ => set (s' := x) in * end.
  assert (Hc : cache_ok None s' /\ exists u', Fd.rep (fdCache s') l' u' /\ id ∉ (Fd.items u').*1).
  { unfold s', Fd.lru_remove in *. destruct (Fd.assoc id (Fd.items u)) as [[g r]|] eqn:Ea.
    - pose proof (Fd.assoc_perm _ _ _ Hnd Ea) as Hp. split.
      + eapply cache_retire; [exact H'|done| | |].
        * destruct (Hi0 id g r) as [-> _]; [rewrite Hp; apply list_elem_of_here|done].
        * rewrite Hp, fmap_cons in Hn. exact Hn.
        * intros j h q Hj. apply Hi0. rewrite Hp. by apply list_elem_of_further.
      + eexists. split; [exact H'|]. rewrite Fd.lru_retire_items. rewrite Hp, fmap_cons in Hnd. by apply NoDup_cons in Hnd as [Hnd _].
    - cbn [fst snd foldl] in *. split; [exists l', u; split; [done|]; split; [done|]; split; [done|exact Hi]|].
      exists u. split; [exact H'|by apply Fd.assoc_None in Ea]. }
  destruct Hc as (Hc & u' & Hr' & Hno). split; [done|]. apply Hgen; [done|]. intros l2 u2 H2.
  assert (Fd.items u2 = Fd.items u') as ->; [|done].
  assert (l2 = l') as -> by (eapply Fd.dll_unique; [apply (Fd.rep_dll _ _ _ H2)|apply (Fd.rep_dll _ _ _ Hr')]).
  eapply Fd.rep_items_unique; [apply (Fd.rep_items _ _ _ H2)|apply (Fd.rep_items _ _ _ Hr')].
Qed.

Lemma lob_Delete_ok s m ref : store_ok None s m ->
  wp (Delete ref) s (fun _ s' => store_ok None s' (delete (LOBID ref) m) /\ keeps s s') (failed s m).
Proof.
  intros H. unfold Delete. set (id := LOBID ref).
  destruct (cacheRemove_ok s id (so_cache _ _ _ H)) as (s1 & E & Hs & Hc & Hdel).
  apply wp_bind. unfold wp at 1. rewrite E. pose proof (store_ok_same _ _ _ _ Hs Hc H) as H1. pose proof (same_disk_keeps _ _ Hs) as Hk1.
  apply wp_onErr, lob_wp_os_call.
  - intros s2 Hp. pose proof (lob_popped_ok _ _ _ _ Hp H1) as [_ [D1 D2 D3 D4 D5 D6 D7] Hm]. apply wp_modify.
    split; [|etrans; [exact Hk1|]; etrans; [by apply popped_keeps|done]].
    destruct (popped_fs _ _ Hp) as (E1 & _ & _ & E4 & _). destruct (popped_cfg _ _ Hp) as (_ & _ & E5).
    constructor; [apply Hdel; cbn; by rewrite ?E1, ?E4, ?E5|constructor; cbn; try done|done].
    + intros j d [Hne Hj]%lookup_delete_Some. rewrite lookup_delete_ne by done. by apply D1.
    + intros j. destruct (decide (j = id)) as [->|]; [by rewrite !lookup_delete_eq|]. rewrite !lookup_delete_ne by done. apply D2.
    + intros j k [[_ Hj]%lookup_delete_Some|Hj]; eauto.
    + intros j j' k [_ Hj]%lookup_delete_Some Hj'. eauto.
    + intros He j k [_ Hj]%lookup_delete_Some. by eapply D6.
  - intros s2 Hp Hcl. apply (failed_trans _ s1); [done|]. split; [by eapply lob_popped_ok|]. split; [by apply popped_keeps|done].
Qed.

(** ** The store as a map *)

Inductive lobCall := CallCreate (data : bytes) | CallRead (ref : LOBFileRef) | CallDelete (ref : LOBFileRef).
Inductive lobReply := Created (r : outcome LOBFileRef) | Data (r : outcome bytes) | Deleted (r : outcome unit).

Definition call (c : lobCall) (s : lobFileStore) : lobFileStore * lobReply :=
  match c with
  | CallCreate d => let '(s, r) := Create d s in (s, Created r)
  | CallRead ref => let '(s, r) := Read ref s in (s, Data r)
  | CallDelete ref => let '(s, r) := Delete ref s in (s, Deleted r)
  end.

(** The abstract store: the last number and the contents.  [io]: errors of the
    disk may occur. *)
Inductive spec_call (io : bool) : Z * gmap Z bytes -> lobCall -> lobReply -> Z * gmap Z bytes -> Prop :=
| sp_create n m d : spec_call io (n, m) (CallCreate d) (Created (Ret (mkLOBFileRef (n + 1) (zlen d)))) (n + 1, <[n + 1 := d]> m)
| sp_create_fails n m d e : io = true -> spec_call io (n, m) (CallCreate d) (Created (Fail e)) (n + 1, m)
| sp_read n m ref d : m !! LOBID ref = Some d -> spec_call io (n, m) (CallRead ref) (Data (Ret d)) (n, m)
| sp_read_fails n m ref e : io = true \/ m !! LOBID ref = None -> spec_call io (n, m) (CallRead ref) (Data (Fail e)) (n, m)
| sp_delete n m ref : spec_call io (n, m) (CallDelete ref) (Deleted (Ret tt)) (n, delete (LOBID ref) m)
| sp_delete_fails n m ref e : io = true -> spec_call io (n, m) (CallDelete ref) (Deleted (Fail e)) (n, m).

Inductive spec_calls (io : bool) : Z * gmap Z bytes -> list lobCall -> list lobReply -> Z * gmap Z bytes -> Prop :=
| sps_nil a : spec_calls io a [] [] a
| sps_cons a1 a2 a3 c r cs rs : spec_call io a1 c r a2 -> spec_calls io a2 cs rs a3 -> spec_calls io a1 (c :: cs) (r :: rs) a3.

Definition call_fits (c : lobCall) : Prop := match c with CallCreate d => zlen d < 2 ^ 63 | _ => True end.

(** Numbers in use are at most the last one given out. *)
Definition numbered (s : lobFileStore) (m : gmap Z bytes) (left : Z) : Prop :=
  store_ok None s m /\ 0 <= nextLOBID s /\ nextLOBID s + left < 2 ^ 64 /\ (forall id, is_Some (m !! id) -> id <= nextLOBID s).


#[export] Instance clean_dec s : Decision (clean s).
Proof. unfold clean. solve_decision. Defined.
Definition ioErrors (s : lobFileStore) : bool := negb (bool_decide (clean s)).

Lemma call_ok s m c left io : numbered s m (left + 1) -> 0 <= left -> call_fits c -> (io = false -> clean s) ->
  exists s' r m', call c s = (s', r) /\ spec_call io (nextLOBID s, m) c r (nextLOBID s', m') /\
    numbered s' m' left /\ (clean s -> clean s') /\ cfg s' = cfg s.
Proof.
  intros (H & Hn0 & Hn & Hm) Hl Hfit Hio.
  assert (Hio' : forall s0, ~ clean s -> keeps s s0 -> io = true) by (intros s0 Hc _; destruct io; [done|by destruct Hc; apply Hio]).
  destruct c as [d|ref|ref]; cbn [call].
  - assert (Hid : u64 (nextLOBID s + 1) = nextLOBID s + 1) by (apply u64_id; unfold is_u64; lia).
    pose proof (Create_ok s m d H Hfit) as Hw. cbv zeta in Hw. rewrite Hid in Hw. unfold wp in Hw.
    assert (Hnone : m !! (nextLOBID s + 1) = None).
    { destruct (m !! (nextLOBID s + 1)) eqn:E; [|done]. specialize (Hm (nextLOBID s + 1) ltac:(by eexists)). lia. }
    specialize (Hw (dk_none _ _ (so_disk _ _ _ H) _ Hnone)). destruct (Create d s) as [s' [ref|e|]]; [| |done].
    + destruct Hw as (-> & Hs & Hcl & Hc & Hnx). exists s'. eexists _, _. split; [done|]. rewrite Hnx. split; [constructor|].
      split; [|done]. split; [done|]. rewrite Hnx. split; [lia|]. split; [lia|]. intros id [x Hx].
      destruct (decide (id = nextLOBID s + 1)) as [->|]; [lia|]. rewrite lookup_insert_ne in Hx by done. specialize (Hm id ltac:(by eexists)). lia.
    + destruct Hw as (Hs & Hc & Hnx & Hcl). exists s'. eexists _, _. split; [done|]. rewrite Hnx.
      split; [constructor; destruct io; [done|by destruct Hcl; apply Hio]|]. split; [|done].
      split; [done|]. rewrite Hnx. split; [lia|]. split; [lia|]. intros id Hx. specialize (Hm id Hx). lia.
  - pose proof (Read_ok s m ref H) as Hw. unfold wp in Hw. destruct (Read ref s) as [s' [x|e|]]; [| |done].
    + destruct Hw as (Hx & Hs & Hk). pose proof Hk as (K1 & K2 & K3). exists s'. eexists _, _. split; [done|]. rewrite K3.
      split; [by constructor|]. split; [|done]. split; [done|]. rewrite K3. split; [done|]. split; [lia|done].
    + destruct Hw as (Hs & Hk & Hcl). pose proof Hk as (K1 & K2 & K3). exists s'. eexists _, _. split; [done|]. rewrite K3.
      split; [constructor; destruct io; [by left|right; auto]|]. split; [|done]. split; [done|]. rewrite K3. split; [done|]. split; [lia|done].
  - pose proof (lob_Delete_ok s m ref H) as Hw. unfold wp in Hw. destruct (Delete ref s) as [s' [[]|e|]]; [| |done].
    + destruct Hw as (Hs & K1 & K2 & K3). exists s'. eexists _, _. split; [done|]. rewrite K3.
      split; [constructor|]. split; [|done]. split; [done|]. rewrite K3. split; [done|]. split; [lia|].
      intros id [x [_ Hx]%lookup_delete_Some]. apply Hm. by eexists.
    + destruct Hw as (Hs & (K1 & K2 & K3) & Hcl). exists s'. eexists _, _. split; [done|]. rewrite K3.
      split; [constructor; destruct io; [done|by destruct Hcl; apply Hio]|]. split; [|done]. split; [done|]. rewrite K3. split; [done|]. split; [lia|done].
Qed.

Lemma calls_ok cs s m io : numbered s m (Z.of_nat (length cs)) -> Forall call_fits cs -> (io = false -> clean s) ->
  exists s' rs m', Fd.runAll call cs s = (s', rs) /\ spec_calls io (nextLOBID s, m) cs rs (nextLOBID s', m') /\
    numbered s' m' 0 /\ (clean s -> clean s') /\ cfg s' = cfg s.
Proof.
  revert s m. induction cs as [|c cs IH]; intros s m H Hf Hio.
  - exists s, [], m. split; [done|]. split; [constructor|]. done.
  - apply Forall_cons in Hf as [Hc Hf]. cbn [length] in H. rewrite Nat2Z.inj_succ, <- Z.add_1_r in H.
    destruct (call_ok s m c _ io H ltac:(lia) Hc Hio) as (s1 & r & m1 & E & Hs & H1 & Hcl & Hcfg).
    destruct (IH s1 m1 H1 Hf) as (s2 & rs & m2 & E2 & Hs2 & H2 & Hcl2 & Hcfg2); [auto|].
    exists s2, (r :: rs), m2. cbn [Fd.runAll]. rewrite E, E2. split; [done|]. split; [by econstructor|].
    split; [done|]. split; [auto|congruence].
Qed.

(** An empty directory and no open files. *)
Definition empty_dir (o : FS) : Prop := files o = ∅ /\ tmps o = ∅ /\ fds o = ∅.
Definition config_ok (c : Config) : Prop := 0 <= FileMMapThreshold c < 2 ^ 63.

Lemma start_number r : is_u32 r -> Z.lor (Z.shiftl r 32) 1 = r * 2 ^ 32 + 1.
Proof. intros Hr. apply or_shift_add; lia. Qed.

Lemma new_ok o c rand s : config_ok c -> (forall r, rand = Some r -> is_u32 r) ->
  newLOBFileStore o c rand = (s, Ret tt) ->
  cfg s = c /\ fdCache s = Fd.newLobFDCache (FDCacheCapacity c) /\ 0 <= nextLOBID s < 2 ^ 64 - 2 ^ 32 + 2 /\
  files (fs s) = files o /\ tmps (fs s) = tmps o /\ inodes (fs s) = inodes o /\ synced (fs s) = synced o /\
  nextInode (fs s) = nextInode o /\ fds (fs s) = fds o /\ nextFd (fs s) = nextFd o /\ (faults o = [] -> clean s).
Proof.
  intros Hc Hr. unfold newLOBFileStore. set (s0 := mkStore _ _ _ _).
  assert (Hn : 0 <= nextLOBID s0 < 2 ^ 64 - 2 ^ 32 + 2).
  { cbn. destruct rand as [r|]; [|lia]. specialize (Hr r eq_refl). rewrite start_number by done. unfold is_u32 in Hr. lia. }
  intros E. assert (Hp : popped s0 s).
  { assert (Hw : wp (onErr (os_call (mret tt)) (errorfAs "lob: create root dir")) s0 (fun _ s' => popped s0 s') (fun _ => True)).
    { apply wp_onErr, lob_wp_os_call; [|done]. intros s' Hp. by apply wp_ret. }
    unfold wp in Hw. by rewrite E in Hw. }
  destruct (popped_fs _ _ Hp) as (-> & -> & -> & -> & -> & -> & ->). destruct (popped_cfg _ _ Hp) as (-> & Hnx & ->). rewrite Hnx.
  split_and!; try done; [apply Hn..|]. intros Hf. apply (popped_clean _ _ Hp). exact Hf.
Qed.

Lemma new_cache_ok s n : fdCache s = Fd.newLobFDCache n -> cache_ok None s.
Proof.
  intros E. exists [], (Fd.mkLRU [] ∅). rewrite E. split; [apply Fd.new_rep|]. split; [done|]. split; [apply NoDup_nil_2|].
  intros id f r Hi. by apply elem_of_nil in Hi.
Qed.

Lemma new_numbered o c rand s left : config_ok c -> (forall r, rand = Some r -> is_u32 r) -> empty_dir o -> left < 2 ^ 32 - 2 ->
  newLOBFileStore o c rand = (s, Ret tt) -> numbered s ∅ left.
Proof.
  intros Hc Hr (E1 & E2 & E3) Hl E. destruct (new_ok _ _ _ _ Hc Hr E) as (Hcfg & Hca & Hn & F1 & F2 & F3 & F4 & F5 & F6 & F7 & _).
  split; [|split; [lia|split; [lia|]]].
  - constructor; [by eapply new_cache_ok|constructor; rewrite ?F1, ?F2, ?F6, ?E1, ?E2, ?E3|].
    + intros id d Hd. by rewrite lookup_empty in Hd.
    + done.
    + intros id i [Hi|Hi]; by rewrite lookup_empty in Hi.
    + intros id j i Hi. by rewrite lookup_empty in Hi.
    + intros f i Hi. by rewrite lookup_empty in Hi.
    + intros _ id i Hi. by rewrite lookup_empty in Hi.
    + intros j k i Hi. by rewrite lookup_empty in Hi.
    + rewrite Hcfg. exact Hc.
  - intros id [x Hx]. by rewrite lookup_empty in Hx.
Qed.

(** C10: a store of LOB files, opened on an empty directory, is a map from the
    numbers it gives out to their contents: whatever the disk's errors, each
    call of [Create], [Read] and [Delete] does what the map does, or fails and
    changes nothing; without disk errors it fails only when reading a number that
    was not created or has been deleted. *)
Theorem lob_store_refines_map o c rand s cs
  (Hc : config_ok c) (Hr : forall r, rand = Some r -> is_u32 r) (Ho : empty_dir o)
  (Hnew : newLOBFileStore o c rand = (s, Ret tt))
  (Hfit : Forall call_fits cs) (Hlen : Z.of_nat (length cs) < 2 ^ 32 - 2) :
  exists s' rs m, Fd.runAll call cs s = (s', rs) /\
    spec_calls (negb (bool_decide (faults o = []))) (nextLOBID s, ∅) cs rs (nextLOBID s', m).
Proof.
  destruct (calls_ok cs s ∅ (negb (bool_decide (faults o = [])))) as (s' & rs & m & E & Hs & _); [by eapply new_numbered|done| |by exists s', rs, m].
  intros Hb%negb_false_iff%bool_decide_eq_true. by eapply new_ok.
Qed.

(** ** Crashes *)

(** Renames survive; of every inode at least what an fsync has covered; the
    descriptors are gone. *)
Record crash (o o' : FS) : Prop := {
  cr_files : files o' = files o;
  cr_tmps : tmps o' = tmps o;
  cr_content : forall i, match inodes o !! i with
    | Some c => exists n, inodes o' !! i = Some (ztake n c) /\ default 0 (synced o !! i) <= n
    | None => inodes o' !! i = None
    end;
  cr_synced : forall i c, inodes o' !! i = Some c -> synced o' !! i = Some (zlen c);
  cr_next : nextInode o' = nextInode o;
  cr_fds : fds o' = ∅ }.

Lemma crash_restart_ok s m o c rand s' : store_ok None s m -> FsyncEnabled (cfg s) = true -> crash (fs s) o ->
  config_ok c -> (forall r, rand = Some r -> is_u32 r) -> newLOBFileStore o c rand = (s', Ret tt) -> store_ok None s' m.
Proof.
  intros [_ [D1 D2 D3 D4 D5 D6 D7] _] Hf [C1 C2 C3 C4 C5 C6] Hc Hr E.
  destruct (new_ok _ _ _ _ Hc Hr E) as (Hcfg & Hca & _ & F1 & F2 & F3 & F4 & F5 & F6 & F7 & _).
  assert (Hin : forall id i, files (fs s) !! id = Some i -> inodes o !! i = inodes (fs s) !! i).
  { intros id i Hi. destruct (D6 Hf id i Hi) as (n & Hn & Hle). specialize (C3 i). unfold contentOf in Hle.
    destruct (inodes (fs s) !! i) as [x|]; [|done]. destruct C3 as (k & -> & Hk). rewrite Hn in Hk. cbn in Hk, Hle.
    by rewrite ztake_all by lia. }
  constructor; [by eapply new_cache_ok|constructor|by rewrite Hcfg]; rewrite ?F1, ?F2, ?F3, ?F5, ?F6, ?C1, ?C2, ?C5, ?C6; try done.
  - intros id d Hd. destruct (D1 _ _ Hd) as (K1 & K2 & i & K3 & K4). split; [done|]. split; [done|]. exists i. by rewrite (Hin _ _ K3).
  - intros _ id i Hi. unfold contentOf. rewrite F3, F4. destruct (inodes o !! i) as [x|] eqn:Ex.
    + exists (zlen x). split; [by apply C4|]. done.
    + destruct (D6 Hf _ _ Hi) as (n & Hn & Hle). specialize (C3 i). unfold contentOf in Hle.
      assert (inodes (fs s) !! i = None) by (by rewrite <- (Hin _ _ Hi)). 
      destruct (m !! id) as [d|] eqn:Ed.
      * destruct (D1 _ _ Ed) as (_ & _ & i2 & K3 & K4). congruence.
      * apply D2 in Ed. congruence.
Qed.

Lemma lob_os_call_clean {A} (x : stM lobFileStore A) s : clean s -> os_call x s = x s.
Proof. intros Hc. unfold os_call, mbind, stM_bind, pop_fault. by rewrite Hc. Qed.

Lemma removeTmps_ok l s m : store_ok None s m ->
  exists s', removeTmps l s = (s', Ret tt) /\ store_ok None s' m /\ keeps s s' /\
    (clean s -> forall id i, tmps (fs s') !! id = Some i -> (id ∉ l) /\ tmps (fs s) !! id = Some i).
Proof.
  revert s. induction l as [|id l IH]; intros s H; cbn [removeTmps].
  - exists s. split; [done|]. split; [done|]. split; [done|]. intros _ id i Hi. split; [apply not_elem_of_nil|done].
  - destruct (ignoreRemoveTmp_ok s m id H) as (s1 & E1 & H1 & Hk1). rewrite (stM_bind_ret _ _ _ _ _ E1).
    destruct (IH s1 H1) as (s2 & E2 & H2 & Hk2 & Ht). exists s2. split; [done|]. split; [done|]. split; [by etrans|].
    intros Hc j i Hj. destruct (Ht (proj1 Hk1 Hc) j i Hj) as [Hjl Hj1].
    assert (tmps (fs s1) = delete id (tmps (fs s))) as Et.
    { unfold ignoreErr, RemoveTmp in E1. rewrite lob_os_call_clean in E1 by done. by injection E1 as <-. }
    rewrite Et in Hj1. apply lookup_delete_Some in Hj1 as [Hne Hj1]. split; [|done]. apply not_elem_of_cons. split; [congruence|done].
Qed.

Lemma CleanupTmp_ok s m : store_ok None s m -> clean s ->
  exists s', CleanupTmp s = (s', Ret tt) /\ store_ok None s' m /\ keeps s s' /\ tmps (fs s') = ∅.
Proof.
  intros H Hc. unfold CleanupTmp, ReadDirTmps.
  destruct (removeTmps_ok (map fst (map_to_list (tmps (fs s)))) s m H) as (s' & E & H' & Hk & Ht). exists s'.
  split; [|split; [done|split; [done|]]].
  - unfold mbind at 1, stM_bind at 1. rewrite lob_os_call_clean by done. exact E.
  - apply map_eq. intros id. rewrite lookup_empty. destruct (tmps (fs s') !! id) as [i|] eqn:Ei; [|done].
    destruct (Ht Hc _ _ Ei) as [Hl Hi]. exfalso. apply Hl. apply list_elem_of_fmap. exists (id, i). split; [done|]. by apply elem_of_map_to_list.
Qed.


(** *** Without fsync *)

(** Fsync is off and nothing has been synced. *)
Definition unsynced (s : lobFileStore) : Prop :=
  FsyncEnabled (cfg s) = false /\ forall i n, synced (fs s) !! i = Some n -> n = 0.
Definition stays {A} (m : stM lobFileStore A) : Prop := forall s, unsynced s -> unsynced (m s).1.

Lemma stays_ret {A} (r : outcome A) : stays (fun s => (s, r)).
Proof. by intros s. Qed.
Lemma stays_bind {A B} (m : stM lobFileStore A) (f : A -> stM lobFileStore B) :
  stays m -> (forall a, stays (f a)) -> stays (m ≫= f).
Proof.
  intros Hm Hf s H. specialize (Hm s H). unfold mbind, stM_bind. destruct (m s) as [s' [a|e|]]; cbn in *; auto. by apply Hf.
Qed.
Lemma stays_get {B} (f : lobFileStore -> stM lobFileStore B) : (forall s, FsyncEnabled (cfg s) = false -> stays (f s)) -> stays (getS ≫= f).
Proof. intros Hf s H. apply (Hf s); [apply H|done]. Qed.
Lemma stays_fs g : (forall o, synced (g o) = synced o \/ exists i, synced (g o) = <[i := 0]> (synced o)) -> stays (modifyS (set_fs g)).
Proof.
  intros Hg s [Hc Hs]. split; [done|]. intros i n. cbn. destruct (Hg (fs s)) as [->|[j ->]]; [apply Hs|].
  intros [[_ <-]|[_ H]]%lookup_insert_Some; [done|]. by eapply Hs.
Qed.
Lemma stays_wrap {A B} (m : stM lobFileStore A) (m' : stM lobFileStore B) :
  (forall s, (m' s).1 = (m s).1 \/ exists k : stM lobFileStore B, stays k /\ m' s = k (m s).1) -> stays m -> stays m'.
Proof.
  intros H Hm s Hs. destruct (H s) as [->|(k & Hk & ->)]; [by apply Hm|]. by apply Hk, Hm.
Qed.
Lemma stays_onErr {A} (m : stM lobFileStore A) h : stays m -> stays (onErr m h).
Proof. apply stays_wrap. intros s. left. unfold onErr. by destruct (m s) as [s' [a|e|]]. Qed.
Lemma stays_ignore {A} (m : stM lobFileStore A) : stays m -> stays (ignoreErr m).
Proof. apply stays_wrap. intros s. left. unfold ignoreErr. by destruct (m s) as [s' [a|e|]]. Qed.

Create HintDb lob_stays.
#[export] Hint Resolve stays_onErr stays_ignore : lob_stays.
Ltac stays_step :=
  lazymatch goal with
  | |- forall _, _ => intros ?
  | |- stays (getS ≫= _) => apply stays_get; intros ? ?
  | |- stays (_ ≫= _) => apply stays_bind
  | |- stays (let '(_, _) := ?x in _) => destruct x
  | |- stays (let _ := _ in _) => cbv zeta
  | |- stays (match ?x with _ => _ end) => destruct x eqn:?
  | |- stays (modifyS (set_fs _)) => apply stays_fs; intros ?; (by left) || (right; by eexists)
  | |- stays (mret _) => apply stays_ret
  | |- stays (failS _) => apply stays_ret
  | |- stays (liftS _) => apply stays_ret
  | |- stays _ => solve [auto with lob_stays]
  end.
Ltac stays_tac := repeat stays_step.

Lemma stays_pop : stays pop_fault.
Proof. intros s H. unfold pop_fault. by destruct (faults (fs s)). Qed.
#[export] Hint Resolve stays_pop : lob_stays.
Lemma stays_os_call {A} (m : stM lobFileStore A) : stays m -> stays (os_call m).
Proof. unfold os_call. stays_tac. Qed.
Lemma stays_newFd i : stays (newFd i).
Proof. by intros s. Qed.
Lemma stays_inodeOf f : stays (inodeOf f).
Proof. intros s H. unfold inodeOf. by case_match. Qed.
#[export] Hint Resolve stays_os_call stays_newFd stays_inodeOf : lob_stays.

Lemma stays_OpenTmp id : stays (OpenTmp id).
Proof. apply stays_os_call. stays_tac. Qed.
Lemma stays_FileWrite f d : stays (FileWrite f d).
Proof. unfold FileWrite. stays_tac. Qed.
Lemma stays_FileClose f : stays (FileClose f).
Proof. apply stays_fs. by left. Qed.
Lemma stays_ReadAt f n off : stays (ReadAt f n off).
Proof. unfold ReadAt. stays_tac. apply stays_os_call. stays_tac. Qed.
Lemma stays_RemoveTmp id : stays (RemoveTmp id).
Proof. apply stays_os_call, stays_fs. by left. Qed.
Lemma stays_RemoveFinal id : stays (RemoveFinal id).
Proof. apply stays_os_call, stays_fs. by left. Qed.
Lemma stays_Rename id : stays (Rename id).
Proof. apply stays_os_call. stays_tac. Qed.
Lemma stays_OpenFinal id : stays (OpenFinal id).
Proof. apply stays_os_call. stays_tac. Qed.
#[export] Hint Resolve stays_OpenTmp stays_FileWrite stays_FileClose stays_ReadAt stays_RemoveTmp stays_RemoveFinal stays_Rename stays_OpenFinal : lob_stays.
Lemma stays_onCache g : stays (onCache g).
Proof.
  intros s H. destruct (g (fdCache s)) as [c l] eqn:E. destruct (onCache_same g s c l E) as (_ & _ & _ & E4 & _ & _ & _ & E8 & _).
  unfold unsynced. by rewrite E4, E8.
Qed.
Lemma stays_cacheGet id : stays (cacheGet id).
Proof. intros s H. unfold cacheGet. by destruct (Fd.get id (fdCache s)). Qed.
Lemma stays_fsyncSync f : stays (fsyncSync f).
Proof. unfold fsyncSync. apply stays_get. intros s ->. apply stays_ret. Qed.
#[export] Hint Resolve stays_onCache stays_cacheGet stays_fsyncSync : lob_stays.

Lemma stays_orAbort f id d m : stays m -> stays (orAbort f id d m).
Proof.
  apply stays_wrap. intros s. unfold orAbort. destruct (m s) as [s' [a|e|]]; [by left| |by left]. right. eexists. split; [|done]. stays_tac.
Qed.
Lemma stays_renameOrRemove id : stays (renameOrRemove id).
Proof.
  apply (stays_wrap (Rename id)); [|apply stays_Rename]. intros s. unfold renameOrRemove.
  destruct (Rename id s) as [s' [a|e|]]; [by left| |by left]. right. eexists. split; [|done]. stays_tac.
Qed.
#[export] Hint Resolve stays_orAbort stays_renameOrRemove : lob_stays.
Lemma stays_Create d : stays (Create d).
Proof. unfold Create. stays_tac. by intros s'. Qed.

Lemma stays_dropFile c id f : stays (dropFile c id f).
Proof. unfold dropFile, cacheRelease. destruct c; auto with lob_stays. Qed.
Lemma stays_orDrop {A} c id f h (m : stM lobFileStore A) : stays m -> stays (orDrop c id f h m).
Proof.
  apply stays_wrap. intros s. unfold orDrop. destruct (m s) as [s' [a|e|]]; [by left| |by left]. right. eexists.
  split; [|done]. apply stays_bind; [apply stays_dropFile|]. intros. apply stays_ret.
Qed.
Lemma stays_mmapRead f o n : stays (mmapRead f o n).
Proof. unfold mmapRead. stays_tac. Qed.
#[export] Hint Resolve stays_dropFile stays_orDrop stays_mmapRead : lob_stays.
Lemma stays_readFile c ref f : stays (readFile c ref f).
Proof. unfold readFile, cacheRelease, cacheAdd. stays_tac; try (apply stays_orDrop; stays_tac). Qed.
Lemma stays_Read ref : stays (Read ref).
Proof. unfold Read. pose proof stays_readFile. stays_tac. Qed.
Lemma stays_Delete ref : stays (Delete ref).
Proof. unfold Delete, cacheRemove. stays_tac. Qed.

Lemma stays_calls cs s : unsynced s -> unsynced (Fd.runAll call cs s).1.
Proof.
  revert s. induction cs as [|c cs IH]; intros s H; [done|]. cbn [Fd.runAll].
  assert (H1 : unsynced (call c s).1).
  { destruct c as [d|ref|ref]; cbn [call].
    - pose proof (stays_Create d s H). by destruct (Create d s).
    - pose proof (stays_Read ref s H). by destruct (Read ref s).
    - pose proof (stays_Delete ref s H). by destruct (Delete ref s). }
  destruct (call c s) as [s1 r]. specialize (IH s1 H1). by destruct (Fd.runAll call cs s1).
Qed.

(** The disk of a crash that loses whatever was not synced, when nothing was. *)
Definition lose (o : FS) : FS :=
  mkFS (files o) (tmps o) ((fun _ => []) <$> inodes o) ((fun _ => 0) <$> inodes o) (nextInode o) ∅ (nextFd o) [].

Lemma lose_crash s : unsynced s -> crash (fs s) (lose (fs s)).
Proof.
  intros [_ H]. constructor; try done; cbn.
  - intros i. rewrite lookup_fmap. destruct (inodes (fs s) !! i) as [c|]; [|done]. exists 0. split; [done|].
    destruct (synced (fs s) !! i) as [n|] eqn:E; [|done]. by rewrite (H _ _ E).
  - intros i c. rewrite !lookup_fmap. destruct (inodes (fs s) !! i); [|done]. by intros [= <-].
Qed.

Lemma read_lost s ref n : fdCache s = Fd.newLobFDCache n -> (forall i, zlen (contentOf (fs s) i) = 0) ->
  wp (Read ref) s (fun _ _ => False) (fun _ => True).
Proof.
  intros E Hz. unfold Read. apply wp_bind. unfold wp at 1, cacheGet.
  destruct (Fd.get_ok _ _ _ (LOBID ref) (Fd.new_rep n)) as (c' & l' & Eg & _). rewrite <- E in Eg. rewrite Eg.
  cbn [Fd.lru_get Fd.assoc Fd.items fst snd]. apply wp_bind, wp_onErr, lob_wp_os_call; [|done]. intros s1 Hp. apply wp_get.
  destruct (files (fs s1) !! LOBID ref) as [i|]; [|by apply wp_ret]. apply wp_bind. unfold wp at 1, newFd. apply wp_ret.
  set (s2 := set_fs _ s1). unfold readFile. cbv zeta. apply wp_bind.
  assert (Hr : wp (ReadAt (nextFd (fs s1)) lobFileHeaderSize 0) s2 (fun _ _ => False) (fun _ => True)).
  { unfold ReadAt. apply wp_bind. unfold wp at 1, inodeOf. cbn [s2 fs set_fs fds]. rewrite lookup_insert_eq.
    apply lob_wp_os_call; [|done]. intros s3 Hp3. apply wp_get.
    assert (zlen (contentOf (fs s3) i) = 0) as ->; [|done]. rewrite <- (Hz i). unfold contentOf.
    destruct (popped_fs _ _ Hp3) as (_ & _ & -> & _). destruct (popped_fs _ _ Hp) as (_ & _ & E3 & _). cbn. by rewrite E3. }
  unfold wp at 1 in Hr. unfold wp at 1, orDrop. destruct (ReadAt _ _ _ s2) as [s3 [x|e|]]; try done.
Qed.

(** With fsync off, as [DefaultConfig] leaves it, a LOB file is not durable
    when [Create] returns: whatever was called on a store, there is a crash after
    which a reopened store can read none of its files. *)
Theorem lob_lost_without_fsync o c rand s cs
  (Hc : config_ok c) (Hf : FsyncEnabled c = false) (Hr : forall r, rand = Some r -> is_u32 r) (Ho : synced o = ∅)
  (Hnew : newLOBFileStore o c rand = (s, Ret tt)) :
  exists o', crash (fs (Fd.runAll call cs s).1) o' /\
    forall c' rand' s', config_ok c' -> (forall r, rand' = Some r -> is_u32 r) -> newLOBFileStore o' c' rand' = (s', Ret tt) ->
    forall ref d, (Read ref s').2 <> Ret d.
Proof.
  destruct (new_ok _ _ _ _ Hc Hr Hnew) as (Hcfg & _ & _ & _ & _ & _ & F4 & _).
  assert (H : unsynced s).
  { split; [by rewrite Hcfg|]. intros i n. by rewrite F4, Ho, lookup_empty. }
  pose proof (stays_calls cs s H) as H'. set (s1 := (Fd.runAll call cs s).1) in *.
  exists (lose (fs s1)). split; [by apply lose_crash|]. intros c' rand' s' Hc' Hr' E ref.
  destruct (new_ok _ _ _ _ Hc' Hr' E) as (_ & Hca & _ & _ & _ & F3 & _).
  assert (Hw : wp (Read ref) s' (fun _ _ => False) (fun _ => True)).
  { eapply read_lost; [exact Hca|]. intros i. unfold contentOf. rewrite F3. cbn. rewrite lookup_fmap. by destruct (inodes (fs s1) !! i). }
  intros d Hd. unfold wp in Hw. destruct (Read ref s') as [s2 r]. cbn in Hd. by subst r.
Qed.

(** ** The group commit (fsyncGroup)

    A call of [Sync] looks at the queue, and joins it only if others are there;
    the loop takes calls from the queue into a batch and syncs them together. *)

Record fsyncGroup := mkGroup {
  enabled : bool;
  waiting : list Z;
  queue : list Z;
  batch : list Z;
  closed : bool }.

(** The files synced by the step; [waiting]: callers between the look at the
    queue and their send. *)
Inductive gstep (maxBatch : Z) : fsyncGroup -> list Z -> fsyncGroup -> Prop :=
| gs_disabled (f : Z) w q b c : gstep maxBatch (mkGroup false w q b c) [] (mkGroup false w q b c) (* Sync f *)
| gs_closed f w q b : gstep maxBatch (mkGroup true w q b true) [f] (mkGroup true w q b true)
| gs_direct f w b c : gstep maxBatch (mkGroup true w [] b c) [f] (mkGroup true w [] b c)
| gs_look (f : Z) w q b : q <> [] -> gstep maxBatch (mkGroup true w q b false) [] (mkGroup true (f :: w) q b false)
| gs_send f w q b c : f ∈ w -> gstep maxBatch (mkGroup true w q b c) [] (mkGroup true (filter (fun g => g <> f) w) (q ++ [f]) b c)
| gs_cancelled f w q b : f ∈ w -> gstep maxBatch (mkGroup true w q b true) [f] (mkGroup true (filter (fun g => g <> f) w) q b true)
| gs_take f w q b c : zlen b + 1 < maxBatch -> gstep maxBatch (mkGroup true w (f :: q) b c) [] (mkGroup true w q (b ++ [f]) c)
| gs_take_flush f w q b c : maxBatch <= zlen b + 1 -> gstep maxBatch (mkGroup true w (f :: q) b c) (b ++ [f]) (mkGroup true w q [] c)
| gs_tick w q b c : gstep maxBatch (mkGroup true w q b c) b (mkGroup true w q [] c)
| gs_close w q b c e : gstep maxBatch (mkGroup e w q b c) [] (mkGroup e w q b true).

Inductive greach (maxBatch : Z) (c : Config) : fsyncGroup -> Prop :=
| gr_new : greach maxBatch c (mkGroup (FsyncEnabled c) [] [] [] false)
| gr_step g l g' : greach maxBatch c g -> gstep maxBatch g l g' -> greach maxBatch c g'.

(** The queue is empty at first and only a non-empty queue is joined: no call ever
    waits, every enabled [Sync] syncs its own file, as [fsyncSync] has it. *)
Lemma group_commit_unused maxBatch c g : greach maxBatch c g -> waiting g = [] /\ queue g = [] /\ batch g = [].
Proof.
  induction 1 as [|g l g' _ (Hw & Hq & Hb) Hs]; [done|]. destruct Hs; cbn in *; subst; try done.
  all: by match goal with H : _ ∈ [] |- _ => apply elem_of_nil in H end.
Qed.

(** ** The theorems at concrete stores *)

(** A crash that loses nothing. *)
Definition lose_none (o : FS) : FS :=
  mkFS (files o) (tmps o) (inodes o) (zlen <$> inodes o) (nextInode o) ∅ (nextFd o) [].
Lemma lose_none_crash o : crash o (lose_none o).
Proof.
  constructor; try done; cbn.
  - intros i. destruct (inodes o !! i) as [c|]; [|done]. exists (Z.max (zlen c) (default 0 (synced o !! i))).
    split; [by rewrite ztake_all by lia|lia].
  - intros i c Hi. by rewrite lookup_fmap, Hi.
Qed.

Definition empty_fs : FS := mkFS ∅ ∅ ∅ ∅ 0 ∅ 0 [].
Definition synced_config : Config := Apply [WithFsyncEnabled true; WithFDCacheCapacity 1] DefaultConfig.
Definition fresh_store : lobFileStore := (newLOBFileStore empty_fs synced_config (Some 7)).1.
Definition fresh_ref : LOBFileRef := mkLOBFileRef (7 * 2 ^ 32 + 2) 3.
Definition some_calls : list lobCall :=
  [CallCreate [1; 2; 3]; CallRead fresh_ref; CallCreate []; CallRead fresh_ref; CallDelete fresh_ref; CallRead fresh_ref].

Lemma some_rand_ok : forall r, Some 7 = Some r -> is_u32 r.
Proof. intros r [= <-]. unfold is_u32. lia. Qed.
Lemma synced_config_ok : config_ok synced_config.
Proof. unfold config_ok. cbn. lia. Qed.
Lemma some_calls_fit : Forall call_fits some_calls.
Proof. repeat constructor; vm_compute; reflexivity. Qed.

Example store_replies : (Fd.runAll call some_calls fresh_store).2 =
  [Created (Ret fresh_ref); Data (Ret [1; 2; 3]); Created (Ret (mkLOBFileRef (7 * 2 ^ 32 + 3) 0)); Data (Ret [1; 2; 3]);
   Deleted (Ret tt); Data (Fail (errorf "lob: file not found"))].
Proof. vm_compute. reflexivity. Qed.

Lemma lob_store_refines_map_witness : exists s' rs m, Fd.runAll call some_calls fresh_store = (s', rs) /\
  spec_calls false (nextLOBID fresh_store, ∅) some_calls rs (nextLOBID s', m).
Proof.
  exact (lob_store_refines_map empty_fs synced_config (Some 7) fresh_store some_calls synced_config_ok some_rand_ok
    (conj eq_refl (conj eq_refl eq_refl)) eq_refl some_calls_fit eq_refl).
Defined.

Definition one_call : list lobCall := [CallCreate [1; 2; 3]].
Definition crashed_fs : FS := lose_none (fs (Fd.runAll call one_call fresh_store).1).


Lemma lob_lost_without_fsync_witness :
  exists o', crash (fs (Fd.runAll call one_call (newLOBFileStore empty_fs DefaultConfig None).1).1) o' /\
    forall c' rand' s', config_ok c' -> (forall r, rand' = Some r -> is_u32 r) -> newLOBFileStore o' c' rand' = (s', Ret tt) ->
    forall ref d, (Read ref s').2 <> Ret d.
Proof.
  apply (lob_lost_without_fsync empty_fs DefaultConfig None).
  - unfold config_ok. cbn. lia.
  - reflexivity.
  - discriminate.
  - reflexivity.
  - reflexivity.
Defined.
