(* ===== verification/LobTiers.v ===== *)
(** * The value codec over its two tiers (lob/file_manager.go, lob/manager.go)

    The managers that MvccCodec.v takes as an interface: LOB files (LobStore.v)
    and the overflow chains of the page manager (OffHeap.v).  Both satisfy the
    interface's laws, so values of every size are read back. *)

From stdpp Require Import base list gmap strings.
From Stdlib Require Import ZArith Lia.
From S2P Require Import Prelude MvccCodec OffHeap LobCache LobStore.

Local Open Scope Z_scope.

(** ** The managers of the codec (file_manager.go, manager.go) *)

(** What a read does to the descriptor cache is not in the interface. *)
Definition DefaultLOBFileManager : LOBFileManager lobFileStore := {|
  lobf_Create := Create;
  lobf_Read r s := (Read r s).2;
  lobf_Delete := Delete |}.

(** A chain has at most as many pages as the manager; a longer walk is a cycle,
    on which the code does not end. *)
Definition chainFuel (s : PageManager) : nat := S (Z.to_nat (total s)).
Definition DefaultLOBManager : LOBManager PageManager := {|
  lob_Allocate data := firstPageID ← AllocOverflow data; mret (mkLOBRef firstPageID (u32 (zlen data)));
  lob_Read r s := (ReadOverflow (chainFuel s) (FirstPageID r) (LOBTotalLen r) s).2;
  lob_Free r s := FreeOverflow (chainFuel s) (FirstPageID r) s |}.

(** No disk errors ahead, and the next number is free. *)
Definition file_tier_ok (s : lobFileStore) : Prop :=
  clean s /\ exists m, store_ok None s m /\ files (fs s) !! u64 (nextLOBID s + 1) = None.

#[export] Instance DefaultLOBFileManager_laws : LOBFileManagerLaws file_tier_ok DefaultLOBFileManager.
Proof.
  intros d s s' r (Hc & m & H & Hid) Hd E. cbn [lobf_Create lobf_Read DefaultLOBFileManager] in *.
  pose proof (Create_ok s m d H ltac:(lia) Hid) as Hw. cbv zeta in Hw. unfold wp in Hw. rewrite E in Hw.
  destruct Hw as (-> & H' & Hcl & _). pose proof (Read_ok s' _ (mkLOBFileRef (u64 (nextLOBID s + 1)) (zlen d)) H') as Hr.
  unfold wp in Hr. cbn [LOBID FileTotalLen] in *. split; [|split; [apply u64_range|unfold is_u64; lia]].
  destruct (Read _ s') as [s2 [x|e|]]; [..|done]; cbn.
  - destruct Hr as (Hx & _). rewrite lookup_insert_eq in Hx. congruence.
  - destruct Hr as (_ & _ & Hn). rewrite lookup_insert_eq in Hn. by discriminate Hn; apply Hcl.
Qed.

(** The pages of a chain are fewer than the manager's. *)
Lemma chained_length m T ps cs : chained m T ps cs -> (length ps <= Z.to_nat T)%nat.
Proof.
  intros (_ & Hnd & Hr & _). rewrite <- (length_seqZ 0 T). apply submseteq_length, NoDup_submseteq; [done|].
  intros p Hp. rewrite Forall_forall in Hr. apply elem_of_seqZ. specialize (Hr p Hp). lia.
Qed.

Lemma PageIDToPtr_total p s : PageIDToPtr p s = (s, if total s <=? p then Panic else Ret (getPtr p)).
Proof. unfold PageIDToPtr. rewrite stM_bind_get. by destruct (_ <=? _). Qed.

(** Writing a chunk touches the memory only, and cannot fail. *)
Lemma writeChunk_mem first prev q c s : exists m r, writeChunk first prev q c s = (with_mem m s, r) /\ (r = Ret tt \/ r = Panic).
Proof.
  assert (Htail : forall m, exists m' r, (ptr ← PageIDToPtr q;
    _ ← modifyS (setField q hPageType PageTypeOverflow);
    _ ← modifyS (fun s => with_mem (storeU 4 (mem s) (ptr + SizeofPageHeader + 8) (zlen c)) s);
    modifyS (fun s => with_mem (store (mem s) (dataPtr ptr) c) s)) (with_mem m s) = (with_mem m' s, r) /\ (r = Ret tt \/ r = Panic)).
  { intros m. unfold mbind at 1, stM_bind at 1. rewrite PageIDToPtr_total. destruct (_ <=? _); [by exists m, Panic; auto|].
    eexists _, (Ret tt). split; [reflexivity|by left]. }
  unfold writeChunk. destruct first.
  - rewrite (stM_bind_ret _ _ _ s tt eq_refl). destruct (Htail (mem s)) as (m' & r & E & Hr).
    exists m', r. split; [|done]. rewrite <- E. f_equal. by destruct s.
  - unfold mbind at 1, stM_bind at 1. unfold mbind at 1, stM_bind at 1. rewrite PageIDToPtr_total.
    destruct (_ <=? _); [exists (mem s), Panic; split; [by destruct s|by right]|]. apply Htail.
Qed.

(** The loop succeeds only when the pages suffice. *)
Lemma allocOverflowLoop_fits fuel first fp prev data s s' r : pm_ok s ->
  allocOverflowLoop fuel first fp prev data s = (s', Ret r) -> zlen data <= OverflowPageDataSize * avail s.
Proof.
  revert first fp prev data s. induction fuel as [|fuel IH]; intros first fp prev data s Hok; [done|].
  cbn [allocOverflowLoop]. pose proof (zlen_nonneg data). destruct (avail_pos_or_full s Hok) as [Ha|[Hf Ht]].
  - destruct (Z.eqb_spec (zlen data) 0) as [Hz|Hz]; [intros _; off_lia|].
    destruct (Alloc_post s Hok Ha) as (q & s1 & E & Hp). rewrite E. cbv zeta.
    destruct (writeChunk_mem first prev q (ztake OverflowPageDataSize data) s1) as (m & [[]| |] & Ew & Hr); [| |].
    + rewrite (stM_bind_ret _ _ _ _ _ Ew). intros E2. apply IH in E2; [|apply pm_ok_mem, Hp].
      change (avail (with_mem m s1)) with (avail s1) in E2. rewrite (ap_avail _ _ _ Hp), zlen_zdrop_max in E2. off_lia.
    + by destruct Hr.
    + unfold mbind, stM_bind. by rewrite Ew.
  - destruct (Z.eqb_spec (zlen data) 0) as [Hz|Hz].
    { intros _. unfold avail. pose proof (zlen_nonneg (freeList s)). off_lia. }
    rewrite Alloc_oom by (done || apply Hok). destruct (fp =? 0); [done|]. by destruct (FreeOverflow _ _ _) as [s2 [| |]].
Qed.

(** Pages that will be handed out carry no stale link. *)
Definition page_tier_ok (s : PageManager) : Prop := pm_ok s /\ links_clean s.

#[export] Instance DefaultLOBManager_laws : LOBManagerLaws page_tier_ok DefaultLOBManager.
Proof.
  intros d s s' r [Hok Hcl] [Hpos Hd] E. cbn [lob_Allocate lob_Read DefaultLOBManager] in *.
  unfold mbind, stM_bind, AllocOverflow in E. assert (Hz : (zlen d =? 0) = false) by (apply Z.eqb_neq; lia). rewrite Hz in E.
  destruct (allocOverflowLoop (S (length d)) true 0 0 d s) as [s1 [p0| |]] eqn:El; [|done..].
  pose proof (allocOverflowLoop_fits _ _ _ _ _ _ _ _ Hok El) as Hfit.
  pose proof (building_nil s Hok Hcl) as Hb.
  destruct (allocOverflowLoop_ok (S (length d)) d s [] [] 0 Hb eq_refl Hfit ltac:(lia)) as (s2 & ps & cs & El' & Hbs & Hc & _).
  change (allocOverflowLoop _ _ _ 0 d s) with (allocOverflowLoop (S (length d)) true 0 0 d s) in El'. rewrite El in El'.
  rewrite !app_nil_l in *. injection El' as -> ->. injection E as <- <-. cbn [LOBTotalLen FirstPageID].
  destruct ps as [|p ps].
  { destruct (bd_chain _ _ _ Hbs) as (Hlen & _). destruct cs; [|done]. by subst d. }
  destruct cs as [|c cs]; [by destruct (bd_chain _ _ _ Hbs)|]. pose proof (bd_chain _ _ _ Hbs) as Hch. cbn [head default].
  split; [|split].
  - unfold ReadOverflow. rewrite u32_id, Hz by (unfold is_u32; lia).
    rewrite (readOverflowLoop_chained s2 p ps c cs) by (done || apply chained_length in Hch; unfold chainFuel; cbn in Hch; lia).
    cbn. by rewrite <- Hc.
  - destruct Hch as (_ & _ & Hr & _). apply Forall_cons in Hr as [Hr _]. pose proof (ok_total _ (bd_ok _ _ _ Hbs)). cbn. unfold is_u32. lia.
  - unfold is_u32, u32. cbn. apply Z.mod_pos_bound. lia.
Qed.

(** ** The codec over both tiers *)

Definition LOBManager_fst {S T} (m : LOBManager S) : LOBManager (S * T) := {|
  lob_Allocate d s := let '(a, r) := lob_Allocate m d s.1 in ((a, s.2), r);
  lob_Read r s := lob_Read m r s.1;
  lob_Free r s := let '(a, o) := lob_Free m r s.1 in ((a, s.2), o) |}.
Definition LOBFileManager_snd {S T} (m : LOBFileManager T) : LOBFileManager (S * T) := {|
  lobf_Create d s := let '(b, r) := lobf_Create m d s.2 in ((s.1, b), r);
  lobf_Read r s := lobf_Read m r s.2;
  lobf_Delete r s := let '(b, o) := lobf_Delete m r s.2 in ((s.1, b), o) |}.

(** The managers the engine is configured with. *)
Definition tiers : Type := PageManager * lobFileStore.
Definition pageTier : option (LOBManager tiers) := Some (LOBManager_fst DefaultLOBManager).
Definition fileTier : option (LOBFileManager tiers) := Some (LOBFileManager_snd DefaultLOBFileManager).
Definition tiers_ok (s : tiers) : Prop := page_tier_ok s.1 /\ file_tier_ok s.2.

Lemma pageTier_ok : opt_lob_ok tiers_ok pageTier.
Proof.
  intros d [p f] s' r [Hp _] Hd E. cbn in E. destruct (lob_Allocate DefaultLOBManager d p) as [p' o] eqn:Ea.
  cbn in Ea. rewrite Ea in E. injection E as <- ->. exact (DefaultLOBManager_laws _ _ _ _ Hp Hd Ea).
Qed.
Lemma fileTier_ok : opt_lobf_ok tiers_ok fileTier.
Proof.
  intros d [p f] s' r [_ Hf] Hd E. cbn in E. destruct (Create d f) as [f' o] eqn:Ea.
  injection E as <- ->. exact (DefaultLOBFileManager_laws _ _ _ _ Hf Hd Ea).
Qed.

Lemma file_tier_create s d : file_tier_ok s -> zlen d < 2 ^ 63 -> exists s' r, Create d s = (s', Ret r).
Proof.
  intros (Hc & m & H & Hid) Hd. pose proof (Create_ok s m d H Hd Hid) as Hw. cbv zeta in Hw. unfold wp in Hw.
  destruct (Create d s) as [s' [r|e|]]; [by eauto| |done]. destruct Hw as (_ & _ & _ & Hn). by destruct Hn.
Qed.
Lemma page_tier_alloc s d : page_tier_ok s -> zlen d <= OverflowPageDataSize * avail s ->
  exists s' r, AllocOverflow d s = (s', Ret r).
Proof.
  intros [Hok Hcl] Hfit. unfold AllocOverflow. destruct (zlen d =? 0); [by exists s, 0|].
  destruct (allocOverflowLoop_ok (S (length d)) d s [] [] 0 (building_nil s Hok Hcl) eq_refl Hfit ltac:(lia)) as (s' & ps & cs & E & _).
  by eexists _, _.
Qed.

Lemma encode_succeeds value ts pf pb pv s : tiers_ok s -> zlen value < 2 ^ 32 -> 0 < ts ->
  (LOBSizeThreshold < zlen value <= LOBFileThreshold -> zlen value <= OverflowPageDataSize * avail s.1) ->
  exists s' enc, EncodeValue value ts pf pb pv pageTier fileTier s = (s', Ret enc).
Proof.
  intros [Hp Hf] Hlen Hts Hroom. destruct s as [sp sf]. unfold EncodeValue.
  assert (HB : forall flag v, isValidFlag flag = true -> exists enc, BuildMVCC flag ts v pf pb pv = Ret enc).
  { intros flag v Hflag. eexists. apply BuildMVCC_wire; [done|lia]. }
  destruct (Z.ltb_spec LOBFileThreshold (zlen value)) as [H1|H1]; cbn [fileTier].
  - destruct (file_tier_create sf value Hf ltac:(lia)) as (s' & r & E). unfold encodeLOBFile. cbn [lobf_Create LOBFileManager_snd DefaultLOBFileManager fst snd]. rewrite E, bind_ret.
    rewrite lobFileRefBytes_eq. destruct (HB FlagLOBFile (be_enc 2 16 ++ be_enc 8 (LOBID r) ++ be_enc 8 (FileTotalLen r)) eq_refl) as [enc He].
    rewrite bind_ret, He. by eexists _, _.
  - destruct (Z.ltb_spec LOBSizeThreshold (zlen value)) as [H2|H2]; cbn [pageTier].
    + destruct (page_tier_alloc sp value Hp ltac:(by apply Hroom)) as (s' & r & E). unfold encodeLOBOverflow. cbn [lob_Allocate LOBManager_fst DefaultLOBManager fst snd].
      rewrite (stM_bind_ret _ _ _ _ _ E). cbv beta iota. unfold mret at 1, stM_ret. rewrite bind_ret, lobRefBytes_eq, bind_ret.
      destruct (HB FlagLOBNormal (be_enc 2 8 ++ be_enc 4 (FirstPageID (mkLOBRef r (u32 (zlen value)))) ++ be_enc 4 (LOBTotalLen (mkLOBRef r (u32 (zlen value))))) eq_refl) as [enc He].
      rewrite He. by eexists _, _.
    + destruct (HB FlagNormal value eq_refl) as [enc ->]. by eexists _, _.
Qed.


(** ** A concrete state *)

Definition fresh_tiers : tiers := (example_manager, fresh_store).
Lemma fresh_tiers_ok : tiers_ok fresh_tiers.
Proof.
  split; [split; [apply example_manager_ok|apply example_manager_clean]|]. split; [done|]. exists ∅. split; [|done].
  apply (new_numbered empty_fs synced_config (Some 7) fresh_store 1 synced_config_ok some_rand_ok); done.
Qed.

