(* ===== verification/ChunkFormat.v ===== *)
(** * The formats of the chunk store (model/chunk_position.go,
    chunk/page_serializer.go, chunk/chunk_header.go)

    Page positions packed into 64 bits, page frames with a CRC32C prefix, and the
    text header of a chunk file, down to Go's %d, %x and strconv.  White space of
    strings.TrimSpace is that of ASCII. *)

From stdpp Require Import base list gmap strings.
From Stdlib Require Import ZArith Lia.
From S2P Require Import Prelude WalFormat OffHeap.

Local Open Scope Z_scope.

(** Conversion to [int32]. *)
Definition i32 (z : Z) : Z := (z + 2 ^ 31) mod 2 ^ 32 - 2 ^ 31.

(** ** Positions (model/chunk_position.go) *)

Definition MaxChunkID : Z := Z.shiftl 1 26 - 1.
Definition chunkIDShift : Z := 38.
Definition fileOffsetShift : Z := 6.
Definition pageTypeShift : Z := 1.
Definition chunkIDMask : Z := Z.shiftl 1 26 - 1.
Definition fileOffsetMask : Z := Z.shiftl 1 32 - 1.
Definition pageTypeMask : Z := Z.shiftl 1 5 - 1.

Definition errorf (details : string) : gerr := NexError PlainError details.

Definition EncodeChunkPosition (chunkID offset pageType : Z) : outcome Z :=
  if MaxChunkID <? chunkID then Fail (errorf "chunkID exceeds MaxChunkID")
  else Ret (Z.lor (Z.lor (Z.shiftl chunkID chunkIDShift) (Z.shiftl offset fileOffsetShift))
              (Z.shiftl (Z.land pageType pageTypeMask) pageTypeShift)).

Definition ChunkID (p : Z) : Z := u32 (Z.land (Z.shiftr p chunkIDShift) chunkIDMask).
Definition FileOffset (p : Z) : Z := u32 (Z.land (Z.shiftr p fileOffsetShift) fileOffsetMask).
Definition PageType (p : Z) : Z := u8 (Z.land (Z.shiftr p pageTypeShift) pageTypeMask).
Definition IsZero (p : Z) : bool := p =? 0.

(** ** Page frames (page_serializer.go) *)

Definition CRCSize : Z := 4.
Definition MinPagePayload : Z := SizeofPageHeader.
Definition MaxPagePayload : Z := PageSize.
Definition MinDiskPageSize : Z := CRCSize + MinPagePayload.
Definition MaxDiskPageSize : Z := CRCSize + MaxPagePayload.

(** Little-endian fields. *)
Definition le_enc (n : nat) (v : Z) : bytes := rev (be_enc n v).
Definition le_dec (bs : bytes) : Z := be_dec (rev bs).

(** [ptr]: the address of the page, or nil. *)
Definition Serialize (ptr : option Z) (pageLength : Z) (m : memory) : outcome bytes :=
  match ptr with
  | None => Fail (Sentinel ErrChunkNilDestination)
  | Some ptr =>
      if (pageLength <? MinPagePayload) || (MaxPagePayload <? pageLength)
      then Fail (Wrap (Sentinel ErrChunkInvalidLength) "page_serializer: invalid pageLength")
      else
        buf ← write_at (zeros (CRCSize + pageLength)) 0 (le_enc 4 0);
        buf ← copy_at buf CRCSize (load m ptr pageLength);
        body ← slice buf CRCSize (zlen buf);
        write_at buf 0 (le_enc 4 (CRC32C body))
  end.

Definition Deserialize (data : bytes) (dst : option Z) (m : memory) : memory * outcome Z :=
  if (zlen data <? MinDiskPageSize) || (MaxDiskPageSize <? zlen data)
  then (m, Fail (Wrap (Sentinel ErrChunkFormatError) "page_serializer: invalid data len"))
  else match dst with
  | None => (m, Fail (Sentinel ErrChunkNilDestination))
  | Some dst =>
      match (crc ← slice data 0 CRCSize;
             body ← slice data CRCSize (zlen data);
             pageType ← index data (CRCSize + field_off hPageType);
             Ret (le_dec crc, body, pageType)) with
      | Ret (expectedCRC, body, pageType) =>
          if negb (expectedCRC =? CRC32C body) then (m, Fail (Sentinel ErrChunkCRCMismatch))
          else if negb (pageType =? PageTypeIndex) && negb (pageType =? PageTypeLeaf)
          then (m, Fail (Wrap (Sentinel ErrChunkFormatError) "page_serializer: invalid pageType"))
          else (store m dst body, Ret (zlen data - CRCSize))
      | Fail e => (m, Fail e)
      | Panic => (m, Panic)
      end
  end.

(** ** Numbers as text (fmt, strconv) *)

Definition digit (d : Z) : Z := if d <? 10 then 48 + d else 87 + d.
Fixpoint digits (fuel : nat) (base n : Z) : bytes :=
  match fuel with
  | O => []
  | S fuel => (if n <? base then [] else digits fuel base (n / base)) ++ [digit (n mod base)]
  end.
Definition formatUint (base n : Z) : bytes := digits (S (Z.to_nat (Z.log2 n))) base n.
Definition formatInt (base n : Z) : bytes := if n <? 0 then 45 :: formatUint base (- n) else formatUint base n.

Definition digitOf (c : Z) : option Z :=
  if (48 <=? c) && (c <=? 57) then Some (c - 48)
  else if (97 <=? c) && (c <=? 122) then Some (c - 97 + 10)
  else if (65 <=? c) && (c <=? 90) then Some (c - 65 + 10)
  else None.

Definition num_error : gerr := Sentinel NumError.

(** The digits after the first, with the value so far. *)
Fixpoint parseDigits (base maxVal n : Z) (s : bytes) : outcome Z :=
  match s with
  | [] => Ret n
  | c :: s =>
      match digitOf c with
      | Some d =>
          if d <? base then
            if maxVal <? n * base + d then Fail num_error else parseDigits base maxVal (n * base + d) s
          else Fail num_error
      | None => Fail num_error
      end
  end.
Definition ParseUint (s : bytes) (base bitSize : Z) : outcome Z :=
  match s with [] => Fail num_error | _ => parseDigits base (Z.shiftl 1 bitSize - 1) 0 s end.
Definition ParseInt (s : bytes) (base bitSize : Z) : outcome Z :=
  let neg := match s with c :: _ => c =? 45 | [] => false end in
  let rest := match s with c :: r => if (c =? 43) || (c =? 45) then r else s | [] => s end in
  let cutoff := Z.shiftl 1 (bitSize - 1) in
  un ← ParseUint rest base bitSize;
  if negb neg && (cutoff <=? un) then Fail num_error
  else if neg && (cutoff <? un) then Fail num_error
  else Ret (if (neg : bool) then - un else un).

Definition parseUint32 (s : bytes) : outcome Z :=
  match ParseUint s 10 32 with Fail e => Fail (Wrap e "chunk: parse uint32") | r => r end.
Definition parseInt32 (s : bytes) : outcome Z :=
  match ParseInt s 10 32 with Fail e => Fail (Wrap e "chunk: parse int32") | r => r end.
Definition parseInt64 (s : bytes) : outcome Z :=
  match ParseInt s 10 64 with Fail e => Fail (Wrap e "chunk: parse int64") | r => r end.
Definition parseHexUint64 (s : bytes) : outcome Z :=
  match ParseUint s 16 64 with Fail e => Fail (Wrap e "chunk: parse hex uint64") | r => r end.

(** ** The chunk header (chunk_header.go) *)

Record ChunkHeader := mkHeader {
  ID : Z;
  RootPagePos : Z;
  PageCount : Z;
  SumOfPageLength : Z;
  SumOfLivePageLength : Z;
  PagePositionAndLengthOffset : Z;
  BlockSize : Z;
  FormatVersion : Z;
  RemovedPageOffset : Z;
  RemovedPageCount : Z;
  LastTransactionID : Z;
  MapSize : Z }.

Definition ChunkBlockSize : Z := 4096.

(** The bytes of a Go string literal. *)
Fixpoint str (s : string) : bytes :=
  match s with
  | EmptyString => []
  | String c s => Z.of_nat (Ascii.nat_of_ascii c) :: str s
  end.

Definition line (key : string) (v : bytes) : bytes := str key ++ [58] ++ v ++ [10].
Definition encode (h : ChunkHeader) : bytes :=
  line "id" (formatUint 10 (ID h)) ++
  line "rootPagePos" (formatUint 16 (RootPagePos h)) ++
  line "pageCount" (formatInt 10 (PageCount h)) ++
  line "sumOfPageLength" (formatInt 10 (SumOfPageLength h)) ++
  line "sumOfLivePageLength" (formatInt 10 (SumOfLivePageLength h)) ++
  line "pagePositionAndLengthOffset" (formatInt 10 (PagePositionAndLengthOffset h)) ++
  line "blockSize" (formatInt 10 (BlockSize h)) ++
  line "format" (formatInt 10 (FormatVersion h)) ++
  line "removedPageOffset" (formatInt 10 (RemovedPageOffset h)) ++
  line "removedPageCount" (formatInt 10 (RemovedPageCount h)) ++
  line "lastTransactionId" (formatInt 10 (LastTransactionID h)) ++
  line "mapSize" (formatInt 10 (MapSize h)).

(** strings.TrimLeft, TrimRight, TrimSpace, Split and SplitN(_, _, 2). *)
Fixpoint trimLeft (p : Z -> bool) (s : bytes) : bytes :=
  match s with c :: r => if p c then trimLeft p r else s | [] => [] end.
Definition trimRight (p : Z -> bool) (s : bytes) : bytes := rev (trimLeft p (rev s)).
Definition isSpace (c : Z) : bool := ((9 <=? c) && (c <=? 13)) || (c =? 32).
Definition TrimSpace (s : bytes) : bytes := trimRight isSpace (trimLeft isSpace s).
Fixpoint cut (sep : Z) (s : bytes) : option (bytes * bytes) :=
  match s with
  | [] => None
  | c :: s =>
      if c =? sep then Some ([], s)
      else match cut sep s with Some (a, b) => Some (c :: a, b) | None => None end
  end.
Fixpoint split (fuel : nat) (sep : Z) (s : bytes) : list bytes :=
  match fuel with
  | O => [s]
  | S fuel => match cut sep s with Some (a, b) => a :: split fuel sep b | None => [s] end
  end.

Fixpoint parseLines (lines : list bytes) (result : gmap bytes bytes) : outcome (gmap bytes bytes) :=
  match lines with
  | [] => Ret result
  | [] :: lines => parseLines lines result
  | line :: lines =>
      match cut 58 line with
      | Some (k, v) => parseLines lines (<[TrimSpace k := TrimSpace v]> result)
      | None => Fail (Wrap (Sentinel ErrChunkHeaderError) "chunk: malformed header line")
      end
  end.
Definition parseHeader (text : bytes) : outcome (gmap bytes bytes) :=
  let text := TrimSpace (trimRight (fun c => c =? 0) text) in
  parseLines (split (length text) 10 text) ∅.

Definition parseField (m : gmap bytes bytes) (key : string) (fn : bytes -> outcome Z) : outcome Z :=
  fn (default [] (m !! str key)).

Definition decodeHeader (data : bytes) : outcome ChunkHeader :=
  m ← parseHeader data;
  id ← parseField m "id" parseUint32;
  root ← parseField m "rootPagePos" parseHexUint64;
  count ← parseField m "pageCount" parseInt32;
  sum ← parseField m "sumOfPageLength" parseInt64;
  live ← parseField m "sumOfLivePageLength" parseInt64;
  pplo ← parseField m "pagePositionAndLengthOffset" parseInt64;
  block ← parseField m "blockSize" parseInt32;
  format ← parseField m "format" parseInt32;
  removedOff ← parseField m "removedPageOffset" parseInt64;
  removedCount ← parseField m "removedPageCount" parseInt32;
  lastTx ← parseField m "lastTransactionId" parseInt64;
  mapSize ← parseField m "mapSize" parseInt64;
  if negb (block =? ChunkBlockSize) then Fail (Wrap (Sentinel ErrChunkHeaderError) "chunk: unsupported block size")
  else Ret (mkHeader id root count sum live pplo block format removedOff removedCount lastTx mapSize).

(** ** Positions *)

Lemma land_low a n : 0 <= n -> Z.land a (Z.shiftl 1 n - 1) = a mod 2 ^ n.
Proof. intros. rewrite Z.shiftl_1_l, <- Z.land_ones by done. by rewrite Z.ones_equiv. Qed.

Lemma MaxChunkID_val : MaxChunkID = 2 ^ 26 - 1.
Proof. reflexivity. Qed.

(** A position is a number in mixed radix. *)
Lemma position_value c o t : 0 <= c < 2 ^ 26 -> is_u32 o ->
  EncodeChunkPosition c o t = Ret (c * 2 ^ 38 + (o * 2 ^ 6 + (t mod 32) * 2)).
Proof.
  unfold is_u32. intros Hc Ho. unfold EncodeChunkPosition. rewrite (proj2 (Z.ltb_ge MaxChunkID _)) by (rewrite MaxChunkID_val; lia).
  f_equal. unfold pageTypeMask, chunkIDShift, fileOffsetShift, pageTypeShift. rewrite land_low by lia. change (2 ^ 5) with 32.
  pose proof (Z.mod_pos_bound t 32 ltac:(lia)) as Ht. rewrite <- Z.lor_assoc.
  rewrite (Z.shiftl_mul_pow2 (t mod 32)), (or_shift_add o) by lia. by rewrite or_shift_add by lia.
Qed.

Lemma position_fields p : is_u64 p ->
  ChunkID p = p / 2 ^ 38 /\ FileOffset p = p / 2 ^ 6 mod 2 ^ 32 /\ PageType p = p / 2 mod 32.
Proof.
  unfold is_u64. intros Hp. unfold ChunkID, FileOffset, PageType, chunkIDMask, fileOffsetMask, pageTypeMask,
    chunkIDShift, fileOffsetShift, pageTypeShift. rewrite !land_low, !Z.shiftr_div_pow2 by lia.
  assert (H1 : 0 <= p / 2 ^ 38 < 2 ^ 26) by (split; [apply Z.div_pos; lia|apply Z.div_lt_upper_bound; lia]).
  rewrite (Z.mod_small (p / 2 ^ 38)), !u32_id by (unfold is_u32; first [lia | apply Z.mod_pos_bound; lia]).
  split; [done|]. split; [done|]. unfold u8. rewrite Z.mod_small; [done|].
  pose proof (Z.mod_pos_bound (p / 2 ^ 1) (2 ^ 5) ltac:(lia)). lia.
Qed.

Lemma position_fields_of c o t p : is_u32 o -> 0 <= t < 32 -> 0 <= c -> EncodeChunkPosition c o t = Ret p ->
  is_u64 p /\ ChunkID p = c /\ FileOffset p = o /\ PageType p = t.
Proof.
  intros Ho Ht Hc H. assert (Hc2 : c < 2 ^ 26).
  { unfold EncodeChunkPosition in H. destruct (Z.ltb_spec MaxChunkID c) as [|Hx]; [done|]. rewrite MaxChunkID_val in Hx. lia. }
  rewrite position_value in H by done. injection H as <-. rewrite (Z.mod_small t 32) by lia. unfold is_u32 in Ho.
  set (p := c * 2 ^ 38 + (o * 2 ^ 6 + t * 2)). assert (Hp : is_u64 p) by (unfold is_u64, p; lia).
  destruct (position_fields p Hp) as (-> & -> & ->). unfold p. split; [exact Hp|].
  split; [symmetry; apply (Z.div_unique _ _ _ (o * 2 ^ 6 + t * 2)); lia|].
  assert (E : (c * 2 ^ 38 + (o * 2 ^ 6 + t * 2)) / 2 ^ 6 = c * 2 ^ 32 + o) by (symmetry; apply (Z.div_unique _ _ _ (t * 2)); lia).
  rewrite E. split; [symmetry; apply (Z.mod_unique _ _ c); lia|].
  assert (E2 : (c * 2 ^ 38 + (o * 2 ^ 6 + t * 2)) / 2 = (c * 2 ^ 32 + o) * 32 + t) by (symmetry; apply (Z.div_unique _ _ _ 0); lia).
  rewrite E2. symmetry. apply (Z.mod_unique _ _ (c * 2 ^ 32 + o)); lia.
Qed.

(** A chunk position gives back the chunk, the offset and the type it was
    made of, and is zero only for page type 0 at offset 0 of chunk 0. *)
Theorem position_roundtrip c o t p (Ho : is_u32 o) (Ht : 0 <= t < 32) (Hc : 0 <= c) (H : EncodeChunkPosition c o t = Ret p) :
  is_u64 p /\ ChunkID p = c /\ FileOffset p = o /\ PageType p = t /\ (IsZero p = true <-> c = 0 /\ o = 0 /\ t = 0).
Proof.
  destruct (position_fields_of c o t p Ho Ht Hc H) as (Hp & E1 & E2 & E3). split; [done|]. split; [done|]. split; [done|]. split; [done|].
  assert (Hc2 : c < 2 ^ 26).
  { unfold EncodeChunkPosition in H. destruct (Z.ltb_spec MaxChunkID c) as [|Hx]; [done|]. rewrite MaxChunkID_val in Hx. lia. }
  rewrite position_value in H by done. injection H as <-. rewrite (Z.mod_small t 32) by lia. unfold is_u32 in Ho.
  unfold IsZero. rewrite Z.eqb_eq. lia.
Qed.

(** ** Page frames *)

Lemma zlen_le_enc n v : zlen (le_enc n v) = Z.of_nat n.
Proof. unfold le_enc, zlen. by rewrite length_rev, length_be_enc. Qed.
Lemma le_dec_enc4 v : is_u32 v -> le_dec (le_enc 4 v) = v.
Proof. intros Hv. unfold le_dec, le_enc. rewrite rev_involutive. by rewrite be_dec_enc4, u32_id. Qed.

(** A frame with the checksum of its body. *)
Definition frame (body : bytes) : bytes := le_enc 4 (CRC32C body) ++ body.

Lemma Serialize_frame ptr n m : MinPagePayload <= n <= MaxPagePayload ->
  Serialize (Some ptr) n m = Ret (frame (load m ptr n)).
Proof.
  unfold MinPagePayload, MaxPagePayload, SizeofPageHeader, PageSize. intros Hn. unfold Serialize.
  rewrite (proj2 (Z.ltb_ge n MinPagePayload)), (proj2 (Z.ltb_ge MaxPagePayload n)) by (unfold MinPagePayload, MaxPagePayload, SizeofPageHeader, PageSize; lia).
  cbn [orb]. unfold CRCSize. rewrite write_at_zero by (rewrite zlen_le_enc; lia). rewrite bind_ret, zlen_le_enc.
  assert (Hl : zlen (load m ptr n) = n) by (rewrite load_length; lia).
  rewrite (copy_at_exact _ _ 4) by (rewrite ?zlen_le_enc, ?zlen_zeros_max; lia). rewrite bind_ret.
  rewrite slice_tail by (rewrite ?zlen_app, ?zlen_le_enc; lia). rewrite bind_ret.
  unfold frame. by rewrite write_at_head by (rewrite !zlen_le_enc; done).
Qed.

Lemma zlen_frame body : zlen (frame body) = CRCSize + zlen body.
Proof. unfold frame, CRCSize. by rewrite zlen_app, zlen_le_enc. Qed.

Lemma le_dec_inj a b : bytes_ok a -> bytes_ok b -> length a = length b -> le_dec a = le_dec b -> a = b.
Proof.
  intros Ha Hb Hl E. rewrite <- (rev_involutive a), <- (rev_involutive b). f_equal.
  rewrite <- (be_enc_dec (length a) (rev a)), <- (be_enc_dec (length a) (rev b)) by (rewrite ?length_rev; done || by apply Forall_rev).
  unfold le_dec in E. by rewrite E.
Qed.

(** Decoding bytes whose checksum field and body are given. *)
Lemma Deserialize_eq crc body dst m : length crc = 4%nat -> MinPagePayload <= zlen body <= MaxPagePayload ->
  exists t, body !! 26%nat = Some t /\ Deserialize (crc ++ body) (Some dst) m =
    if negb (le_dec crc =? CRC32C body) then (m, Fail (Sentinel ErrChunkCRCMismatch))
    else if negb (t =? PageTypeIndex) && negb (t =? PageTypeLeaf)
    then (m, Fail (Wrap (Sentinel ErrChunkFormatError) "page_serializer: invalid pageType"))
    else (store m dst body, Ret (zlen body)).
Proof.
  intros Hc Hb. assert (Hz : zlen crc = 4) by (unfold zlen; lia).
  unfold Deserialize, MinDiskPageSize, MaxDiskPageSize, CRCSize. unfold MinPagePayload, MaxPagePayload, SizeofPageHeader, PageSize in *.
  rewrite zlen_app, Hz, (proj2 (Z.ltb_ge _ _)), (proj2 (Z.ltb_ge _ (4 + zlen body))) by lia. cbn [orb].
  rewrite (slice_head crc body 0 4) by lia. rewrite bind_ret, (slice_tail crc body 4) by lia.
  rewrite bind_ret, index_skip by (rewrite Hz; cbn; lia).
  destruct (lookup_lt_is_Some_2 body 26) as [t Ht]; [unfold zlen in Hb; lia|]. exists t. split; [done|].
  unfold index. rewrite (proj2 (Z.leb_le _ _)) by (rewrite Hz; cbn; lia). rewrite Hz.
  change (Z.to_nat (4 + field_off hPageType - 4)) with 26%nat. rewrite Ht. rewrite bind_ret.
  replace (4 + zlen body - 4) with (zlen body) by lia. done.
Qed.

(** A page written by [Serialize] is restored by [Deserialize], whose only
    effect is on the bytes of the page. *)
Theorem page_roundtrip m ptr n m' dst (Hn : MinPagePayload <= n <= MaxPagePayload) (Hok : bytes_ok (load m ptr n))
  (Ht : byteAt m (ptr + field_off hPageType) = PageTypeIndex \/ byteAt m (ptr + field_off hPageType) = PageTypeLeaf) :
  exists data m2, Serialize (Some ptr) n m = Ret data /\ zlen data = CRCSize + n /\
    Deserialize data (Some dst) m' = (m2, Ret n) /\ load m2 dst n = load m ptr n /\
    forall a, a < dst \/ dst + n <= a -> byteAt m2 a = byteAt m' a.
Proof.
  assert (Hl : zlen (load m ptr n) = n) by (rewrite load_length; unfold MinPagePayload, SizeofPageHeader in Hn; lia).
  destruct (Deserialize_eq (le_enc 4 (CRC32C (load m ptr n))) (load m ptr n) dst m') as (t & Hb & E); [|lia|].
  { unfold le_enc. by rewrite length_rev, length_be_enc. }
  assert (Et : t = byteAt m (ptr + field_off hPageType)).
  { apply (nth_lookup_Some _ _ 0) in Hb. rewrite <- Hb. change 26%nat with (Z.to_nat 26). rewrite nth_load; [done|].
    unfold MinPagePayload, SizeofPageHeader in Hn. lia. }
  rewrite le_dec_enc4, Z.eqb_refl in E by by apply crc32c_range. cbn [negb] in E.
  assert (Hty : negb (t =? PageTypeIndex) && negb (t =? PageTypeLeaf) = false) by (subst t; by destruct Ht as [-> | ->]).
  rewrite Hty in E. exists (frame (load m ptr n)), (store m' dst (load m ptr n)).
  split; [by apply Serialize_frame|]. split; [by rewrite zlen_frame, Hl|]. split; [unfold frame; by rewrite E, Hl|].
  split; [by apply load_store_same|]. intros a Ha. apply byteAt_store_out. lia.
Qed.

(** Changing any one byte of a serialized page makes [Deserialize] report a
    checksum mismatch and leave the memory alone. *)
Theorem page_corruption_detected m ptr n a b z b' m' dst (Hn : MinPagePayload <= n <= MaxPagePayload) (Hok : bytes_ok (load m ptr n))
  (Hs : Serialize (Some ptr) n m = Ret (a ++ b :: z)) (Hb : is_u8 b') (Hne : b' <> b) :
  Deserialize (a ++ b' :: z) (Some dst) m' = (m', Fail (Sentinel ErrChunkCRCMismatch)).
Proof.
  rewrite Serialize_frame in Hs by done. injection Hs as Hs. set (body := load m ptr n) in *.
  assert (Hl : zlen body = n) by (unfold body; rewrite load_length; unfold MinPagePayload, SizeofPageHeader in Hn; lia).
  set (crc := le_enc 4 (CRC32C body)). assert (Hc4 : length crc = 4%nat) by (unfold crc, le_enc; by rewrite length_rev, length_be_enc).
  assert (Hall : bytes_ok (a ++ b :: z)).
  { rewrite <- Hs. apply bytes_ok_app. split; [apply Forall_rev, be_enc_ok|done]. }
  assert (Hsplit : exists crc' body', a ++ b' :: z = crc' ++ body' /\ length crc' = 4%nat /\ length body' = length body /\
    bytes_ok crc' /\ le_dec crc' <> CRC32C body').
  { unfold frame in Hs. fold crc in Hs. apply bytes_ok_app in Hall as [Ha Hbz]. apply Forall_cons in Hbz as [Hbb Hz].
    destruct (decide (length a < 4)%nat) as [Hlt|Hge].
    - (* the checksum is hit *)
      set (z1 := take (3 - length a) z). assert (E1 : crc = a ++ b :: z1 /\ body = drop (3 - length a) z).
      { apply app_inj_1; [rewrite length_app; cbn; unfold z1; rewrite length_take; apply (f_equal length) in Hs; rewrite !length_app in Hs; cbn in Hs; unfold zlen in Hl; unfold MinPagePayload, SizeofPageHeader in Hn; lia|].
        rewrite Hs. unfold z1. by rewrite <- app_assoc, <- app_comm_cons, take_drop. }
      destruct E1 as [E1 E2]. exists (a ++ b' :: z1), body.
      split; [rewrite E2; unfold z1; by rewrite <- app_assoc, <- app_comm_cons, take_drop|].
      split; [rewrite <- Hc4, E1, !length_app; done|]. split; [done|].
      assert (Hz1 : bytes_ok z1) by by apply Forall_take.
      split; [apply bytes_ok_app; split; [done|by apply Forall_cons]|]. intros E.
      rewrite <- (le_dec_enc4 (CRC32C body)) in E by by apply crc32c_range. fold crc in E.
      apply le_dec_inj in E; [rewrite E1 in E; apply app_inv_head in E; by injection E| | |].
      + apply bytes_ok_app; split; [done|by apply Forall_cons].
      + unfold crc, le_enc. apply Forall_rev, be_enc_ok.
      + by rewrite E1, !length_app.
    - (* the body is hit *)
      set (a1 := drop 4 a). assert (E1 : crc = take 4 a /\ body = a1 ++ b :: z).
      { apply app_inj_1; [rewrite length_take; lia|]. rewrite Hs. unfold a1. by rewrite app_assoc, take_drop. }
      destruct E1 as [E1 E2]. exists crc, (a1 ++ b' :: z).
      split; [rewrite E1; unfold a1; by rewrite app_assoc, take_drop|]. split; [done|].
      split; [by rewrite E2, !length_app|]. split; [unfold crc, le_enc; apply Forall_rev, be_enc_ok|].
      unfold crc. rewrite le_dec_enc4 by by apply crc32c_range. rewrite E2. apply crc32c_single; try done.
      + by apply Forall_drop. }
  destruct Hsplit as (crc' & body' & E & H4 & Hlb & Hcok & Hneq). rewrite E.
  destruct (Deserialize_eq crc' body' dst m' H4) as (t & _ & ->); [unfold zlen in *; rewrite Hlb; lia|].
  by rewrite (proj2 (Z.eqb_neq _ _)).
Qed.

(** ** Numbers as text *)

Definition is_digit (c : Z) : Prop := 48 <= c <= 57 \/ 97 <= c <= 122.

Lemma digit_ok d : 0 <= d < 36 -> is_digit (digit d) /\ digitOf (digit d) = Some d.
Proof.
  intros Hd. unfold is_digit, digit, digitOf. destruct (Z.ltb_spec d 10).
  - split; [lia|]. rewrite (proj2 (Z.leb_le _ _)), (proj2 (Z.leb_le (48 + d) _)) by lia. cbn [andb]. f_equal. lia.
  - split; [lia|]. rewrite (proj2 (Z.leb_gt (87 + d) 57)), andb_false_r by lia.
    rewrite (proj2 (Z.leb_le _ _)), (proj2 (Z.leb_le (87 + d) _)) by lia. cbn [andb]. f_equal. lia.
Qed.

Lemma digits_digit fuel base n : 2 <= base <= 36 -> 0 <= n -> Forall is_digit (digits fuel base n).
Proof.
  intros Hb. revert n. induction fuel as [|fuel IH]; intros n Hn; cbn [digits]; [constructor|].
  apply Forall_app. split.
  - destruct (n <? base); [constructor|]. apply IH. by apply Z.div_pos; lia.
  - apply Forall_singleton, digit_ok. pose proof (Z.mod_pos_bound n base ltac:(lia)). lia.
Qed.

Lemma parseDigits_snoc base M acc s c :
  parseDigits base M acc (s ++ [c]) = (v ← parseDigits base M acc s; parseDigits base M v [c]).
Proof.
  revert acc. induction s as [|x s IH]; intros acc; [done|]. cbn [app parseDigits]. destruct (digitOf x) as [d|]; [|done].
  destruct (d <? base); [|done]. destruct (M <? acc * base + d); [done|]. apply IH.
Qed.

Lemma parseDigits_digits fuel base M n : 2 <= base <= 36 -> 0 <= n <= M -> n < 2 ^ Z.of_nat fuel ->
  parseDigits base M 0 (digits fuel base n) = Ret n.
Proof.
  intros Hb. revert n. induction fuel as [|fuel IH]; intros n Hn Hf.
  - cbn in *. f_equal. lia.
  - cbn [digits]. rewrite parseDigits_snoc. pose proof (Z.mod_pos_bound n base ltac:(lia)) as Hm.
    pose proof (Z.div_mod n base ltac:(lia)) as Hdm. assert (Hq : 0 <= n / base) by (apply Z.div_pos; lia).
    assert (Hpre : parseDigits base M 0 (if n <? base then [] else digits fuel base (n / base)) = Ret (n / base)).
    { destruct (Z.ltb_spec n base); [cbn; f_equal; symmetry; apply Z.div_small; lia|]. apply IH; [nia|].
      rewrite Nat2Z.inj_succ, Z.pow_succ_r in Hf by lia. nia. }
    rewrite Hpre, bind_ret. cbn [parseDigits]. destruct (digit_ok (n mod base)) as [_ ->]; [lia|].
    rewrite (proj2 (Z.ltb_lt _ _)) by lia. rewrite (proj2 (Z.ltb_ge M _)) by lia. f_equal. lia.
Qed.

Lemma formatUint_digits base n : 2 <= base <= 36 -> 0 <= n -> Forall is_digit (formatUint base n).
Proof. apply digits_digit. Qed.

Lemma formatUint_last base n : 2 <= base <= 36 -> 0 <= n -> exists s c, formatUint base n = s ++ [c] /\ is_digit c.
Proof.
  intros Hb Hn. unfold formatUint. cbn [digits]. eexists _, _. split; [done|]. apply digit_ok.
  pose proof (Z.mod_pos_bound n base ltac:(lia)). lia.
Qed.

Lemma ParseUint_format base n bits : 2 <= base <= 36 -> 0 <= bits -> 0 <= n < 2 ^ bits ->
  ParseUint (formatUint base n) base bits = Ret n.
Proof.
  intros Hb Hbits Hn. unfold ParseUint. destruct (formatUint_last base n Hb ltac:(lia)) as (s & c & E & _).
  destruct (formatUint base n) eqn:E2; [by destruct s|]. rewrite <- E2. rewrite Z.shiftl_1_l. apply parseDigits_digits; [done|lia|].
  rewrite Nat2Z.inj_succ, Z2Nat.id by apply Z.log2_nonneg. destruct (decide (n = 0)) as [->|]; [by apply Z.pow_pos_nonneg; [|pose proof (Z.log2_nonneg 0); lia]|].
  by apply Z.log2_spec; lia.
Qed.

(** Printed numbers hold no white space, colon, newline or zero byte. *)
Definition plain (c : Z) : Prop := is_digit c \/ c = 45.
Lemma formatInt_plain base n : 2 <= base <= 36 -> Forall plain (formatInt base n).
Proof.
  intros Hb. assert (H : forall k, 0 <= k -> Forall plain (formatUint base k)).
  { intros k Hk. eapply Forall_impl; [by apply formatUint_digits|]. by left. }
  unfold formatInt. destruct (Z.ltb_spec n 0); [|by apply H]. apply Forall_cons. split; [by right|]. apply H. lia.
Qed.
Lemma formatUint_plain base n : 2 <= base <= 36 -> 0 <= n -> Forall plain (formatUint base n).
Proof. intros. eapply Forall_impl; [by apply formatUint_digits|]. by left. Qed.

Lemma formatInt_last base n : 2 <= base <= 36 -> exists s c, formatInt base n = s ++ [c] /\ is_digit c.
Proof.
  intros Hb. unfold formatInt. destruct (Z.ltb_spec n 0).
  - destruct (formatUint_last base (- n) Hb ltac:(lia)) as (s & c & -> & Hc). by exists (45 :: s), c.
  - by apply formatUint_last.
Qed.

Lemma ParseInt_format n bits : 1 <= bits -> - 2 ^ (bits - 1) <= n < 2 ^ (bits - 1) ->
  ParseInt (formatInt 10 n) 10 bits = Ret n.
Proof.
  intros Hbits Hn. assert (H2 : 2 ^ bits = 2 * 2 ^ (bits - 1)) by (rewrite <- Z.pow_succ_r by lia; f_equal; lia).
  unfold ParseInt, formatInt. rewrite Z.shiftl_1_l. destruct (Z.ltb_spec n 0).
  - cbn [Z.eqb Pos.eqb orb negb andb]. rewrite ParseUint_format, bind_ret by lia.
    rewrite (proj2 (Z.ltb_ge _ _)) by lia. f_equal. lia.
  - pose proof (formatUint_digits 10 n ltac:(lia) ltac:(lia)) as Hd. pose proof (ParseUint_format 10 n bits ltac:(lia) ltac:(lia) ltac:(lia)) as Hp.
    destruct (formatUint 10 n) as [|c r]; [done|]. apply Forall_cons in Hd as [Hc _]. unfold is_digit in Hc.
    rewrite (proj2 (Z.eqb_neq c 43)), (proj2 (Z.eqb_neq c 45)) by lia. cbn [orb]. rewrite Hp, bind_ret. cbn [negb andb].
    by rewrite (proj2 (Z.leb_gt _ _)) by lia.
Qed.

(** ** Text *)

Lemma trimLeft_stop (p : Z -> bool) t c s : Forall (fun x => p x = true) t -> p c = false -> trimLeft p (t ++ c :: s) = c :: s.
Proof. intros Ht Hc. induction Ht as [|x t Hx _ IH]; cbn; [by rewrite Hc|by rewrite Hx]. Qed.
Lemma trimRight_stop (p : Z -> bool) s c t : Forall (fun x => p x = true) t -> p c = false -> trimRight p (s ++ [c] ++ t) = s ++ [c].
Proof.
  intros Ht Hc. unfold trimRight. rewrite !rev_app_distr. cbn [rev app]. rewrite <- app_assoc. cbn [app].
  rewrite trimLeft_stop; [|by apply Forall_rev|done]. cbn [rev]. by rewrite rev_involutive.
Qed.

(** No trimming without white space at the ends. *)
Lemma TrimSpace_id s c d t : isSpace c = false -> isSpace d = false -> c :: s = t ++ [d] -> TrimSpace (c :: s) = c :: s.
Proof.
  intros Hc Hd E. unfold TrimSpace. cbn [trimLeft]. rewrite Hc, E. rewrite <- (app_nil_r (t ++ [d])) at 1.
  rewrite <- app_assoc. apply trimRight_stop; [constructor|done].
Qed.

Lemma plain_facts c : plain c -> isSpace c = false /\ c <> 10 /\ c <> 58 /\ c <> 0.
Proof.
  intros H. assert (48 <= c <= 57 \/ 97 <= c <= 122 \/ c = 45) as Hc by (unfold plain, is_digit in H; tauto).
  split; [|lia]. unfold isSpace. rewrite (proj2 (Z.leb_gt c 13)), (proj2 (Z.eqb_neq c 32)), andb_false_r by lia. done.
Qed.

Lemma TrimSpace_plain s : Forall plain s -> TrimSpace s = s.
Proof.
  intros H. destruct s as [|c s]; [done|]. destruct (exists_last (l := c :: s) ltac:(done)) as (t & d & E).
  apply (TrimSpace_id s c d t); [..|done].
  - apply Forall_cons in H as [H _]. by apply plain_facts.
  - rewrite E in H. apply Forall_app in H as [_ H]. apply Forall_cons in H as [H _]. by apply plain_facts.
Qed.

Lemma cut_here sep s t : Forall (fun c => c <> sep) s -> cut sep (s ++ sep :: t) = Some (s, t).
Proof.
  intros H. induction H as [|c s Hc _ IH]; cbn; [by rewrite Z.eqb_refl|]. by rewrite (proj2 (Z.eqb_neq _ _)), IH.
Qed.
Lemma cut_none sep s : Forall (fun c => c <> sep) s -> cut sep s = None.
Proof. intros H. induction H as [|c s Hc _ IH]; cbn; [done|]. by rewrite (proj2 (Z.eqb_neq _ _)), IH. Qed.

(** Lines separated by newlines. *)
Fixpoint joinLines (ls : list bytes) : bytes :=
  match ls with [] => [] | [l] => l | l :: ls => l ++ 10 :: joinLines ls end.

Lemma split_joinLines ls fuel : ls <> [] -> Forall (Forall (fun c => c <> 10)) ls -> (length ls <= S fuel)%nat ->
  split fuel 10 (joinLines ls) = ls.
Proof.
  revert fuel. induction ls as [|l ls IH]; intros fuel Hne Hls Hf; [done|]. apply Forall_cons in Hls as [Hl Hls].
  destruct ls as [|l2 ls]; cbn [joinLines].
  - destruct fuel; [done|]. cbn [split]. by rewrite cut_none.
  - destruct fuel as [|fuel]; [cbn in Hf; lia|]. cbn [split]. rewrite cut_here by done. f_equal. apply IH; [done|done|]. cbn in *. lia.
Qed.

Lemma joinLines_length ls : (length ls <= S (length (joinLines ls)))%nat.
Proof.
  induction ls as [|l [|l2 ls] IH]; [cbn; lia..|]. change (joinLines (l :: l2 :: ls)) with (l ++ 10 :: joinLines (l2 :: ls)).
  rewrite length_app. cbn [length] in *. lia.
Qed.

(** A line of the header without its newline. *)
Definition entry (kv : string * bytes) : bytes := str kv.1 ++ 58 :: kv.2.

Definition key_ok (k : string) : Prop := TrimSpace (str k) = str k /\ Forall (fun c => c <> 58 /\ c <> 10) (str k) /\ str k <> [].

Lemma parseLines_entries kvs m : Forall (fun kv => key_ok kv.1 /\ Forall plain kv.2) kvs ->
  parseLines (entry <$> kvs) m = Ret (foldl (fun m kv => <[str kv.1 := kv.2]> m) m kvs).
Proof.
  intros H. revert m. induction H as [|[k v] kvs [(Ht & Hk & Hne) Hv] _ IH]; intros m; [done|]. cbn [fmap list_fmap parseLines foldl fst snd] in *.
  unfold entry. cbn [fst snd]. destruct (str k ++ 58 :: v) eqn:E; [by destruct (str k)|]. rewrite <- E.
  rewrite cut_here by (eapply Forall_impl; [exact Hk|by intros x []]). by rewrite Ht, TrimSpace_plain.
Qed.

(** ** The header *)

Definition header_fields (h : ChunkHeader) : list (string * bytes) :=
  [("id"%string, formatUint 10 (ID h)); ("rootPagePos"%string, formatUint 16 (RootPagePos h));
   ("pageCount"%string, formatInt 10 (PageCount h)); ("sumOfPageLength"%string, formatInt 10 (SumOfPageLength h));
   ("sumOfLivePageLength"%string, formatInt 10 (SumOfLivePageLength h));
   ("pagePositionAndLengthOffset"%string, formatInt 10 (PagePositionAndLengthOffset h));
   ("blockSize"%string, formatInt 10 (BlockSize h)); ("format"%string, formatInt 10 (FormatVersion h));
   ("removedPageOffset"%string, formatInt 10 (RemovedPageOffset h)); ("removedPageCount"%string, formatInt 10 (RemovedPageCount h));
   ("lastTransactionId"%string, formatInt 10 (LastTransactionID h)); ("mapSize"%string, formatInt 10 (MapSize h))].

Definition is_i32 (z : Z) : Prop := - 2 ^ 31 <= z < 2 ^ 31.
Record header_ok (h : ChunkHeader) : Prop := {
  ho_id : is_u32 (ID h);
  ho_root : is_u64 (RootPagePos h);
  ho_i32 : Forall is_i32 [PageCount h; FormatVersion h; RemovedPageCount h];
  ho_i64 : Forall is_i64 [SumOfPageLength h; SumOfLivePageLength h; PagePositionAndLengthOffset h; RemovedPageOffset h; LastTransactionID h; MapSize h];
  ho_block : BlockSize h = ChunkBlockSize }.

Lemma encode_entries h : encode h = joinLines (entry <$> header_fields h) ++ [10].
Proof.
  unfold encode, line, entry, header_fields. cbn [fmap list_fmap fst snd joinLines].
  by repeat (rewrite <- app_assoc; cbn [app]).
Qed.

Lemma header_fields_ok h : header_ok h -> Forall (fun kv => key_ok kv.1 /\ Forall plain kv.2) (header_fields h).
Proof.
  intros [H1 H2 _ _ _]. unfold is_u32, is_u64 in *. unfold header_fields. repeat (apply Forall_cons; split).
  all: cbn [fst snd]; try (split; [split; [vm_compute; reflexivity|]; split; [|done]; repeat (apply Forall_cons; split; [split; discriminate|]); constructor|]).
  all: first [apply formatUint_plain; lia | apply formatInt_plain; lia | constructor].
Qed.

(** The header text ends with a digit and a newline. *)
Lemma encode_last h : exists s c, joinLines (entry <$> header_fields h) = s ++ [c] /\ is_digit c.
Proof.
  destruct (formatInt_last 10 (MapSize h) ltac:(lia)) as (s & c & E & Hc). unfold header_fields, entry. cbn [fmap list_fmap fst snd joinLines].
  rewrite E. eexists _, c. split; [|done]. repeat (rewrite ?app_assoc; rewrite ?app_comm_cons). reflexivity.
Qed.

Lemma parseHeader_encode h n : header_ok h ->
  parseHeader (encode h ++ zeros n) = Ret (foldl (fun m kv => <[str kv.1 := kv.2]> m) ∅ (header_fields h)).
Proof.
  intros H. pose proof (header_fields_ok h H) as Hf. destruct (encode_last h) as (s & c & Es & Hc). rewrite encode_entries.
  unfold parseHeader. rewrite <- app_assoc, trimRight_stop; [|apply Forall_forall; intros x Hx; apply elem_of_replicate in Hx as [-> _]; done|done].
  assert (Htrim : TrimSpace (joinLines (entry <$> header_fields h) ++ [10]) = joinLines (entry <$> header_fields h)).
  { rewrite Es, <- app_assoc. assert (Hfirst : exists r, s ++ [c] ++ [10] = 105 :: r) by (rewrite app_assoc, <- Es; by eexists).
    destruct Hfirst as [r Er]. unfold TrimSpace. rewrite Er at 1. cbn [trimLeft]. change (isSpace 105) with false. rewrite <- Er.
    apply trimRight_stop; [by repeat constructor|]. apply plain_facts. by left. }
  rewrite Htrim. rewrite split_joinLines; [by apply parseLines_entries|done| |].
  - apply Forall_fmap. eapply Forall_impl; [exact Hf|]. intros [k v] [(_ & Hk & _) Hv]. unfold compose, entry. cbn [fst snd] in *.
    apply Forall_app. split; [eapply Forall_impl; [exact Hk|by intros x []]|]. apply Forall_cons. split; [done|].
    eapply Forall_impl; [exact Hv|]. intros x Hx. by apply plain_facts in Hx as (_ & ? & _).
  - apply joinLines_length.
Qed.

Lemma parseUint32_format n : is_u32 n -> parseUint32 (formatUint 10 n) = Ret n.
Proof. unfold is_u32. intros. unfold parseUint32. by rewrite ParseUint_format by lia. Qed.
Lemma parseHexUint64_format n : is_u64 n -> parseHexUint64 (formatUint 16 n) = Ret n.
Proof. unfold is_u64. intros. unfold parseHexUint64. by rewrite ParseUint_format by lia. Qed.
Lemma parseInt32_format n : is_i32 n -> parseInt32 (formatInt 10 n) = Ret n.
Proof. unfold is_i32. intros. unfold parseInt32. by rewrite ParseInt_format by lia. Qed.
Lemma parseInt64_format n : is_i64 n -> parseInt64 (formatInt 10 n) = Ret n.
Proof. unfold is_i64. intros. unfold parseInt64. by rewrite ParseInt_format by lia. Qed.

Lemma str_inj a b : str a = str b -> a = b.
Proof.
  revert b. induction a as [|x a IH]; intros [|y b] E; try done. cbn in E. injection E as Ex E. f_equal; [|by apply IH].
  assert (Ascii.nat_of_ascii x = Ascii.nat_of_ascii y) as Exy by lia.
  rewrite <- (Ascii.ascii_nat_embedding x), <- (Ascii.ascii_nat_embedding y). by rewrite Exy.
Qed.

Lemma parseField_hit m k v fn : parseField (<[str k := v]> m) k fn = fn v.
Proof. unfold parseField. by rewrite lookup_insert_eq. Qed.
Lemma parseField_skip m k k' v fn : k <> k' -> parseField (<[str k := v]> m) k' fn = parseField m k' fn.
Proof. intros Hk. unfold parseField. rewrite lookup_insert_ne; [done|]. by intros E%str_inj. Qed.

Lemma header_decodes h n : header_ok h -> decodeHeader (encode h ++ zeros n) = Ret h.
Proof.
  intros H.
  unfold decodeHeader. rewrite parseHeader_encode, bind_ret by done. destruct H as [H1 H2 H3 H4 H5].
  unfold header_fields. cbn [foldl fst snd].
  repeat (rewrite parseField_hit || rewrite parseField_skip by discriminate).
  rewrite parseUint32_format, parseHexUint64_format, !bind_ret by done.
  repeat match goal with H : Forall _ (_ :: _) |- _ => apply Forall_cons in H as [? H] end.
  rewrite !parseInt32_format, !parseInt64_format, !bind_ret by (done || (rewrite H5; unfold is_i32, ChunkBlockSize; lia)).
  rewrite H5, Z.eqb_refl. cbn [negb]. rewrite <- H5. by destruct h.
Qed.

(** The header text fits a block. *)
Lemma digits_length fuel base n : (length (digits fuel base n) <= fuel)%nat.
Proof.
  revert n. induction fuel as [|fuel IH]; intros n; cbn [digits]; [cbn; lia|]. rewrite length_app. cbn [length].
  destruct (n <? base); cbn [length]; [lia|]. specialize (IH (n / base)). lia.
Qed.
Lemma formatUint_length base n : 0 <= n < 2 ^ 64 -> zlen (formatUint base n) <= 64.
Proof.
  intros Hn. unfold formatUint, zlen. pose proof (digits_length (S (Z.to_nat (Z.log2 n))) base n) as H.
  assert (Z.log2 n < 64); [|pose proof (Z.log2_nonneg n); lia].
  destruct (decide (n = 0)) as [->|]; [cbn; lia|]. apply Z.log2_lt_pow2; lia.
Qed.
Lemma formatInt_length n : is_i64 n -> zlen (formatInt 10 n) <= 65.
Proof.
  unfold is_i64, formatInt. intros Hn. destruct (Z.ltb_spec n 0).
  - rewrite zlen_cons. pose proof (formatUint_length 10 (- n) ltac:(lia)). lia.
  - pose proof (formatUint_length 10 n ltac:(lia)). lia.
Qed.

Lemma encode_length h : header_ok h -> zlen (encode h) <= ChunkBlockSize.
Proof.
  intros [H1 H2 H3 H4 H5]. repeat match goal with H : Forall _ (_ :: _) |- _ => apply Forall_cons in H as [? H] end.
  assert (Hi : forall z, is_i32 z -> is_i64 z) by (unfold is_i32, is_i64; lia).
  unfold encode, line. rewrite H5. autorewrite with zlen_db. unfold is_u32, is_u64 in *.
  repeat match goal with |- context[zlen (formatInt 10 ?n)] =>
    let K := fresh in assert (K : zlen (formatInt 10 n) <= 65) by (apply formatInt_length; first [assumption | apply Hi; assumption | unfold is_i64; vm_compute; split; congruence]);
    revert K; generalize (zlen (formatInt 10 n)); intros ? K end.
  pose proof (formatUint_length 10 (ID h) ltac:(lia)). pose proof (formatUint_length 16 (RootPagePos h) ltac:(lia)).
  repeat match goal with |- context[zlen (str ?k)] => let v := eval vm_compute in (zlen (str k)) in change (zlen (str k)) with v end.
  unfold ChunkBlockSize. cbn [length]. lia.
Qed.

(** A chunk header is read back from its text, also when it is padded with
    zero bytes to a block; the text never outgrows the block. *)
Theorem header_roundtrip h n (H : header_ok h) : decodeHeader (encode h ++ zeros n) = Ret h /\ zlen (encode h) <= ChunkBlockSize.
Proof. split; [by apply header_decodes|by apply encode_length]. Qed.

(** ** The theorems at concrete inputs *)

Lemma position_roundtrip_witness : EncodeChunkPosition 5 8192 1 = Ret 1374390059010 /\
  is_u64 1374390059010 /\ ChunkID 1374390059010 = 5 /\ FileOffset 1374390059010 = 8192 /\ PageType 1374390059010 = 1 /\
  (IsZero 1374390059010 = true <-> 5 = 0 /\ 8192 = 0 /\ 1 = 0).
Proof. split; [reflexivity|]. apply (position_roundtrip 5 8192 1); [unfold is_u32; lia|lia|lia|reflexivity]. Defined.

Lemma empty_page_ok : bytes_ok (load ∅ 0 56).
Proof. change (bytes_ok (zeros 56)). apply zeros_ok. Qed.

Lemma page_roundtrip_witness : exists data m2, Serialize (Some 0) 56 ∅ = Ret data /\ zlen data = CRCSize + 56 /\
  Deserialize data (Some 4096) ∅ = (m2, Ret 56) /\ load m2 4096 56 = load ∅ 0 56 /\
  forall a, a < 4096 \/ 4096 + 56 <= a -> byteAt m2 a = byteAt ∅ a.
Proof.
  apply (page_roundtrip ∅ 0 56 ∅ 4096); [vm_compute; split; discriminate|exact empty_page_ok|left; reflexivity].
Defined.

Definition empty_frame : bytes := frame (zeros 56).
Lemma page_corruption_detected_witness :
  Deserialize (take 10 empty_frame ++ 7 :: drop 11 empty_frame) (Some 0) ∅ = (∅, Fail (Sentinel ErrChunkCRCMismatch)).
Proof.
  apply (page_corruption_detected ∅ 0 56 (take 10 empty_frame) 0 (drop 11 empty_frame) 7 ∅ 0).
  - vm_compute. split; discriminate.
  - exact empty_page_ok.
  - vm_compute. reflexivity.
  - unfold is_u8. lia.
  - discriminate.
Defined.

Definition sample_header : ChunkHeader := mkHeader 3 (2 ^ 40 + 255) 2 0 8200 0 4096 1 0 (- 1) (- 7) 0.
Lemma header_roundtrip_witness : decodeHeader (encode sample_header ++ zeros 10) = Ret sample_header /\ zlen (encode sample_header) <= ChunkBlockSize.
Proof.
  apply header_roundtrip. constructor; [unfold is_u32; cbn; lia|unfold is_u64; cbn; lia| | |reflexivity];
    repeat (apply Forall_cons; split; [unfold is_i32, is_i64; cbn; lia|]); constructor.
Defined.
