(* ===== verification/ChunkStore.v ===== *)
(** * The chunk store (chunk/disk_chunk_manager.go, chunk/chunk_file.go)

    Pages live in chunk files btree_<id>_<seq>.ao, appended one after the other
    behind a header of two blocks.  The directory maps the (id, seq) of a name to
    the content of its file; files of other names are left out.  [faults] is the
    oracle of I/O errors, as in LobStore.v.  A [ChunkFile] is an object of [heap],
    known to the manager's list and maps by its address; its open file is the one
    of its name.  Locks are left out: the operations are run one at a time. *)

From stdpp Require Import base list gmap sorting strings.
From Stdlib Require Import ZArith Lia.
From S2P Require Import Prelude WalFormat OffHeap ChunkFormat.

Local Open Scope Z_scope.

Definition ChunkHeaderBlocks : Z := 2.
Definition ChunkHeaderSize : Z := ChunkBlockSize * ChunkHeaderBlocks.
Definition DefaultChunkCapacity : Z := 256 * 1024 * 1024.

Record ChunkFile := mkChunk {
  id : Z;
  seq : Z;
  capacity : Z;
  nextOffset : Z;
  pagePosToLen : gmap Z Z;
  removed : gset Z }.

Record Dir := mkDir {
  dirExists : bool;
  chunkFiles : gmap (Z * Z) bytes;
  faults : list (option nat) }.

Record DiskChunkManager := mkManager {
  dir : Dir;
  chunkSize : Z;
  heap : gmap Z ChunkFile;
  chunks : list Z;
  lastChunk : option Z;
  maxSeq : Z;
  chunkIDs : gmap Z Z;
  idToChunk : gmap Z Z;
  seqToID : gmap Z Z;
  removedPages : gset Z;
  isClosed : bool;
  readOps : Z;
  writeOps : Z }.

Abbreviation cmM := (stM DiskChunkManager).

Definition set_dir (g : Dir -> Dir) (s : DiskChunkManager) : DiskChunkManager :=
  mkManager (g (dir s)) (chunkSize s) (heap s) (chunks s) (lastChunk s) (maxSeq s) (chunkIDs s) (idToChunk s) (seqToID s)
    (removedPages s) (isClosed s) (readOps s) (writeOps s).
Definition set_heap (g : gmap Z ChunkFile -> gmap Z ChunkFile) (s : DiskChunkManager) : DiskChunkManager :=
  mkManager (dir s) (chunkSize s) (g (heap s)) (chunks s) (lastChunk s) (maxSeq s) (chunkIDs s) (idToChunk s) (seqToID s)
    (removedPages s) (isClosed s) (readOps s) (writeOps s).
Definition with_ids (ids : gmap Z Z) (m : Z) (s : DiskChunkManager) : DiskChunkManager :=
  mkManager (dir s) (chunkSize s) (heap s) (chunks s) (lastChunk s) m ids (idToChunk s) (seqToID s)
    (removedPages s) (isClosed s) (readOps s) (writeOps s).
Definition with_removedPages (r : gset Z) (s : DiskChunkManager) : DiskChunkManager :=
  mkManager (dir s) (chunkSize s) (heap s) (chunks s) (lastChunk s) (maxSeq s) (chunkIDs s) (idToChunk s) (seqToID s)
    r (isClosed s) (readOps s) (writeOps s).
Definition with_isClosed (b : bool) (s : DiskChunkManager) : DiskChunkManager :=
  mkManager (dir s) (chunkSize s) (heap s) (chunks s) (lastChunk s) (maxSeq s) (chunkIDs s) (idToChunk s) (seqToID s)
    (removedPages s) b (readOps s) (writeOps s).
Definition with_ops (r w : Z) (s : DiskChunkManager) : DiskChunkManager :=
  mkManager (dir s) (chunkSize s) (heap s) (chunks s) (lastChunk s) (maxSeq s) (chunkIDs s) (idToChunk s) (seqToID s)
    (removedPages s) (isClosed s) r w.

Definition with_faults (l : list (option nat)) (d : Dir) : Dir := mkDir (dirExists d) (chunkFiles d) l.
Definition with_files (m : gmap (Z * Z) bytes) (d : Dir) : Dir := mkDir (dirExists d) m (faults d).

Definition with_nextOffset (n : Z) (c : ChunkFile) : ChunkFile := mkChunk (id c) (seq c) (capacity c) n (pagePosToLen c) (removed c).
Definition with_pages (m : gmap Z Z) (c : ChunkFile) : ChunkFile := mkChunk (id c) (seq c) (capacity c) (nextOffset c) m (removed c).
Definition with_removed (r : gset Z) (c : ChunkFile) : ChunkFile := mkChunk (id c) (seq c) (capacity c) (nextOffset c) (pagePosToLen c) r.

(** ** The file system *)

Definition os_error : gerr := Sentinel OSError.
Definition fileKey (c : ChunkFile) : Z * Z := (id c, seq c).
Definition contentOf (d : Dir) (k : Z * Z) : bytes := default [] (chunkFiles d !! k).

Definition pop_fault : cmM (option nat) := fun s =>
  match faults (dir s) with
  | [] => (s, Ret None)
  | f :: l => (set_dir (with_faults l) s, Ret f)
  end.
Definition os_call {A} (m : cmM A) : cmM A :=
  f ← pop_fault;
  match f with Some _ => failS os_error | None => m end.

Definition MkdirAll : cmM unit :=
  os_call (modifyS (set_dir (fun d => mkDir true (chunkFiles d) (faults d)))).

(** Bytes written at an offset; a gap behind the end is filled with zeros. *)
Definition overwrite (l : bytes) (off : Z) (src : bytes) : bytes :=
  ztake off (l ++ zeros (off - zlen l)) ++ src ++ zdrop (off + zlen src) l.

(** A failing write may leave a prefix. *)
Definition WriteAt (k : Z * Z) (data : bytes) (off : Z) : cmM unit :=
  e ← pop_fault;
  let put d := modifyS (set_dir (fun o => with_files (<[k := overwrite (contentOf o k) off d]> (chunkFiles o)) o)) in
  match e with
  | Some n => _ ← put (take n data); failS os_error
  | None => put data
  end.

Definition ReadAt (k : Z * Z) (n off : Z) : cmM bytes :=
  os_call (
    s ← getS;
    let c := contentOf (dir s) k in
    if off + n <=? zlen c then mret (ztake n (zdrop off c)) else failS os_error).

(** The files of a closed manager are closed. *)
Definition whileOpen {A} (m : cmM A) : cmM A := s ← getS; if isClosed s then failS os_error else m.
Definition FileSync : cmM unit := whileOpen (os_call (mret tt)).
Definition FileClose : cmM unit := os_call (mret tt).

Definition Truncate (k : Z * Z) (n : Z) : cmM unit :=
  os_call (modifyS (set_dir (fun o => with_files (<[k := ztake n (contentOf o k ++ zeros (n - zlen (contentOf o k)))]> (chunkFiles o)) o))).

Definition RemoveFile (k : Z * Z) : cmM unit :=
  os_call (modifyS (set_dir (fun o => with_files (delete k (chunkFiles o)) o))).

Definition ignoreErr {A} (m : cmM A) : cmM unit := fun s =>
  match m s with
  | (s, Ret _) => (s, Ret tt)
  | (s, Fail _) => (s, Ret tt)
  | (s, Panic) => (s, Panic)
  end.

(** [preallocate]; on an error the new file is removed. *)
Definition preallocateOrRemove (k : Z * Z) (cap : Z) : cmM unit := fun s =>
  match Truncate k cap s with
  | (s, Fail e) => (_ ← ignoreErr FileClose; _ ← ignoreErr (RemoveFile k); failS (Wrap e "chunk: preallocate")) s
  | r => r
  end.

(** O_EXCL: true when the file is new. *)
Definition createExcl (k : Z * Z) : cmM bool :=
  os_call (
    s ← getS;
    match chunkFiles (dir s) !! k with
    | Some _ => mret false
    | None => _ ← modifyS (set_dir (fun o => with_files (<[k := []]> (chunkFiles o)) o)); mret true
    end).

Definition openChunkFile (k : Z * Z) (cap : Z) : cmM unit :=
  fresh ← onErr (createExcl k) (fun e => Wrap e "chunk: create file");
  if (fresh : bool) then preallocateOrRemove k cap
  else onErr (os_call (mret tt)) (fun e => Wrap e "chunk: open existing file").

(** ** The set of chunk ids: words of 64 bits; an absent word is 0 *)

Definition wordOf (b : gmap Z Z) (w : Z) : Z := default 0 (b !! w).
Definition bitSet (b : gmap Z Z) (i : Z) : gmap Z Z :=
  <[i / 64 := Z.lor (wordOf b (i / 64)) (Z.shiftl 1 (i mod 64))]> b.
Definition bitClear (b : gmap Z Z) (i : Z) : gmap Z Z :=
  <[i / 64 := Z.ldiff (wordOf b (i / 64)) (Z.shiftl 1 (i mod 64))]> b.
Definition bitTest (b : gmap Z Z) (i : Z) : bool :=
  negb (Z.land (wordOf b (i / 64)) (Z.shiftl 1 (i mod 64)) =? 0).

(** Every id before a clear one lies in a word that is present. *)
Fixpoint nextClearLoop (fuel : nat) (b : gmap Z Z) (i : Z) : outcome Z :=
  if MaxChunkID <? i then Fail (Wrap (Sentinel ErrChunkIDExhausted) "chunk: IDs exhausted")
  else if bitTest b i then
    match fuel with O => Panic | S fuel => nextClearLoop fuel b (i + 1) end
  else Ret i.
Definition nextClearBit (b : gmap Z Z) (start : Z) : outcome Z := nextClearLoop (64 * size b) b start.

(** ** The manager *)

Definition emptyManager (d : Dir) (size : Z) : DiskChunkManager :=
  mkManager d size ∅ [] None 0 ∅ ∅ ∅ ∅ false 0 0.

(** [NewDiskChunkManager], from the directory in the state. *)
Definition NewDiskChunkManager (size : Z) : cmM unit :=
  let size := if size <=? 0 then DefaultChunkCapacity else size in
  if Z.shiftl 1 32 - 1 <? size
  then failS (Wrap (Sentinel ErrChunkFormatError) "chunk: chunkSize exceeds maximum 4GB (FileOffset is uint32)")
  else
    _ ← onErr MkdirAll (fun e => Wrap e "chunk: create dir");
    modifyS (fun s => emptyManager (dir s) size).

Definition updChunk (p : Z) (g : ChunkFile -> ChunkFile) (s : DiskChunkManager) : DiskChunkManager :=
  set_heap (alter g p) s.

(** The chunk at an address; addresses in the manager's tables are valid. *)
Definition getChunk (p : Z) : cmM ChunkFile := fun s =>
  match heap s !! p with Some c => (s, Ret c) | None => (s, Panic) end.

(** The file is opened; on an error the id and the number are given back. *)
Definition openOrRelease (chunkID seq : Z) : cmM unit := fun s =>
  match openChunkFile (chunkID, seq) (chunkSize s) s with
  | (s, Fail e) => (with_ids (bitClear (chunkIDs s) chunkID) (u64 (maxSeq s - 1)) s, Fail e)
  | r => r
  end.

Definition addChunk (c : ChunkFile) (s : DiskChunkManager) : DiskChunkManager :=
  let p := Z.of_nat (size (heap s)) in
  mkManager (dir s) (chunkSize s) (<[p := c]> (heap s)) (chunks s ++ [p]) (Some p) (maxSeq s) (chunkIDs s)
    (<[id c := p]> (idToChunk s)) (<[seq c := id c]> (seqToID s)) (removedPages s) (isClosed s) (readOps s) (writeOps s).

(** The address of the new chunk. *)
Definition createChunk : cmM Z :=
  s ← getS;
  chunkID ← liftS (nextClearBit (chunkIDs s) 0);
  let seq := u64 (maxSeq s + 1) in
  _ ← modifyS (fun s => with_ids (bitSet (chunkIDs s) chunkID) seq s);
  _ ← openOrRelease chunkID seq;
  s ← getS;
  _ ← modifyS (addChunk (mkChunk chunkID seq (chunkSize s) ChunkHeaderSize ∅ ∅));
  mret (Z.of_nat (size (heap s))).

(** The chunk to append to, and the offset. *)
Definition lastOrNew (size : Z) : cmM (Z * Z) :=
  s ← getS;
  let fits := match lastChunk s with
    | Some p => match heap s !! p with
        | Some c => if nextOffset c + size <=? capacity c then Some (p, u32 (nextOffset c)) else None
        | None => None end
    | None => None end in
  match fits with
  | Some r => mret r
  | None => p ← createChunk; mret (p, ChunkHeaderSize)
  end.

Definition Allocate (size pageType : Z) : cmM Z :=
  s ← getS;
  if isClosed s then failS (Sentinel ErrChunkClosed) else
  if (size <? MinDiskPageSize) || (MaxDiskPageSize <? size)
  then failS (Wrap (Sentinel ErrChunkInvalidLength) "chunk: invalid page size") else
  if negb (pageType =? PageTypeIndex) && negb (pageType =? PageTypeLeaf)
  then failS (Wrap (Sentinel ErrChunkFormatError) "chunk: invalid pageType") else
  po ← lastOrNew size;
  let '(p, offset) := po in
  c ← getChunk p;
  pos ← liftS (EncodeChunkPosition (id c) offset pageType);
  _ ← modifyS (updChunk p (with_nextOffset (offset + size)));
  mret pos.

Definition lookupChunk (chunkID : Z) : cmM Z :=
  s ← getS;
  if isClosed s then failS (Sentinel ErrChunkClosed) else
  match idToChunk s !! chunkID with
  | Some p => mret p
  | None => failS (Wrap (Sentinel ErrChunkNotFound) "chunk: chunk not found")
  end.

Definition WritePage (pos : Z) (data : bytes) : cmM unit :=
  p ← lookupChunk (ChunkID pos);
  c ← getChunk p;
  _ ← onErr (WriteAt (fileKey c) data (FileOffset pos)) (fun e => Wrap e "chunk: WritePage");
  _ ← modifyS (fun s => with_ops (readOps s) (i64 (writeOps s + 1)) s);
  modifyS (updChunk p (fun c => with_pages (<[pos := i32 (zlen data)]> (pagePosToLen c)) c)).

Definition ReadPage (pos : Z) : cmM bytes :=
  p ← lookupChunk (ChunkID pos);
  c ← getChunk p;
  match pagePosToLen c !! pos with
  | None => failS (Sentinel ErrChunkPageNotFound)
  | Some n =>
      if n <? 0 then liftS Panic else
      buf ← onErr (ReadAt (fileKey c) n (FileOffset pos)) (fun e => Wrap e "chunk: ReadPage");
      _ ← modifyS (fun s => with_ops (i64 (readOps s + 1)) (writeOps s) s);
      mret buf
  end.

Definition FreePage (pos : Z) : cmM unit :=
  p ← lookupChunk (ChunkID pos);
  c ← getChunk p;
  match pagePosToLen c !! pos with
  | None => failS (Wrap (Sentinel ErrChunkFormatError) "chunk: FreePage: position not allocated")
  | Some _ =>
      _ ← modifyS (updChunk p (fun c => with_removed ({[pos]} ∪ removed c) c));
      modifyS (fun s => with_removedPages ({[pos]} ∪ removedPages s) s)
  end.

Definition RollbackLastBatch : cmM unit := mret tt.

(** The first error ends the loop. *)
Fixpoint syncLoop (ps : list Z) : cmM unit :=
  match ps with
  | [] => mret tt
  | _ :: ps => _ ← onErr FileSync (fun e => Wrap e "chunk: sync chunk"); syncLoop ps
  end.
Definition Sync : cmM unit := s ← getS; syncLoop (chunks s).

Record ChunkManagerStats := mkStats {
  TotalChunks : Z;
  ActiveChunks : Z;
  TotalPages : Z;
  FreePages : Z;
  UsedBytes : Z;
  FreeBytes : Z;
  ReadOps : Z;
  WriteOps : Z }.

Definition sumLens (m : gmap Z Z) : Z := map_fold (fun _ l a => a + l) 0 m.
Definition statsLoop (s : DiskChunkManager) (ps : list Z) : Z * Z * Z * Z :=
  foldl (fun a p => let '(tp, fp, ub, fb) := a in
    match heap s !! p with
    | Some c => (tp + Z.of_nat (size (pagePosToLen c)), fp + Z.of_nat (size (removed c)), ub + sumLens (pagePosToLen c),
                 fb + (capacity c - nextOffset c))
    | None => a end) (0, 0, 0, 0) ps.
Definition GetStats (s : DiskChunkManager) : ChunkManagerStats :=
  let '(tp, fp, ub, fb) := statsLoop s (chunks s) in
  mkStats (Z.of_nat (size (idToChunk s))) (zlen (chunks s)) tp fp ub fb (readOps s) (writeOps s).

(** ** Closing *)

Definition liveLen (c : ChunkFile) : Z :=
  map_fold (fun pos l a => if decide (pos ∈ removed c) then a else a + l) 0 (pagePosToLen c).
Definition finalHeader (c : ChunkFile) : ChunkHeader :=
  mkHeader (id c) 0 (i32 (Z.of_nat (size (pagePosToLen c)))) 0 (liveLen c) 0 ChunkBlockSize 1 0
    (i32 (Z.of_nat (size (removed c)))) 0 0.

Definition writeHeader (c : ChunkFile) (h : ChunkHeader) : cmM unit :=
  let text := encode h in
  if ChunkBlockSize <? zlen text then failS (Wrap (Sentinel ErrChunkHeaderError) "chunk: header text too large") else
  let buf := text ++ zeros (ChunkBlockSize - zlen text) in
  _ ← onErr (WriteAt (fileKey c) buf 0) (fun e => Wrap e "chunk: write header block 1");
  onErr (WriteAt (fileKey c) buf ChunkBlockSize) (fun e => Wrap e "chunk: write header block 2").

(** Keeps the first error. *)
Definition noteErr (m : cmM unit) (firstErr : option gerr) : cmM (option gerr) := fun s =>
  match m s with
  | (s, Ret _) => (s, Ret firstErr)
  | (s, Fail e) => (s, Ret (match firstErr with Some e0 => Some e0 | None => Some e end))
  | (s, Panic) => (s, Panic)
  end.

Fixpoint closeLoop (ps : list Z) (firstErr : option gerr) : cmM (option gerr) :=
  match ps with
  | [] => mret firstErr
  | p :: ps =>
      c ← getChunk p;
      e ← noteErr (writeHeader c (finalHeader c)) firstErr;
      e ← noteErr FileClose e;
      closeLoop ps e
  end.

Definition Close : cmM unit :=
  s ← getS;
  if isClosed s then mret tt else
  _ ← modifyS (with_isClosed true);
  e ← closeLoop (chunks s) None;
  match e with Some e => failS e | None => mret tt end.

(** ** Restoring *)

Definition readHeader (k : Z * Z) : cmM ChunkHeader :=
  buf ← onErr (ReadAt k ChunkHeaderSize 0) (fun e => Wrap e "chunk: read header");
  b0 ← liftS (slice buf 0 ChunkBlockSize);
  b1 ← liftS (slice buf ChunkBlockSize (zlen buf));
  match decodeHeader b0 with
  | Ret h => mret h
  | Panic => liftS Panic
  | Fail _ =>
      match decodeHeader b1 with
      | Ret h => mret h
      | Panic => liftS Panic
      | Fail _ => failS (Wrap (Sentinel ErrChunkInvalidHeader) "chunk: both header blocks corrupted")
      end
  end.

Definition consecutiveMissLimit : Z := 16.

(** A frame that starts a page: its checksum and page type are right. *)
Definition validFrame (buf : bytes) : outcome (option Z) :=
  crc ← slice buf 0 CRCSize;
  body ← slice buf CRCSize (zlen buf);
  pageType ← index buf (CRCSize + field_off hPageType);
  Ret (if negb (le_dec crc =? CRC32C body) || (negb (pageType =? PageTypeIndex) && negb (pageType =? PageTypeLeaf))
       then None else Some pageType).

Fixpoint scanLoop (fuel : nat) (c : ChunkFile) (offset miss : Z) (result : gmap Z Z) : cmM (gmap Z Z) :=
  match fuel with
  | O => mret result
  | S fuel =>
      if capacity c <? offset + MaxDiskPageSize then mret result else fun s =>
      match ReadAt (fileKey c) MaxDiskPageSize offset s with
      | (s, Ret buf) =>
          (v ← liftS (validFrame buf);
           match v with
           | None =>
               if consecutiveMissLimit <? miss + 1 then mret result
               else scanLoop fuel c (offset + MaxDiskPageSize) (miss + 1) result
           | Some pageType =>
               match EncodeChunkPosition (id c) (u32 offset) pageType with
               | Ret pos => scanLoop fuel c (offset + MaxDiskPageSize) 0 (<[pos := MaxDiskPageSize]> result)
               | _ => scanLoop fuel c (offset + MaxDiskPageSize) 0 result
               end
           end) s
      | (s, Fail _) => (s, Ret result)
      | (s, Panic) => (s, Panic)
      end
  end.
Definition scanPageFrames (c : ChunkFile) : cmM (gmap Z Z) :=
  scanLoop (S (Z.to_nat (capacity c / MaxDiskPageSize))) c ChunkHeaderSize 0 ∅.

(** One name of the directory listing: files of length 0 are removed, and of the
    files of one id all but the one with the highest number. *)
Definition addEntry (bestByID : gmap Z Z) (e : (Z * Z) * bytes) : cmM (gmap Z Z) :=
  let '((cid, s), content) := e in
  if zlen content =? 0 then _ ← ignoreErr (RemoveFile (cid, s)); mret bestByID else
  match bestByID !! cid with
  | Some existing =>
      if existing <? s then _ ← ignoreErr (RemoveFile (cid, existing)); mret (<[cid := s]> bestByID)
      else _ ← ignoreErr (RemoveFile (cid, s)); mret bestByID
  | None => mret (<[cid := s]> bestByID)
  end.
Fixpoint addEntries (es : list ((Z * Z) * bytes)) (bestByID : gmap Z Z) : cmM (gmap Z Z) :=
  match es with [] => mret bestByID | e :: es => b ← addEntry bestByID e; addEntries es b end.

Definition seq_le (a b : Z * Z) : Prop := a.2 <= b.2.
#[export] Instance seq_le_dec a b : Decision (seq_le a b) := decide (a.2 <= b.2).

(** Ascending numbers; equal ones in any order. *)
Definition sortedFiles (bestByID : gmap Z Z) : list (Z * Z) := merge_sort seq_le (map_to_list bestByID).

(** Open and check one file; [None]: it is skipped. *)
Definition restoreChunk (k : Z * Z) : cmM (option ChunkFile) := fun s =>
  match (_ ← os_call (mret tt); os_call (mret tt)) s with
  | (s, Ret _) =>
      let c := mkChunk k.1 k.2 (zlen (contentOf (dir s) k)) ChunkHeaderSize ∅ ∅ in
      match readHeader k s with
      | (s, Ret _) =>
          (pageLens ← scanPageFrames c;
           mret (Some (if 0 <? Z.of_nat (size pageLens)
             then with_nextOffset (ChunkHeaderSize + Z.of_nat (size pageLens) * MaxDiskPageSize) (with_pages pageLens c)
             else c))) s
      | (s, Fail _) => (_ ← ignoreErr FileClose; mret None) s
      | (s, Panic) => (s, Panic)
      end
  | (s, Fail _) => (s, Ret None)
  | (s, Panic) => (s, Panic)
  end.

Definition adopt (c : ChunkFile) (s : DiskChunkManager) : DiskChunkManager :=
  let s := addChunk c s in with_ids (bitSet (chunkIDs s) (id c)) (maxSeq s) s.

Fixpoint restoreLoop (ks : list (Z * Z)) : cmM unit :=
  match ks with
  | [] => mret tt
  | k :: ks =>
      c ← restoreChunk k;
      _ ← match c with Some c => modifyS (adopt c) | None => mret tt end;
      restoreLoop ks
  end.

(** [RestoreDiskChunkManager], from the directory in the state. *)
Definition RestoreDiskChunkManager (size : Z) : cmM unit :=
  s ← getS;
  if negb (dirExists (dir s)) then NewDiskChunkManager size else
  entries ← onErr (os_call (s ← getS; mret (map_to_list (chunkFiles (dir s))))) (fun e => Wrap e "chunk: restore: read dir");
  bestByID ← addEntries entries ∅;
  match last (sortedFiles bestByID) with
  | None => NewDiskChunkManager size
  | Some (_, top) =>
      let size := if size <=? 0 then DefaultChunkCapacity else size in
      _ ← modifyS (fun s => with_ids ∅ top (emptyManager (dir s) size));
      _ ← restoreLoop (sortedFiles bestByID);
      s ← getS;
      match chunks s with [] => NewDiskChunkManager size | _ => mret tt end
  end.

(** ** Compaction (chunk_compactor.go) *)

Definition maxRewriteSize : Z := 64 * 1024 * 1024.
Definition NewChunkCompactor (minFillRate : Z) : Z :=
  let r := if minFillRate <=? 0 then 30 else minFillRate in if 50 <? r then 50 else r.

(** The fill rate, from 1 for empty to 99 for full, and the live size. *)
Definition getFillRate (c : ChunkFile) : Z * Z :=
  if sumLens (pagePosToLen c) =? 0 then (1, 0)
  else (1 + Z.quot (98 * liveLen c) (sumLens (pagePosToLen c)), liveLen c).

(** The chunks but the last one. *)
Definition coldChunks (s : DiskChunkManager) : list (Z * ChunkFile) :=
  omap (fun p => if decide (lastChunk s = Some p) then None else c ← heap s !! p; Some (p, c)) (chunks s).

Definition NeedCompaction (minFillRate : Z) (s : DiskChunkManager) : bool :=
  existsb (fun pc => (getFillRate pc.2).1 <=? minFillRate) (coldChunks s).

(** Rewritable chunks by fill rate, then live size. *)
Definition cand_le (a b : Z * ChunkFile) : Prop :=
  (getFillRate a.2).1 < (getFillRate b.2).1 \/ (getFillRate a.2).1 = (getFillRate b.2).1 /\ (getFillRate a.2).2 <= (getFillRate b.2).2.
#[export] Instance cand_le_dec a b : Decision (cand_le a b).
Proof. unfold cand_le. solve_decision. Defined.

Fixpoint selectLoop (cands : list (Z * ChunkFile)) (cumulative : Z) : list (Z * ChunkFile) :=
  match cands with
  | [] => []
  | c :: cands =>
      if maxRewriteSize <? cumulative + (getFillRate c.2).2 then []
      else c :: selectLoop cands (cumulative + (getFillRate c.2).2)
  end.

Definition unusedChunks (s : DiskChunkManager) : list (Z * ChunkFile) :=
  filter (fun pc => (getFillRate pc.2).1 = 1) (coldChunks s).
Definition candidates (minFillRate : Z) (s : DiskChunkManager) : list (Z * ChunkFile) :=
  merge_sort cand_le (filter (fun pc => (getFillRate pc.2).1 <> 1 /\ (getFillRate pc.2).1 <= minFillRate) (coldChunks s)).
Definition selected (minFillRate : Z) (s : DiskChunkManager) : list (Z * ChunkFile) :=
  selectLoop (candidates minFillRate s) 0 ++ unusedChunks s.

(** Live pages are copied to the end of the store. *)
Fixpoint rewritePages (c : ChunkFile) (pages : list (Z * Z)) : cmM unit :=
  match pages with
  | [] => mret tt
  | (pos, n) :: pages =>
      if n <? 0 then liftS Panic else
      data ← onErr (whileOpen (ReadAt (fileKey c) n (FileOffset pos))) (fun e => Wrap e "chunk: compact: read page");
      newPos ← onErr (Allocate n (PageType pos)) (fun e => Wrap e "chunk: compact: allocate");
      _ ← onErr (WritePage newPos data) (fun e => Wrap e "chunk: compact: write page");
      rewritePages c pages
  end.
Definition livePages (c : ChunkFile) : list (Z * Z) :=
  filter (fun pl => pl.1 ∉ removed c) (map_to_list (pagePosToLen c)).

Fixpoint rewriteChunks (ps : list (Z * ChunkFile)) : cmM unit :=
  match ps with
  | [] => mret tt
  | (p, _) :: ps => c ← getChunk p; _ ← rewritePages c (livePages c); rewriteChunks ps
  end.

(** The chunk leaves the tables; its file is renamed, closed and removed. *)
Definition forget (p : Z) (c : ChunkFile) (s : DiskChunkManager) : DiskChunkManager :=
  mkManager (dir s) (chunkSize s) (heap s) (filter (fun q => q <> p) (chunks s)) (lastChunk s) (maxSeq s)
    (bitClear (chunkIDs s) (id c)) (delete (id c) (idToChunk s)) (delete (seq c) (seqToID s))
    (removedPages s ∖ removed c) (isClosed s) (readOps s) (writeOps s).
Definition removeChunkFile (k : Z * Z) : cmM unit :=
  ignoreErr (_ ← RemoveFile k; _ ← ignoreErr FileClose; ignoreErr (os_call (mret tt))).
Fixpoint deleteChunks (ps : list (Z * ChunkFile)) : cmM unit :=
  match ps with
  | [] => mret tt
  | (p, _) :: ps =>
      c ← getChunk p;
      _ ← modifyS (forget p c);
      _ ← removeChunkFile (fileKey c);
      deleteChunks ps
  end.

Definition Compact (minFillRate : Z) : cmM unit :=
  s ← getS;
  if bool_decide (unusedChunks s = []) && bool_decide (candidates minFillRate s = []) then mret tt else
  let sel := selected minFillRate s in
  _ ← rewriteChunks sel;
  _ ← onErr Sync (fun e => Wrap e "chunk: compact: sync");
  deleteChunks sel.

(** ** Lemmas on files and ids *)

Lemma zlen_overwrite l off src : 0 <= off -> zlen (overwrite l off src) = Z.max (zlen l) (off + zlen src).
Proof.
  intros Ho. unfold overwrite. rewrite !zlen_app, zlen_ztake_min, zlen_app, zlen_zeros_max, zlen_zdrop_max.
  pose proof (zlen_nonneg l). pose proof (zlen_nonneg src). lia.
Qed.

Lemma ztake_ztake {A} a b (l : list A) : ztake a (ztake b l) = ztake (Z.min a b) l.
Proof. unfold ztake. rewrite take_take. f_equal. lia. Qed.
Lemma ztake_app_le {A} a (l k : list A) : a <= zlen l -> ztake a (l ++ k) = ztake a l.
Proof. intros Ha. unfold ztake. apply take_app_le. unfold zlen in Ha. lia. Qed.
Lemma zdrop_app_le {A} a (l k : list A) : a <= zlen l -> zdrop a (l ++ k) = zdrop a l ++ k.
Proof. intros Ha. unfold zdrop. apply drop_app_le. unfold zlen in Ha. lia. Qed.
Lemma zdrop_ztake {A} a n (l : list A) : 0 <= a -> 0 <= n -> ztake n (zdrop a l) = zdrop a (ztake (a + n) l).
Proof. intros. unfold ztake, zdrop. rewrite skipn_firstn_comm. f_equal. lia. Qed.

(** What lies before a write is kept, as far as the file reached. *)
Lemma overwrite_before l off src a n : 0 <= a -> 0 <= n -> a + n <= off -> a + n <= zlen l ->
  ztake n (zdrop a (overwrite l off src)) = ztake n (zdrop a l).
Proof.
  intros Ha Hn Ho Hl. rewrite !zdrop_ztake by done. f_equal. unfold overwrite.
  pose proof (zlen_nonneg l). rewrite ztake_app_le.
  - rewrite ztake_ztake, Z.min_l by lia. by apply ztake_app_le.
  - rewrite zlen_ztake_min, zlen_app, zlen_zeros_max. lia.
Qed.
Lemma overwrite_here l off src : 0 <= off -> ztake (zlen src) (zdrop off (overwrite l off src)) = src.
Proof.
  intros Ho. unfold overwrite. rewrite zdrop_app_exact.
  - by apply ztake_app_exact.
  - rewrite zlen_ztake_min, zlen_app, zlen_zeros_max. pose proof (zlen_nonneg l). lia.
Qed.

(** Bits of a word. *)
Lemma shift_bit i j : 0 <= i -> 0 <= j -> Z.testbit (Z.shiftl 1 i) j = (i =? j).
Proof. intros. rewrite Z.shiftl_1_l. by rewrite Z.pow2_bits_eqb. Qed.
Lemma bitTest_spec b i : 0 <= i -> bitTest b i = Z.testbit (wordOf b (i / 64)) (i mod 64).
Proof.
  intros Hi. pose proof (Z.mod_pos_bound i 64 ltac:(lia)) as Hm. unfold bitTest.
  destruct (Z.testbit (wordOf b (i / 64)) (i mod 64)) eqn:E.
  - apply negb_true_iff, Z.eqb_neq. intros Hz. apply (f_equal (fun x => Z.testbit x (i mod 64))) in Hz.
    rewrite Z.land_spec, shift_bit, Z.eqb_refl, E, Z.bits_0 in Hz by lia. done.
  - apply negb_false_iff, Z.eqb_eq. apply Z.bits_inj'. intros k Hk. rewrite Z.land_spec, shift_bit, Z.bits_0 by lia.
    destruct (Z.eqb_spec (i mod 64) k) as [<-|]; [by rewrite E|apply andb_false_r].
Qed.
Lemma divmod_eq i j : 0 <= i -> 0 <= j -> i / 64 = j / 64 -> i mod 64 = j mod 64 -> i = j.
Proof. intros. rewrite (Z.div_mod i 64), (Z.div_mod j 64) by lia. congruence. Qed.

Lemma bitTest_set b i j : 0 <= i -> 0 <= j -> bitTest (bitSet b i) j = (i =? j) || bitTest b j.
Proof.
  intros Hi Hj. rewrite !bitTest_spec by done. unfold bitSet, wordOf. pose proof (Z.mod_pos_bound i 64 ltac:(lia)).
  pose proof (Z.mod_pos_bound j 64 ltac:(lia)). destruct (decide (i / 64 = j / 64)) as [E|E].
  - rewrite E, lookup_insert_eq. cbn [default from_option Datatypes.id]. rewrite Z.lor_spec, shift_bit, orb_comm by lia. f_equal.
    destruct (Z.eqb_spec i j) as [->|Hne]; [apply Z.eqb_refl|]. apply Z.eqb_neq. intros Em. by apply Hne, divmod_eq.
  - rewrite lookup_insert_ne by done. destruct (Z.eqb_spec i j) as [->|]; done.
Qed.
Lemma bitTest_clear b i j : 0 <= i -> 0 <= j -> bitTest (bitClear b i) j = negb (i =? j) && bitTest b j.
Proof.
  intros Hi Hj. rewrite !bitTest_spec by done. unfold bitClear, wordOf. pose proof (Z.mod_pos_bound i 64 ltac:(lia)).
  pose proof (Z.mod_pos_bound j 64 ltac:(lia)). destruct (decide (i / 64 = j / 64)) as [E|E].
  - rewrite E, lookup_insert_eq. cbn [default from_option Datatypes.id]. rewrite Z.ldiff_spec, shift_bit, andb_comm by lia. f_equal. f_equal.
    destruct (Z.eqb_spec i j) as [->|Hne]; [apply Z.eqb_refl|]. apply Z.eqb_neq. intros Em. by apply Hne, divmod_eq.
  - rewrite lookup_insert_ne by done. destruct (Z.eqb_spec i j) as [->|]; [done|]. done.
Qed.
Lemma bitTest_empty i : 0 <= i -> bitTest ∅ i = false.
Proof. intros Hi. rewrite bitTest_spec by done. unfold wordOf. rewrite lookup_empty. apply Z.bits_0. Qed.

(** A set bit lies in a present word. *)
Lemma bitTest_word b i : 0 <= i -> bitTest b i = true -> is_Some (b !! (i / 64)).
Proof.
  intros Hi. rewrite bitTest_spec by done. unfold wordOf. destruct (b !! (i / 64)); [by eexists|]. cbn. by rewrite Z.bits_0.
Qed.

(** Set bits in a row fill words. *)
Lemma words_cover b i : 0 <= i -> (forall j, 0 <= j < i -> bitTest b j = true) -> i <= 64 * Z.of_nat (size b).
Proof.
  intros Hi Hall. destruct (decide (i <= 64 * Z.of_nat (size b))) as [|Hgt]; [done|exfalso].
  set (n := Z.of_nat (size b)) in *. assert (Hsub : list_to_set (seqZ 0 (n + 1)) ⊆ dom b).
  { intros w Hw%elem_of_list_to_set%elem_of_seqZ. apply elem_of_dom. replace w with (w * 64 / 64) by (apply Z.div_mul; lia).
    apply bitTest_word; [lia|]. apply Hall. lia. }
  apply subseteq_size in Hsub. rewrite size_dom, size_list_to_set, length_seqZ in Hsub by apply NoDup_seqZ. lia.
Qed.

Lemma nextClearLoop_ok fuel b i : 0 <= i -> i <= 64 * Z.of_nat (size b) -> (forall j, 0 <= j < i -> bitTest b j = true) ->
  64 * Z.of_nat (size b) - i <= Z.of_nat fuel ->
  match nextClearLoop fuel b i with
  | Ret k => 0 <= k <= MaxChunkID /\ bitTest b k = false
  | Fail _ => forall j, 0 <= j <= MaxChunkID -> bitTest b j = true
  | Panic => False
  end.
Proof.
  revert i. induction fuel as [|fuel IH]; intros i Hi Hle Hall Hf; cbn [nextClearLoop];
    (destruct (Z.ltb_spec MaxChunkID i); [intros j Hj; apply Hall; lia|]);
    destruct (bitTest b i) eqn:Eb; try (split; [lia|done]).
  - assert (i + 1 <= 64 * Z.of_nat (size b)); [|lia]. apply words_cover; [lia|]. intros j Hj. destruct (decide (j = i)) as [->|]; [done|]. apply Hall. lia.
  - assert (Hall' : forall j, 0 <= j < i + 1 -> bitTest b j = true) by (intros j Hj; destruct (decide (j = i)) as [->|]; [done|apply Hall; lia]).
    apply IH; [lia|by apply words_cover; [lia|]|done|lia].
Qed.

(** The search ends, with a clear id or the certainty that there is none. *)
Lemma nextClearBit_ok b : match nextClearBit b 0 with
  | Ret k => 0 <= k <= MaxChunkID /\ bitTest b k = false
  | Fail _ => forall j, 0 <= j <= MaxChunkID -> bitTest b j = true
  | Panic => False end.
Proof. unfold nextClearBit. apply nextClearLoop_ok; lia. Qed.

(** ** The invariant of the store *)

(** Allocating and writing a page, as the checkpoints do. *)
Definition putPage (pageType : Z) (data : bytes) : cmM Z :=
  pos ← Allocate (zlen data) pageType;
  _ ← WritePage pos data;
  mret pos.

(** A chunk in use. *)
Definition chunkAt (s : DiskChunkManager) (cid p : Z) (c : ChunkFile) : Prop :=
  idToChunk s !! cid = Some p /\ heap s !! p = Some c.

Record chunk_ok (cid : Z) (c : ChunkFile) : Prop := {
  co_id : id c = cid;
  co_range : 0 <= cid <= MaxChunkID;
  co_next : ChunkHeaderSize <= nextOffset c;
  co_cap : capacity c < 2 ^ 32 }.

(** Page [pos] holds [d]. *)
Record page_ok (s : DiskChunkManager) (pos : Z) (d : bytes) : Prop := {
  po_pos : is_u64 pos;
  po_len : 0 < zlen d < 2 ^ 31;
  po_at : exists p c l, chunkAt s (ChunkID pos) p c /\ chunkFiles (dir s) !! fileKey c = Some l /\
    pagePosToLen c !! pos = Some (zlen d) /\
    ChunkHeaderSize <= FileOffset pos /\ FileOffset pos + zlen d <= nextOffset c /\
    FileOffset pos + zlen d <= zlen l /\ ztake (zlen d) (zdrop (FileOffset pos) l) = d }.

Record cm_ok (s : DiskChunkManager) (pages : gmap Z bytes) : Prop := {
  cm_open : isClosed s = false;
  cm_size : 0 < chunkSize s < 2 ^ 32;
  cm_chunk : forall cid p, idToChunk s !! cid = Some p -> exists c, heap s !! p = Some c /\ chunk_ok cid c;
  cm_file : forall cid p c, chunkAt s cid p c -> is_Some (chunkFiles (dir s) !! fileKey c);
  cm_last : forall p, lastChunk s = Some p -> exists cid, idToChunk s !! cid = Some p;
  cm_heap : forall p, is_Some (heap s !! p) -> 0 <= p < Z.of_nat (size (heap s));
  cm_ids : forall i, 0 <= i -> bitTest (chunkIDs s) i = true <-> is_Some (idToChunk s !! i);
  cm_pages : forall pos d, pages !! pos = Some d -> page_ok s pos d;
  cm_known : forall cid p c pos, chunkAt s cid p c -> is_Some (pagePosToLen c !! pos) -> is_Some (pages !! pos) }.

(** Every file starts with a blank header area. *)
Definition headerless (d : Dir) : Prop := forall k l, chunkFiles d !! k = Some l -> exists n, ztake ChunkHeaderSize l = zeros n.

(** Only the oracle differs; with no faults ahead it stays so. *)
Definition clean (s : DiskChunkManager) : Prop := faults (dir s) = [].
Definition popped (s s' : DiskChunkManager) : Prop := exists l, s' = set_dir (with_faults l) s /\ (clean s -> clean s').

Lemma wp_pop s (Q : option nat -> DiskChunkManager -> Prop) E :
  (forall e s', popped s s' -> (e <> None -> ~ clean s) -> Q e s') -> wp pop_fault s Q E.
Proof.
  intros H. unfold wp, pop_fault. destruct (faults (dir s)) as [|e l] eqn:Ef.
  - apply H; [|done]. exists []. split; [|done]. destruct s as [[] ? ? ? ? ? ? ? ? ? ? ? ?]. cbn in *. by subst.
  - apply H; [exists l; split; [done|]|intros _]; unfold clean; by rewrite Ef.
Qed.
Lemma wp_os_call {A} (m : cmM A) s Q E :
  (forall s', popped s s' -> wp m s' Q E) -> (forall s', popped s s' -> ~ clean s -> E s') -> wp (os_call m) s Q E.
Proof.
  intros HQ HE. unfold os_call. apply wp_bind. apply wp_pop. intros [e|] s' Hp He; [|by apply HQ].
  unfold wp, failS. apply HE; [done|]. by apply He.
Qed.

(** What no operation touches. *)
Definition steady (s s' : DiskChunkManager) : Prop := clean s -> clean s'.
Lemma popped_ok s s' pages : popped s s' -> cm_ok s pages -> cm_ok s' pages.
Proof.
  intros (l & -> & _) [H1 H2 H3 H4 H5 H6 H7 H8 H9]. constructor; try done. intros pos d Hd. by destruct (H8 _ _ Hd).
Qed.
Lemma popped_dir s s' : popped s s' -> chunkFiles (dir s') = chunkFiles (dir s) /\ dirExists (dir s') = dirExists (dir s).
Proof. by intros (l & -> & _). Qed.

(** The outcome of a call: the pages it leaves, and what it keeps. *)
Definition kept (s s' : DiskChunkManager) : Prop :=
  (clean s -> clean s') /\ (headerless (dir s) -> headerless (dir s')) /\ (forall cid, is_Some (idToChunk s !! cid) -> is_Some (idToChunk s' !! cid)).
#[export] Instance kept_preorder : PreOrder kept.
Proof. split; [by intros s|]. intros s1 s2 s3 (H1 & H2 & H3) (K1 & K2 & K3). split; [auto|]. split; auto. Qed.
Lemma popped_kept s s' : popped s s' -> kept s s'.
Proof. intros (l & -> & H). done. Qed.

Lemma headerless_write d k off src (m := <[k := overwrite (contentOf d k) off src]> (chunkFiles d)) :
  headerless d -> ChunkHeaderSize <= off -> headerless (with_files m d).
Proof.
  intros H Ho j l. cbn. unfold m. destruct (decide (j = k)) as [->|]; [|rewrite lookup_insert_ne by done; apply H].
  rewrite lookup_insert_eq. intros [= <-]. unfold overwrite.
  assert (H0 : exists n, ztake ChunkHeaderSize (contentOf d k) = zeros n).
  { unfold contentOf. destruct (chunkFiles d !! k) as [l|] eqn:E; [by apply (H k)|]. by exists 0. }
  destruct H0 as [n Hn]. unfold ChunkHeaderSize, ChunkBlockSize, ChunkHeaderBlocks in *. set (l := contentOf d k) in *.
  pose proof (zlen_nonneg l). rewrite ztake_app_le by (rewrite zlen_ztake_min, zlen_app, zlen_zeros_max; lia).
  rewrite ztake_ztake, Z.min_l by lia. destruct (decide (4096 * 2 <= zlen l)) as [Hl|Hl].
  - rewrite ztake_app_le by done. by exists n.
  - rewrite ztake_all in Hn by lia. rewrite Hn. exists (4096 * 2).
    rewrite Hn in Hl. unfold zeros, ztake, zlen in *. rewrite length_replicate in *.
    rewrite <- replicate_add, take_replicate. f_equal. lia.
Qed.

(** Only the file [k] and the oracle change. *)
Definition touched (k : Z * Z) (s s' : DiskChunkManager) : Prop :=
  (exists d, s' = set_dir (fun _ => d) s) /\ (forall j, j <> k -> chunkFiles (dir s') !! j = chunkFiles (dir s) !! j) /\
  (headerless (dir s) -> headerless (dir s')) /\ (clean s -> clean s').
#[export] Instance touched_preorder k : PreOrder (touched k).
Proof.
  split.
  - intros s. split; [exists (dir s); by destruct s|done].
  - intros s1 s2 s3 ([d2 ->] & H2 & H3 & H4) ([d3 ->] & K2 & K3 & K4). split; [by exists d3|].
    split; [intros j Hj; by rewrite K2, H2|]. split; auto.
Qed.
Lemma popped_touched k s s' : popped s s' -> touched k s s'.
Proof. intros (l & -> & H). split; [by eexists|done]. Qed.
Lemma touched_kept k s s' : touched k s s' -> kept s s'.
Proof. intros ([d ->] & _ & H3 & H4). done. Qed.

Lemma touched_files k s m : (forall j, j <> k -> m !! j = chunkFiles (dir s) !! j) -> (headerless (dir s) -> headerless (with_files m (dir s))) ->
  touched k s (set_dir (with_files m) s).
Proof. intros Hm Hh. split; [by eexists|done]. Qed.

Definition free_key (s : DiskChunkManager) (k : Z * Z) : Prop := forall cid p c, chunkAt s cid p c -> fileKey c <> k.

Lemma touched_ok k s s' pages : touched k s s' -> free_key s k -> cm_ok s pages -> cm_ok s' pages.
Proof.
  intros ([d ->] & Hd & _) Hk [H1 H2 H3 H4 H5 H6 H7 H8 H9]. cbn in Hd. constructor; try done.
  - intros cid p c Hc. cbn. rewrite Hd by by eapply Hk. by eapply H4.
  - intros pos x Hx. destruct (H8 _ _ Hx) as [Ha Hb (p & c & l & Hc & Hl & Hrest)]. constructor; [done|done|].
    exists p, c, l. split; [done|]. split; [|done]. cbn. rewrite Hd; [done|]. by eapply Hk.
Qed.

Lemma headerless_insert m k l d : headerless (with_files m d) -> (exists n, ztake ChunkHeaderSize l = zeros n) -> headerless (with_files (<[k := l]> m) d).
Proof. intros H Hl j x. cbn. intros [[<- <-]|[Hj Hx]]%lookup_insert_Some; [done|]. by apply (H j). Qed.
Lemma headerless_delete m k d : headerless (with_files m d) -> headerless (with_files (delete k m) d).
Proof. intros H j x. cbn. intros [_ Hx]%lookup_delete_Some. by apply (H j). Qed.

(** Opening a chunk file, new or left over. *)
Lemma ignoreErr_touched {A} (m : cmM A) k s : wp m s (fun _ s' => touched k s s') (fun s' => touched k s s') ->
  exists s', ignoreErr m s = (s', Ret tt) /\ touched k s s'.
Proof. unfold wp, ignoreErr. destruct (m s) as [s' [a|e|]]; [..|done]; intros H; by exists s'. Qed.

Lemma RemoveFile_touched k s : wp (RemoveFile k) s (fun _ s' => touched k s s') (fun s' => touched k s s').
Proof.
  apply wp_os_call.
  - intros s' Hp. apply wp_modify. etrans; [by apply popped_touched|]. apply (touched_files _ s').
    + intros j Hj. by rewrite lookup_delete_ne.
    + apply headerless_delete.
  - intros s' Hp _. by apply popped_touched.
Qed.
Lemma FileClose_touched k s : wp FileClose s (fun _ s' => touched k s s') (fun s' => touched k s s').
Proof. apply wp_os_call; [intros s' Hp; apply wp_ret|intros s' Hp _]; by apply popped_touched. Qed.

Lemma headerless_blank l n : (exists k, ztake ChunkHeaderSize l = zeros k) -> exists k, ztake ChunkHeaderSize (ztake n (l ++ zeros (n - zlen l))) = zeros k.
Proof.
  intros [k Hk]. unfold ChunkHeaderSize, ChunkBlockSize, ChunkHeaderBlocks in *. rewrite ztake_ztake.
  destruct (decide (4096 * 2 <= zlen l)) as [Hl|Hl].
  - rewrite ztake_app_le by lia. assert (ztake (Z.min (4096 * 2) n) l = ztake n (ztake (4096 * 2) l)) as ->.
    { rewrite ztake_ztake. f_equal. lia. }
    rewrite Hk. unfold ztake, zeros. rewrite take_replicate. exists (Z.of_nat (Z.to_nat n `min` Z.to_nat k)). f_equal. lia.
  - rewrite ztake_all in Hk by lia. rewrite Hk. unfold ztake, zeros. rewrite <- replicate_add, take_replicate.
    match goal with |- exists k, replicate ?x 0 = _ => exists (Z.of_nat x) end. by rewrite Nat2Z.id.
Qed.

Lemma preallocate_ok k cap s : chunkFiles (dir s) !! k <> None ->
  wp (preallocateOrRemove k cap) s (fun _ s' => touched k s s' /\ is_Some (chunkFiles (dir s') !! k)) (fun s' => touched k s s' /\ ~ clean s).
Proof.
  intros Hk. assert (Ht : wp (Truncate k cap) s (fun _ s' => touched k s s' /\ is_Some (chunkFiles (dir s') !! k)) (fun s' => touched k s s' /\ ~ clean s)).
  { apply wp_os_call; [|intros s' Hp Hc; split; [by apply popped_touched|done]].
    intros s' Hp. apply wp_modify. split; [|cbn; rewrite lookup_insert_eq; by eexists].
    etrans; [by apply popped_touched|]. split; [by eexists|]. split; [intros j Hj; cbn; by rewrite lookup_insert_ne|]. split; [|done].
    intros Hh. apply (headerless_insert _ _ _ (dir s')); [exact Hh|]. apply headerless_blank.
    unfold contentOf. destruct (chunkFiles (dir s') !! k) as [l|] eqn:E; [by apply (Hh k)|by exists 0]. }
  unfold wp in Ht. unfold wp, preallocateOrRemove. destruct (Truncate k cap s) as [s1 [[]|e|]]; [done| |done].
  destruct Ht as [Ht Hc]. destruct (ignoreErr_touched FileClose k s1 (FileClose_touched k s1)) as (s2 & E2 & H2).
  rewrite (stM_bind_ret _ _ _ _ _ E2). destruct (ignoreErr_touched _ k s2 (RemoveFile_touched k s2)) as (s3 & E3 & H3).
  rewrite (stM_bind_ret _ _ _ _ _ E3). cbn. split; [|done]. etrans; [exact Ht|]. by etrans.
Qed.

Lemma openChunkFile_ok k cap s :
  wp (openChunkFile k cap) s (fun _ s' => touched k s s' /\ is_Some (chunkFiles (dir s') !! k)) (fun s' => touched k s s' /\ ~ clean s).
Proof.
  unfold openChunkFile. apply wp_bind, wp_onErr. unfold createExcl. apply wp_os_call.
  2: { intros s' Hp Hc. split; [by apply popped_touched|done]. }
  intros s1 Hp. pose proof (popped_touched k _ _ Hp) as H1. assert (Hcl : ~ clean s1 -> ~ clean s) by (intros Hn Hc; by apply Hn, H1).
  apply wp_get. destruct (chunkFiles (dir s1) !! k) as [l|] eqn:El.
  - apply wp_ret. apply wp_onErr, wp_os_call.
    + intros s2 Hp2. apply wp_ret. split; [etrans; [exact H1|by apply popped_touched]|]. destruct (popped_dir _ _ Hp2) as [-> _]. by rewrite El.
    + intros s2 Hp2 Hc. split; [etrans; [exact H1|by apply popped_touched]|by apply Hcl].
  - apply wp_bind, wp_modify, wp_ret. cbv beta iota.
    set (s2 := set_dir _ s1). assert (H2 : touched k s1 s2).
    { split; [by eexists|]. split; [intros j Hj; cbn; by rewrite lookup_insert_ne|]. split; [|done].
      intros Hh. apply (headerless_insert _ _ _ (dir s1)); [exact Hh|by exists 0]. }
    eapply wp_mono; [apply preallocate_ok; cbn; by rewrite lookup_insert_eq| |].
    + intros [] s3 [H3 H4]. split; [|done]. etrans; [exact H1|]. by etrans.
    + intros s3 [H3 H4]. split; [etrans; [exact H1|]; by etrans|]. apply Hcl. intros Hc. by apply H4.
Qed.

(** *** Allocation *)

(** Every id is in use. *)
Definition exhausted (s : DiskChunkManager) : Prop := forall i, 0 <= i <= MaxChunkID -> is_Some (idToChunk s !! i).

Definition alloc_failed (s : DiskChunkManager) (pages : gmap Z bytes) (s' : DiskChunkManager) : Prop :=
  cm_ok s' pages /\ kept s s' /\ (~ clean s \/ exhausted s).

(** What a manager knows about ids and numbers does not matter to its pages. *)
Lemma cm_ok_ids s pages ids m : cm_ok s pages -> (forall i, 0 <= i -> bitTest ids i = true <-> is_Some (idToChunk s !! i)) ->
  cm_ok (with_ids ids m s) pages.
Proof.
  intros [H1 H2 H3 H4 H5 H6 H7 H8 H9] Hb. constructor; try done. intros pos d Hd. by destruct (H8 _ _ Hd).
Qed.

(** The chunks in use after a new one was added. *)
Lemma chunkAt_addChunk s c (p := Z.of_nat (size (heap s))) :
  (forall q, is_Some (heap s !! q) -> q < p) -> idToChunk s !! id c = None -> (forall i q, idToChunk s !! i = Some q -> is_Some (heap s !! q)) ->
  chunkAt (addChunk c s) (id c) p c /\ (forall i q x, chunkAt s i q x -> chunkAt (addChunk c s) i q x) /\
  (forall i q x, chunkAt (addChunk c s) i q x -> (i = id c /\ q = p /\ x = c) \/ (i <> id c /\ chunkAt s i q x)).
Proof.
  intros H6 Hid H3. assert (Hp : heap s !! p = None).
  { destruct (heap s !! p) as [x|] eqn:E; [|done]. specialize (H6 p ltac:(by eexists)). lia. }
  split; [split; cbn; by rewrite lookup_insert_eq|]. split.
  - intros i q x [Hi Hq]. split; cbn; rewrite lookup_insert_ne; [done|congruence|done|]. fold p. congruence.
  - intros i q x [Hi Hq]. cbn in Hi, Hq. fold p in Hi, Hq. destruct (decide (i = id c)) as [->|Hne].
    + rewrite lookup_insert_eq in Hi. injection Hi as <-. rewrite lookup_insert_eq in Hq. injection Hq as <-. by left.
    + right. split; [done|]. rewrite lookup_insert_ne in Hi by done. destruct (H3 _ _ Hi) as [y Hy].
      rewrite lookup_insert_ne in Hq by congruence. done.
Qed.

(** A new chunk with the pages [m] in its file. *)
Lemma addChunk_gen s pages m n c (p := Z.of_nat (size (heap s))) : cm_ok (with_ids (bitClear (chunkIDs s) (id c)) n s) pages ->
  chunk_ok (id c) c -> idToChunk s !! id c = None -> bitTest (chunkIDs s) (id c) = true -> is_Some (chunkFiles (dir s) !! fileKey c) ->
  (forall pos d, m !! pos = Some d -> is_u64 pos /\ ChunkID pos = id c /\ 0 < zlen d < 2 ^ 31 /\ pagePosToLen c !! pos = Some (zlen d) /\
     ChunkHeaderSize <= FileOffset pos /\ FileOffset pos + zlen d <= nextOffset c /\
     exists l, chunkFiles (dir s) !! fileKey c = Some l /\ FileOffset pos + zlen d <= zlen l /\ ztake (zlen d) (zdrop (FileOffset pos) l) = d) ->
  (forall pos, is_Some (pagePosToLen c !! pos) -> is_Some (m !! pos)) ->
  cm_ok (addChunk c s) (m ∪ pages) /\ chunkAt (addChunk c s) (id c) p c /\ lastChunk (addChunk c s) = Some p.
Proof.
  intros [H1 H2 H3 H4 H5 H6 H7 H8 H9] Hok Hid Hbit Hfile Hm Hk. cbn in *. pose proof (co_range _ _ Hok) as Hr.
  destruct (chunkAt_addChunk s c) as (Hat & Hold & Hnew); [intros q Hq; by apply H6|done|intros i q Hi; destruct (H3 _ _ Hi) as (x & Hx & _); by eexists|].
  fold p in Hat, Hnew. assert (Hp : heap s !! p = None).
  { destruct (heap s !! p) as [x|] eqn:E; [|done]. specialize (H6 p ltac:(by eexists)). unfold p in H6. lia. }
  assert (Hsep : forall pos d, pages !! pos = Some d -> m !! pos = None).
  { intros pos d Hd. destruct (m !! pos) as [x|] eqn:E; [|done]. destruct (Hm _ _ E) as (_ & Ei & _).
    destruct (H8 _ _ Hd) as [_ _ (q & y & l & [Hi _] & _)]. rewrite Ei in Hi. cbn in Hi. congruence. }
  split; [|split; [exact Hat|done]]. constructor; cbn; try done.
  - intros i q. destruct (decide (i = id c)) as [->|Hne].
    + rewrite lookup_insert_eq. intros [= <-]. fold p. exists c. by rewrite lookup_insert_eq.
    + rewrite lookup_insert_ne by done. intros Hi. destruct (H3 _ _ Hi) as (x & Hx & Hc). exists x. rewrite lookup_insert_ne; [done|]. fold p. congruence.
  - intros i q x [(-> & -> & ->)|[_ Hx]]%Hnew; [done|]. by eapply H4.
  - intros q [= <-]. exists (id c). fold p. by rewrite lookup_insert_eq.
  - intros q [x Hq]. fold p in Hq. rewrite map_size_insert_None by done. destruct (decide (q = p)) as [->|Hne]; [unfold p; lia|].
    rewrite lookup_insert_ne in Hq by done. specialize (H6 q ltac:(by eexists)). lia.
  - intros i Hi. destruct (decide (i = id c)) as [->|Hne]; [rewrite lookup_insert_eq, Hbit; split; [by eexists|done]|].
    rewrite lookup_insert_ne by done. rewrite <- H7 by done. rewrite bitTest_clear by lia. by rewrite (proj2 (Z.eqb_neq (id c) i)).
  - intros pos d [Hd|[_ Hd]]%lookup_union_Some_raw.
    + destruct (Hm _ _ Hd) as (Hu & Ei & Hl & Hpg & Ho & He & l & Hf & Hz & Hrd). constructor; [done|done|]. exists p, c, l. rewrite Ei. done.
    + destruct (H8 _ _ Hd) as [Ha Hb (q & x & l & Hx & Hrest)]. constructor; [done|done|]. exists q, x, l. split; [by apply Hold|done].
  - intros i q x pos Hx Hpos. destruct (Hnew _ _ _ Hx) as [(-> & -> & ->)|[_ Hx']].
    + destruct (Hk pos Hpos) as [d Hd]. exists d. by apply lookup_union_Some_l.
    + destruct (H9 _ _ _ _ Hx' Hpos) as [d Hd]. exists d. rewrite lookup_union_r; [done|]. by eapply Hsep.
Qed.

Lemma addChunk_ok s pages cid n (p := Z.of_nat (size (heap s))) (c := mkChunk cid (maxSeq s) (chunkSize s) ChunkHeaderSize ∅ ∅) :
  cm_ok (with_ids (bitClear (chunkIDs s) cid) n s) pages -> 0 <= cid <= MaxChunkID ->
  idToChunk s !! cid = None -> bitTest (chunkIDs s) cid = true -> is_Some (chunkFiles (dir s) !! (cid, maxSeq s)) ->
  cm_ok (addChunk c s) pages /\ chunkAt (addChunk c s) cid p c /\ lastChunk (addChunk c s) = Some p.
Proof.
  intros H Hr Hid Hbit Hfile. rewrite <- (map_empty_union pages). apply (addChunk_gen s pages ∅ n c); try done.
  - constructor; [done|done|done|]. pose proof (cm_size _ _ H) as Hs. cbn in Hs |- *. lia.
  - intros pos Hpos. cbn in Hpos. by rewrite lookup_empty in Hpos.
Qed.

(** Marking an id before it is known. *)
Lemma mark_ok s pages cid m n : cm_ok s pages -> 0 <= cid -> idToChunk s !! cid = None ->
  cm_ok (with_ids (bitClear (bitSet (chunkIDs s) cid) cid) n (with_ids (bitSet (chunkIDs s) cid) m s)) pages.
Proof.
  intros H Hc Hid. apply (cm_ok_ids s pages); [done|]. intros i Hi. rewrite bitTest_clear, bitTest_set by lia. rewrite <- (cm_ids _ _ H i Hi).
  destruct (Z.eqb_spec cid i) as [->|]; [|done]. cbn. rewrite (cm_ids _ _ H i Hi), Hid. split; [done|]. by intros [].
Qed.

Lemma createChunk_ok s pages : cm_ok s pages ->
  wp createChunk s (fun p s' => exists c, cm_ok s' pages /\ kept s s' /\ chunkAt s' (id c) p c /\ nextOffset c = ChunkHeaderSize /\ chunkSize s' = chunkSize s)
    (alloc_failed s pages).
Proof.
  intros H. unfold createChunk. apply wp_get. pose proof (nextClearBit_ok (chunkIDs s)) as Hb.
  destruct (nextClearBit (chunkIDs s) 0) as [cid|e|]; [| |done].
  2: { unfold wp. cbn. split; [done|]. split; [done|]. right. intros i Hi. apply (cm_ids _ _ H); [lia|]. by apply Hb. }
  destruct Hb as [Hr Hclear]. apply wp_bind, wp_lift. set (sq := u64 (maxSeq s + 1)). apply wp_bind, wp_modify.
  set (s1 := with_ids (bitSet (chunkIDs s) cid) sq s).
  assert (Hid : idToChunk s !! cid = None).
  { destruct (idToChunk s !! cid) eqn:E; [|done]. pose proof (proj2 (cm_ids _ _ H cid ltac:(lia)) ltac:(by eexists)). congruence. }
  assert (Hfree : free_key s (cid, sq)).
  { intros i q c [Hi Hc] E. destruct (cm_chunk _ _ H _ _ Hi) as (x & Hx & Hok). rewrite Hc in Hx. injection Hx as <-.
    unfold fileKey in E. injection E as E _. rewrite (co_id _ _ Hok) in E. congruence. }
  assert (Hbits : forall i, 0 <= i -> bitTest (bitClear (bitSet (chunkIDs s) cid) cid) i = true <-> is_Some (idToChunk s !! i)).
  { intros i Hi. rewrite bitTest_clear, bitTest_set by lia. rewrite <- (cm_ids _ _ H i Hi). destruct (Z.eqb_spec cid i) as [->|]; [|done].
    rewrite Hclear. done. }
  assert (H1 : forall n, cm_ok (with_ids (bitClear (bitSet (chunkIDs s) cid) cid) n s) pages) by (intros n; by apply cm_ok_ids).
  apply wp_bind. pose proof (openChunkFile_ok (cid, sq) (chunkSize s1) s1) as Ho. unfold wp at 1, openOrRelease. unfold wp in Ho.
  destruct (openChunkFile (cid, sq) (chunkSize s1) s1) as [s2 [[]|e|]]; [| |done].
  - destruct Ho as [Ht Hfile]. apply wp_get, wp_bind, wp_modify, wp_ret.
    pose proof (touched_ok (cid, sq) _ _ pages Ht) as Ht'. destruct Ht as ([d ->] & Hd & Hh & Hc). cbn in Hd.
    exists (mkChunk cid sq (chunkSize s) ChunkHeaderSize ∅ ∅). destruct (addChunk_ok (set_dir (fun _ => d) s1) pages cid sq) as (Ha & Hat & Hl).
    + apply (touched_ok (cid, sq) (with_ids (bitClear (bitSet (chunkIDs s) cid) cid) sq s)); [|exact Hfree|apply H1].
      split; [by eexists|]. split; [exact Hd|]. split; [exact Hh|exact Hc].
    + done.
    + done.
    + cbn. rewrite bitTest_set by lia. by rewrite Z.eqb_refl.
    + exact Hfile.
    + split; [exact Ha|]. split; [|split; [exact Hat|done]]. split; [exact Hc|]. split; [exact Hh|].
      intros i Hi. cbn. destruct (decide (i = cid)) as [->|]; [rewrite lookup_insert_eq; by eexists|by rewrite lookup_insert_ne].
  - destruct Ho as [Ht Hc]. destruct Ht as ([d ->] & Hd & Hh & Hcl). cbn in Hd. split; [|split; [split; [exact Hcl|split; [exact Hh|done]]|by left]].
    apply (touched_ok (cid, sq) (with_ids (bitClear (bitSet (chunkIDs s) cid) cid) (u64 (sq - 1)) s)); [|exact Hfree|apply H1].
    split; [by eexists|]. split; [exact Hd|]. split; [exact Hh|exact Hcl].
Qed.

(** A position that was handed out for [n] bytes, behind all pages of its chunk. *)
Record allocated (s : DiskChunkManager) (pages : gmap Z bytes) (pos t n : Z) : Prop := {
  al_pos : is_u64 pos;
  al_type : PageType pos = t;
  al_at : exists p c, chunkAt s (ChunkID pos) p c /\ nextOffset c = FileOffset pos + n;
  al_off : ChunkHeaderSize <= FileOffset pos;
  al_behind : forall q d, pages !! q = Some d -> ChunkID q = ChunkID pos -> FileOffset q + zlen d <= FileOffset pos }.

Lemma lastOrNew_ok s pages n : cm_ok s pages -> 0 <= n ->
  wp (lastOrNew n) s (fun po s' => exists c, cm_ok s' pages /\ kept s s' /\ chunkAt s' (id c) po.1 c /\ po.2 = nextOffset c /\ is_u32 po.2)
    (alloc_failed s pages).
Proof.
  intros H Hn. unfold lastOrNew. apply wp_get.
  assert (Hnew : wp (p ← createChunk; mret (p, ChunkHeaderSize)) s
    (fun po s' => exists c, cm_ok s' pages /\ kept s s' /\ chunkAt s' (id c) po.1 c /\ po.2 = nextOffset c /\ is_u32 po.2) (alloc_failed s pages)).
  { apply wp_bind. eapply wp_mono; [by apply createChunk_ok| |done]. intros p s' (c & H' & Hk & Hc & Hx & _). apply wp_ret.
    exists c. split; [done|]. split; [done|]. split; [done|]. split; [done|]. unfold is_u32, ChunkHeaderSize, ChunkBlockSize, ChunkHeaderBlocks. cbn. lia. }
  destruct (lastChunk s) as [p|] eqn:El; [|exact Hnew]. destruct (cm_last _ _ H _ El) as [cid Hcid].
  destruct (cm_chunk _ _ H _ _ Hcid) as (c & Hc & Hok). rewrite Hc. destruct (Z.leb_spec (nextOffset c + n) (capacity c)) as [Hfit|]; [|exact Hnew].
  pose proof (co_next _ _ Hok). pose proof (co_cap _ _ Hok). unfold ChunkHeaderSize, ChunkBlockSize, ChunkHeaderBlocks in *.
  apply wp_ret. exists c. split; [done|]. split; [done|]. cbn [fst snd]. rewrite u32_id by (unfold is_u32; lia).
  split; [split; [by rewrite (co_id _ _ Hok)|done]|]. split; [done|]. unfold is_u32. lia.
Qed.

Lemma updChunk_other s p g q c : heap s !! q = Some c -> q <> p -> heap (updChunk p g s) !! q = Some c.
Proof. intros Hq Hne. cbn. by rewrite lookup_alter_ne. Qed.

(** A chunk is changed in place: its known pages and its end may grow. *)
Lemma updChunk_ok s pages cid p c g : cm_ok s pages -> chunkAt s cid p c ->
  id (g c) = id c -> seq (g c) = seq c -> capacity (g c) = capacity c -> nextOffset c <= nextOffset (g c) ->
  pagePosToLen (g c) = pagePosToLen c -> cm_ok (updChunk p g s) pages.
Proof.
  intros H [Hid Hc] G1 G2 G3 G4 G5. assert (Hp : heap (updChunk p g s) !! p = Some (g c)) by (cbn; by rewrite lookup_alter_eq, Hc).
  assert (Hold : forall i q x, chunkAt s i q x -> exists y, chunkAt (updChunk p g s) i q y /\ fileKey y = fileKey x /\
    nextOffset x <= nextOffset y /\ pagePosToLen y = pagePosToLen x).
  { intros i q x [Hi Hq]. destruct (decide (q = p)) as [->|Hne].
    - rewrite Hc in Hq. injection Hq as <-. exists (g c). split; [by split|]. split; [unfold fileKey; by rewrite G1, G2|done].
    - exists x. split; [split; [done|by apply updChunk_other]|]. split; [done|]. split; [lia|done]. }
  assert (Hnew : forall i q y, chunkAt (updChunk p g s) i q y -> exists x, chunkAt s i q x /\ fileKey y = fileKey x /\ pagePosToLen y = pagePosToLen x).
  { intros i q y [Hi Hq]. destruct (decide (q = p)) as [->|Hne].
    - rewrite Hp in Hq. injection Hq as <-. exists c. split; [by split|]. split; [unfold fileKey; by rewrite G1, G2|done].
    - cbn in Hq. rewrite lookup_alter_ne in Hq by done. by exists y. }
  destruct H as [H1 H2 H3 H4 H5 H6 H7 H8 H9]. constructor; try done.
  - intros i q Hi. destruct (H3 i q Hi) as (x & Hx & Hok). destruct (decide (q = p)) as [->|Hne].
    + exists (g c). rewrite Hc in Hx. injection Hx as <-. destruct Hok. split; [done|]. constructor; [by rewrite G1|done|lia|by rewrite G3].
    + exists x. split; [by apply updChunk_other|done].
  - intros i q y Hy. destruct (Hnew _ _ _ Hy) as (x & Hx & -> & _). by eapply H4.
  - intros q Hq. cbn in Hq |- *. assert (Hs : size (alter g p (heap s)) = size (heap s)) by (rewrite <- !size_dom, dom_alter_L; done).
    rewrite Hs. apply H6. destruct (decide (q = p)) as [->|]; [by eexists|by rewrite lookup_alter_ne in Hq].
  - intros pos d Hd. destruct (H8 _ _ Hd) as [Ha Hb (q & x & l & Hx & Hl & Hlen & Hoff & Hend & Hz & Hread)].
    destruct (Hold _ _ _ Hx) as (y & Hy & Ek & En & Ep). constructor; [done|done|]. exists q, y, l. rewrite Ek, Ep.
    split; [done|]. split; [done|]. split; [done|]. split; [done|]. split; [lia|done].
  - intros i q y pos Hy. destruct (Hnew _ _ _ Hy) as (x & Hx & _ & ->). by eapply H9.
Qed.

Definition size_ok (n : Z) : bool := negb ((n <? MinDiskPageSize) || (MaxDiskPageSize <? n)).
Definition type_ok (t : Z) : bool := (t =? PageTypeIndex) || (t =? PageTypeLeaf).

Lemma size_ok_bounds n : size_ok n = true -> 60 <= n <= 4100.
Proof.
  unfold size_ok. intros H%negb_true_iff%orb_false_iff. rewrite !Z.ltb_ge in H.
  unfold MinDiskPageSize, MaxDiskPageSize, CRCSize, MinPagePayload, MaxPagePayload, SizeofPageHeader, PageSize in H. lia.
Qed.

Lemma Allocate_ok s pages n t : cm_ok s pages ->
  wp (Allocate n t) s (fun pos s' => size_ok n = true /\ type_ok t = true /\ cm_ok s' pages /\ kept s s' /\ pages !! pos = None /\ allocated s' pages pos t n)
    (fun s' => cm_ok s' pages /\ kept s s' /\ (~ clean s \/ exhausted s \/ size_ok n && type_ok t = false)).
Proof.
  intros H. unfold Allocate. apply wp_get. rewrite (cm_open _ _ H). cbv iota. destruct (_ || _) eqn:Es.
  { apply wp_fail. split; [done|]. split; [done|]. right; right. unfold size_ok. by rewrite Es. }
  destruct (negb _ && negb _) eqn:Et.
  { apply wp_fail. split; [done|]. split; [done|]. right; right. unfold type_ok. rewrite <- negb_orb in Et. apply negb_true_iff in Et.
    rewrite Et. apply andb_false_r. }
  assert (Hs : size_ok n = true) by (unfold size_ok; by rewrite Es). pose proof (size_ok_bounds _ Hs) as Hn.
  assert (Ht : type_ok t = true) by (unfold type_ok; rewrite <- negb_orb in Et; by apply negb_false_iff in Et).
  apply wp_bind. eapply wp_mono; [apply lastOrNew_ok; [done|lia]| |].
  2: { intros s' (Ha & Hb & [Hc|Hc]); (split; [done|]; split; [done|]); tauto. }
  intros [p off] s1 (c & H1 & Hk & Hat & Hoff & Hu). cbn [fst snd] in *. apply wp_bind. unfold wp at 1, getChunk. rewrite (proj2 Hat).
  destruct (cm_chunk _ _ H1 _ _ (proj1 Hat)) as (c' & Hc' & Hok). rewrite (proj2 Hat) in Hc'. injection Hc' as <-.
  destruct Hok as [O1 O2 O3 O4].
  assert (Henc : exists pos, EncodeChunkPosition (id c) off t = Ret pos).
  { unfold EncodeChunkPosition. rewrite (proj2 (Z.ltb_ge _ _)) by lia. by eexists. }
  destruct Henc as [pos Epos]. rewrite Epos. apply wp_bind, wp_lift, wp_bind, wp_modify, wp_ret.
  assert (Ht32 : 0 <= t < 32) by (unfold type_ok in Ht; apply orb_true_iff in Ht; rewrite !Z.eqb_eq in Ht; unfold PageTypeIndex, PageTypeLeaf in Ht; lia).
  destruct (position_fields_of (id c) off t pos Hu Ht32 ltac:(lia) Epos) as (Pu & Pc & Po & Pt).
  assert (Hat' : chunkAt s1 (ChunkID pos) p c) by by rewrite Pc.
  split; [done|]. split; [done|]. split; [|split; [|split]].
  - apply (updChunk_ok s1 pages (id c) p c); try done. cbn. lia.
  - etrans; [exact Hk|]. done.
  - destruct (pages !! pos) as [d|] eqn:Ed; [|done]. destruct (cm_pages _ _ H1 _ _ Ed) as [_ Hd (q & x & l & [Hx1 Hx2] & _ & _ & _ & Hend & _)].
    destruct Hat' as [Hx1' Hx2']. rewrite Hx1' in Hx1. injection Hx1 as <-. rewrite Hx2' in Hx2. injection Hx2 as <-. lia.
  - constructor; [done|done| |lia|].
    + exists p, (with_nextOffset (off + n) c). split; [split; [by apply Hat'|cbn; by rewrite lookup_alter_eq, (proj2 Hat)]|]. cbn. lia.
    + intros q d Hq Hid. destruct (cm_pages _ _ H1 _ _ Hq) as [_ Hd (r & x & l & [Hx1 Hx2] & _ & _ & _ & Hend & _)].
      rewrite Hid in Hx1. destruct Hat' as [Hx1' Hx2']. rewrite Hx1' in Hx1. injection Hx1 as <-. rewrite Hx2' in Hx2. injection Hx2 as <-. lia.
Qed.

(** *** Writing *)

Lemma lookupChunk_ok s pages cid p c {B} (f : Z -> cmM B) Q E : cm_ok s pages -> chunkAt s cid p c ->
  wp (f p) s Q E -> wp (lookupChunk cid ≫= f) s Q E.
Proof.
  intros H [Hid _] Hf. apply wp_bind. unfold lookupChunk. apply wp_get. rewrite (cm_open _ _ H), Hid. by apply wp_ret.
Qed.
Lemma getChunk_ok s cid p c {B} (f : ChunkFile -> cmM B) Q E : chunkAt s cid p c -> wp (f c) s Q E -> wp (getChunk p ≫= f) s Q E.
Proof. intros [_ Hc] Hf. apply wp_bind. unfold wp at 1, getChunk. by rewrite Hc. Qed.

(** Two chunks in use have different files. *)
Lemma fileKey_inj s pages i j p q c x : cm_ok s pages -> chunkAt s i p c -> chunkAt s j q x -> fileKey c = fileKey x -> i = j /\ p = q /\ c = x.
Proof.
  intros H [Hi Hc] [Hj Hx] E. destruct (cm_chunk _ _ H _ _ Hi) as (c' & Hc' & Hok). destruct (cm_chunk _ _ H _ _ Hj) as (x' & Hx' & Hok').
  rewrite Hc in Hc'. injection Hc' as <-. rewrite Hx in Hx'. injection Hx' as <-. unfold fileKey in E. injection E as E _.
  rewrite (co_id _ _ Hok), (co_id _ _ Hok') in E. subst j. rewrite Hi in Hj. injection Hj as <-. rewrite Hc in Hx. by injection Hx as <-.
Qed.

(** Bytes written behind all pages of a chunk. *)
Lemma write_behind_ok s pages pos t n p c src : cm_ok s pages -> allocated s pages pos t n -> chunkAt s (ChunkID pos) p c ->
  cm_ok (set_dir (fun o => with_files (<[fileKey c := overwrite (contentOf o (fileKey c)) (FileOffset pos) src]> (chunkFiles o)) o) s) pages.
Proof.
  intros H Hal Hat. pose proof H as [H1 H2 H3 H4 H5 H6 H7 H8 H9]. constructor; try done.
  - intros i q x Hx. cbn. destruct (decide (fileKey x = fileKey c)) as [->|]; [rewrite lookup_insert_eq; by eexists|].
    rewrite lookup_insert_ne by done. by eapply H4.
  - intros q d Hq. destruct (H8 _ _ Hq) as [Ha Hb (r & x & l & Hx & Hl & Hlen & Hoff & Hend & Hz & Hread)]. constructor; [done|done|].
    destruct (decide (fileKey x = fileKey c)) as [E|Hne].
    + destruct (fileKey_inj _ _ _ _ _ _ _ _ H Hx Hat E) as (Ei & <- & <-).
      exists r, x, (overwrite l (FileOffset pos) src). split; [exact Hx|]. pose proof (al_behind _ _ _ _ _ Hal _ _ Hq Ei) as Hbeh.
      pose proof (al_off _ _ _ _ _ Hal) as Ho. unfold ChunkHeaderSize, ChunkBlockSize, ChunkHeaderBlocks in *.
      split; [cbn; rewrite lookup_insert_eq; unfold contentOf; by rewrite Hl|]. split; [done|]. split; [done|]. split; [done|].
      split; [rewrite zlen_overwrite; lia|]. rewrite overwrite_before by lia. done.
    + exists r, x, l. split; [done|]. split; [cbn; by rewrite lookup_insert_ne|done].
Qed.

Lemma allocated_popped s s' pages pos t n : popped s s' -> allocated s pages pos t n -> allocated s' pages pos t n.
Proof. intros (l & -> & _) []. by constructor. Qed.

(** The chunk learns of a page that its file holds. *)
Definition learn (pos n : Z) (c : ChunkFile) : ChunkFile := with_pages (<[pos := n]> (pagePosToLen c)) c.

Lemma learn_old s p pos n i q x : chunkAt s i q x ->
  exists y, chunkAt (updChunk p (learn pos n) s) i q y /\ fileKey y = fileKey x /\ id y = id x /\ capacity y = capacity x /\
    nextOffset y = nextOffset x /\ (forall k, k <> pos -> pagePosToLen y !! k = pagePosToLen x !! k) /\
    (q = p -> pagePosToLen y !! pos = Some n).
Proof.
  intros [Hi Hq]. destruct (decide (q = p)) as [->|Hne].
  - exists (learn pos n x). split; [split; [done|cbn; by rewrite lookup_alter_eq, Hq]|].
    split_and!; try done; cbn; intros; [by rewrite lookup_insert_ne|by rewrite lookup_insert_eq].
  - exists x. split; [split; [done|by apply updChunk_other]|]. done.
Qed.
Lemma learn_new s p pos n i q y : chunkAt (updChunk p (learn pos n) s) i q y ->
  exists x, chunkAt s i q x /\ fileKey y = fileKey x /\ (forall k, k <> pos -> pagePosToLen y !! k = pagePosToLen x !! k).
Proof.
  intros [Hi Hq]. cbn in Hi, Hq. destruct (decide (q = p)) as [->|Hne].
  - rewrite lookup_alter_eq in Hq. destruct (heap s !! p) as [x|] eqn:Ex; [|done]. injection Hq as <-. exists x. split; [by split|].
    split; [done|]. intros k Hk. cbn. by rewrite lookup_insert_ne.
  - rewrite lookup_alter_ne in Hq by done. exists y. by split.
Qed.

Lemma learn_ok s pages pos p c d l : cm_ok s pages -> chunkAt s (ChunkID pos) p c -> is_u64 pos -> 0 < zlen d < 2 ^ 31 ->
  chunkFiles (dir s) !! fileKey c = Some l -> ChunkHeaderSize <= FileOffset pos -> FileOffset pos + zlen d <= nextOffset c ->
  FileOffset pos + zlen d <= zlen l -> ztake (zlen d) (zdrop (FileOffset pos) l) = d ->
  cm_ok (updChunk p (learn pos (zlen d)) s) (<[pos := d]> pages).
Proof.
  intros [A1 A2 A3 A4 A5 A6 A7 A8 A9] Hat Hu Hd Hl1 Ho Hend Hl2 Hl3. constructor; try done.
  - intros i q Hi. destruct (A3 i q Hi) as (x & Hx & [O1 O2 O3 O4]).
    destruct (learn_old s p pos (zlen d) i q x (conj Hi Hx)) as (y & [_ Hy] & _ & E1 & E2 & E3 & _).
    exists y. split; [done|]. constructor; [by rewrite E1|done|by rewrite E3|by rewrite E2].
  - intros i q y Hy. destruct (learn_new _ _ _ _ _ _ _ Hy) as (x & Hx & -> & _). by eapply A4.
  - intros q Hq. cbn in Hq |- *. rewrite <- size_dom, dom_alter_L, size_dom. apply A6. cbn.
    destruct (decide (q = p)) as [->|]; [exists c; apply Hat|by rewrite lookup_alter_ne in Hq].
  - intros k x. destruct (decide (k = pos)) as [->|Hne].
    + rewrite lookup_insert_eq. intros [= <-]. constructor; [done|done|].
      destruct (learn_old s p pos (zlen d) _ _ _ Hat) as (y & Hy & Ek & _ & _ & E3 & _ & E5). exists p, y, l. split; [done|]. rewrite Ek, E3.
      split; [done|]. split; [by apply E5|]. done.
    + rewrite lookup_insert_ne by done. intros Hk. destruct (A8 _ _ Hk) as [Ba Bb (q & z & lz & Hz & Hlz & Hlen & Hrest)].
      constructor; [done|done|]. destruct (learn_old s p pos (zlen d) _ _ _ Hz) as (y & Hy & Ek & _ & _ & E3 & E4 & _).
      exists q, y, lz. rewrite Ek, E3, E4 by done. done.
  - intros i q y k Hy Hk. destruct (decide (k = pos)) as [->|Hne]; [rewrite lookup_insert_eq; by eexists|]. rewrite lookup_insert_ne by done.
    destruct (learn_new _ _ _ _ _ _ _ Hy) as (x & Hx & _ & E). rewrite E in Hk by done. by eapply A9.
Qed.

Lemma with_ops_ok r w s pages : cm_ok s pages -> cm_ok (with_ops r w s) pages.
Proof. intros [A1 A2 A3 A4 A5 A6 A7 A8 A9]. constructor; try done. intros q x Hq. by destruct (A8 _ _ Hq). Qed.

Lemma WritePage_ok s pages pos t d : cm_ok s pages -> allocated s pages pos t (zlen d) -> 0 < zlen d < 2 ^ 31 ->
  wp (WritePage pos d) s (fun _ s' => cm_ok s' (<[pos := d]> pages) /\ kept s s')
    (fun s' => cm_ok s' pages /\ kept s s' /\ ~ clean s).
Proof.
  intros H Hal Hd. destruct (al_at _ _ _ _ _ Hal) as (p & c & Hat & Hend). unfold WritePage.
  eapply lookupChunk_ok; [exact H|exact Hat|]. eapply getChunk_ok; [exact Hat|]. apply wp_bind, wp_onErr. unfold WriteAt. apply wp_bind, wp_pop.
  intros e s1 Hp He. pose proof (popped_ok _ _ _ Hp H) as H1. pose proof (popped_kept _ _ Hp) as Hk1. pose proof (allocated_popped _ _ _ _ _ _ Hp Hal) as Hal1.
  assert (Hat1 : chunkAt s1 (ChunkID pos) p c) by (destruct Hp as (l & -> & _); exact Hat).
  assert (Hw : forall src, cm_ok (set_dir (fun o => with_files (<[fileKey c := overwrite (contentOf o (fileKey c)) (FileOffset pos) src]> (chunkFiles o)) o) s1) pages /\
    kept s (set_dir (fun o => with_files (<[fileKey c := overwrite (contentOf o (fileKey c)) (FileOffset pos) src]> (chunkFiles o)) o) s1)).
  { intros src. split; [by eapply write_behind_ok|]. etrans; [exact Hk1|]. split; [done|]. split; [|done].
    intros Hh. apply headerless_write; [exact Hh|apply (al_off _ _ _ _ _ Hal)]. }
  destruct e as [k|].
  - apply wp_bind, wp_modify, wp_fail. destruct (Hw (take k d)) as [Ha Hb]. split; [done|]. split; [done|]. by apply He.
  - apply wp_modify. destruct (Hw d) as [Ha Hb]. set (s2 := set_dir _ s1) in *. apply wp_bind, wp_modify. cbv beta. apply wp_modify.
    pose proof (al_off _ _ _ _ _ Hal) as Ho. unfold ChunkHeaderSize, ChunkBlockSize, ChunkHeaderBlocks in Ho.
    assert (Hi32 : i32 (zlen d) = zlen d) by (unfold i32; rewrite Z.mod_small; lia). rewrite Hi32.
    split; [|etrans; [exact Hb|done]].
    apply (learn_ok _ pages pos p c d (overwrite (contentOf (dir s1) (fileKey c)) (FileOffset pos) d)).
    + by apply with_ops_ok.
    + exact Hat1.
    + apply Hal.
    + done.
    + cbn. by rewrite lookup_insert_eq.
    + apply Hal.
    + lia.
    + rewrite zlen_overwrite; lia.
    + apply overwrite_here. lia.
Qed.

Lemma putPage_ok s pages t d : cm_ok s pages ->
  wp (putPage t d) s (fun pos s' => size_ok (zlen d) = true /\ type_ok t = true /\ pages !! pos = None /\ 0 < pos /\ PageType pos = t /\
                         cm_ok s' (<[pos := d]> pages) /\ kept s s' /\ is_Some (idToChunk s' !! ChunkID pos))
    (fun s' => cm_ok s' pages /\ kept s s' /\ (~ clean s \/ exhausted s \/ size_ok (zlen d) && type_ok t = false)).
Proof.
  intros H. unfold putPage. apply wp_bind. eapply wp_mono; [by apply Allocate_ok| |done].
  intros pos s1 (Hs & Ht & H1 & Hk & Hnew & Hal). pose proof (size_ok_bounds _ Hs) as Hb. apply wp_bind.
  eapply wp_mono; [apply (WritePage_ok s1 pages pos t d); [done|done|lia]| |].
  - intros [] s2 [H2 Hk2]. apply wp_ret. split; [done|]. split; [done|]. split; [done|].
    pose proof (al_pos _ _ _ _ _ Hal) as Hu. pose proof (al_off _ _ _ _ _ Hal) as Ho.
    split.
    { destruct (decide (pos = 0)) as [->|]; [|unfold is_u64 in Hu; lia]. exfalso. apply Ho. vm_compute. reflexivity. }
    split; [apply Hal|]. split; [done|]. split; [by etrans|]. apply Hk2. destruct (al_at _ _ _ _ _ Hal) as (p & c & [Hi _] & _). by eexists.
  - intros s2 (H2 & Hk2 & Hc). split; [done|]. split; [by etrans|]. left. intros Hcl. by apply Hc, Hk.
Qed.

Lemma lookup_absent s pages pos : cm_ok s pages -> pages !! pos = None ->
  (exists p c, chunkAt s (ChunkID pos) p c /\ pagePosToLen c !! pos = None) \/ idToChunk s !! ChunkID pos = None.
Proof.
  intros H Hn. destruct (idToChunk s !! ChunkID pos) as [p|] eqn:Ei; [left|by right].
  destruct (cm_chunk _ _ H _ _ Ei) as (c & Hc & _). exists p, c. split; [done|].
  destruct (pagePosToLen c !! pos) eqn:E; [|done]. destruct (cm_known _ _ H (ChunkID pos) p c pos (conj Ei Hc)) as [d Hd]; [by eexists|congruence].
Qed.

Lemma lookupChunk_none s pages cid {B} (f : Z -> cmM B) Q (E : DiskChunkManager -> Prop) : cm_ok s pages -> idToChunk s !! cid = None ->
  E s -> wp (lookupChunk cid ≫= f) s Q E.
Proof. intros H Hid He. apply wp_bind. unfold lookupChunk. apply wp_get. rewrite (cm_open _ _ H), Hid. by apply wp_fail. Qed.

(** A call that only reads. *)
Definition quiet (s s' : DiskChunkManager) : Prop := kept s s' /\ idToChunk s' = idToChunk s.
#[export] Instance quiet_preorder : PreOrder quiet.
Proof. split; [by intros s|]. intros s1 s2 s3 [H1 H2] [K1 K2]. split; [by etrans|congruence]. Qed.
Lemma popped_quiet s s' : popped s s' -> quiet s s'.
Proof. intros H. split; [by apply popped_kept|]. by destruct H as (l & -> & _). Qed.

Lemma ReadPage_ok s pages pos : cm_ok s pages ->
  wp (ReadPage pos) s (fun d s' => pages !! pos = Some d /\ cm_ok s' pages /\ quiet s s')
    (fun s' => cm_ok s' pages /\ quiet s s' /\ (clean s -> pages !! pos = None)).
Proof.
  intros H. unfold ReadPage. destruct (pages !! pos) as [d|] eqn:Ed.
  - destruct (cm_pages _ _ H _ _ Ed) as [Hu Hd (p & c & l & Hat & Hl & Hlen & Ho & Hend & Hz & Hr)].
    eapply lookupChunk_ok; [exact H|exact Hat|]. eapply getChunk_ok; [exact Hat|]. rewrite Hlen, (proj2 (Z.ltb_ge _ _)) by lia.
    apply wp_bind, wp_onErr. unfold ReadAt. apply wp_os_call.
    + intros s1 Hp. apply wp_get. destruct (popped_dir _ _ Hp) as [Ef _]. unfold contentOf. rewrite Ef, Hl. cbn [default from_option Datatypes.id].
      rewrite (proj2 (Z.leb_le _ _)) by done. apply wp_ret. rewrite Hr. apply wp_bind, wp_modify, wp_ret.
      split; [done|]. split; [by apply with_ops_ok; eapply popped_ok|]. etrans; [by apply popped_quiet|done].
    + intros s1 Hp Hc. split; [by eapply popped_ok|]. split; [by apply popped_quiet|done].
  - destruct (lookup_absent _ _ _ H Ed) as [(p & c & Hat & Hn)|Hn].
    + eapply lookupChunk_ok; [exact H|exact Hat|]. eapply getChunk_ok; [exact Hat|]. rewrite Hn. by apply wp_fail.
    + eapply lookupChunk_none; [exact H|exact Hn|]. done.
Qed.

Lemma with_removedPages_ok r s pages : cm_ok s pages -> cm_ok (with_removedPages r s) pages.
Proof. intros [A1 A2 A3 A4 A5 A6 A7 A8 A9]. constructor; try done. intros q x Hq. by destruct (A8 _ _ Hq). Qed.

Lemma FreePage_ok s pages pos : cm_ok s pages ->
  wp (FreePage pos) s (fun _ s' => is_Some (pages !! pos) /\ cm_ok s' pages /\ quiet s s')
    (fun s' => pages !! pos = None /\ cm_ok s' pages /\ quiet s s').
Proof.
  intros H. unfold FreePage. destruct (pages !! pos) as [d|] eqn:Ed.
  - destruct (cm_pages _ _ H _ _ Ed) as [Hu Hd (p & c & l & Hat & Hl & Hlen & _)].
    eapply lookupChunk_ok; [exact H|exact Hat|]. eapply getChunk_ok; [exact Hat|]. rewrite Hlen. apply wp_bind, wp_modify, wp_modify.
    split; [by eexists|]. split; [|done]. apply with_removedPages_ok. by eapply updChunk_ok.
  - destruct (lookup_absent _ _ _ H Ed) as [(p & c & Hat & Hn)|Hn].
    + eapply lookupChunk_ok; [exact H|exact Hat|]. eapply getChunk_ok; [exact Hat|]. rewrite Hn. by apply wp_fail.
    + eapply lookupChunk_none; [exact H|exact Hn|]. done.
Qed.

Lemma chunk_Sync_ok s pages : cm_ok s pages ->
  wp Sync s (fun _ s' => cm_ok s' pages /\ quiet s s') (fun s' => cm_ok s' pages /\ quiet s s' /\ ~ clean s).
Proof.
  intros H. unfold Sync. apply wp_get. generalize (chunks s). intros ps. assert (Hk : quiet s s) by done. revert Hk.
  assert (Hg : forall ps s1, cm_ok s1 pages -> quiet s s1 -> wp (syncLoop ps) s1 (fun _ s' => cm_ok s' pages /\ quiet s s') (fun s' => cm_ok s' pages /\ quiet s s' /\ ~ clean s)).
  { clear H. clear ps. induction ps as [|p ps IH]; intros s1 H1 Hk; cbn [syncLoop]; [by apply wp_ret|]. apply wp_bind, wp_onErr.
    unfold FileSync, whileOpen. apply wp_get. rewrite (cm_open _ _ H1). apply wp_os_call.
    - intros s2 Hp. apply wp_ret. apply IH; [by eapply popped_ok|]. etrans; [exact Hk|by apply popped_quiet].
    - intros s2 Hp Hc. split; [by eapply popped_ok|]. split; [etrans; [exact Hk|by apply popped_quiet]|]. intros Hcl. by apply Hc, Hk. }
  intros Hk. by apply Hg.
Qed.

(** ** The store as a map of pages *)

Inductive chunkCall := Put (pageType : Z) (data : bytes) | Get (pos : Z) | Drop (pos : Z) | Flush.
Inductive chunkReply := At (r : outcome Z) | Page (r : outcome bytes) | Done (r : outcome unit).

Definition exec (c : chunkCall) (s : DiskChunkManager) : DiskChunkManager * chunkReply :=
  match c with
  | Put t d => let '(s, r) := putPage t d s in (s, At r)
  | Get pos => let '(s, r) := ReadPage pos s in (s, Page r)
  | Drop pos => let '(s, r) := FreePage pos s in (s, Done r)
  | Flush => let '(s, r) := Sync s in (s, Done r)
  end.
Fixpoint execAll (cs : list chunkCall) (s : DiskChunkManager) : DiskChunkManager * list chunkReply :=
  match cs with
  | [] => (s, [])
  | c :: cs => let '(s, r) := exec c s in let '(s, rs) := execAll cs s in (s, r :: rs)
  end.

(** The abstract store: the ids in use and the pages.  [io]: errors of the disk
    may occur. *)
Definition chunk_spec : Type := gset Z * gmap Z bytes.
Inductive spec_exec (io : bool) : chunk_spec -> chunkCall -> chunkReply -> chunk_spec -> Prop :=
| sx_put ids ids' m t d pos : size_ok (zlen d) = true -> type_ok t = true -> m !! pos = None -> 0 < pos -> PageType pos = t ->
    ids ⊆ ids' -> ChunkID pos ∈ ids' -> spec_exec io (ids, m) (Put t d) (At (Ret pos)) (ids', <[pos := d]> m)
| sx_put_fails ids ids' m t d e : ids ⊆ ids' ->
    io = true \/ (forall i, 0 <= i <= MaxChunkID -> i ∈ ids) \/ size_ok (zlen d) && type_ok t = false ->
    spec_exec io (ids, m) (Put t d) (At (Fail e)) (ids', m)
| sx_get ids m pos d : m !! pos = Some d -> spec_exec io (ids, m) (Get pos) (Page (Ret d)) (ids, m)
| sx_get_fails ids m pos e : io = true \/ m !! pos = None -> spec_exec io (ids, m) (Get pos) (Page (Fail e)) (ids, m)
| sx_drop ids m pos : is_Some (m !! pos) -> spec_exec io (ids, m) (Drop pos) (Done (Ret tt)) (ids, m)
| sx_drop_fails ids m pos e : m !! pos = None -> spec_exec io (ids, m) (Drop pos) (Done (Fail e)) (ids, m)
| sx_flush ids m : spec_exec io (ids, m) Flush (Done (Ret tt)) (ids, m)
| sx_flush_fails ids m e : io = true -> spec_exec io (ids, m) Flush (Done (Fail e)) (ids, m).

Inductive spec_execAll (io : bool) : chunk_spec -> list chunkCall -> list chunkReply -> chunk_spec -> Prop :=
| sxs_nil a : spec_execAll io a [] [] a
| sxs_cons a1 a2 a3 c r cs rs : spec_exec io a1 c r a2 -> spec_execAll io a2 cs rs a3 -> spec_execAll io a1 (c :: cs) (r :: rs) a3.

Definition idsOf (s : DiskChunkManager) : gset Z := dom (idToChunk s).

Lemma chunk_exec_ok c s pages io : cm_ok s pages -> (io = false -> clean s) ->
  exists s' r pages', exec c s = (s', r) /\ spec_exec io (idsOf s, pages) c r (idsOf s', pages') /\ cm_ok s' pages' /\ kept s s'.
Proof.
  intros H Hio. assert (Hnc : ~ clean s -> io = true) by (destruct io; [done|intros Hc; by destruct Hc; apply Hio]).
  assert (Hids : forall s', kept s s' -> idsOf s ⊆ idsOf s').
  { intros s' (_ & _ & Hk) i Hi. apply elem_of_dom. apply Hk. by apply elem_of_dom. }
  assert (Hq : forall s', quiet s s' -> idsOf s' = idsOf s) by (intros s' [_ E]; unfold idsOf; by rewrite E).
  destruct c as [t d|pos|pos|]; cbn [exec].
  - pose proof (putPage_ok s pages t d H) as Hw. unfold wp in Hw. destruct (putPage t d s) as [s' [pos|e|]]; [| |done].
    + destruct Hw as (Ha & Hb & Hn & Hp & Ht & H' & Hk & Hid). eexists _, _, _. split; [done|]. split; [|done].
      constructor; auto. by apply elem_of_dom.
    + destruct Hw as (H' & Hk & Hr). eexists _, _, _. split; [done|]. split; [|done]. constructor; [auto|].
      destruct Hr as [Hc|[Hx|Hx]]; [by left; auto|right; left|by right; right]. intros i Hi. apply elem_of_dom. by apply Hx.
  - pose proof (ReadPage_ok s pages pos H) as Hw. unfold wp in Hw. destruct (ReadPage pos s) as [s' [d|e|]]; [| |done].
    + destruct Hw as (Hd & H' & Hk). eexists _, _, _. split; [done|]. rewrite (Hq _ Hk). split; [by constructor|]. split; [done|apply Hk].
    + destruct Hw as (H' & Hk & Hn). eexists _, _, _. split; [done|]. rewrite (Hq _ Hk). split; [|split; [done|apply Hk]].
      constructor. destruct io; [by left|right; auto].
  - pose proof (FreePage_ok s pages pos H) as Hw. unfold wp in Hw. destruct (FreePage pos s) as [s' [[]|e|]]; [| |done].
    + destruct Hw as (Hd & H' & Hk). eexists _, _, _. split; [done|]. rewrite (Hq _ Hk). split; [by constructor|]. split; [done|apply Hk].
    + destruct Hw as (Hd & H' & Hk). eexists _, _, _. split; [done|]. rewrite (Hq _ Hk). split; [by constructor|]. split; [done|apply Hk].
  - pose proof (chunk_Sync_ok s pages H) as Hw. unfold wp in Hw. destruct (Sync s) as [s' [[]|e|]]; [| |done].
    + destruct Hw as (H' & Hk). eexists _, _, _. split; [done|]. rewrite (Hq _ Hk). split; [by constructor|]. split; [done|apply Hk].
    + destruct Hw as (H' & Hk & Hc). eexists _, _, _. split; [done|]. rewrite (Hq _ Hk). split; [constructor; auto|]. split; [done|apply Hk].
Qed.

Lemma execAll_ok cs s pages io : cm_ok s pages -> (io = false -> clean s) ->
  exists s' rs pages', execAll cs s = (s', rs) /\ spec_execAll io (idsOf s, pages) cs rs (idsOf s', pages') /\ cm_ok s' pages' /\ kept s s'.
Proof.
  revert s pages. induction cs as [|c cs IH]; intros s pages H Hio.
  - exists s, [], pages. split; [done|]. split; [constructor|]. done.
  - destruct (chunk_exec_ok c s pages io H Hio) as (s1 & r & m1 & E & Hs & H1 & Hk).
    destruct (IH s1 m1 H1) as (s2 & rs & m2 & E2 & Hs2 & H2 & Hk2); [intros Hf; apply Hk; auto|].
    exists s2, (r :: rs), m2. cbn [execAll]. rewrite E, E2. split; [done|]. split; [by econstructor|]. split; [done|by etrans].
Qed.

Lemma New_ok d size s : chunkFiles d = ∅ -> NewDiskChunkManager size (emptyManager d 0) = (s, Ret tt) ->
  cm_ok s ∅ /\ headerless (dir s) /\ (faults d = [] -> clean s) /\ idsOf s = ∅ /\ chunkFiles (dir s) = ∅ /\ dirExists (dir s) = true.
Proof.
  intros Hd. unfold NewDiskChunkManager. set (sz := if size <=? 0 then _ else size). destruct (Z.ltb_spec (Z.shiftl 1 32 - 1) sz) as [|Hsz]; [done|].
  intros E. assert (Hw : wp (_ ← onErr MkdirAll (fun e => Wrap e "chunk: create dir"); modifyS (fun s => emptyManager (dir s) sz)) (emptyManager d 0)
    (fun _ s' => exists d', s' = emptyManager d' sz /\ chunkFiles d' = ∅ /\ (faults d = [] -> faults d' = []) /\ dirExists d' = true) (fun _ => True)).
  { apply wp_bind, wp_onErr. unfold MkdirAll. apply wp_os_call; [|done]. intros s' Hp. apply wp_modify, wp_modify. eexists. split; [done|].
    destruct Hp as (l & -> & Hc). cbn. split; [exact Hd|]. split; [exact Hc|done]. }
  unfold wp in Hw. rewrite E in Hw. destruct Hw as (d' & -> & Ef & Hc & Hdir).
  assert (Hpos : 0 < sz < 2 ^ 32) by (unfold sz in *; change (Z.shiftl 1 32 - 1) with (2 ^ 32 - 1) in Hsz; unfold DefaultChunkCapacity in *; destruct (Z.leb_spec size 0); lia).
  split; [|split; [|split; [exact Hc|split; [done|done]]]].
  - constructor; cbn; try done.
    + intros cid p c [Hi _]. cbn in Hi. by rewrite lookup_empty in Hi.
    + intros p [c Hc']. by rewrite lookup_empty in Hc'.
    + intros i Hi. rewrite bitTest_empty by done. split; [done|]. intros [p Hp]. by rewrite lookup_empty in Hp.
    + intros cid p c pos [Hi _]. cbn in Hi. by rewrite lookup_empty in Hi.
  - intros k l. cbn. by rewrite Ef, lookup_empty.
Qed.

(** C9: a chunk store opened on a directory without chunks is a map of pages.
    Whatever the disk's errors, storing a page of a valid size and type gives a
    position that is in no use and reads as the page from then on, in whatever
    order pages are stored, read, freed and flushed; a call fails only for a bad
    size or type, an unknown position, a disk error, or when all chunk ids are
    taken, and changes no page then. *)
Theorem chunk_store_refines_map d size s cs (Hd : chunkFiles d = ∅)
  (Hnew : NewDiskChunkManager size (emptyManager d 0) = (s, Ret tt)) :
  exists s' rs ids m, execAll cs s = (s', rs) /\ spec_execAll (negb (bool_decide (faults d = []))) (∅, ∅) cs rs (ids, m).
Proof.
  destruct (New_ok _ _ _ Hd Hnew) as (H & _ & Hc & Hi & _).
  destruct (execAll_ok cs s ∅ (negb (bool_decide (faults d = []))) H) as (s' & rs & m & E & Hs & _).
  { intros Hb%negb_false_iff%bool_decide_eq_true. auto. }
  exists s', rs, (idsOf s'), m. split; [done|]. by rewrite Hi in Hs.
Qed.

(** ** A crash before Close *)

(** Only the directory changes, and blank headers stay blank. *)
Definition dirOnly (s s' : DiskChunkManager) : Prop :=
  (exists d, s' = set_dir (fun _ => d) s) /\ (headerless (dir s) -> headerless (dir s')).
#[export] Instance dirOnly_preorder : PreOrder dirOnly.
Proof.
  split; [intros s; split; [exists (dir s); by destruct s|done]|].
  intros s1 s2 s3 [[d2 ->] H2] [[d3 ->] H3]. split; [by exists d3|auto].
Qed.
Lemma popped_dirOnly s s' : popped s s' -> dirOnly s s'.
Proof. intros (l & -> & _). split; [by eexists|done]. Qed.
Lemma touched_dirOnly k s s' : touched k s s' -> dirOnly s s'.
Proof. by intros (H1 & _ & H3 & _). Qed.

Lemma blank_header : exists e, decodeHeader (zeros ChunkBlockSize) = Fail e.
Proof. eexists. vm_compute. reflexivity. Qed.

Lemma readHeader_blank k s : headerless (dir s) -> wp (readHeader k) s (fun _ _ => False) (fun s' => dirOnly s s').
Proof.
  intros Hh. unfold readHeader. apply wp_bind, wp_onErr. unfold ReadAt. apply wp_os_call; [|intros; by apply popped_dirOnly].
  intros s1 Hp. destruct (popped_dir _ _ Hp) as [Ef _]. apply wp_get. unfold contentOf. rewrite Ef.
  destruct (Z.leb_spec (0 + ChunkHeaderSize) (zlen (default [] (chunkFiles (dir s) !! k)))) as [Hl|]; [|apply wp_fail; by apply popped_dirOnly].
  apply wp_ret. rewrite zdrop_0. destruct (chunkFiles (dir s) !! k) as [l|] eqn:El; [|cbn in Hl; by destruct Hl].
  cbn [default from_option Datatypes.id] in *. destruct (Hh k l El) as [n Hn].
  assert (Hz : ztake ChunkHeaderSize l = zeros ChunkHeaderSize).
  { pose proof (f_equal zlen Hn) as Hlen. rewrite zlen_ztake_min, zlen_zeros_max in Hlen. rewrite Hn. unfold zeros. f_equal.
    unfold ChunkHeaderSize, ChunkBlockSize, ChunkHeaderBlocks in *. lia. }
  rewrite Hz. assert (E0 : slice (zeros ChunkHeaderSize) 0 ChunkBlockSize = Ret (zeros ChunkBlockSize)) by (vm_compute; reflexivity).
  assert (E1 : slice (zeros ChunkHeaderSize) ChunkBlockSize (zlen (zeros ChunkHeaderSize)) = Ret (zeros ChunkBlockSize)) by (vm_compute; reflexivity).
  apply wp_bind. rewrite E0. apply wp_lift. apply wp_bind. rewrite E1. apply wp_lift.
  destruct blank_header as [e ->]. apply wp_fail. by apply popped_dirOnly.
Qed.

Lemma restoreChunk_blank k s : headerless (dir s) -> wp (restoreChunk k) s (fun c s' => c = None /\ dirOnly s s') (fun _ => False).
Proof.
  intros Hh. assert (Hopen : wp (_ ← os_call (mret tt); os_call (mret tt)) s (fun _ s' => dirOnly s s') (fun s' => dirOnly s s')).
  { apply wp_bind, wp_os_call; [|intros; by apply popped_dirOnly]. intros s1 H1. apply wp_ret, wp_os_call.
    - intros s2 H2. apply wp_ret. etrans; by apply popped_dirOnly.
    - intros s2 H2 _. etrans; by apply popped_dirOnly. }
  unfold wp in Hopen. unfold wp, restoreChunk.
  destruct ((_ ← os_call (mret tt); os_call (mret tt)) s) as [s1 [[]|e|]]; [|done|done].
  pose proof (readHeader_blank k s1 ltac:(by apply Hopen)) as Hr. unfold wp in Hr.
  destruct (readHeader k s1) as [s2 [h|e|]]; [done| |done].
  destruct (ignoreErr_touched FileClose k s2 (FileClose_touched k s2)) as (s3 & E3 & H3). rewrite (stM_bind_ret _ _ _ _ _ E3). cbn.
  split; [done|]. etrans; [exact Hopen|]. etrans; [exact Hr|by eapply touched_dirOnly].
Qed.

Lemma restoreLoop_blank ks s : headerless (dir s) -> wp (restoreLoop ks) s (fun _ s' => dirOnly s s') (fun _ => False).
Proof.
  revert s. induction ks as [|k ks IH]; intros s Hh; cbn [restoreLoop]; [by apply wp_ret|]. apply wp_bind.
  eapply wp_mono; [by apply restoreChunk_blank| |done]. intros c s1 [-> H1]. apply wp_bind, wp_ret.
  eapply wp_mono; [apply IH; by apply H1| |done]. intros [] s2 H2. by etrans.
Qed.

Lemma addEntries_dirOnly es b s : wp (addEntries es b) s (fun _ s' => dirOnly s s') (fun _ => False).
Proof.
  revert b s. induction es as [|[[cid q] l] es IH]; intros b s; cbn [addEntries]; [by apply wp_ret|]. apply wp_bind.
  assert (Hrm : forall k (b' : gmap Z Z), wp (_ ← ignoreErr (RemoveFile k); mret b') s (fun _ s' => dirOnly s s') (fun _ => False)).
  { intros k b'. destruct (ignoreErr_touched _ k s (RemoveFile_touched k s)) as (s1 & E1 & H1). unfold wp.
    rewrite (stM_bind_ret _ _ _ _ _ E1). cbn. by eapply touched_dirOnly. }
  apply (wp_mono (addEntry b (cid, q, l)) s (fun _ s' => dirOnly s s') _ (fun _ => False)); [| |done].
  - unfold addEntry. destruct (zlen l =? 0); [apply Hrm|]. destruct (b !! cid) as [x|]; [|by apply wp_ret]. destruct (x <? q); apply Hrm.
  - intros b1 s1 H1. eapply wp_mono; [apply IH| |done]. intros b2 s2 H2. by etrans.
Qed.

Lemma New_empty size s : wp (NewDiskChunkManager size) s (fun _ s' => idToChunk s' = ∅ /\ isClosed s' = false) (fun _ => True).
Proof.
  unfold NewDiskChunkManager. destruct (_ <? _); [by apply wp_fail|]. apply wp_bind, wp_onErr. unfold MkdirAll. apply wp_os_call; [|done].
  intros s1 _. by apply wp_modify, wp_modify.
Qed.

Lemma Restore_blank size d : headerless d ->
  wp (RestoreDiskChunkManager size) (emptyManager d 0) (fun _ s' => idToChunk s' = ∅ /\ isClosed s' = false) (fun _ => True).
Proof.
  intros Hh. unfold RestoreDiskChunkManager. apply wp_get. destruct (negb _); [apply New_empty|]. apply wp_bind, wp_onErr, wp_os_call; [|done].
  intros s1 Hp. apply wp_get, wp_ret. apply wp_bind. eapply wp_mono; [apply addEntries_dirOnly| |done]. intros b s2 H2.
  assert (Hh2 : headerless (dir s2)) by (apply H2; by apply (popped_dirOnly _ _ Hp)).
  destruct (last (sortedFiles b)) as [[cid top]|]; [|apply New_empty]. cbv zeta. apply wp_bind, wp_modify.
  set (sz := if size <=? 0 then _ else _). set (s3 := with_ids _ _ _).
  apply wp_bind. eapply wp_mono; [by apply (restoreLoop_blank _ s3)| |done]. intros [] s4 [[d4 ->] _]. apply wp_get. apply New_empty.
Qed.

(** C39: the header of a chunk is only written by [Close].  After any calls on a
    fresh store, flushed or not, a process that stops without [Close] leaves chunk
    files that [RestoreDiskChunkManager] skips: no page is found again. *)
Theorem unclosed_chunks_lost d size s cs (Hd : chunkFiles d = ∅)
  (Hnew : NewDiskChunkManager size (emptyManager d 0) = (s, Ret tt)) size' faults' s2
  (Hres : RestoreDiskChunkManager size' (emptyManager (with_faults faults' (dir (execAll cs s).1)) 0) = (s2, Ret tt)) :
  forall pos, exists e, (ReadPage pos s2).2 = Fail e /\ IsErr e ErrChunkNotFound = true.
Proof.
  destruct (New_ok _ _ _ Hd Hnew) as (H & Hh & _). destruct (execAll_ok cs s ∅ true H) as (s' & rs & m & E & _ & _ & Hk); [done|].
  rewrite E in Hres. cbn [fst] in Hres.
  assert (Hh' : headerless (with_faults faults' (dir s'))) by (by apply Hk).
  pose proof (Restore_blank size' _ Hh') as Hw. unfold wp in Hw. rewrite Hres in Hw. destruct Hw as [Hi Hcl].
  intros pos. eexists. unfold ReadPage, lookupChunk. unfold mbind, stM_bind, getS. rewrite Hcl, Hi, lookup_empty. split; reflexivity.
Qed.


(** ** The theorems at work *)

Definition d0 : Dir := mkDir false ∅ [].

Lemma chunk_store_refines_map_witness :
  let d := mkDir false ∅ [None; None; None; Some 3%nat] in
  let s := emptyManager (mkDir true ∅ [None; None; Some 3%nat]) 16384 in
  let cs := [Put 1 (zeros 100); Get 524288; Flush; Drop 5] in
  NewDiskChunkManager 16384 (emptyManager d 0) = (s, Ret tt) /\
  exists s' rs ids m, execAll cs s = (s', rs) /\ spec_execAll true (∅, ∅) cs rs (ids, m).
Proof.
  intros d s cs. assert (Hnew : NewDiskChunkManager 16384 (emptyManager d 0) = (s, Ret tt)) by reflexivity. split; [exact Hnew|].
  apply (chunk_store_refines_map d 16384 s cs eq_refl Hnew).
Defined.

Lemma unclosed_chunks_lost_witness :
  let s := emptyManager (mkDir true ∅ []) 16384 in
  let cs := [Put 1 (zeros 100); Flush] in
  let r := RestoreDiskChunkManager 16384 (emptyManager (with_faults [] (dir (execAll cs s).1)) 0) in
  (execAll cs s).2 = [At (Ret 524290); Done (Ret tt)] /\
  exists e, (ReadPage 524290 r.1).2 = Fail e /\ IsErr e ErrChunkNotFound = true.
Proof.
  intros s cs r. split; [vm_compute; reflexivity|].
  assert (Hr : r = (r.1, Ret tt)) by (rewrite (surjective_pairing r) at 1; f_equal; vm_compute; reflexivity).
  exact (unclosed_chunks_lost d0 16384 s cs eq_refl eq_refl 16384 [] r.1 Hr 524290).
Defined.
