(* ===== verification/ChunkRestore.v ===== *)
(** * Closing and restoring a chunk store (chunk/disk_chunk_manager.go)

    [Close] writes the header of every chunk and [RestoreDiskChunkManager] finds
    the pages again by scanning the files: for stores whose pages are full frames
    of 4100 bytes and whose writes succeed, restoring gives back exactly the pages
    that were stored. *)

From stdpp Require Import base list gmap sorting strings.
From Stdlib Require Import ZArith Lia.
From S2P Require Import Prelude WalFormat OffHeap ChunkFormat ChunkStore.

Local Open Scope Z_scope.

(** ** Closing and restoring full pages *)

Definition fullSize : Z := MaxDiskPageSize.
Definition frameOff (i : nat) : Z := ChunkHeaderSize + Z.of_nat i * fullSize.

(** A page frame of 4100 bytes with a right checksum and type [t]. *)
Definition full_page (t : Z) (d : bytes) : Prop := zlen d = fullSize /\ validFrame d = Ret (Some t).

(** The position of frame [i] of a chunk. *)
Definition posOf (cid : Z) (i : nat) (t : Z) : Z := cid * 2 ^ 38 + (frameOff i * 2 ^ 6 + t mod 32 * 2).
Definition posMap (cid : Z) (ts : list Z) : gmap Z Z :=
  foldl (fun m p => <[p := fullSize]> m) ∅ (imap (posOf cid) ts).

Lemma posMap_snoc cid ts t : posMap cid (ts ++ [t]) = <[posOf cid (length ts) t := fullSize]> (posMap cid ts).
Proof. unfold posMap. rewrite imap_app, foldl_app. cbn. by rewrite Nat.add_0_r. Qed.

Lemma posMap_Some cid ts pos n : posMap cid ts !! pos = Some n <-> n = fullSize /\ exists i t, ts !! i = Some t /\ pos = posOf cid i t.
Proof.
  induction ts as [|t ts IH] using rev_ind.
  - split; [done|]. by intros (_ & i & t & H & _).
  - rewrite posMap_snoc. destruct (decide (pos = posOf cid (length ts) t)) as [->|Hne].
    + rewrite lookup_insert_eq. split; [intros [= <-]|by intros [-> _]]. split; [done|]. exists (length ts), t. split; [|done].
      by rewrite lookup_app_r, Nat.sub_diag by lia.
    + rewrite lookup_insert_ne, IH by done. split; intros (-> & i & u & Hi & E); (split; [done|]); exists i, u; (split; [|done]).
      * by apply lookup_app_l_Some.
      * apply lookup_app_Some in Hi as [Hi|[Hl Hi]]; [done|]. destruct (i - length ts)%nat eqn:En; [|done]. injection Hi as ->.
        replace i with (length ts) in E by lia. done.
Qed.

(** Frames of a chunk that is not too long. *)
Definition cid_ok (cid : Z) : Prop := 0 <= cid <= MaxChunkID.
Lemma posOf_fields cid i t : cid_ok cid -> frameOff i < 2 ^ 32 -> 0 <= t < 32 ->
  EncodeChunkPosition cid (frameOff i) t = Ret (posOf cid i t) /\ is_u64 (posOf cid i t) /\ ChunkID (posOf cid i t) = cid /\
  FileOffset (posOf cid i t) = frameOff i /\ PageType (posOf cid i t) = t.
Proof.
  unfold cid_ok. rewrite MaxChunkID_val. intros Hc Hi Ht.
  assert (Hu : is_u32 (frameOff i)) by (unfold is_u32, frameOff in *; split; [|done]; change ChunkHeaderSize with 8192; change fullSize with 4100; lia).
  assert (E : EncodeChunkPosition cid (frameOff i) t = Ret (posOf cid i t)) by (apply position_value; lia || done).
  split; [done|]. apply (position_fields_of cid (frameOff i) t); [done|done|lia|done].
Qed.
Lemma frameOff_inj i j : frameOff i = frameOff j -> i = j.
Proof. unfold frameOff. change fullSize with 4100. lia. Qed.

Lemma posMap_size cid ts : cid_ok cid -> frameOff (length ts) <= 2 ^ 32 -> Forall (fun t => 0 <= t < 32) ts -> size (posMap cid ts) = length ts.
Proof.
  intros Hc. induction ts as [|t ts IH] using rev_ind; [done|]. rewrite length_app. cbn [length]. intros Hf [Ht [H1 _]%Forall_cons]%Forall_app.
  unfold frameOff in *. change ChunkHeaderSize with 8192 in *. change fullSize with 4100 in *.
  rewrite posMap_snoc, map_size_insert_None; [rewrite IH by (done || lia); lia|].
  destruct (posMap cid ts !! _) as [n|] eqn:E; [|done]. apply posMap_Some in E as (_ & i & u & Hi & E). exfalso.
  pose proof (lookup_lt_Some _ _ _ Hi). rewrite Forall_forall in Ht. pose proof (Ht u ltac:(by eapply list_elem_of_lookup_2)).
  destruct (posOf_fields cid (length ts) t Hc) as (_ & _ & _ & F1 & _); [unfold frameOff; change ChunkHeaderSize with 8192; change fullSize with 4100; lia|done|].
  destruct (posOf_fields cid i u Hc) as (_ & _ & _ & F2 & _); [unfold frameOff; change ChunkHeaderSize with 8192; change fullSize with 4100; lia|done|].
  rewrite E, F2 in F1. apply frameOff_inj in F1. lia.
Qed.

(** A chunk file with the frames [ts] and nothing behind them. *)
Record laid_chunk (cid : Z) (c : ChunkFile) (l : bytes) (ts : list Z) : Prop := {
  lc_len : zlen l = capacity c;
  lc_next : nextOffset c = frameOff (length ts);
  lc_fits : nextOffset c <= capacity c;
  lc_types : Forall (fun t => 0 <= t < 32) ts;
  lc_frames : forall i t, ts !! i = Some t -> validFrame (ztake fullSize (zdrop (frameOff i) l)) = Ret (Some t);
  lc_rest : zdrop (nextOffset c) l = zeros (capacity c - nextOffset c);
  lc_pages : pagePosToLen c = posMap cid ts }.

Record laid (s : DiskChunkManager) : Prop := {
  la_clean : clean s;
  la_dir : dirExists (dir s) = true;
  la_size : frameOff 1 <= chunkSize s;
  la_chunk : forall cid p c, chunkAt s cid p c -> exists l ts, chunkFiles (dir s) !! fileKey c = Some l /\ laid_chunk cid c l ts;
  la_files : forall k, is_Some (chunkFiles (dir s) !! k) -> exists cid p c, chunkAt s cid p c /\ fileKey c = k;
  la_list : forall p, p ∈ chunks s <-> exists cid, idToChunk s !! cid = Some p }.

Lemma os_call_clean {A} (m : cmM A) s : clean s -> os_call m s = m s.
Proof. intros Hc. unfold os_call, mbind, stM_bind, pop_fault. by rewrite Hc. Qed.

(** *** Laid-out chunks grow *)

Lemma WriteAt_clean k d off s : clean s ->
  WriteAt k d off s = (set_dir (fun o => with_files (<[k := overwrite (contentOf o k) off d]> (chunkFiles o)) o) s, Ret tt).
Proof. intros Hc. unfold WriteAt, mbind, stM_bind, pop_fault. by rewrite Hc. Qed.

Lemma openChunkFile_clean k cap s : clean s -> chunkFiles (dir s) !! k = None ->
  openChunkFile k cap s = (set_dir (with_files (<[k := zeros cap]> (chunkFiles (dir s)))) s, Ret tt).
Proof.
  intros Hc Hk. set (s1 := set_dir (with_files (<[k := []]> (chunkFiles (dir s)))) s).
  assert (E1 : createExcl k s = (s1, Ret true)) by (unfold createExcl; rewrite os_call_clean, stM_bind_get, Hk by done; done).
  unfold openChunkFile. rewrite (stM_bind_ret _ _ _ s1 true) by (unfold onErr; by rewrite E1).
  unfold preallocateOrRemove, Truncate. rewrite os_call_clean by done. unfold modifyS, contentOf, s1, set_dir, with_files. cbn.
  rewrite lookup_insert_eq, insert_insert_eq. unfold ztake, zeros, zlen. cbn. by rewrite take_replicate, Z.sub_0_r, Nat.min_id.
Qed.

Lemma validFrame_type d t : validFrame d = Ret (Some t) -> type_ok t = true.
Proof.
  unfold validFrame. destruct (slice d 0 CRCSize); try done. rewrite bind_ret. destruct (slice d CRCSize _); try done. rewrite bind_ret.
  destruct (index d _) as [x| |]; try done. rewrite bind_ret. destruct (negb _ || _) eqn:E; [done|]. intros [= <-].
  apply orb_false_iff in E as [_ E]. unfold type_ok. rewrite <- negb_orb in E. by apply negb_false_iff in E.
Qed.

Lemma createChunk_laid s pages : cm_ok s pages -> laid s ->
  (exists e, createChunk s = (s, Fail e)) \/
  exists s' p c, createChunk s = (s', Ret p) /\ laid s' /\ chunkAt s' (id c) p c /\ nextOffset c = ChunkHeaderSize /\ capacity c = chunkSize s'.
Proof.
  intros H [L1 L2 L3 L4 L5 L6]. pose proof (nextClearBit_ok (chunkIDs s)) as Hb. unfold createChunk. rewrite stM_bind_get.
  destruct (nextClearBit (chunkIDs s) 0) as [cid|e|]; [|left; by exists e|done].
  destruct Hb as [Hr Hclear]. right. rewrite stM_bind_lift, stM_bind_modify. set (sq := u64 (maxSeq s + 1)).
  assert (Hid : idToChunk s !! cid = None).
  { destruct (idToChunk s !! cid) eqn:E; [|done]. pose proof (proj2 (cm_ids _ _ H cid ltac:(lia)) ltac:(by eexists)). congruence. }
  assert (Hnokey : chunkFiles (dir s) !! (cid, sq) = None).
  { destruct (chunkFiles (dir s) !! (cid, sq)) eqn:E; [|done]. destruct (L5 (cid, sq) ltac:(by eexists)) as (i & p & c & [Hi Hc] & Ek).
    destruct (cm_chunk _ _ H _ _ Hi) as (x & Hx & Hok). rewrite Hc in Hx. injection Hx as <-. unfold fileKey in Ek. injection Ek as Ek _.
    rewrite (co_id _ _ Hok) in Ek. congruence. }
  set (s1 := with_ids _ sq s).
  assert (Eo : openOrRelease cid sq s1 = (set_dir (with_files (<[(cid, sq) := zeros (chunkSize s)]> (chunkFiles (dir s)))) s1, Ret tt)).
  { unfold openOrRelease. rewrite openChunkFile_clean; done. }
  rewrite (stM_bind_ret _ _ _ _ _ Eo), stM_bind_get, stM_bind_modify. set (s2 := set_dir _ s1).
  set (c := mkChunk cid sq (chunkSize s2) ChunkHeaderSize ∅ ∅).
  destruct (chunkAt_addChunk s2 c) as (Hat & Hold & Hnew).
  { intros q Hq. by apply (cm_heap _ _ H). }
  { exact Hid. }
  { intros i q Hi. destruct (cm_chunk _ _ H _ _ Hi) as (x & Hx & _). by eexists. }
  eexists _, _, c. split; [done|]. split; [|split; [exact Hat|done]]. constructor; try done.
  - intros i q x Hx. destruct (Hnew _ _ _ Hx) as [(-> & -> & ->)|[Hne Hx']].
    + exists (zeros (chunkSize s)), []. split; [cbn; by rewrite lookup_insert_eq|]. pose proof (cm_size _ _ H).
      unfold frameOff in L3. change fullSize with 4100 in L3.
      change ChunkHeaderSize with 8192 in L3. constructor; cbn [capacity nextOffset pagePosToLen c length imap].
      * rewrite zlen_zeros by lia. done.
      * unfold frameOff. lia.
      * change ChunkHeaderSize with 8192. cbn. lia.
      * constructor.
      * done.
      * apply zdrop_zeros. change ChunkHeaderSize with 8192. cbn. lia.
      * done.
    + destruct (L4 i q x Hx') as (l & ts & Hl & Hlc). exists l, ts. split; [|done]. cbn. rewrite lookup_insert_ne; [done|].
      intros E. unfold fileKey in E. injection E as E _. destruct Hx' as [Hi Hc]. destruct (cm_chunk _ _ H _ _ Hi) as (y & Hy & Hok).
      cbn in Hc. rewrite Hc in Hy. injection Hy as <-. apply Hne. cbn. rewrite <- (co_id _ _ Hok). done.
  - intros k [l Hk]. cbn in Hk. apply lookup_insert_Some in Hk as [[<- _]|[_ Hk]].
    + exists cid, (Z.of_nat (size (heap s2))), c. split; [exact Hat|done].
    + destruct (L5 k ltac:(by eexists)) as (i & p & x & Hx & Ek). exists i, p, x. split; [by apply Hold|done].
  - intros q. cbn. rewrite elem_of_app, list_elem_of_singleton, L6. split.
    + intros [[i Hi]| ->]; [|exists cid; by rewrite lookup_insert_eq]. exists i. rewrite lookup_insert_ne; [done|]. congruence.
    + intros [i Hi]. apply lookup_insert_Some in Hi as [[<- <-]|[_ Hi]]; [by right|left; by exists i].
Qed.

Lemma lastOrNew_laid s pages : cm_ok s pages -> laid s ->
  (exists e, lastOrNew fullSize s = (s, Fail e)) \/
  exists s0 p c, lastOrNew fullSize s = (s0, Ret (p, nextOffset c)) /\ laid s0 /\ cm_ok s0 pages /\ chunkAt s0 (id c) p c /\ nextOffset c + fullSize <= capacity c.
Proof.
  intros H Hl. assert (Hnew : forall s0 po, lastOrNew fullSize s = (s0, Ret po) -> cm_ok s0 pages).
  { intros s0 po E. pose proof (lastOrNew_ok s pages fullSize H ltac:(vm_compute; discriminate)) as Hw. unfold wp in Hw. rewrite E in Hw. by destruct Hw as (c & Hc & _). }
  assert (Hfresh : (p ← createChunk; mret (p, ChunkHeaderSize)) s = lastOrNew fullSize s ->
    (exists e, lastOrNew fullSize s = (s, Fail e)) \/
    exists s0 p c, lastOrNew fullSize s = (s0, Ret (p, nextOffset c)) /\ laid s0 /\ cm_ok s0 pages /\ chunkAt s0 (id c) p c /\ nextOffset c + fullSize <= capacity c).
  { intros E. destruct (createChunk_laid s pages H Hl) as [[e Ec]|(s0 & p & c & Ec & Hl0 & Hat & Hn & Hcap)].
    - left. exists e. rewrite <- E. unfold mbind, stM_bind. by rewrite Ec.
    - right. exists s0, p, c. rewrite (stM_bind_ret _ _ _ _ _ Ec) in E. cbn in E. rewrite <- E, Hn. split; [done|]. split; [done|].
      split; [by eapply Hnew|]. split; [done|]. rewrite Hcap. pose proof (la_size _ Hl0) as Hs. unfold frameOff in Hs. lia. }
  unfold lastOrNew in Hfresh, Hnew |- *. rewrite stM_bind_get in Hfresh, Hnew |- *.
  destruct (lastChunk s) as [p|] eqn:El; [|by apply Hfresh]. destruct (cm_last _ _ H _ El) as [cid Hcid].
  destruct (cm_chunk _ _ H _ _ Hcid) as (c & Hc & Hok). rewrite Hc in Hfresh, Hnew |- *.
  destruct (Z.leb_spec (nextOffset c + fullSize) (capacity c)) as [Hfit|]; [|by apply Hfresh].
  right. exists s, p, c. pose proof (co_next _ _ Hok). pose proof (co_cap _ _ Hok).
  change ChunkHeaderSize with 8192 in *. change fullSize with 4100 in *.
  rewrite u32_id by (unfold is_u32; lia). split; [done|]. split; [done|]. split; [done|]. split; [|done].
  split; [by rewrite (co_id _ _ Hok)|done].
Qed.

(** One chunk and its file change. *)
Lemma laid_update s s' pages cid p c c' l' : cm_ok s pages -> laid s -> chunkAt s cid p c ->
  clean s' -> dirExists (dir s') = true -> chunkFiles (dir s') = <[fileKey c := l']> (chunkFiles (dir s)) ->
  chunkSize s' = chunkSize s -> chunks s' = chunks s -> idToChunk s' = idToChunk s -> heap s' = <[p := c']> (heap s) ->
  fileKey c' = fileKey c -> (exists ts, laid_chunk cid c' l' ts) -> laid s'.
Proof.
  intros H [L1 L2 L3 L4 L5 L6] Hat E1 E2 E3 E4 E5 E6 E7 Ek Hc'. constructor; try done.
  - by rewrite E4.
  - intros i q x [Hi Hq]. rewrite E6 in Hi. rewrite E7 in Hq. rewrite E3. destruct (decide (q = p)) as [->|Hne].
    + rewrite lookup_insert_eq in Hq. injection Hq as <-. rewrite Ek, lookup_insert_eq.
      assert (i = cid) as ->.
      { destruct (cm_chunk _ _ H _ _ Hi) as (y & Hy & Oy). destruct Hat as [Hcid Hc]. destruct (cm_chunk _ _ H _ _ Hcid) as (z & Hz & Oz).
        rewrite Hy in Hz. injection Hz as <-. rewrite <- (co_id _ _ Oy). by apply (co_id _ _ Oz). }
      destruct Hc' as [ts Hts]. by exists l', ts.
    + rewrite lookup_insert_ne in Hq by done. destruct (L4 i q x (conj Hi Hq)) as (l & ts & Hl & Hlc). exists l, ts. split; [|done].
      rewrite lookup_insert_ne; [done|]. intros E. destruct (fileKey_inj _ _ _ _ _ _ _ _ H Hat (conj Hi Hq) E) as (_ & -> & _). done.
  - intros k [l Hk]. rewrite E3 in Hk. assert (Hx : exists i q x, chunkAt s i q x /\ fileKey x = k).
    { apply lookup_insert_Some in Hk as [[<- _]|[_ Hk]]; [by exists cid, p, c|]. apply L5. by eexists. }
    destruct Hx as (i & q & x & [Hi Hq] & Ex). destruct (decide (q = p)) as [->|Hne].
    + exists i, p, c'. rewrite (proj2 Hat) in Hq. injection Hq as <-. split; [split; [by rewrite E6|by rewrite E7, lookup_insert_eq]|by rewrite Ek].
    + exists i, q, x. split; [split; [by rewrite E6|by rewrite E7, lookup_insert_ne]|done].
  - intros q. rewrite E5, E6. apply L6.
Qed.

Lemma overwrite_after l off src : 0 <= off -> off + zlen src <= zlen l -> zdrop (off + zlen src) (overwrite l off src) = zdrop (off + zlen src) l.
Proof.
  intros Ho Hl. pose proof (zlen_nonneg src). unfold overwrite. rewrite app_assoc. apply zdrop_app_exact.
  rewrite zlen_app, zlen_ztake_min, zlen_app, zlen_zeros_max. lia.
Qed.

Lemma grow_chunk cid c l ts t d : laid_chunk cid c l ts -> full_page t d -> nextOffset c + fullSize <= capacity c -> type_ok t = true ->
  laid_chunk cid (learn (posOf cid (length ts) t) fullSize (with_nextOffset (nextOffset c + fullSize) c)) (overwrite l (nextOffset c) d) (ts ++ [t]).
Proof.
  intros [C1 C2 C3 C4 C5 C6 C7] [Hd Hv] Hfit Ht. assert (Hn : ChunkHeaderSize <= nextOffset c) by (rewrite C2; unfold frameOff; change fullSize with 4100; lia).
  change ChunkHeaderSize with 8192 in Hn. change fullSize with 4100 in *. constructor; cbn [capacity nextOffset pagePosToLen learn with_pages with_nextOffset].
  - rewrite zlen_overwrite by lia. lia.
  - rewrite C2, length_app. unfold frameOff. change fullSize with 4100. cbn [length]. lia.
  - lia.
  - apply Forall_app. split; [done|]. apply Forall_singleton. unfold type_ok in Ht. apply orb_true_iff in Ht. rewrite !Z.eqb_eq in Ht.
    unfold PageTypeIndex, PageTypeLeaf in Ht. lia.
  - intros i u Hi. apply lookup_app_Some in Hi as [Hi|[Hl Hi]].
    + pose proof (lookup_lt_Some _ _ _ Hi) as Hlt. change fullSize with 4100. rewrite overwrite_before; [by apply C5| | | |];
        rewrite ?C1, ?C2; unfold frameOff in *; change fullSize with 4100 in *; change ChunkHeaderSize with 8192 in *; lia.
    + destruct (i - length ts)%nat eqn:En; [|done]. injection Hi as <-. replace i with (length ts) by lia. rewrite <- C2.
      change fullSize with 4100. rewrite <- Hd, overwrite_here by lia. done.
  - change fullSize with 4100. rewrite <- Hd, overwrite_after by lia. rewrite Hd. rewrite <- zdrop_zdrop by lia. rewrite C6, zdrop_zeros by lia. f_equal. lia.
  - by rewrite posMap_snoc, C7.
Qed.

Lemma learn_after p g f m : alter f p (alter g p m) = alter (f ∘ g) p (m : gmap Z ChunkFile).
Proof.
  apply map_eq. intros q. destruct (decide (q = p)) as [->|]; [|by rewrite !lookup_alter_ne].
  rewrite !lookup_alter_eq. by destruct (m !! p).
Qed.

Lemma putPage_laid s pages t d : cm_ok s pages -> laid s -> full_page t d -> exists s' r, putPage t d s = (s', r) /\ laid s'.
Proof.
  intros H Hl Hd. pose proof Hd as [Hz Hv]. pose proof (validFrame_type _ _ Hv) as Ht.
  unfold putPage, Allocate. rewrite Hz. unfold mbind at 1, stM_bind at 1. rewrite stM_bind_get, (cm_open _ _ H).
  change ((fullSize <? MinDiskPageSize) || (MaxDiskPageSize <? fullSize)) with false. cbv iota.
  assert (Et : negb (t =? PageTypeIndex) && negb (t =? PageTypeLeaf) = false) by (unfold type_ok in Ht; by rewrite <- negb_orb, Ht).
  rewrite Et. destruct (lastOrNew_laid s pages H Hl) as [[e E]|(s0 & p & c & E & Hl0 & H0 & Hat & Hfit)].
  { exists s, (Fail e). rewrite (stM_bind_fail _ _ _ _ _ E). done. }
  rewrite (stM_bind_ret _ _ _ _ _ E). cbv beta iota.
  destruct (la_chunk _ Hl0 _ _ _ Hat) as (l & ts & Hfile & Hlc). destruct (cm_chunk _ _ H0 _ _ (proj1 Hat)) as (c1 & Hc1 & Hok).
  rewrite (proj2 Hat) in Hc1. injection Hc1 as <-. pose proof (co_cap _ _ Hok) as Hcap. change fullSize with 4100 in Hfit.
  assert (Eg : forall s, heap s !! p = Some c -> getChunk p s = (s, Ret c)) by (intros s1 E1; unfold getChunk; by rewrite E1).
  rewrite (stM_bind_ret _ _ _ _ _ (Eg s0 (proj2 Hat))).
  assert (Ht32 : 0 <= t < 32) by (unfold type_ok in Ht; apply orb_true_iff in Ht; rewrite !Z.eqb_eq in Ht; unfold PageTypeIndex, PageTypeLeaf in Ht; lia).
  destruct (posOf_fields (id c) (length ts) t (co_range _ _ Hok)) as (Ep & Pu & Pc & Po & Pt); [rewrite <- (lc_next _ _ _ _ Hlc); lia|done|].
  rewrite (lc_next _ _ _ _ Hlc) in *. rewrite Ep, stM_bind_lift, stM_bind_modify. cbn [mret stM_ret]. set (pos := posOf (id c) (length ts) t) in *.
  set (off := frameOff (length ts)) in *. set (s1 := updChunk p _ s0). set (c1 := with_nextOffset (off + fullSize) c).
  assert (Hc1 : heap s1 !! p = Some c1) by (cbn; by rewrite lookup_alter_eq, (proj2 Hat)).
  unfold WritePage. rewrite Pc, Po.
  assert (Elook : lookupChunk (id c) s1 = (s1, Ret p)).
  { unfold lookupChunk. rewrite stM_bind_get. change (isClosed s1) with (isClosed s0). rewrite (cm_open _ _ H0).
    change (idToChunk s1) with (idToChunk s0). by rewrite (proj1 Hat). }
  assert (Ew : exists s2, ((p ← lookupChunk (id c); c ← getChunk p;
      _ ← onErr (WriteAt (fileKey c) d off) (fun e => Wrap e "chunk: WritePage");
      _ ← modifyS (fun s => with_ops (readOps s) (i64 (writeOps s + 1)) s);
      modifyS (updChunk p (learn pos (i32 (zlen d))))) : cmM unit) s1 = (s2, Ret tt) /\ laid s2).
  { rewrite (stM_bind_ret _ _ _ _ _ Elook). unfold mbind at 1, stM_bind at 1, getChunk. rewrite Hc1.
    unfold mbind at 1, stM_bind at 1, onErr. rewrite WriteAt_clean by apply (la_clean _ Hl0). rewrite stM_bind_modify. unfold modifyS.
    eexists. split; [done|]. rewrite Hz. change (i32 fullSize) with fullSize.
    eapply (laid_update s0 _ pages (id c) p c (learn pos fullSize c1) (overwrite l off d)); try done.
    - apply (la_clean _ Hl0).
    - apply (la_dir _ Hl0).
    - cbn. unfold contentOf. change (fileKey c1) with (fileKey c). cbn. by rewrite Hfile.
    - cbn. rewrite learn_after. apply map_eq. intros q. destruct (decide (q = p)) as [->|]; [|by rewrite lookup_alter_ne, lookup_insert_ne].
      by rewrite lookup_alter_eq, lookup_insert_eq, (proj2 Hat).
    - exists (ts ++ [t]). pose proof (grow_chunk _ _ _ _ t d Hlc Hd) as Hg. rewrite (lc_next _ _ _ _ Hlc) in Hg. by apply Hg. }
  destruct Ew as (s2 & E2 & Hl2). exists s2, (Ret pos). split; [|done]. by rewrite (stM_bind_ret _ _ _ _ _ E2).
Qed.

(** Calls that read leave the layout alone. *)
Lemma laid_same s s' : laid s -> clean s' -> dirExists (dir s') = true -> chunkFiles (dir s') = chunkFiles (dir s) -> chunkSize s' = chunkSize s ->
  chunks s' = chunks s -> idToChunk s' = idToChunk s ->
  (forall p, (heap s' !! p = heap s !! p) \/ exists c r, heap s !! p = Some c /\ heap s' !! p = Some (with_removed r c)) -> laid s'.
Proof.
  intros [L1 L2 L3 L4 L5 L6] E1 E2 E3 E4 E5 E6 Eh. constructor; try done.
  - by rewrite E4.
  - intros i p c [Hi Hc]. rewrite E6 in Hi. rewrite E3. destruct (Eh p) as [E|(x & r & Ex & E)].
    + rewrite E in Hc. by apply (L4 i p c).
    + rewrite E in Hc. injection Hc as <-. destruct (L4 i p x (conj Hi Ex)) as (l & ts & Hl & [C1 C2 C3 C4 C5 C6 C7]). exists l, ts. split; [done|]. by constructor.
  - intros k Hk. rewrite E3 in Hk. destruct (L5 k Hk) as (i & p & c & [Hi Hc] & Ek). destruct (Eh p) as [E|(x & r & Ex & E)].
    + exists i, p, c. split; [split; [by rewrite E6|by rewrite E]|done].
    + exists i, p, (with_removed r x). rewrite Hc in Ex. injection Ex as <-. split; [split; [by rewrite E6|done]|done].
  - intros p. rewrite E5, E6. apply L6.
Qed.

Lemma lookupChunk_state cid s : exists r, lookupChunk cid s = (s, r).
Proof. unfold lookupChunk. rewrite stM_bind_get. destruct (isClosed s); [by eexists|]. destruct (idToChunk s !! cid); by eexists. Qed.
Lemma getChunk_state p s : exists r, getChunk p s = (s, r).
Proof. unfold getChunk. destruct (heap s !! p); by eexists. Qed.

Lemma ReadPage_laid s pos : laid s -> laid (ReadPage pos s).1.
Proof.
  intros Hl. unfold ReadPage, mbind at 1, stM_bind at 1. destruct (lookupChunk_state (ChunkID pos) s) as [[p|e|] ->]; [|done..].
  unfold mbind at 1, stM_bind at 1. destruct (getChunk_state p s) as [[c|e|] ->]; [|done..].
  destruct (pagePosToLen c !! pos) as [n|]; [|done]. destruct (n <? 0); [done|].
  unfold mbind at 1, stM_bind at 1, onErr, ReadAt. rewrite os_call_clean by apply (la_clean _ Hl). rewrite stM_bind_get.
  destruct (_ <=? _); [|done]. cbn. eapply laid_same; try done; try apply Hl. by left.
Qed.

Lemma FreePage_laid s pos : laid s -> laid (FreePage pos s).1.
Proof.
  intros Hl. unfold FreePage, mbind at 1, stM_bind at 1. destruct (lookupChunk_state (ChunkID pos) s) as [[p|e|] ->]; [|done..].
  unfold mbind at 1, stM_bind at 1. destruct (getChunk_state p s) as [[c|e|] ->]; [|done..].
  destruct (pagePosToLen c !! pos) as [n|]; [|done]. rewrite stM_bind_modify. unfold modifyS, fst.
  eapply laid_same; try done; try apply Hl.
  intros q. cbn [heap with_removedPages updChunk set_heap]. destruct (decide (q = p)) as [->|Hne]; [|left; by rewrite lookup_alter_ne].
  rewrite lookup_alter_eq. destruct (heap s !! p) as [x|]; [|by left]. right. by eexists _, _.
Qed.

Lemma syncLoop_state ps s : clean s -> (syncLoop ps s).1 = s.
Proof.
  intros Hc. induction ps as [|p ps IH]; [done|]. cbn [syncLoop]. unfold mbind at 1, stM_bind at 1, onErr, FileSync, whileOpen.
  rewrite stM_bind_get. destruct (isClosed s); [done|]. by rewrite os_call_clean.
Qed.

(** Pages that a chunk can be laid out with. *)
Definition full_call (c : chunkCall) : Prop := match c with Put t d => full_page t d | _ => True end.

Lemma exec_laid c s pages : cm_ok s pages -> laid s -> full_call c -> laid (exec c s).1.
Proof.
  intros H Hl Hc. destruct c as [t d|pos|pos|]; cbn [exec].
  - destruct (putPage_laid s pages t d H Hl Hc) as (s' & r & -> & H'). done.
  - pose proof (ReadPage_laid s pos Hl). by destruct (ReadPage pos s).
  - pose proof (FreePage_laid s pos Hl). by destruct (FreePage pos s).
  - assert (E : (Sync s).1 = s) by (apply syncLoop_state, Hl). destruct (Sync s) as [s' r]. cbn in *. by subst.
Qed.

Lemma execAll_laid cs s pages : cm_ok s pages -> laid s -> Forall full_call cs -> laid (execAll cs s).1.
Proof.
  revert s pages. induction cs as [|c cs IH]; intros s pages H Hl Hf; [done|]. apply Forall_cons in Hf as [Hc Hf]. cbn [execAll].
  destruct (chunk_exec_ok c s pages false H ltac:(intros _; apply Hl)) as (s1 & r & m1 & E & _ & H1 & _). pose proof (exec_laid c s pages H Hl Hc) as Hl1.
  rewrite E in *. specialize (IH s1 m1 H1 Hl1 Hf). by destruct (execAll cs s1).
Qed.

(** *** Close *)

(** After [Close] only the header blocks differ. *)
Lemma liveLen_bounds c n : (forall pos x, pagePosToLen c !! pos = Some x -> x = n) -> 0 <= n ->
  0 <= liveLen c <= n * Z.of_nat (size (pagePosToLen c)).
Proof.
  intros Hx Hn. unfold liveLen. revert Hx. generalize (pagePosToLen c) as m. intros m Hx.
  apply (map_fold_weak_ind (fun a m => (forall pos x, m !! pos = Some x -> x = n) -> 0 <= a <= n * Z.of_nat (size m))
    (fun pos l a => if decide (pos ∈ removed c) then a else a + l)); [|..|exact Hx].
  - intros _. rewrite map_size_empty. lia.
  - intros pos x m' a Hnone IH Hx'. rewrite map_size_insert_None by done.
    assert (x = n) as -> by (apply (Hx' pos); apply lookup_insert_eq).
    assert (0 <= a <= n * Z.of_nat (size m')) by (apply IH; intros q y Hq; apply (Hx' q); rewrite lookup_insert_ne; [done|congruence]).
    case_decide; lia.
Qed.

Lemma i32_range z : - 2 ^ 31 <= i32 z < 2 ^ 31.
Proof. unfold i32. pose proof (Z.mod_pos_bound (z + 2 ^ 31) (2 ^ 32) ltac:(lia)). lia. Qed.

Lemma finalHeader_ok cid c l ts : chunk_ok cid c -> laid_chunk cid c l ts -> header_ok (finalHeader c).
Proof.
  intros [O1 O2 O3 O4] [C1 C2 C3 C4 C5 C6 C7]. rewrite MaxChunkID_val in O2.
  assert (Hsz : size (pagePosToLen c) = length ts).
  { rewrite C7. apply posMap_size; [unfold cid_ok; by rewrite MaxChunkID_val|rewrite <- C2; lia|done]. }
  assert (Hlive : 0 <= liveLen c <= fullSize * Z.of_nat (size (pagePosToLen c))).
  { apply liveLen_bounds; [|vm_compute; discriminate]. intros pos x. rewrite C7. intros Hx. by apply posMap_Some in Hx as [-> _]. }
  rewrite Hsz in Hlive. unfold frameOff in C2. change fullSize with 4100 in *. change ChunkHeaderSize with 8192 in C2.
  constructor; cbn [finalHeader ID RootPagePos PageCount FormatVersion RemovedPageCount SumOfPageLength SumOfLivePageLength PagePositionAndLengthOffset RemovedPageOffset LastTransactionID MapSize BlockSize].
  - unfold is_u32. lia.
  - unfold is_u64. lia.
  - repeat (apply Forall_cons; split; [first [apply i32_range | unfold is_i32; lia]|]). constructor.
  - unfold is_i64. repeat (apply Forall_cons; split; [lia|]). constructor.
  - done.
Qed.

(** A file with two copies of a header block. *)
Definition sealed_file (l l' : bytes) : Prop :=
  exists b h, zlen b = ChunkBlockSize /\ decodeHeader b = Ret h /\ l' = b ++ b ++ zdrop ChunkHeaderSize l.

(** The state while the files of [s0] get their headers; [done]: chunks that have one. *)
Record sealing (s0 s : DiskChunkManager) (done : list Z) : Prop := {
  sl_clean : clean s;
  sl_dir : dirExists (dir s) = true;
  sl_heap : heap s = heap s0;
  sl_files : forall k, match chunkFiles (dir s0) !! k with
    | Some l => exists l', chunkFiles (dir s) !! k = Some l' /\ (l' = l \/ sealed_file l l')
    | None => chunkFiles (dir s) !! k = None end;
  sl_done : forall p c l, p ∈ done -> heap s0 !! p = Some c -> chunkFiles (dir s0) !! fileKey c = Some l ->
    exists l', chunkFiles (dir s) !! fileKey c = Some l' /\ sealed_file l l' }.

Lemma seal_twice l b : zlen b = ChunkBlockSize -> ChunkHeaderSize <= zlen l ->
  overwrite (overwrite l 0 b) ChunkBlockSize b = b ++ b ++ zdrop ChunkHeaderSize l.
Proof.
  change ChunkHeaderSize with 8192. change ChunkBlockSize with 4096. intros Hb Hl.
  assert (E1 : overwrite l 0 b = b ++ zdrop 4096 l).
  { unfold overwrite. change (ztake 0 (l ++ _)) with (@nil Z). rewrite app_nil_l, Hb. done. }
  rewrite E1. unfold overwrite. rewrite zlen_app, Hb, zlen_zdrop_max. rewrite <- app_assoc, ztake_app_exact by done.
  f_equal. f_equal. rewrite zdrop_app_r by lia. rewrite Hb. rewrite zdrop_zdrop by lia. f_equal.
Qed.

Lemma sealed_tail l l' : zlen l = zlen l' -> l' = l \/ sealed_file l l' -> ChunkHeaderSize <= zlen l -> zdrop ChunkHeaderSize l' = zdrop ChunkHeaderSize l.
Proof.
  intros _ [->|(b & h & Hb & _ & ->)] Hl; [done|]. rewrite app_assoc, zdrop_app_exact; [done|]. rewrite zlen_app, Hb. done.
Qed.

Lemma sealed_length l l' : l' = l \/ sealed_file l l' -> ChunkHeaderSize <= zlen l -> zlen l' = zlen l.
Proof.
  intros [->|(b & h & Hb & _ & ->)] Hl; [done|]. rewrite !zlen_app, Hb, zlen_zdrop_max.
  change ChunkHeaderSize with 8192 in *. change ChunkBlockSize with 4096. lia.
Qed.

Lemma writeHeader_clean c h s : clean s -> header_ok h ->
  let b := encode h ++ zeros (ChunkBlockSize - zlen (encode h)) in
  zlen b = ChunkBlockSize /\ decodeHeader b = Ret h /\
  exists s', writeHeader c h s = (s', Ret tt) /\ clean s' /\ dirExists (dir s') = dirExists (dir s) /\ heap s' = heap s /\
    chunkFiles (dir s') = <[fileKey c := overwrite (overwrite (contentOf (dir s) (fileKey c)) 0 b) ChunkBlockSize b]> (chunkFiles (dir s)).
Proof.
  intros Hc Hh b. pose proof (encode_length h Hh) as Hl. split; [|split].
  - unfold b. rewrite zlen_app, zlen_zeros by lia. lia.
  - by apply header_decodes.
  - unfold writeHeader. rewrite (proj2 (Z.ltb_ge _ _)) by done. fold b. unfold mbind at 1, stM_bind at 1, onErr. rewrite WriteAt_clean by done.
    rewrite WriteAt_clean by done. eexists. split; [done|]. split; [done|]. split; [done|]. split; [done|].
    cbn. unfold contentOf. cbn. by rewrite lookup_insert_eq, insert_insert_eq.
Qed.

Lemma closeLoop_ok ps s0 pages s ds : cm_ok s0 pages -> laid s0 -> (forall p, p ∈ ps -> exists cid, idToChunk s0 !! cid = Some p) ->
  sealing s0 s ds -> exists s', closeLoop ps None s = (s', Ret None) /\ sealing s0 s' (ds ++ ps).
Proof.
  intros H Hl. revert s ds. induction ps as [|p ps IH]; intros s ds Hps Hs; cbn [closeLoop].
  { exists s. rewrite app_nil_r. done. }
  destruct (Hps p ltac:(apply list_elem_of_here)) as [cid Hcid]. destruct (cm_chunk _ _ H _ _ Hcid) as (c & Hc & Hok).
  destruct (la_chunk _ Hl _ _ _ (conj Hcid Hc)) as (l & ts & Hfile & Hlc). pose proof (finalHeader_ok _ _ _ _ Hok Hlc) as Hh.
  destruct Hs as [S1 S2 S3 S4 S5]. unfold mbind at 1, stM_bind at 1, getChunk. rewrite S3, Hc.
  destruct (writeHeader_clean c (finalHeader c) s S1 Hh) as (Hb & Hdec & s1 & E1 & C1 & D1 & Hp1 & F1).
  unfold mbind at 1, stM_bind at 1, noteErr. rewrite E1. unfold mbind at 1, stM_bind at 1. unfold FileClose. rewrite os_call_clean by done.
  cbn [mret stM_ret]. destruct (IH s1 (ds ++ [p])) as (s2 & E2 & H2).
  { intros q Hq. apply Hps. by apply list_elem_of_further. }
  - pose proof (S4 (fileKey c)) as Hk. rewrite Hfile in Hk. destruct Hk as (l' & Hl' & Hor).
    assert (Hz : ChunkHeaderSize <= zlen l) by (rewrite (lc_len _ _ _ _ Hlc); pose proof (lc_fits _ _ _ _ Hlc); pose proof (co_next _ _ Hok); lia).
    pose proof (sealed_length _ _ Hor Hz) as Hz'.
    assert (Hseal : sealed_file l (overwrite (overwrite l' 0 (encode (finalHeader c) ++ zeros (ChunkBlockSize - zlen (encode (finalHeader c))))) ChunkBlockSize
        (encode (finalHeader c) ++ zeros (ChunkBlockSize - zlen (encode (finalHeader c)))))).
    { eexists _, _. split; [exact Hb|]. split; [exact Hdec|]. rewrite seal_twice by (done || lia). by rewrite (sealed_tail l l'). }
    assert (Hcont : contentOf (dir s) (fileKey c) = l') by (unfold contentOf; by rewrite Hl'). rewrite Hcont in F1.
    constructor; [done|by rewrite D1|by rewrite Hp1| |].
    + intros k. rewrite F1. destruct (decide (k = fileKey c)) as [->|Hne].
      * rewrite Hfile, lookup_insert_eq. eexists. split; [done|by right].
      * rewrite lookup_insert_ne by done. apply S4.
    + intros q x lx Hq Hx Hlx. rewrite F1. apply elem_of_app in Hq as [Hq|Hq%list_elem_of_singleton].
      * destruct (S5 q x lx Hq Hx Hlx) as (lx' & Hlx' & Hsx). destruct (decide (fileKey x = fileKey c)) as [E|Hne].
        -- rewrite E, lookup_insert_eq. eexists. split; [done|]. rewrite E, Hfile in Hlx. injection Hlx as <-. done.
        -- rewrite lookup_insert_ne by done. by exists lx'.
      * subst q. rewrite Hc in Hx. injection Hx as <-. rewrite lookup_insert_eq. eexists. split; [done|]. rewrite Hfile in Hlx. injection Hlx as <-. done.
  - exists s2. split; [exact E2|]. by rewrite <- app_assoc in H2.
Qed.

Lemma Close_ok s pages : cm_ok s pages -> laid s -> exists s', Close s = (s', Ret tt) /\ sealing s s' (chunks s).
Proof.
  intros H Hl. unfold Close. rewrite stM_bind_get, (cm_open _ _ H), stM_bind_modify.
  destruct (closeLoop_ok (chunks s) s pages (with_isClosed true s) [] H Hl) as (s' & E & Hs).
  - intros p Hp. by apply (la_list _ Hl).
  - constructor; try done; try apply Hl.
    + intros k. cbn. destruct (chunkFiles (dir s) !! k) as [l|]; [|done]. exists l. by auto.
    + intros p c l Hp. by apply elem_of_nil in Hp.
  - exists s'. rewrite (stM_bind_ret _ _ _ _ _ E). done.
Qed.

(** *** Scanning a file *)

Lemma ReadAt_clean k l n off s : clean s -> chunkFiles (dir s) !! k = Some l -> off + n <= zlen l ->
  ReadAt k n off s = (s, Ret (ztake n (zdrop off l))).
Proof.
  intros Hc Hk Hl. unfold ReadAt. rewrite os_call_clean by done. rewrite stM_bind_get. unfold contentOf. rewrite Hk.
  cbn [default from_option Datatypes.id]. by rewrite (proj2 (Z.leb_le _ _)).
Qed.

Lemma blank_frame : validFrame (zeros MaxDiskPageSize) = Ret None.
Proof. vm_compute. reflexivity. Qed.

(** Behind the last frame the scan finds nothing. *)
Lemma scan_blank fuel c l s off miss m : clean s -> chunkFiles (dir s) !! fileKey c = Some l -> zlen l = capacity c -> 0 <= off ->
  zdrop off l = zeros (capacity c - off) -> scanLoop fuel c off miss m s = (s, Ret m).
Proof.
  intros Hc Hk Hl. revert off miss. induction fuel as [|fuel IH]; intros off miss Ho Hz; cbn [scanLoop]; [done|].
  destruct (Z.ltb_spec (capacity c) (off + MaxDiskPageSize)) as [|Hfit]; [done|]. change MaxDiskPageSize with 4100 in *.
  rewrite (ReadAt_clean _ l) by (done || lia). rewrite Hz.
  assert (E : ztake 4100 (zeros (capacity c - off)) = zeros MaxDiskPageSize).
  { change MaxDiskPageSize with 4100. unfold ztake, zeros. rewrite take_replicate. f_equal. lia. }
  rewrite E, blank_frame, stM_bind_lift. destruct (_ <? _); [done|]. apply IH; [lia|].
  rewrite <- zdrop_zdrop by lia. rewrite Hz, zdrop_zeros by lia. f_equal. lia.
Qed.

(** Frames from [i] on; [l] has the frames [ts]. *)
Lemma scan_frames ts c l s : clean s -> chunkFiles (dir s) !! fileKey c = Some l -> zlen l = capacity c -> cid_ok (id c) ->
  Forall (fun t => 0 <= t < 32) ts -> frameOff (length ts) <= capacity c -> capacity c < 2 ^ 32 ->
  (forall i t, ts !! i = Some t -> validFrame (ztake fullSize (zdrop (frameOff i) l)) = Ret (Some t)) ->
  zdrop (frameOff (length ts)) l = zeros (capacity c - frameOff (length ts)) ->
  forall n i fuel, (i + n = length ts)%nat -> (n <= fuel)%nat ->
  scanLoop fuel c (frameOff i) 0 (posMap (id c) (take i ts)) s = (s, Ret (posMap (id c) ts)).
Proof.
  intros Hc Hk Hl Hid Hts Hfit Hcap Hfr Hz. induction n as [|n IH]; intros i fuel Hi Hf.
  - replace i with (length ts) by lia. rewrite firstn_all. eapply scan_blank; try done. unfold frameOff.
    change ChunkHeaderSize with 8192. change fullSize with 4100. lia.
  - destruct fuel as [|fuel]; [lia|]. destruct (lookup_lt_is_Some_2 ts i ltac:(lia)) as [t Ht]. pose proof (Hfr i t Ht) as Hv.
    assert (Ho : frameOff i + 4100 <= frameOff (length ts)) by (unfold frameOff; change fullSize with 4100; lia).
    assert (Hs : frameOff i + 4100 = frameOff (S i)) by (unfold frameOff; change fullSize with 4100; lia).
    assert (H0 : 0 <= frameOff i) by (unfold frameOff; change ChunkHeaderSize with 8192; change fullSize with 4100; lia).
    cbn [scanLoop]. change MaxDiskPageSize with 4100. change fullSize with 4100 in Hv. rewrite (proj2 (Z.ltb_ge _ _)) by lia.
    rewrite (ReadAt_clean _ l) by (done || lia). rewrite Hv, stM_bind_lift. rewrite u32_id by (unfold is_u32; lia).
    rewrite Forall_forall in Hts. destruct (posOf_fields (id c) i t Hid) as (-> & _); [lia|apply Hts; by eapply list_elem_of_lookup_2|].
    rewrite Hs. rewrite <- (IH (S i) fuel) by lia. rewrite (take_S_r ts i t Ht), posMap_snoc, length_take. do 3 f_equal. lia.
Qed.

(** *** Restoring one chunk *)

(** The file of a closed chunk: [l'] is [l] with headers. *)
Lemma sealed_reads l l' off n : sealed_file l l' -> ChunkHeaderSize <= zlen l -> ChunkHeaderSize <= off -> ztake n (zdrop off l') = ztake n (zdrop off l).
Proof.
  intros Hs Hl Ho. assert (Hz : ChunkHeaderSize <= zlen l') by (rewrite (sealed_length l l'); auto).
  pose proof (sealed_tail l l' ltac:(symmetry; apply sealed_length; auto) (or_intror Hs) Hl) as E. change ChunkHeaderSize with 8192 in *.
  replace off with (8192 + (off - 8192)) by lia. rewrite <- !zdrop_zdrop by lia. by rewrite E.
Qed.

Lemma readHeader_sealed k l l' s : clean s -> chunkFiles (dir s) !! k = Some l' -> sealed_file l l' -> exists h, readHeader k s = (s, Ret h).
Proof.
  intros Hc Hk (b & h & Hb & Hd & ->). exists h. change ChunkBlockSize with 4096 in Hb. unfold readHeader, mbind at 1, stM_bind at 1, onErr.
  pose proof (zlen_nonneg (zdrop ChunkHeaderSize l)).
  rewrite (ReadAt_clean _ (b ++ b ++ zdrop ChunkHeaderSize l)) by (done || (rewrite !zlen_app, Hb; change ChunkHeaderSize with 8192 in *; lia)).
  rewrite zdrop_0, app_assoc, ztake_app_exact by (rewrite zlen_app, Hb; done). change ChunkBlockSize with 4096.
  rewrite (slice_spec _ 0), stM_bind_lift by (rewrite ?zlen_app; lia). rewrite slice_spec, stM_bind_lift by (rewrite zlen_app, Hb; lia).
  rewrite zdrop_0, Z.sub_0_r, ztake_app_exact, Hd by done. done.
Qed.

(** The chunk as a restored manager knows it. *)
Lemma restoreChunk_sealed cid c l l' ts s : clean s -> chunk_ok cid c -> laid_chunk cid c l ts -> chunkFiles (dir s) !! fileKey c = Some l' ->
  sealed_file l l' -> restoreChunk (fileKey c) s = (s, Ret (Some (with_removed ∅ c))).
Proof.
  intros Hc [O1 O2 O3 O4] Hlc Hk Hs. pose proof Hlc as [C1 C2 C3 C4 C5 C6 C7].
  assert (Hz : ChunkHeaderSize <= zlen l) by lia. pose proof (sealed_length l l' (or_intror Hs) Hz) as Hlen.
  unfold restoreChunk. assert (E0 : ((_ ← os_call (mret tt); os_call (mret tt)) : cmM unit) s = (s, Ret tt)).
  { unfold mbind at 1, stM_bind at 1. rewrite !os_call_clean by done. cbn. by rewrite os_call_clean. }
  rewrite E0. destruct (readHeader_sealed _ l l' s Hc Hk Hs) as [h ->].
  unfold contentOf. rewrite Hk. cbn [default from_option Datatypes.id]. rewrite Hlen, C1. cbn [fst snd fileKey].
  set (c0 := mkChunk (id c) (seq c) (capacity c) ChunkHeaderSize ∅ ∅).
  assert (Escan : scanPageFrames c0 s = (s, Ret (posMap (id c) ts))).
  { unfold scanPageFrames. change ∅ with (posMap (id c0) (take 0 ts)). change (id c) with (id c0).
    replace ChunkHeaderSize with (frameOff 0) by (unfold frameOff; lia).
    apply (scan_frames ts c0 l' s) with (n := length ts); try done; cbn [c0 capacity id]; rewrite <- ?C2; try lia.
    - unfold cid_ok. by rewrite O1.
    - intros i t Ht. rewrite (sealed_reads l l') by (done || (unfold frameOff; change fullSize with 4100; lia)). by apply C5.
    - assert (E : zdrop (nextOffset c) l' = ztake (zlen l) (zdrop (nextOffset c) l')).
      { symmetry. apply ztake_all. rewrite zlen_zdrop_max. change ChunkHeaderSize with 8192 in O3. lia. }
      rewrite E, (sealed_reads l l') by done. rewrite ztake_all by (rewrite zlen_zdrop_max; change ChunkHeaderSize with 8192 in O3; lia). done.
    - rewrite C2 in C3. unfold frameOff in C3. change ChunkHeaderSize with 8192 in C3. change fullSize with 4100 in C3. change MaxDiskPageSize with 4100.
      assert (Z.of_nat (length ts) <= capacity c / 4100); [|lia]. apply Z.div_le_lower_bound; lia. }
  rewrite (stM_bind_ret _ _ _ _ _ Escan).
  assert (Hsz : size (posMap (id c) ts) = length ts) by (apply posMap_size; [unfold cid_ok; by rewrite O1|lia|done]).
  assert (E : (if 0 <? Z.of_nat (size (posMap (id c) ts))
    then with_nextOffset (ChunkHeaderSize + Z.of_nat (size (posMap (id c) ts)) * MaxDiskPageSize) (with_pages (posMap (id c) ts) c0) else c0) = with_removed ∅ c).
  { rewrite Hsz. unfold c0, with_nextOffset, with_pages, with_removed. cbn. rewrite C2, C7, O1. destruct (Z.ltb_spec 0 (Z.of_nat (length ts))); [done|].
    assert (Hts : ts = []) by (destruct ts; [done|cbn in *; lia]). subst ts. done. }
  rewrite E. done.
Qed.

(** *** Restoring all chunks *)

Definition inChunks (ids : list Z) (pages : gmap Z bytes) : gmap Z bytes := filter (fun kd => ChunkID kd.1 ∈ ids) pages.

(** [s] has restored the chunks [ids] of the closed store [s0]. *)
Record restoring (s0 : DiskChunkManager) (pages : gmap Z bytes) (d : Dir) (s : DiskChunkManager) (ids : list Z) : Prop := {
  rs_ok : cm_ok s (inChunks ids pages);
  rs_dir : dir s = d;
  rs_ids : forall i, is_Some (idToChunk s !! i) <-> i ∈ ids;
  rs_chunks : length (chunks s) = length ids }.

Lemma inChunks_snoc ids i pages : inChunks (ids ++ [i]) pages = inChunks [i] pages ∪ inChunks ids pages.
Proof.
  apply map_eq. intros pos. apply option_eq. intros d. unfold inChunks. rewrite lookup_union_Some_raw, !map_lookup_filter_Some, map_lookup_filter_None.
  cbn. rewrite elem_of_app, list_elem_of_singleton. split.
  - intros [Hd [Hi|Hi]]; [|by left]. destruct (decide (ChunkID pos = i)); [by left|right]. split; [right; intros x _ Hx%list_elem_of_singleton; done|done].
  - intros [[Hd Hi]|[_ [Hd Hi]]]; auto.
Qed.

(** A page of the closed store is in the file. *)
Lemma sealed_page s0 s2 pages ds cid p c pos d : cm_ok s0 pages -> laid s0 -> sealing s0 s2 ds -> p ∈ ds -> chunkAt s0 cid p c ->
  pages !! pos = Some d -> ChunkID pos = cid ->
  is_u64 pos /\ 0 < zlen d < 2 ^ 31 /\ pagePosToLen c !! pos = Some (zlen d) /\
  ChunkHeaderSize <= FileOffset pos /\ FileOffset pos + zlen d <= nextOffset c /\
  exists l, chunkFiles (dir s2) !! fileKey c = Some l /\ FileOffset pos + zlen d <= zlen l /\ ztake (zlen d) (zdrop (FileOffset pos) l) = d.
Proof.
  intros H Hl Hs Hp [Hid Hc] Hd Ei. destruct (cm_pages _ _ H _ _ Hd) as [Hu Hz (q & x & l & [Hx1 Hx2] & Hfile & Hlen & Ho & Hend & Hin & Hrd)].
  rewrite Ei, Hid in Hx1. injection Hx1 as <-. rewrite Hc in Hx2. injection Hx2 as <-.
  split; [done|]. split; [done|]. split; [done|]. split; [done|]. split; [done|].
  destruct (sl_done _ _ _ Hs p c l Hp Hc Hfile) as (l' & Hl' & Hsl). assert (Hh : ChunkHeaderSize <= zlen l) by lia.
  exists l'. split; [done|]. split; [rewrite (sealed_length l l') by auto; done|]. by rewrite (sealed_reads l l').
Qed.

Lemma adopt_eq c s : adopt c s = addChunk c (with_ids (bitSet (chunkIDs s) (id c)) (maxSeq s) s).
Proof. reflexivity. Qed.

(** One chunk more. *)
Lemma adopt_ok s0 s2 pages ds s ids cid p c : cm_ok s0 pages -> laid s0 -> sealing s0 s2 ds -> p ∈ ds -> chunkAt s0 cid p c ->
  cid ∉ ids -> restoring s0 pages (dir s2) s ids -> restoring s0 pages (dir s2) (adopt (with_removed ∅ c) s) (ids ++ [cid]).
Proof.
  intros H Hl Hs Hp Hat Hnew [R1 R2 R3 R4]. destruct (cm_chunk _ _ H _ _ (proj1 Hat)) as (c' & Hc' & Hok). rewrite (proj2 Hat) in Hc'. injection Hc' as <-.
  assert (Eid : id c = cid) by apply Hok. assert (Hid : idToChunk s !! cid = None).
  { destruct (idToChunk s !! cid) eqn:E; [|done]. by destruct Hnew; apply R3; eexists. }
  constructor.
  - rewrite adopt_eq, inChunks_snoc. apply (addChunk_gen _ _ _ 0); cbn [id with_removed].
    + rewrite Eid. apply mark_ok; [done|apply Hok|done].
    + destruct Hok. constructor; [done| |done|done]. by rewrite Eid.
    + cbn. by rewrite Eid.
    + cbn. rewrite Eid, bitTest_set, Z.eqb_refl by apply Hok. done.
    + cbn. rewrite R2. destruct (la_chunk _ Hl _ _ _ Hat) as (l & ts & Hf & _).
      destruct (sl_done _ _ _ Hs p c l Hp (proj2 Hat) Hf) as (l' & Hl' & _). by exists l'.
    + intros pos d [Hd Hi]%map_lookup_filter_Some. cbn in Hi. apply list_elem_of_singleton in Hi.
      cbn. rewrite R2, Eid. destruct (sealed_page s0 s2 pages ds cid p c pos d) as (? & ? & ? & ? & ? & ?); done.
    + cbn. intros pos Hpos. destruct (la_chunk _ Hl _ _ _ Hat) as (l & ts & Hf & Hlc). destruct (cm_known _ _ H cid p c pos Hat Hpos) as [d Hd].
      exists d. apply map_lookup_filter_Some. split; [done|]. cbn. apply list_elem_of_singleton.
      destruct Hpos as [n Hn]. rewrite (lc_pages _ _ _ _ Hlc) in Hn. apply posMap_Some in Hn as (_ & i & t & Ht & ->).
      apply (posOf_fields cid i t).
      * apply Hok.
      * pose proof (lc_fits _ _ _ _ Hlc) as Hf2. rewrite (lc_next _ _ _ _ Hlc) in Hf2. pose proof (co_cap _ _ Hok). apply lookup_lt_Some in Ht.
        unfold frameOff in *. change fullSize with 4100 in *. lia.
      * pose proof (lc_types _ _ _ _ Hlc) as Hty. rewrite Forall_forall in Hty. apply Hty. by eapply list_elem_of_lookup_2.
  - exact R2.
  - intros i. cbn. rewrite Eid, elem_of_app, list_elem_of_singleton. destruct (decide (i = cid)) as [->|Hne].
    + rewrite lookup_insert_eq. split; [by right|by eexists].
    + rewrite lookup_insert_ne, R3 by done. tauto.
  - cbn. rewrite !length_app, R4. done.
Qed.

Lemma restoreLoop_ok ks s0 s2 pages ds s ids : cm_ok s0 pages -> laid s0 -> sealing s0 s2 ds -> NoDup (ids ++ ks.*1) ->
  (forall k, k ∈ ks -> exists cid p c, chunkAt s0 cid p c /\ p ∈ ds /\ fileKey c = k) -> restoring s0 pages (dir s2) s ids ->
  exists s', restoreLoop ks s = (s', Ret tt) /\ restoring s0 pages (dir s2) s' (ids ++ ks.*1).
Proof.
  intros H Hl Hs. revert s ids. induction ks as [|k ks IH]; intros s ids Hn Hks Hr; cbn [restoreLoop].
  { exists s. rewrite app_nil_r. done. }
  destruct (Hks k ltac:(apply list_elem_of_here)) as (cid & p & c & Hat & Hp & <-).
  destruct (cm_chunk _ _ H _ _ (proj1 Hat)) as (c' & Hc' & Hok). rewrite (proj2 Hat) in Hc'. injection Hc' as <-.
  destruct (la_chunk _ Hl _ _ _ Hat) as (l & ts & Hf & Hlc). destruct (sl_done _ _ _ Hs p c l Hp (proj2 Hat) Hf) as (l' & Hl' & Hsl).
  assert (Hc : clean s) by (unfold clean; rewrite (rs_dir _ _ _ _ _ Hr); apply (sl_clean _ _ _ Hs)).
  rewrite (stM_bind_ret _ _ _ _ _ (restoreChunk_sealed cid c l l' ts s Hc Hok Hlc ltac:(by rewrite (rs_dir _ _ _ _ _ Hr)) Hsl)).
  rewrite stM_bind_modify. cbn [fmap list_fmap fst fileKey] in *. rewrite (co_id _ _ Hok) in *.
  destruct (IH (adopt (with_removed ∅ c) s) (ids ++ [cid])) as (s' & E & Hr').
  - by rewrite <- app_assoc.
  - intros k Hk. apply Hks. by apply list_elem_of_further.
  - eapply adopt_ok; try done. intros Hin. apply NoDup_app in Hn as (_ & Hn & _). apply (Hn cid Hin). apply list_elem_of_here.
  - exists s'. split; [exact E|]. by rewrite <- app_assoc in Hr'.
Qed.

(** *** Restoring a store *)

(** Files that are not empty and have different ids are all kept. *)
Lemma addEntries_ok es b s : (forall e, e ∈ es -> zlen e.2 <> 0) -> NoDup (map (fun e => e.1.1) es) -> (forall e, e ∈ es -> b !! e.1.1 = None) ->
  exists b', addEntries es b s = (s, Ret b') /\ forall i q, b' !! i = Some q <-> b !! i = Some q \/ (i, q) ∈ es.*1.
Proof.
  revert b. induction es as [|[[i q] l] es IH]; intros b Hz Hn Hb; cbn [addEntries].
  { exists b. split; [done|]. intros i q. rewrite elem_of_nil. tauto. }
  pose proof (Hz _ (list_elem_of_here _ _)) as Hl. pose proof (Hb _ (list_elem_of_here _ _)) as Hi. cbn in Hl, Hi.
  cbn [map fst] in Hn. apply NoDup_cons in Hn as [Hin Hn]. unfold addEntry. rewrite (proj2 (Z.eqb_neq _ _)) by done. rewrite Hi.
  destruct (IH (<[i := q]> b)) as (b' & E & Hb').
  - intros e He. apply Hz. by apply list_elem_of_further.
  - done.
  - intros e He. rewrite lookup_insert_ne; [apply Hb; by apply list_elem_of_further|]. intros E. apply Hin. rewrite E. by apply (list_elem_of_fmap_2 (fun e => e.1.1)).
  - exists b'. split; [exact E|]. intros j r. rewrite Hb'. cbn [fmap list_fmap fst]. rewrite elem_of_cons, lookup_insert_Some. split.
    + intros [[[<- <-]|[_ H]]|H]; auto.
    + intros [H|[[= -> ->]|H]]; auto. destruct (decide (i = j)) as [->|]; [congruence|auto].
Qed.

Lemma New_clean size s : clean s -> size < 2 ^ 32 -> exists s', NewDiskChunkManager size s = (s', Ret tt).
Proof.
  intros Hc Hs. unfold NewDiskChunkManager. change (Z.shiftl 1 32 - 1) with (2 ^ 32 - 1). unfold DefaultChunkCapacity.
  rewrite (proj2 (Z.ltb_ge _ _)) by (destruct (Z.leb_spec size 0); lia). unfold mbind, stM_bind, onErr, MkdirAll. rewrite os_call_clean by done. by eexists.
Qed.

Lemma New_laid d size s : chunkFiles d = ∅ -> faults d = [] -> NewDiskChunkManager size (emptyManager d 0) = (s, Ret tt) ->
  frameOff 1 <= chunkSize s -> cm_ok s ∅ /\ laid s.
Proof.
  intros Hd Hf E Hs. destruct (New_ok _ _ _ Hd E) as (H & _ & Hc & Hi & Hfiles & Hdir). split; [done|].
  assert (Hch : chunks s = []).
  { revert E. unfold NewDiskChunkManager. destruct (_ <? _); [done|]. unfold mbind, stM_bind, onErr. destruct (MkdirAll _) as [s1 [[]|e|]]; [|done..].
    by intros [= <-]. }
  assert (Hid : idToChunk s = ∅) by (unfold idsOf in Hi; by apply dom_empty_inv_L).
  constructor; [auto|done|done|..].
  - intros cid p c [Hx _]. by rewrite Hid, lookup_empty in Hx.
  - intros k [l Hk]. by rewrite Hfiles, lookup_empty in Hk.
  - intros p. rewrite Hch, Hid. split; [intros Hp; by apply elem_of_nil in Hp|]. intros [i Hx]. by rewrite lookup_empty in Hx.
Qed.

Lemma empty_restoring s0 pages d sz top : 0 < sz < 2 ^ 32 -> restoring s0 pages d (with_ids ∅ top (emptyManager d sz)) [].
Proof.
  intros Hs. assert (E : inChunks [] pages = ∅).
  { apply map_eq. intros pos. rewrite lookup_empty. apply map_lookup_filter_None. right. intros x _ Hx. by apply elem_of_nil in Hx. }
  constructor; [rewrite E; constructor| | |]; cbn; try done.
  - intros cid p c [Hi _]. cbn in Hi. by rewrite lookup_empty in Hi.
  - intros p [c Hc]. by rewrite lookup_empty in Hc.
  - intros i Hi. rewrite bitTest_empty by done. split; [done|]. intros [p Hp]. by rewrite lookup_empty in Hp.
  - intros cid p c pos [Hi _]. cbn in Hi. by rewrite lookup_empty in Hi.
  - intros i. rewrite lookup_empty, elem_of_nil. split; [by intros []|done].
Qed.

(** The files of a closed store are those of its chunks. *)
Lemma closed_file s0 s2 : laid s0 -> sealing s0 s2 (chunks s0) -> forall k,
  is_Some (chunkFiles (dir s2) !! k) <-> exists cid p c, chunkAt s0 cid p c /\ p ∈ chunks s0 /\ fileKey c = k.
Proof.
  intros Hl Hs k. pose proof (sl_files _ _ _ Hs k) as Hk. split.
  - intros Hx. destruct (chunkFiles (dir s0) !! k) as [l|] eqn:E; [|rewrite Hk in Hx; by destruct Hx].
    destruct (la_files _ Hl k ltac:(by eexists)) as (cid & p & c & Hat & Ek). exists cid, p, c. split; [done|]. split; [|done].
    apply (la_list _ Hl). exists cid. apply Hat.
  - intros (cid & p & c & Hat & _ & <-). destruct (la_chunk _ Hl _ _ _ Hat) as (l & ts & Hf & _). rewrite Hf in Hk. destruct Hk as (l' & Hl' & _). by exists l'.
Qed.

Lemma closed_nonempty s0 s2 pages k l' : cm_ok s0 pages -> laid s0 -> sealing s0 s2 (chunks s0) -> chunkFiles (dir s2) !! k = Some l' -> zlen l' <> 0.
Proof.
  intros H Hl Hs Hk. destruct (proj1 (closed_file s0 s2 Hl Hs k) ltac:(by eexists)) as (cid & p & c & Hat & Hp & <-).
  destruct (la_chunk _ Hl _ _ _ Hat) as (l & ts & Hf & [C1 C2 C3 _ _ _ _]). destruct (sl_done _ _ _ Hs p c l Hp (proj2 Hat) Hf) as (l1 & Hl1 & Hsl).
  rewrite Hk in Hl1. injection Hl1 as <-. destruct (cm_chunk _ _ H _ _ (proj1 Hat)) as (c' & Hc' & Hok). rewrite (proj2 Hat) in Hc'. injection Hc' as <-.
  pose proof (co_next _ _ Hok) as Hn. rewrite (sealed_length l l') by (auto || lia). rewrite C1. change ChunkHeaderSize with 8192 in Hn. lia.
Qed.

(** The listing of a closed store: every chunk's file, once. *)
Lemma closed_entries s0 s2 pages : cm_ok s0 pages -> laid s0 -> sealing s0 s2 (chunks s0) ->
  exists b, addEntries (map_to_list (chunkFiles (dir s2))) ∅ (emptyManager (dir s2) 0) = (emptyManager (dir s2) 0, Ret b) /\
    forall i q, b !! i = Some q <-> exists p c, chunkAt s0 i p c /\ p ∈ chunks s0 /\ fileKey c = (i, q).
Proof.
  intros H Hl Hs. assert (Hkey : forall k l, (k, l) ∈ map_to_list (chunkFiles (dir s2)) -> exists p c, chunkAt s0 k.1 p c /\ p ∈ chunks s0 /\ fileKey c = k).
  { intros k l Hk%elem_of_map_to_list. destruct (proj1 (closed_file s0 s2 Hl Hs k) ltac:(by eexists)) as (cid & p & c & Hat & Hp & <-).
    destruct (cm_chunk _ _ H _ _ (proj1 Hat)) as (c' & Hc' & Hok). rewrite (proj2 Hat) in Hc'. injection Hc' as <-. exists p, c. cbn. by rewrite (co_id _ _ Hok). }
  destruct (addEntries_ok (map_to_list (chunkFiles (dir s2))) ∅ (emptyManager (dir s2) 0)) as (b & E & Hb).
  - intros [k l] Hk%elem_of_map_to_list. cbn. by eapply closed_nonempty.
  - apply NoDup_fmap_2_strong; [|apply NoDup_map_to_list]. intros [[i q] l] [[j r] x] Hk Hk' Eij. cbn in Eij. subst j.
    destruct (Hkey _ _ Hk) as (p & c & [Hi Hc] & _ & Ec). destruct (Hkey _ _ Hk') as (p' & c' & [Hi' Hc'] & _ & Ec'). cbn in Hi, Hi'.
    rewrite Hi in Hi'. injection Hi' as <-. rewrite Hc in Hc'. injection Hc' as <-. rewrite Ec in Ec'. injection Ec' as <-.
    apply elem_of_map_to_list in Hk, Hk'. congruence.
  - intros e _. apply lookup_empty.
  - exists b. split; [exact E|]. intros i q. rewrite Hb, lookup_empty. split.
    + intros [|Hk]; [done|]. apply list_elem_of_fmap in Hk as ([k l] & Ek & Hk). cbn in Ek. subst k. by apply Hkey in Hk.
    + intros (p & c & Hat & Hp & Ek). right. apply list_elem_of_fmap.
      destruct (proj2 (closed_file s0 s2 Hl Hs (i, q))) as [l Hkl]; [by exists i, p, c|]. exists (i, q, l). split; [done|]. by apply elem_of_map_to_list.
Qed.

(** A closed store is restored with its chunks and its pages. *)
Lemma Restore_ok s0 s2 pages size : cm_ok s0 pages -> laid s0 -> sealing s0 s2 (chunks s0) -> size < 2 ^ 32 ->
  exists s3, RestoreDiskChunkManager size (emptyManager (dir s2) 0) = (s3, Ret tt) /\ cm_ok s3 pages /\ clean s3 /\ idsOf s3 = idsOf s0.
Proof.
  intros H Hl Hs Hsz. pose proof (sl_clean _ _ _ Hs) as Hc. unfold RestoreDiskChunkManager. rewrite stM_bind_get. cbn [dir emptyManager].
  rewrite (sl_dir _ _ _ Hs). cbn [negb]. destruct (closed_entries s0 s2 pages H Hl Hs) as (b & Eb & Hb).
  unfold mbind at 1, stM_bind at 1, onErr. rewrite os_call_clean by done. rewrite stM_bind_get. cbn [mret stM_ret dir emptyManager].
  rewrite (stM_bind_ret _ _ _ _ _ Eb). pose proof (merge_sort_Permutation seq_le (map_to_list b)) as Hperm. fold (sortedFiles b) in Hperm.
  assert (Hin : forall i q, (i, q) ∈ sortedFiles b <-> exists p c, chunkAt s0 i p c /\ p ∈ chunks s0 /\ fileKey c = (i, q)).
  { intros i q. rewrite Hperm, elem_of_map_to_list. apply Hb. }
  assert (Hids : forall i, i ∈ (sortedFiles b).*1 <-> is_Some (idToChunk s0 !! i)).
  { intros i. split.
    - intros Hi. apply list_elem_of_fmap in Hi as ([j q] & -> & Hj). apply Hin in Hj as (p & c & [Hj _] & _). by eexists.
    - intros [p Hp]. destruct (cm_chunk _ _ H _ _ Hp) as (c & Hcc & Hok). apply list_elem_of_fmap. exists (i, seq c). split; [done|].
      apply Hin. exists p, c. split; [done|]. split; [apply (la_list _ Hl); by exists i|]. unfold fileKey. by rewrite (co_id _ _ Hok). }
  assert (Hall : forall pos d, pages !! pos = Some d -> ChunkID pos ∈ (sortedFiles b).*1).
  { intros pos d Hd. apply Hids. destruct (cm_pages _ _ H _ _ Hd) as [_ _ (q & x & l & [Hx _] & _)]. by eexists. }
  destruct (last (sortedFiles b)) as [[i top]|] eqn:Elast.
  - rewrite stM_bind_modify. cbn [dir emptyManager]. set (sz := if size <=? 0 then _ else size). set (s' := with_ids ∅ top _).
    destruct (restoreLoop_ok (sortedFiles b) s0 s2 pages (chunks s0) s' [] H Hl Hs) as (s3 & E3 & [R1 R2 R3 R4]).
    + cbn. rewrite Hperm. apply NoDup_fst_map_to_list.
    + intros [j q] Hj. apply Hin in Hj as (p & c & Hat & Hp & Ek). by exists j, p, c.
    + apply empty_restoring. unfold sz, DefaultChunkCapacity. destruct (Z.leb_spec size 0); lia.
    + rewrite (stM_bind_ret _ _ _ _ _ E3), stM_bind_get. cbn [app] in *. assert (Hne : chunks s3 <> []).
      { intros E. rewrite E in R4. destruct (sortedFiles b); [done|]. cbn in R4. lia. }
      exists s3. split; [by destruct (chunks s3)|]. split; [|split].
      * assert (E : inChunks (sortedFiles b).*1 pages = pages); [|by rewrite E in R1].
        apply map_filter_id. intros pos d Hd. by eapply Hall.
      * unfold clean. by rewrite R2.
      * apply set_eq. intros j. unfold idsOf. rewrite !elem_of_dom, R3. apply Hids.
  - apply last_None in Elast. rewrite Elast in *. cbn in Hids, Hall. destruct (New_clean size (emptyManager (dir s2) 0) Hc Hsz) as [s3 E3].
    exists s3. split; [exact E3|]. assert (Hfiles : chunkFiles (dir s2) = ∅).
    { apply map_eq. intros k. rewrite lookup_empty. apply eq_None_not_Some. intros Hk. apply (closed_file s0 s2 Hl Hs) in Hk as (cid & p & c & Hat & _).
      apply (not_elem_of_nil cid). apply Hids. exists p. apply Hat. }
    destruct (New_ok _ _ _ Hfiles E3) as (H3 & _ & Hc3 & Hi3 & _). assert (Hp : pages = ∅).
    { apply map_eq. intros pos. rewrite lookup_empty. apply eq_None_not_Some. intros [d Hd]. by apply Hall, not_elem_of_nil in Hd. }
    rewrite Hp. split; [done|]. split; [by apply Hc3|]. rewrite Hi3. symmetry. apply set_eq. intros j. unfold idsOf. rewrite elem_of_dom, <- Hids.
    rewrite elem_of_nil. set_solver.
Qed.


(** ** The theorems at work *)

(** A frame of type [t] that holds [x]. *)
Definition onePage (t x : Z) : bytes := frame (zeros 26 ++ [t] ++ zeros 100 ++ [x] ++ zeros (4096 - 128)).
Definition firstPos : Z := 524290.
Definition roomFor4 : Z := ChunkHeaderSize + 4 * fullSize.


(** A hole makes a restored store overwrite a page.  The scan of a file counts
    frames, and the end it restores is the count times the frame size; when a
    position was handed out and never written, the next page after a restart gets
    the position of the last page that is in use. *)
Theorem restore_gap_overwrites :
  let '(s1, a) := putPage 1 (onePage 1 5) (NewDiskChunkManager roomFor4 (emptyManager d0 0)).1 in
  let '(s2, gap) := Allocate fullSize 1 s1 in
  let '(s3, b) := putPage 0 (onePage 0 6) s2 in
  let '(s4, closed) := Close s3 in
  let '(s5, restored) := RestoreDiskChunkManager 0 (emptyManager (dir s4) 0) in
  a = Ret firstPos /\ gap = Ret (firstPos + fullSize * 64) /\ b = Ret (firstPos + 2 * fullSize * 64 - 2) /\
  closed = Ret tt /\ restored = Ret tt /\
  (ReadPage (firstPos + 2 * fullSize * 64 - 2) s5).2 = Ret (onePage 0 6) /\
  (Allocate fullSize 0 s5).2 = b.
Proof. vm_compute. repeat split. Qed.

(** Compaction moves pages without telling where to.  Of two chunks the first
    has one live page and three freed ones; after [Compact] the first chunk is gone, the
    live page was copied to the second, and reading it at the position its owner
    knows fails. *)
Theorem compact_moves_pages :
  let fill := [Put 1 (onePage 1 1); Put 1 (onePage 1 2); Put 1 (onePage 1 3); Put 1 (onePage 1 4); Put 0 (onePage 0 5);
               Drop (firstPos + 4100 * 64); Drop (firstPos + 2 * 4100 * 64); Drop (firstPos + 3 * 4100 * 64)] in
  let s := (execAll fill (NewDiskChunkManager roomFor4 (emptyManager d0 0)).1).1 in
  let s' := (Compact 40 s).1 in
  (ReadPage firstPos s).2 = Ret (onePage 1 1) /\ (Compact 40 s).2 = Ret tt /\
  (exists e, (ReadPage firstPos s').2 = Fail e /\ IsErr e ErrChunkNotFound = true) /\
  exists pos, pos <> firstPos /\ (ReadPage pos s').2 = Ret (onePage 1 1).
Proof.
  intros fill s s'. split; [vm_compute; reflexivity|]. split; [vm_compute; reflexivity|].
  split; [eexists; split; vm_compute; reflexivity|]. exists (2 ^ 38 + firstPos + 4100 * 64). split; [vm_compute; discriminate|vm_compute; reflexivity].
Qed.
