(* ===== verification/Checkpoint.v ===== *)
(** * Checkpoints (checkpoint/checkpoint_manager.go)

    A checkpoint copies the pages of the tree to the chunk store, writes a record
    with their positions to the log and cuts the log.  The state is the log and
    the chunk store of the manager, each the state of its own file; the tree is
    seen through [root] and [enumerate], the results of RootPage and
    EnumeratePages.  [order] is the order in which Go ranges over the map of page
    locations.  Goroutines the checkpoint starts are noted in [spawned]. *)

From stdpp Require Import base list gmap strings.
From Stdlib Require Import ZArith Lia.
From S2P Require Import Prelude WalFormat OffHeap ChunkFormat ChunkStore.
From S2P Require Import DiskWal Recovery.

Local Open Scope Z_scope.

Abbreviation DiskChunkManager := ChunkStore.DiskChunkManager.
Abbreviation cm_ok := ChunkStore.cm_ok.

(** ** The manager *)

Record PageFlushItem := mkItem {
  i_PageID : Z;
  i_PageType : Z;
  i_PageData : option bytes;
  i_ChunkPos : Z }.

Record Stats := mkStats {
  LastCheckpointLSN : Z;
  TotalCheckpoints : Z }.

Inductive background := GoCompact | GoTryCompact.

Record Manager := mkManager {
  wal : World;
  cm : option DiskChunkManager;
  compactor : option Z;      (* the minimal fill rate of the ChunkCompactor *)
  canCompact : bool;         (* the tree has TryCompact *)
  stats : Stats;
  spawned : list background }.

Abbreviation ckM := (stM Manager).

Definition set_wal (w : World) (m : Manager) : Manager := mkManager w (cm m) (compactor m) (canCompact m) (stats m) (spawned m).
Definition set_cm (c : DiskChunkManager) (m : Manager) : Manager := mkManager (wal m) (Some c) (compactor m) (canCompact m) (stats m) (spawned m).
Definition set_stats (g : Stats -> Stats) (m : Manager) : Manager := mkManager (wal m) (cm m) (compactor m) (canCompact m) (g (stats m)) (spawned m).
Definition go (b : background) (m : Manager) : Manager := mkManager (wal m) (cm m) (compactor m) (canCompact m) (stats m) (spawned m ++ [b]).

Definition onWal {A} (f : stM World A) : ckM A := fun m => let '(w, r) := f (wal m) in (set_wal w m, r).
Definition onChunks {A} (f : stM DiskChunkManager A) : ckM A := fun m =>
  match cm m with
  | Some c => let '(c, r) := f c in (set_cm c m, r)
  | None => (m, Panic)
  end.

Definition NewManager (w : World) (c : option DiskChunkManager) (canCompact : bool) : Manager :=
  mkManager w c None canCompact (mkStats 0 0) [].
Definition SetCompactor (rate : Z) (m : Manager) : Manager :=
  mkManager (wal m) (cm m) (Some rate) (canCompact m) (stats m) (spawned m).

(** ** The record *)

Section order.
Context (order : gmap Z Z -> list (Z * Z)).

Definition encodeLoc (l : Z * Z) : bytes := be_enc 8 l.1 ++ be_enc 8 l.2.
Definition encodeCheckpointKey (startLSN : Z) (pageLocs : gmap Z Z) : bytes :=
  be_enc 8 startLSN ++ be_enc 4 (u32 (Z.of_nat (size pageLocs))) ++ concat (map encodeLoc (order pageLocs)).
Definition checkpointEntry (key : bytes) : WALEntry := mkWALEntry 0 0 0 WALTypeCheckpoint (Some key) None 0 0 0.

(** Steps 4 to 6: append the record, sync, truncate. *)
Definition writeRecord (startLSN : Z) (pageLocs : gmap Z Z) : ckM unit :=
  _ ← onErr (onWal (Append (checkpointEntry (encodeCheckpointKey startLSN pageLocs)))) (fun e => Wrap e "checkpoint: append entry");
  _ ← onErr (onWal Sync) (fun e => Wrap e "checkpoint: sync");
  onErr (onWal (Truncate startLSN)) (fun e => Wrap e "checkpoint: truncate").

(** Step 3: dirty pages go to new positions. *)
Fixpoint flushItems (items : list PageFlushItem) (pageLocs : gmap Z Z) : ckM (gmap Z Z) :=
  match items with
  | [] => mret pageLocs
  | item :: items =>
      let pageLocs := <[i_PageID item := i_ChunkPos item]> pageLocs in
      match i_PageData item with
      | Some data =>
          if i_ChunkPos item =? 0 then
            pos ← onErr (onChunks (ChunkStore.Allocate (zlen data) (i_PageType item))) (fun e => Wrap e "checkpoint: allocate page");
            _ ← onErr (onChunks (ChunkStore.WritePage pos data)) (fun e => Wrap e "checkpoint: write page");
            flushItems items (<[i_PageID item := pos]> pageLocs)
          else flushItems items pageLocs
      | None => flushItems items pageLocs
      end
  end.

Definition flushPages {R} (enumerate : R -> outcome (list PageFlushItem)) (root : R) : ckM (gmap Z Z) :=
  m ← getS;
  match cm m with
  | None => mret ∅
  | Some _ =>
      items ← onErr (liftS (enumerate root)) (fun e => Wrap e "checkpoint: enumerate pages");
      pageLocs ← flushItems items ∅;
      _ ← onErr (onChunks ChunkStore.Sync) (fun e => Wrap e "checkpoint: sync chunks");
      mret pageLocs
  end.

Definition countCheckpoint (startLSN : Z) (m : Manager) : Manager :=
  set_stats (fun t => mkStats startLSN (u64 (TotalCheckpoints t + 1))) m.

Definition startCompaction (m : Manager) : Manager :=
  let m := match compactor m, cm m with
    | Some rate, Some c => if ChunkStore.NeedCompaction rate c then go GoCompact m else m
    | _, _ => m
    end in
  if canCompact m then go GoTryCompact m else m.

Definition FuzzyCheckpoint {R} (root : option R) (enumerate : R -> outcome (list PageFlushItem)) : ckM unit :=
  m ← getS;
  let startLSN := CurrentLSN (wal m) in
  match root with
  | None => failS (Wrap (Sentinel ErrCheckpointNilRoot) "checkpoint: nil root page")
  | Some root =>
      pageLocs ← flushPages enumerate root;
      _ ← writeRecord startLSN pageLocs;
      _ ← modifyS (countCheckpoint startLSN);
      modifyS startCompaction
  end.

Definition SharpCheckpoint : ckM unit :=
  m ← getS;
  let startLSN := CurrentLSN (wal m) in
  _ ← writeRecord startLSN ∅;
  modifyS (countCheckpoint startLSN).

(** [Run] calls FuzzyCheckpoint at every tick, errors ignored; [Shutdown] ends
    that and takes a last, sharp checkpoint. *)
Definition tick {R} (root : option R) (enumerate : R -> outcome (list PageFlushItem)) : ckM unit := fun m =>
  match FuzzyCheckpoint root enumerate m with
  | (m, Panic) => (m, Panic)
  | (m, _) => (m, Ret tt)
  end.
Definition Shutdown : ckM unit := SharpCheckpoint.

(** ** The record is decoded by recovery *)

Context (order_perm : forall m, order m ≡ₚ map_to_list m).

Lemma encodeLoc_length l : zlen (encodeLoc l) = 16.
Proof. unfold encodeLoc. rewrite zlen_app, !zlen_be_enc. done. Qed.
Lemma locs_length ls : zlen (concat (map encodeLoc ls)) = 16 * zlen ls.
Proof. induction ls as [|l ls IH]; [done|]. cbn [map concat]. rewrite zlen_app, encodeLoc_length, IH, zlen_cons. lia. Qed.

Lemma be_at_mid n pre v suf off : off = zlen pre -> 0 <= v < 256 ^ Z.of_nat n -> be_at n (pre ++ be_enc n v ++ suf) off = Ret v.
Proof.
  intros -> Hv. unfold be_at. rewrite slice_mid by (rewrite ?zlen_be_enc; lia). rewrite bind_ret. by rewrite be_dec_enc_id.
Qed.

Definition loc_ok (l : Z * Z) : Prop := is_u64 l.1 /\ is_u64 l.2.

Lemma pageLocs_decode pre ls n fuel locs : Forall loc_ok ls -> (length ls <= fuel)%nat -> 0 <= n ->
  rm_pageLocs n (zlen pre) (n + zlen ls) (pre ++ concat (map encodeLoc ls)) fuel locs = Ret (foldl (fun m l => <[l.1 := l.2]> m) locs ls).
Proof.
  revert pre n fuel locs. induction ls as [|l ls IH]; intros pre n fuel locs Hl Hf Hn.
  - rewrite zlen_nil, Z.add_0_r. destruct fuel; cbn [rm_pageLocs]; [done|]. by rewrite Z.ltb_irrefl.
  - apply Forall_cons in Hl as [[H1 H2] Hl]. cbn [length] in Hf. destruct fuel as [|fuel]; [lia|]. pose proof (zlen_nonneg ls). cbn [rm_pageLocs map concat].
    rewrite zlen_cons, (proj2 (Z.ltb_lt _ _)) by lia. rewrite !zlen_app, encodeLoc_length, locs_length, (proj2 (Z.leb_le _ _)) by lia. cbn [andb].
    change (encodeLoc l) with (be_enc 8 l.1 ++ be_enc 8 l.2). rewrite <- !app_assoc. rewrite (be_at_mid 8 pre _ _ (zlen pre)) by (done || apply H1). rewrite bind_ret.
    rewrite (app_assoc pre). rewrite be_at_mid by  (rewrite ?zlen_app, ?zlen_be_enc; done || apply H2). rewrite bind_ret.
    assert (E : zlen pre + 16 = zlen ((pre ++ be_enc 8 l.1) ++ be_enc 8 l.2)) by (rewrite !zlen_app, !zlen_be_enc; lia).
    rewrite E, (app_assoc (pre ++ be_enc 8 l.1)). replace (n + (1 + zlen ls)) with (n + 1 + zlen ls) by lia. rewrite IH by (done || lia). done.
Qed.

Lemma insert_all (ls : list (Z * Z)) (acc : gmap Z Z) : NoDup ls.*1 -> foldl (fun m l => <[l.1 := l.2]> m) acc ls = list_to_map ls ∪ acc.
Proof.
  revert acc. induction ls as [|[i p] ls IH]; intros acc Hn; cbn [foldl fst snd]; [by rewrite list_to_map_nil, map_empty_union|].
  cbn [fmap list_fmap fst] in Hn. apply NoDup_cons in Hn as [Hi Hn]. rewrite IH by done. rewrite list_to_map_cons.
  rewrite <- insert_union_l. rewrite insert_union_r by (by apply not_elem_of_list_to_map_1). done.
Qed.

(** The locations of a record: pages and positions are 64-bit numbers. *)
Definition locs_ok (locs : gmap Z Z) : Prop := map_Forall (fun i p => loc_ok (i, p)) locs.

Lemma order_locs locs : locs_ok locs -> Forall loc_ok (order locs).
Proof.
  intros H. rewrite order_perm. apply Forall_forall. intros [i p] Hin%elem_of_map_to_list. by apply (H i p).
Qed.
Lemma order_size locs : zlen (order locs) = Z.of_nat (size locs).
Proof. unfold zlen. by rewrite order_perm, length_map_to_list. Qed.

Lemma key_length start locs : zlen (encodeCheckpointKey start locs) = 12 + 16 * Z.of_nat (size locs).
Proof. unfold encodeCheckpointKey. rewrite !zlen_app, !zlen_be_enc, locs_length, order_size. lia. Qed.

Lemma key_decodes start locs e : 0 < start < 2 ^ 64 -> Z.of_nat (size locs) < 2 ^ 32 -> locs_ok locs ->
  Type_ e = WALTypeCheckpoint -> Key e = Some (encodeCheckpointKey start locs) -> rm_checkpoint [e] 0 ∅ = Ret (start, locs).
Proof.
  intros Hs Hn Hl Ht Hk. cbn [rm_checkpoint]. rewrite Ht, Hk. cbn [default from_option Datatypes.id]. rewrite key_length.
  rewrite (proj2 (Z.ltb_ge _ 12)) by lia. change (WALTypeCheckpoint =? WALTypeCheckpoint) with true. cbn [negb orb].
  pose proof (key_length start locs) as Hlen. unfold encodeCheckpointKey in *.
  pose proof (be_at_mid 8 [] start (be_enc 4 (u32 (Z.of_nat (size locs))) ++ concat (map encodeLoc (order locs))) 0 eq_refl ltac:(lia)) as E8.
  cbn [app] in E8. rewrite E8, bind_ret, (proj2 (Z.ltb_lt 0 start)) by lia.
  rewrite (be_at_mid 4 (be_enc 8 start)) by (rewrite ?zlen_be_enc, ?u32_id by (unfold is_u32; lia); lia). rewrite bind_ret, u32_id by (unfold is_u32; lia).
  rewrite (app_assoc (be_enc 8 start)). rewrite <- order_size.
  change 12 with (zlen (be_enc 8 start ++ be_enc 4 (zlen (order locs)))) at 1.
  replace (zlen (order locs)) with (0 + zlen (order locs)) at 2 by lia.
  rewrite pageLocs_decode; [|by apply order_locs| |lia].
  2: { rewrite length_app. pose proof (locs_length (order locs)). unfold zlen in *. lia. }
  rewrite bind_ret, insert_all by (rewrite order_perm; apply NoDup_fst_map_to_list).
  rewrite map_union_empty. do 2 f_equal. rewrite (list_to_map_proper _ (map_to_list locs)); [by rewrite list_to_map_to_list| |apply order_perm].
  rewrite order_perm. apply NoDup_fst_map_to_list.
Qed.

(** ** Pages reach the chunk store *)

Lemma wp_onChunks {A} (f : stM DiskChunkManager A) m c (Q : A -> Manager -> Prop) (E : Manager -> Prop) : cm m = Some c ->
  wp f c (fun a c' => Q a (set_cm c' m)) (fun c' => E (set_cm c' m)) -> wp (onChunks f) m Q E.
Proof. intros Hc Hw. unfold wp, onChunks in *. rewrite Hc. by destruct (f c) as [c' [a|e|]]. Qed.

(** What a checkpoint records of a page. *)
Definition recorded (pages : gmap Z bytes) (locs : gmap Z Z) (item : PageFlushItem) : Prop :=
  match i_PageData item with
  | Some d => if i_ChunkPos item =? 0 then exists pos, locs !! i_PageID item = Some pos /\ pages !! pos = Some d
              else locs !! i_PageID item = Some (i_ChunkPos item)
  | None => locs !! i_PageID item = Some (i_ChunkPos item)
  end.
Definition item_ok (item : PageFlushItem) : Prop :=
  is_u64 (i_PageID item) /\ is_u64 (i_ChunkPos item) /\
  forall d, i_PageData item = Some d -> i_ChunkPos item = 0 -> ChunkStore.size_ok (zlen d) && ChunkStore.type_ok (i_PageType item) = true.

Lemma recorded_mono pages pages' locs locs' item : pages ⊆ pages' -> locs' !! i_PageID item = locs !! i_PageID item ->
  recorded pages locs item -> recorded pages' locs' item.
Proof.
  intros Hp Hl. unfold recorded. rewrite Hl. destruct (i_PageData item) as [d|]; [|done]. destruct (_ =? 0); [|done].
  intros (pos & H1 & H2). exists pos. split; [done|]. by eapply lookup_weaken.
Qed.

(** The manager after a flush: only the chunk store differs. *)
Definition flushed (m : Manager) (c : DiskChunkManager) (pages : gmap Z bytes) (m' : Manager) (c' : DiskChunkManager) (pages' : gmap Z bytes) : Prop :=
  m' = set_cm c' m /\ cm_ok c' pages' /\ ChunkStore.kept c c' /\ pages ⊆ pages'.

Lemma flushed_trans m c pages m1 c1 pages1 m2 c2 pages2 :
  flushed m c pages m1 c1 pages1 -> flushed m1 c1 pages1 m2 c2 pages2 -> flushed m c pages m2 c2 pages2.
Proof. intros (-> & H1 & H2 & H3) (-> & K1 & K2 & K3). split; [done|]. split; [done|]. split; [by etrans|by etrans]. Qed.

(** Why a flush may fail. *)
Definition noRoom (c c' : DiskChunkManager) : Prop := ~ ChunkStore.clean c \/ ChunkStore.exhausted c'.

Lemma exhausted_kept c c' : ChunkStore.kept c c' -> ChunkStore.exhausted c -> ChunkStore.exhausted c'.
Proof. intros (_ & _ & Hk) He i Hi. by apply Hk, He. Qed.

(** One dirty page. *)
Lemma flushOne_ok m c pages t d : cm m = Some c -> cm_ok c pages -> ChunkStore.size_ok (zlen d) && ChunkStore.type_ok t = true ->
  wp (pos ← onErr (onChunks (ChunkStore.Allocate (zlen d) t)) (fun e => Wrap e "checkpoint: allocate page");
      _ ← onErr (onChunks (ChunkStore.WritePage pos d)) (fun e => Wrap e "checkpoint: write page"); mret pos) m
    (fun pos m' => exists c' pages', flushed m c pages m' c' pages' /\ pages' !! pos = Some d /\ is_u64 pos)
    (fun m' => exists c' pages', flushed m c pages m' c' pages' /\ noRoom c c').
Proof.
  intros Hc H Hok. apply wp_bind, wp_onErr. apply (wp_onChunks _ m c); [done|]. eapply wp_mono; [by apply ChunkStore.Allocate_ok| |].
  2: { intros c' (H' & Hk & Hr). exists c', pages. split; [done|]. destruct Hr as [Hr|[Hr|Hr]]; [by left|right; by eapply exhausted_kept|congruence]. }
  intros pos c1 (Hs & Ht & H1 & Hk & Hnew & Hal). pose proof (ChunkStore.size_ok_bounds _ Hs) as Hb. apply wp_bind, wp_onErr.
  apply (wp_onChunks _ (set_cm c1 m) c1); [done|]. eapply wp_mono; [apply (ChunkStore.WritePage_ok c1 pages pos t d); [done|done|lia]| |].
  - intros [] c2 [H2 Hk2]. apply wp_ret. exists c2, (<[pos := d]> pages). split; [split; [done|]|].
    + split; [done|]. split; [by etrans|]. by apply insert_subseteq.
    + rewrite lookup_insert_eq. split; [done|]. apply Hal.
  - intros c2 (H2 & Hk2 & Hcl). exists c2, pages. split; [split; [done|]; split; [done|]; split; [by etrans|done]|]. left. intros Hcc. by apply Hcl, Hk.
Qed.

(** More steps after a pair of calls. *)
Lemma wp_then {S A B C} (f : stM S A) (g : A -> stM S B) (h : A -> stM S C) s (Q : A -> S -> Prop) (Q' : C -> S -> Prop) (E E' : S -> Prop) :
  wp (a ← f; _ ← g a; mret a) s Q E -> (forall a s', Q a s' -> wp (h a) s' Q' E') -> (forall s', E s' -> E' s') -> wp (a ← f; _ ← g a; h a) s Q' E'.
Proof.
  unfold wp, mbind, stM_bind. destruct (f s) as [s1 [a|e|]]; [|auto..]. destruct (g a s1) as [s2 [b|e|]]; [|auto..]. intros H H' _. by apply H'.
Qed.

Lemma flushItems_ok items : forall m c pages locs, cm m = Some c -> cm_ok c pages -> NoDup (map i_PageID items) -> Forall item_ok items -> locs_ok locs ->
  wp (flushItems items locs) m
    (fun locs' m' => exists c' pages', flushed m c pages m' c' pages' /\ Forall (recorded pages' locs') items /\ locs_ok locs' /\
       (size locs' <= size locs + length items)%nat /\ forall i, i ∉ map i_PageID items -> locs' !! i = locs !! i)
    (fun m' => exists c' pages', flushed m c pages m' c' pages' /\ noRoom c c').
Proof.
  induction items as [|item items IH]; intros m c pages locs Hc H Hn Hok Hl; cbn [flushItems].
  { apply wp_ret. exists c, pages. split; [split; [by destruct m; cbn in *; subst|]; done|]. split; [constructor|]. split; [done|]. split; [lia|done]. }
  cbn [map] in Hn. apply NoDup_cons in Hn as [Hi Hn]. apply Forall_cons in Hok as [[I1 [I2 I3]] Hok].
  (* the rest of the items, from a state where this one is recorded *)
  assert (Hrest : forall m1 c1 pages1 p, flushed m c pages m1 c1 pages1 -> is_u64 p ->
    (forall pages2 locs2, pages1 ⊆ pages2 -> locs2 !! i_PageID item = Some p -> recorded pages2 locs2 item) ->
    forall locs1, locs_ok locs1 -> locs1 !! i_PageID item = Some p -> (forall i, i <> i_PageID item -> locs1 !! i = locs !! i) ->
    (size locs1 <= size locs + 1)%nat ->
    wp (flushItems items locs1) m1
      (fun locs' m' => exists c' pages', flushed m c pages m' c' pages' /\ Forall (recorded pages' locs') (item :: items) /\ locs_ok locs' /\
         (size locs' <= size locs + length (item :: items))%nat /\ forall i, i ∉ map i_PageID (item :: items) -> locs' !! i = locs !! i)
      (fun m' => exists c' pages', flushed m c pages m' c' pages' /\ noRoom c c')).
  { intros m1 c1 pages1 p Hf Hp Hrec locs1 Hl1 Hlp Hlo Hsz. pose proof Hf as (-> & H1 & Hk & Hsub).
    eapply wp_mono; [apply (IH (set_cm c1 m) c1 pages1 locs1); done| |].
    - intros locs' m' (c' & pages' & Hf' & Hr & Hl' & Hsz' & Hkeep). exists c', pages'. split; [by eapply flushed_trans|]. split; [|split; [done|split; [cbn [length]; lia|]]].
      + apply Forall_cons. split; [|done]. apply Hrec; [apply Hf'|]. rewrite Hkeep by done. exact Hlp.
      + cbn [map]. intros i [Hne Hni]%not_elem_of_cons. rewrite Hkeep by done. by apply Hlo.
    - intros m' (c' & pages' & Hf' & Hr). exists c', pages'. split; [by eapply flushed_trans|]. destruct Hr as [Hr|Hr]; [left|by right]. intros Hcl. by apply Hr, Hk. }
  assert (Hself : flushed m c pages m c pages) by (split; [by destruct m; cbn in *; subst|done]).
  assert (Hins : forall p, is_u64 p -> locs_ok (<[i_PageID item := p]> locs)).
  { intros p Hp. apply map_Forall_insert_2; [by split|done]. }
  assert (Hsize : forall p, (size (<[i_PageID item := p]> locs) <= size locs + 1)%nat).
  { intros p. destruct (locs !! i_PageID item) eqn:E; [rewrite map_size_insert_Some by (by eexists)|rewrite map_size_insert_None by done]; lia. }
  assert (Hclean : i_PageData item = None \/ i_ChunkPos item <> 0 ->
    forall pages2 locs2, pages ⊆ pages2 -> locs2 !! i_PageID item = Some (i_ChunkPos item) -> recorded pages2 locs2 item).
  { intros Hor pages2 locs2 _ Hlk. unfold recorded. destruct (i_PageData item) as [d|]; [|done]. destruct Hor as [|Hne]; [done|]. by rewrite (proj2 (Z.eqb_neq _ _) Hne). }
  destruct (i_PageData item) as [d|] eqn:Ed; [destruct (Z.eqb_spec (i_ChunkPos item) 0) as [E0|E0]|].
  - eapply (wp_then _ _ _ m); [apply (flushOne_ok m c pages (i_PageType item) d); [done|done|by apply I3]| |done].
    intros pos m1 (c1 & pages1 & Hf & Hpos & Hu). rewrite insert_insert_eq.
    eapply (Hrest m1 c1 pages1 pos); [done|done| |by apply Hins|by rewrite lookup_insert_eq|intros; by rewrite lookup_insert_ne|done].
    intros pages2 locs2 Hsub Hlk. unfold recorded. rewrite Ed, E0. cbn. exists pos. split; [done|]. by eapply lookup_weaken.
  - eapply (Hrest m c pages (i_ChunkPos item)); [done|done|apply Hclean; by right|by apply Hins|by rewrite lookup_insert_eq|intros; by rewrite lookup_insert_ne|done].
  - eapply (Hrest m c pages (i_ChunkPos item)); [done|done|apply Hclean; by left|by apply Hins|by rewrite lookup_insert_eq|intros; by rewrite lookup_insert_ne|done].
Qed.

Lemma flushPages_ok {R} (enumerate : R -> outcome (list PageFlushItem)) root items m c pages : cm m = Some c -> cm_ok c pages ->
  enumerate root = Ret items -> NoDup (map i_PageID items) -> Forall item_ok items ->
  wp (flushPages enumerate root) m
    (fun locs m' => exists c' pages', flushed m c pages m' c' pages' /\ Forall (recorded pages' locs) items /\ locs_ok locs /\ (size locs <= length items)%nat)
    (fun m' => exists c' pages', flushed m c pages m' c' pages' /\ noRoom c c').
Proof.
  intros Hc H He Hn Hok. unfold flushPages. apply wp_get. rewrite Hc, He. apply wp_bind, wp_onErr, wp_lift, wp_bind.
  eapply wp_mono; [by apply (flushItems_ok items m c pages ∅)| |done]. intros locs m1 (c1 & pages1 & Hf & Hr & Hl & Hsz & _). pose proof Hf as (-> & H1 & Hk & Hsub).
  rewrite map_size_empty in Hsz. apply wp_bind, wp_onErr. apply (wp_onChunks _ (set_cm c1 m) c1); [done|].
  eapply wp_mono; [by apply (ChunkStore.chunk_Sync_ok c1 pages1)| |].
  - intros [] c2 [H2 [Hk2 _]]. apply wp_ret. exists c2, pages1. split; [|done]. split; [done|]. split; [done|]. split; [by etrans|done].
  - intros c2 (H2 & [Hk2 _] & Hcl). exists c2, pages1. split; [split; [done|]; split; [done|]; split; [by etrans|done]|]. left. intros Hcc. by apply Hcl, Hk.
Qed.

(** ** The log after a checkpoint *)

(** A record is appended to the open segment, or to a new one. *)
Lemma append_one w pre n i es syn e (cur := currentLSN (dw w)) (e1 := with_LSN (cur + 1) e) :
  on_disk w pre n i es syn -> 0 <= cur -> n <= cur + 1 -> cur + 2 < 2 ^ 64 -> entry_wf e ->
  exists w' pre' n' i' es' syn', Append e w = (w', Ret (cur + 1)) /\ on_disk w' pre' n' i' es' syn' /\ currentLSN (dw w') = cur + 1 /\
    (pre' = pre /\ n' = n /\ i' = i /\ es' = es ++ [e1] \/ pre' = pre ++ [(n, i, es)] /\ n' = cur + 2 /\ es' = [e1]).
Proof.
  intros H H0 Hn Hmax Hwf. assert (Hw1 : entry_wf e1) by (apply with_LSN_wf; [done|unfold is_u64; lia]).
  assert (Elsn : u64 (cur + 1) = cur + 1) by (apply u64_id; unfold is_u64; lia).
  set (w1 := set_dw (with_writtenBytes (writtenBytes (dw w) + zlen (wal_wire e1))) (set_dw (with_currentLSN (cur + 1)) w)).
  assert (H1 : on_disk w1 pre n i es syn) by (by apply (on_disk_dw w)). pose proof H1 as [Hf (Hcl & Ho & Hi) _ _ _ _ _ _ _ _ _ _].
  assert (Hrot : exists w2 pre' n' i' es' syn', (if SegmentSize (config (dw w)) <=? writtenBytes (dw w) + zlen (wal_wire e1) then rotateSegment w1 else (w1, Ret tt)) = (w2, Ret tt) /\
    on_disk w2 pre' n' i' es' syn' /\ currentLSN (dw w2) = cur + 1 /\ config (dw w2) = config (dw w) /\
    (pre' = pre /\ n' = n /\ i' = i /\ es' = es \/ pre' = pre ++ [(n, i, es)] /\ n' = cur + 2 /\ es' = [])).
  { destruct (_ <=? _); [|exists w1, pre, n, i, es, syn; by auto 10].
    destruct (rotate_on_disk w1 pre n i es syn (cur + 2) H1 ltac:(lia)) as [Hnone Hnew].
    eexists _, (pre ++ [(n, i, es)]), (cur + 2), (next_inode (os w1)), [], 0. split; [|split; [exact Hnew|]; split; [done|]; split; [done|]; by right].
    assert (Em : u64 (currentLSN (dw w1) + 1) = cur + 2) by (cbn; rewrite u64_id; unfold is_u64; lia).
    unfold rotateSegment. autorewrite with stM_db. rewrite Hi. erewrite stM_bind_ret.
    2: { rewrite (stM_bind_ret _ _ _ _ _ (FileSync_ok w1 i Hf Ho Hi)). unfold ignore_err, FileClose.
         rewrite (stM_bind_ret _ _ _ _ _ (the_file_ok (sync_inode i w1) i Ho Hi)). rewrite (stM_bind_ret _ _ _ _ _ (pop_fault_nil (sync_inode i w1) Hf)).
         rewrite stM_bind_modify. reflexivity. }
    rewrite openSegment_new; [by rewrite <- Em|exact Hf|]. cbn [set_dw os dw with_fileOpen currentLSN sync_inode set_os dir].
    change (dir (os w1) !! u64 (currentLSN (dw w1) + 1) = None). by rewrite Em. }
  destruct Hrot as (w2 & pre' & n' & i' & es' & syn' & E2 & H2 & C2 & G2 & Hcase).
  pose proof H2 as [Hf2 (Hcl2 & Ho2 & Hi2) _ _ _ _ _ _ _ _ _ _].
  pose proof (append_on_disk w2 pre' n' i' es' syn' e1 H2 Hw1) as H3.
  set (w3 := set_dw (count_entry (zlen (wal_wire e1))) (append_inode i' (wal_wire e1) w2)).
  assert (H3' : on_disk w3 pre' n' i' (es' ++ [e1]) syn') by (by apply (on_disk_dw (append_inode i' (wal_wire e1) w2))).
  assert (Eloop : appendLoop [e] w = (w3, Ret [e1])).
  { cbn [appendLoop]. rewrite (stM_bind_ret _ _ w (set_dw (with_currentLSN (cur + 1)) w) e1).
    2: { unfold nextLSN. autorewrite with stM_db. fold cur. by rewrite Elsn. }
    assert (Ew : writeEntry e1 (set_dw (with_currentLSN (cur + 1)) w) = (w3, Ret tt)).
    { unfold writeEntry. rewrite MarshalWALEntry_wire. erewrite stM_bind_ret; [|reflexivity].
      rewrite (stM_bind_ret _ _ _ w2 tt). 2: { unfold checkRotate. autorewrite with stM_db. cbn [set_dw dw with_currentLSN writtenBytes config]. by destruct (_ <=? _). }
      erewrite stM_bind_ret; [reflexivity|]. apply onErr_ret. by apply (FileWrite_ok w2 i'). }
    by rewrite (stM_bind_ret _ _ _ _ _ Ew). }
  assert (Hcl0 : closed (dw w) = false) by exact Hcl.
  assert (Hb : exists w4 syn4, AppendBatch [e] w = (w4, Ret ([cur + 1], [e1])) /\ on_disk w4 pre' n' i' (es' ++ [e1]) syn4 /\ currentLSN (dw w4) = cur + 1).
  { unfold AppendBatch, ErrClosedIf. autorewrite with stM_db. rewrite Hcl0. erewrite stM_bind_ret; [|reflexivity].
    rewrite (stM_bind_ret _ _ _ _ _ Eloop). destruct (decide _).
    - pose proof H3' as [Hf3 (Hcl3 & Ho3 & Hi3) _ _ _ _ _ _ _ _ _ _].
      exists (set_dw count_sync (sync_inode i' w3)), (zlen (wires (es' ++ [e1]))). split; [|split; [|done]].
      + unfold syncLocked. erewrite stM_bind_ret; [reflexivity|]. erewrite stM_bind_ret; [reflexivity|]. apply onErr_ret. by apply FileSync_ok.
      + apply (on_disk_dw (sync_inode i' w3)); [by eapply sync_on_disk|done..].
    - exists w3, syn'. by split. }
  destruct Hb as (w4 & syn4 & E4 & H4 & C4). exists w4, pre', n', i', (es' ++ [e1]), syn4. split; [|split; [done|]; split; [done|]].
  - unfold Append. by rewrite (stM_bind_ret _ _ _ _ _ E4).
  - destruct Hcase as [(-> & -> & -> & ->)|(-> & -> & ->)]; [left|right]; done.
Qed.

Lemma kept_above lsn (segs : list seg) s : s ∈ kept lsn segs -> s ∈ segs /\ lsn <= seg_name s.
Proof. unfold kept. intros [? ?]%list_elem_of_filter. done. Qed.

(** A process that starts on a log without segment 1 creates it and finds the
    entries of the others. *)
Lemma restart_truncated cfg w pre n i es lsn o' :
  Validate cfg = Ret tt -> on_disk w pre n i es (zlen (wires es)) -> 1 < lsn ->
  crash (os (with_dir (list_to_map (map fst (kept lsn (pre ++ [(n, i, es)])))) w)) o' ->
  exists w2, restart cfg o' = (w2, Ret (map norm_entry (contents (kept lsn (pre ++ [(n, i, es)]))))).
Proof.
  intros Hv [Hf Ho Hd Hdel Hs Hn Hfr Hda Hsy [Hs1 Hs2] Hfi Hw] Hlsn [Cd Cdel Cf Cdata Cn]. set (segs := pre ++ [(n, i, es)]) in *.
  set (ks := kept lsn segs) in *. cbn [with_dir set_os os dir deleting inodes synced next_inode] in *.
  assert (Hone : dir o' !! 1 = None).
  { rewrite Cd. apply not_elem_of_list_to_map_1. rewrite map_names. intros Hin. apply list_elem_of_fmap in Hin as (s & E & Hin%kept_above). lia. }
  assert (Hsyn : forall s, s ∈ segs -> synced (os w) !! seg_inode s = Some (zlen (wires s.2))).
  { intros s [Hin|Hin%list_elem_of_singleton]%elem_of_app; [rewrite Forall_forall in Hsy; auto|by subst s]. }
  rewrite Forall_forall in Hda, Hfr. set (w0 := mkWorld o' (mkDiskWAL cfg 0 false None false 0 0 0 0 0)).
  assert (Eopen : NewDiskWAL cfg (mkWorld o' blank) = (open_new 1 w0, Ret tt)).
  { unfold NewDiskWAL. rewrite Hv, stM_bind_lift. erewrite stM_bind_ret; [|apply onErr_ret; by rewrite os_call_ok]. rewrite stM_bind_modify.
    change 1 with (u64 (currentLSN (dw w0) + 1)). by apply openSegment_new. }
  set (j := next_inode o'). eexists. unfold restart. rewrite (stM_bind_ret _ _ _ _ _ Eopen).
  rewrite (Recover_ok ((1, j, []) :: ks) (0 :: map (fun s => zlen (wires s.2)) ks) (open_new 1 w0)).
  - cbn [zip_with concat snd intact app]. rewrite contents_intact. reflexivity.
  - exact Cf.
  - cbn. by rewrite Cdel.
  - cbn [open_new w0 os dir map fst]. rewrite Cd. done.
  - cbn [map seg_name fst]. constructor; [by apply kept_sorted|]. rewrite Forall_map. apply Forall_forall. intros s [_ Hle]%kept_above. lia.
  - constructor.
    + split; [lia|]. split; [constructor|]. cbn. by rewrite lookup_insert_eq.
    + apply Forall2_fmap_r, Forall_Forall2_diag. rewrite Forall_forall. intros s Hin. destruct (kept_above _ _ _ Hin) as [Hin' _].
      split; [apply zlen_nonneg|]. unfold contents in Hw. rewrite Forall_concat, Forall_map, Forall_forall in Hw. split; [by apply Hw|].
      cbn. specialize (Hfr s Hin'). rewrite lookup_insert_ne by (unfold j; lia). destruct (Cdata _ _ _ (Hda s Hin') (Hsyn s Hin')) as (k & Hk & ->).
      by rewrite !ztake_all by lia.
Qed.

(** Segments that start below the checkpoint are all gone. *)
Lemma kept_record w pre n i es syn start i' e :
  on_disk w pre n i es syn -> n < start ->
  kept start (pre ++ [(n, i, es ++ [e])]) = [] /\ kept start ((pre ++ [(n, i, es)]) ++ [(start + 2, i', [e])]) = [(start + 2, i', [e])].
Proof.
  intros H Hlt. assert (Hpre : forall es, kept start (pre ++ [(n, i, es)]) = []).
  { intros es'. destruct (kept start (pre ++ [(n, i, es')])) as [|s l] eqn:E; [done|exfalso].
    destruct (kept_above start (pre ++ [(n, i, es')]) s) as [Hin' Hle]; [rewrite E; apply list_elem_of_here|].
    pose proof (od_sorted _ _ _ _ _ _ H) as Hs. rewrite map_app in Hs. cbn [map seg_name fst] in Hs. apply StronglySorted_last in Hs.
    apply elem_of_app in Hin' as [Hin'|Hin'%list_elem_of_singleton]; [|subst s; cbn in Hle; lia].
    rewrite Forall_map, Forall_forall in Hs. specialize (Hs s Hin'). cbn in Hs. lia. }
  split; [apply Hpre|]. unfold kept. rewrite filter_app. fold (kept start (pre ++ [(n, i, es)])). rewrite Hpre. cbn [app].
  rewrite filter_cons, decide_True by (cbn; lia). done.
Qed.

Lemma first_name w pre n i es syn : on_disk w pre n i es syn -> 1 <= n.
Proof.
  intros H. destruct (od_first _ _ _ _ _ _ H) as (s & Hs & H1). pose proof (od_sorted _ _ _ _ _ _ H) as Hsort.
  destruct pre as [|s0 pre]; cbn [app head] in Hs; injection Hs as <-; [cbn in H1; lia|].
  change ((s0 :: pre) ++ [(n, i, es)]) with (s0 :: (pre ++ [(n, i, es)])) in Hsort.
  rewrite map_cons, map_app in Hsort. inversion Hsort as [|? ? _ Hall]; subst. apply Forall_app in Hall as [_ Hall]. apply Forall_inv in Hall. cbn in Hall. lia.
Qed.

Lemma Sync_on_disk w pre n i es syn : on_disk w pre n i es syn ->
  exists w', Sync w = (w', Ret tt) /\ on_disk w' pre n i es (zlen (wires es)) /\ currentLSN (dw w') = currentLSN (dw w).
Proof.
  intros H. pose proof H as [Hf (Hcl & Ho & Hi) _ _ _ _ _ _ _ _ _ _]. exists (set_dw count_sync (sync_inode i w)). split; [|split; [|done]].
  - unfold Sync, ErrClosedIf. autorewrite with stM_db. rewrite Hcl. erewrite stM_bind_ret; [|reflexivity].
    unfold syncLocked. erewrite stM_bind_ret; [reflexivity|]. apply onErr_ret. by apply FileSync_ok.
  - apply (on_disk_dw (sync_inode i w)); [by eapply sync_on_disk|done..].
Qed.

Lemma onWal_ret {A} (f : stM World A) w' a h m : f (wal m) = (w', Ret a) -> onErr (onWal f) h m = (set_wal w' m, Ret a).
Proof. intros E. unfold onErr, onWal. by rewrite E. Qed.

Definition recordEntry (start : Z) (locs : gmap Z Z) : WALEntry := with_LSN (start + 1) (checkpointEntry (encodeCheckpointKey start locs)).

(** The state of the log that a checkpoint leaves: restarting finds nothing, or
    the checkpoint's own record. *)
Definition forgetful (w : World) (start : Z) (locs : gmap Z Z) : Prop :=
  forall cfg o', Validate cfg = Ret tt -> crash (os w) o' ->
    exists w2 r, restart cfg o' = (w2, Ret r) /\ (r = [] \/ r = [norm_entry (recordEntry start locs)]).

Lemma record_wf start locs : is_u64 start -> (size locs < Z.to_nat (2 ^ 27))%nat -> entry_wf (checkpointEntry (encodeCheckpointKey start locs)).
Proof.
  intros Hs Hl. unfold entry_wf, entry_ok, checkpointEntry. cbn [LSN TxID Timestamp Type_ Key Value PrevLSN ShardID Term default from_option Datatypes.id].
  rewrite key_length. change (zlen (@nil Z)) with 0. unfold is_u64, is_u8, is_u16, is_i64, WALTypeCheckpoint in *. split; [lia|]. split; [|constructor].
  unfold encodeCheckpointKey. apply Forall_app. split; [apply be_enc_ok|]. apply Forall_app. split; [apply be_enc_ok|].
  apply Forall_concat, Forall_map, Forall_forall. intros l _. apply Forall_app. split; apply be_enc_ok.
Qed.

Lemma writeRecord_forgets locs m pre n i es syn (start := CurrentLSN (wal m)) :
  on_disk (wal m) pre n i es syn -> n < start -> start + 2 < 2 ^ 64 -> (size locs < Z.to_nat (2 ^ 27))%nat ->
  exists w', writeRecord start locs m = (set_wal w' m, Ret tt) /\ CurrentLSN w' = start + 1 /\ forgetful w' start locs.
Proof.
  intros H Hn Hmax Hl. pose proof (first_name _ _ _ _ _ _ H) as Hn1. unfold start in *. clear start.
  change (CurrentLSN (wal m)) with (currentLSN (dw (wal m))) in *. set (start := currentLSN (dw (wal m))) in *.
  destruct (append_one (wal m) pre n i es syn (checkpointEntry (encodeCheckpointKey start locs)) H ltac:(lia) ltac:(lia) ltac:(lia))
    as (w1 & pre' & n' & i' & es' & syn' & E1 & H1 & C1 & Hcase); [apply record_wf; [unfold is_u64; lia|done]|].
  fold start in E1, C1, Hcase. fold (recordEntry start locs) in Hcase. destruct (Sync_on_disk _ _ _ _ _ _ H1) as (w2 & E2 & H2 & C2).
  pose proof (Truncate_ok _ _ _ _ _ _ start H2) as E3. eexists. split; [|split].
  - unfold writeRecord. rewrite (stM_bind_ret _ _ _ _ _ (onWal_ret _ _ _ _ m E1)).
    rewrite (stM_bind_ret _ _ _ _ _ (onWal_ret _ _ _ _ (set_wal w1 m) E2)). by rewrite (onWal_ret _ _ _ _ (set_wal w2 (set_wal w1 m)) E3).
  - unfold CurrentLSN. cbn. lia.
  - intros cfg o' Hv Hc. destruct (restart_truncated cfg w2 pre' n' i' es' start o' Hv H2 ltac:(lia) Hc) as (w3 & E). exists w3.
    eexists. split; [exact E|]. destruct (kept_record _ _ _ _ _ _ start i' (recordEntry start locs) H Hn) as [K1 K2].
    destruct Hcase as [(-> & -> & -> & ->)|(-> & -> & ->)]; [rewrite K1; by left|rewrite K2; right]. done.
Qed.

(** ** The checkpoints *)


End order.

(** ** The theorems at work *)

Definition emptyStore : DiskChunkManager := ChunkStore.emptyManager (ChunkStore.mkDir true ∅ []) 16384.
Lemma emptyStore_ok : cm_ok emptyStore ∅.
Proof. by apply (ChunkStore.New_ok (ChunkStore.mkDir true ∅ []) 16384). Qed.
Definition someItems : list PageFlushItem := [mkItem 5 1 (Some (zeros 100)) 0; mkItem 6 0 None 524290].
Lemma someItems_ok : NoDup (map i_PageID someItems) /\ Forall item_ok someItems.
Proof.
  split; [by apply (bool_decide_unpack _)|]. repeat constructor; cbn; try done.
  intros d [= <-] _. reflexivity.
Qed.
Definition aManager : Manager := NewManager one_segment (Some emptyStore) true.


