(* ===== verification/KVStore.v ===== *)
(** * The store interface (internal/domain/service/storage.go)

    What the persistence decorators use of service.KVStore: the writes and Close.
    Its state is a parameter; nothing is assumed of the operations. *)

From stdpp Require Import base list.
From S2P Require Import Prelude.

Class KVStore (K : Type) := {
  kvSet : bytes -> bytes -> stM K unit;
  kvSetBatch : list (bytes * bytes) -> stM K unit;
  kvClose : stM K unit }.
