(* ===== verification/PersistWal.v ===== *)
(** * The log decorator of a store (persist/persist_wal.go)

    Writers change the store and send a task through a channel of 64; one
    goroutine, the write loop, takes the tasks and writes the log, which is the
    on-disk WAL of DiskWal.v.  A [step] is one action of a writer or of the loop;
    [select] takes any ready branch.  [sent] is the history of tasks in the order
    of the channel; the code has no such field. *)

From stdpp Require Import base list gmap strings relations.
From Stdlib Require Import ZArith Lia.
From S2P Require Import Prelude WalFormat DiskWal KVStore.

Local Open Scope Z_scope.

Inductive WalSyncMode := WalSyncEveryWrite | WalSyncGroupCommit | WalSyncEverySecond.
#[export] Instance WalSyncMode_eq_dec : EqDecision WalSyncMode.
Proof. solve_decision. Defined.

(** [done]: the channel the writer waits on. *)
Record walTask := mkTask { entry : WALEntry; done : option nat }.

Inductive loopState := Looping | Blocked | Stopped.

(** A writer: between calls, sending, waiting for the loop, in [Close], or back
    with a result.  The entries are those its call logs. *)
Inductive writer :=
| Idle
| SendingSync (e : WALEntry)
| SendingAsync (es left : list WALEntry)
| Waiting (e : WALEntry) (ch : nat)
| Closing
| ReturnedSync (e : WALEntry)                       (* a synchronous Set returned nil *)
| Returned (es : list WALEntry) (r : outcome unit)
| Closed (r : outcome unit).

Record PersistWAL (K : Type) := mkPW {
  kv : K;
  wal : World;
  syncMode : WalSyncMode;
  taskCh : list walTask;
  batch : list walTask;
  loop : loopState;
  cancelled : bool;
  signalled : gset nat;
  nextCh : nat;
  writers : gmap nat writer;
  sent : list walTask }.
Arguments mkPW {K}. Arguments kv {K}. Arguments wal {K}. Arguments syncMode {K}. Arguments taskCh {K}. Arguments batch {K}. Arguments loop {K}.
Arguments cancelled {K}. Arguments signalled {K}. Arguments nextCh {K}. Arguments writers {K}. Arguments sent {K}.

Definition batchSize : nat := 16.
Definition channelSize : nat := 64.

(** A zeroed entry of the pool with type, key and value set; [copyBytes] makes an
    empty slice nil. *)
Definition acquireWALEntry (key value : option bytes) : WALEntry := mkWALEntry 0 0 0 WALTypeInsert key value 0 0 0.
Definition copyBytes (b : bytes) : option bytes := match b with [] => None | _ => Some b end.

(** Errors of the log are dropped. *)
Definition writeLog (es : list WALEntry) : stM World unit :=
  _ ← ignore_err (_ ← AppendBatch es; mret tt);
  ignore_err Sync.
Definition flushBatch (batch : list walTask) : stM World unit :=
  match batch with [] => mret tt | _ => writeLog (map entry batch) end.

(** The channels that [releaseBatch] signals. *)
Definition releaseBatch (batch : list walTask) : gset nat := list_to_set (omap done batch).

Section decorator.
Context {K : Type} `{KV : KVStore K}.
Notation state := (PersistWAL K).
Implicit Types (s : state).

Definition set_kv (k : K) s : state := mkPW k (wal s) (syncMode s) (taskCh s) (batch s) (loop s) (cancelled s) (signalled s) (nextCh s) (writers s) (sent s).
Definition set_writer (i : nat) (c : writer) s : state :=
  mkPW (kv s) (wal s) (syncMode s) (taskCh s) (batch s) (loop s) (cancelled s) (signalled s) (nextCh s) (<[i := c]> (writers s)) (sent s).
Definition set_cancelled s : state := mkPW (kv s) (wal s) (syncMode s) (taskCh s) (batch s) (loop s) true (signalled s) (nextCh s) (writers s) (sent s).
Definition send (t : walTask) s : state :=
  mkPW (kv s) (wal s) (syncMode s) (taskCh s ++ [t]) (batch s) (loop s) (cancelled s) (signalled s) (nextCh s) (writers s) (sent s ++ [t]).
Definition newCh s : state :=
  mkPW (kv s) (wal s) (syncMode s) (taskCh s) (batch s) (loop s) (cancelled s) (signalled s) (S (nextCh s)) (writers s) (sent s).
Definition set_loop (w : World) (ts b : list walTask) (l : loopState) (sig : gset nat) s : state :=
  mkPW (kv s) w (syncMode s) ts b l (cancelled s) (signalled s ∪ sig) (nextCh s) (writers s) (sent s).

Definition NewPersistWAL (tree : K) (w : World) (mode : WalSyncMode) : state := mkPW tree w mode [] [] Looping false ∅ 0 ∅ [].

Definition idle (i : nat) s : Prop := match writers s !! i with None | Some Idle | Some (Returned _ _) | Some (ReturnedSync _) => True | _ => False end.
Definition ctxErr : gerr := Sentinel ErrCtxDone.

(** ** Set, SetBatch, Close *)

Inductive client_step : state -> state -> Prop :=
| c_set_fails s i k v kv' e : idle i s -> kvSet k v (kv s) = (kv', Fail e) -> client_step s (set_writer i (Returned [] (Fail e)) (set_kv kv' s))
| c_set_sync s i k v kv' : idle i s -> syncMode s = WalSyncEveryWrite -> kvSet k v (kv s) = (kv', Ret tt) ->
    client_step s (set_writer i (SendingSync (acquireWALEntry (Some k) (Some v))) (set_kv kv' s))
| c_set_async s i k v kv' (e := acquireWALEntry (copyBytes k) (copyBytes v)) : idle i s -> syncMode s <> WalSyncEveryWrite -> kvSet k v (kv s) = (kv', Ret tt) ->
    client_step s (set_writer i (SendingAsync [e] [e]) (set_kv kv' s))
| c_batch_fails s i ps kv' e : idle i s -> kvSetBatch ps (kv s) = (kv', Fail e) -> client_step s (set_writer i (Returned [] (Fail e)) (set_kv kv' s))
| c_batch s i ps kv' (es := map (fun p => acquireWALEntry (copyBytes p.1) (copyBytes p.2)) ps) : idle i s -> kvSetBatch ps (kv s) = (kv', Ret tt) ->
    client_step s (set_writer i (SendingAsync es es) (set_kv kv' s))
| c_send_sync s i e : writers s !! i = Some (SendingSync e) -> (length (taskCh s) < channelSize)%nat ->
    client_step s (set_writer i (Waiting e (nextCh s)) (newCh (send (mkTask e (Some (nextCh s))) s)))
| c_send_async s i es e left : writers s !! i = Some (SendingAsync es (e :: left)) -> (length (taskCh s) < channelSize)%nat ->
    client_step s (set_writer i (SendingAsync es left) (send (mkTask e None) s))
| c_sent s i es : writers s !! i = Some (SendingAsync es []) -> client_step s (set_writer i (Returned es (Ret tt)) s)
| c_done s i e ch : writers s !! i = Some (Waiting e ch) -> ch ∈ signalled s -> client_step s (set_writer i (ReturnedSync e) s)
| c_cancel s i c : writers s !! i = Some c -> (exists e ch, c = SendingSync e \/ c = Waiting e ch) \/ (exists es e left, c = SendingAsync es (e :: left)) ->
    client_step s (set_writer i (Returned [] (Fail ctxErr)) s)
| c_close s i : idle i s -> client_step s (set_writer i Closing (set_cancelled s))
| c_closed s i kv' r : writers s !! i = Some Closing -> loop s = Stopped -> kvClose (kv s) = (kv', r) ->
    client_step s (set_writer i (Closed r) (set_kv kv' s)).

(** ** runWriteLoop *)

Inductive loop_step : state -> state -> Prop :=
| l_stop s w' : loop s = Looping -> cancelled s = true -> flushBatch (batch s) (wal s) = (w', Ret tt) ->
    loop_step s (set_loop w' (taskCh s) [] Stopped (releaseBatch (batch s)) s)
| l_tick s w' : loop s = Looping -> syncMode s = WalSyncEverySecond -> flushBatch (batch s) (wal s) = (w', Ret tt) ->
    loop_step s (set_loop w' (taskCh s) [] Looping (releaseBatch (batch s)) s)
| l_write s t rest w' : loop s = Looping -> syncMode s = WalSyncEveryWrite -> taskCh s = t :: rest -> writeLog [entry t] (wal s) = (w', Ret tt) ->
    loop_step s (match done t with
      | Some ch => set_loop w' rest (batch s) Looping {[ch]} s
      | None => set_loop w' rest (batch s) Blocked ∅ s      (* a send on a nil channel blocks for ever *)
      end)
| l_collect s t rest : loop s = Looping -> syncMode s <> WalSyncEveryWrite -> taskCh s = t :: rest ->
    (S (length (batch s)) < batchSize)%nat \/ rest <> [] ->
    loop_step s (set_loop (wal s) rest (batch s ++ [t]) Looping ∅ s)
| l_flush s t w' : loop s = Looping -> syncMode s <> WalSyncEveryWrite -> taskCh s = [t] -> (batchSize <= S (length (batch s)))%nat ->
    flushBatch (batch s ++ [t]) (wal s) = (w', Ret tt) ->
    loop_step s (set_loop w' [] [] Looping (releaseBatch (batch s ++ [t])) s).

Inductive step s s' : Prop := by_client (H : client_step s s') | by_loop (H : loop_step s s').

(** [Sync] of the decorator is the log's. *)
Definition SyncLog s : state * outcome unit :=
  let '(w, r) := Sync (wal s) in (set_loop w (taskCh s) (batch s) (loop s) ∅ s, r).
Definition WalMetrics s : Z := CurrentLSN (wal s).

(** ** The log is what the loop took, in the order of the channel *)

Lemma ignore_ret {A} (m : stM World A) w w' a : m w = (w', Ret a) -> ignore_err m w = (w', Ret tt).
Proof. unfold ignore_err. by intros ->. Qed.

Definition logs (w : World) (l : list WALEntry) : Prop := holds 1 w (number 0 l) (length l) /\ currentLSN (dw w) = zlen l.

Lemma writeLog_ok w l es : logs w l -> Forall entry_wf es -> zlen l + zlen es < 2 ^ 64 - 1 ->
  exists w', writeLog es w = (w', Ret tt) /\ logs w' (l ++ es).
Proof.
  intros [H HC] Hes Hmax. destruct (AppendBatch_ok w _ _ es H Hes ltac:(lia)) as (w1 & E1 & H1 & C1 & _).
  destruct (Sync_ok w1 _ _ H1) as (w2 & E2 & H2 & C2 & _). exists w2. split.
  - unfold writeLog. assert (E : ignore_err (_ ← AppendBatch es; mret tt) w = (w1, Ret tt)) by (eapply ignore_ret; by rewrite (stM_bind_ret _ _ _ _ _ E1)).
    rewrite (stM_bind_ret _ _ _ _ _ E). by eapply ignore_ret.
  - rewrite HC in H2. pose proof (number_app 0 l es) as En. rewrite Z.add_0_l in En. rewrite <- En in H2. split; [|rewrite zlen_app; lia].
    assert (El : length (number 0 (l ++ es)) = length (l ++ es)) by (pose proof (zlen_number 0 (l ++ es)); unfold zlen in *; lia). by rewrite El in H2.
Qed.

Lemma flushBatch_ok w l b : logs w l -> Forall entry_wf (map entry b) -> zlen l + zlen b < 2 ^ 64 - 1 ->
  exists w', flushBatch b w = (w', Ret tt) /\ logs w' (l ++ map entry b).
Proof.
  intros H Hb Hmax. destruct b as [|t b]; [exists w; cbn; by rewrite app_nil_r|]. apply writeLog_ok; [done|done|]. unfold zlen in *. by rewrite length_map.
Qed.

(** [l]: the tasks in the log. *)
Record inv s (l : list walTask) : Prop := {
  iv_sent : sent s = l ++ batch s ++ taskCh s;
  iv_log : logs (wal s) (map entry l);
  iv_batch : syncMode s = WalSyncEveryWrite \/ loop s = Stopped -> batch s = [];
  iv_signalled : forall ch, ch ∈ signalled s -> exists t, t ∈ l /\ done t = Some ch;
  iv_channels : NoDup (omap done (sent s)) /\ Forall (fun ch => (ch < nextCh s)%nat) (omap done (sent s));
  iv_waiting : forall i e ch, writers s !! i = Some (Waiting e ch) -> mkTask e (Some ch) ∈ sent s;
  iv_returned : forall i e, writers s !! i = Some (ReturnedSync e) -> e ∈ map entry l }.

(** Entries of known size, fewer than the log can number. *)
Definition fits s : Prop := Forall entry_wf (map entry (sent s)) /\ zlen (sent s) < 2 ^ 64 - 1.

Lemma step_sent s s' : step s s' -> exists q, sent s' = sent s ++ q.
Proof.
  intros [H|H]; destruct H; cbn; try (exists []; by rewrite app_nil_r); try by eexists.
  destruct (done t); exists []; by rewrite app_nil_r.
Qed.
Lemma fits_back s s' : step s s' -> fits s' -> fits s.
Proof.
  intros (q & E)%step_sent [H1 H2]. unfold fits. rewrite E, map_app, zlen_app in *. apply Forall_app in H1 as [H1 _].
  pose proof (zlen_nonneg q). split; [done|lia].
Qed.

(** A writer moves on; nothing else that the invariant sees changes. *)
Lemma inv_writer s l i c kv' can : inv s l -> (forall e ch, c = Waiting e ch -> mkTask e (Some ch) ∈ sent s) -> (forall e, c = ReturnedSync e -> e ∈ map entry l) ->
  inv (mkPW kv' (wal s) (syncMode s) (taskCh s) (batch s) (loop s) can (signalled s) (nextCh s) (<[i := c]> (writers s)) (sent s)) l.
Proof.
  intros [I1 I2 I3 I4 I5 I6 I7] Hw Hr. constructor; cbn; try done.
  - intros j e ch [[<- ->]|[_ Hj]]%lookup_insert_Some; [by apply Hw|by eapply I6].
  - intros j e [[<- ->]|[_ Hj]]%lookup_insert_Some; [by apply Hr|by eapply I7].
Qed.

Lemma inv_send s l i c t n : inv s l -> (done t = None /\ n = nextCh s \/ done t = Some (nextCh s) /\ n = S (nextCh s)) ->
  (forall e ch, c = Waiting e ch -> t = mkTask e (Some ch)) -> (forall e, c <> ReturnedSync e) ->
  inv (mkPW (kv s) (wal s) (syncMode s) (taskCh s ++ [t]) (batch s) (loop s) (cancelled s) (signalled s) n (<[i := c]> (writers s)) (sent s ++ [t])) l.
Proof.
  intros [I1 I2 I3 I4 [I5 I5'] I6 I7] Hn Hw Hr. constructor; cbn; try done.
  - by rewrite I1, <- !app_assoc.
  - rewrite omap_app. cbn [omap list_omap]. rewrite Forall_forall in I5'. destruct Hn as [[E ->]|[E ->]]; rewrite E; rewrite ?app_nil_r.
    + split; [done|]. by apply Forall_forall.
    + split.
      * apply NoDup_app. split; [done|]. split; [|apply NoDup_singleton]. intros x Hx ->%list_elem_of_singleton. specialize (I5' _ Hx). lia.
      * apply Forall_app. split; [|by apply Forall_singleton; lia]. apply Forall_forall. intros x Hx. specialize (I5' _ Hx). lia.
  - intros j e ch [[<- E]|[_ Hj]]%lookup_insert_Some; rewrite elem_of_app, list_elem_of_singleton; [right; symmetry; by apply Hw|left; by eapply I6].
  - intros j e [[<- E]|[_ Hj]]%lookup_insert_Some; [by apply Hr in E|by eapply I7].
Qed.

Lemma omap_NoDup_inj {A B} (f : A -> option B) (l : list A) x y b : NoDup (omap f l) -> x ∈ l -> y ∈ l -> f x = Some b -> f y = Some b -> x = y.
Proof.
  induction l as [|a l IH]; [by intros _ ?%not_elem_of_nil|]. intros Hnd Hx Hy Ex Ey.
  assert (forall z, z ∈ l -> f z = Some b -> b ∈ omap f l) as Hin by (intros z ? ?; apply list_elem_of_omap; by exists z).
  cbn in Hnd. apply elem_of_cons in Hx, Hy.
  destruct Hx as [->|Hx], Hy as [->|Hy]; [done| | |].
  - rewrite Ex in Hnd. apply NoDup_cons in Hnd as [Hni _]. by destruct Hni; apply (Hin y).
  - rewrite Ey in Hnd. apply NoDup_cons in Hnd as [Hni _]. by destruct Hni; apply (Hin x).
  - apply IH; try done. destruct (f a); [by apply NoDup_cons in Hnd as [_ ?]|done].
Qed.

(** The loop takes the tasks [new] into the log. *)
Lemma inv_loop s l new w' ts b lp sig : inv s l -> l ++ batch s ++ taskCh s = (l ++ new) ++ b ++ ts -> logs w' (map entry (l ++ new)) ->
  (syncMode s = WalSyncEveryWrite \/ lp = Stopped -> b = []) -> (forall ch, ch ∈ sig -> exists t, t ∈ new /\ done t = Some ch) ->
  inv (set_loop w' ts b lp sig s) (l ++ new).
Proof.
  intros [I1 I2 I3 I4 I5 I6 I7] E Hw Hb Hsig. constructor; cbn; try done.
  - by rewrite I1.
  - intros ch [Hch|Hch]%elem_of_union; [destruct (I4 _ Hch) as (t & ? & ?)|destruct (Hsig _ Hch) as (t & ? & ?)]; exists t; rewrite elem_of_app; auto.
  - intros i e He. rewrite map_app, elem_of_app. left. by eapply I7.
Qed.

Lemma releaseBatch_elem b ch : ch ∈ releaseBatch b -> exists t, t ∈ b /\ done t = Some ch.
Proof. unfold releaseBatch. rewrite elem_of_list_to_set, list_elem_of_omap. intros (t & ? & ?). by exists t. Qed.

(** Flushing a part [b] of what is left keeps the log in step. *)
Lemma flush_logs s l b rest w' : inv s l -> fits s -> l ++ batch s ++ taskCh s = (l ++ b) ++ rest -> flushBatch b (wal s) = (w', Ret tt) -> logs w' (map entry (l ++ b)).
Proof.
  intros I [F1 F2] E Ef. rewrite (iv_sent _ _ I), E, <- app_assoc in F1, F2. rewrite !map_app in F1. rewrite !zlen_app in F2.
  apply Forall_app in F1 as [_ [F1 _]%Forall_app]. pose proof (zlen_nonneg rest).
  destruct (flushBatch_ok (wal s) (map entry l) b (iv_log _ _ I) F1) as (w1 & E1 & H1); [unfold zlen in *; rewrite length_map; lia|].
  assert (w1 = w') as -> by congruence. by rewrite map_app.
Qed.

Lemma client_inv s s' l : client_step s s' -> inv s l -> inv s' l.
Proof.
  intros H I. destruct H; unfold set_writer, set_kv, set_cancelled, newCh, send; cbn;
    try (apply (inv_writer s); [done|by intros|by intros]).
  - apply (inv_send s l i (Waiting e (nextCh s))); [done|by right|by intros ? ? [= -> ->]|done].
  - apply (inv_send s l i (SendingAsync es left)); [done|by left|done|done].
  - apply (inv_writer s); [done|done|]. intros e' [= <-].
    pose proof (iv_waiting _ _ I _ _ _ H) as Hs. destruct (iv_signalled _ _ I _ H0) as (t & Ht & Ed).
    assert (t = mkTask e (Some ch)) as ->; [|by apply (list_elem_of_fmap_2 entry) in Ht].
    assert (t ∈ sent s) as Ht' by (rewrite (iv_sent _ _ I), elem_of_app; by left).
    by eapply (omap_NoDup_inj done); [apply (iv_channels _ _ I)|done|done|done|].
Qed.

Lemma loop_inv s s' l : loop_step s s' -> fits s -> inv s l -> exists l', inv s' l'.
Proof.
  intros H F I. destruct H.
  - exists (l ++ batch s). apply inv_loop; [done|by rewrite <- !app_assoc|eapply (flush_logs s l _ (taskCh s)); [done|done|by rewrite <- app_assoc|done]|done|apply releaseBatch_elem].
  - exists (l ++ batch s). apply inv_loop; [done|by rewrite <- !app_assoc|eapply (flush_logs s l _ (taskCh s)); [done|done|by rewrite <- app_assoc|done]|done|apply releaseBatch_elem].
  - assert (batch s = []) as Eb by (apply (iv_batch _ _ I); by left).
    assert (logs w' (map entry (l ++ [t]))) as Hl by (eapply (flush_logs s l [t] rest); [done|done|by rewrite Eb, H1, <- app_assoc|done]).
    exists (l ++ [t]). destruct (done t) eqn:Ed; apply inv_loop; try done; try (by rewrite Eb, H1, <- app_assoc).
    intros ch Hch%elem_of_singleton. subst. exists t. split; [apply list_elem_of_singleton|]; done.
  - exists (l ++ []). apply inv_loop; [done|rewrite app_nil_r, H1, <- !app_assoc; done|rewrite app_nil_r; apply I|intros [?|?]; done|set_solver].
  - exists (l ++ batch s ++ [t]). apply inv_loop; [done|rewrite H1, <- !app_assoc; done|eapply (flush_logs s l _ []); [done|done|by rewrite H1, app_nil_r|done]|done|apply releaseBatch_elem].
Qed.

Lemma inv_steps s s' l : rtc step s s' -> fits s' -> inv s l -> exists l', inv s' l'.
Proof.
  intros H. revert l. induction H as [|s s1 s' Hs Hr IH]; intros l F I; [by exists l|].
  assert (fits s1) as F1.
  { clear -Hr F. induction Hr as [|? ? ? Hs _ IH]; [done|]. by eapply fits_back, IH. }
  destruct Hs as [Hc|Hl]; [by eapply IH, client_inv|]. destruct (loop_inv _ _ l Hl (fits_back _ _ (by_loop _ _ Hl) F1) I) as (l1 & I1). by eapply IH.
Qed.

(** ** Runs *)

Definition reachable (tree : K) (w : World) (mode : WalSyncMode) s : Prop := rtc step (NewPersistWAL tree w mode) s.
(** The log of a fresh directory. *)
Definition freshLog (cfg : WALConfig) (w : World) : Prop := Validate cfg = Ret tt /\ NewDiskWAL cfg (mkWorld empty_os blank) = (w, Ret tt).

Lemma fresh_inv cfg w tree mode : freshLog cfg w -> inv (NewPersistWAL tree w mode) [].
Proof.
  intros [Hv E]. destruct (NewDiskWAL_fresh cfg Hv) as (w' & E' & H & HC & _). assert (w' = w) as -> by congruence.
  constructor; cbn; try done; try set_solver.
  split; [|constructor]. constructor.
Qed.

Lemma persist_reachable_inv cfg w tree mode s : freshLog cfg w -> reachable tree w mode s -> fits s -> exists l, inv s l.
Proof. intros Hw Hr F. by eapply inv_steps, fresh_inv. Qed.

Lemma logs_restart cfg w l o' : Validate cfg = Ret tt -> logs w l -> crash (os w) o' ->
  exists w', restart cfg o' = (w', Ret (map norm_entry (number 0 l))) /\ CurrentLSN w' = zlen l.
Proof.
  intros Hv [H HC] Hc. destruct (restart_ok cfg w _ _ l o' Hv H eq_refl Hc) as (m & w' & R & Hm & HL & _).
  assert (length (number 0 l) = length l) as El by (pose proof (zlen_number 0 l); unfold zlen in *; lia).
  rewrite El in Hm. assert (m = length l) as -> by lia. exists w'. split; [|done]. by rewrite R, firstn_all2 by lia.
Qed.


(** Once the loop waits for ever or has ended, it stays so and the log is what it was. *)
Lemma loop_ended s s' : rtc step s s' -> loop s <> Looping -> loop s' = loop s /\ wal s' = wal s.
Proof.
  induction 1 as [|s s1 s' Hs _ IH]; [done|]. intros Hl.
  assert (loop s1 = loop s /\ wal s1 = wal s) as [El Ew].
  { destruct Hs as [H|H]; destruct H; by try done. }
  rewrite <- El, <- Ew. apply IH. by rewrite El.
Qed.

(** While the loop waits for ever, no [Close] and no synchronous [Set] returns. *)
Definition unsettled s : Prop := forall i, match writers s !! i with Some (Closed _) | Some (ReturnedSync _) => False | _ => True end.

Lemma unsettled_insert s i c : unsettled s -> match c with Closed _ | ReturnedSync _ => False | _ => True end ->
  forall j, match <[i := c]> (writers s) !! j with Some (Closed _) | Some (ReturnedSync _) => False | _ => True end.
Proof. intros H Hc j. destruct (decide (i = j)) as [->|]; [rewrite lookup_insert_eq; exact Hc|rewrite lookup_insert_ne by done; apply H]. Qed.

Lemma blocked_unsettled s s' : rtc step s s' -> loop s = Blocked -> signalled s = ∅ -> unsettled s -> unsettled s'.
Proof.
  induction 1 as [|s s1 s' Hs Hr IH]; [done|]. intros Hl Hsig Hu. destruct Hs as [H|H]; [|destruct H; congruence].
  destruct H; try (apply IH; [done|done|intros j; by apply (unsettled_insert s)]).
  - exfalso. clear -Hsig H0. set_solver.
  - congruence.
Qed.

Lemma send_all es0 es s i : writers s !! i = Some (SendingAsync es0 es) -> (length (taskCh s) + length es <= channelSize)%nat ->
  exists s', rtc step s s' /\ writers s' !! i = Some (Returned es0 (Ret tt)) /\ taskCh s' = taskCh s ++ map (fun e => mkTask e None) es /\
    kv s' = kv s /\ wal s' = wal s /\ syncMode s' = syncMode s /\ batch s' = batch s /\ loop s' = loop s /\ cancelled s' = cancelled s /\ signalled s' = signalled s /\
    (forall j, i <> j -> writers s' !! j = writers s !! j).
Proof.
  revert s. induction es as [|e es IH]; intros s Hi Hlen.
  - eexists. split; [eapply rtc_once, by_client, c_sent, Hi|]. cbn. rewrite lookup_insert_eq, app_nil_r. repeat split; try done.
    intros j Hj. by rewrite lookup_insert_ne.
  - destruct (IH (set_writer i (SendingAsync es0 es) (send (mkTask e None) s))) as (s' & Hr & Hw & Ht & Hk & Hwal & Hm & Hb & Hl & Hc & Hsg & Ho).
    + cbn. by rewrite lookup_insert_eq.
    + cbn [set_writer send taskCh]. rewrite length_app. cbn in *. lia.
    + exists s'. split; [eapply rtc_l; [|exact Hr]; apply by_client; eapply c_send_async; [done|cbn in Hlen; lia]|].
      split; [done|]. rewrite Ht. cbn. rewrite <- app_assoc. repeat split; try done.
      intros j Hj. rewrite Ho by done. cbn. by rewrite lookup_insert_ne.
Qed.

Definition batchEntries (ps : list (bytes * bytes)) : list WALEntry := map (fun p => acquireWALEntry (copyBytes p.1) (copyBytes p.2)) ps.

(** A batch call that nobody disturbs. *)
Lemma set_batch_run s i ps kv' : idle i s -> taskCh s = [] -> (length ps <= channelSize)%nat -> kvSetBatch ps (kv s) = (kv', Ret tt) ->
  exists s', rtc step s s' /\ writers s' !! i = Some (Returned (batchEntries ps) (Ret tt)) /\ taskCh s' = map (fun e => mkTask e None) (batchEntries ps) /\
    kv s' = kv' /\ wal s' = wal s /\ syncMode s' = syncMode s /\ batch s' = batch s /\ loop s' = loop s /\ cancelled s' = cancelled s /\ signalled s' = signalled s /\
    (forall j, i <> j -> writers s' !! j = writers s !! j).
Proof.
  intros Hi Ht Hlen Hk. set (es := batchEntries ps).
  destruct (send_all es es (set_writer i (SendingAsync es es) (set_kv kv' s)) i) as (s' & Hr & Hw & Ht' & Hrest).
  - cbn. by rewrite lookup_insert_eq.
  - cbn. rewrite Ht. unfold es, batchEntries. rewrite length_map. done.
  - exists s'. split; [eapply rtc_l; [by apply by_client, c_batch|exact Hr]|]. split; [done|]. rewrite Ht'. cbn. rewrite Ht.
    split; [done|]. cbn in Hrest. destruct Hrest as (-> & -> & -> & -> & -> & -> & -> & Ho). repeat split; try done.
    intros j Hj. rewrite Ho by done. by rewrite lookup_insert_ne.
Qed.

(** In the mode of the strongest guarantee a batch of writes returns nil and the
    loop, after logging its first entry, waits for ever on the nil channel of its
    task: nothing is logged again, and no [Close] and no [Set] ever returns nil. *)
Theorem every_write_batch_hangs cfg w0 tree p ps kv' : freshLog cfg w0 -> (length (p :: ps) <= channelSize)%nat ->
  Forall entry_wf (batchEntries (p :: ps)) -> kvSetBatch (p :: ps) tree = (kv', Ret tt) ->
  exists s, reachable tree w0 WalSyncEveryWrite s /\ writers s !! 0%nat = Some (Returned (batchEntries (p :: ps)) (Ret tt)) /\
    forall s', rtc step s s' -> loop s' = Blocked /\ wal s' = wal s /\ unsettled s'.
Proof.
  intros Hw Hlen Hwf Hk.
  destruct (set_batch_run (NewPersistWAL tree w0 WalSyncEveryWrite) 0 (p :: ps) kv') as (s & Hr & Hi & Ht & _ & Ew & Em & Eb & El & Ec & Es & Ho); try done.
  cbn in Ew, Em, Eb, El, Ec, Es.
  pose proof (iv_log _ _ (fresh_inv cfg w0 tree WalSyncEveryWrite Hw)) as Hlog. cbn in Hlog. cbn [batchEntries map] in Hwf.
  destruct (writeLog_ok w0 [] [acquireWALEntry (copyBytes p.1) (copyBytes p.2)] Hlog) as (w' & E' & _); [by apply Forall_cons in Hwf as [? _]; constructor|done|].
  cbn [batchEntries map] in Ht.
  exists (set_loop w' (map (fun e => mkTask e None) (batchEntries ps)) (batch s) Blocked ∅ s). split; [|split].
  - eapply rtc_r; [exact Hr|]. apply by_loop. eapply (l_write s (mkTask _ None)); [done|done|exact Ht|]. by rewrite Ew.
  - done.
  - intros s' Hr'. destruct (loop_ended _ _ Hr') as [-> ->]; [done|]. repeat split; [].
    apply (blocked_unsettled _ _ Hr'); [done|cbn; rewrite Es; set_solver|].
    intros j. cbn. destruct (decide (0 = j)%nat) as [<-|Hj]; [by rewrite Hi|]. rewrite Ho by done. cbn. by rewrite lookup_empty.
Qed.

(** With group commit a batch returns nil and a [Close] that follows may stop the
    loop while the entries are in the channel: they never reach the log, and a
    restart finds it empty. *)
Theorem close_drops_queue cfg w0 tree ps kv' kv'' r : freshLog cfg w0 -> (length ps <= channelSize)%nat ->
  kvSetBatch ps tree = (kv', Ret tt) -> kvClose kv' = (kv'', r) ->
  exists s, reachable tree w0 WalSyncGroupCommit s /\ writers s !! 0%nat = Some (Returned (batchEntries ps) (Ret tt)) /\ writers s !! 1%nat = Some (Closed r) /\
    forall s', rtc step s s' -> wal s' = w0 /\
      forall o', crash (os (wal s')) o' -> exists w', restart cfg o' = (w', Ret []).
Proof.
  intros Hw Hlen Hk Hc.
  destruct (set_batch_run (NewPersistWAL tree w0 WalSyncGroupCommit) 0 ps kv') as (s & Hr & Hi & Ht & Ek & Ew & Em & Eb & El & Ec & Es & Ho); try done.
  cbn in Ew, Em, Eb, El, Ec, Es. set (s1 := set_writer 1 Closing (set_cancelled s)). set (s2 := set_loop w0 (taskCh s1) [] Stopped (releaseBatch (batch s1)) s1).
  set (s3 := set_writer 1 (Closed r) (set_kv kv'' s2)).
  assert (rtc step s s3) as H3.
  { eapply rtc_l; [apply by_client, (c_close s 1); unfold idle; by rewrite Ho|]. eapply rtc_l.
    - apply by_loop, (l_stop s1 w0); [done|done|]. cbn. by rewrite Eb, Ew.
    - eapply rtc_once, by_client, (c_closed s2 1 kv'' r); [cbn; by rewrite lookup_insert_eq|done|]. cbn. by rewrite Ek. }
  exists s3. split; [unfold reachable; by etrans|]. split; [cbn; by rewrite !lookup_insert_ne|]. split; [cbn; by rewrite lookup_insert_eq|].
  intros s' Hr'. destruct (loop_ended _ _ Hr') as [_ Ew']; [done|]. cbn in Ew'. split; [done|]. rewrite Ew'. intros o' Hcr.
  pose proof (iv_log _ _ (fresh_inv cfg w0 tree WalSyncGroupCommit Hw)) as Hlog.
  destruct (logs_restart cfg w0 [] o' (proj1 Hw) Hlog Hcr) as (w' & R & _). by exists w'.
Qed.

(** With group commit a batch smaller than 16 is never written while the store is
    open and nobody writes: the loop has taken the entries, its channel is empty,
    and it has no step to take. *)
Theorem group_commit_never_drains w0 tree p kv' : kvSetBatch [p] tree = (kv', Ret tt) ->
  exists s, reachable tree w0 WalSyncGroupCommit s /\ writers s !! 0%nat = Some (Returned (batchEntries [p]) (Ret tt)) /\
    wal s = w0 /\ map entry (batch s) = batchEntries [p] /\ taskCh s = [] /\ cancelled s = false /\ forall s', ~ loop_step s s'.
Proof.
  intros Hk.
  destruct (set_batch_run (NewPersistWAL tree w0 WalSyncGroupCommit) 0 [p] kv') as (s & Hr & Hi & Ht & Ek & Ew & Em & Eb & El & Ec & Es & Ho); try done; [cbn; unfold channelSize; lia|].
  cbn in Ew, Em, Eb, El, Ec, Es, Ht. set (t := mkTask (acquireWALEntry (copyBytes p.1) (copyBytes p.2)) None) in Ht.
  exists (set_loop (wal s) [] (batch s ++ [t]) Looping ∅ s). split; [|repeat split; try done].
  - eapply rtc_r; [exact Hr|]. apply by_loop,  (l_collect s t []); [done|by rewrite Em|done|]. rewrite Eb. cbn. unfold batchSize. lia.
  - cbn. by rewrite Eb.
  - intros s' H. inversion H; cbn in *; congruence.
Qed.

End decorator.

(** ** Concrete runs: a list as store, an empty directory *)

#[local] Instance listStore : KVStore (list (bytes * bytes)) := {|
  kvSet k v := modifyS (cons (k, v));
  kvSetBatch ps := modifyS (app ps);
  kvClose := mret tt |}.
Definition aConfig : WALConfig := mkWALConfig "wal" (1024 * 1024) SyncPolicyBatch.
Definition aLog : World := fst (NewDiskWAL aConfig (mkWorld empty_os blank)).

Lemma aLog_fresh : freshLog aConfig aLog.
Proof. split; [done|]. unfold aLog. by destruct (NewDiskWAL_fresh aConfig eq_refl) as (w & -> & _). Qed.

Lemma small_wf k v : bytes_ok k -> bytes_ok v -> zlen k < 2 ^ 16 -> zlen v < 2 ^ 16 -> entry_wf (acquireWALEntry (Some k) (Some v)).
Proof.
  intros Hk Hv Lk Lv. unfold entry_wf, entry_ok, acquireWALEntry, is_u64, is_i64, is_u8, is_u16, WALTypeInsert; cbn.
  pose proof (zlen_nonneg k). pose proof (zlen_nonneg v). repeat split; try done; lia.
Qed.


Lemma every_write_batch_hangs_witness : exists s, reachable (K := list (bytes * bytes)) [] aLog WalSyncEveryWrite s /\ (exists es, writers s !! 0%nat = Some (Returned es (Ret tt))) /\
  forall s', rtc step s s' -> loop s' = Blocked.
Proof.
  destruct (every_write_batch_hangs aConfig aLog [] ([1], [2]) [([3], [4])] [([1], [2]); ([3], [4])] aLog_fresh) as (s & Hr & Hi & Hs).
  - cbn. unfold channelSize. lia.
  - apply Forall_cons; split; [apply small_wf; by repeat constructor|]. apply Forall_singleton, small_wf; by repeat constructor.
  - reflexivity.
  - exists s. split; [done|]. split; [by eexists|]. intros s' Hr'. by destruct (Hs s' Hr').
Defined.

Lemma close_drops_queue_witness : exists s r, reachable (K := list (bytes * bytes)) [] aLog WalSyncGroupCommit s /\ writers s !! 1%nat = Some (Closed r) /\
  forall s', rtc step s s' -> wal s' = aLog.
Proof.
  destruct (close_drops_queue aConfig aLog [] [([1], [2])] [([1], [2])] [([1], [2])] (Ret tt) aLog_fresh) as (s & Hr & _ & Hi & Hs).
  - cbn. unfold channelSize. lia.
  - reflexivity.
  - reflexivity.
  - exists s, (Ret tt). split; [done|]. split; [done|]. intros s' Hr'. by destruct (Hs s' Hr').
Defined.

Lemma group_commit_never_drains_witness : exists s, reachable (K := list (bytes * bytes)) [] aLog WalSyncGroupCommit s /\ wal s = aLog /\ forall s', ~ loop_step s s'.
Proof.
  destruct (group_commit_never_drains aLog [] ([1], [2]) [([1], [2])]) as (s & Hr & _ & Hw & _ & _ & _ & Hs); [reflexivity|]. by exists s.
Defined.
