(* ===== verification/PersistCheckpoint.v ===== *)
(** * The checkpoint decorator of a store (persist/persist_checkpoint.go)

    Writes are counted; a save of the dirty pages is started in the background
    when the count reaches a multiple of the interval or when a tick finds the
    store idle with unsaved writes.  The decorated store is an interface.  A save
    is two steps, enumerating the pages and storing them: writes may happen in
    between.  Logging and times are left out. *)

From stdpp Require Import base list gmap strings.
From Stdlib Require Import ZArith Lia.
From S2P Require Import Prelude WalFormat OffHeap ChunkFormat ChunkStore Checkpoint KVStore.

Local Open Scope Z_scope.

(** The functions that give the pages of the decorated store, and the optional
    counters of dirty bytes. *)
Class PageSource (K R : Type) := {
  rootFn : K -> option R;
  enumerateFn : R -> K -> outcome (list PageFlushItem);
  DirtyBytes : option (K -> Z);
  ResetDirtyBytes : option (K -> K) }.

Definition maxDirtyBytesPerSave : Z := 256 * 1024 * 1024.

Record checkpointConfig := mkConfig {
  cfg_ckptInterval : Z;
  cfg_maxDirtyBytesPerSave : Z }.
Definition defaultCheckpointConfig : checkpointConfig := mkConfig 10000 maxDirtyBytesPerSave.
Definition WithCkptInterval (n : Z) (c : checkpointConfig) : checkpointConfig := mkConfig n (cfg_maxDirtyBytesPerSave c).
Definition WithMaxDirtyBytes (n : Z) (c : checkpointConfig) : checkpointConfig := mkConfig (cfg_ckptInterval c) n.

Record CkptStats := mkCkptStats { TotalSaves : Z; PageCount : Z }.

(** [pending]: saves started in the background that do not run yet. *)
Record PersistCheckpoint (K : Type) := mkPC {
  kv : K;
  chunkMgr : DiskChunkManager;
  config : checkpointConfig;
  setCount : Z;
  lastSavedCount : Z;
  saving : bool;
  dirtyWarned : bool;
  ckptStats : CkptStats;
  pending : nat }.
Arguments mkPC {K}. Arguments kv {K}. Arguments chunkMgr {K}. Arguments config {K}. Arguments setCount {K}. Arguments lastSavedCount {K}.
Arguments saving {K}. Arguments dirtyWarned {K}. Arguments ckptStats {K}. Arguments pending {K}.

Section decorator.
Context {K R : Type} `{KV : KVStore K} `{PS : PageSource K R}.
Notation state := (PersistCheckpoint K).
Notation pcM := (stM state).
Implicit Types (p : state).

Definition set_kv (g : K -> K) p : state :=
  mkPC (g (kv p)) (chunkMgr p) (config p) (setCount p) (lastSavedCount p) (saving p) (dirtyWarned p) (ckptStats p) (pending p).
Definition set_chunkMgr (c : DiskChunkManager) p : state :=
  mkPC (kv p) c (config p) (setCount p) (lastSavedCount p) (saving p) (dirtyWarned p) (ckptStats p) (pending p).
Definition set_setCount (n : Z) p : state :=
  mkPC (kv p) (chunkMgr p) (config p) n (lastSavedCount p) (saving p) (dirtyWarned p) (ckptStats p) (pending p).
Definition set_saved (n : Z) (t : CkptStats) p : state :=
  mkPC (kv p) (chunkMgr p) (config p) (setCount p) n (saving p) (dirtyWarned p) t (pending p).
Definition set_saving (b : bool) (n : nat) p : state :=
  mkPC (kv p) (chunkMgr p) (config p) (setCount p) (lastSavedCount p) b (dirtyWarned p) (ckptStats p) n.
Definition set_dirtyWarned (b : bool) p : state :=
  mkPC (kv p) (chunkMgr p) (config p) (setCount p) (lastSavedCount p) (saving p) b (ckptStats p) (pending p).

Definition onKv {A} (f : stM K A) : pcM A := fun p => let '(k, r) := f (kv p) in (set_kv (fun _ => k) p, r).
Definition onStore {A} (f : stM DiskChunkManager A) : pcM A := fun p => let '(c, r) := f (chunkMgr p) in (set_chunkMgr c p, r).

Definition NewPersistCheckpoint (tree : K) (cm : DiskChunkManager) (opts : list (checkpointConfig -> checkpointConfig)) : state :=
  mkPC tree cm (foldl (fun c o => o c) defaultCheckpointConfig opts) 0 0 false false (mkCkptStats 0 0) 0.

(** ** Writes *)

(** The compare-and-swap of [saving], then [go]. *)
Definition startSave p : state := if saving p then p else set_saving true (S (pending p)) p.

Definition maybeTriggerCkpt (count : Z) : pcM unit :=
  p ← getS;
  let interval := u64 (cfg_ckptInterval (config p)) in
  if interval =? 0 then liftS Panic else
  if count mod interval =? 0 then modifyS startSave else mret tt.

Definition countWrites (n : Z) : pcM unit :=
  p ← getS;
  let count := u64 (setCount p + n) in
  _ ← modifyS (set_setCount count);
  maybeTriggerCkpt count.

Definition Set_ (key value : bytes) : pcM unit :=
  _ ← onKv (kvSet key value);
  countWrites 1.
Definition SetBatch (pairs : list (bytes * bytes)) : pcM unit :=
  _ ← onKv (kvSetBatch pairs);
  countWrites (u64 (zlen pairs)).

(** ** Saving *)

Definition checkDirty p : state :=
  match DirtyBytes with
  | None => p
  | Some dirty =>
      let totalBytes := i64 (dirty (kv p)) in
      let max := cfg_maxDirtyBytesPerSave (config p) in
      if (max <? totalBytes) && negb (dirtyWarned p) then set_dirtyWarned true p
      else if totalBytes <=? max then set_dirtyWarned false p else p
  end.

(** Up to the enumeration. *)
Definition saveStart : pcM (list PageFlushItem) :=
  p ← getS;
  match rootFn (kv p) with
  | None => failS (Wrap (Sentinel ErrCheckpointNilRoot) "checkpoint: nil root")
  | Some root =>
      items ← liftS (enumerateFn root (kv p));
      _ ← modifyS checkDirty;
      mret items
  end.

(** An error of the store is reported to it; it does nothing. *)
Definition orRollback {A} (f : stM DiskChunkManager A) : pcM A := fun p =>
  match onStore f p with
  | (p, Fail e) => let '(p, _) := onStore RollbackLastBatch p in (p, Fail e)
  | r => r
  end.

(** Positions of stored pages are not kept. *)
Fixpoint saveItems (items : list PageFlushItem) (pageCount : Z) : pcM Z :=
  match items with
  | [] => mret pageCount
  | item :: items =>
      match i_PageData item with
      | Some data =>
          if i_ChunkPos item =? 0 then
            pos ← orRollback (Allocate (zlen data) (i_PageType item));
            _ ← orRollback (WritePage pos data);
            saveItems items (pageCount + 1)
          else saveItems items pageCount
      | None => saveItems items pageCount
      end
  end.

(** From the enumeration to the end. *)
Definition saveFinish (items : list PageFlushItem) : pcM unit :=
  pageCount ← saveItems items 0;
  _ ← onStore Sync;
  _ ← modifyS (fun p => match ResetDirtyBytes with Some reset => set_kv reset p | None => p end);
  modifyS (fun p => set_saved (setCount p) (mkCkptStats (i64 (TotalSaves (ckptStats p) + 1)) pageCount) p).

Definition saveInternal : pcM unit := items ← saveStart; saveFinish items.
Definition Save : pcM unit := saveInternal.

(** The background save: its error is ignored. *)
Definition endAsync p : state := set_saving false (pending p) p.

(** One tick of the idle check; returns the new [lastTickCount]. *)
Definition idleTick (lastTickCount : Z) : pcM Z :=
  p ← getS;
  _ ← (if (setCount p =? lastTickCount) && (lastSavedCount p <? setCount p) then modifyS startSave else mret tt);
  mret (setCount p).

(** [Close]; [timeout]: the last save takes longer than 30 seconds. *)
Definition Close (timeout : bool) : pcM unit := fun p =>
  let r := if timeout then (p, Ret tt) else match saveInternal p with (p, Panic) => (p, Panic) | (p, _) => (p, Ret tt) end in
  match r with
  | (p, Ret _) => onKv kvClose p
  | r => r
  end.
Definition GetCkptStats p : Z * Z := (TotalSaves (ckptStats p), PageCount (ckptStats p)).

(** ** Writes, ticks and saves interleaved *)

(** [running]: the save that holds saveMu after its enumeration, and whether it is
    a background one. *)
Record sys := mkSys { pc : state; running : option (list PageFlushItem * bool); lastTick : Z }.

Definition take_pending (async : bool) p : state := if async then set_saving (saving p) (pred (pending p)) p else p.
Definition finished (async : bool) p : state := if async then endAsync p else p.

Inductive step : sys -> sys -> Prop :=
| st_set s k v p' r : Set_ k v (pc s) = (p', r) -> step s (mkSys p' (running s) (lastTick s))
| st_batch s pairs p' r : SetBatch pairs (pc s) = (p', r) -> step s (mkSys p' (running s) (lastTick s))
| st_begin s async p' items : running s = None -> (async = true -> pending (pc s) <> 0%nat) ->
    saveStart (take_pending async (pc s)) = (p', Ret items) -> step s (mkSys p' (Some (items, async)) (lastTick s))
| st_begin_fails s async p' e : running s = None -> (async = true -> pending (pc s) <> 0%nat) ->
    saveStart (take_pending async (pc s)) = (p', Fail e) -> step s (mkSys (finished async p') None (lastTick s))
| st_end s items async p' r : running s = Some (items, async) -> saveFinish items (pc s) = (p', r) ->
    step s (mkSys (finished async p') None (lastTick s))
| st_tick s p' n : idleTick (lastTick s) (pc s) = (p', Ret n) -> step s (mkSys p' (running s) n).

Definition initial (tree : K) (cm : DiskChunkManager) opts : sys := mkSys (NewPersistCheckpoint tree cm opts) None 0.

(** What calls leave alone. *)
Definition same_saves p p' : Prop := saving p' = saving p /\ pending p' = pending p /\ config p' = config p.
#[local] Instance same_saves_preorder : PreOrder same_saves.
Proof. split; [by intros p|]. intros p1 p2 p3 (? & ? & ?) (? & ? & ?). split; [congruence|]. split; congruence. Qed.

Lemma onKv_same {A} (f : stM K A) p : wp (onKv f) p (fun _ p' => same_saves p p' /\ setCount p' = setCount p) (fun p' => same_saves p p') \/ (onKv f p).2 = Panic.
Proof. unfold wp, onKv. destruct (f (kv p)) as [k [a|e|]]; [left|left|right]; done. Qed.

Lemma same_onStore {A} (f : stM DiskChunkManager A) p p' r : onStore f p = (p', r) -> same_saves p p' /\ setCount p' = setCount p /\ kv p' = kv p.
Proof. unfold onStore. destruct (f (chunkMgr p)) as [c r']. by intros [= <- _]. Qed.

Lemma same_orRollback {A} (f : stM DiskChunkManager A) p p' r : orRollback f p = (p', r) -> same_saves p p' /\ setCount p' = setCount p /\ kv p' = kv p.
Proof.
  unfold orRollback. destruct (onStore f p) as [p1 r1] eqn:E. apply same_onStore in E as (H1 & H2 & H3). destruct r1 as [a|e|]; by intros [= <- _].
Qed.

Lemma same_saveItems items n : forall p p' r, saveItems items n p = (p', r) -> same_saves p p' /\ setCount p' = setCount p /\ kv p' = kv p.
Proof.
  revert n. induction items as [|item items IH]; intros n p p' r; cbn [saveItems]; [by intros [= <- _]|].
  destruct (i_PageData item) as [d|]; [|apply IH]. destruct (_ =? 0); [|apply IH].
  unfold mbind at 1, stM_bind at 1. destruct (orRollback _ p) as [p1 r1] eqn:E1. apply same_orRollback in E1 as (H1 & H2 & H3).
  destruct r1 as [pos|e|]; [|by intros [= <- _]..]. unfold mbind at 1, stM_bind at 1. destruct (orRollback _ p1) as [p2 r2] eqn:E2.
  apply same_orRollback in E2 as (K1 & K2 & K3). assert (H12 : same_saves p p2 /\ setCount p2 = setCount p /\ kv p2 = kv p) by (split; [by etrans|split; congruence]).
  destruct r2 as [u|e|]; [|by intros [= <- _]..]. intros (J1 & J2 & J3)%IH. destruct H12 as (L1 & L2 & L3). split; [by etrans|]. split; congruence.
Qed.

Lemma same_saveFinish items p p' r : saveFinish items p = (p', r) -> same_saves p p' /\ setCount p' = setCount p /\ (r = Ret tt -> lastSavedCount p' = setCount p).
Proof.
  unfold saveFinish, mbind at 1, stM_bind at 1. destruct (saveItems items 0 p) as [p1 [n|e|]] eqn:E1; apply same_saveItems in E1 as (H1 & H2 & H3);
    [|intros [= <- <-]; done..].
  unfold mbind at 1, stM_bind at 1. destruct (onStore Sync p1) as [p2 [u|e|]] eqn:E2; apply same_onStore in E2 as (K1 & K2 & K3);
    [|intros [= <- <-]; split; [by etrans|]; split; [congruence|done]..].
  rewrite stM_bind_modify. unfold modifyS. intros [= <- <-].
  assert (Hsame : same_saves p p2) by by etrans. destruct Hsame as (J1 & J2 & J3).
  destruct ResetDirtyBytes; (split; [done|]); cbn; split; congruence.
Qed.

Lemma same_saveStart p p' r : saveStart p = (p', r) -> same_saves p p' /\ setCount p' = setCount p.
Proof.
  unfold saveStart. rewrite stM_bind_get. destruct (rootFn (kv p)) as [root|]; [|by intros [= <- _]].
  destruct (enumerateFn root (kv p)) as [items|e|]; [|by intros [= <- _]..]. rewrite stM_bind_lift, stM_bind_modify. intros [= <- _].
  unfold checkDirty. destruct DirtyBytes; [|done]. repeat case_match; done.
Qed.

(** Starting a save happens at most once at a time. *)
Definition background (s : sys) : nat :=
  pending (pc s) + match running s with Some (_, true) => 1 | _ => 0 end.
Definition one_background (s : sys) : Prop := background s = if saving (pc s) then 1%nat else 0%nat.

Lemma startSave_inv p n : (pending p + n = if saving p then 1 else 0)%nat -> (pending (startSave p) + n = if saving (startSave p) then 1 else 0)%nat.
Proof. unfold startSave. destruct (saving p) eqn:E; [by rewrite E|]. cbn. lia. Qed.

Lemma countWrites_inv k p p' r n : countWrites k p = (p', r) -> (pending p + n = if saving p then 1 else 0)%nat -> (pending p' + n = if saving p' then 1 else 0)%nat.
Proof.
  unfold countWrites. rewrite stM_bind_get, stM_bind_modify. unfold maybeTriggerCkpt. rewrite stM_bind_get.
  destruct (_ =? 0); [by intros [= <- _]|]. destruct (_ =? 0); intros [= <- _]; [|done]. intros Hinv. by apply (startSave_inv (set_setCount _ p)).
Qed.

Lemma write_inv (f : stM K unit) k p p' r n : (_ ← onKv f; countWrites k) p = (p', r) ->
  (pending p + n = if saving p then 1 else 0)%nat -> (pending p' + n = if saving p' then 1 else 0)%nat.
Proof.
  unfold mbind, stM_bind, onKv. destruct (f (kv p)) as [k' [u|e|]]; [|by intros [= <- _]..]. intros E Hinv. by eapply countWrites_inv.
Qed.

Lemma step_inv s s' : step s s' -> one_background s -> one_background s'.
Proof.
  unfold one_background, background. destruct 1 as [s k v p' r E|s pairs p' r E|s async p' items Hr Hp E|s async p' e Hr Hp E|s items async p' r Hr E|s p' n E];
    cbn [pc running].
  - by eapply write_inv.
  - by eapply write_inv.
  - apply same_saveStart in E as ((E1 & E2 & _) & _). rewrite Hr, E1, E2. destruct async; cbn [take_pending set_saving saving pending]; [|done].
    specialize (Hp eq_refl). lia.
  - apply same_saveStart in E as ((E1 & E2 & _) & _). rewrite Hr. destruct async; cbn [finished endAsync set_saving saving pending take_pending] in *.
    + rewrite E2. specialize (Hp eq_refl). destruct (saving (pc s)); lia.
    + by rewrite E1, E2.
  - apply same_saveFinish in E as ((E1 & E2 & _) & _). rewrite Hr. destruct async; cbn [finished endAsync set_saving saving pending].
    + rewrite E2. destruct (saving (pc s)); lia.
    + by rewrite E1, E2.
  - revert E. unfold idleTick. rewrite stM_bind_get. destruct (_ && _); [rewrite stM_bind_modify|]; intros [= <- _]; [|done]. apply startSave_inv.
Qed.

(** C20: in every reachable state at most one background save is waiting or runs,
    and the flag [saving] says whether there is one. *)
Theorem one_background_save tree cm opts s : rtc step (initial tree cm opts) s ->
  one_background s /\ (background s <= 1)%nat.
Proof.
  intros Hr. assert (H1 : one_background s).
  { apply (rtc_ind_r (R := step) one_background (initial tree cm opts)); [done| |exact Hr]. intros s1 s2 _ Hs IH. by eapply step_inv. }
  split; [done|]. rewrite H1. destruct (saving _); lia.
Qed.

(** ** What a save does *)

Lemma wp_onStore {A} (f : stM DiskChunkManager A) p (Q : A -> state -> Prop) (E : state -> Prop) :
  wp f (chunkMgr p) (fun a c => Q a (set_chunkMgr c p)) (fun c => E (set_chunkMgr c p)) -> wp (onStore f) p Q E.
Proof. unfold wp, onStore. by destruct (f (chunkMgr p)) as [c [a|e|]]. Qed.
Lemma wp_orRollback {A} (f : stM DiskChunkManager A) p (Q : A -> state -> Prop) (E : state -> Prop) :
  wp f (chunkMgr p) (fun a c => Q a (set_chunkMgr c p)) (fun c => E (set_chunkMgr c p)) -> wp (orRollback f) p Q E.
Proof. unfold wp, orRollback, onStore. destruct (f (chunkMgr p)) as [c [a|e|]]; done. Qed.

(** The item's page is stored, or has a position already. *)
Definition stored (pages : gmap Z bytes) (item : PageFlushItem) : Prop :=
  forall d, i_PageData item = Some d -> i_ChunkPos item = 0 -> exists pos, pages !! pos = Some d.

(** The store after a save of [p]. *)
Definition saved p (pages : gmap Z bytes) p' (pages' : gmap Z bytes) : Prop :=
  exists c', p' = set_chunkMgr c' p /\ cm_ok c' pages' /\ kept (chunkMgr p) c' /\ pages ⊆ pages'.
Lemma saved_trans p1 m1 p2 m2 p3 m3 : saved p1 m1 p2 m2 -> saved p2 m2 p3 m3 -> saved p1 m1 p3 m3.
Proof.
  intros (c2 & -> & H2 & K2 & S2) (c3 & -> & H3 & K3 & S3). exists c3. split; [done|]. split; [done|]. split; [by etrans|by etrans].
Qed.

Lemma saveItems_ok items n : forall p pages, cm_ok (chunkMgr p) pages -> Forall item_ok items ->
  wp (saveItems items n) p (fun _ p' => exists pages', saved p pages p' pages' /\ Forall (stored pages') items)
    (fun p' => exists pages', saved p pages p' pages' /\ noRoom (chunkMgr p) (chunkMgr p')).
Proof.
  revert n. induction items as [|item items IH]; intros n p pages H Hok; cbn [saveItems].
  { apply wp_ret. exists pages. split; [|constructor]. exists (chunkMgr p). by destruct p. }
  apply Forall_cons in Hok as [Hi Hok].
  assert (Hnext : forall n, (forall pages', stored pages' item) -> wp (saveItems items n) p
     (fun _ p' => exists pages', saved p pages p' pages' /\ Forall (stored pages') (item :: items))
     (fun p' => exists pages', saved p pages p' pages' /\ noRoom (chunkMgr p) (chunkMgr p'))).
  { intros k Hst. eapply wp_mono; [by apply (IH k p pages)| |done]. intros a p' (pages' & Hs & Hf). exists pages'. split; [done|]. by apply Forall_cons. }
  destruct (i_PageData item) as [d|] eqn:Ed; [destruct (Z.eqb_spec (i_ChunkPos item) 0) as [E0|E0]|].
  2: { apply Hnext. intros m x _ Hx. done. }
  2: { apply Hnext. intros m x Hx. congruence. }
  destruct Hi as (_ & _ & Hi). specialize (Hi d Ed E0). apply wp_bind, wp_orRollback. eapply wp_mono; [by apply Allocate_ok| |].
  2: { intros c (H' & Hk & Hr). exists pages. split; [by exists c|]. destruct Hr as [Hr|[Hr|Hr]]; [by left|right; by eapply exhausted_kept|congruence]. }
  intros pos c1 (Hs & Ht & H1 & Hk & Hnew & Hal). pose proof (size_ok_bounds _ Hs) as Hb. apply wp_bind, wp_orRollback.
  eapply wp_mono; [apply (WritePage_ok c1 pages pos (i_PageType item) d); [done|done|lia]| |].
  - intros [] c2 [H2 Hk2]. set (p2 := set_chunkMgr c2 (set_chunkMgr c1 p)). assert (Hs2 : saved p pages p2 (<[pos := d]> pages)).
    { exists c2. split; [done|]. split; [done|]. split; [by etrans|]. by apply insert_subseteq. }
    eapply wp_mono; [apply (IH (n + 1) p2 (<[pos := d]> pages)); [exact H2|done]| |].
    + intros a p' (pages' & Hs' & Hf). exists pages'. split; [by eapply saved_trans|]. apply Forall_cons. split; [|done].
      intros x Hx _. rewrite Ed in Hx. injection Hx as <-. exists pos. destruct Hs' as (c' & _ & _ & _ & Hsub).
      eapply lookup_weaken; [apply lookup_insert_eq|exact Hsub].
    + intros p' (pages' & Hs' & Hr). exists pages'. split; [by eapply saved_trans|]. destruct Hr as [Hr|Hr]; [left|by right]. intros Hc. apply Hr. by apply Hk2, Hk.
  - intros c2 (H2 & Hk2 & Hcl). exists pages. split; [exists c2; split; [done|]; split; [done|]; split; [by etrans|done]|]. left. intros Hc. by apply Hcl, Hk.
Qed.

Lemma checkDirty_frame p : chunkMgr (checkDirty p) = chunkMgr p /\ setCount (checkDirty p) = setCount p /\ lastSavedCount (checkDirty p) = lastSavedCount p.
Proof. unfold checkDirty. destruct DirtyBytes; [|done]. repeat case_match; done. Qed.

Lemma saveFinish_ok items p pages : cm_ok (chunkMgr p) pages -> Forall item_ok items ->
  wp (saveFinish items) p (fun _ p' => exists pages', cm_ok (chunkMgr p') pages' /\ pages ⊆ pages' /\ Forall (stored pages') items /\ lastSavedCount p' = setCount p)
    (fun p' => exists pages', cm_ok (chunkMgr p') pages' /\ pages ⊆ pages' /\ noRoom (chunkMgr p) (chunkMgr p') /\ lastSavedCount p' = lastSavedCount p).
Proof.
  intros H Hok. unfold saveFinish. apply wp_bind. eapply wp_mono; [by apply (saveItems_ok items 0 p pages)| |].
  2: { intros p' (pages' & (c' & -> & H' & _ & Hsub) & Hr). exists pages'. done. }
  intros n p1 (pages1 & (c1 & -> & H1 & Hk & Hsub) & Hst). apply wp_bind, wp_onStore. eapply wp_mono; [by apply (chunk_Sync_ok c1 pages1)| |].
  - intros [] c2 [H2 _]. apply wp_bind, wp_modify, wp_modify. exists pages1. destruct ResetDirtyBytes; done.
  - intros c2 (H2 & _ & Hcl). exists pages1. split; [done|]. split; [done|]. split; [|done]. left. intros Hc. by apply Hcl, Hk.
Qed.

(** A save stores every page of the tree that has no position, and then
    counts all writes as saved; it fails only when the disk does or all chunk ids
    are taken.  No page stored before is lost in either case. *)
Theorem save_stores_pages p pages root items (Hok : cm_ok (chunkMgr p) pages) (Hroot : rootFn (kv p) = Some root)
  (Henum : enumerateFn root (kv p) = Ret items) (Hitems : Forall item_ok items) :
  exists p' r pages', saveInternal p = (p', r) /\ cm_ok (chunkMgr p') pages' /\ pages ⊆ pages' /\
    ((r = Ret tt /\ Forall (stored pages') items /\ lastSavedCount p' = setCount p) \/
     (exists e, r = Fail e /\ noRoom (chunkMgr p) (chunkMgr p') /\ lastSavedCount p' = lastSavedCount p)).
Proof.
  destruct (checkDirty_frame p) as (E1 & E2 & E3). assert (Es : saveStart p = (checkDirty p, Ret items)).
  { unfold saveStart. by rewrite stM_bind_get, Hroot, Henum, stM_bind_lift, stM_bind_modify. }
  unfold saveInternal. rewrite (stM_bind_ret _ _ _ _ _ Es).
  pose proof (saveFinish_ok items (checkDirty p) pages ltac:(by rewrite E1) Hitems) as Hw. unfold wp in Hw. rewrite E1, E2, E3 in Hw.
  destruct (saveFinish items (checkDirty p)) as [p' [[]|e|]]; [| |done]; destruct Hw as (pages' & H' & Hsub & Hr & Hl); exists p'; eexists; exists pages';
    (split; [done|]; split; [done|]; split; [done|]); [by left|right; by exists e].
Qed.

(** ** Writes that no save follows *)

Fixpoint writeBatches (bs : list (list (bytes * bytes))) p : state :=
  match bs with [] => p | b :: bs => writeBatches bs (fst (SetBatch b p)) end.

Lemma batch_count b p (i := u64 (cfg_ckptInterval (config p))) : 2 <= i -> zlen b = i -> 0 <= setCount p -> setCount p mod i = 1 -> setCount p + i < 2 ^ 64 ->
  same_saves p (fst (SetBatch b p)) /\ (setCount (fst (SetBatch b p)) = setCount p \/ setCount (fst (SetBatch b p)) = setCount p + i).
Proof.
  intros Hi Hb H0 Hmod Hmax. unfold SetBatch, mbind, stM_bind, onKv. destruct (kvSetBatch b (kv p)) as [k [u|e|]]; [|cbn; split; [done|left; reflexivity]..].
  unfold countWrites. rewrite stM_bind_get, stM_bind_modify. unfold maybeTriggerCkpt. rewrite stM_bind_get. cbn [set_kv setCount config set_setCount]. fold i.
  rewrite Hb. rewrite (u64_id i), u64_id by (unfold is_u64; lia). rewrite (proj2 (Z.eqb_neq i 0)) by lia.
  assert (Hm : (setCount p + i) mod i = 1) by (rewrite <- (Z.mul_1_l i) at 1; by rewrite Z.mod_add by lia).
  rewrite Hm. cbn. split; [done|]. right. done.
Qed.

(** Counting misses multiples.  A save is started when the count of writes
    is a multiple of the interval; a batch adds its length.  After one single
    write, batches of as many pairs as the interval never start a save, however
    many there are. *)
Theorem batches_never_saved bs p (i := u64 (cfg_ckptInterval (config p))) (Hi : 2 <= i) (Hbs : Forall (fun b => zlen b = i) bs)
  (H0 : 0 <= setCount p) (Hone : setCount p mod i = 1) (Hmax : setCount p + i * zlen bs < 2 ^ 64) :
  pending (writeBatches bs p) = pending p /\ saving (writeBatches bs p) = saving p.
Proof.
  assert (Hg : forall p, u64 (cfg_ckptInterval (config p)) = i -> 0 <= setCount p -> setCount p mod i = 1 -> setCount p + i * zlen bs < 2 ^ 64 -> same_saves p (writeBatches bs p)).
  { clear Hone Hmax H0. induction bs as [|b bs IH]; intros q Eq H0 Hone Hmax; [done|]. apply Forall_cons in Hbs as [Hb Hbs]. cbn [writeBatches]. rewrite zlen_cons in Hmax.
    pose proof (zlen_nonneg bs). destruct (batch_count b q) as [Hs Hc]; [lia|lia|done|by rewrite Eq|nia|]. rewrite Eq in Hc. etrans; [exact Hs|]. destruct Hs as (_ & _ & Ec). apply IH; [done|by rewrite Ec| | |].
    - destruct Hc as [->| ->]; lia.
    - destruct Hc as [->| ->]; [done|]. rewrite <- (Z.mul_1_l i) at 1. by rewrite Z.mod_add by lia.
    - destruct Hc as [->| ->]; nia. }
  destruct (Hg p eq_refl H0 Hone Hmax) as (E1 & E2 & _). done.
Qed.

Fixpoint idleTicks (n : nat) (last : Z) : pcM Z :=
  match n with O => mret last | S n => l ← idleTick last; idleTicks n l end.

(** A write during a save is not saved when the store falls idle.  A save
    counts as saved all writes until its end, also those after its enumeration
    of the pages; from then on no number of ticks starts a save. *)
Theorem write_during_save_missed p0 p items k v p1 p2 (Hstart : saveStart p0 = (p, Ret items))
  (Hset : Set_ k v p = (p1, Ret tt)) (Hend : saveFinish items p1 = (p2, Ret tt)) async last n :
  fst (idleTicks n last (finished async p2)) = finished async p2.
Proof.
  destruct (same_saveFinish _ _ _ _ Hend) as (_ & Hc & Hl). specialize (Hl eq_refl).
  set (q := finished async p2). assert (Eq : lastSavedCount q = setCount q) by (unfold q; destruct async; cbn; congruence). clearbody q. clear -Eq.
  revert last. induction n as [|n IH]; intros last; [done|]. cbn [idleTicks]. unfold mbind at 1, stM_bind at 1, idleTick.
  rewrite stM_bind_get, Eq, Z.ltb_irrefl, andb_false_r. apply IH.
Qed.
End decorator.

(** ** The theorems at work *)

(** A store that keeps its pairs in a list; its tree is one page. *)
#[local] Instance listStore : KVStore (list (bytes * bytes)) := {|
  kvSet k v := modifyS (cons (k, v));
  kvSetBatch ps := modifyS (app ps);
  kvClose := mret tt |}.
#[local] Instance listPages : PageSource (list (bytes * bytes)) unit := {|
  rootFn _ := Some tt;
  enumerateFn _ s := Ret [mkItem 5 1 (Some (zeros (100 + zlen s))) 0];
  DirtyBytes := Some zlen;
  ResetDirtyBytes := None |}.
Definition aStore : PersistCheckpoint (list (bytes * bytes)) := NewPersistCheckpoint [] emptyStore [WithCkptInterval 2].

Lemma one_background_save_witness :
  exists s, rtc step (initial [] emptyStore [WithCkptInterval 2]) s /\ pending (pc s) = 1%nat /\ one_background s /\ (background s <= 1)%nat.
Proof.
  set (s := mkSys (fst (SetBatch [([1], [2]); ([3], [4])] aStore)) None 0).
  assert (Hr : rtc step (initial [] emptyStore [WithCkptInterval 2]) s) by (apply rtc_once; eapply st_batch; apply surjective_pairing).
  exists s. split; [exact Hr|]. split; [reflexivity|]. exact (one_background_save [] emptyStore [WithCkptInterval 2] s Hr).
Defined.

Lemma save_stores_pages_witness :
  let items := [mkItem 5 1 (Some (zeros 100)) 0] in
  exists p' r pages', saveInternal aStore = (p', r) /\ cm_ok (chunkMgr p') pages' /\ (∅ : gmap Z bytes) ⊆ pages' /\
    ((r = Ret tt /\ Forall (stored pages') items /\ lastSavedCount p' = 0) \/
     (exists e, r = Fail e /\ noRoom emptyStore (chunkMgr p') /\ lastSavedCount p' = 0)).
Proof.
  intros items. apply (save_stores_pages aStore ∅ tt items); [exact emptyStore_ok|reflexivity|reflexivity|].
  apply Forall_singleton. split; [done|]. split; [done|]. intros d [= <-] _. reflexivity.
Defined.

Lemma batches_never_saved_witness :
  let b := [([1], [2]); ([3], [4])] in
  let p := fst (Set_ [7] [8] aStore) in
  setCount p = 1 /\ pending (writeBatches [b; b; b] p) = 0%nat /\ saving (writeBatches [b; b; b] p) = false.
Proof.
  intros b p. split; [reflexivity|]. apply (batches_never_saved [b; b; b] p); try reflexivity.
  all: first [by repeat constructor | vm_compute; discriminate].
Defined.

Lemma write_during_save_missed_witness :
  let p := fst (saveStart aStore) in
  let items := [mkItem 5 1 (Some (zeros 100)) 0] in
  let p1 := fst (Set_ [7] [8] p) in
  let p2 := fst (saveFinish items p1) in
  saveStart aStore = (p, Ret items) /\ lastSavedCount p2 = 1 /\ fst (idleTicks 3 0 (finished true p2)) = finished true p2.
Proof.
  intros p items p1 p2. split; [reflexivity|]. split; [vm_compute; reflexivity|].
  apply (write_during_save_missed aStore p items [7] [8] p1 p2).
  - reflexivity.
  - reflexivity.
  - apply injective_projections; vm_compute; reflexivity.
Defined.
