(* ===== verification/PageLayout.v ===== *)
(** * Slotted pages (storage/offheap/page_layout.go)

    An index or leaf page is a header, an array of 16-byte entries growing up
    from offset 56, and key and value bytes growing down from offset 4096.
    Definitions follow the [PageAccessor] methods on the flat memory of
    OffHeap; the theorems relate the bytes of a page to the list of its
    entries.  An access outside the mapped region is a fault that kills the
    process; such accesses are outside the model, and the theorems are about
    pages whose entries lie within them. *)

From stdpp Require Import base list gmap strings.
From Stdlib Require Import ZArith Lia.
From S2P Require Import Prelude OffHeap.

Local Open Scope Z_scope.

(** ** Entries *)

Definition SizeofIndexEntry : Z := 16.
Definition SizeofLeafEntry : Z := 16.

Record IndexEntry := { ie_keyOff : Z; ie_keyLen : Z; ie_child : Z }.
Record LeafEntry := { le_keyOff : Z; le_keyLen : Z; le_valOff : Z; le_valLen : Z }.

(** Address of the entry [i] of a page. *)
Definition slot (pageID i : Z) : Z := getPtr pageID + SizeofPageHeader + i * 16.

Definition indexEntryAt (m : memory) (a : Z) : IndexEntry :=
  {| ie_keyOff := loadU 4 m a; ie_keyLen := loadU 4 m (a + 4); ie_child := loadU 8 m (a + 8) |}.
Definition leafEntryAt (m : memory) (a : Z) : LeafEntry :=
  {| le_keyOff := loadU 4 m a; le_keyLen := loadU 4 m (a + 4);
     le_valOff := loadU 4 m (a + 8); le_valLen := loadU 4 m (a + 12) |}.

(** ** Child pointers: page number and version in one word *)

Definition ChildVersionShift : Z := 32.
Definition ChildIDMask : Z := 2 ^ 32 - 1.
Definition ChildVersionMask : Z := Z.shiftl (2 ^ 32 - 1) 32.
Definition MaxChildID : Z := 2 ^ 32 - 1.
Definition MaxChildVersion : Z := 2 ^ 32 - 1.

Definition EncodeChildWithVersion (pageID version : Z) : outcome Z :=
  if MaxChildID <? pageID then Panic
  else
    let version32 := Z.land (u32 version) MaxChildVersion in
    Ret (Z.lor (u64 (Z.shiftl version32 ChildVersionShift)) (Z.land pageID ChildIDMask)).

Definition DecodeChildWithVersion (encoded : Z) : Z * Z :=
  (u32 (Z.land encoded ChildIDMask),
   u32 (Z.shiftr (Z.land encoded ChildVersionMask) ChildVersionShift)).

Record NodeRef := { nr_pageID : Z; nr_isLeaf : bool }.
Definition NodeRef_IsValid (ref : NodeRef) : bool := negb (nr_pageID ref =? 16 ^ 8 - 1).

(** ** Header accessors *)

Definition GetCount (s : PageManager) (pageID : Z) : Z := getField s pageID hCount.
Definition GetVersion (s : PageManager) (pageID : Z) : Z := getField s pageID hVersion.
Definition GetVersionSafe (s : PageManager) (pageID : Z) : Z :=
  if (pageID =? 0) || (nextPageID s <=? pageID) then 0 else GetVersion s pageID.
Definition IsLeaf (s : PageManager) (pageID : Z) : bool :=
  getField s pageID hPageType =? PageTypeLeaf.
Definition IsPageDeleted (s : PageManager) (pageID : Z) : bool :=
  if (pageID =? 0) || (nextPageID s <=? pageID) then true
  else getField s pageID hDeleted =? 1.
Definition IsValidPage (s : PageManager) (pageID : Z) : bool :=
  if (pageID =? 0) || (pageID =? 16 ^ 8 - 1) then false
  else 1 <=? GetVersion s pageID.
Definition GetPrevPage (s : PageManager) (pageID : Z) : Z := getField s pageID hPrevPage.
Definition GetNextPage (s : PageManager) (pageID : Z) : Z := getField s pageID hNextPage.
Definition GetTombstoneCount (s : PageManager) (pageID : Z) : Z := getField s pageID hTombstoneCount.

Definition SetVersion (pageID v : Z) : stM PageManager unit := modifyS (setField pageID hVersion v).
Definition IncrementVersion (pageID : Z) : stM PageManager Z :=
  s ← getS;
  let v := u64 (GetVersion s pageID + 1) in
  _ ← SetVersion pageID v; mret v.
Definition SetPrevPage (pageID v : Z) : stM PageManager unit := modifyS (setField pageID hPrevPage v).
Definition SetNextPage (pageID v : Z) : stM PageManager unit := modifyS (setField pageID hNextPage v).
Definition SetTombstoneCount (pageID n : Z) : stM PageManager unit :=
  modifyS (setField pageID hTombstoneCount n).
Definition IncrementTombstone (pageID : Z) : stM PageManager unit :=
  s ← getS;
  if GetTombstoneCount s pageID =? 2 ^ 16 - 1 then liftS Panic
  else SetTombstoneCount pageID (GetTombstoneCount s pageID + 1).
Definition DecrementTombstone (pageID : Z) : stM PageManager unit :=
  s ← getS;
  if GetTombstoneCount s pageID =? 0 then liftS Panic
  else SetTombstoneCount pageID (GetTombstoneCount s pageID - 1).

Definition InitPage (pageID pageType version : Z) : stM PageManager unit :=
  _ ← modifyS (setField pageID hPageType pageType);
  _ ← modifyS (setField pageID hCount 0);
  _ ← modifyS (setField pageID hExtraChild 0);
  _ ← modifyS (setField pageID hPrevPage (16 ^ 8 - 1));
  _ ← modifyS (setField pageID hNextPage (16 ^ 8 - 1));
  modifyS (setField pageID hVersion version).
Definition InitIndexPage (pageID version : Z) := InitPage pageID PageTypeIndex version.
Definition InitLeafPage (pageID version : Z) := InitPage pageID PageTypeLeaf version.

(** ** Reading entries *)

Definition GetIndexEntry (s : PageManager) (pageID index : Z) : outcome IndexEntry :=
  if GetCount s pageID <=? index then Panic else Ret (indexEntryAt (mem s) (slot pageID index)).
Definition GetLeafEntry (s : PageManager) (pageID index : Z) : outcome LeafEntry :=
  if GetCount s pageID <=? index then Panic else Ret (leafEntryAt (mem s) (slot pageID index)).

Definition errIndexOutOfRange : gerr :=
  NexError ErrOffHeapInvalidPageID "index out of range"%string.
Definition GetIndexEntrySafe (s : PageManager) (pageID index : Z) : outcome IndexEntry :=
  if GetCount s pageID <=? index then Fail errIndexOutOfRange
  else Ret (indexEntryAt (mem s) (slot pageID index)).
Definition GetLeafEntrySafe (s : PageManager) (pageID index : Z) : outcome LeafEntry :=
  if GetCount s pageID <=? index then Fail errIndexOutOfRange
  else Ret (leafEntryAt (mem s) (slot pageID index)).

(** Key and value bytes are slices of the mapped memory. *)
Definition GetKey (s : PageManager) (pageID keyOff keyLen : Z) : bytes :=
  load (mem s) (getPtr pageID + keyOff) keyLen.
Definition GetValue (s : PageManager) (pageID valOff valLen : Z) : bytes :=
  load (mem s) (getPtr pageID + valOff) valLen.

Definition GetIndexKey (s : PageManager) (pageID index : Z) : outcome bytes :=
  e ← GetIndexEntry s pageID index; Ret (GetKey s pageID (ie_keyOff e) (ie_keyLen e)).

(** [GetDataEnd]: both entry types have the key offset first, 16 bytes apart. *)
Fixpoint minKeyOff (m : memory) (pageID : Z) (i : Z) (n : nat) (acc : Z) : Z :=
  match n with
  | O => acc
  | S n => let o := loadU 4 m (slot pageID i) in
           minKeyOff m pageID (i + 1) n (if o <? acc then o else acc)
  end.
Definition GetDataEnd (s : PageManager) (pageID : Z) : Z :=
  if GetCount s pageID =? 0 then 0
  else u16 (u32 (PageSize - minKeyOff (mem s) pageID 0 (Z.to_nat (GetCount s pageID)) PageSize)).

(** [GetSpaceUsage], in bytes: the code divides by the page size. *)
Definition usedSpace (s : PageManager) (pageID : Z) : Z :=
  u32 (SizeofPageHeader + GetCount s pageID * 16 + GetDataEnd s pageID).

(** ** Binary search *)

Definition keyAt (s : PageManager) (pageID mid : Z) (isLeaf : bool) : outcome bytes :=
  if isLeaf then
    e ← GetLeafEntrySafe s pageID mid; Ret (GetKey s pageID (le_keyOff e) (le_keyLen e))
  else
    e ← GetIndexEntrySafe s pageID mid; Ret (GetKey s pageID (ie_keyOff e) (ie_keyLen e)).

Fixpoint searchLoop (fuel : nat) (s : PageManager) (pageID : Z) (key : bytes) (isLeaf : bool)
    (left right result : Z) : outcome (Z * bool) :=
  match fuel with
  | O => Panic
  | S fuel =>
      if left <=? right then
        let mid := left + Z.quot (right - left) 2 in
        midKey ← keyAt s pageID mid isLeaf;
        match bytes_compare key midKey with
        | Eq => Ret (mid, true)
        | Lt => searchLoop fuel s pageID key isLeaf left (mid - 1) result
        | Gt => searchLoop fuel s pageID key isLeaf (mid + 1) right (mid + 1)
        end
      else Ret (result, false)
  end.

Definition SearchKey (s : PageManager) (pageID : Z) (key : bytes) (isLeaf : bool) : outcome (Z * bool) :=
  let count := GetCount s pageID in
  searchLoop (S (Z.to_nat count)) s pageID key isLeaf 0 (count - 1) 0.

(** [SearchChildIndex] drops the error. *)
Definition SearchChildIndex (s : PageManager) (pageID : Z) (key : bytes) : outcome (Z * bool) :=
  match SearchKey s pageID key false with
  | Fail _ => Ret (0, false)
  | r => r
  end.

(** ** Children of an index page *)

Definition GetChild (s : PageManager) (pageID index : Z) : outcome Z :=
  if index =? GetCount s pageID then Ret (getField s pageID hExtraChild)
  else if GetCount s pageID <=? index then Ret 0
  else e ← GetIndexEntry s pageID index; Ret (ie_child e).

Definition GetChildSafe (s : PageManager) (pageID index : Z) : outcome Z :=
  if index =? GetCount s pageID then Ret (getField s pageID hExtraChild)
  else e ← GetIndexEntrySafe s pageID index; Ret (ie_child e).

Definition GetChildWithVersion (s : PageManager) (pageID index : Z) : outcome (Z * Z) :=
  encoded ← GetChild s pageID index; Ret (DecodeChildWithVersion encoded).

Definition GetChildEncodedWithCount (s : PageManager) (pageID index callerCount : Z) : Z :=
  if index =? callerCount then getField s pageID hExtraChild
  else if callerCount <=? index then 0
  else ie_child (indexEntryAt (mem s) (slot pageID index)).
Definition GetChildWithVersionByCount (s : PageManager) (pageID index callerCount : Z) : Z * Z :=
  DecodeChildWithVersion (GetChildEncodedWithCount s pageID index callerCount).

Definition setChildEncoded (pageID index encoded : Z) : stM PageManager unit :=
  s ← getS;
  if index =? GetCount s pageID then modifyS (setField pageID hExtraChild encoded)
  else
    _ ← liftS (GetIndexEntry s pageID index);
    modifyS (fun s => with_mem (storeU 8 (mem s) (slot pageID index + 8) encoded) s).

(** The encoded pointer to a child, with its current version. *)
Definition encodeChild (s : PageManager) (child : Z) : outcome Z :=
  if child =? 0 then Ret 0 else EncodeChildWithVersion child (GetVersionSafe s child).

Definition SetChild (pageID index child : Z) : stM PageManager unit :=
  s ← getS;
  encoded ← liftS (encodeChild s child);
  setChildEncoded pageID index encoded.
Definition SetChildWithVersion (pageID index child version : Z) : stM PageManager unit :=
  encoded ← liftS (EncodeChildWithVersion child version);
  setChildEncoded pageID index encoded.

(** ** Inserting an entry *)

(** Moves the entries from [index] on one slot up. *)
Definition shiftEntries (pageID index : Z) : stM PageManager unit :=
  s ← getS;
  let count := GetCount s pageID in
  if index <? count then
    putS (with_mem (store (mem s) (slot pageID (index + 1))
            (load (mem s) (slot pageID index) (u16 (count - u16 index) * 16))) s)
  else mret tt.

(** [copy] of [bs] into the [n] bytes at [off] of the page. *)
Definition writeBytes (pageID off n : Z) (bs : bytes) : stM PageManager unit :=
  modifyS (fun s => with_mem (store (mem s) (getPtr pageID + off) (ztake n bs)) s).
Definition writeU (n : nat) (a v : Z) : stM PageManager unit :=
  modifyS (fun s => with_mem (storeU n (mem s) a v) s).
Definition incCount (pageID : Z) : stM PageManager unit :=
  modifyS (fun s => setField pageID hCount (u16 (GetCount s pageID + 1)) s).

Definition errPageFull : gerr := NexError ErrOffHeapPageFull "page full"%string.
Definition errChildZero : gerr := NexError ErrOffHeapConstraintViolation "child cannot be 0"%string.

(** Both return the new [*dataEnd]. *)
Definition InsertIndexEntry (pageID index : Z) (key : bytes) (child dataEnd : Z) : stM PageManager Z :=
  if child =? 0 then failS errChildZero
  else
    s ← getS;
    let keyLen := u32 (zlen key) in
    let requiredSpace := u32 (SizeofIndexEntry + keyLen) in
    let usedSpace := u32 (SizeofPageHeader + GetCount s pageID * SizeofIndexEntry + dataEnd) in
    if PageSize <? u32 (usedSpace + requiredSpace) then failS errPageFull
    else
      _ ← shiftEntries pageID index;
      let keyOff := u32 (PageSize - dataEnd - keyLen) in
      let dataEnd' := u16 (dataEnd + u16 keyLen) in
      _ ← writeBytes pageID keyOff keyLen key;
      _ ← writeU 4 (slot pageID index) keyOff;
      _ ← writeU 4 (slot pageID index + 4) keyLen;
      s1 ← getS;
      encoded ← liftS (encodeChild s1 child);
      _ ← writeU 8 (slot pageID index + 8) encoded;
      _ ← incCount pageID;
      mret dataEnd'.

Definition InsertLeafEntry (pageID index : Z) (key value : bytes) (dataEnd : Z) : stM PageManager Z :=
  s ← getS;
  let keyLen := u32 (zlen key) in
  let valLen := u32 (zlen value) in
  let requiredSpace := u32 (SizeofLeafEntry + keyLen + valLen) in
  let usedSpace := u32 (SizeofPageHeader + GetCount s pageID * SizeofLeafEntry + dataEnd) in
  if PageSize <? u32 (usedSpace + requiredSpace) then failS errPageFull
  else
    _ ← shiftEntries pageID index;
    let valOff := u32 (PageSize - dataEnd - valLen) in
    let dataEnd1 := u16 (dataEnd + u16 valLen) in
    _ ← writeBytes pageID valOff valLen value;
    let keyOff := u32 (valOff - keyLen) in
    let dataEnd2 := u16 (dataEnd1 + u16 keyLen) in
    _ ← writeBytes pageID keyOff keyLen key;
    _ ← writeU 4 (slot pageID index) keyOff;
    _ ← writeU 4 (slot pageID index + 4) keyLen;
    _ ← writeU 4 (slot pageID index + 8) valOff;
    _ ← writeU 4 (slot pageID index + 12) valLen;
    _ ← incCount pageID;
    mret dataEnd2.

(** ** Whole-page operations *)

(** [CollectKVExcept]. *)
Fixpoint collectLoop (s : PageManager) (pageID skipIdx i : Z) (n : nat) : outcome (list (bytes * bytes)) :=
  match n with
  | O => Ret []
  | S n =>
      if i =? skipIdx then collectLoop s pageID skipIdx (i + 1) n
      else
        e ← GetLeafEntry s pageID i;
        rest ← collectLoop s pageID skipIdx (i + 1) n;
        Ret ((GetKey s pageID (le_keyOff e) (le_keyLen e),
              GetValue s pageID (le_valOff e) (le_valLen e)) :: rest)
  end.
Definition CollectKVExcept (s : PageManager) (pageID skipIdx : Z) : outcome (list (bytes * bytes)) :=
  collectLoop s pageID skipIdx 0 (Z.to_nat (GetCount s pageID)).

Definition errInvalidRange : gerr := NexError ErrOffHeapInvalidRange "invalid range"%string.

(** Copies the entries [startIdx + k .. startIdx + k + n - 1] of the source. *)
Fixpoint bulkLeafLoop (src dst startIdx k : Z) (n : nat) (dataEnd : Z) : stM PageManager Z :=
  match n with
  | O => mret dataEnd
  | S n =>
      s ← getS;
      e ← onErr (liftS (GetLeafEntrySafe s src (startIdx + k)))
            (fun err => Wrap err "source page recycled during bulk init"%string);
      dataEnd' ← InsertLeafEntry dst k (GetKey s src (le_keyOff e) (le_keyLen e))
                   (GetValue s src (le_valOff e) (le_valLen e)) dataEnd;
      bulkLeafLoop src dst startIdx (k + 1) n dataEnd'
  end.

Definition BulkInitLeafFromSource (src dst startIdx endIdx : Z) : stM PageManager Z :=
  s ← getS;
  if (startIdx <? 0) || (GetCount s src <? endIdx) || (endIdx <=? startIdx)
  then failS errInvalidRange
  else
    _ ← InitLeafPage dst (GetVersion s src);
    bulkLeafLoop src dst startIdx 0 (Z.to_nat (endIdx - startIdx)) 0.

Definition errSelfLoop : gerr :=
  NexError ErrOffHeapConstraintViolation "self-loop (or zero) detected in source page"%string.

Fixpoint bulkIndexLoop (src dst startIdx k : Z) (n : nat) (dataEnd : Z) : stM PageManager Z :=
  match n with
  | O => mret dataEnd
  | S n =>
      s ← getS;
      e ← liftS (GetIndexEntry s src (startIdx + k));
      let child := (DecodeChildWithVersion (ie_child e)).1 in
      if (child =? src) || (child =? 0) then failS errSelfLoop
      else
        dataEnd' ← InsertIndexEntry dst k (GetKey s src (ie_keyOff e) (ie_keyLen e)) child dataEnd;
        bulkIndexLoop src dst startIdx (k + 1) n dataEnd'
  end.

Definition BulkInitIndexFromSource (src dst startIdx endIdx extraChild : Z) : stM PageManager Z :=
  s ← getS;
  if (startIdx <? 0) || (GetCount s src <? endIdx) || (endIdx <=? startIdx)
  then failS errInvalidRange
  else
    _ ← InitIndexPage dst (GetVersion s src);
    dataEnd ← bulkIndexLoop src dst startIdx 0 (Z.to_nat (endIdx - startIdx)) 0;
    if (DecodeChildWithVersion extraChild).1 =? src then failS errSelfLoop
    else _ ← modifyS (setField dst hExtraChild extraChild); mret dataEnd.

(** [OverwriteLeafValue]: [copy] writes the new value, which fits the old one. *)
Definition OverwriteLeafValue (pageID idx : Z) (newValue : bytes) : stM PageManager bool :=
  s ← getS;
  if (idx <? 0) || (GetCount s pageID <=? idx) then mret false
  else
    let e := leafEntryAt (mem s) (slot pageID idx) in
    if le_valLen e <? u32 (zlen newValue) then mret false
    else
      _ ← writeBytes pageID (le_valOff e) (le_valLen e) newValue;
      _ ← writeU 4 (slot pageID idx + 12) (u32 (zlen newValue));
      mret true.

(** ** Checks *)

Fixpoint childrenNonZero (s : PageManager) (pageID i : Z) (n : nat) : outcome bool :=
  match n with
  | O => Ret true
  | S n =>
      e ← GetIndexEntry s pageID i;
      if (DecodeChildWithVersion (ie_child e)).1 =? 0 then Ret false
      else childrenNonZero s pageID (i + 1) n
  end.

Definition errChildAtZero : gerr := NexError ErrOffHeapConstraintViolation "page has child=0"%string.

Definition ValidatePage (s : PageManager) (pageID : Z) : outcome unit :=
  let count := GetCount s pageID in
  ok ← childrenNonZero s pageID 0 (Z.to_nat count);
  if negb ok then Fail errChildAtZero
  else if (0 <? count) && ((DecodeChildWithVersion (getField s pageID hExtraChild)).1 =? 0)
  then Fail errChildAtZero else Ret tt.

Fixpoint keysAscending (s : PageManager) (pageID i : Z) (n : nat) : outcome bool :=
  match n with
  | O => Ret true
  | S n =>
      prevKey ← GetIndexKey s pageID (i - 1);
      currKey ← GetIndexKey s pageID i;
      match bytes_compare prevKey currKey with
      | Lt => keysAscending s pageID (i + 1) n
      | _ => Ret false
      end
  end.

Definition errKeysNotSorted : gerr :=
  NexError ErrOffHeapConstraintViolation "page invariant violated: keys not sorted"%string.

Definition CheckPageInvariants (s : PageManager) (pageID : Z) : outcome unit :=
  let count := GetCount s pageID in
  ok ← keysAscending s pageID 1 (Z.to_nat (count - 1));
  if negb ok then Fail errKeysNotSorted else ValidatePage s pageID.

(** ** What the bytes of a page stand for *)

(** Loads that lie within two equal 16-byte slots agree. *)
Lemma loadU_slot n m m' a a' o :
  load m' a' 16 = load m a 16 -> 0 <= o -> o + Z.of_nat n <= 16 ->
  loadU n m' (a' + o) = loadU n m (a + o).
Proof.
  intros H Ho Hn. apply loadU_ext. intros i Hi.
  rewrite <- !Z.add_assoc, <- (nth_load m' a' 16 (o + i)), <- (nth_load m a 16 (o + i)) by lia.
  by rewrite H.
Qed.

Lemma leafEntryAt_slot m m' a a' :
  load m' a' 16 = load m a 16 -> leafEntryAt m' a' = leafEntryAt m a.
Proof.
  intros H. unfold leafEntryAt.
  rewrite (loadU_slot 4 m m' a a' 4), (loadU_slot 4 m m' a a' 8), (loadU_slot 4 m m' a a' 12) by (done || lia).
  f_equal. rewrite <- (Z.add_0_r a), <- (Z.add_0_r a'). apply loadU_slot; done || lia.
Qed.

Lemma indexEntryAt_slot m m' a a' :
  load m' a' 16 = load m a 16 -> indexEntryAt m' a' = indexEntryAt m a.
Proof.
  intros H. unfold indexEntryAt.
  rewrite (loadU_slot 4 m m' a a' 4), (loadU_slot 8 m m' a a' 8) by (done || lia).
  f_equal. rewrite <- (Z.add_0_r a), <- (Z.add_0_r a'). apply loadU_slot; done || lia.
Qed.

(** Entry [i] of page [p] is the pair [(k, v)], stored in the last [d] bytes. *)
Definition leaf_entry (m : memory) (p d i : Z) (kv : bytes * bytes) : Prop :=
  exists ko, leafEntryAt m (slot p i) =
      {| le_keyOff := ko; le_keyLen := zlen kv.1;
         le_valOff := ko + zlen kv.1; le_valLen := zlen kv.2 |} /\
    PageSize - d <= ko /\ ko + zlen kv.1 + zlen kv.2 <= PageSize /\
    load m (getPtr p + ko) (zlen kv.1) = kv.1 /\
    load m (getPtr p + ko + zlen kv.1) (zlen kv.2) = kv.2.

(** Entry [i] of the index page [p] is the key [k] with the encoded child [c]. *)
Definition index_entry (m : memory) (p d i : Z) (kc : bytes * Z) : Prop :=
  exists ko, indexEntryAt m (slot p i) =
      {| ie_keyOff := ko; ie_keyLen := zlen kc.1; ie_child := kc.2 |} /\
    PageSize - d <= ko /\ ko + zlen kc.1 <= PageSize /\
    load m (getPtr p + ko) (zlen kc.1) = kc.1.

(** A page of type [ty] with the entries [es] and [d] bytes of data. *)
Record page_of {A} (entry : memory -> Z -> Z -> Z -> A -> Prop) (ty : Z)
    (s : PageManager) (p d : Z) (es : list A) : Prop := {
  po_count : GetCount s p = zlen es;
  po_type : getField s p hPageType = ty;
  po_data : 0 <= d;
  po_fit : SizeofPageHeader + zlen es * 16 + d <= PageSize;
  po_entry : forall i x, es !! i = Some x -> entry (mem s) p d (Z.of_nat i) x
}.

Definition leaf_page := page_of leaf_entry PageTypeLeaf.
Definition index_page := page_of index_entry PageTypeIndex.

(** Where the data of the entry [i] starts: both layouts begin with the key offset. *)
Definition span_lo (m : memory) (p i : Z) : Z := loadU 4 m (slot p i).

(** What the two entry layouts have in common: an entry only depends on its
    slot and on the data bytes of the page, and its data is one span. *)
Class EntryLayout {A} (entry : memory -> Z -> Z -> Z -> A -> Prop) := {
  slot_hi : memory -> Z -> Z;
  entry_size : A -> Z;
  entry_size_nonneg x : 0 <= entry_size x;
  slot_hi_local m m' a a' : load m' a' 16 = load m a 16 -> slot_hi m' a' = slot_hi m a;
  entry_local m m' p p' d d' i i' x :
    entry m p d i x -> d <= d' <= PageSize ->
    load m' (slot p' i') 16 = load m (slot p i) 16 ->
    (forall o, PageSize - d <= o < PageSize -> byteAt m' (getPtr p' + o) = byteAt m (getPtr p + o)) ->
    entry m' p' d' i' x;
  entry_span m p d i x : entry m p d i x ->
    PageSize - d <= span_lo m p i /\ slot_hi m (slot p i) = span_lo m p i + entry_size x /\
    slot_hi m (slot p i) <= PageSize;
  entry_tight m p d d' i x :
    entry m p d i x -> PageSize - d' <= span_lo m p i -> entry m p d' i x
}.

Lemma load_page_ext m m' p p' d o n :
  (forall x, PageSize - d <= x < PageSize -> byteAt m' (getPtr p' + x) = byteAt m (getPtr p + x)) ->
  PageSize - d <= o -> o + n <= PageSize ->
  load m' (getPtr p' + o) n = load m (getPtr p + o) n.
Proof. intros H Ho Hn. apply load_ext. intros i Hi. rewrite <- !Z.add_assoc. apply H. lia. Qed.

Definition leaf_hi (m : memory) (a : Z) : Z := le_valOff (leafEntryAt m a) + le_valLen (leafEntryAt m a).
Definition leaf_size (kv : bytes * bytes) : Z := zlen kv.1 + zlen kv.2.

#[export] Instance leaf_layout : EntryLayout leaf_entry.
Proof.
  refine {| slot_hi := leaf_hi; entry_size := leaf_size |}.
  - intros [k v]. unfold leaf_size. cbn. pose proof (zlen_nonneg k). pose proof (zlen_nonneg v). lia.
  - intros m m' a a' H. unfold leaf_hi. by rewrite (leafEntryAt_slot m m' _ _ H).
  - intros m m' p p' d d' i i' [k v] (ko & He & H1 & H2 & Hk & Hv) Hd Hs Hdata. cbn [fst snd] in *.
    pose proof (zlen_nonneg k). pose proof (zlen_nonneg v).
    exists ko. cbn [fst snd]. rewrite (leafEntryAt_slot m m' (slot p i) (slot p' i') Hs).
    split; [done|]. split; [lia|]. split; [lia|]. split.
    + rewrite <- Hk at 2. apply (load_page_ext m m' p p' d); auto; lia.
    + rewrite <- Hv at 2. rewrite <- !Z.add_assoc. apply (load_page_ext m m' p p' d); auto; lia.
  - intros m p d i [k v] (ko & He & H1 & H2 & _). unfold leaf_hi, leaf_size, span_lo. rewrite He.
    injection He as -> _ _ _. cbn in *. lia.
  - intros m p d d' i [k v] (ko & He & H1 & H2 & Hk & Hv) Hd. exists ko.
    assert (span_lo m p i = ko) as Eko by (by injection He). rewrite Eko in Hd. auto.
Defined.

Definition index_hi (m : memory) (a : Z) : Z := ie_keyOff (indexEntryAt m a) + ie_keyLen (indexEntryAt m a).
Definition index_size (kc : bytes * Z) : Z := zlen kc.1.

#[export] Instance index_layout : EntryLayout index_entry.
Proof.
  refine {| slot_hi := index_hi; entry_size := index_size |}.
  - intros [k c]. apply zlen_nonneg.
  - intros m m' a a' H. unfold index_hi. by rewrite (indexEntryAt_slot m m' _ _ H).
  - intros m m' p p' d d' i i' [k c] (ko & He & H1 & H2 & Hk) Hd Hs Hdata. cbn [fst snd] in *.
    pose proof (zlen_nonneg k).
    exists ko. cbn [fst snd]. rewrite (indexEntryAt_slot m m' (slot p i) (slot p' i') Hs).
    split; [done|]. split; [lia|]. split; [lia|].
    rewrite <- Hk at 2. apply (load_page_ext m m' p p' d); auto; lia.
  - intros m p d i [k c] (ko & He & H1 & H2 & _). unfold index_hi, index_size, span_lo. rewrite He.
    injection He as -> _ _. cbn in *. lia.
  - intros m p d d' i [k c] (ko & He & H1 & H2 & Hk) Hd. exists ko.
    assert (span_lo m p i = ko) as Eko by (by injection He). rewrite Eko in Hd. auto.
Defined.

(** Two pages with the same count, type, slots and data. *)
Definition same_page (s s' : PageManager) (p p' : Z) : Prop :=
  forall o, (24 <= o < 27 \/ SizeofPageHeader <= o < PageSize) ->
    byteAt (mem s') (getPtr p' + o) = byteAt (mem s) (getPtr p + o).

Lemma page_of_same `{EntryLayout A entry} ty s s' p p' d es :
  same_page s s' p p' ->
  page_of entry ty s p d es -> page_of entry ty s' p' d es.
Proof.
  intros Hsame [Hc Ht Hd Hf He]. constructor; auto.
  - rewrite <- Hc. unfold GetCount, getField. apply loadU_ext. intros i Hi.
    rewrite <- !Z.add_assoc. apply Hsame. cbn in *. lia.
  - rewrite <- Ht. unfold getField. apply loadU_ext. intros i Hi.
    rewrite <- !Z.add_assoc. apply Hsame. cbn in *. lia.
  - intros i x Hx. pose proof (lookup_lt_Some _ _ _ Hx).
    pose proof (zlen_nonneg es). apply (entry_local (mem s) _ p _ d _ (Z.of_nat i)); auto.
    + off_lia.
    + apply load_ext. intros j Hj. unfold slot. rewrite <- !Z.add_assoc. apply Hsame.
      unfold zlen in *. off_lia.
    + intros o Ho. apply Hsame. unfold zlen in *. off_lia.
Qed.

(** *** Inserting an entry: what changes on the page *)

(** [d']: bytes of data after the insertion of an entry at [idx]. *)
Record inserted (m m' : memory) (p idx n d : Z) : Prop := {
  in_below : forall j, 0 <= j < idx -> load m' (slot p j) 16 = load m (slot p j) 16;
  in_above : forall j, idx < j <= n -> load m' (slot p j) 16 = load m (slot p (j - 1)) 16;
  in_count : loadU 2 m' (getPtr p + 24) = n + 1;
  in_header : forall o, 0 <= o < SizeofPageHeader -> o < 24 \/ 26 <= o ->
    byteAt m' (getPtr p + o) = byteAt m (getPtr p + o);
  in_data : forall o, PageSize - d <= o < PageSize ->
    byteAt m' (getPtr p + o) = byteAt m (getPtr p + o);
  in_out : forall x, x < getPtr p \/ getPtr p + PageSize <= x -> byteAt m' x = byteAt m x
}.

Lemma page_of_inserted `{EntryLayout A entry} ty s m' p d d' es idx x :
  page_of entry ty s p d es -> (idx <= length es)%nat ->
  d <= d' -> SizeofPageHeader + (zlen es + 1) * 16 + d' <= PageSize ->
  inserted (mem s) m' p (Z.of_nat idx) (zlen es) d ->
  entry m' p d' (Z.of_nat idx) x ->
  page_of entry ty (with_mem m' s) p d' (insert_at idx x es).
Proof.
  intros [Hc Ht Hd Hf He] Hidx Hdd Hfit Hin Hx. pose proof (zlen_nonneg es).
  assert (Hlen : zlen (insert_at idx x es) = zlen es + 1)
    by (unfold zlen; rewrite insert_at_length by done; lia).
  constructor; rewrite ?Hlen; auto.
  - unfold GetCount, getField. cbn. apply Hin.
  - rewrite <- Ht. unfold getField. cbn [mem with_mem field_off field_len].
    apply loadU_ext. intros i Hi. rewrite <- !Z.add_assoc. apply Hin; cbn in *; off_lia.
  - lia.
  - intros j y Hy. apply insert_at_lookup in Hy as [[Hj Hy]|[[-> ->]|[Hj Hy]]]; [|done| |done].
    + apply (entry_local (mem s) _ p _ d _ (Z.of_nat j)); [by apply He|off_lia| |apply Hin].
      apply Hin. lia.
    + pose proof (lookup_lt_Some _ _ _ Hy).
      apply (entry_local (mem s) _ p _ d _ (Z.of_nat (j - 1))); [by apply He|off_lia| |apply Hin].
      cbn. rewrite (in_above _ _ _ _ _ _ Hin) by (unfold zlen; lia).
      do 2 f_equal. lia.
Qed.

(** [shiftEntries] as a memory operation. *)
Definition shifted (m : memory) (p idx n : Z) : memory :=
  store m (slot p (idx + 1)) (load m (slot p idx) ((n - idx) * 16)).

Lemma shiftEntries_eq s p idx n :
  GetCount s p = n -> 0 <= idx <= n -> n < 2 ^ 16 ->
  shiftEntries p idx s = (with_mem (shifted (mem s) p idx n) s, Ret tt).
Proof.
  intros Hc Hi Hn. unfold shiftEntries. rewrite stM_bind_get, Hc. cbv zeta.
  destruct (Z.ltb_spec idx n).
  - rewrite (u16_id idx), (u16_id (n - idx)) by (unfold is_u16; lia). done.
  - replace n with idx by lia. unfold shifted. rewrite Z.sub_diag. by destruct s.
Qed.

Lemma inserted_intro m m' p idx n d :
  0 <= idx <= n -> 0 <= d -> SizeofPageHeader + (n + 1) * 16 + d <= PageSize ->
  (forall x, x < slot p (n + 1) \/ getPtr p + PageSize - d <= x ->
     x < slot p idx \/ slot p (idx + 1) <= x ->
     x < getPtr p + 24 \/ getPtr p + 26 <= x ->
     byteAt m' x = byteAt (shifted m p idx n) x) ->
  loadU 2 m' (getPtr p + 24) = n + 1 ->
  inserted m m' p idx n d.
Proof.
  intros Hidx Hd Hfit Hout Hcount.
  assert (Hsh : forall x, x < slot p (idx + 1) \/ slot p (n + 1) <= x ->
    byteAt (shifted m p idx n) x = byteAt m x).
  { intros x Hx. apply byteAt_store_out. rewrite load_length. unfold slot in *. lia. }
  constructor; auto.
  - intros j Hj. apply load_ext. intros i Hi. rewrite Hout by (unfold slot in *; off_lia).
    apply Hsh. unfold slot in *. lia.
  - intros j Hj. apply load_ext. intros i Hi. rewrite Hout by (unfold slot in *; off_lia).
    unfold shifted. rewrite byteAt_copy by (unfold slot in *; lia). f_equal. unfold slot. lia.
  - intros o Ho Ho'. rewrite Hout by (unfold slot in *; off_lia). apply Hsh. unfold slot. off_lia.
  - intros o Ho. rewrite Hout by (unfold slot in *; off_lia). apply Hsh. unfold slot. off_lia.
  - intros x Hx. rewrite Hout by (unfold slot in *; off_lia). apply Hsh. unfold slot in *. off_lia.
Qed.

(** The memory after the writes of [InsertLeafEntry]. *)
Definition leaf_written (m : memory) (p idx n ko vo : Z) (k v : bytes) : memory :=
  storeU 2 (storeU 4 (storeU 4 (storeU 4 (storeU 4
    (store (store (shifted m p idx n) (getPtr p + vo) v) (getPtr p + ko) k)
    (slot p idx) ko) (slot p idx + 4) (zlen k)) (slot p idx + 8) vo) (slot p idx + 12) (zlen v))
    (getPtr p + 24) (n + 1).

Ltac slot_lia := unfold slot in *; off_lia.

Lemma leaf_written_slot m p idx n d k v :
  0 <= idx <= n -> 0 <= d -> SizeofPageHeader + (n + 1) * 16 + d + zlen k + zlen v <= PageSize ->
  leafEntryAt (leaf_written m p idx n (PageSize - d - zlen v - zlen k) (PageSize - d - zlen v) k v)
    (slot p idx) =
  {| le_keyOff := PageSize - d - zlen v - zlen k; le_keyLen := zlen k;
     le_valOff := PageSize - d - zlen v; le_valLen := zlen v |}.
Proof.
  intros Hidx Hd Hfit. pose proof (zlen_nonneg k). pose proof (zlen_nonneg v).
  unfold leaf_written, leafEntryAt. f_equal.
  all: rewrite !loadU_storeU_disj, ?loadU_storeU_same by slot_lia.
  all: rewrite ?Z.mod_small by (cbn; off_lia); done.
Qed.

Lemma leaf_written_entry m p idx n d k v :
  0 <= idx <= n -> 0 <= d -> SizeofPageHeader + (n + 1) * 16 + d + zlen k + zlen v <= PageSize ->
  leaf_entry (leaf_written m p idx n (PageSize - d - zlen v - zlen k) (PageSize - d - zlen v) k v)
    p (d + zlen k + zlen v) idx (k, v).
Proof.
  intros Hidx Hd Hfit. pose proof (zlen_nonneg k). pose proof (zlen_nonneg v).
  exists (PageSize - d - zlen v - zlen k). cbn [fst snd].
  split; [rewrite leaf_written_slot by done; f_equal; lia|]. unfold leaf_written.
  set (ko := PageSize - d - zlen v - zlen k) in *. set (vo := PageSize - d - zlen v) in *.
  assert (Hko : vo = ko + zlen k) by lia. split; [lia|split; [lia|split]].
  - rewrite !load_storeU_disj by slot_lia. by apply load_store_same.
  - rewrite !load_storeU_disj by slot_lia. rewrite load_store_disj by slot_lia.
    rewrite <- Z.add_assoc, <- Hko. by apply load_store_same.
Qed.

Lemma leaf_written_inserted m p idx n d k v :
  0 <= idx <= n -> 0 <= d -> SizeofPageHeader + (n + 1) * 16 + d + zlen k + zlen v <= PageSize ->
  inserted m (leaf_written m p idx n (PageSize - d - zlen v - zlen k) (PageSize - d - zlen v) k v)
    p idx n d.
Proof.
  intros Hidx Hd Hfit. pose proof (zlen_nonneg k). pose proof (zlen_nonneg v). unfold leaf_written.
  apply inserted_intro; auto; [lia| |].
  - intros x H1 H2 H3. rewrite !byteAt_storeU by slot_lia.
    rewrite !byteAt_store_out by slot_lia. done.
  - rewrite loadU_storeU_same. apply Z.mod_small. cbn. off_lia.
Qed.

Lemma zlen_u32 {A} (l : list A) : zlen l < 2 ^ 32 -> u32 (zlen l) = zlen l.
Proof. intros. apply u32_id. pose proof (zlen_nonneg l). unfold is_u32. lia. Qed.

Lemma GetCount_mem s m p : GetCount (with_mem m s) p = loadU 2 m (getPtr p + 24).
Proof. done. Qed.

(** [InsertLeafEntry] on a page with room. *)
Lemma InsertLeafEntry_eq s p idx d k v n :
  GetCount s p = n -> 0 <= idx <= n -> 0 <= d ->
  SizeofPageHeader + (n + 1) * 16 + d + zlen k + zlen v <= PageSize ->
  InsertLeafEntry p idx k v d s =
    (with_mem (leaf_written (mem s) p idx n (PageSize - d - zlen v - zlen k) (PageSize - d - zlen v) k v) s,
     Ret (d + zlen k + zlen v)).
Proof.
  intros Hc Hidx Hd Hfit. pose proof (zlen_nonneg k). pose proof (zlen_nonneg v).
  unfold InsertLeafEntry. rewrite stM_bind_get, Hc. cbv zeta.
  rewrite !zlen_u32 by off_lia. unfold SizeofLeafEntry.
  rewrite !(u32_id (16 + _ + _)), (u32_id (SizeofPageHeader + _ + _)), (u32_id (SizeofPageHeader + _ + _ + _))
    by (unfold is_u32; off_lia).
  rewrite (proj2 (Z.ltb_ge _ _)) by off_lia.
  rewrite (stM_bind_ret _ _ _ _ _ (shiftEntries_eq s p idx n Hc Hidx ltac:(off_lia))).
  rewrite !(u32_id (PageSize - _ - _)) by (unfold is_u32; off_lia).
  rewrite !(u32_id (PageSize - _ - _ - _)) by (unfold is_u32; off_lia).
  rewrite !(u16_id (zlen _)) by (unfold is_u16; off_lia).
  rewrite (u16_id (d + zlen v)), (u16_id (d + zlen v + zlen k)) by (unfold is_u16; off_lia).
  unfold writeBytes, writeU, incCount. rewrite !(ztake_all (zlen _)) by lia.
  rewrite !stM_bind_modify. cbn [mem with_mem].
  rewrite GetCount_mem. rewrite !loadU_storeU_disj by slot_lia.
  rewrite !loadU_store_disj by slot_lia. unfold shifted.
  rewrite loadU_store_disj by (rewrite ?load_length; slot_lia).
  change (loadU 2 (mem s) (getPtr p + 24)) with (GetCount s p). rewrite Hc.
  rewrite (u16_id (n + 1)) by (unfold is_u16; off_lia).
  unfold mret, stM_ret. do 2 f_equal. lia.
Qed.

(** A page without room is left as it is. *)
Lemma InsertLeafEntry_full s p idx d k v n :
  GetCount s p = n -> 0 <= n -> 0 <= d -> zlen k + zlen v < 2 ^ 31 -> SizeofPageHeader + n * 16 + d <= PageSize ->
  PageSize < SizeofPageHeader + (n + 1) * 16 + d + zlen k + zlen v ->
  InsertLeafEntry p idx k v d s = (s, Fail errPageFull).
Proof.
  intros Hc Hn Hd Hkv Hfit Hover. pose proof (zlen_nonneg k). pose proof (zlen_nonneg v).
  unfold InsertLeafEntry. rewrite stM_bind_get, Hc. cbv zeta.
  rewrite !zlen_u32 by lia. unfold SizeofLeafEntry.
  rewrite !(u32_id (16 + _ + _)), (u32_id (SizeofPageHeader + _ + _)), (u32_id (SizeofPageHeader + _ + _ + _))
    by (unfold is_u32; off_lia).
  by rewrite (proj2 (Z.ltb_lt _ _)) by off_lia.
Qed.

(** States that differ on page [p] only, by the contents of the memory. *)
Record only_page (p : Z) (s s' : PageManager) : Prop := {
  op_out : forall x, x < getPtr p \/ getPtr p + PageSize <= x ->
           byteAt (mem s') x = byteAt (mem s) x;
  op_rest : s' = with_mem (mem s') s
}.

Lemma only_page_refl p s : only_page p s s.
Proof. constructor; [done|]. by destruct s. Qed.
Lemma only_page_trans p s s1 s2 : only_page p s s1 -> only_page p s1 s2 -> only_page p s s2.
Proof.
  intros [H1 E1] [H2 E2]. constructor.
  - intros x Hx. rewrite H2, H1 by done. done.
  - rewrite E2, E1. by destruct s.
Qed.

Lemma only_page_field p s q f : only_page p s q -> forall r, r <> p -> getField q r f = getField s r f.
Proof.
  intros [H _] r Hr. unfold getField. apply loadU_ext. intros i Hi. apply H.
  pose proof (field_bounds f). off_lia.
Qed.

Lemma same_page_other p s s' r : only_page p s s' -> r <> p -> same_page s s' r r.
Proof. intros [H _] Hr o Ho. apply H. off_lia. Qed.

(** *** Index pages *)

Definition index_written (m : memory) (p idx n ko : Z) (k : bytes) (c : Z) : memory :=
  storeU 2 (storeU 8 (storeU 4 (storeU 4
    (store (shifted m p idx n) (getPtr p + ko) k)
    (slot p idx) ko) (slot p idx + 4) (zlen k)) (slot p idx + 8) c)
    (getPtr p + 24) (n + 1).

Lemma index_written_slot m p idx n d k c :
  0 <= idx <= n -> 0 <= d -> SizeofPageHeader + (n + 1) * 16 + d + zlen k <= PageSize ->
  is_u64 c ->
  indexEntryAt (index_written m p idx n (PageSize - d - zlen k) k c) (slot p idx) =
  {| ie_keyOff := PageSize - d - zlen k; ie_keyLen := zlen k; ie_child := c |}.
Proof.
  intros Hidx Hd Hfit Hc. pose proof (zlen_nonneg k). unfold index_written, indexEntryAt. f_equal.
  all: rewrite !loadU_storeU_disj, ?loadU_storeU_same by slot_lia.
  all: rewrite ?Z.mod_small by (cbn; unfold is_u64 in Hc; off_lia); done.
Qed.

Lemma index_written_entry m p idx n d k c :
  0 <= idx <= n -> 0 <= d -> SizeofPageHeader + (n + 1) * 16 + d + zlen k <= PageSize ->
  is_u64 c ->
  index_entry (index_written m p idx n (PageSize - d - zlen k) k c) p (d + zlen k) idx (k, c).
Proof.
  intros Hidx Hd Hfit Hc. pose proof (zlen_nonneg k).
  exists (PageSize - d - zlen k). cbn [fst snd].
  split; [by rewrite index_written_slot|]. unfold index_written. split; [lia|split; [lia|]].
  rewrite !load_storeU_disj by slot_lia. by apply load_store_same.
Qed.

Lemma index_written_inserted m p idx n d k c :
  0 <= idx <= n -> 0 <= d -> SizeofPageHeader + (n + 1) * 16 + d + zlen k <= PageSize ->
  inserted m (index_written m p idx n (PageSize - d - zlen k) k c) p idx n d.
Proof.
  intros Hidx Hd Hfit. pose proof (zlen_nonneg k). unfold index_written.
  apply inserted_intro; auto; [lia| |].
  - intros x H1 H2 H3. rewrite !byteAt_storeU by slot_lia.
    rewrite !byteAt_store_out by slot_lia. done.
  - rewrite loadU_storeU_same. apply Z.mod_small. cbn. off_lia.
Qed.

(** Encoded children. *)
Lemma encode_decode c v :
  is_u32 c -> exists e, EncodeChildWithVersion c v = Ret e /\ is_u64 e /\
    DecodeChildWithVersion e = (c, u32 v).
Proof.
  intros Hc. unfold EncodeChildWithVersion, MaxChildID. unfold is_u32 in Hc.
  rewrite (proj2 (Z.ltb_ge _ _)) by lia. eexists. split; [done|].
  unfold MaxChildVersion, ChildIDMask, ChildVersionShift.
  change (2 ^ 32 - 1) with (Z.ones 32). rewrite !Z.land_ones by lia.
  pose proof (u32_range v) as Hv. unfold is_u32 in Hv.
  rewrite !Z.mod_small by lia. rewrite Z.shiftl_mul_pow2 by lia.
  rewrite u64_id by (unfold is_u64; lia).
  rewrite <- (Z.shiftl_mul_pow2 (u32 v)) by lia. rewrite or_shift_add by lia.
  split; [unfold is_u64; lia|].
  unfold DecodeChildWithVersion, ChildIDMask, ChildVersionMask, ChildVersionShift.
  change (2 ^ 32 - 1) with (Z.ones 32). rewrite Z.land_ones by lia.
  rewrite Z.shiftr_land, Z.shiftr_shiftl_l, Z.shiftl_0_r by lia.
  rewrite Z.land_ones by lia. rewrite Z.shiftr_div_pow2 by lia.
  rewrite Z.div_add_l, (Z.div_small c), Z.add_0_r by lia.
  rewrite (Z.add_comm _ c), Z_mod_plus_full, !Z.mod_small by lia.
  rewrite !u32_id by (unfold is_u32; lia). done.
Qed.

Lemma encodeChild_ok s c :
  is_u32 c -> c <> 0 -> exists e, encodeChild s c = Ret e /\ is_u64 e /\
    DecodeChildWithVersion e = (c, u32 (GetVersionSafe s c)).
Proof.
  intros Hc H0. unfold encodeChild. rewrite (proj2 (Z.eqb_neq c 0)) by done.
  by apply encode_decode.
Qed.

(** *** Reading a page *)

Lemma leaf_page_entry s p d es i k v :
  leaf_page s p d es -> es !! i = Some (k, v) ->
  exists e, GetLeafEntry s p (Z.of_nat i) = Ret e /\ GetLeafEntrySafe s p (Z.of_nat i) = Ret e /\
    e = leafEntryAt (mem s) (slot p (Z.of_nat i)) /\ le_valLen e = zlen v /\
    GetKey s p (le_keyOff e) (le_keyLen e) = k /\ GetValue s p (le_valOff e) (le_valLen e) = v.
Proof.
  intros Hp Hi. pose proof (lookup_lt_Some _ _ _ Hi).
  destruct (po_entry _ _ _ _ _ _ Hp i (k, v) Hi) as (ko & He & _ & _ & Hk & Hv). cbn [fst snd] in *.
  exists (leafEntryAt (mem s) (slot p (Z.of_nat i))). unfold GetLeafEntry, GetLeafEntrySafe.
  rewrite (po_count _ _ _ _ _ _ Hp), (proj2 (Z.leb_gt _ _)) by (unfold zlen; lia).
  split; [done|]. split; [done|]. split; [done|]. rewrite He. cbn. split; [done|]. split; [done|].
  unfold GetValue. rewrite Z.add_assoc. done.
Qed.

Lemma index_page_entry s p d es i k c :
  index_page s p d es -> es !! i = Some (k, c) ->
  exists e, GetIndexEntry s p (Z.of_nat i) = Ret e /\ GetIndexEntrySafe s p (Z.of_nat i) = Ret e /\
    ie_child e = c /\ GetKey s p (ie_keyOff e) (ie_keyLen e) = k.
Proof.
  intros Hp Hi. pose proof (lookup_lt_Some _ _ _ Hi).
  destruct (po_entry _ _ _ _ _ _ Hp i (k, c) Hi) as (ko & He & _ & _ & Hk). cbn [fst snd] in *.
  exists (indexEntryAt (mem s) (slot p (Z.of_nat i))). unfold GetIndexEntry, GetIndexEntrySafe.
  rewrite (po_count _ _ _ _ _ _ Hp), (proj2 (Z.leb_gt _ _)) by (unfold zlen; lia).
  rewrite He. done.
Qed.

(** The entries of a leaf or of an index page, by the flag [SearchKey] takes. *)
Definition page_keys (s : PageManager) (p : Z) (isLeaf : bool) (ks : list bytes) : Prop :=
  GetCount s p = zlen ks /\
  forall i k, ks !! i = Some k -> keyAt s p (Z.of_nat i) isLeaf = Ret k.

Lemma leaf_page_keys s p d es : leaf_page s p d es -> page_keys s p true (es.*1).
Proof.
  intros Hp. split; [rewrite (po_count _ _ _ _ _ _ Hp); unfold zlen; by rewrite length_fmap|].
  intros i k Hk. apply list_lookup_fmap_Some in Hk as ([k' v] & -> & Hi).
  destruct (leaf_page_entry _ _ _ _ _ _ _ Hp Hi) as (e & _ & E & _ & _ & Hk & _).
  unfold keyAt. rewrite E. cbn. by rewrite Hk.
Qed.

Lemma index_page_keys s p d es : index_page s p d es -> page_keys s p false (es.*1).
Proof.
  intros Hp. split; [rewrite (po_count _ _ _ _ _ _ Hp); unfold zlen; by rewrite length_fmap|].
  intros i k Hk. apply list_lookup_fmap_Some in Hk as ([k' c] & -> & Hi).
  destruct (index_page_entry _ _ _ _ _ _ _ Hp Hi) as (e & _ & E & _ & Hk).
  unfold keyAt. rewrite E. cbn. by rewrite Hk.
Qed.

(** *** Binary search *)

Lemma searchLoop_ok s p isLeaf ks key :
  page_keys s p isLeaf ks -> keys_sorted ks ->
  forall fuel left right,
  0 <= left <= right + 1 -> right < zlen ks -> right - left + 1 < Z.of_nat fuel ->
  (forall i k, ks !! i = Some k -> Z.of_nat i < left -> bytes_lt k key) ->
  (forall i k, ks !! i = Some k -> right < Z.of_nat i -> bytes_lt key k) ->
  searchLoop fuel s p key isLeaf left right left =
    Ret (Z.of_nat (lower_bound key ks), bool_decide (key ∈ ks)).
Proof.
  intros [Hc Hk] Hs. induction fuel as [|fuel IH]; intros left right Hl Hr Hf Hlo Hhi; [lia|].
  cbn [searchLoop]. destruct (Z.leb_spec left right) as [Hle|Hgt].
  - rewrite Z.quot_div_nonneg by lia. pose proof (Z.div_pos (right - left) 2). pose proof (Z.div_le_upper_bound (right - left) 2 (right - left)).
    set (mid := left + (right - left) / 2).
    assert (Hmid : left <= mid <= right) by (unfold mid; lia).
    destruct (lookup_lt_is_Some_2 ks (Z.to_nat mid)) as [mk Hmk]; [unfold zlen in *; lia|].
    pose proof (Hk _ _ Hmk) as E. rewrite Z2Nat.id in E by lia. rewrite E, bind_ret.
    destruct (bytes_compare key mk) eqn:Ecmp.
    + apply bytes_compare_eq in Ecmp as <-. rewrite bool_decide_true by (by eapply list_elem_of_lookup_2).
      rewrite (lower_bound_unique key ks (Z.to_nat mid)); [by rewrite Z2Nat.id by lia|done| | |].
      * apply lookup_lt_Some in Hmk. lia.
      * intros i k Hi Him. pose proof (lower_bound_spec key ks) as Hsp.
        pose proof (keys_sorted_lookup _ _ _ _ _ Hs Hi Hmk Him). done.
      * intros i k Hi Him Hlt. destruct (decide (i = Z.to_nat mid)) as [->|Hne].
        { rewrite Hmk in Hi. injection Hi as <-. by apply bytes_lt_irrefl in Hlt. }
        pose proof (keys_sorted_lookup _ _ _ _ _ Hs Hmk Hi ltac:(lia)) as Hgt.
        by apply (bytes_lt_irrefl key), (bytes_lt_trans _ k).
    + apply IH; try lia; [done|]. intros i k Hi Him.
      destruct (decide (i = Z.to_nat mid)) as [->|Hne].
      { rewrite Hmk in Hi. by injection Hi as <-. }
      eapply bytes_lt_trans; [exact Ecmp|].
      eapply (keys_sorted_lookup _ _ _ _ _ Hs Hmk Hi). lia.
    + apply IH; try lia; [|done]. intros i k Hi Him. apply bytes_compare_gt in Ecmp.
      destruct (decide (i = Z.to_nat mid)) as [->|Hne].
      { rewrite Hmk in Hi. by injection Hi as <-. }
      eapply bytes_lt_trans; [|exact Ecmp].
      eapply (keys_sorted_lookup _ _ _ _ _ Hs Hi Hmk). lia.
  - assert (left = right + 1) as -> by lia.
    rewrite (lower_bound_unique key ks (Z.to_nat (right + 1))); [|done| | |].
    + rewrite Z2Nat.id by lia. rewrite bool_decide_false; [done|]. intros Hin.
      apply list_elem_of_lookup in Hin as [i Hi]. apply (bytes_lt_irrefl key).
      destruct (decide (Z.of_nat i < right + 1)); [by apply (Hlo i)|apply (Hhi i); [done|lia]].
    + unfold zlen in *. lia.
    + intros i k Hi Him. apply (Hlo i); [done|lia].
    + intros i k Hi Him Hlt. apply (bytes_lt_irrefl key), (bytes_lt_trans _ k); [|done].
      apply (Hhi i); [done|lia].
Qed.

Lemma SearchKey_ok s p isLeaf ks key :
  page_keys s p isLeaf ks -> keys_sorted ks ->
  SearchKey s p key isLeaf = Ret (Z.of_nat (lower_bound key ks), bool_decide (key ∈ ks)).
Proof.
  intros Hp Hs. pose proof (zlen_nonneg ks). unfold SearchKey. rewrite (proj1 Hp).
  apply searchLoop_ok; auto; try lia.
  intros i k Hi Hlt. apply lookup_lt_Some in Hi. unfold zlen in *. lia.
Qed.

(** *** The end of the data area *)

Lemma minKeyOff_ok m p n : forall i acc,
  let o := minKeyOff m p i n acc in
  o <= acc /\ (forall j, i <= j < i + Z.of_nat n -> o <= loadU 4 m (slot p j)) /\
  (forall b, b <= acc -> (forall j, i <= j < i + Z.of_nat n -> b <= loadU 4 m (slot p j)) -> b <= o).
Proof.
  induction n as [|n IH]; intros i acc; cbn [minKeyOff].
  - cbv zeta. split; [lia|]. split; [lia|]. auto.
  - cbv zeta. set (k := loadU 4 m (slot p i)).
    destruct (IH (i + 1) (if k <? acc then k else acc)) as (H1 & H2 & H3). cbv zeta in *.
    assert (Hm : (if k <? acc then k else acc) <= acc /\ (if k <? acc then k else acc) <= k)
      by (destruct (Z.ltb_spec k acc); lia).
    split; [lia|]. split.
    + intros j Hj. destruct (decide (j = i)) as [->|Hne]; [fold k; lia|]. apply H2. lia.
    + intros b Hb Hall. apply H3; [|intros j Hj; apply Hall; lia].
      destruct (k <? acc); [|done]. apply Hall. lia.
Qed.

Lemma GetDataEnd_ok `{EntryLayout A entry} ty s p d es :
  page_of entry ty s p d es ->
  page_of entry ty s p (GetDataEnd s p) es /\ 0 <= GetDataEnd s p <= d.
Proof.
  intros [Hc Ht Hd Hf He]. pose proof (zlen_nonneg es). unfold GetDataEnd. rewrite Hc.
  destruct (Z.eqb_spec (zlen es) 0) as [E|E].
  { split; [|lia]. constructor; auto; [lia|lia|]. intros i x Hx.
    apply lookup_lt_Some in Hx. unfold zlen in *. lia. }
  assert (Hoff : forall j, 0 <= j < 0 + Z.of_nat (Z.to_nat (zlen es)) ->
    PageSize - d <= loadU 4 (mem s) (slot p j) <= PageSize).
  { intros j Hj. destruct (lookup_lt_is_Some_2 es (Z.to_nat j)) as [x Hx]; [unfold zlen in *; lia|].
    rewrite <- (Z2Nat.id j) by lia. pose proof (entry_size_nonneg x).
    pose proof (entry_span _ _ _ _ _ (He _ _ Hx)). unfold span_lo in *. lia. }
  destruct (minKeyOff_ok (mem s) p (Z.to_nat (zlen es)) 0 PageSize) as (H1 & H2 & H3). cbv zeta in *.
  specialize (H3 (PageSize - d) ltac:(lia) ltac:(intros; by apply Hoff)).
  set (o := minKeyOff (mem s) p 0 (Z.to_nat (zlen es)) PageSize) in *.
  rewrite u32_id by (unfold is_u32; off_lia). rewrite u16_id by (unfold is_u16; off_lia).
  split; [|lia]. constructor; auto; [lia|lia|].
  intros i x Hx. apply (entry_tight (mem s) p d); [by apply He|].
  apply lookup_lt_Some in Hx. specialize (H2 (Z.of_nat i)). unfold span_lo, zlen in *. lia.
Qed.

(** *** Fresh pages *)

Lemma only_page_setField p f v s : only_page p s (setField p f v s).
Proof.
  constructor; [|done]. intros x Hx. apply byteAt_setField. off_lia.
Qed.

Lemma InitPage_ok `{EntryLayout A entry} s p ty v :
  0 <= ty < 256 ->
  exists s', InitPage p ty v s = (s', Ret tt) /\ page_of entry ty s' p 0 [] /\ only_page p s s' /\
    getField s' p hVersion = u64 v /\ getField s' p hExtraChild = 0 /\
    getField s' p hTombstoneCount = getField s p hTombstoneCount.
Proof.
  intros Hty. unfold InitPage. rewrite !stM_bind_modify. eexists. split; [reflexivity|].
  split; [|split; [|split; [|split]]].
  - constructor; rewrite ?zlen_nil; try off_lia; try done.
    + unfold GetCount. rewrite !(getField_setField_other _ _ hCount) by done.
      by rewrite getField_setField_same.
    + rewrite !(getField_setField_other _ _ hPageType) by done.
      rewrite getField_setField_same. by apply Z.mod_small.
  - repeat (eapply only_page_trans; [|apply only_page_setField]). apply only_page_refl.
  - apply getField_setField_same.
  - rewrite !(getField_setField_other _ _ hExtraChild) by done. by rewrite getField_setField_same.
  - by rewrite !(getField_setField_other _ _ hTombstoneCount) by done.
Qed.

(** A page keeps its entries when a header field other than count and type changes. *)
Lemma page_of_setField `{EntryLayout A entry} ty s p d es f v :
  f <> hCount -> f <> hPageType ->
  page_of entry ty s p d es -> page_of entry ty (setField p f v s) p d es.
Proof.
  intros H1 H2. apply page_of_same. intros o Ho. unfold setField. cbn [mem with_mem].
  apply byteAt_storeU. destruct f; try done; off_lia.
Qed.

(** *** Data areas of different entries do not overlap *)

Definition span_hi `{EntryLayout A entry} (m : memory) (p i : Z) : Z := slot_hi m (slot p i).

Definition disjoint_spans `{EntryLayout A entry} (m : memory) (p n : Z) : Prop :=
  forall i j, 0 <= i < n -> 0 <= j < n -> i <> j ->
    span_hi m p i <= span_lo m p j \/ span_hi m p j <= span_lo m p i.

(** A page whose data areas are disjoint. *)
Definition page_ok `{EntryLayout A entry} (ty : Z) (s : PageManager) (p d : Z) (es : list A) : Prop :=
  page_of entry ty s p d es /\ disjoint_spans (entry := entry) (mem s) p (zlen es).

Definition leaf_ok := page_ok (entry := leaf_entry) PageTypeLeaf.
Definition index_ok := page_ok (entry := index_entry) PageTypeIndex.

Section spans.
Context `{EntryLayout A entry}.
Local Abbreviation hi := (span_hi (entry := entry)).
Local Abbreviation disj := (disjoint_spans (entry := entry)).

Lemma span_slot m m' p p' i i' :
  load m' (slot p' i') 16 = load m (slot p i) 16 ->
  span_lo m' p' i' = span_lo m p i /\ hi m' p' i' = hi m p i.
Proof.
  intros E. split; [|by apply slot_hi_local].
  unfold span_lo. rewrite <- (Z.add_0_r (slot p i)), <- (Z.add_0_r (slot p' i')).
  apply loadU_slot; done || lia.
Qed.

Lemma page_of_slots ty s p d es j :
  page_of entry ty s p d es -> 0 <= j < zlen es ->
  PageSize - d <= span_lo (mem s) p j /\ span_lo (mem s) p j <= hi (mem s) p j <= PageSize.
Proof.
  intros Hp Hj. destruct (lookup_lt_is_Some_2 es (Z.to_nat j)) as [x Hx]; [unfold zlen in *; lia|].
  pose proof (entry_span _ _ _ _ _ (po_entry _ _ _ _ _ _ Hp _ _ Hx)) as Hsp.
  rewrite Z2Nat.id in Hsp by lia. pose proof (entry_size_nonneg x). unfold span_hi. lia.
Qed.

Lemma disjoint_spans_same s s' p p' n :
  same_page s s' p p' -> n <= 252 -> disj (mem s) p n -> disj (mem s') p' n.
Proof.
  intros Hsame Hn Hd i j Hi Hj Hij.
  assert (Hs : forall x, 0 <= x < n -> load (mem s') (slot p' x) 16 = load (mem s) (slot p x) 16).
  { intros x Hx. apply load_ext. intros y Hy. unfold slot. rewrite <- !Z.add_assoc. apply Hsame. off_lia. }
  destruct (span_slot _ _ _ _ _ _ (Hs i Hi)) as [-> ->], (span_slot _ _ _ _ _ _ (Hs j Hj)) as [-> ->].
  by apply Hd.
Qed.

Lemma page_ok_same ty s s' p p' d es :
  same_page s s' p p' -> page_ok ty s p d es -> page_ok ty s' p' d es.
Proof.
  intros Hs [Hp Hd]. split; [by eapply page_of_same|]. apply (disjoint_spans_same s s' p); auto.
  destruct Hp. off_lia.
Qed.

Lemma page_ok_setField ty s p d es f v :
  f <> hCount -> f <> hPageType -> page_ok ty s p d es -> page_ok ty (setField p f v s) p d es.
Proof.
  intros H1 H2. apply page_ok_same. intros o Ho. unfold setField. cbn [mem with_mem].
  apply byteAt_storeU. destruct f; try done; off_lia.
Qed.

Lemma page_ok_other ty s s' p q d es :
  only_page q s s' -> p <> q -> page_ok ty s p d es -> page_ok ty s' p d es.
Proof. intros Ho Hpq. apply page_ok_same. by apply (same_page_other q). Qed.

Lemma disjoint_spans_inserted ty s m' p d es idx :
  page_of entry ty s p d es -> (idx <= length es)%nat ->
  inserted (mem s) m' p (Z.of_nat idx) (zlen es) d ->
  hi m' p (Z.of_nat idx) <= PageSize - d ->
  span_lo m' p (Z.of_nat idx) <= hi m' p (Z.of_nat idx) ->
  disj (mem s) p (zlen es) -> disj m' p (zlen es + 1).
Proof.
  intros Hp Hidx Hin Hhi Hlohi Hd.
  (* an old entry [j'] in its new slot [j] *)
  assert (Hold : forall j, 0 <= j < zlen es + 1 -> j <> Z.of_nat idx ->
    exists j', 0 <= j' < zlen es /\ (j < Z.of_nat idx /\ j' = j \/ Z.of_nat idx < j /\ j' = j - 1) /\
      span_lo m' p j = span_lo (mem s) p j' /\ hi m' p j = hi (mem s) p j' /\
      PageSize - d <= span_lo m' p j).
  { intros j Hj Hne. set (j' := if decide (j < Z.of_nat idx) then j else j - 1).
    assert (Hj' : 0 <= j' < zlen es /\ (j < Z.of_nat idx /\ j' = j \/ Z.of_nat idx < j /\ j' = j - 1))
      by (unfold j'; destruct (decide _); unfold zlen in *; lia).
    exists j'. destruct Hj' as (Hr & Ho).
    assert (Hs : load m' (slot p j) 16 = load (mem s) (slot p j') 16).
    { unfold j'. destruct (decide (j < Z.of_nat idx)); apply Hin; lia. }
    destruct (span_slot _ _ _ _ _ _ Hs) as [E1 E2].
    pose proof (page_of_slots _ _ _ _ _ j' Hp Hr). rewrite E1, E2. auto with lia. }
  intros i j Hi Hj Hij.
  destruct (decide (i = Z.of_nat idx)) as [->|Hni], (decide (j = Z.of_nat idx)) as [->|Hnj]; [lia| | |].
  - destruct (Hold j Hj Hnj) as (? & ? & ? & ? & ? & ?). left. lia.
  - destruct (Hold i Hi Hni) as (? & ? & ? & ? & ? & ?). right. lia.
  - destruct (Hold i Hi Hni) as (i' & ? & ? & -> & -> & _), (Hold j Hj Hnj) as (j' & ? & ? & -> & -> & _).
    apply Hd; lia.
Qed.

(** Inserting a well-placed entry keeps the page well-formed. *)
Lemma page_ok_inserted ty s m' p d es idx x :
  page_ok ty s p d es -> (idx <= length es)%nat ->
  SizeofPageHeader + (zlen es + 1) * 16 + d + entry_size x <= PageSize ->
  inserted (mem s) m' p (Z.of_nat idx) (zlen es) d ->
  entry m' p (d + entry_size x) (Z.of_nat idx) x ->
  hi m' p (Z.of_nat idx) = PageSize - d ->
  page_ok ty (with_mem m' s) p (d + entry_size x) (insert_at idx x es).
Proof.
  intros [Hp Hd] Hidx Hfit Hin Hx Hhi. pose proof (entry_size_nonneg x). split.
  - apply (page_of_inserted _ _ _ _ d); auto; lia.
  - replace (zlen (insert_at idx x es)) with (zlen es + 1) by (unfold zlen; rewrite insert_at_length by done; lia).
    cbn [mem with_mem]. apply (disjoint_spans_inserted ty s _ _ d es idx); auto; [lia|].
    pose proof (entry_span _ _ _ _ _ Hx). unfold span_hi. lia.
Qed.

(** *** The data of a page fits its data area *)

Fixpoint data_size (es : list A) : Z :=
  match es with [] => 0 | x :: es => entry_size x + data_size es end.

Lemma data_size_app es1 es2 : data_size (es1 ++ es2) = data_size es1 + data_size es2.
Proof. induction es1 as [|x es1 IH]; [done|]. cbn. rewrite IH. lia. Qed.
Lemma data_size_nonneg es : 0 <= data_size es.
Proof. induction es as [|x es IH]; [done|]. cbn. pose proof (entry_size_nonneg x). lia. Qed.
#[export] Instance data_size_perm : Proper ((≡ₚ) ==> (=)) data_size.
Proof. induction 1; cbn; lia. Qed.

Definition span_set (m : memory) (p i : Z) : gset Z :=
  list_to_set (seqZ (span_lo m p i) (hi m p i - span_lo m p i)).

Lemma span_set_size m p i : span_lo m p i <= hi m p i ->
  Z.of_nat (size (span_set m p i)) = hi m p i - span_lo m p i.
Proof.
  intros Hle. unfold span_set. rewrite size_list_to_set by apply NoDup_seqZ.
  rewrite length_seqZ. lia.
Qed.

Lemma data_size_le ty s p d es : page_ok ty s p d es -> data_size es <= d.
Proof.
  intros [Hp Hd]. pose proof (po_data _ _ _ _ _ _ Hp).
  assert (Hall : forall n, (n <= length es)%nat -> exists X : gset Z,
    Z.of_nat (size X) = data_size (take n es) /\
    (forall o, o ∈ X -> PageSize - d <= o < PageSize) /\
    (forall o, o ∈ X -> exists i, 0 <= i < Z.of_nat n /\ span_lo (mem s) p i <= o < hi (mem s) p i)).
  { induction n as [|n IH]; intros Hn.
    { exists ∅. rewrite size_empty. split; [done|]. split; intros o Ho; set_solver. }
    destruct IH as (X & Hsz & Hr & Hi); [lia|].
    destruct (lookup_lt_is_Some_2 es n Hn) as [x Hx].
    pose proof (page_of_slots _ _ _ _ _ (Z.of_nat n) Hp ltac:(unfold zlen; lia)) as (H1 & H2 & H3).
    pose proof (entry_span _ _ _ _ _ (po_entry _ _ _ _ _ _ Hp _ _ Hx)) as (_ & Hhi & _).
    assert (Hin : forall o, o ∈ span_set (mem s) p (Z.of_nat n) <->
      span_lo (mem s) p (Z.of_nat n) <= o < hi (mem s) p (Z.of_nat n)).
    { intros o. unfold span_set. rewrite elem_of_list_to_set, elem_of_seqZ. lia. }
    exists (X ∪ span_set (mem s) p (Z.of_nat n)). split; [|split].
    - rewrite size_union.
      + rewrite Nat2Z.inj_add, Hsz, span_set_size by done. rewrite (take_S_r es n x Hx), data_size_app.
        cbn. unfold span_hi. lia.
      + intros o Ho Ho'. apply Hin in Ho'. destruct (Hi o Ho) as (i & Hi1 & Hi2).
        destruct (Hd i (Z.of_nat n)); unfold zlen; lia.
    - intros o. rewrite elem_of_union. intros [Ho|Ho]; [by apply Hr|]. apply Hin in Ho. lia.
    - intros o. rewrite elem_of_union. intros [Ho|Ho].
      + destruct (Hi o Ho) as (i & ? & ?). exists i. lia.
      + apply Hin in Ho. exists (Z.of_nat n). lia. }
  destruct (Hall (length es) (le_n _)) as (X & Hsz & Hr & _). rewrite firstn_all in Hsz.
  assert (Hsub : X ⊆ list_to_set (seqZ (PageSize - d) d)).
  { intros o Ho. apply elem_of_list_to_set, elem_of_seqZ. specialize (Hr o Ho). lia. }
  apply subseteq_size in Hsub. rewrite size_list_to_set in Hsub by apply NoDup_seqZ.
  rewrite length_seqZ in Hsub. lia.
Qed.
End spans.

#[global] Arguments data_size {A entry H} es : rename.

(** *** Inserting an entry *)

Lemma InsertLeafEntry_ok s p d es idx k v :
  leaf_ok s p d es -> (idx <= length es)%nat ->
  SizeofPageHeader + (zlen es + 1) * 16 + d + leaf_size (k, v) <= PageSize ->
  exists s', InsertLeafEntry p (Z.of_nat idx) k v d s = (s', Ret (d + leaf_size (k, v))) /\
    leaf_ok s' p (d + leaf_size (k, v)) (insert_at idx (k, v) es) /\ only_page p s s' /\
    (forall f, f <> hCount -> getField s' p f = getField s p f).
Proof.
  unfold leaf_size. cbn [fst snd]. intros Hok Hidx Hfit0.
  assert (Hfit : SizeofPageHeader + (zlen es + 1) * 16 + d + zlen k + zlen v <= PageSize) by lia. pose proof Hok as [Hp _]. pose proof (zlen_nonneg k). pose proof (zlen_nonneg v).
  assert (Hin : inserted (mem s) (leaf_written (mem s) p (Z.of_nat idx) (zlen es)
      (PageSize - d - zlen v - zlen k) (PageSize - d - zlen v) k v) p (Z.of_nat idx) (zlen es) d).
  { apply leaf_written_inserted; [unfold zlen; lia|apply Hp|done]. }
  eexists. split; [rewrite Z.add_assoc; apply InsertLeafEntry_eq; [apply Hp|unfold zlen; lia|apply Hp|done]|].
  split; [|split].
  - refine (page_ok_inserted (entry := leaf_entry) _ _ _ _ _ _ idx (k, v) Hok Hidx _ Hin _ _).
    + cbn. unfold leaf_size. cbn. lia.
    + cbn. unfold leaf_size. cbn [fst snd]. rewrite Z.add_assoc.
      apply leaf_written_entry; [unfold zlen; lia|apply Hp|done].
    + unfold span_hi. cbn [slot_hi leaf_layout]. unfold leaf_hi.
      rewrite leaf_written_slot; [cbn; lia|unfold zlen; lia|apply Hp|done].
  - constructor; [apply Hin|by destruct s].
  - intros f Hf. unfold getField. cbn [mem with_mem]. apply loadU_ext. intros i Hi.
    rewrite <- !Z.add_assoc. pose proof (field_bounds f).
    apply Hin; [off_lia|]. destruct f; try done; cbn in *; lia.
Qed.

Lemma InsertIndexEntry_ok s p d es idx k c :
  index_ok s p d es -> (idx <= length es)%nat -> is_u32 c -> c <> 0 ->
  SizeofPageHeader + (zlen es + 1) * 16 + d + zlen k <= PageSize ->
  exists s' enc, InsertIndexEntry p (Z.of_nat idx) k c d s = (s', Ret (d + zlen k)) /\
    (DecodeChildWithVersion enc).1 = c /\
    index_ok s' p (d + zlen k) (insert_at idx (k, enc) es) /\ only_page p s s' /\
    (forall f, f <> hCount -> getField s' p f = getField s p f).
Proof.
  intros Hok Hidx Hc32 Hc0 Hfit. pose proof Hok as [Hp _].
  pose proof (zlen_nonneg k). pose proof (po_data _ _ _ _ _ _ Hp).
  set (n := zlen es) in *. assert (Hn : 0 <= Z.of_nat idx <= n) by (unfold n, zlen; lia).
  pose proof (po_count _ _ _ _ _ _ Hp) as Hcount.
  set (s1 := with_mem (storeU 4 (storeU 4
    (store (shifted (mem s) p (Z.of_nat idx) n) (getPtr p + (PageSize - d - zlen k)) k)
    (slot p (Z.of_nat idx)) (PageSize - d - zlen k)) (slot p (Z.of_nat idx) + 4) (zlen k)) s).
  destruct (encodeChild_ok s1 c Hc32 Hc0) as (enc & Eenc & He64 & Hdec).
  exists (with_mem (index_written (mem s) p (Z.of_nat idx) n (PageSize - d - zlen k) k enc) s), enc.
  assert (Hin := index_written_inserted (mem s) p (Z.of_nat idx) n d k enc Hn H0 Hfit).
  split; [|split; [by rewrite Hdec|split; [|split]]].
  - unfold InsertIndexEntry. rewrite (proj2 (Z.eqb_neq c 0)), stM_bind_get, Hcount by done. cbv zeta.
    fold n. rewrite !zlen_u32 by off_lia. unfold SizeofIndexEntry.
    rewrite !(u32_id (16 + _)), (u32_id (SizeofPageHeader + _ + _)), (u32_id (SizeofPageHeader + _ + _ + _))
      by (unfold is_u32; off_lia).
    rewrite (proj2 (Z.ltb_ge _ _)) by off_lia.
    rewrite (stM_bind_ret _ _ _ _ _ (shiftEntries_eq s p _ n Hcount Hn ltac:(off_lia))).
    rewrite !(u32_id (PageSize - _ - _)) by (unfold is_u32; off_lia).
    rewrite !(u16_id (zlen _)) by (unfold is_u16; off_lia).
    rewrite (u16_id (d + zlen k)) by (unfold is_u16; off_lia).
    unfold writeBytes, writeU, incCount. rewrite !(ztake_all (zlen _)) by lia.
    rewrite !stM_bind_modify. cbn [mem with_mem]. rewrite stM_bind_get.
    match goal with |- context [encodeChild ?x c] => change (encodeChild x c) with (encodeChild s1 c) end.
    rewrite Eenc, stM_bind_lift. unfold s1.
    rewrite !stM_bind_modify. cbn [mem with_mem].
    rewrite GetCount_mem. rewrite !loadU_storeU_disj by slot_lia.
    rewrite !loadU_store_disj by slot_lia. unfold shifted.
    rewrite loadU_store_disj by (rewrite ?load_length; slot_lia).
    change (loadU 2 (mem s) (getPtr p + 24)) with (GetCount s p). rewrite Hcount. fold n.
    rewrite (u16_id (n + 1)) by (unfold is_u16; off_lia). reflexivity.
  - refine (page_ok_inserted (entry := index_entry) _ _ _ _ _ _ idx (k, enc) Hok Hidx _ Hin _ _).
    + done.
    + by apply index_written_entry.
    + unfold span_hi. cbn [slot_hi index_layout]. unfold index_hi.
      rewrite index_written_slot by done. cbn. lia.
  - constructor; [apply Hin|by destruct s].
  - intros f Hf. unfold getField. cbn [mem with_mem]. apply loadU_ext. intros i Hi.
    rewrite <- !Z.add_assoc. pose proof (field_bounds f).
    apply Hin; [off_lia|]. destruct f; try done; cbn in *; lia.
Qed.

Local Abbreviation lhi := (span_hi (entry := leaf_entry)).

Lemma leaf_span s p d es i k v :
  leaf_ok s p d es -> es !! i = Some (k, v) ->
  PageSize - d <= span_lo (mem s) p (Z.of_nat i) /\
  lhi (mem s) p (Z.of_nat i) = span_lo (mem s) p (Z.of_nat i) + zlen k + zlen v /\
  lhi (mem s) p (Z.of_nat i) <= PageSize /\
  load (mem s) (getPtr p + span_lo (mem s) p (Z.of_nat i)) (zlen k) = k /\
  load (mem s) (getPtr p + span_lo (mem s) p (Z.of_nat i) + zlen k) (zlen v) = v /\
  leafEntryAt (mem s) (slot p (Z.of_nat i)) =
    {| le_keyOff := span_lo (mem s) p (Z.of_nat i); le_keyLen := zlen k;
       le_valOff := span_lo (mem s) p (Z.of_nat i) + zlen k; le_valLen := zlen v |}.
Proof.
  intros [Hp _] Hi. destruct (po_entry _ _ _ _ _ _ Hp i _ Hi) as (ko & He & H1 & H2 & Hk & Hv).
  assert (span_lo (mem s) p (Z.of_nat i) = ko) as -> by (by injection He).
  unfold span_hi. cbn [slot_hi leaf_layout]. unfold leaf_hi. rewrite He. cbn in *.
  repeat (split; [first [done|lia]|]). done.
Qed.

(** *** Overwriting a value in place *)

(** What [OverwriteLeafValue] does to the memory: the entry [i] of [n], with
    its data at [lo] and a key of [kl] bytes, gets the value [v']. *)
Record overwritten (m m' : memory) (p d n i lo kl : Z) (v' : bytes) : Prop := {
  ow_slot : forall j, 0 <= j < n -> j <> i -> load m' (slot p j) 16 = load m (slot p j) 16;
  ow_entry : leafEntryAt m' (slot p i) =
    {| le_keyOff := lo; le_keyLen := kl; le_valOff := lo + kl; le_valLen := zlen v' |};
  ow_data : forall o k, PageSize - d <= o -> 0 <= k ->
    o + k <= lo + kl \/ lo + kl + zlen v' <= o -> load m' (getPtr p + o) k = load m (getPtr p + o) k;
  ow_val : load m' (getPtr p + lo + kl) (zlen v') = v';
  ow_header : forall o, 0 <= o < SizeofPageHeader -> byteAt m' (getPtr p + o) = byteAt m (getPtr p + o);
  ow_out : forall x, x < getPtr p \/ getPtr p + PageSize <= x -> byteAt m' x = byteAt m x
}.

Definition overwrite_mem (m : memory) (p i vo : Z) (v' : bytes) : memory :=
  storeU 4 (store m (getPtr p + vo) v') (slot p i + 12) (zlen v').

Lemma overwrite_mem_ok m p d n i lo kl vl v' :
  leafEntryAt m (slot p i) = {| le_keyOff := lo; le_keyLen := kl; le_valOff := lo + kl; le_valLen := vl |} ->
  0 <= i < n -> 0 <= kl -> zlen v' <= vl -> PageSize - d <= lo -> lo + kl + vl <= PageSize ->
  SizeofPageHeader + n * 16 + d <= PageSize ->
  overwritten m (overwrite_mem m p i (lo + kl) v') p d n i lo kl v'.
Proof.
  intros He Hi Hkl Hv Hlo Hhi Hfit. pose proof (zlen_nonneg v'). unfold overwrite_mem.
  unfold leafEntryAt in He. injection He as E1 E2 E3 E4. constructor.
  - intros j Hj Hne. rewrite load_storeU_disj by slot_lia. apply load_store_disj. slot_lia.
  - unfold leafEntryAt. rewrite loadU_storeU_same, !(loadU_storeU_disj 4 4) by slot_lia.
    rewrite !loadU_store_disj by slot_lia. rewrite E1, E2, E3, Z.mod_small by (cbn; off_lia). done.
  - intros o k Ho Hk Hdis. rewrite load_storeU_disj by slot_lia. apply load_store_disj. lia.
  - rewrite load_storeU_disj by slot_lia. rewrite <- Z.add_assoc. by apply load_store_same.
  - intros o Ho. rewrite byteAt_storeU by slot_lia. apply byteAt_store_out. slot_lia.
  - intros x Hx. rewrite byteAt_storeU by slot_lia. apply byteAt_store_out. slot_lia.
Qed.

Lemma overwritten_entries s m' p d es i k v v' :
  leaf_ok s p d es -> es !! i = Some (k, v) -> zlen v' <= zlen v ->
  overwritten (mem s) m' p d (zlen es) (Z.of_nat i) (span_lo (mem s) p (Z.of_nat i)) (zlen k) v' ->
  forall j x, <[i := (k, v')]> es !! j = Some x -> leaf_entry m' p d (Z.of_nat j) x.
Proof.
  intros Hok Hi Hv' Hw j [kj vj] Hj. pose proof Hok as [Hp Hd].
  pose proof (zlen_nonneg v'). pose proof (zlen_nonneg k).
  destruct (leaf_span _ _ _ _ _ _ _ Hok Hi) as (Hlo & Hhi & Hmax & Hk & Hv & He).
  pose proof (lookup_lt_Some _ _ _ Hi) as Hlt.
  destruct (decide (j = i)) as [->|Hne].
  - rewrite list_lookup_insert_eq in Hj by done. injection Hj as <- <-.
    exists (span_lo (mem s) p (Z.of_nat i)). cbn [fst snd].
    split; [apply Hw|]. split; [done|]. split; [lia|]. split; [|apply Hw].
    rewrite (ow_data _ _ _ _ _ _ _ _ _ Hw) by lia. done.
  - rewrite list_lookup_insert_ne in Hj by done. pose proof (lookup_lt_Some _ _ _ Hj) as Hjl.
    destruct (leaf_span _ _ _ _ _ _ _ Hok Hj) as (Hlo' & Hhi' & Hmax' & Hk' & Hvj & He').
    pose proof (zlen_nonneg kj). pose proof (zlen_nonneg vj).
    destruct (Hd (Z.of_nat i) (Z.of_nat j)) as [Hdis|Hdis]; try (unfold zlen; lia).
    all: exists (span_lo (mem s) p (Z.of_nat j)); cbn [fst snd].
    all: split; [rewrite (leafEntryAt_slot _ _ _ _ (ow_slot _ _ _ _ _ _ _ _ _ Hw (Z.of_nat j)
      ltac:(unfold zlen; lia) ltac:(lia))); exact He'|].
    all: split; [done|]; split; [lia|]; rewrite <- (Z.add_assoc (getPtr p)).
    all: rewrite !(ow_data _ _ _ _ _ _ _ _ _ Hw) by lia; rewrite Z.add_assoc; done.
Qed.

Lemma overwritten_disjoint s m' p d es i k v v' :
  leaf_ok s p d es -> es !! i = Some (k, v) -> zlen v' <= zlen v ->
  overwritten (mem s) m' p d (zlen es) (Z.of_nat i) (span_lo (mem s) p (Z.of_nat i)) (zlen k) v' ->
  disjoint_spans (entry := leaf_entry) m' p (zlen es).
Proof.
  intros Hok Hi Hv' Hw. pose proof Hok as [Hp Hd].
  destruct (leaf_span _ _ _ _ _ _ _ Hok Hi) as (Hlo & Hhi & Hmax & Hk & Hv & He).
  assert (Hsp : forall j, 0 <= j < zlen es ->
    span_lo m' p j = span_lo (mem s) p j /\ lhi m' p j <= lhi (mem s) p j).
  { intros j Hj. destruct (decide (j = Z.of_nat i)) as [->|Hne].
    - assert (E : span_lo m' p (Z.of_nat i) = span_lo (mem s) p (Z.of_nat i))
        by (pose proof (ow_entry _ _ _ _ _ _ _ _ _ Hw) as E; by injection E).
      rewrite E. split; [done|]. unfold span_hi at 1. cbn [slot_hi leaf_layout]. unfold leaf_hi.
      rewrite (ow_entry _ _ _ _ _ _ _ _ _ Hw). cbn [le_valOff le_valLen]. lia.
    - destruct (span_slot (entry := leaf_entry) _ _ _ _ _ _ (ow_slot _ _ _ _ _ _ _ _ _ Hw j Hj Hne)) as [-> ->]. lia. }
  intros a b Ha Hb Hab. destruct (Hsp a Ha), (Hsp b Hb). specialize (Hd a b Ha Hb Hab). lia.
Qed.

Lemma OverwriteLeafValue_ok s p d es i k v v' :
  leaf_ok s p d es -> es !! i = Some (k, v) -> zlen v' <= zlen v ->
  exists s', OverwriteLeafValue p (Z.of_nat i) v' s = (s', Ret true) /\
    leaf_ok s' p d (<[i := (k, v')]> es) /\ only_page p s s' /\
    (forall f, getField s' p f = getField s p f).
Proof.
  intros Hok Hi Hv'. pose proof Hok as [Hp _]. pose proof (lookup_lt_Some _ _ _ Hi) as Hlt.
  pose proof (zlen_nonneg v'). pose proof (zlen_nonneg k).
  destruct (leaf_span _ _ _ _ _ _ _ Hok Hi) as (Hlo & Hhi & Hmax & Hk & Hv & He).
  assert (Hw := overwrite_mem_ok (mem s) p d (zlen es) (Z.of_nat i) _ _ _ v' He
    ltac:(unfold zlen; lia) H0 Hv' Hlo ltac:(lia) (po_fit _ _ _ _ _ _ Hp)).
  set (m' := overwrite_mem (mem s) p (Z.of_nat i) _ v') in *.
  assert (Hfield : forall f, getField (with_mem m' s) p f = getField s p f).
  { intros f. unfold getField. apply loadU_ext. intros o Ho. cbn [mem with_mem].
    rewrite <- !Z.add_assoc. pose proof (field_bounds f). apply (ow_header _ _ _ _ _ _ _ _ _ Hw). lia. }
  exists (with_mem m' s). split; [|split; [split|split; [|done]]].
  - unfold OverwriteLeafValue. rewrite stM_bind_get, (po_count _ _ _ _ _ _ Hp).
    rewrite (proj2 (Z.ltb_ge _ _)), (proj2 (Z.leb_gt _ _)) by (unfold zlen; lia). cbn [orb]. cbv zeta.
    rewrite He. cbn [le_valLen le_valOff]. rewrite zlen_u32 by (pose proof (po_fit _ _ _ _ _ _ Hp); pose proof (zlen_nonneg es); off_lia).
    rewrite (proj2 (Z.ltb_ge _ _)) by lia. unfold writeBytes, writeU.
    rewrite (ztake_all (zlen v) v') by lia. rewrite !stM_bind_modify. reflexivity.
  - destruct Hp as [Hc Ht Hd0 Hf Hent].
    assert (El : zlen (<[i := (k, v')]> es) = zlen es) by (unfold zlen; by rewrite length_insert).
    constructor; rewrite ?El; auto.
    + rewrite <- Hc. apply Hfield.
    + rewrite <- Ht. apply Hfield.
    + by apply (overwritten_entries s m' p d es i k v v').
  - replace (zlen (<[i := (k, v')]> es)) with (zlen es) by (unfold zlen; by rewrite length_insert).
    by apply (overwritten_disjoint s m' p d es i k v v').
  - constructor; [apply Hw|by destruct s].
Qed.

(** *** Collecting and copying entries *)

Lemma collectLoop_ok s p d es skip n : forall j,
  leaf_page s p d es -> (j + n = length es)%nat ->
  collectLoop s p (Z.of_nat skip) (Z.of_nat j) n =
    Ret (if decide (j <= skip)%nat then remove_at (skip - j) (drop j es) else drop j es).
Proof.
  induction n as [|n IH]; intros j Hp Hj; cbn [collectLoop].
  { rewrite drop_ge by lia. destruct (decide _); [|done]. unfold remove_at. by rewrite take_nil, drop_nil. }
  destruct (lookup_lt_is_Some_2 es j) as [[k v] Hx]; [lia|].
  rewrite (drop_S es (k, v) j Hx). replace (Z.of_nat j + 1) with (Z.of_nat (S j)) by lia.
  destruct (Z.eqb_spec (Z.of_nat j) (Z.of_nat skip)) as [E|E].
  - assert (j = skip) as -> by lia. rewrite (IH (S skip)) by (done || lia).
    rewrite decide_False, decide_True by lia. by rewrite Nat.sub_diag.
  - destruct (leaf_page_entry _ _ _ _ _ _ _ Hp Hx) as (e & Ee & _ & _ & _ & Hk & Hv).
    rewrite Ee, bind_ret, (IH (S j)) by (done || lia). rewrite bind_ret, Hk, Hv. f_equal.
    destruct (decide (j <= skip)%nat).
    + rewrite decide_True by lia. unfold remove_at.
      by replace (skip - j)%nat with (S (skip - S j)) by lia.
    + by rewrite decide_False by lia.
Qed.

Lemma CollectKVExcept_ok s p d es i :
  leaf_page s p d es -> CollectKVExcept s p (Z.of_nat i) = Ret (remove_at i es).
Proof.
  intros Hp. unfold CollectKVExcept. rewrite (po_count _ _ _ _ _ _ Hp).
  replace (Z.to_nat (zlen es)) with (length es) by (unfold zlen; lia).
  change 0 with (Z.of_nat 0). rewrite (collectLoop_ok s p d es i) by done.
  rewrite decide_True by lia. by rewrite Nat.sub_0_r.
Qed.

Lemma insert_at_end {A} (x : A) l : insert_at (length l) x l = l ++ [x].
Proof. unfold insert_at. by rewrite firstn_all, drop_all. Qed.

(** The entries [l] are appended one after another to a page with the entries [acc]. *)
Lemma bulkLeafLoop_ok src dst startIdx ds es l : forall s acc dd,
  src <> dst -> leaf_page s src ds es -> leaf_ok s dst dd acc ->
  (forall i x, l !! i = Some x -> es !! (startIdx + length acc + i)%nat = Some x) ->
  SizeofPageHeader + (zlen acc + zlen l) * 16 + dd + data_size (entry := leaf_entry) l <= PageSize ->
  exists s', bulkLeafLoop src dst (Z.of_nat startIdx) (zlen acc) (length l) dd s =
      (s', Ret (dd + data_size (entry := leaf_entry) l)) /\
    leaf_ok s' dst (dd + data_size (entry := leaf_entry) l) (acc ++ l) /\ only_page dst s s' /\
    (forall f, f <> hCount -> getField s' dst f = getField s dst f).
Proof.
  induction l as [|[k v] l IH]; intros s acc dd Hne Hsrc Hdst Hl Hfit; cbn [length bulkLeafLoop].
  { exists s. cbn. rewrite app_nil_r, Z.add_0_r. split; [done|]. split; [done|].
    split; [apply only_page_refl|done]. }
  assert (Hx : es !! (startIdx + length acc)%nat = Some (k, v)).
  { rewrite <- (Nat.add_0_r (_ + _)). by apply Hl. }
  destruct (leaf_page_entry _ _ _ _ _ _ _ Hsrc Hx) as (e & _ & Ee & _ & _ & Hk & Hv).
  rewrite stM_bind_get. rewrite (stM_bind_ret _ _ s s e).
  2:{ apply onErr_ret. replace (Z.of_nat startIdx + zlen acc) with (Z.of_nat (startIdx + length acc))
        by (unfold zlen; lia). by rewrite Ee. }
  rewrite Hk, Hv. rewrite zlen_cons in Hfit. cbn [data_size entry_size leaf_layout] in Hfit |- *.
  pose proof (data_size_nonneg (entry := leaf_entry) l). pose proof (zlen_nonneg l).
  destruct (InsertLeafEntry_ok s dst dd acc (length acc) k v Hdst) as (s1 & E & Hok & Honly & Hfld);
    [lia|lia|].
  change (Z.of_nat (length acc)) with (zlen acc) in E.
  rewrite (stM_bind_ret _ _ _ _ _ E). rewrite insert_at_end in Hok. rewrite Z.add_assoc.
  destruct (IH s1 (acc ++ [(k, v)]) (dd + leaf_size (k, v))) as (s' & E' & Hok' & Honly' & Hfld'); auto.
  - eapply page_of_same; [|exact Hsrc]. by apply (same_page_other dst).
  - intros i x Hi. rewrite length_app. cbn [length].
    replace (startIdx + (length acc + 1) + i)%nat with (startIdx + length acc + S i)%nat by lia. by apply Hl.
  - rewrite zlen_app, zlen_cons, zlen_nil. lia.
  - exists s'. rewrite zlen_app, zlen_cons, zlen_nil, Z.add_0_r in E'.
    rewrite <- app_assoc in Hok'. split; [exact E'|]. split; [exact Hok'|]. split.
    + by eapply only_page_trans.
    + intros f Hf. rewrite Hfld', Hfld by done. done.
Qed.

(** [es[a:b]]. *)
Definition sublist {A} (a b : nat) (es : list A) : list A := take (b - a) (drop a es).

Lemma sublist_length {A} a b (es : list A) :
  (a <= b <= length es)%nat -> length (sublist a b es) = (b - a)%nat.
Proof. intros. unfold sublist. rewrite length_take, length_drop. lia. Qed.

Lemma sublist_lookup {A} a b (es : list A) i x :
  sublist a b es !! i = Some x -> es !! (a + i)%nat = Some x.
Proof.
  unfold sublist. intros H. apply lookup_take_Some in H as [H _]. by rewrite lookup_drop in H.
Qed.

Lemma sublist_split {A} (a b c : nat) (es : list A) :
  (a <= b <= c)%nat -> sublist a b es ++ sublist b c es = sublist a c es.
Proof.
  intros. unfold sublist. replace (c - a)%nat with ((b - a) + (c - b))%nat by lia.
  rewrite <- take_take_drop, drop_drop. do 3 f_equal. lia.
Qed.

Lemma sublist_all {A} (es : list A) : sublist 0 (length es) es = es.
Proof. unfold sublist. rewrite drop_0, Nat.sub_0_r. apply firstn_all. Qed.

Lemma data_size_sublist `{EntryLayout A entry} a b (es : list A) :
  data_size (entry := entry) (sublist a b es) <= data_size (entry := entry) es.
Proof.
  unfold sublist. rewrite <- (take_drop a es) at 2. rewrite data_size_app.
  rewrite <- (take_drop (b - a) (drop a es)) at 2. rewrite data_size_app.
  pose proof (data_size_nonneg (entry := entry) (take a es)).
  pose proof (data_size_nonneg (entry := entry) (drop (b - a) (drop a es))). lia.
Qed.

(** A part of a page, with its exact data, fits a page. *)
Lemma sublist_fits `{EntryLayout A entry} ty s p d (es : list A) a b :
  page_ok (entry := entry) ty s p d es -> (a <= b <= length es)%nat ->
  SizeofPageHeader + zlen (sublist a b es) * 16 + data_size (entry := entry) (sublist a b es) <= PageSize.
Proof.
  intros Hok Hab. pose proof (data_size_le _ _ _ _ _ Hok). pose proof (data_size_sublist (entry := entry) a b es).
  pose proof (po_fit _ _ _ _ _ _ (proj1 Hok)). unfold zlen in *. rewrite sublist_length by done. lia.
Qed.

Lemma disjoint_nil `{EntryLayout A entry} m p : disjoint_spans (entry := entry) m p (zlen (@nil A)).
Proof. intros i j Hi. unfold zlen in Hi. cbn in Hi. lia. Qed.

(** The guard of both bulk copies. *)
Lemma bulk_guard s src a b n :
  GetCount s src = Z.of_nat n -> (a < b <= n)%nat ->
  (Z.of_nat a <? 0) || (GetCount s src <? Z.of_nat b) || (Z.of_nat b <=? Z.of_nat a) = false.
Proof.
  intros -> Hab. rewrite (proj2 (Z.ltb_ge _ 0)), (proj2 (Z.ltb_ge _ _)), (proj2 (Z.leb_gt _ _)) by lia. done.
Qed.

Lemma BulkInitLeaf_ok s src dst d es a b :
  leaf_ok s src d es -> src <> dst -> (a < b <= length es)%nat ->
  exists s', BulkInitLeafFromSource src dst (Z.of_nat a) (Z.of_nat b) s =
      (s', Ret (data_size (entry := leaf_entry) (sublist a b es))) /\
    leaf_ok s' dst (data_size (entry := leaf_entry) (sublist a b es)) (sublist a b es) /\
    only_page dst s s' /\ getField s' dst hTombstoneCount = getField s dst hTombstoneCount.
Proof.
  intros Hok Hne Hab. pose proof Hok as [Hp _]. unfold BulkInitLeafFromSource. rewrite stM_bind_get.
  rewrite (bulk_guard s src a b (length es)) by (done || apply Hp). cbv zeta.
  destruct (InitPage_ok (entry := leaf_entry) s dst PageTypeLeaf (GetVersion s src)) as
    (s1 & E1 & Hp1 & Ho1 & _ & _ & Ht1); [unfold PageTypeLeaf; lia|].
  rewrite (stM_bind_ret _ _ _ _ _ E1).
  assert (Hok1 : leaf_ok s1 dst 0 []) by (split; [done|apply disjoint_nil]).
  destruct (bulkLeafLoop_ok src dst a d es (sublist a b es) s1 [] 0) as (s' & E & Hok' & Ho & Hf); auto.
  - eapply page_of_same; [|exact Hp]. by apply (same_page_other dst).
  - intros i x Hi. cbn. rewrite Nat.add_0_r. by apply sublist_lookup in Hi.
  - rewrite zlen_nil. pose proof (sublist_fits _ _ _ _ _ a b Hok). cbn in *. lia.
  - exists s'. rewrite sublist_length in E by lia.
    replace (Z.to_nat (Z.of_nat b - Z.of_nat a)) with (b - a)%nat by lia.
    split; [exact E|]. split; [exact Hok'|]. split; [by eapply only_page_trans|].
    rewrite <- Ht1. by apply Hf.
Qed.

(** Keys with the page numbers of the children, without their versions. *)
Definition child_ids (es : list (bytes * Z)) : list (bytes * Z) :=
  (fun kc => (kc.1, (DecodeChildWithVersion kc.2).1)) <$> es.

Lemma child_ids_data l l' : child_ids l' = child_ids l ->
  data_size (entry := index_entry) l' = data_size (entry := index_entry) l.
Proof.
  revert l'. induction l as [|[k c] l IH]; intros [|[k' c'] l'] H; try done.
  injection H as -> _ H. cbn. by rewrite (IH l').
Qed.

(** No child is null or the source page itself. *)
Definition children_ok (src : Z) (es : list (bytes * Z)) : Prop :=
  Forall (fun kc => (DecodeChildWithVersion kc.2).1 <> src /\ (DecodeChildWithVersion kc.2).1 <> 0) es.

Lemma Decode_u32 e : is_u32 (DecodeChildWithVersion e).1.
Proof. apply u32_range. Qed.

Lemma bulkIndexLoop_ok src dst startIdx ds es l : forall s acc dd,
  src <> dst -> index_page s src ds es -> index_ok s dst dd acc -> children_ok src l ->
  (forall i x, l !! i = Some x -> es !! (startIdx + length acc + i)%nat = Some x) ->
  SizeofPageHeader + (zlen acc + zlen l) * 16 + dd + data_size (entry := index_entry) l <= PageSize ->
  exists s' l', bulkIndexLoop src dst (Z.of_nat startIdx) (zlen acc) (length l) dd s =
      (s', Ret (dd + data_size (entry := index_entry) l)) /\ child_ids l' = child_ids l /\
    index_ok s' dst (dd + data_size (entry := index_entry) l) (acc ++ l') /\ only_page dst s s'.
Proof.
  induction l as [|[k c] l IH]; intros s acc dd Hne Hsrc Hdst Hch Hl Hfit; cbn [length bulkIndexLoop].
  { exists s, []. cbn. rewrite app_nil_r, Z.add_0_r. split; [done|]. split; [done|].
    split; [done|apply only_page_refl]. }
  apply Forall_cons in Hch as [[Hc1 Hc2] Hch]. cbn [fst snd] in Hc1, Hc2.
  assert (Hx : es !! (startIdx + length acc)%nat = Some (k, c)).
  { rewrite <- (Nat.add_0_r (_ + _)). by apply Hl. }
  destruct (index_page_entry _ _ _ _ _ _ _ Hsrc Hx) as (e & Ee & _ & Hc & Hk).
  rewrite stM_bind_get. rewrite (stM_bind_ret _ _ s s e).
  2:{ replace (Z.of_nat startIdx + zlen acc) with (Z.of_nat (startIdx + length acc))
        by (unfold zlen; lia). by rewrite Ee. }
  rewrite Hc, Hk. cbv zeta. rewrite (proj2 (Z.eqb_neq _ src)), (proj2 (Z.eqb_neq _ 0)) by done. cbn [orb].
  rewrite zlen_cons in Hfit. cbn [data_size entry_size index_layout] in Hfit |- *.
  pose proof (data_size_nonneg (entry := index_entry) l). pose proof (zlen_nonneg l).
  destruct (InsertIndexEntry_ok s dst dd acc (length acc) k _ Hdst ltac:(lia) (Decode_u32 c) Hc2)
    as (s1 & enc & E & Henc & Hok & Honly & Hfld); [unfold index_size in Hfit; cbn in Hfit; lia|].
  change (Z.of_nat (length acc)) with (zlen acc) in E.
  rewrite (stM_bind_ret _ _ _ _ _ E). rewrite insert_at_end in Hok. rewrite Z.add_assoc.
  change (zlen k) with (index_size (k, c)) in Hok |- *.
  destruct (IH s1 (acc ++ [(k, enc)]) (dd + index_size (k, c))) as (s' & l' & E' & Hids & Hok' & Honly'); auto.
  - eapply page_of_same; [|exact Hsrc]. by apply (same_page_other dst).
  - intros i x Hi. rewrite length_app. cbn [length].
    replace (startIdx + (length acc + 1) + i)%nat with (startIdx + length acc + S i)%nat by lia. by apply Hl.
  - rewrite zlen_app, zlen_cons, zlen_nil. lia.
  - exists s', ((k, enc) :: l'). rewrite zlen_app, zlen_cons, zlen_nil, Z.add_0_r in E'.
    rewrite <- app_assoc in Hok'. split; [exact E'|].
    split; [unfold child_ids in *; rewrite !fmap_cons; cbn [fst snd]; by rewrite Henc, Hids|].
    split; [exact Hok'|]. by eapply only_page_trans.
Qed.

Lemma BulkInitIndex_ok s src dst d es a b extra :
  index_ok s src d es -> src <> dst -> (a < b <= length es)%nat ->
  children_ok src (sublist a b es) -> (DecodeChildWithVersion extra).1 <> src ->
  exists s' l', BulkInitIndexFromSource src dst (Z.of_nat a) (Z.of_nat b) extra s =
      (s', Ret (data_size (entry := index_entry) (sublist a b es))) /\
    child_ids l' = child_ids (sublist a b es) /\
    index_ok s' dst (data_size (entry := index_entry) (sublist a b es)) l' /\
    getField s' dst hExtraChild = extra mod 2 ^ 64 /\ only_page dst s s'.
Proof.
  intros Hok Hne Hab Hch Hself. pose proof Hok as [Hp _]. unfold BulkInitIndexFromSource. rewrite stM_bind_get.
  rewrite (bulk_guard s src a b (length es)) by (done || apply Hp). cbv zeta.
  destruct (InitPage_ok (entry := index_entry) s dst PageTypeIndex (GetVersion s src)) as
    (s1 & E1 & Hp1 & Ho1 & _); [unfold PageTypeIndex; lia|].
  rewrite (stM_bind_ret _ _ _ _ _ E1).
  assert (Hok1 : index_ok s1 dst 0 []) by (split; [done|apply disjoint_nil]).
  destruct (bulkIndexLoop_ok src dst a d es (sublist a b es) s1 [] 0) as (s' & l' & E & Hids & Hok' & Ho); auto.
  - eapply page_of_same; [|exact Hp]. by apply (same_page_other dst).
  - intros i x Hi. cbn. rewrite Nat.add_0_r. by apply sublist_lookup in Hi.
  - rewrite zlen_nil. pose proof (sublist_fits _ _ _ _ _ a b Hok). cbn in *. lia.
  - exists (setField dst hExtraChild extra s'), l'. rewrite sublist_length in E by lia.
    replace (Z.to_nat (Z.of_nat b - Z.of_nat a)) with (b - a)%nat by lia.
    rewrite zlen_nil, Z.add_0_l in E. split.
    + rewrite (stM_bind_ret _ _ _ _ _ E). rewrite (proj2 (Z.eqb_neq _ src)) by done. reflexivity.
    + split; [done|]. split; [by apply page_ok_setField|]. split.
      * by rewrite getField_setField_same.
      * eapply only_page_trans; [|apply only_page_setField]. by eapply only_page_trans.
Qed.

(** ** Properties of the page accessor *)

(** InsertLeafEntry refines insertion into the list of entries: if header,
    entries and data fit 4096 bytes, the page holds the list with the entry
    inserted at the index, the new end of the data area is returned and no
    other page changes; otherwise ErrOffHeapPageFull is returned and nothing
    changes. *)
Theorem insert_leaf_refines s p d es idx k v
    (Hok : leaf_ok s p d es) (Hidx : (idx <= length es)%nat) (Hsize : leaf_size (k, v) < 2 ^ 31) :
  if decide (SizeofPageHeader + (zlen es + 1) * 16 + d + leaf_size (k, v) <= PageSize)
  then exists s', InsertLeafEntry p (Z.of_nat idx) k v d s = (s', Ret (d + leaf_size (k, v))) /\
    leaf_ok s' p (d + leaf_size (k, v)) (insert_at idx (k, v) es) /\ only_page p s s'
  else InsertLeafEntry p (Z.of_nat idx) k v d s = (s, Fail errPageFull).
Proof.
  destruct (decide _) as [Hfit|Hfit].
  - destruct (InsertLeafEntry_ok s p d es idx k v Hok Hidx Hfit) as (s' & ? & ? & ? & _). eauto.
  - destruct Hok as [Hp _]. unfold leaf_size in *. cbn [fst snd] in *.
    apply (InsertLeafEntry_full s p _ d k v (zlen es)); try apply Hp; try lia. apply zlen_nonneg.
Qed.

(** C34: SearchKey on a page with strictly ascending keys returns the number of
    smaller keys, the position where the key is or belongs, and whether it is
    there; the binary search terminates and never reports an error. *)
Theorem search_key_spec s p d key :
  (forall es, leaf_page s p d es -> keys_sorted (es.*1) ->
     SearchKey s p key true = Ret (Z.of_nat (lower_bound key (es.*1)), bool_decide (key ∈ es.*1))) /\
  (forall es, index_page s p d es -> keys_sorted (es.*1) ->
     SearchKey s p key false = Ret (Z.of_nat (lower_bound key (es.*1)), bool_decide (key ∈ es.*1))).
Proof.
  split; intros es Hp Hs; apply SearchKey_ok; auto.
  - by eapply leaf_page_keys.
  - by eapply index_page_keys.
Qed.

(** A child pointer decodes to the page number and the low 32 bits of the
    version it was built from, and page number and version determine it. *)
Theorem child_pointer_roundtrip c v (Hc : is_u32 c) :
  exists e, EncodeChildWithVersion c v = Ret e /\ is_u64 e /\ DecodeChildWithVersion e = (c, u32 v) /\
    forall c' v', is_u32 c' -> EncodeChildWithVersion c' v' = Ret e -> c' = c /\ u32 v' = u32 v.
Proof.
  destruct (encode_decode c v Hc) as (e & E & He & Hd). exists e. split; [done|]. split; [done|].
  split; [done|]. intros c' v' Hc' E'. destruct (encode_decode c' v' Hc') as (e' & E1 & _ & Hd').
  rewrite E' in E1. injection E1 as <-. rewrite Hd in Hd'. by injection Hd' as -> ->.
Qed.

(** ** The theorems at a concrete page *)

Definition example_pm : PageManager :=
  {| total := 8; used := 2; nextPageID := 2; freeList := []; mem := ∅ |}.

Lemma example_leaf : leaf_ok (InitLeafPage 1 1 example_pm).1 1 0 [].
Proof.
  destruct (InitPage_ok (entry := leaf_entry) example_pm 1 PageTypeLeaf 1) as (s & E & Hp & _);
    [unfold PageTypeLeaf; lia|].
  unfold InitLeafPage. rewrite E. split; [done|apply disjoint_nil].
Qed.

Lemma insert_leaf_refines_witness :
  exists s s', leaf_ok s 1 0 [] /\ InsertLeafEntry 1 0 [7; 8] [9] 0 s = (s', Ret 3) /\
    leaf_ok s' 1 3 [([7; 8], [9])].
Proof.
  pose proof (insert_leaf_refines _ 1 0 [] 0 [7; 8] [9] example_leaf (le_n _) eq_refl) as H.
  rewrite decide_True in H by (vm_compute; discriminate). destruct H as (s' & E & Hok & _).
  exists (InitLeafPage 1 1 example_pm).1, s'. split; [exact example_leaf|]. split; [exact E|exact Hok].
Defined.

Lemma example_leaf1 : exists s, leaf_ok s 1 3 [([7; 8], [9])].
Proof.
  destruct (InsertLeafEntry_ok _ 1 0 [] 0 [7; 8] [9] example_leaf (le_n _)) as (s & _ & Hok & _);
    [vm_compute; discriminate|]. by exists s.
Qed.

Lemma search_key_spec_witness :
  exists s, SearchKey s 1 [7; 8] true = Ret (0, true) /\ SearchKey s 1 [9] true = Ret (1, false).
Proof.
  destruct example_leaf1 as [s Hok]. exists s.
  assert (Hs : keys_sorted ([([7; 8], [9])].*1)) by repeat constructor. split.
  - exact (proj1 (search_key_spec s 1 3 [7; 8]) _ (proj1 Hok) Hs).
  - exact (proj1 (search_key_spec s 1 3 [9]) _ (proj1 Hok) Hs).
Defined.

Lemma child_pointer_roundtrip_witness :
  exists e, EncodeChildWithVersion 3 (2 ^ 32 + 5) = Ret e /\ DecodeChildWithVersion e = (3, 5).
Proof.
  destruct (child_pointer_roundtrip 3 (2 ^ 32 + 5)) as (e & E & _ & D & _); [unfold is_u32; lia|].
  exists e. split; [exact E|]. exact D.
Defined.
