(* ===== verification/LeafPage.v ===== *)
(** * Leaf pages of the B+Tree (storage/btree/leaf_page.go)

    A handle is the number of its page.  Every mutation is copy-on-write: it
    allocates a page, fills it and returns its number, and leaves the source
    page as it is.  The theorems say what the new page holds in terms of the
    sorted list of entries, and of the map it stands for, and that pages in use
    are not touched. *)

From stdpp Require Import base list gmap strings.
From Stdlib Require Import ZArith Lia.
From S2P Require Import Prelude MvccCodec OffHeap PageLayout.

Local Open Scope Z_scope.

(** ** The methods of [leafPageHandle] *)

Definition Count (s : PageManager) (id : Z) : Z := GetCount s id.

(** [float64(n)/4096 > 0.95]: the division is exact, and no integer lies
    between 0.95 * 4096 and its rounding. *)
Definition over95 (n : Z) : bool := 95 * PageSize <? 100 * n.

Definition IsFull (s : PageManager) (id keyLen valueLen : Z) : bool :=
  let requiredSpace := u32 (SizeofLeafEntry + keyLen + valueLen) in
  let usedSpace := u32 (SizeofPageHeader + GetCount s id * SizeofLeafEntry + GetDataEnd s id) in
  over95 (u32 (usedSpace + requiredSpace)).

(** [Search] drops the error of [SearchKey]. *)
Definition Search (s : PageManager) (id : Z) (key : bytes) : outcome (Z * bool) :=
  match SearchKey s id key true with
  | Fail _ => Ret (0, false)
  | r => r
  end.

Definition GetKeyAt (s : PageManager) (id idx : Z) : outcome bytes :=
  e ← GetLeafEntry s id idx; Ret (GetKey s id (le_keyOff e) (le_keyLen e)).
Definition GetValueAt (s : PageManager) (id idx : Z) : outcome bytes :=
  e ← GetLeafEntry s id idx; Ret (GetValue s id (le_valOff e) (le_valLen e)).

(** [copy] of the 4096 bytes of a page. *)
Definition copyPageBytes (src dst : Z) : stM PageManager unit :=
  srcPtr ← PageIDToPtr src;
  dstPtr ← PageIDToPtr dst;
  modifyS (fun s => with_mem (store (mem s) dstPtr (load (mem s) srcPtr PageSize)) s).

(** [pm.Free(id)] with its error dropped. *)
Definition dropFree (id : Z) : stM PageManager unit := fun s =>
  match Free id s with
  | (s', Fail _) => (s', Ret tt)
  | r => r
  end.

(** [if err := m; err != nil { pm.Free(id); return h err }]. *)
Definition orFree {A} (ids : list Z) (h : gerr -> gerr) (m : stM PageManager A) : stM PageManager A := fun s =>
  match m s with
  | (s', Fail e) => foldr (fun id k => _ ← dropFree id; k) (failS (h e)) ids s'
  | r => r
  end.

Definition wrapAs (details : string) (err : gerr) : gerr := Wrap err details.

(** The page copied for a change, with the next version. *)
Definition cowCopy (id newRawID : Z) : stM PageManager unit :=
  _ ← copyPageBytes id newRawID;
  s ← getS;
  SetVersion newRawID (u64 (GetVersion s id + 1)).

Definition insertCopy (id newRawID : Z) (key value : bytes) : stM PageManager Z :=
  _ ← cowCopy id newRawID;
  s ← getS;
  r ← liftS (Search s newRawID key);
  if (r.2 : bool) then _ ← dropFree newRawID; failS (Sentinel ErrBTreeDuplicateKey)
  else
    _ ← orFree [newRawID] (wrapAs "leaf insert entry")
          (InsertLeafEntry newRawID r.1 key value (GetDataEnd s newRawID));
    mret newRawID.

Definition Insert (id : Z) (key value : bytes) : stM PageManager Z :=
  newRawID ← onErr Alloc (wrapAs "leaf insert alloc");
  insertCopy id newRawID key value.

(** Entries appended one after another from index [i]. *)
Fixpoint insertAll (id i : Z) (kvs : list (bytes * bytes)) (dataEnd : Z) : stM PageManager Z :=
  match kvs with
  | [] => mret dataEnd
  | kv :: kvs =>
      dataEnd' ← InsertLeafEntry id i kv.1 kv.2 dataEnd;
      insertAll id (i + 1) kvs dataEnd'
  end.

Definition errUpdateRange : gerr :=
  Wrap (Sentinel ErrBTreeKeyNotFound) "btree: leaf update: index out of range".
Definition errDeleteRange : gerr :=
  Wrap (Sentinel ErrBTreeKeyNotFound) "btree: leaf delete: index out of range".

(** [insertPos]: how many of the collected keys are smaller than [key]. *)
Fixpoint insertPosition (key : bytes) (kvs : list (bytes * bytes)) : nat :=
  match kvs with
  | kv :: kvs =>
      match bytes_compare kv.1 key with Lt => S (insertPosition key kvs) | _ => O end
  | [] => O
  end.

(** Change of the tombstone count when [old] is replaced by [new]. *)
Definition tombstoneOf (v : bytes) : outcome bool :=
  match ParseMVCC v with
  | Ret mv => Ret (IsTombstone mv)
  | Fail _ => Ret false
  | Panic => Panic
  end.

(** [Update], fast path: the new value fits the slot of the old one. *)
Definition updateInSlot (id idx newRawID : Z) (value : bytes) : stM PageManager bool :=
  _ ← cowCopy id newRawID;
  ok ← OverwriteLeafValue newRawID idx value;
  if (ok : bool) then mret true else _ ← dropFree newRawID; mret false.

(** [Update], slow path: the page is rebuilt. *)
Definition rebuildPage (id idx rebuildRawID : Z) (key value : bytes)
    (kvs : list (bytes * bytes)) : stM PageManager Z :=
  s ← getS;
  _ ← InitLeafPage rebuildRawID (u64 (GetVersion s id + 1));
  let insertPos := insertPosition key kvs in
  d1 ← orFree [rebuildRawID] (wrapAs "leaf update rebuild")
         (insertAll rebuildRawID 0 (take insertPos kvs) 0);
  d2 ← orFree [rebuildRawID] (wrapAs "leaf update reinsert")
         (InsertLeafEntry rebuildRawID (Z.of_nat insertPos) key value d1);
  _ ← orFree [rebuildRawID] (wrapAs "leaf update rebuild")
         (insertAll rebuildRawID (Z.of_nat insertPos + 1) (drop insertPos kvs) d2);
  s' ← getS;
  oldVal ← liftS (GetValueAt s' id idx);
  oldT ← liftS (tombstoneOf oldVal);
  newT ← liftS (tombstoneOf value);
  let tc := GetTombstoneCount s' id in
  let tc := if (oldT : bool) then u16 (tc - 1) else tc in
  let tc := if (newT : bool) then u16 (tc + 1) else tc in
  _ ← SetTombstoneCount rebuildRawID tc;
  mret rebuildRawID.

Definition updateRebuild (id idx : Z) (value : bytes) : stM PageManager Z :=
  s ← getS;
  key ← liftS (GetKeyAt s id idx);
  kvs ← liftS (CollectKVExcept s id idx);
  rebuildRawID ← onErr Alloc (wrapAs "leaf update rebuild alloc");
  rebuildPage id idx rebuildRawID key value kvs.

Definition Update (id idx : Z) (value : bytes) : stM PageManager Z :=
  s ← getS;
  if (idx <? 0) || (Count s id <=? idx) then failS errUpdateRange
  else
    e ← liftS (GetLeafEntry s id idx);
    if zlen value <=? le_valLen e then
      newRawID ← onErr Alloc (wrapAs "leaf update alloc");
      ok ← updateInSlot id idx newRawID value;
      if (ok : bool) then mret newRawID else updateRebuild id idx value
    else updateRebuild id idx value.

Definition deleteRebuild (id newRawID : Z) (kvs : list (bytes * bytes)) : stM PageManager Z :=
  s ← getS;
  _ ← InitLeafPage newRawID (u64 (GetVersion s id + 1));
  _ ← orFree [newRawID] (wrapAs "leaf delete rebuild") (insertAll newRawID 0 kvs 0);
  mret newRawID.

Definition Delete (id idx : Z) : stM PageManager Z :=
  s ← getS;
  if (idx <? 0) || (Count s id <=? idx) then failS errDeleteRange
  else
    kvs ← liftS (CollectKVExcept s id idx);
    newRawID ← onErr Alloc (wrapAs "leaf delete alloc");
    deleteRebuild id newRawID kvs.

(** [countTombstonesInRange]: reads the first byte of each value. *)
Fixpoint countTombstones (s : PageManager) (id start : Z) (n : nat) : outcome Z :=
  match n with
  | O => Ret 0
  | S n =>
      e ← GetLeafEntry s id start;
      tc ← countTombstones s id (start + 1) n;
      if (1 <=? le_valLen e) && (byteAt (mem s) (getPtr id + le_valOff e) =? FlagTombstone)
      then Ret (u16 (tc + 1)) else Ret tc
  end.

Definition splitFill (id mid count leftRawID rightRawID : Z) : stM PageManager unit :=
  s ← getS;
  let version := u64 (GetVersion s id + 1) in
  _ ← orFree [leftRawID; rightRawID] (wrapAs "leaf split left bulk init")
        (BulkInitLeafFromSource id leftRawID 0 mid);
  _ ← SetVersion leftRawID version;
  _ ← orFree [leftRawID; rightRawID] (wrapAs "leaf split right bulk init")
        (BulkInitLeafFromSource id rightRawID mid count);
  _ ← SetVersion rightRawID version;
  s' ← getS;
  leftTC ← liftS (countTombstones s' id 0 (Z.to_nat mid));
  rightTC ← liftS (countTombstones s' id mid (Z.to_nat (count - mid)));
  _ ← SetTombstoneCount leftRawID leftTC;
  SetTombstoneCount rightRawID rightTC.

Definition errSplitMinKeys : gerr :=
  NexError ErrBTreeNotImplemented "leaf split: page has entries".

Definition Split (id : Z) : stM PageManager (Z * Z * bytes) :=
  s ← getS;
  let count := Count s id in
  if count <? 2 then failS errSplitMinKeys
  else
    let mid := Z.quot count 2 in
    splitKey ← liftS (GetKeyAt s id mid);
    leftRawID ← onErr Alloc (wrapAs "leaf split alloc left");
    rightRawID ← orFree [leftRawID] (wrapAs "leaf split alloc right") Alloc;
    _ ← splitFill id mid count leftRawID rightRawID;
    mret (leftRawID, rightRawID, splitKey).

Definition IncrementTombstoneOf (id : Z) : stM PageManager unit := IncrementTombstone id.
Definition DecrementTombstoneOf (id : Z) : stM PageManager unit := DecrementTombstone id.

Definition TryInPlace (s : PageManager) (id idx : Z) (value : bytes) : outcome bool :=
  e ← GetLeafEntry s id idx; Ret (zlen value <=? le_valLen e).

Fixpoint validateLoop (s : PageManager) (id i : Z) (n : nat) : outcome unit :=
  match n with
  | O => Ret tt
  | S n =>
      prev ← GetKeyAt s id (i - 1);
      curr ← GetKeyAt s id i;
      match bytes_compare prev curr with
      | Lt => validateLoop s id (i + 1) n
      | _ => Fail (NexError ErrBTreeInvalidPage "leaf validate: key ordering violation")
      end
  end.
Definition Validate (s : PageManager) (id : Z) : outcome unit :=
  validateLoop s id 1 (Z.to_nat (Count s id - 1)).

(** ** States that differ by pages that were not in use *)

(** [s'] is reached from [s] by allocating the pages [news] and writing to
    pages that were not live. *)
Record grew (news : list Z) (s s' : PageManager) : Prop := {
  gr_ok : pm_ok s';
  gr_total : total s' = total s;
  gr_avail : avail s' = avail s - zlen news;
  gr_live : forall q, live s' q <-> live s q \/ q ∈ news;
  gr_fresh : forall q, q ∈ news -> ~ live s q /\ 0 <= q < total s;
  gr_nodup : NoDup news;
  gr_same : forall q x, live s q -> getPtr q <= x < getPtr q + PageSize ->
            byteAt (mem s') x = byteAt (mem s) x
}.

Lemma grew_refl s : pm_ok s -> grew [] s s.
Proof.
  constructor; try done.
  - rewrite zlen_nil. lia.
  - intros q. rewrite elem_of_nil. tauto.
  - intros q Hq. by apply elem_of_nil in Hq.
  - constructor.
Qed.

Lemma grew_alloc news s s1 :
  grew news s s1 -> 0 < avail s1 ->
  exists p s2, Alloc s1 = (s2, Ret p) /\ grew (p :: news) s s2 /\ only_page p s1 (with_mem (mem s2) s1).
Proof.
  intros [Hok Ht Ha Hl Hf Hn Hs] Hav. destruct (Alloc_post s1 Hok Hav) as (p & s2 & E & Hp).
  assert (Hpn : ~ live s p /\ p ∉ news).
  { pose proof (ap_fresh _ _ _ Hp) as Hfr. rewrite Hl in Hfr. tauto. }
  exists p, s2. split; [done|]. split; [constructor|constructor; [|done]].
  - apply Hp.
  - rewrite (ap_total _ _ _ Hp). done.
  - rewrite (ap_avail _ _ _ Hp), zlen_cons. lia.
  - intros q. rewrite (ap_live _ _ _ Hp), Hl, elem_of_cons. tauto.
  - intros q Hq. apply elem_of_cons in Hq as [->|Hq]; [|by apply Hf].
    split; [tauto|]. rewrite <- Ht. apply Hp.
  - constructor; tauto.
  - intros q x Hq Hx. rewrite <- (Hs q x Hq Hx). apply (ap_mem _ _ _ Hp).
    assert (q <> p) by (intros ->; tauto). off_lia.
  - intros x Hx. apply (ap_mem _ _ _ Hp). off_lia.
Qed.

Lemma grew_only news s s1 p s2 :
  grew news s s1 -> only_page p s1 s2 -> ~ live s p -> grew news s s2.
Proof.
  intros [Hok Ht Ha Hl Hf Hn Hs] [Ho ->] Hp.
  constructor; try done; [by apply pm_ok_mem|].
  intros q x Hq Hx. rewrite <- (Hs q x Hq Hx). apply Ho.
  assert (q <> p) by (by intros ->). off_lia.
Qed.

Lemma grew_free news s s1 p :
  grew (p :: news) s s1 -> exists s2, Free p s1 = (s2, Ret tt) /\ grew news s s2.
Proof.
  intros [Hok Ht Ha Hl Hf Hn Hs].
  destruct (Free_post s1 p Hok) as (s2 & E & Hp); [apply Hl; right; by left|].
  apply NoDup_cons in Hn as [Hpn Hn]. destruct (Hf p ltac:(by left)) as [Hpl _].
  exists s2. split; [done|]. constructor; try done.
  - apply Hp.
  - rewrite (fp_total _ _ _ Hp). done.
  - rewrite (fp_avail _ _ _ Hp), Ha, zlen_cons. lia.
  - intros q. rewrite (fp_live _ _ _ Hp), Hl, elem_of_cons. split; [tauto|].
    intros [Hq|Hq]; (split; [tauto|]); intros ->; tauto.
  - intros q Hq. apply Hf. by right.
  - intros q x Hq Hx. rewrite <- (Hs q x Hq Hx). apply (fp_mem _ _ _ Hp).
    assert (q <> p) by (intros ->; tauto). off_lia.
Qed.

Lemma grew_swap p q news s s1 : grew (p :: q :: news) s s1 -> grew (q :: p :: news) s s1.
Proof.
  assert (Hp : p :: q :: news ≡ₚ q :: p :: news) by apply perm_swap.
  intros [Hok Ht Ha Hl Hf Hn Hs]. constructor; try done.
  - intros r. rewrite Hl. by rewrite Hp.
  - intros r Hr. apply Hf. by rewrite Hp.
  - by rewrite <- Hp.
Qed.

Lemma grew_page `{EntryLayout A entry} news s s1 q ty d es :
  grew news s s1 -> live s q -> page_ok (entry := entry) ty s q d es -> page_ok (entry := entry) ty s1 q d es.
Proof.
  intros Hg Hq. apply page_ok_same. intros o Ho. apply (gr_same _ _ _ Hg q); [done|off_lia].
Qed.

Lemma grew_field news s s1 q f : grew news s s1 -> live s q -> getField s1 q f = getField s q f.
Proof.
  intros Hg Hq. unfold getField. apply loadU_ext. intros i Hi.
  apply (gr_same _ _ _ Hg q); [done|]. pose proof (field_bounds f). off_lia.
Qed.

Lemma grew_trans n1 n2 s s1 s2 : grew n1 s s1 -> grew n2 s1 s2 -> grew (n2 ++ n1) s s2.
Proof.
  intros [Hok Ht Ha Hl Hf Hn Hs] [Hok2 Ht2 Ha2 Hl2 Hf2 Hn2 Hs2]. constructor; try done; try lia.
  - rewrite Ha2, Ha. unfold zlen. rewrite length_app. lia.
  - intros q. rewrite Hl2, Hl, elem_of_app. tauto.
  - intros q [Hq|Hq]%elem_of_app; [|by apply Hf]. destruct (Hf2 q Hq) as [Hq1 Hq2]. rewrite Hl in Hq1. split; [tauto|lia].
  - apply NoDup_app. split; [done|]. split; [|done]. intros q Hq Hq1. destruct (Hf2 q Hq) as [Hq2 _].
    apply Hq2, Hl. by right.
  - intros q x Hq Hx. rewrite (Hs2 q), (Hs q); [done|done|done| |done]. apply Hl. by left.
Qed.

Lemma live_range s p : live s p -> 0 <= p < total s.
Proof. unfold live. lia. Qed.

Lemma dropFree_eq p s s' : Free p s = (s', Ret tt) -> dropFree p s = (s', Ret tt).
Proof. unfold dropFree. by intros ->. Qed.

Lemma orFree_ret {A} ids h (m : stM PageManager A) s s' a :
  m s = (s', Ret a) -> orFree ids h m s = (s', Ret a).
Proof. unfold orFree. by intros ->. Qed.

Lemma orFree_fail1 {A} h (m : stM PageManager A) s0 s s' news p e :
  m s = (s', Fail e) -> grew (p :: news) s0 s' ->
  exists s2, orFree [p] h m s = (s2, Fail (h e)) /\ grew news s0 s2.
Proof.
  intros E Hg. destruct (grew_free _ _ _ _ Hg) as (s2 & Ef & Hg2). exists s2. split; [|done].
  unfold orFree. rewrite E. cbn [foldr]. by rewrite (stM_bind_ret _ _ _ _ _ (dropFree_eq _ _ _ Ef)).
Qed.

(** *** Copying a page *)

Lemma cowCopy_ok s id new :
  0 <= id < total s -> 0 <= new < total s -> id <> new ->
  exists s', cowCopy id new s = (s', Ret tt) /\ only_page new s s' /\ same_page s s' id new /\
    getField s' new hVersion = u64 (GetVersion s id + 1) /\
    forall f, f <> hVersion -> getField s' new f = getField s id f.
Proof.
  intros Hid Hnew Hne.
  set (m1 := store (mem s) (getPtr new) (load (mem s) (getPtr id) PageSize)).
  assert (Hcopy : forall o, 0 <= o < PageSize -> byteAt m1 (getPtr new + o) = byteAt (mem s) (getPtr id + o)).
  { intros o Ho. unfold m1. rewrite byteAt_copy by lia. f_equal. lia. }
  assert (Hout : forall x, x < getPtr new \/ getPtr new + PageSize <= x -> byteAt m1 x = byteAt (mem s) x).
  { intros x Hx. apply byteAt_store_out. rewrite load_length. off_lia. }
  assert (Hv : GetVersion (with_mem m1 s) id = GetVersion s id).
  { unfold GetVersion, getField. apply loadU_ext. intros i Hi. apply Hout. off_lia. }
  exists (setField new hVersion (u64 (GetVersion s id + 1)) (with_mem m1 s)).
  split; [|split; [|split; [|split]]].
  - unfold cowCopy, copyPageBytes.
    rewrite (stM_bind_ret _ _ _ (with_mem m1 s) tt).
    2:{ rewrite (stM_bind_ret _ _ _ _ _ (PageIDToPtr_ok id s (proj2 Hid))).
        by rewrite (stM_bind_ret _ _ _ _ _ (PageIDToPtr_ok new s (proj2 Hnew))). }
    rewrite stM_bind_get, Hv. reflexivity.
  - apply (only_page_trans _ _ (with_mem m1 s)); [|apply only_page_setField]. constructor; [|done].
    intros x Hx. by apply Hout.
  - intros o Ho. rewrite <- Hcopy by off_lia. unfold setField. cbn [mem with_mem].
    apply byteAt_storeU. off_lia.
  - rewrite getField_setField_same. apply Z.mod_small. apply u64_range.
  - intros f Hf. rewrite getField_setField_other by done. unfold getField. cbn [mem with_mem].
    apply loadU_ext. intros i Hi. rewrite <- !Z.add_assoc. apply Hcopy. pose proof (field_bounds f). off_lia.
Qed.

(** *** The end of the data area of a copy *)

Lemma minKeyOff_same m m' p p' : forall n i acc,
  (forall j, i <= j < i + Z.of_nat n -> load m' (slot p' j) 16 = load m (slot p j) 16) ->
  minKeyOff m' p' i n acc = minKeyOff m p i n acc.
Proof.
  induction n as [|n IH]; intros i acc H; [done|]. cbn [minKeyOff].
  assert (E : loadU 4 m' (slot p' i) = loadU 4 m (slot p i)).
  { rewrite <- (Z.add_0_r (slot p i)), <- (Z.add_0_r (slot p' i)). apply loadU_slot; [apply H|..]; lia. }
  rewrite E. cbv zeta. apply IH. intros j Hj. apply H. lia.
Qed.

Lemma GetDataEnd_same `{EntryLayout A entry} ty s s' p p' d es :
  page_of entry ty s p d es -> same_page s s' p p' -> GetDataEnd s' p' = GetDataEnd s p.
Proof.
  intros Hp Hs. pose proof (page_of_same _ _ _ _ _ _ _ Hs Hp) as Hp'.
  unfold GetDataEnd. rewrite (po_count _ _ _ _ _ _ Hp), (po_count _ _ _ _ _ _ Hp').
  destruct (zlen es =? 0); [done|]. do 3 f_equal. apply minKeyOff_same.
  intros j Hj. apply load_ext. intros i Hi. unfold slot. rewrite <- !Z.add_assoc. apply Hs.
  pose proof (po_fit _ _ _ _ _ _ Hp). pose proof (po_data _ _ _ _ _ _ Hp). off_lia.
Qed.

Lemma page_ok_tight `{EntryLayout A entry} ty s p d es :
  page_ok (entry := entry) ty s p d es -> page_ok (entry := entry) ty s p (GetDataEnd s p) es.
Proof. intros [Hp Hd]. split; [|done]. by eapply GetDataEnd_ok. Qed.

Lemma Search_ok s p d es key :
  leaf_page s p d es -> keys_sorted (es.*1) ->
  Search s p key = Ret (Z.of_nat (lower_bound key (es.*1)), bool_decide (key ∈ es.*1)).
Proof.
  intros Hp Hs. unfold Search.
  by rewrite (SearchKey_ok s p true (es.*1) key (leaf_page_keys _ _ _ _ Hp) Hs).
Qed.

(** *** Insert *)

(** The entry fits next to the [n] entries and the data of the page. *)
Definition fits (s : PageManager) (id : Z) (n : Z) (kv : bytes * bytes) : Prop :=
  SizeofPageHeader + (n + 1) * 16 + GetDataEnd s id + leaf_size kv <= PageSize.

#[export] Instance fits_dec s id n kv : Decision (fits s id n kv).
Proof. unfold fits. apply _. Defined.

(** The first steps of a copying change: a fresh page with the same entries. *)
Lemma cow_started `{EntryLayout A entry} ty s id d es :
  pm_ok s -> live s id -> page_ok (entry := entry) ty s id d es -> 0 < avail s ->
  exists new s1 s2, Alloc s = (s1, Ret new) /\ cowCopy id new s1 = (s2, Ret tt) /\
    grew [new] s s2 /\ page_ok (entry := entry) ty s2 new (GetDataEnd s id) es /\
    GetDataEnd s2 new = GetDataEnd s id /\ getField s2 new hVersion = u64 (GetVersion s id + 1) /\
    (forall f, f <> hVersion -> getField s2 new f = getField s id f) /\ ~ live s new.
Proof.
  intros Hpm Hlive Hok Hav.
  destruct (grew_alloc [] s s (grew_refl s Hpm) Hav) as (new & s1 & E1 & Hg1 & _).
  destruct (gr_fresh _ _ _ Hg1 new ltac:(by left)) as [Hnl Hnr].
  destruct (cowCopy_ok s1 id new) as (s2 & E2 & Ho2 & Hsp & Hv2 & Ht2).
  { rewrite (gr_total _ _ _ Hg1). by apply live_range. }
  { by rewrite (gr_total _ _ _ Hg1). }
  { by intros ->. }
  pose proof (grew_page _ _ _ _ _ _ _ Hg1 Hlive Hok) as Hok1.
  assert (Hok2 := page_ok_tight _ _ _ _ _ (page_ok_same _ _ _ _ _ _ _ Hsp Hok1)).
  assert (Hde : GetDataEnd s2 new = GetDataEnd s id).
  { rewrite (GetDataEnd_same _ _ _ _ _ _ _ (proj1 Hok1) Hsp).
    apply (GetDataEnd_same _ _ _ _ _ _ _ (proj1 Hok)). intros o Ho.
    apply (gr_same _ _ _ Hg1 id); [done|off_lia]. }
  rewrite Hde in Hok2. exists new, s1, s2. split; [done|]. split; [done|].
  split; [by eapply grew_only|]. split; [done|]. split; [done|]. split.
  - rewrite Hv2. f_equal. unfold GetVersion. by rewrite (grew_field _ _ _ _ _ Hg1 Hlive).
  - split; [|done]. intros f Hf. rewrite Ht2 by done. by rewrite (grew_field _ _ _ _ _ Hg1 Hlive).
Qed.

Lemma Insert_ok s id d es key value :
  pm_ok s -> live s id -> leaf_ok s id d es -> keys_sorted (es.*1) -> 0 < avail s ->
  leaf_size (key, value) < 2 ^ 31 ->
  if decide (key ∈ es.*1) then
    exists s', Insert id key value s = (s', Fail (Sentinel ErrBTreeDuplicateKey)) /\ grew [] s s'
  else if decide (fits s id (zlen es) (key, value)) then
    exists new s', Insert id key value s = (s', Ret new) /\ grew [new] s s' /\
      leaf_ok s' new (GetDataEnd s id + leaf_size (key, value))
        (insert_at (lower_bound key (es.*1)) (key, value) es) /\
      getField s' new hVersion = u64 (GetVersion s id + 1) /\
      getField s' new hTombstoneCount = getField s id hTombstoneCount
  else exists s', Insert id key value s = (s', Fail (Wrap errPageFull "leaf insert entry")) /\ grew [] s s'.
Proof.
  intros Hpm Hlive Hok Hsort Hav Hsz.
  destruct (cow_started (entry := leaf_entry) PageTypeLeaf s id d es) as (new & s1 & s2 & E1 & E2 & Hg2 & Hok2 & Hds & Hv2 & Ht2 & Hnl); auto.
  assert (EI : Insert id key value s = insertCopy id new key value s1).
  { unfold Insert. by rewrite (stM_bind_ret _ _ _ _ _ (onErr_ret _ _ _ _ _ E1)). }
  assert (EC : insertCopy id new key value s1 =
    (if bool_decide (key ∈ es.*1) then _ ← dropFree new; failS (Sentinel ErrBTreeDuplicateKey)
     else _ ← orFree [new] (wrapAs "leaf insert entry")
            (InsertLeafEntry new (Z.of_nat (lower_bound key (es.*1))) key value (GetDataEnd s2 new));
          mret new) s2).
  { unfold insertCopy. rewrite (stM_bind_ret _ _ _ _ _ E2), stM_bind_get.
    rewrite (Search_ok s2 new _ es key (proj1 Hok2) Hsort), stM_bind_lift. cbn [fst snd].
    by destruct (bool_decide _). }
  rewrite EI, EC. clear EI EC.
  rewrite Hds. destruct (decide (key ∈ es.*1)) as [Hin|Hnin].
  - rewrite bool_decide_true by done. destruct (grew_free _ _ _ _ Hg2) as (s3 & Ef & Hg3).
    exists s3. by rewrite (stM_bind_ret _ _ _ _ _ (dropFree_eq _ _ _ Ef)).
  - rewrite bool_decide_false by done.
    assert (Hlb : (lower_bound key (es.*1) <= length es)%nat)
      by (rewrite <- (length_fmap fst es); apply lower_bound_le).
    destruct (decide _) as [Hfit|Hnfit].
    + destruct (InsertLeafEntry_ok s2 new _ es _ key value Hok2 Hlb Hfit) as (s3 & E3 & Hok3 & Ho3 & Hf3).
      exists new, s3. rewrite (stM_bind_ret _ _ _ _ _ (orFree_ret _ _ _ _ _ _ E3)).
      split; [done|]. split; [by eapply grew_only|]. split; [done|]. split.
      * by rewrite Hf3, Hv2 by done.
      * by rewrite Hf3, Ht2.
    + unfold fits in Hnfit. unfold leaf_size in *. cbn [fst snd] in *.
      destruct (orFree_fail1 (wrapAs "leaf insert entry")
        (InsertLeafEntry new (Z.of_nat (lower_bound key (es.*1))) key value (GetDataEnd s id))
        s s2 s2 [] new errPageFull) as (s3 & E3 & Hg3); [|done|].
      { apply (InsertLeafEntry_full s2 new _ _ key value (zlen es)); try apply Hok2; try lia. apply zlen_nonneg. }
      exists s3. by rewrite (stM_bind_fail _ _ _ _ _ E3).
Qed.

(** *** Appending entries *)

Abbreviation kv_size := (data_size (entry := leaf_entry)).

Lemma insertAll_ok p l : forall s acc dd,
  leaf_ok s p dd acc ->
  SizeofPageHeader + (zlen acc + zlen l) * 16 + dd + kv_size l <= PageSize ->
  exists s', insertAll p (zlen acc) l dd s = (s', Ret (dd + kv_size l)) /\
    leaf_ok s' p (dd + kv_size l) (acc ++ l) /\ only_page p s s' /\
    (forall f, f <> hCount -> getField s' p f = getField s p f).
Proof.
  induction l as [|[k v] l IH]; intros s acc dd Hok Hfit; cbn [insertAll].
  { exists s. cbn. rewrite app_nil_r, Z.add_0_r. split; [done|]. split; [done|].
    split; [apply only_page_refl|done]. }
  rewrite zlen_cons in Hfit. cbn [data_size entry_size leaf_layout] in Hfit |- *.
  pose proof (data_size_nonneg (entry := leaf_entry) l). pose proof (zlen_nonneg l).
  destruct (InsertLeafEntry_ok s p dd acc (length acc) k v Hok) as (s1 & E & Hok1 & Ho1 & Hf1); [lia|lia|].
  change (Z.of_nat (length acc)) with (zlen acc) in E. rewrite (stM_bind_ret _ _ _ _ _ E).
  rewrite insert_at_end in Hok1. rewrite Z.add_assoc.
  destruct (IH s1 (acc ++ [(k, v)]) (dd + leaf_size (k, v))) as (s' & E' & Hok' & Ho' & Hf'); auto.
  { rewrite zlen_app, zlen_cons, zlen_nil. lia. }
  rewrite zlen_app, zlen_cons, zlen_nil, Z.add_0_r in E'. rewrite <- app_assoc in Hok'.
  exists s'. split; [exact E'|]. split; [exact Hok'|]. split; [by eapply only_page_trans|].
  intros f Hf. by rewrite Hf', Hf1.
Qed.

(** Appending stops with ErrOffHeapPageFull when the entries do not fit. *)
Lemma insertAll_full p l : forall s acc dd,
  leaf_ok s p dd acc -> Forall (fun kv => leaf_size kv < 2 ^ 31) l ->
  PageSize < SizeofPageHeader + (zlen acc + zlen l) * 16 + dd + kv_size l ->
  exists s', insertAll p (zlen acc) l dd s = (s', Fail errPageFull) /\ only_page p s s'.
Proof.
  induction l as [|[k v] l IH]; intros s acc dd Hok Hsz Hover; cbn [insertAll].
  { pose proof (po_fit _ _ _ _ _ _ (proj1 Hok)). rewrite zlen_nil in Hover. cbn in Hover. lia. }
  apply Forall_cons in Hsz as [Hkv Hsz]. rewrite zlen_cons in Hover.
  cbn [data_size entry_size leaf_layout] in Hover.
  destruct (decide (SizeofPageHeader + (zlen acc + 1) * 16 + dd + leaf_size (k, v) <= PageSize)) as [Hfit|Hn].
  - destruct (InsertLeafEntry_ok s p dd acc (length acc) k v Hok) as (s1 & E & Hok1 & Ho1 & _); [lia|done|].
    change (Z.of_nat (length acc)) with (zlen acc) in E. rewrite (stM_bind_ret _ _ _ _ _ E).
    rewrite insert_at_end in Hok1.
    destruct (IH s1 (acc ++ [(k, v)]) (dd + leaf_size (k, v))) as (s' & E' & Ho'); auto.
    { rewrite zlen_app, zlen_cons, zlen_nil. lia. }
    rewrite zlen_app, zlen_cons, zlen_nil, Z.add_0_r in E'.
    exists s'. split; [exact E'|]. by eapply only_page_trans.
  - exists s. split; [|apply only_page_refl]. cbn [fst snd]. unfold leaf_size in *. cbn [fst snd] in *.
    rewrite (stM_bind_fail _ _ _ s errPageFull); [done|].
    apply (InsertLeafEntry_full s p _ dd k v (zlen acc)); try apply Hok; try lia. apply zlen_nonneg.
Qed.

(** A fresh page initialised as an empty leaf. *)
Lemma fresh_leaf s id new v news s0 :
  grew (new :: news) s0 s -> ~ live s0 new ->
  exists s', InitLeafPage new v s = (s', Ret tt) /\ grew (new :: news) s0 s' /\ leaf_ok s' new 0 [] /\
    only_page new s s' /\ getField s' new hVersion = u64 v /\
    (id <> new -> forall f, getField s' id f = getField s id f).
Proof.
  intros Hg Hn. destruct (InitPage_ok (entry := leaf_entry) s new PageTypeLeaf v) as
    (s1 & E & Hp & Ho & Hv & _); [unfold PageTypeLeaf; lia|].
  exists s1. split; [done|]. split; [by eapply grew_only|].
  split; [split; [done|apply disjoint_nil]|]. split; [done|]. split; [done|].
  intros Hid f. by apply (only_page_field new).
Qed.

(** *** Delete *)

Lemma data_size_remove es i : kv_size (remove_at i es) <= kv_size es.
Proof.
  unfold remove_at. rewrite data_size_app. rewrite <- (take_drop i es) at 3. rewrite data_size_app.
  pose proof (data_size_nonneg (entry := leaf_entry) (drop i es)) as H.
  rewrite <- (take_drop 1 (drop i es)), drop_drop, Nat.add_1_r in H |- * .
  rewrite data_size_app in H |- *. pose proof (data_size_nonneg (entry := leaf_entry) (take 1 (drop i es))). lia.
Qed.

Lemma remove_at_length {A} i (l : list A) : (i < length l)%nat -> length (remove_at i l) = (length l - 1)%nat.
Proof. intros. unfold remove_at. rewrite length_app, length_take, length_drop. lia. Qed.

Lemma Delete_ok s id d es idx :
  pm_ok s -> live s id -> leaf_ok s id d es -> 0 < avail s -> (idx < length es)%nat ->
  exists new s', Delete id (Z.of_nat idx) s = (s', Ret new) /\ grew [new] s s' /\
    leaf_ok s' new (kv_size (remove_at idx es)) (remove_at idx es).
Proof.
  intros Hpm Hlive Hok Hav Hidx. pose proof Hok as [Hp _].
  destruct (grew_alloc [] s s (grew_refl s Hpm) Hav) as (new & s1 & E1 & Hg1 & _).
  destruct (gr_fresh _ _ _ Hg1 new ltac:(by left)) as [Hnl _].
  destruct (fresh_leaf s1 id new (u64 (GetVersion s1 id + 1)) [] s Hg1 Hnl) as (s2 & E2 & Hg2 & Hok2 & _).
  destruct (insertAll_ok new (remove_at idx es) s2 [] 0 Hok2) as (s3 & E3 & Hok3 & Ho3 & _).
  { pose proof (data_size_le _ _ _ _ _ Hok). pose proof (data_size_remove es idx).
    pose proof (po_fit _ _ _ _ _ _ Hp). unfold zlen in *. rewrite remove_at_length by done. cbn. lia. }
  exists new, s3. split; [|split; [by eapply grew_only|exact Hok3]].
  unfold Delete. rewrite stM_bind_get. unfold Count. rewrite (po_count _ _ _ _ _ _ Hp).
  rewrite (proj2 (Z.ltb_ge _ 0)), (proj2 (Z.leb_gt _ _)) by (unfold zlen; lia). cbn [orb].
  rewrite (CollectKVExcept_ok s id d es idx Hp), stM_bind_lift.
  rewrite (stM_bind_ret _ _ _ _ _ (onErr_ret _ _ _ _ _ E1)). unfold deleteRebuild.
  rewrite stM_bind_get, (stM_bind_ret _ _ _ _ _ E2).
  rewrite zlen_nil in E3. by rewrite (stM_bind_ret _ _ _ _ _ (orFree_ret _ _ _ _ _ _ E3)).
Qed.

(** *** Update *)

Lemma insertPosition_ok (es : list (bytes * bytes)) idx k v :
  keys_sorted (es.*1) -> es !! idx = Some (k, v) -> insertPosition k (remove_at idx es) = idx.
Proof.
  revert idx. induction es as [|[k0 v0] es IH]; intros idx Hs Hi; [done|].
  inversion Hs as [|? ? Hs' Hall]; subst. clear Hs. rename Hs' into Hs. cbn [fst] in Hall.
  destruct idx as [|idx].
  - injection Hi as -> ->. change (remove_at 0 ((k, v) :: es)) with es.
    destruct es as [|[k1 v1] es]; [done|]. cbn [insertPosition fst].
    apply Forall_cons in Hall as [Hlt _]. cbn [fst] in Hlt.
    apply bytes_compare_gt in Hlt. by rewrite Hlt.
  - cbn in Hi. change (remove_at (S idx) ((k0, v0) :: es)) with ((k0, v0) :: remove_at idx es).
    cbn [insertPosition fst]. rewrite Forall_forall in Hall.
    assert (bytes_lt k0 k) as ->; [|by rewrite IH].
    apply Hall. apply list_elem_of_fmap. exists (k, v). split; [done|]. by eapply list_elem_of_lookup_2.
Qed.

Lemma take_remove_at {A} i (l : list A) : (i <= length l)%nat -> take i (remove_at i l) = take i l.
Proof. intros. unfold remove_at. rewrite take_app_le by (rewrite length_take; lia). by rewrite take_take, Nat.min_id. Qed.
Lemma drop_remove_at {A} i (l : list A) : (i <= length l)%nat -> drop i (remove_at i l) = drop (S i) l.
Proof.
  intros. unfold remove_at. rewrite drop_app_ge by (rewrite length_take; lia).
  by rewrite length_take_le, Nat.sub_diag by lia.
Qed.
Lemma insert_split {A} i (x : A) l : (i < length l)%nat -> <[i := x]> l = take i l ++ [x] ++ drop (S i) l.
Proof. intros. by rewrite insert_take_drop. Qed.

(** The three appending steps of the rebuild, as one list. *)
Lemma data_size_update (es : list (bytes * bytes)) i kv : (i < length es)%nat ->
  kv_size (<[i := kv]> es) = kv_size (take i es) + leaf_size kv + kv_size (drop (S i) es).
Proof. intros. rewrite insert_split by done. rewrite !data_size_app. cbn. lia. Qed.

(** What is left of a failed rebuild. *)
Definition rebuild_fails (s0 : PageManager) (news : list Z) (r : PageManager * outcome Z) : Prop :=
  exists s' e, r = (s', Fail e) /\ IsErr e ErrOffHeapPageFull = true /\ grew news s0 s'.

Lemma rebuild_fails_bind {A} p news s0 s s1 h (m : stM PageManager A) (f : A -> stM PageManager Z) :
  m s = (s1, Fail errPageFull) -> grew (p :: news) s0 s1 ->
  rebuild_fails s0 news ((x ← orFree [p] (wrapAs h) m; f x) s).
Proof.
  intros E Hg. destruct (orFree_fail1 (wrapAs h) m s0 s s1 news p errPageFull E Hg) as (s2 & E2 & Hg2).
  exists s2, (wrapAs h errPageFull). rewrite (stM_bind_fail _ _ _ _ _ E2). split; [done|]. split; [|done].
  unfold wrapAs, Wrap, mergeNexError, errPageFull. by destruct h.
Qed.

Section rebuild.
Context (s : PageManager) (id d : Z) (es : list (bytes * bytes)) (idx : nat) (k v v' : bytes).
Context (Hpm : pm_ok s) (Hlive : live s id) (Hok : leaf_ok s id d es) (Hsort : keys_sorted (es.*1)).
Context (Hav : 0 < avail s) (Hidx : es !! idx = Some (k, v)) (Hsz : leaf_size (k, v') < 2 ^ 31).

Local Definition sizes_small : Forall (fun kv => leaf_size kv < 2 ^ 31) es.
Proof.
  apply Forall_forall. intros kv Hin. pose proof (data_size_le _ _ _ _ _ Hok) as Hd.
  pose proof (po_fit _ _ _ _ _ _ (proj1 Hok)). pose proof (zlen_nonneg es).
  apply list_elem_of_lookup in Hin as [i Hi]. pose proof (lookup_lt_Some _ _ _ Hi).
  rewrite <- (list_insert_id es i kv Hi), data_size_update in Hd by done.
  pose proof (data_size_nonneg (entry := leaf_entry) (take i es)).
  pose proof (data_size_nonneg (entry := leaf_entry) (drop (S i) es)). off_lia.
Qed.

(** The steps from the initialised page [new] on. *)
Lemma rebuild_steps s1 new (Hg : grew [new] s s1) (Hnew : leaf_ok s1 new 0 []) (Hn : ~ live s new) :
  let steps :=
    d1 ← orFree [new] (wrapAs "leaf update rebuild") (insertAll new 0 (take idx es) 0);
    d2 ← orFree [new] (wrapAs "leaf update reinsert") (InsertLeafEntry new (Z.of_nat idx) k v' d1);
    orFree [new] (wrapAs "leaf update rebuild") (insertAll new (Z.of_nat idx + 1) (drop (S idx) es) d2) in
  if decide (SizeofPageHeader + zlen es * 16 + kv_size (<[idx := (k, v')]> es) <= PageSize)
  then exists s2, steps s1 = (s2, Ret (kv_size (<[idx := (k, v')]> es))) /\ grew [new] s s2 /\
         leaf_ok s2 new (kv_size (<[idx := (k, v')]> es)) (<[idx := (k, v')]> es) /\
         (forall g, g <> hCount -> getField s2 new g = getField s1 new g)
  else rebuild_fails s [] (steps s1).
Proof.
  cbv zeta. pose proof (lookup_lt_Some _ _ _ Hidx) as Hlt. pose proof sizes_small as Hsm.
  assert (Hlen : zlen es = Z.of_nat idx + 1 + zlen (drop (S idx) es))
    by (unfold zlen; rewrite length_drop; lia).
  assert (Htk : zlen (take idx es) = Z.of_nat idx) by (unfold zlen; rewrite length_take; lia).
  pose proof (data_size_nonneg (entry := leaf_entry) (drop (S idx) es)).
  pose proof (data_size_nonneg (entry := leaf_entry) (take idx es)).
  pose proof (zlen_nonneg (drop (S idx) es)).
  destruct (insertAll_ok new (take idx es) s1 [] 0 Hnew) as (s2 & E2 & Hok2 & Ho2 & Hf2).
  { pose proof (data_size_le _ _ _ _ _ Hok) as Hd. pose proof (po_fit _ _ _ _ _ _ (proj1 Hok)).
    rewrite <- (take_drop idx es), data_size_app in Hd.
    pose proof (data_size_nonneg (entry := leaf_entry) (drop idx es)).
    rewrite zlen_nil. unfold zlen in *. rewrite length_take. lia. }
  rewrite zlen_nil in E2. cbn [app] in Hok2. rewrite Z.add_0_l in E2, Hok2.
  pose proof (grew_only _ _ _ _ _ Hg Ho2 Hn) as Hg2.
  rewrite (stM_bind_ret _ _ _ _ _ (orFree_ret _ _ _ _ _ _ E2)).
  rewrite data_size_update by done.
  assert (Hlen2 : (idx <= length (take idx es))%nat) by (rewrite length_take; lia).
  destruct (decide (SizeofPageHeader + (zlen (take idx es) + 1) * 16 + kv_size (take idx es) + leaf_size (k, v') <= PageSize))
    as [Hfit|Hnfit].
  2:{ rewrite decide_False by lia. eapply rebuild_fails_bind; [|exact Hg2].
      unfold leaf_size in *. cbn [fst snd] in *.
      apply (InsertLeafEntry_full s2 new _ _ k v' (zlen (take idx es))); try apply Hok2; try lia. }
  destruct (InsertLeafEntry_ok s2 new _ _ idx k v' Hok2 Hlen2 Hfit) as (s3 & E3 & Hok3 & Ho3 & Hf3).
  pose proof (grew_only _ _ _ _ _ Hg2 Ho3 Hn) as Hg3.
  rewrite (stM_bind_ret _ _ _ _ _ (orFree_ret _ _ _ _ _ _ E3)).
  assert (Hins : insert_at idx (k, v') (take idx es) = take idx es ++ [(k, v')]).
  { rewrite <- (insert_at_end (k, v') (take idx es)). by rewrite length_take_le by lia. }
  rewrite Hins in Hok3.
  assert (Hacc : zlen (take idx es ++ [(k, v')]) = Z.of_nat idx + 1)
    by (rewrite zlen_app, zlen_cons, zlen_nil; lia).
  destruct (decide _) as [Htot|Hntot].
  - destruct (insertAll_ok new (drop (S idx) es) s3 _ _ Hok3) as (s4 & E4 & Hok4 & Ho4 & Hf4); [lia|].
    rewrite Hacc in E4. exists s4. rewrite (orFree_ret _ _ _ _ _ _ E4).
    split; [done|]. split; [by eapply grew_only|].
    rewrite <- app_assoc, <- insert_split in Hok4 by done. split; [done|].
    intros g Hgc. by rewrite Hf4, Hf3, Hf2.
  - destruct (insertAll_full new (drop (S idx) es) s3 _ _ Hok3) as (s4 & E4 & Ho4).
    { by apply Forall_drop. } { lia. }
    rewrite Hacc in E4. pose proof (grew_only _ _ _ _ _ Hg3 Ho4 Hn) as Hg4.
    destruct (orFree_fail1 (wrapAs "leaf update rebuild") _ s s3 s4 [] new errPageFull E4 Hg4) as (s5 & E5 & Hg5).
    exists s5, (wrapAs "leaf update rebuild" errPageFull). auto.
Qed.

(** Tombstone count of the rebuilt page. *)
Definition rebuilt_count (tc : Z) (oldT newT : bool) : Z :=
  let tc := if oldT then u16 (tc - 1) else tc in
  if newT then u16 (tc + 1) else tc.

Lemma updateRebuild_ok bo bn :
  tombstoneOf v = Ret bo -> tombstoneOf v' = Ret bn ->
  if decide (SizeofPageHeader + zlen es * 16 + kv_size (<[idx := (k, v')]> es) <= PageSize)
  then exists new s', updateRebuild id (Z.of_nat idx) v' s = (s', Ret new) /\ grew [new] s s' /\
         leaf_ok s' new (kv_size (<[idx := (k, v')]> es)) (<[idx := (k, v')]> es) /\
         getField s' new hVersion = u64 (GetVersion s id + 1) /\
         getField s' new hTombstoneCount = u16 (rebuilt_count (GetTombstoneCount s id) bo bn)
  else rebuild_fails s [] (updateRebuild id (Z.of_nat idx) v' s).
Proof.
  intros Hbo Hbn. pose proof Hok as [Hp _]. pose proof (lookup_lt_Some _ _ _ Hidx) as Hlt.
  destruct (leaf_page_entry _ _ _ _ _ _ _ Hp Hidx) as (e & Ee & _ & _ & _ & Hk & Hv).
  destruct (grew_alloc [] s s (grew_refl s Hpm) Hav) as (new & s1 & E1 & Hg1 & _).
  destruct (gr_fresh _ _ _ Hg1 new ltac:(by left)) as [Hnl _].
  destruct (fresh_leaf s1 id new (u64 (GetVersion s1 id + 1)) [] s Hg1 Hnl)
    as (s2 & E2 & Hg2 & Hok2 & _ & Hv2 & _).
  pose proof (rebuild_steps s2 new Hg2 Hok2 Hnl) as Hst. cbv zeta in Hst.
  set (steps := _ : stM PageManager Z) in Hst.
  assert (EU : updateRebuild id (Z.of_nat idx) v' s =
    (r ← steps; s' ← getS; oldVal ← liftS (GetValueAt s' id (Z.of_nat idx));
       oldT ← liftS (tombstoneOf oldVal); newT ← liftS (tombstoneOf v');
       _ ← SetTombstoneCount new (rebuilt_count (GetTombstoneCount s' id) oldT newT); mret new) s2).
  { unfold updateRebuild. rewrite stM_bind_get. unfold GetKeyAt. rewrite Ee, bind_ret, stM_bind_lift, Hk.
    rewrite (CollectKVExcept_ok s id d es idx Hp), stM_bind_lift.
    rewrite (stM_bind_ret _ _ _ _ _ (onErr_ret _ _ _ _ _ E1)). unfold rebuildPage.
    rewrite stM_bind_get, (stM_bind_ret _ _ _ _ _ E2). cbv zeta.
    rewrite (insertPosition_ok es idx k v Hsort Hidx), take_remove_at, drop_remove_at by lia.
    unfold steps. unfold mbind, stM_bind. 
    destruct (orFree _ _ (insertAll new 0 _ 0) s2) as [? [?|?|]]; [|done|done].
    destruct (orFree _ _ (InsertLeafEntry new _ _ _ _) _) as [? [?|?|]]; done. }
  rewrite EU. clear EU. destruct (decide _) as [Hfit|Hnfit].
  - destruct Hst as (s3 & E3 & Hg3 & Hok3 & Hf3). rewrite (stM_bind_ret _ _ _ _ _ E3), stM_bind_get.
    pose proof (grew_page _ _ _ _ _ _ _ Hg3 Hlive Hok) as [Hp3 _].
    destruct (leaf_page_entry _ _ _ _ _ _ _ Hp3 Hidx) as (e3 & Ee3 & _ & _ & _ & _ & Hv3).
    unfold GetValueAt. rewrite Ee3, bind_ret, stM_bind_lift, Hv3, Hbo, stM_bind_lift, Hbn, stM_bind_lift.
    eexists new, _. split; [reflexivity|]. split; [eapply grew_only; [exact Hg3|apply only_page_setField|done]|].
    split; [by apply page_ok_setField|]. split.
    + rewrite getField_setField_other by done. rewrite Hf3, Hv2 by done. unfold GetVersion.
      rewrite (grew_field _ _ _ _ _ Hg1 Hlive). apply u64_id, u64_range.
    + rewrite getField_setField_same. unfold GetTombstoneCount. by rewrite (grew_field _ _ _ _ _ Hg3 Hlive).
  - destruct Hst as (s3 & e3 & E3 & He & Hg3). exists s3, e3. by rewrite (stM_bind_fail _ _ _ _ _ E3).
Qed.

Lemma leaf_Update_ok bo bn :
  tombstoneOf v = Ret bo -> tombstoneOf v' = Ret bn ->
  if decide (zlen v' <= zlen v \/
      SizeofPageHeader + zlen es * 16 + kv_size (<[idx := (k, v')]> es) <= PageSize)
  then exists new s' d', Update id (Z.of_nat idx) v' s = (s', Ret new) /\ grew [new] s s' /\
         leaf_ok s' new d' (<[idx := (k, v')]> es) /\
         getField s' new hVersion = u64 (GetVersion s id + 1)
  else rebuild_fails s [] (Update id (Z.of_nat idx) v' s).
Proof.
  intros Hbo Hbn. pose proof Hok as [Hp _]. pose proof (lookup_lt_Some _ _ _ Hidx) as Hlt.
  destruct (leaf_page_entry _ _ _ _ _ _ _ Hp Hidx) as (e & Ee & _ & _ & Hvl & _).
  assert (EU : Update id (Z.of_nat idx) v' s =
    (if zlen v' <=? zlen v then
       newRawID ← onErr Alloc (wrapAs "leaf update alloc");
       ok ← updateInSlot id (Z.of_nat idx) newRawID v';
       if (ok : bool) then mret newRawID else updateRebuild id (Z.of_nat idx) v'
     else updateRebuild id (Z.of_nat idx) v') s).
  { unfold Update. rewrite stM_bind_get. unfold Count. rewrite (po_count _ _ _ _ _ _ Hp).
    rewrite (proj2 (Z.ltb_ge _ 0)), (proj2 (Z.leb_gt _ _)) by (unfold zlen; lia). cbn [orb].
    rewrite Ee, stM_bind_lift, Hvl. by destruct (zlen v' <=? zlen v). }
  rewrite EU. clear EU. destruct (Z.leb_spec (zlen v') (zlen v)) as [Hle|Hgt].
  - rewrite decide_True by (by left).
    destruct (cow_started (entry := leaf_entry) PageTypeLeaf s id d es Hpm Hlive Hok Hav) as (new & s1 & s2 & E1 & E2 & Hg2 & Hok2 & _ & Hv2 & _ & Hnl).
    destruct (OverwriteLeafValue_ok s2 new _ es idx k v v' Hok2 Hidx Hle) as (s3 & E3 & Hok3 & Ho3 & Hf3).
    exists new, s3, (GetDataEnd s id). split; [|split; [by eapply grew_only|split; [done|by rewrite Hf3]]].
    rewrite (stM_bind_ret _ _ _ _ _ (onErr_ret _ _ _ _ _ E1)).
    rewrite (stM_bind_ret _ _ s1 s3 true); [done|].
    unfold updateInSlot. by rewrite (stM_bind_ret _ _ _ _ _ E2), (stM_bind_ret _ _ _ _ _ E3).
  - pose proof (updateRebuild_ok bo bn Hbo Hbn) as Hr. destruct (decide _) as [Hfit|Hn] in Hr.
    + rewrite decide_True by (by right). destruct Hr as (new & s' & E & Hg & Hok' & Hv' & _).
      eexists new, s', _. by split.
    + rewrite decide_False by (intros [?|?]; [lia|done]). exact Hr.
Qed.
End rebuild.

(** *** Split *)

(** Values that begin with the flag of a tombstone. *)
Definition is_tomb (kv : bytes * bytes) : bool :=
  match kv.2 with b :: _ => b =? FlagTombstone | [] => false end.
Definition tomb_count (es : list (bytes * bytes)) : Z := zlen (filter (fun kv => is_tomb kv) es).

Lemma tomb_count_cons kv es : tomb_count (kv :: es) = (if is_tomb kv then 1 else 0) + tomb_count es.
Proof.
  unfold tomb_count. rewrite filter_cons. destruct (is_tomb kv).
  - rewrite decide_True by done. by rewrite zlen_cons.
  - rewrite decide_False by (intros []). lia.
Qed.
Lemma tomb_count_bound es : 0 <= tomb_count es <= zlen es.
Proof. unfold tomb_count, zlen. pose proof (length_filter (fun kv => is_tomb kv) es). lia. Qed.

Lemma countTombstones_ok s p d es n : forall a,
  leaf_page s p d es -> (a + n <= length es)%nat ->
  countTombstones s p (Z.of_nat a) n = Ret (tomb_count (sublist a (a + n) es)).
Proof.
  induction n as [|n IH]; intros a Hp Ha; cbn [countTombstones].
  { unfold sublist. by rewrite Nat.add_0_r, Nat.sub_diag. }
  destruct (lookup_lt_is_Some_2 es a) as [[k v] Hx]; [lia|].
  destruct (leaf_page_entry _ _ _ _ _ _ _ Hp Hx) as (e & Ee & _ & _ & Hvl & _ & Hv).
  assert (Hsub : sublist a (a + S n) es = (k, v) :: sublist (S a) (S a + n) es).
  { unfold sublist. rewrite (drop_S es (k, v) a Hx).
    replace (a + S n - a)%nat with (S n) by lia. replace (S a + n - S a)%nat with n by lia. done. }
  rewrite Ee, bind_ret. replace (Z.of_nat a + 1) with (Z.of_nat (S a)) by lia.
  rewrite (IH (S a)), bind_ret by (done || lia). rewrite Hsub, tomb_count_cons, Hvl.
  pose proof (tomb_count_bound (sublist (S a) (S a + n) es)) as Hb.
  assert (Hlen : zlen (sublist (S a) (S a + n) es) <= zlen es).
  { unfold zlen. rewrite sublist_length by lia. lia. }
  pose proof (po_fit _ _ _ _ _ _ Hp). pose proof (po_data _ _ _ _ _ _ Hp).
  destruct v as [|b v]; cbn [is_tomb snd].
  { rewrite zlen_nil. done. }
  rewrite (proj2 (Z.leb_le 1 _)) by (rewrite zlen_cons; pose proof (zlen_nonneg v); lia). cbn [andb].
  assert (Hbyte : byteAt (mem s) (getPtr p + le_valOff e) = b).
  { unfold GetValue in Hv. rewrite Hvl in Hv.
    rewrite <- (Z.add_0_r (_ + _)), <- (nth_load (mem s) _ (zlen (b :: v)) 0), Hv; [done|].
    rewrite zlen_cons. pose proof (zlen_nonneg v). lia. }
  rewrite Hbyte. destruct (b =? FlagTombstone); [|done].
  rewrite u16_id by (unfold is_u16; off_lia). f_equal. lia.
Qed.

Lemma Split_ok s id d es :
  pm_ok s -> live s id -> leaf_ok s id d es -> 1 < avail s -> (2 <= length es)%nat ->
  let mid := (length es / 2)%nat in
  exists l r k s', Split id s = (s', Ret (l, r, k)) /\ es.*1 !! mid = Some k /\
    grew [r; l] s s' /\
    leaf_ok s' l (kv_size (sublist 0 mid es)) (sublist 0 mid es) /\
    leaf_ok s' r (kv_size (sublist mid (length es) es)) (sublist mid (length es) es) /\
    GetTombstoneCount s' l = tomb_count (sublist 0 mid es) /\
    GetTombstoneCount s' r = tomb_count (sublist mid (length es) es).
Proof.
  intros Hpm Hlive Hok Hav Hlen mid. pose proof Hok as [Hp _].
  assert (Hmid : (0 < mid < length es)%nat).
  { unfold mid. split; [apply Nat.div_str_pos; lia|apply Nat.div_lt; lia]. }
  destruct (lookup_lt_is_Some_2 es mid) as [[k v] Hk]; [lia|].
  destruct (leaf_page_entry _ _ _ _ _ _ _ Hp Hk) as (e & Ee & _ & _ & _ & Hkey & _).
  destruct (grew_alloc [] s s (grew_refl s Hpm) ltac:(lia)) as (l & s1 & E1 & Hg1 & _).
  destruct (grew_alloc [l] s s1 Hg1) as (r & s2 & E2 & Hg2 & _).
  { rewrite (gr_avail _ _ _ Hg1). unfold zlen. cbn [length]. lia. }
  destruct (gr_fresh _ _ _ Hg2 l ltac:(right; by left)) as [Hnl _].
  destruct (gr_fresh _ _ _ Hg2 r ltac:(by left)) as [Hnr _].
  assert (Hlr : r <> l).
  { pose proof (gr_nodup _ _ _ Hg2) as Hn. apply NoDup_cons in Hn as [Hn _]. intros ->. apply Hn. by left. }
  assert (Hil : id <> l) by (by intros ->). assert (Hir : id <> r) by (by intros ->).
  pose proof (grew_page _ _ _ _ _ _ _ Hg2 Hlive Hok) as Hok2.
  destruct (BulkInitLeaf_ok s2 id l d es 0 mid Hok2 Hil) as (s3 & E3 & Hl3 & Ho3 & _); [lia|].
  pose proof (grew_only _ _ _ _ _ Hg2 Ho3 Hnl) as Hg3.
  set (ver := u64 (GetVersion s2 id + 1)).
  assert (Hg4 : grew [r; l] s (setField l hVersion ver s3)).
  { eapply grew_only; [exact Hg3|apply only_page_setField|done]. }
  set (s4 := setField l hVersion ver s3) in *.
  pose proof (grew_page _ _ _ _ _ _ _ Hg4 Hlive Hok) as Hok4.
  destruct (BulkInitLeaf_ok s4 id r d es mid (length es) Hok4 Hir) as (s5 & E5 & Hr5 & Ho5 & _); [lia|].
  pose proof (grew_only _ _ _ _ _ Hg4 Ho5 Hnr) as Hg5.
  set (s6 := setField r hVersion ver s5).
  assert (Hg6 : grew [r; l] s s6) by (eapply grew_only; [exact Hg5|apply only_page_setField|done]).
  pose proof (grew_page _ _ _ _ _ _ _ Hg6 Hlive Hok) as [Hp6 _].
  set (s7 := setField l hTombstoneCount (tomb_count (sublist 0 mid es)) s6).
  set (s8 := setField r hTombstoneCount (tomb_count (sublist mid (length es) es)) s7).
  assert (Hbound : forall a b, (a <= b <= length es)%nat -> tomb_count (sublist a b es) mod 256 ^ 2 = tomb_count (sublist a b es)).
  { intros a b Hab. apply Z.mod_small. pose proof (tomb_count_bound (sublist a b es)).
    pose proof (po_fit _ _ _ _ _ _ Hp). pose proof (po_data _ _ _ _ _ _ Hp).
    unfold zlen in *. rewrite sublist_length in * by done. off_lia. }
  exists l, r, k, s8. split; [|split; [|split; [|split; [|split; [|split]]]]].
  - unfold Split. rewrite stM_bind_get. unfold Count. rewrite (po_count _ _ _ _ _ _ Hp). cbv zeta.
    rewrite (proj2 (Z.ltb_ge _ 2)) by (unfold zlen; lia).
    replace (Z.quot (zlen es) 2) with (Z.of_nat mid)
      by (unfold zlen, mid; rewrite Z.quot_div_nonneg by lia; by rewrite Nat2Z.inj_div).
    unfold GetKeyAt. rewrite Ee, bind_ret, stM_bind_lift, Hkey.
    rewrite (stM_bind_ret _ _ _ _ _ (onErr_ret _ _ _ _ _ E1)).
    rewrite (stM_bind_ret _ _ _ _ _ (orFree_ret _ _ _ _ _ _ E2)).
    rewrite (stM_bind_ret _ _ s2 s8 tt); [done|]. unfold splitFill. rewrite stM_bind_get. cbv zeta.
    rewrite (stM_bind_ret _ _ _ _ _ (orFree_ret _ _ _ _ _ _ E3)). fold ver.
    unfold SetVersion. rewrite stM_bind_modify. fold s4.
    change (zlen es) with (Z.of_nat (length es)).
    rewrite (stM_bind_ret _ _ _ _ _ (orFree_ret _ _ _ _ _ _ E5)). rewrite stM_bind_modify. fold s6.
    rewrite stM_bind_get. change 0 with (Z.of_nat 0).
    rewrite (countTombstones_ok s6 id d es _ 0 Hp6) by lia. rewrite stM_bind_lift.
    rewrite (countTombstones_ok s6 id d es _ mid Hp6) by lia. rewrite stM_bind_lift.
    rewrite Nat2Z.id. replace (mid + Z.to_nat (Z.of_nat (length es) - Z.of_nat mid))%nat with (length es) by lia.
    reflexivity.
  - rewrite list_lookup_fmap, Hk. done.
  - assert (Hg7 : grew [r; l] s s7) by (eapply grew_only; [exact Hg6|apply only_page_setField|exact Hnl]).
    eapply grew_only; [exact Hg7|apply only_page_setField|exact Hnr].
  - apply (page_ok_other _ s7 s8 l r); [apply only_page_setField|by apply not_eq_sym|].
    apply (page_ok_setField _ s6 l); [done|done|].
    apply (page_ok_other _ s5 s6 l r); [apply only_page_setField|by apply not_eq_sym|].
    apply (page_ok_other _ s4 s5 l r); [exact Ho5|by apply not_eq_sym|]. by apply (page_ok_setField _ s3 l).
  - apply (page_ok_setField _ s7 r); [done|done|].
    apply (page_ok_other _ s6 s7 r l); [apply only_page_setField|done|]. by apply (page_ok_setField _ s5 r).
  - unfold GetTombstoneCount, s8. rewrite getField_setField_page by (by apply not_eq_sym). unfold s7.
    rewrite getField_setField_same. apply Hbound. lia.
  - unfold GetTombstoneCount, s8. rewrite getField_setField_same. apply Hbound. lia.
Qed.
