(* ===== verification/LeafMap.v ===== *)
(** * A leaf page as a finite map

    What the leaf operations of LeafPage promise to the tree: a page stands for
    a map from keys to values, [Search], [Insert], [Update], [Delete] and
    [Split] are the operations of the map, and no page in use is changed. *)

From stdpp Require Import base list gmap strings sorting.
From Stdlib Require Import ZArith Lia.
From S2P Require Import Prelude MvccCodec OffHeap PageLayout LeafPage.

Local Open Scope Z_scope.

Abbreviation kvmap := (gmap bytes bytes).

(** The entries [es] of page [id], in ascending order. *)
Record leaf_list (s : PageManager) (id : Z) (es : list (bytes * bytes)) : Prop := {
  ll_page : exists d, leaf_ok s id d es;
  ll_sorted : keys_sorted (es.*1)
}.

(** Page [id] stands for the map [m]. *)
Definition leaf_rep (s : PageManager) (id : Z) (m : kvmap) : Prop :=
  exists es, leaf_list s id es /\ m = list_to_map es.

(** The pages [news] were allocated; whatever a page in use stood for, it still
    stands for. *)
Definition extends (news : list Z) (s s' : PageManager) : Prop :=
  pm_ok s' /\ avail s' = avail s - zlen news /\ NoDup news /\
  (forall q, live s' q <-> live s q \/ q ∈ news) /\ (forall q, q ∈ news -> ~ live s q) /\
  (forall q m, live s q -> leaf_rep s q m -> leaf_rep s' q m).

(** ** Sorted lists of entries and maps *)

Lemma sorted_nodup (es : list (bytes * bytes)) : keys_sorted (es.*1) -> NoDup (es.*1).
Proof. apply keys_sorted_nodup. Qed.

Lemma sorted_of_lookup (ks : list bytes) :
  (forall i j a b, ks !! i = Some a -> ks !! j = Some b -> (i < j)%nat -> bytes_lt a b) -> keys_sorted ks.
Proof.
  induction ks as [|k ks IH]; intros H; constructor.
  - apply IH. intros i j a b Hi Hj Hij. apply (H (S i) (S j) a b); auto. lia.
  - apply Forall_forall. intros x [i Hi]%list_elem_of_lookup. apply (H 0%nat (S i) k x); auto. lia.
Qed.

Lemma insert_at_fmap {A B} (f : A -> B) i x l : f <$> insert_at i x l = insert_at i (f x) (f <$> l).
Proof. unfold insert_at. by rewrite fmap_app, fmap_cons, fmap_take, fmap_drop. Qed.
Lemma remove_at_fmap {A B} (f : A -> B) i (l : list A) : f <$> remove_at i l = remove_at i (f <$> l).
Proof. unfold remove_at. by rewrite fmap_app, fmap_take, fmap_drop. Qed.

Lemma sorted_insert_at ks key :
  keys_sorted ks -> key ∉ ks -> keys_sorted (insert_at (lower_bound key ks) key ks).
Proof.
  intros Hs Hn. pose proof (lower_bound_le key ks) as Hle. apply sorted_of_lookup.
  assert (Hlow : forall i a, ks !! i = Some a -> (i < lower_bound key ks)%nat -> bytes_lt a key)
    by (intros i a Hi; by apply lower_bound_spec).
  assert (Hhigh : forall i a, ks !! i = Some a -> (lower_bound key ks <= i)%nat -> bytes_lt key a).
  { intros i a Hi Hge. destruct (bytes_trichotomy a key) as [Hlt|[->|Hgt]]; [|by destruct Hn; eapply list_elem_of_lookup_2|done].
    apply (lower_bound_spec key ks i a Hs Hi) in Hlt. lia. }
  intros i j a b Hi Hj Hij.
  destruct (insert_at_lookup _ _ _ _ _ Hle Hi) as [[Hi1 Hi2]|[[Hi1 ->]|[Hi1 Hi2]]];
    destruct (insert_at_lookup _ _ _ _ _ Hle Hj) as [[Hj1 Hj2]|[[Hj1 ->]|[Hj1 Hj2]]]; try lia.
  - by apply (keys_sorted_lookup ks i j).
  - by apply (Hlow i).
  - apply (keys_sorted_lookup ks i (j - 1)); auto. lia.
  - apply (Hhigh (j - 1)%nat); auto. lia.
  - apply (keys_sorted_lookup ks (i - 1) (j - 1)); auto. lia.
Qed.

Lemma sorted_remove_at ks i : keys_sorted ks -> keys_sorted (remove_at i ks).
Proof.
  intros Hs. unfold remove_at. rewrite <- (take_drop i ks), StronglySorted_app in Hs.
  destruct Hs as (Hx & H1 & H2). apply StronglySorted_app_2; [|done|].
  - intros x1 x2 Hx1 Hx2. apply Hx; [done|]. rewrite <- (Nat.add_1_r i), <- drop_drop in Hx2.
    by eapply subseteq_drop.
  - rewrite <- (Nat.add_1_r i), <- drop_drop. rewrite <- (take_drop 1 (drop i ks)) in H2.
    by apply StronglySorted_app_1_r in H2.
Qed.

Lemma map_insert_at (es : list (bytes * bytes)) i key value :
  NoDup (es.*1) -> key ∉ es.*1 ->
  list_to_map (insert_at i (key, value) es) = <[key := value]> (list_to_map es : kvmap).
Proof.
  intros Hn Hk. rewrite <- list_to_map_cons. symmetry. apply list_to_map_proper; [by constructor|].
  symmetry. apply insert_at_perm.
Qed.

Lemma map_remove_at (es : list (bytes * bytes)) i key v :
  NoDup (es.*1) -> es !! i = Some (key, v) ->
  list_to_map (remove_at i es) = delete key (list_to_map es : kvmap).
Proof.
  intros Hn Hi. pose proof (remove_at_perm _ _ _ Hi) as Hp.
  rewrite (list_to_map_proper _ _ Hn Hp), list_to_map_cons. rewrite Hp in Hn.
  apply NoDup_cons in Hn as [Hnin _]. rewrite delete_insert_id; [done|].
  by apply not_elem_of_list_to_map_1.
Qed.

Lemma map_update_at (es : list (bytes * bytes)) i key v v' :
  NoDup (es.*1) -> es !! i = Some (key, v) ->
  list_to_map (<[i := (key, v')]> es) = <[key := v']> (list_to_map es : kvmap).
Proof.
  intros Hn Hi. pose proof (remove_at_perm _ _ _ Hi) as Hp.
  assert (Hi' : <[i := (key, v')]> es !! i = Some (key, v')).
  { apply list_lookup_insert_eq. by eapply lookup_lt_Some. }
  pose proof (remove_at_perm _ _ _ Hi') as Hp'.
  assert (Hr : remove_at i (<[i := (key, v')]> es) = remove_at i es).
  { unfold remove_at. rewrite take_insert_ge, drop_insert_lt by lia. done. }
  rewrite Hr in Hp'. assert (Hn' : NoDup ((<[i := (key, v')]> es).*1)).
  { rewrite Hp'. rewrite Hp in Hn. done. }
  rewrite (list_to_map_proper _ _ Hn' Hp'), (list_to_map_proper _ _ Hn Hp), !list_to_map_cons.
  by rewrite insert_insert_eq.
Qed.

Lemma update_keys (es : list (bytes * bytes)) i key v v' :
  es !! i = Some (key, v) -> (<[i := (key, v')]> es).*1 = es.*1.
Proof.
  intros Hi. rewrite list_fmap_insert. apply list_insert_id. by rewrite list_lookup_fmap, Hi.
Qed.

Lemma map_size (es : list (bytes * bytes)) :
  NoDup (es.*1) -> Z.of_nat (size (list_to_map es : kvmap)) = zlen es.
Proof.
  intros Hn. rewrite <- (length_map_to_list (list_to_map es : kvmap)).
  by rewrite (Permutation_length (map_to_list_to_map es Hn)).
Qed.

Lemma map_lookup (es : list (bytes * bytes)) key :
  keys_sorted (es.*1) ->
  match (list_to_map es : kvmap) !! key with
  | Some v => es !! lower_bound key (es.*1) = Some (key, v)
  | None => key ∉ es.*1
  end.
Proof.
  intros Hs. destruct (_ !! key) as [v|] eqn:E; [|by apply not_elem_of_list_to_map_2].
  apply elem_of_list_to_map_2, list_elem_of_lookup in E as [i Hi].
  enough (lower_bound key (es.*1) = i) as -> by done.
  assert (Hk : es.*1 !! i = Some key) by (by rewrite list_lookup_fmap, Hi).
  apply lower_bound_unique; [done|apply lookup_lt_Some in Hk; lia| |].
  - intros j a Ha Hj. by apply (keys_sorted_lookup (es.*1) j i).
  - intros j a Ha Hj Hlt. destruct (decide (j = i)) as [->|Hne].
    + rewrite Hk in Ha. injection Ha as ->. by apply (bytes_lt_irrefl a).
    + apply (bytes_lt_irrefl key). eapply bytes_lt_trans; [|exact Hlt].
      apply (keys_sorted_lookup (es.*1) i j); auto. lia.
Qed.

(** ** What the leaf operations do to the map *)

Lemma grew_extends news s s' : grew news s s' -> extends news s s'.
Proof.
  intros Hg. split; [apply Hg|]. split; [apply Hg|]. split; [apply Hg|].
  split; [apply (gr_live _ _ _ Hg)|]. split; [intros q Hq; by apply (gr_fresh _ _ _ Hg)|].
  intros q m Hq (es & [[d Hok] Hs] & ->). exists es. split; [|done]. split; [|done].
  exists d. by apply (grew_page _ _ _ _ _ _ _ Hg).
Qed.

(** Where [Search] finds a key of the map. *)
Lemma leaf_rep_search s id es key :
  leaf_list s id es ->
  Search s id key = Ret (Z.of_nat (lower_bound key (es.*1)), bool_decide (key ∈ es.*1)).
Proof. intros [[d [Hp _]] Hs]. by eapply Search_ok. Qed.

Lemma leaf_list_key es key v i : es !! i = Some (key, v) -> key ∈ (es : list (bytes * bytes)).*1.
Proof. intros Hi. apply list_elem_of_fmap. exists (key, v). split; [done|by eapply list_elem_of_lookup_2]. Qed.

(** The read path: [Search] and then [GetValueAt]. *)
Definition leafGet (s : PageManager) (id : Z) (key : bytes) : outcome bytes :=
  r ← Search s id key;
  if (r.2 : bool) then GetValueAt s id r.1 else Fail (Sentinel ErrBTreeKeyNotFound).

(** Reading a key of a leaf page, by Search and GetValueAt, is looking it up in
    the map the page stands for: the value the map has, or ErrKeyNotFound. *)
Theorem leaf_get_refines s id m key (Hrep : leaf_rep s id m) :
  leafGet s id key = match m !! key with Some v => Ret v | None => Fail (Sentinel ErrBTreeKeyNotFound) end.
Proof.
  destruct Hrep as (es & Hl & ->). pose proof (map_lookup es key (ll_sorted _ _ _ Hl)) as Hm.
  unfold leafGet. rewrite (leaf_rep_search _ _ _ _ Hl), bind_ret. cbn [fst snd].
  destruct (_ !! key) as [v|].
  - rewrite bool_decide_true by (by eapply leaf_list_key). destruct (ll_page _ _ _ Hl) as [d [Hp _]].
    destruct (leaf_page_entry _ _ _ _ _ _ _ Hp Hm) as (e & Ee & _ & _ & _ & _ & Hv).
    unfold GetValueAt. by rewrite Ee, bind_ret, Hv.
  - by rewrite bool_decide_false.
Qed.

(** C26: inserting into a leaf page adds the binding to its map.  A key that is
    there is refused with ErrDuplicateKey and an entry that does not fit with
    ErrPageFull; then nothing is allocated.  Otherwise one fresh page stands for the
    map with the binding, and every page in use stands for what it stood for:
    readers of the old page see no change. *)
Theorem leaf_insert_refines s id m key value
  (Hpm : pm_ok s) (Hlive : live s id) (Hrep : leaf_rep s id m) (Hav : 0 < avail s)
  (Hsz : leaf_size (key, value) < 2 ^ 31) :
  match m !! key with
  | Some _ => exists s', Insert id key value s = (s', Fail (Sentinel ErrBTreeDuplicateKey)) /\ extends [] s s'
  | None =>
      if decide (fits s id (Z.of_nat (size m)) (key, value)) then
        exists new s', Insert id key value s = (s', Ret new) /\ extends [new] s s' /\
          leaf_rep s' new (<[key := value]> m)
      else exists s', Insert id key value s = (s', Fail (Wrap errPageFull "leaf insert entry")) /\ extends [] s s'
  end.
Proof.
  destruct Hrep as (es & [[d Hok] Hs] & ->). pose proof (map_lookup es key Hs) as Hm.
  pose proof (Insert_ok s id d es key value Hpm Hlive Hok Hs Hav Hsz) as H.
  rewrite map_size by (by apply sorted_nodup). destruct (_ !! key) as [v|].
  - rewrite decide_True in H by (by eapply leaf_list_key).
    destruct H as (s' & E & Hg). exists s'. split; [done|by apply grew_extends].
  - rewrite decide_False in H by done. destruct (decide _) in H |- *.
    + destruct H as (new & s' & E & Hg & Hok' & _). exists new, s'.
      split; [done|]. split; [by apply grew_extends|]. eexists. split.
      * split; [by eexists|]. rewrite insert_at_fmap. by apply sorted_insert_at.
      * by rewrite map_insert_at by (by try apply sorted_nodup).
    + destruct H as (s' & E & Hg). exists s'. split; [done|by apply grew_extends].
Qed.

(** The write path for a key that is there: [Search] and then [Update]. *)
Definition leafUpdate (id : Z) (key value : bytes) : stM PageManager Z :=
  s ← getS;
  r ← liftS (Search s id key);
  if (r.2 : bool) then Update id r.1 value else failS (Sentinel ErrBTreeKeyNotFound).

Definition leafDelete (id : Z) (key : bytes) : stM PageManager Z :=
  s ← getS;
  r ← liftS (Search s id key);
  if (r.2 : bool) then Delete id r.1 else failS (Sentinel ErrBTreeKeyNotFound).

(** Updating a key that is there replaces its value: the fresh page stands for
    the map with the new binding.  That always succeeds when the new value is not
    longer than the old one; a longer value can fail, with ErrPageFull, and then
    nothing is allocated. *)
Theorem leaf_update_refines s id m key v value bo bn
  (Hpm : pm_ok s) (Hlive : live s id) (Hrep : leaf_rep s id m) (Hav : 0 < avail s)
  (Hkey : m !! key = Some v) (Hsz : leaf_size (key, value) < 2 ^ 31)
  (Hold : tombstoneOf v = Ret bo) (Hnew : tombstoneOf value = Ret bn) :
  (exists new s', leafUpdate id key value s = (s', Ret new) /\ extends [new] s s' /\
     leaf_rep s' new (<[key := value]> m)) \/
  (zlen v < zlen value /\ rebuild_fails s [] (leafUpdate id key value s)).
Proof.
  destruct Hrep as (es & Hl & ->). pose proof Hl as [[d Hok] Hs].
  pose proof (map_lookup es key Hs) as Hm. rewrite Hkey in Hm.
  assert (E : leafUpdate id key value s = Update id (Z.of_nat (lower_bound key (es.*1))) value s).
  { unfold leafUpdate. rewrite stM_bind_get, (leaf_rep_search _ _ _ _ Hl), stM_bind_lift. cbn [fst snd].
    by rewrite bool_decide_true by (by eapply leaf_list_key). }
  rewrite E. pose proof (leaf_Update_ok s id d es _ key v value Hpm Hlive Hok Hs Hav Hm Hsz bo bn Hold Hnew) as H.
  destruct (decide _) as [Hc|Hn] in H.
  - left. destruct H as (new & s' & d' & E' & Hg & Hok' & _). exists new, s'.
    split; [done|]. split; [by apply grew_extends|]. exists (<[lower_bound key (es.*1) := (key, value)]> es).
    rewrite (map_update_at _ _ _ _ _ (sorted_nodup _ Hs) Hm). split; [|done].
    split; [by eexists|]. by rewrite (update_keys _ _ _ _ _ Hm).
  - right. split; [|done]. destruct (decide (zlen value <= zlen v)); [|lia]. destruct Hn. by left.
Qed.

(** Deleting a key that is there removes its binding: the fresh page stands for
    the map without it, always; a key that is not there gives ErrKeyNotFound. *)
Theorem leaf_delete_refines s id m key
  (Hpm : pm_ok s) (Hlive : live s id) (Hrep : leaf_rep s id m) (Hav : 0 < avail s) :
  match m !! key with
  | Some _ => exists new s', leafDelete id key s = (s', Ret new) /\ extends [new] s s' /\
                leaf_rep s' new (delete key m)
  | None => leafDelete id key s = (s, Fail (Sentinel ErrBTreeKeyNotFound))
  end.
Proof.
  destruct Hrep as (es & Hl & ->). pose proof Hl as [[d Hok] Hs].
  pose proof (map_lookup es key Hs) as Hm. unfold leafDelete.
  rewrite stM_bind_get, (leaf_rep_search _ _ _ _ Hl), stM_bind_lift. cbn [fst snd].
  destruct (_ !! key) as [v|]; [|by rewrite bool_decide_false].
  rewrite bool_decide_true by (by eapply leaf_list_key).
  destruct (Delete_ok s id d es _ Hpm Hlive Hok Hav (lookup_lt_Some _ _ _ Hm)) as (new & s' & E & Hg & Hok').
  exists new, s'. split; [done|]. split; [by apply grew_extends|]. eexists. split.
  - split; [by eexists|]. rewrite remove_at_fmap. by apply sorted_remove_at.
  - by rewrite (map_remove_at _ _ _ _ (sorted_nodup _ Hs) Hm).
Qed.

(** *** Split *)

Lemma sorted_sublist a b (ks : list bytes) : keys_sorted ks -> keys_sorted (sublist a b ks).
Proof.
  intros Hs. apply sorted_of_lookup. intros i j x y Hi Hj Hij.
  apply sublist_lookup in Hi, Hj. apply (keys_sorted_lookup ks (a + i) (a + j)); auto. lia.
Qed.

Lemma sublist_fmap {A B} (f : A -> B) a b (es : list A) : f <$> sublist a b es = sublist a b (f <$> es).
Proof. unfold sublist. by rewrite fmap_take, fmap_drop. Qed.

Lemma leaf_list_sublist s id es a b n :
  keys_sorted (es.*1) -> leaf_ok s id n (sublist a b es) -> leaf_list s id (sublist a b es).
Proof. intros Hs Hok. split; [by exists n|]. rewrite sublist_fmap. by apply sorted_sublist. Qed.

(** The halves of a sorted list of entries, as maps. *)
Lemma split_maps (es : list (bytes * bytes)) mid k (lo := sublist 0 mid es) (hi := sublist mid (length es) es) :
  keys_sorted (es.*1) -> (mid <= length es)%nat -> es.*1 !! mid = Some k ->
  (list_to_map es : kvmap) = list_to_map lo ∪ list_to_map hi /\
  (forall x v, (list_to_map lo : kvmap) !! x = Some v -> bytes_lt x k) /\
  (forall x v, (list_to_map hi : kvmap) !! x = Some v -> ~ bytes_lt x k).
Proof.
  intros Hs Hmid Hk. split; [|split].
  - rewrite <- list_to_map_app. unfold lo, hi. rewrite sublist_split by lia. by rewrite sublist_all.
  - intros x v Hx. apply elem_of_list_to_map_2 in Hx.
    apply list_elem_of_lookup in Hx as [i Hi]. pose proof (lookup_lt_Some _ _ _ Hi) as Hlt.
    unfold lo in *. rewrite sublist_length in Hlt by lia. apply sublist_lookup in Hi. rewrite Nat.add_0_l in Hi.
    apply (keys_sorted_lookup (es.*1) i mid); [done| |done|lia]. by rewrite list_lookup_fmap, Hi.
  - intros x v Hx Hlt. apply elem_of_list_to_map_2 in Hx.
    apply list_elem_of_lookup in Hx as [i Hi]. apply sublist_lookup in Hi.
    assert (Hx : es.*1 !! (mid + i)%nat = Some x) by (by rewrite list_lookup_fmap, Hi).
    destruct i as [|i].
    + rewrite Nat.add_0_r, Hk in Hx. injection Hx as ->. by apply (bytes_lt_irrefl x).
    + apply (bytes_lt_irrefl k). eapply bytes_lt_trans; [|exact Hlt].
      apply (keys_sorted_lookup (es.*1) mid (mid + S i)); auto. lia.
Qed.

(** Splitting a leaf of at least two entries, with two pages left, yields two
    fresh pages whose maps make up the old one: every key of the left one is below
    the split key, none of the right one is, the split key is the first of the
    right page, the halves differ by at most one entry, and their headers count
    their tombstones.  The page that was split still stands for its map.  A page
    with fewer entries is refused. *)
Theorem leaf_split_refines s id m
  (Hpm : pm_ok s) (Hlive : live s id) (Hrep : leaf_rep s id m) (Hav : 1 < avail s) :
  if decide (2 <= size m)%nat then
    exists l r k s' ml mr, Split id s = (s', Ret (l, r, k)) /\ extends [r; l] s s' /\
      leaf_rep s' l ml /\ leaf_rep s' r mr /\ m = ml ∪ mr /\
      (forall x v, ml !! x = Some v -> bytes_lt x k) /\ (forall x v, mr !! x = Some v -> ~ bytes_lt x k) /\
      is_Some (mr !! k) /\ size ml = (size m / 2)%nat /\ (size ml + size mr = size m)%nat /\
      exists el er, leaf_list s' l el /\ leaf_list s' r er /\
        GetTombstoneCount s' l = tomb_count el /\ GetTombstoneCount s' r = tomb_count er
  else Split id s = (s, Fail errSplitMinKeys).
Proof.
  destruct Hrep as (es & [[d Hok] Hs] & ->). pose proof (map_size es (sorted_nodup _ Hs)) as Hsz.
  unfold zlen in Hsz. apply Nat2Z.inj in Hsz. rewrite Hsz. destruct (decide _) as [Hlen|Hlen].
  2:{ unfold Split. rewrite stM_bind_get. unfold Count. rewrite (po_count _ _ _ _ _ _ (proj1 Hok)).
      cbv zeta. rewrite (proj2 (Z.ltb_lt _ 2)); [done|unfold zlen; lia]. }
  destruct (Split_ok s id d es Hpm Hlive Hok Hav Hlen) as (l & r & k & s' & E & Hk & Hg & Hl & Hr & Htl & Htr).
  set (mid := (length es / 2)%nat) in *.
  assert (Hmid : (mid < length es)%nat) by (apply Nat.div_lt; lia).
  destruct (split_maps es mid k Hs ltac:(lia) Hk) as (Hm & Hlo & Hhi).
  pose proof (leaf_list_sublist _ _ _ _ _ _ Hs Hl) as Hll. pose proof (leaf_list_sublist _ _ _ _ _ _ Hs Hr) as Hlr.
  assert (Hsize : forall t a b, leaf_list s' t (sublist a b es) -> (a <= b <= length es)%nat ->
    size (list_to_map (sublist a b es) : kvmap) = (b - a)%nat).
  { intros t a b Ht Hab. pose proof (map_size _ (sorted_nodup _ (ll_sorted _ _ _ Ht))) as H.
    unfold zlen in H. rewrite sublist_length in H by done. lia. }
  exists l, r, k, s', (list_to_map (sublist 0 mid es)), (list_to_map (sublist mid (length es) es)).
  rewrite (Hsize l), (Hsize r) by (done || lia).
  split; [done|]. split; [by apply grew_extends|]. split; [by eexists|]. split; [by eexists|].
  split; [done|]. split; [done|]. split; [done|]. split; [|split; [lia|split; [lia|by eexists _, _]]].
  rewrite list_lookup_fmap in Hk. destruct (es !! mid) as [[k0 v0]|] eqn:He; [|done]. injection Hk as <-.
  exists v0. apply elem_of_list_to_map_1; [apply sorted_nodup, Hlr|].
  apply (list_elem_of_lookup_2 _ 0). unfold sublist. by rewrite (drop_S es (k0, v0) mid He),
    <- (Nat.succ_pred_pos (length es - mid)) by lia.
Qed.

(** *** The guard of the write path *)

(** What [IsFull] computes when the caller passes no value length. *)
Lemma IsFull_key_only s id d es kl :
  leaf_ok s id d es -> 0 <= kl < 2 ^ 31 ->
  IsFull s id kl 0 = over95 (SizeofPageHeader + zlen es * 16 + GetDataEnd s id + 16 + kl).
Proof.
  intros Hok Hkl. pose proof (page_ok_tight _ _ _ _ _ Hok) as Hok'.
  pose proof (po_fit _ _ _ _ _ _ (proj1 Hok')). pose proof (po_data _ _ _ _ _ _ (proj1 Hok')).
  pose proof (zlen_nonneg es). unfold IsFull. cbv zeta. rewrite (po_count _ _ _ _ _ _ (proj1 Hok)).
  unfold SizeofLeafEntry. rewrite !u32_id by (repeat rewrite u32_id; unfold is_u32; off_lia). f_equal. lia.
Qed.

Lemma list_to_map_empty (es : list (bytes * bytes)) :
  NoDup (es.*1) -> (list_to_map es : kvmap) = ∅ -> es = [].
Proof.
  intros Hn Hm. pose proof (map_size es Hn) as H. rewrite Hm, map_size_empty in H.
  destruct es; [done|]. rewrite zlen_cons in H. pose proof (zlen_nonneg es). lia.
Qed.

(** WriteOperation asks IsFull with a value length of 0 before it inserts.  A
    leaf that passes has room for any value of up to 205 bytes: inserting a new key
    never fails with ErrPageFull then.  No larger bound holds: on any empty leaf
    there is a key for which the guard passes and a value of 206 bytes fails. *)
Theorem write_guard_bound s id m
  (Hpm : pm_ok s) (Hlive : live s id) (Hrep : leaf_rep s id m) (Hav : 0 < avail s) :
  (forall key value, m !! key = None -> zlen key < 2 ^ 31 -> IsFull s id (zlen key) 0 = false ->
     zlen value <= 205 ->
     exists new s', Insert id key value s = (s', Ret new) /\ leaf_rep s' new (<[key := value]> m)) /\
  (m = ∅ -> exists key value s', zlen value = 206 /\ IsFull s id (zlen key) 0 = false /\
     Insert id key value s = (s', Fail (Wrap errPageFull "leaf insert entry"))).
Proof.
  destruct Hrep as (es & [[d Hok] Hs] & ->). pose proof (sorted_nodup _ Hs) as Hnd. split.
  - intros key value Hk Hkl Hg Hv. pose proof (zlen_nonneg key) as Hk0.
    rewrite (IsFull_key_only s id d es) in Hg by (done || lia).
    unfold over95 in Hg. apply Z.ltb_ge in Hg. apply not_elem_of_list_to_map_2 in Hk.
    pose proof (po_data _ _ _ _ _ _ (proj1 (page_ok_tight _ _ _ _ _ Hok))). pose proof (zlen_nonneg es).
    assert (Hsz : leaf_size (key, value) = zlen key + zlen value) by done.
    pose proof (Insert_ok s id d es key value Hpm Hlive Hok Hs Hav ltac:(rewrite Hsz; off_lia)) as HI.
    rewrite decide_False, decide_True in HI by (done || (unfold fits; rewrite Hsz; off_lia)).
    destruct HI as (new & s' & E & _ & Hok2 & _). exists new, s'. split; [done|].
    eexists. split; [split; [by eexists|rewrite insert_at_fmap; by apply sorted_insert_at]|].
    by rewrite map_insert_at.
  - intros Hm. apply (list_to_map_empty _ Hnd) in Hm as ->.
    set (key := replicate 3819 0 : bytes). set (value := replicate 206 0 : bytes).
    assert (Hkl : zlen key = 3819) by (unfold zlen, key; by rewrite length_replicate).
    assert (Hvl : zlen value = 206) by (unfold zlen, value; by rewrite length_replicate).
    assert (Hsz : leaf_size (key, value) = 4025) by (unfold leaf_size; cbn [fst snd]; lia).
    assert (Hd : GetDataEnd s id = 0) by (unfold GetDataEnd; by rewrite (po_count _ _ _ _ _ _ (proj1 Hok))).
    pose proof (Insert_ok s id d [] key value Hpm Hlive Hok Hs Hav ltac:(lia)) as H.
    rewrite !decide_False in H by (apply not_elem_of_nil || (unfold fits; rewrite Hsz, Hd, zlen_nil; off_lia)).
    destruct H as (s' & E & _). exists key, value, s'. split; [done|]. split; [|done].
    rewrite (IsFull_key_only s id d []), Hd, Hkl by (done || lia). reflexivity.
Qed.

(** ** The theorems at a concrete page *)

(** Eight pages of which the first two are used, page 1 as a leaf without entries. *)
Definition example_tree : PageManager := (InitLeafPage 1 1 example_pm).1.

Lemma example_tree_ok : pm_ok example_tree /\ live example_tree 1 /\ leaf_rep example_tree 1 ∅.
Proof.
  destruct (InitPage_ok (entry := leaf_entry) example_pm 1 PageTypeLeaf 1) as (s & E & _ & Ho & _);
    [unfold PageTypeLeaf; lia|].
  assert (Es : example_tree = s) by (unfold example_tree, InitLeafPage; by rewrite E).
  pose proof (op_rest _ _ _ Ho) as Hs.
  split; [|split].
  - rewrite Es, Hs. apply pm_ok_mem. constructor; cbn; try constructor; lia.
  - rewrite Es, Hs. split; [cbn; lia|split; [cbn; lia|apply not_elem_of_nil]].
  - exists []. split; [|done]. split; [exists 0; exact example_leaf|constructor].
Qed.

Lemma example_tree_avail : avail example_tree = 6.
Proof. vm_compute. reflexivity. Qed.

Definition value1 : bytes := [1; 0; 0; 0; 0; 0; 0; 0; 0; 5].
Definition example_entries : list (bytes * bytes) := [([7], value1); ([8], value1)].

Lemma example_leaf2 : exists s, pm_ok s /\ live s 1 /\ leaf_rep s 1 (list_to_map example_entries) /\ avail s = 6.
Proof.
  destruct example_tree_ok as (Hpm & Hl & _).
  destruct (InsertLeafEntry_ok _ 1 0 [] 0 [7] value1 example_leaf (le_n _)) as (s1 & _ & Hok1 & Ho1 & _);
    [vm_compute; discriminate|].
  destruct (InsertLeafEntry_ok s1 1 11 [([7], value1)] 1 [8] value1 Hok1 (le_n _)) as (s2 & _ & Hok2 & Ho2 & _);
    [vm_compute; discriminate|].
  pose proof (op_rest _ _ _ (only_page_trans _ _ _ _ Ho1 Ho2)) as Hs.
  exists s2. rewrite Hs. split; [by apply pm_ok_mem|]. split; [exact Hl|]. split; [|exact example_tree_avail].
  rewrite <- Hs. exists example_entries. split; [|done]. split; [by exists 22|]. repeat constructor.
Qed.

Lemma leaf_get_refines_witness :
  exists s, leafGet s 1 [8] = Ret value1 /\ leafGet s 1 [9] = Fail (Sentinel ErrBTreeKeyNotFound).
Proof.
  destruct example_leaf2 as (s & _ & _ & Hrep & _). exists s. split.
  - exact (leaf_get_refines s 1 _ [8] Hrep).
  - exact (leaf_get_refines s 1 _ [9] Hrep).
Defined.

Lemma leaf_insert_refines_witness :
  exists new s', Insert 1 [9] value1 example_tree = (s', Ret new) /\ leaf_rep s' new {[ [9] := value1 ]} /\
    leaf_rep s' 1 ∅.
Proof.
  destruct example_tree_ok as (Hpm & Hl & Hrep).
  pose proof (leaf_insert_refines example_tree 1 ∅ [9] value1 Hpm Hl Hrep
    ltac:(rewrite example_tree_avail; lia) eq_refl) as H.
  rewrite lookup_empty, decide_True in H by (vm_compute; discriminate).
  destruct H as (new & s' & E & Hx & R). exists new, s'. split; [exact E|]. split; [exact R|].
  by apply Hx.
Defined.

(** A shorter value for a key that is there. *)
Lemma leaf_update_refines_witness :
  exists s new s', leafUpdate 1 [8] [0; 1] s = (s', Ret new) /\
    leaf_rep s' new (<[[8] := [0; 1]]> (list_to_map example_entries)).
Proof.
  destruct example_leaf2 as (s & Hpm & Hl & Hrep & Ha).
  destruct (leaf_update_refines s 1 _ [8] value1 [0; 1] (match tombstoneOf value1 with Ret b => b | _ => false end)
    (match tombstoneOf [0; 1] with Ret b => b | _ => false end) Hpm Hl Hrep ltac:(lia) eq_refl eq_refl)
    as [(new & s' & E & _ & R)|[Hlt _]].
  - reflexivity.
  - reflexivity.
  - by exists s, new, s'.
  - vm_compute in Hlt. discriminate Hlt.
Defined.

Lemma leaf_delete_refines_witness :
  exists s new s', leafDelete 1 [8] s = (s', Ret new) /\
    leaf_rep s' new (delete [8] (list_to_map example_entries)).
Proof.
  destruct example_leaf2 as (s & Hpm & Hl & Hrep & Ha).
  destruct (leaf_delete_refines s 1 _ [8] Hpm Hl Hrep ltac:(lia)) as (new & s' & E & _ & R).
  by exists s, new, s'.
Defined.

Lemma leaf_split_refines_witness :
  exists s l r k s', Split 1 s = (s', Ret (l, r, k)).
Proof.
  destruct example_leaf2 as (s & Hpm & Hl & Hrep & Ha).
  pose proof (leaf_split_refines s 1 _ Hpm Hl Hrep ltac:(lia)) as H.
  rewrite decide_True in H by (vm_compute; lia).
  destruct H as (l & r & k & s' & _ & _ & E & _). by exists s, l, r, k, s'.
Defined.

Lemma write_guard_bound_witness :
  exists s, leaf_rep s 1 ∅ /\ exists key value s', zlen value = 206 /\ IsFull s 1 (zlen key) 0 = false /\
     Insert 1 key value s = (s', Fail (Wrap errPageFull "leaf insert entry")).
Proof.
  destruct example_tree_ok as (Hpm & Hl & Hrep). exists example_tree. split; [exact Hrep|].
  apply (write_guard_bound example_tree 1 ∅ Hpm Hl Hrep); [rewrite example_tree_avail; lia|reflexivity].
Defined.
