(* ===== verification/NodePage.v ===== *)
(** * Internal pages of the B+Tree (storage/btree/node_page.go, children_cache.go)

    A handle is the number of its page.  A page stands for ascending keys and one
    child more; a key is routed to the child whose number is how many keys are not
    above it.  The theorems say what every operation does to that list of keys and
    children, and so to the routing. *)

From stdpp Require Import base list gmap strings sorting.
From Stdlib Require Import ZArith Lia.
From S2P Require Import Prelude MvccCodec OffHeap PageLayout LeafPage LeafMap.

Local Open Scope Z_scope.

Module Node.
(** ** The methods of [nodePageHandle] *)

Definition MaxInternalKeys : Z := 126.

Definition Count (s : PageManager) (id : Z) : Z := GetCount s id.

(** [float64(n)/4096 > 0.90]: no integer lies between 0.90 * 4096 and its rounding. *)
Definition over90 (n : Z) : bool := 90 * PageSize <? 100 * n.

Definition IsFull (s : PageManager) (id keyLen : Z) : bool :=
  let count := GetCount s id in
  if MaxInternalKeys <=? count then true
  else
    let requiredSpace := u32 (SizeofIndexEntry + u32 keyLen) in
    let usedSpace := u32 (SizeofPageHeader + count * SizeofIndexEntry + GetDataEnd s id) in
    over90 (u32 (usedSpace + requiredSpace)).

Definition Search (s : PageManager) (id : Z) (key : bytes) : outcome (Z * bool) :=
  r ← SearchChildIndex s id key;
  if (r.2 : bool) then Ret (r.1 + 1, true) else Ret (r.1, false).

Definition GetKey (s : PageManager) (id idx : Z) : outcome bytes :=
  e ← GetIndexEntry s id idx; Ret (PageLayout.GetKey s id (ie_keyOff e) (ie_keyLen e)).
Definition GetChild (s : PageManager) (id idx : Z) : outcome Z :=
  encoded ← PageLayout.GetChild s id idx; Ret (DecodeChildWithVersion encoded).1.
Definition ChildCount (s : PageManager) (id : Z) : Z := Count s id + 1.

Definition errReplaceRange : gerr :=
  Wrap (Sentinel ErrBTreeValidationError) "btree: node replace child: index out of range"%string.
Definition errInsertRange : gerr :=
  Wrap (Sentinel ErrBTreeValidationError) "btree: node insert child: index out of range"%string.
Definition errRemoveRange : gerr :=
  Wrap (Sentinel ErrBTreeValidationError) "btree: node remove child: index out of range"%string.
Definition errOnlyEntry : gerr :=
  Wrap (Sentinel ErrBTreeValidationError) "btree: remove child: cannot remove only entry, node would be empty"%string.

(** [fmt.Errorf] with [%w]: a prefix, and the same sentinel for [errors.Is]. *)
Definition errorfAs (details : string) (err : gerr) : gerr := Wrap err details.
Definition errNodeSplitMinKeys : gerr :=
  NexError ErrBTreeNotImplemented "node split: page has entries"%string.

Definition ReplaceChild (id idx newChildID : Z) : stM PageManager Z :=
  s ← getS;
  if (idx <? 0) || (Count s id <? idx) then failS errReplaceRange
  else
    newRawID ← onErr Alloc (wrapAs "node replace child alloc");
    _ ← cowCopy id newRawID;
    _ ← SetChild newRawID idx (u32 newChildID);
    mret newRawID.

(** [InsertChild], on the copied page. *)
Definition insertChildCopy (idx count newRawID : Z) (splitKey : bytes) (left right : Z) : stM PageManager Z :=
  s ← getS;
  let dataEnd := GetDataEnd s newRawID in
  if idx <? count then
    _ ← SetChild newRawID idx (u32 right);
    _ ← orFree [newRawID] (wrapAs "node insert child entry")
          (InsertIndexEntry newRawID idx splitKey (u32 left) dataEnd);
    mret newRawID
  else
    _ ← orFree [newRawID] (wrapAs "node insert child at end")
          (InsertIndexEntry newRawID count splitKey (u32 left) dataEnd);
    _ ← SetChild newRawID (count + 1) (u32 right);
    mret newRawID.

Definition InsertChild (id idx : Z) (splitKey : bytes) (left right : Z) : stM PageManager Z :=
  s ← getS;
  let count := Count s id in
  if (idx <? 0) || (count <? idx) then failS errInsertRange
  else
    newRawID ← onErr Alloc (wrapAs "node insert child alloc");
    _ ← cowCopy id newRawID;
    insertChildCopy idx count newRawID splitKey left right.

(** Keys and children of the entries [i .. i + n - 1] but [skip]. *)
Fixpoint collectIndex (s : PageManager) (id skip i : Z) (n : nat) : outcome (list (bytes * Z)) :=
  match n with
  | O => Ret []
  | S n =>
      if i =? skip then collectIndex s id skip (i + 1) n
      else
        e ← GetIndexEntry s id i;
        rest ← collectIndex s id skip (i + 1) n;
        Ret ((PageLayout.GetKey s id (ie_keyOff e) (ie_keyLen e), u32 (ie_child e)) :: rest)
  end.

(** Index entries appended one after another from index [i]. *)
Fixpoint insertIndexAll (id i : Z) (kcs : list (bytes * Z)) (dataEnd : Z) : stM PageManager Z :=
  match kcs with
  | [] => mret dataEnd
  | kc :: kcs =>
      dataEnd' ← InsertIndexEntry id i kc.1 kc.2 dataEnd;
      insertIndexAll id (i + 1) kcs dataEnd'
  end.

Definition removeRebuild (newRawID srcVersion extraChild : Z) (kcs : list (bytes * Z)) : stM PageManager Z :=
  _ ← InitIndexPage newRawID (u64 (srcVersion + 1));
  _ ← orFree [newRawID] (errorfAs "btree: remove child rebuild") (insertIndexAll newRawID 0 kcs 0);
  _ ← SetChild newRawID (zlen kcs) extraChild;
  mret newRawID.

Definition RemoveChild (id idx : Z) : stM PageManager Z :=
  s ← getS;
  let count := Count s id in
  if (idx <? 0) || (count <? idx) then failS errRemoveRange
  else if count =? 1 then failS errOnlyEntry
  else
    let srcVersion := GetVersion s id in
    kcs ← liftS (collectIndex s id idx 0 (Z.to_nat count));
    encoded ← liftS (PageLayout.GetChild s id count);
    newRawID ← onErr Alloc (errorfAs "btree: remove child alloc");
    removeRebuild newRawID srcVersion (u32 encoded) kcs.

Definition splitFill (id mid count leftRawID rightRawID : Z) : stM PageManager unit :=
  s ← getS;
  let version := u64 (GetVersion s id + 1) in
  leftExtraChild ← liftS (PageLayout.GetChild s id mid);
  _ ← orFree [leftRawID; rightRawID] (wrapAs "node split left bulk init")
        (BulkInitIndexFromSource id leftRawID 0 mid leftExtraChild);
  _ ← SetVersion leftRawID version;
  s1 ← getS;
  rightExtraChild ← liftS (PageLayout.GetChild s1 id count);
  _ ← orFree [leftRawID; rightRawID] (wrapAs "node split right bulk init")
        (BulkInitIndexFromSource id rightRawID (mid + 1) count rightExtraChild);
  SetVersion rightRawID version.

Definition Split (id : Z) : stM PageManager (Z * Z * bytes) :=
  s ← getS;
  let count := Count s id in
  if count <? 2 then failS errNodeSplitMinKeys
  else
    let mid := Z.quot count 2 in
    splitKey ← liftS (GetKey s id mid);
    leftRawID ← onErr Alloc (wrapAs "node split alloc left");
    rightRawID ← orFree [leftRawID] (wrapAs "node split alloc right") Alloc;
    _ ← splitFill id mid count leftRawID rightRawID;
    mret (leftRawID, rightRawID, splitKey).

Fixpoint validateLoop (s : PageManager) (id i : Z) (n : nat) : outcome unit :=
  match n with
  | O => Ret tt
  | S n =>
      prev ← GetKey s id (i - 1);
      curr ← GetKey s id i;
      match bytes_compare prev curr with
      | Lt => validateLoop s id (i + 1) n
      | _ => Fail (NexError ErrBTreeInvalidPage "node validate: key ordering violation"%string)
      end
  end.
Definition Validate (s : PageManager) (id : Z) : outcome unit :=
  validateLoop s id 1 (Z.to_nat (Count s id - 1)).
End Node.

(** ** The children cache *)

Module Cache.
(** [Children] holds references, here any type. *)
Record ChildrenCache (ref : Type) := { Children : list ref; Separators : list bytes }.
Arguments Children {ref} _.
Arguments Separators {ref} _.

Fixpoint searchLoop (key : bytes) (seps : list bytes) (lo hi : Z) (fuel : nat) : outcome Z :=
  match fuel with
  | O => Panic
  | S fuel =>
      if lo <? hi then
        let mid := lo + Z.quot (hi - lo) 2 in
        match seps !! Z.to_nat mid with
        | Some sep =>
            match bytes_compare key sep with
            | Lt => searchLoop key seps lo mid fuel
            | _ => searchLoop key seps (mid + 1) hi fuel
            end
        | None => Panic
        end
      else Ret lo
  end.

(** A nil cache and an empty one give 0. *)
Definition Search {ref} (c : option (ChildrenCache ref)) (key : bytes) : outcome Z :=
  match c with
  | None => Ret 0
  | Some c =>
      match Children c, Separators c with
      | [], _ | _, [] => Ret 0
      | _, seps => searchLoop key seps 0 (zlen seps) (S (length seps))
      end
  end.
End Cache.

(** ** What an internal page stands for *)

(** The page numbers of the children of the entries [es] and of the last child. *)
Definition kids (es : list (bytes * Z)) (extra : Z) : list Z :=
  ((fun kc => (DecodeChildWithVersion kc.2).1) <$> es) ++ [(DecodeChildWithVersion extra).1].

(** Page [id] holds the keys [ks], ascending, and the children [cs]. *)
Definition node_list (s : PageManager) (id : Z) (ks : list bytes) (cs : list Z) : Prop :=
  exists d es, index_ok s id d es /\ keys_sorted ks /\ ks = es.*1 /\
    cs = kids es (getField s id hExtraChild).

(** How many keys are not above [key]: the number of the child it is routed to. *)
Definition upper_bound (key : bytes) (ks : list bytes) : nat :=
  length (filter (fun k => ~ bytes_lt key k) ks).

(** The child a key is routed to. *)
Definition route (ks : list bytes) (cs : list Z) (key : bytes) : option Z := cs !! upper_bound key ks.

(** The child [idx] replaced by two. *)
Definition split_child {A} (idx : nat) (l r : A) (cs : list A) : list A :=
  take idx cs ++ l :: r :: drop (S idx) cs.

(** ** Lists of keys and children *)

Lemma length_kids es extra : length (kids es extra) = S (length es).
Proof. unfold kids. rewrite length_app, length_fmap. cbn. lia. Qed.

Lemma kids_insert_at idx k enc es extra : (idx <= length es)%nat ->
  kids (insert_at idx (k, enc) es) extra = insert_at idx (DecodeChildWithVersion enc).1 (kids es extra).
Proof.
  intros Hi. unfold kids. rewrite insert_at_fmap. cbn [snd]. unfold insert_at.
  rewrite take_app_le, drop_app_le by (rewrite length_fmap; lia). by rewrite <- !app_assoc.
Qed.

Definition set_enc (enc : Z) (kc : bytes * Z) : bytes * Z := (kc.1, enc).

Lemma kids_set_enc idx enc es extra : (idx < length es)%nat ->
  kids (alter (set_enc enc) idx es) extra = <[idx := (DecodeChildWithVersion enc).1]> (kids es extra).
Proof.
  intros Hi. unfold kids. rewrite insert_app_l by (by rewrite length_fmap). f_equal.
  apply list_eq. intros j. rewrite list_lookup_fmap, list_lookup_alter.
  destruct (decide (idx = j)) as [->|Hne].
  - rewrite list_lookup_insert_eq by (by rewrite length_fmap).
    destruct (lookup_lt_is_Some_2 es j Hi) as [x ->]. done.
  - rewrite list_lookup_insert_ne, list_lookup_fmap by done. done.
Qed.

Lemma set_enc_keys idx enc (es : list (bytes * Z)) : (alter (set_enc enc) idx es).*1 = es.*1.
Proof.
  apply list_eq. intros j. rewrite !list_lookup_fmap, list_lookup_alter.
  destruct (decide (idx = j)) as [->|]; [|done]. by destruct (es !! j).
Qed.

Lemma alter_out {A} (f : A -> A) i (l : list A) : (length l <= i)%nat -> alter f i l = l.
Proof.
  intros Hi. apply list_eq. intros j. rewrite list_lookup_alter. destruct (decide (i = j)) as [<-|]; [|done].
  by rewrite lookup_ge_None_2.
Qed.

Lemma split_child_middle {A} idx (l r : A) cs :
  (idx < length cs)%nat -> insert_at idx l (<[idx := r]> cs) = split_child idx l r cs.
Proof.
  intros Hi. unfold insert_at, split_child. rewrite take_insert_ge by lia. f_equal. f_equal.
  rewrite (drop_S _ r idx) by (by apply list_lookup_insert_eq). by rewrite drop_insert_lt by lia.
Qed.

Lemma split_child_end {A} (l r : A) cs x :
  insert_at (length cs) l (cs ++ [x]) = cs ++ [l; x] /\ split_child (length cs) l r (cs ++ [x]) = cs ++ [l; r].
Proof.
  unfold insert_at, split_child. rewrite take_app_length. split; f_equal; f_equal.
  - by rewrite drop_app_length.
  - f_equal. rewrite drop_ge; [done|rewrite length_app; cbn; lia].
Qed.

(** ** Pages: setting a child pointer *)

Lemma setChild_entry s p d es idx enc :
  index_ok s p d es -> (idx < length es)%nat -> is_u64 enc ->
  let s' := with_mem (storeU 8 (mem s) (slot p (Z.of_nat idx) + 8) enc) s in
  index_ok s' p d (alter (set_enc enc) idx es) /\ only_page p s s' /\
  forall f, getField s' p f = getField s p f.
Proof.
  intros Hok Hidx He s'. pose proof Hok as [[Hc Ht Hd0 Hf Hent] Hd].
  assert (Hlen : zlen (alter (set_enc enc) idx es) = zlen es) by (unfold zlen; by rewrite length_alter).
  assert (Hbyte : forall x, x < slot p (Z.of_nat idx) + 8 \/ slot p (Z.of_nat idx) + 16 <= x ->
    byteAt (mem s') x = byteAt (mem s) x) by (intros x Hx; apply byteAt_storeU; lia).
  assert (Hn : Z.of_nat idx < zlen es) by (unfold zlen; lia).
  assert (Hslot : forall j, 0 <= j < zlen es -> j <> Z.of_nat idx ->
    load (mem s') (slot p j) 16 = load (mem s) (slot p j) 16)
    by (intros j Hj Hne; apply load_storeU_disj; slot_lia).
  assert (Hlow : forall f a, slot p f <= a -> a + 4 <= slot p f + 8 -> 0 <= f < zlen es ->
    loadU 4 (mem s') a = loadU 4 (mem s) a) by (intros; apply loadU_storeU_disj; slot_lia).
  assert (Henc : loadU 8 (mem s') (slot p (Z.of_nat idx) + 8) = enc).
  { unfold s'. cbn [mem with_mem]. rewrite loadU_storeU_same, Z.mod_small; [done|exact He]. }
  assert (Hfld : forall f, getField s' p f = getField s p f).
  { intros f. apply loadU_ext. intros i Hi. pose proof (field_bounds f). apply Hbyte. slot_lia. }
  split; [split|split; [|done]].
  - constructor; rewrite ?Hlen, ?Hfld; auto.
    { unfold GetCount. by rewrite Hfld. }
    intros j [k c] Hj. rewrite list_lookup_alter in Hj. pose proof (lookup_lt_is_Some_1 es j) as Hjl.
    destruct (decide (idx = j)) as [<-|Hne].
    + destruct (es !! idx) as [[k0 c0]|] eqn:Hx; [|done]. injection Hj as <- <-.
      destruct (Hent _ _ Hx) as (ko & Hie & H1 & H2 & Hk). exists ko. cbn [fst snd] in *.
      pose proof (zlen_nonneg k0). unfold indexEntryAt in Hie |- *. injection Hie as E1 E2 E3.
      rewrite (Hlow (Z.of_nat idx)), (Hlow (Z.of_nat idx)) by slot_lia. rewrite E1, E2.
      rewrite Henc. split; [done|]. split; [done|]. split; [done|]. rewrite <- Hk at 2.
      apply load_ext. intros i Hi. apply Hbyte. slot_lia.
    + pose proof (lookup_lt_Some _ _ _ Hj) as Hlt. specialize (Hent _ _ Hj).
      apply (entry_local (mem s) _ p _ d _ (Z.of_nat j)); [done|slot_lia| |].
      * apply Hslot; unfold zlen; lia.
      * intros o Ho. apply Hbyte. slot_lia.
  - rewrite Hlen. intros a b Ha Hb Hab.
    assert (Hsp : forall j, 0 <= j < zlen es ->
      span_lo (mem s') p j = span_lo (mem s) p j /\ span_hi (entry := index_entry) (mem s') p j = span_hi (mem s) p j).
    { intros j Hj. unfold span_lo, span_hi. cbn [slot_hi index_layout]. unfold index_hi, indexEntryAt. cbn [ie_keyOff ie_keyLen].
      rewrite !(Hlow j) by lia. done. }
    destruct (Hsp a Ha) as [-> ->], (Hsp b Hb) as [-> ->]. by apply Hd.
  - constructor; [|done]. intros x Hx. apply Hbyte. slot_lia.
Qed.

Lemma SetChild_ok s p d es idx c :
  index_ok s p d es -> (idx <= length es)%nat -> is_u32 c -> c <> 0 ->
  exists s' enc, SetChild p (Z.of_nat idx) c s = (s', Ret tt) /\ (DecodeChildWithVersion enc).1 = c /\
    index_ok s' p d (alter (set_enc enc) idx es) /\ only_page p s s' /\
    getField s' p hExtraChild = (if decide (idx = length es) then enc else getField s p hExtraChild) /\
    forall f, f <> hExtraChild -> getField s' p f = getField s p f.
Proof.
  intros Hok Hidx Hc H0. pose proof Hok as [Hp _].
  destruct (encodeChild_ok s c Hc H0) as (enc & Ee & He & Hdec).
  unfold SetChild. rewrite stM_bind_get, Ee, stM_bind_lift. unfold setChildEncoded.
  rewrite stM_bind_get, (po_count _ _ _ _ _ _ Hp). unfold zlen. destruct (decide (idx = length es)) as [->|Hne].
  - rewrite Z.eqb_refl. exists (setField p hExtraChild enc s), enc. split; [done|]. split; [by rewrite Hdec|].
    rewrite alter_out by lia. split; [by apply page_ok_setField|]. split; [apply only_page_setField|].
    split; [rewrite getField_setField_same; by apply Z.mod_small|]. intros f Hf. by apply getField_setField_other.
  - rewrite (proj2 (Z.eqb_neq _ _)) by lia.
    destruct (lookup_lt_is_Some_2 es idx) as [[k c0] Hx]; [lia|].
    destruct (index_page_entry _ _ _ _ _ _ _ Hp Hx) as (e & Eg & _). rewrite Eg, stM_bind_lift.
    destruct (setChild_entry s p d es idx enc Hok ltac:(lia) He) as (Hok' & Ho & Hf).
    eexists _, enc. split; [reflexivity|]. split; [by rewrite Hdec|]. split; [done|]. split; [done|]. split; auto.
Qed.

(** ** Searching *)

Lemma filter_all {A} (P : A -> Prop) `{forall x, Decision (P x)} l : Forall P l -> filter P l = l.
Proof. induction 1 as [|x l Hx _ IH]; [done|]. by rewrite filter_cons_True, IH. Qed.
Lemma filter_none {A} (P : A -> Prop) `{forall x, Decision (P x)} l : Forall (fun x => ~ P x) l -> filter P l = [].
Proof. induction 1 as [|x l Hx _ IH]; [done|]. by rewrite filter_cons_False. Qed.

Lemma upper_bound_unique key ks n :
  keys_sorted ks -> (n <= length ks)%nat ->
  (forall i k, ks !! i = Some k -> (i < n)%nat -> ~ bytes_lt key k) ->
  (forall i k, ks !! i = Some k -> (n <= i)%nat -> bytes_lt key k) ->
  upper_bound key ks = n.
Proof.
  intros Hs Hn Hlo Hhi. unfold upper_bound. rewrite <- (take_drop n ks), filter_app, length_app.
  assert (filter (fun k => ~ bytes_lt key k) (take n ks) = take n ks) as ->.
  { apply filter_all, Forall_forall. intros k [i Hi]%list_elem_of_lookup. apply lookup_take_Some in Hi as [Hi Hin].
    by apply (Hlo i). }
  assert (filter (fun k => ~ bytes_lt key k) (drop n ks) = []) as ->.
  { apply filter_none, Forall_forall. intros k [i Hi]%list_elem_of_lookup Hk. rewrite lookup_drop in Hi.
    apply Hk. apply (Hhi (n + i)%nat); [done|lia]. }
  rewrite length_take. cbn. lia.
Qed.

Lemma upper_bound_le key ks : (upper_bound key ks <= length ks)%nat.
Proof. apply length_filter. Qed.

Lemma bytes_lt_asym a b : bytes_lt a b -> ~ bytes_lt b a.
Proof. intros H1 H2. by apply (bytes_lt_irrefl a), (bytes_lt_trans a b). Qed.

Lemma upper_lower key ks :
  keys_sorted ks ->
  upper_bound key ks = if decide (key ∈ ks) then S (lower_bound key ks) else lower_bound key ks.
Proof.
  intros Hs. assert (Hpos : forall i, ks !! i = Some key -> i = lower_bound key ks).
  { intros i Hi. symmetry. apply lower_bound_unique; [done|apply lookup_lt_Some in Hi; lia| |].
    - intros j a Ha Hj. by apply (keys_sorted_lookup ks j i).
    - intros j a Ha Hj Hlt. destruct (decide (j = i)) as [->|Hne].
      + rewrite Hi in Ha. injection Ha as ->. by apply (bytes_lt_irrefl a).
      + apply (bytes_lt_asym key a); [|done]. apply (keys_sorted_lookup ks i j); auto. lia. }
  assert (Habove : forall i k, ks !! i = Some k -> (lower_bound key ks <= i)%nat -> k <> key -> bytes_lt key k).
  { intros i k Hi Hge Hne. destruct (bytes_trichotomy key k) as [|[->|Hgt]]; [done|done|].
    apply (lower_bound_spec key ks i k Hs Hi) in Hgt. lia. }
  pose proof (lower_bound_le key ks). destruct (decide _) as [Hin|Hnin].
  - apply list_elem_of_lookup in Hin as [p Hp]. pose proof (Hpos p Hp) as Ep.
    pose proof (lookup_lt_Some _ _ _ Hp). apply upper_bound_unique; [done|lia| |].
    + intros i k Hi Hlt. destruct (decide (i = p)) as [->|Hne].
      * rewrite Hp in Hi. injection Hi as ->. apply bytes_lt_irrefl.
      * apply bytes_lt_asym. apply (keys_sorted_lookup ks i p); auto. lia.
    + intros i k Hi Hge. apply (keys_sorted_lookup ks p i); auto. lia.
  - apply upper_bound_unique; [done|lia| |].
    + intros i k Hi Hlt. apply bytes_lt_asym. by apply (lower_bound_spec key ks i k Hs Hi).
    + intros i k Hi Hge. apply (Habove i); auto. intros ->. apply Hnin. by eapply list_elem_of_lookup_2.
Qed.

Lemma node_search_ok s id ks cs key :
  node_list s id ks cs ->
  Node.Search s id key = Ret (Z.of_nat (upper_bound key ks), bool_decide (key ∈ ks)).
Proof.
  intros (d & es & [Hp _] & Hs & -> & _). unfold Node.Search, SearchChildIndex.
  rewrite (SearchKey_ok s id false (es.*1) key (index_page_keys _ _ _ _ Hp) Hs), bind_ret. cbn [fst snd].
  rewrite upper_lower by done. destruct (decide _) as [Hin|Hnin].
  - rewrite bool_decide_true by done. f_equal. f_equal. lia.
  - by rewrite bool_decide_false.
Qed.

Lemma cache_loop_ok key seps :
  keys_sorted seps -> forall fuel lo hi, (lo <= hi <= length seps)%nat -> (hi - lo < fuel)%nat ->
  (forall i k, seps !! i = Some k -> (i < lo)%nat -> ~ bytes_lt key k) ->
  (forall i k, seps !! i = Some k -> (hi <= i)%nat -> bytes_lt key k) ->
  Cache.searchLoop key seps (Z.of_nat lo) (Z.of_nat hi) fuel = Ret (Z.of_nat (upper_bound key seps)).
Proof.
  intros Hs. induction fuel as [|fuel IH]; intros lo hi Hr Hf Hlo Hhi; [lia|]. cbn [Cache.searchLoop].
  destruct (Z.ltb_spec (Z.of_nat lo) (Z.of_nat hi)) as [Hlt|Hge].
  2:{ assert (lo = hi) as -> by lia. f_equal. f_equal. symmetry. by apply upper_bound_unique; [done|lia|..]. }
  set (mid := (lo + (hi - lo) / 2)%nat).
  assert (Hmid : (lo <= mid < hi)%nat).
  { pose proof (Nat.div_lt (hi - lo) 2 ltac:(lia) ltac:(lia)). unfold mid. lia. }
  replace (Z.of_nat lo + Z.quot (Z.of_nat hi - Z.of_nat lo) 2) with (Z.of_nat mid)
    by (unfold mid; rewrite <- Nat2Z.inj_sub, Z.quot_div_nonneg, Nat2Z.inj_add, Nat2Z.inj_div by lia; done).
  cbv zeta. rewrite Nat2Z.id. destruct (lookup_lt_is_Some_2 seps mid) as [sep Hsep]; [lia|]. rewrite Hsep.
  replace (Z.of_nat mid + 1) with (Z.of_nat (S mid)) by lia.
  assert (Hcmp : bytes_lt key sep \/ ~ bytes_lt key sep) by (destruct (decide (bytes_lt key sep)); auto).
  destruct Hcmp as [Hc|Hc].
  - assert (bytes_compare key sep = Lt) as -> by exact Hc. apply IH; auto; try lia.
    intros i k Hi Hge. destruct (decide (i = mid)) as [->|Hne].
    + rewrite Hsep in Hi. by injection Hi as <-.
    + eapply bytes_lt_trans; [exact Hc|]. apply (keys_sorted_lookup seps mid i); auto. lia.
  - assert (E : Cache.searchLoop key seps (Z.of_nat (S mid)) (Z.of_nat hi) fuel = Ret (Z.of_nat (upper_bound key seps))).
    { apply IH; auto; try lia. intros i k Hi Hlti. destruct (decide (i = mid)) as [->|Hne].
      - rewrite Hsep in Hi. by injection Hi as <-.
      - intros Hk. apply Hc. eapply bytes_lt_trans; [exact Hk|]. apply (keys_sorted_lookup seps i mid); auto. lia. }
    unfold bytes_lt in Hc. by destruct (bytes_compare key sep).
Qed.

Lemma cache_search_ok {ref} (c : Cache.ChildrenCache ref) key :
  keys_sorted (Cache.Separators c) -> Cache.Children c <> [] ->
  Cache.Search (Some c) key = Ret (Z.of_nat (upper_bound key (Cache.Separators c))).
Proof.
  intros Hs Hc. unfold Cache.Search. destruct (Cache.Children c); [done|].
  destruct (Cache.Separators c) as [|sep seps] eqn:E; [done|]. rewrite <- E in *. change 0 with (Z.of_nat 0).
  apply cache_loop_ok; auto; try lia.
  intros i k Hi Hge. apply lookup_lt_Some in Hi. lia.
Qed.

(** ** Changing one child *)

Lemma zlen_fmap {A B} (f : A -> B) (l : list A) : zlen (f <$> l) = zlen l.
Proof. unfold zlen. by rewrite length_fmap. Qed.

Lemma InsertIndexEntry_full s p idx d k c n :
  GetCount s p = n -> 0 <= n -> 0 <= d -> SizeofPageHeader + n * 16 + d <= PageSize ->
  c <> 0 -> zlen k < 2 ^ 31 -> PageSize < SizeofPageHeader + (n + 1) * 16 + d + zlen k ->
  InsertIndexEntry p idx k c d s = (s, Fail errPageFull).
Proof.
  intros Hc Hn Hd Hfit H0 Hk Hover. pose proof (zlen_nonneg k). unfold InsertIndexEntry.
  rewrite (proj2 (Z.eqb_neq _ _)), stM_bind_get, Hc by done. cbv zeta. unfold SizeofIndexEntry.
  rewrite (u32_id (zlen k)) by (unfold is_u32; lia).
  rewrite !(u32_id (16 + _)), !(u32_id (SizeofPageHeader + _ + _)) by (unfold is_u32; off_lia).
  rewrite (u32_id (_ + _ + _ + _)) by (unfold is_u32; off_lia).
  by rewrite (proj2 (Z.ltb_lt _ _)) by off_lia.
Qed.

(** The entry fits next to the keys [ks] of the page. *)
Definition node_fits (s : PageManager) (id : Z) (ks : list bytes) (key : bytes) : Prop :=
  SizeofPageHeader + (zlen ks + 1) * 16 + GetDataEnd s id + zlen key <= PageSize.

#[export] Instance node_fits_dec s id ks key : Decision (node_fits s id ks key).
Proof. unfold node_fits. apply _. Defined.

Definition insert_details (idx : nat) (ks : list bytes) : string :=
  if decide (idx < length ks)%nat then "node insert child entry" else "node insert child at end".

Section insert_child.
Context (s s2 : PageManager) (id new : Z) (es : list (bytes * Z)) (idx : nat) (sep : bytes) (l r : Z).
Context (Hg : grew [new] s s2) (Hn : ~ live s new) (Hok : index_ok s2 new (GetDataEnd s id) es).
Context (Hde : GetDataEnd s2 new = GetDataEnd s id) (Hidx : (idx <= length es)%nat).
Context (Hl : is_u32 l /\ l <> 0) (Hr : is_u32 r /\ r <> 0) (Hsz : zlen sep < 2 ^ 31).

Lemma insertChildCopy_fits :
  node_fits s id (es.*1) sep ->
  exists s' d' es', Node.insertChildCopy (Z.of_nat idx) (zlen es) new sep l r s2 = (s', Ret new) /\ grew [new] s s' /\
    index_ok s' new d' es' /\ es'.*1 = insert_at idx sep (es.*1) /\
    kids es' (getField s' new hExtraChild) = split_child idx l r (kids es (getField s2 new hExtraChild)).
Proof.
  intros Hfit. unfold node_fits in Hfit. rewrite zlen_fmap in Hfit.
  destruct Hl as [Hl1 Hl2], Hr as [Hr1 Hr2]. unfold Node.insertChildCopy. rewrite stM_bind_get, Hde. cbv zeta.
  rewrite !u32_id by done. destruct (decide (idx = length es)) as [->|Hne].
  - unfold zlen. rewrite Z.ltb_irrefl.
    destruct (InsertIndexEntry_ok s2 new _ es (length es) sep l Hok (le_n _) Hl1 Hl2 Hfit)
      as (s3 & enc & E3 & Henc & Hok3 & Ho3 & Hf3).
    rewrite (stM_bind_ret _ _ _ _ _ (orFree_ret _ _ _ _ _ _ E3)). rewrite insert_at_end in Hok3.
    assert (Hlen : length (es ++ [(sep, enc)]) = S (length es)) by (rewrite length_app; cbn; lia).
    destruct (SetChild_ok s3 new _ _ (S (length es)) r Hok3 ltac:(lia) Hr1 Hr2)
      as (s4 & enc4 & E4 & Henc4 & Hok4 & Ho4 & Hx4 & _).
    replace (Z.of_nat (length es) + 1) with (Z.of_nat (S (length es))) by lia.
    rewrite (stM_bind_ret _ _ _ _ _ E4). exists s4. eexists _, _. split; [done|].
    split; [eapply grew_only; [eapply grew_only|..]; eauto|]. split; [exact Hok4|].
    rewrite set_enc_keys, fmap_app, Hx4, decide_True by done. rewrite alter_out by lia.
    assert (Hkl : length es = length (es.*1)) by (by rewrite length_fmap).
    split; [rewrite Hkl; symmetry; apply insert_at_end|]. unfold kids. rewrite fmap_app. cbn [fmap list_fmap snd].
    rewrite Henc, Henc4, <- app_assoc. cbn [app].
    rewrite <- (length_fmap (fun kc : bytes * Z => (DecodeChildWithVersion kc.2).1) es).
    by rewrite (proj2 (split_child_end l r _ _)).
  - rewrite (proj2 (Z.ltb_lt _ _)) by (unfold zlen; lia).
    destruct (SetChild_ok s2 new _ es idx r Hok Hidx Hr1 Hr2) as (s3 & enc3 & E3 & Henc3 & Hok3 & Ho3 & Hx3 & _).
    rewrite (stM_bind_ret _ _ _ _ _ E3).
    destruct (InsertIndexEntry_ok s3 new _ _ idx sep l Hok3) as (s4 & enc & E4 & Henc & Hok4 & Ho4 & Hf4); auto.
    { by rewrite length_alter. } { replace (zlen (alter (set_enc enc3) idx es)) with (zlen es) by (unfold zlen; by rewrite length_alter). lia. }
    rewrite (stM_bind_ret _ _ _ _ _ (orFree_ret _ _ _ _ _ _ E4)). exists s4. eexists _, _. split; [done|].
    split; [eapply grew_only; [eapply grew_only|..]; eauto|]. split; [exact Hok4|].
    rewrite insert_at_fmap, set_enc_keys. split; [done|].
    rewrite Hf4, Hx3, decide_False by done. rewrite kids_insert_at by (rewrite length_alter; lia).
    rewrite kids_set_enc, Henc, Henc3 by lia. apply split_child_middle. rewrite length_kids. lia.
Qed.

Lemma insertChildCopy_full :
  ~ node_fits s id (es.*1) sep ->
  exists s', Node.insertChildCopy (Z.of_nat idx) (zlen es) new sep l r s2 =
    (s', Fail (Wrap errPageFull (insert_details idx (es.*1)))) /\ grew [] s s'.
Proof.
  intros Hfull. unfold node_fits in Hfull. rewrite zlen_fmap in Hfull.
  destruct Hl as [Hl1 Hl2], Hr as [Hr1 Hr2]. unfold Node.insertChildCopy, insert_details.
  rewrite stM_bind_get, Hde, length_fmap. cbv zeta.
  pose proof (po_fit _ _ _ _ _ _ (proj1 Hok)). pose proof (po_data _ _ _ _ _ _ (proj1 Hok)). pose proof (zlen_nonneg es).
  rewrite !u32_id by done. destruct (decide (idx < length es)%nat) as [Hlt|Hge].
  - rewrite (proj2 (Z.ltb_lt _ _)) by (unfold zlen; lia).
    destruct (SetChild_ok s2 new _ es idx r Hok Hidx Hr1 Hr2) as (s3 & enc3 & E3 & _ & Hok3 & Ho3 & _).
    rewrite (stM_bind_ret _ _ _ _ _ E3). pose proof (grew_only _ _ _ _ _ Hg Ho3 Hn) as Hg3.
    destruct (orFree_fail1 (wrapAs "node insert child entry")
      (InsertIndexEntry new (Z.of_nat idx) sep l (GetDataEnd s id)) s s3 s3 [] new errPageFull) as (s4 & E4 & Hg4); auto.
    { apply (InsertIndexEntry_full s3 new _ _ sep l (zlen es)); try lia; auto.
      rewrite (po_count _ _ _ _ _ _ (proj1 Hok3)). unfold zlen. by rewrite length_alter. }
    exists s4. by rewrite (stM_bind_fail _ _ _ _ _ E4).
  - rewrite (proj2 (Z.ltb_ge _ _)) by (unfold zlen; lia).
    destruct (orFree_fail1 (wrapAs "node insert child at end")
      (InsertIndexEntry new (zlen es) sep l (GetDataEnd s id)) s s2 s2 [] new errPageFull) as (s4 & E4 & Hg4); auto.
    { apply (InsertIndexEntry_full s2 new _ _ sep l (zlen es)); try lia; auto. apply Hok. }
    exists s4. by rewrite (stM_bind_fail _ _ _ _ _ E4).
Qed.
End insert_child.

Lemma InsertChild_ok s id ks cs idx sep l r :
  pm_ok s -> live s id -> node_list s id ks cs -> 0 < avail s -> (idx <= length ks)%nat ->
  is_u32 l /\ l <> 0 -> is_u32 r /\ r <> 0 -> zlen sep < 2 ^ 31 -> keys_sorted (insert_at idx sep ks) ->
  if decide (node_fits s id ks sep)
  then exists new s', Node.InsertChild id (Z.of_nat idx) sep l r s = (s', Ret new) /\ grew [new] s s' /\
         node_list s' new (insert_at idx sep ks) (split_child idx l r cs)
  else exists s', Node.InsertChild id (Z.of_nat idx) sep l r s =
         (s', Fail (Wrap errPageFull (insert_details idx ks))) /\ grew [] s s'.
Proof.
  intros Hpm Hlive (d & es & Hok & Hs & -> & ->) Hav Hidx Hl Hr Hsz Hs'.
  rewrite length_fmap in Hidx.
  destruct (cow_started (entry := index_entry) PageTypeIndex s id d es Hpm Hlive Hok Hav)
    as (new & s1 & s2 & E1 & E2 & Hg2 & Hok2 & Hde & _ & Hf2 & Hn).
  assert (E : Node.InsertChild id (Z.of_nat idx) sep l r s = Node.insertChildCopy (Z.of_nat idx) (zlen es) new sep l r s2).
  { unfold Node.InsertChild. rewrite stM_bind_get. unfold Node.Count. rewrite (po_count _ _ _ _ _ _ (proj1 Hok)).
    cbv zeta. rewrite (proj2 (Z.ltb_ge _ 0)), (proj2 (Z.ltb_ge _ _)) by (unfold zlen; lia). cbn [orb].
    by rewrite (stM_bind_ret _ _ _ _ _ (onErr_ret _ _ _ _ _ E1)), (stM_bind_ret _ _ _ _ _ E2). }
  rewrite E, <- (Hf2 hExtraChild) by done. destruct (decide _) as [Hfit|Hfull].
  - destruct (insertChildCopy_fits s s2 id new es idx sep l r Hg2 Hn Hok2 Hde Hidx Hl Hr Hfit)
      as (s' & d' & es' & E' & Hg' & Hok' & Hk' & Hc'). exists new, s'. split; [done|]. split; [done|].
    exists d', es'. split; [done|]. rewrite Hk'. auto.
  - exact (insertChildCopy_full s s2 id new es idx sep l r Hg2 Hn Hok2 Hde Hidx Hl Hr Hsz Hfull).
Qed.

Lemma ReplaceChild_ok s id ks cs idx c :
  pm_ok s -> live s id -> node_list s id ks cs -> 0 < avail s -> (idx <= length ks)%nat ->
  is_u32 c /\ c <> 0 ->
  exists new s', Node.ReplaceChild id (Z.of_nat idx) c s = (s', Ret new) /\ grew [new] s s' /\
    node_list s' new ks (<[idx := c]> cs).
Proof.
  intros Hpm Hlive (d & es & Hok & Hs & -> & ->) Hav Hidx [Hc H0]. rewrite length_fmap in Hidx.
  destruct (cow_started (entry := index_entry) PageTypeIndex s id d es Hpm Hlive Hok Hav)
    as (new & s1 & s2 & E1 & E2 & Hg2 & Hok2 & Hde & _ & Hf2 & Hn).
  destruct (SetChild_ok s2 new _ es idx c Hok2 Hidx Hc H0) as (s3 & enc & E3 & Henc & Hok3 & Ho3 & Hx3 & _).
  exists new, s3. split; [|split; [by eapply grew_only|]].
  - unfold Node.ReplaceChild. rewrite stM_bind_get. unfold Node.Count. rewrite (po_count _ _ _ _ _ _ (proj1 Hok)).
    rewrite (proj2 (Z.ltb_ge _ 0)), (proj2 (Z.ltb_ge _ _)) by (unfold zlen; lia). cbn [orb].
    rewrite (stM_bind_ret _ _ _ _ _ (onErr_ret _ _ _ _ _ E1)), (stM_bind_ret _ _ _ _ _ E2).
    rewrite u32_id by done. by rewrite (stM_bind_ret _ _ _ _ _ E3).
  - eexists _, _. split; [exact Hok3|]. rewrite set_enc_keys. split; [done|]. split; [done|].
    rewrite Hx3, (Hf2 hExtraChild) by done. destruct (decide (idx = length es)) as [->|Hne].
    + rewrite alter_out by lia. unfold kids.
      rewrite <- (length_fmap (fun kc : bytes * Z => (DecodeChildWithVersion kc.2).1) es) at 1.
      rewrite insert_app_r_alt by lia. by rewrite Nat.sub_diag, Henc.
    + by rewrite kids_set_enc, Henc by lia.
Qed.

(** ** Rebuilding a page from its entries *)

Lemma decode_low c : (DecodeChildWithVersion c).1 = u32 c.
Proof.
  unfold DecodeChildWithVersion. cbn [fst]. unfold u32. change ChildIDMask with (Z.ones 32).
  rewrite Z.land_ones by lia. by rewrite Zmod_mod.
Qed.

Lemma decode_u64 c : (DecodeChildWithVersion (c mod 2 ^ 64)).1 = (DecodeChildWithVersion c).1.
Proof.
  rewrite !decode_low. unfold u32. replace (2 ^ 64) with (2 ^ 32 * 2 ^ 32) by lia.
  rewrite Z.rem_mul_r, Z.mul_comm, Z_mod_plus_full, Zmod_mod by lia. done.
Qed.

Lemma child_ids_keys es : (child_ids es).*1 = es.*1.
Proof. unfold child_ids. rewrite <- list_fmap_compose. by apply list_fmap_ext. Qed.

Lemma kids_child_ids es extra : kids es extra = (child_ids es).*2 ++ [(DecodeChildWithVersion extra).1].
Proof. unfold kids, child_ids. f_equal. rewrite <- list_fmap_compose. by apply list_fmap_ext. Qed.

Lemma child_ids_app es1 es2 : child_ids (es1 ++ es2) = child_ids es1 ++ child_ids es2.
Proof. apply fmap_app. Qed.

Lemma GetChild_ok s p d es idx :
  index_page s p d es -> (idx <= length es)%nat ->
  exists enc, PageLayout.GetChild s p (Z.of_nat idx) = Ret enc /\
    kids es (getField s p hExtraChild) !! idx = Some (DecodeChildWithVersion enc).1 /\
    (idx = length es -> enc = getField s p hExtraChild).
Proof.
  intros Hp Hidx. unfold PageLayout.GetChild. rewrite (po_count _ _ _ _ _ _ Hp). unfold kids, zlen.
  destruct (decide (idx = length es)) as [->|Hne].
  - rewrite Z.eqb_refl. eexists. split; [done|]. split; [|done].
    rewrite lookup_app_r, length_fmap, Nat.sub_diag by (by rewrite length_fmap). done.
  - rewrite (proj2 (Z.eqb_neq _ _)), (proj2 (Z.leb_gt _ _)) by lia.
    destruct (lookup_lt_is_Some_2 es idx) as [[k c] Hx]; [lia|].
    destruct (index_page_entry _ _ _ _ _ _ _ Hp Hx) as (e & Ee & _ & Hc & _).
    exists c. rewrite Ee, bind_ret, Hc. split; [done|]. split; [|lia].
    rewrite lookup_app_l, list_lookup_fmap, Hx by (rewrite length_fmap; lia). done.
Qed.

Lemma collectIndex_ok s p d es skip n : forall a,
  index_page s p d es -> (a + n = length es)%nat ->
  Node.collectIndex s p (Z.of_nat skip) (Z.of_nat a) n =
  Ret (if decide (skip < a)%nat then child_ids (drop a es) else remove_at (skip - a) (child_ids (drop a es))).
Proof.
  induction n as [|n IH]; intros a Hp Ha; cbn [Node.collectIndex].
  { rewrite drop_ge by lia. destruct (decide _); [done|]. unfold remove_at. cbn. by destruct (skip - a)%nat. }
  destruct (lookup_lt_is_Some_2 es a) as [[k c] Hx]; [lia|].
  destruct (index_page_entry _ _ _ _ _ _ _ Hp Hx) as (e & Ee & _ & Hc & Hk).
  replace (Z.of_nat a + 1) with (Z.of_nat (S a)) by lia. rewrite (IH (S a)) by (done || lia).
  rewrite (drop_S es (k, c) a Hx). cbn [child_ids fmap list_fmap fst snd].
  destruct (Z.eqb_spec (Z.of_nat a) (Z.of_nat skip)) as [Heq|Hne].
  - assert (skip = a) as -> by lia. rewrite decide_True, decide_False by lia. by rewrite Nat.sub_diag.
  - rewrite Ee, !bind_ret, Hk, Hc, <- decode_low. do 2 f_equal.
    destruct (decide (skip < a)%nat).
    + by rewrite decide_True by lia.
    + rewrite decide_False by lia. replace (skip - a)%nat with (S (skip - S a)) by lia. done.
Qed.

Definition child_valid (kc : bytes * Z) : Prop := is_u32 kc.2 /\ kc.2 <> 0.
Abbreviation ix_size := (data_size (entry := index_entry)).

Lemma ix_size_child_ids es : ix_size (child_ids es) = ix_size es.
Proof. induction es as [|[k c] es IH]; [done|]. unfold child_ids in *. rewrite fmap_cons. cbn [data_size]. by rewrite IH. Qed.

Lemma insertIndexAll_ok p l : forall s acc dd,
  index_ok s p dd acc -> Forall child_valid l ->
  SizeofPageHeader + (zlen acc + zlen l) * 16 + dd + ix_size l <= PageSize ->
  exists s' es, Node.insertIndexAll p (zlen acc) l dd s = (s', Ret (dd + ix_size l)) /\ child_ids es = l /\
    index_ok s' p (dd + ix_size l) (acc ++ es) /\ only_page p s s' /\
    (forall f, f <> hCount -> getField s' p f = getField s p f).
Proof.
  induction l as [|[k c] l IH]; intros s acc dd Hok Hv Hfit; cbn [Node.insertIndexAll].
  { exists s, []. cbn. rewrite app_nil_r, Z.add_0_r. split; [done|]. split; [done|]. split; [done|].
    split; [apply only_page_refl|done]. }
  apply Forall_cons in Hv as [[Hc1 Hc2] Hv]. rewrite zlen_cons in Hfit.
  cbn [data_size entry_size index_layout] in Hfit |- *.
  pose proof (data_size_nonneg (entry := index_entry) l). pose proof (zlen_nonneg l).
  destruct (InsertIndexEntry_ok s p dd acc (length acc) k c Hok (le_n _) Hc1 Hc2)
    as (s1 & enc & E & Henc & Hok1 & Ho1 & Hf1); [unfold index_size in Hfit; cbn in Hfit; lia|].
  change (Z.of_nat (length acc)) with (zlen acc) in E. rewrite (stM_bind_ret _ _ _ _ _ E).
  rewrite insert_at_end in Hok1. rewrite Z.add_assoc.
  change (zlen k) with (index_size (k, c)) in Hok1 |- *.
  destruct (IH s1 (acc ++ [(k, enc)]) (dd + index_size (k, c))) as (s' & es & E' & Hes & Hok' & Ho' & Hf'); auto.
  { rewrite zlen_app, zlen_cons, zlen_nil. lia. }
  rewrite zlen_app, zlen_cons, zlen_nil, Z.add_0_r in E'. rewrite <- app_assoc in Hok'.
  exists s', ((k, enc) :: es). split; [exact E'|].
  split; [unfold child_ids in *; rewrite fmap_cons; cbn [fst snd]; by rewrite Henc, Hes|].
  split; [exact Hok'|]. split; [by eapply only_page_trans|].
  intros f Hf. by rewrite Hf', Hf1.
Qed.

(** A fresh page initialised as an empty index page. *)
Lemma fresh_index s new v news s0 :
  grew (new :: news) s0 s -> ~ live s0 new ->
  exists s', InitIndexPage new v s = (s', Ret tt) /\ grew (new :: news) s0 s' /\ index_ok s' new 0 [] /\ only_page new s s'.
Proof.
  intros Hg Hn. destruct (InitPage_ok (entry := index_entry) s new PageTypeIndex v) as
    (s1 & E & Hp & Ho & _); [unfold PageTypeIndex; lia|].
  exists s1. split; [done|]. split; [by eapply grew_only|]. split; [split; [done|apply disjoint_nil]|done].
Qed.

(** The page built from keys and children, then its last child. *)
Lemma build_index s0 s new news v kcs extra :
  grew (new :: news) s0 s -> ~ live s0 new -> Forall child_valid kcs -> is_u32 extra -> extra <> 0 ->
  SizeofPageHeader + zlen kcs * 16 + ix_size kcs <= PageSize -> keys_sorted (kcs.*1) ->
  exists s1 s2 s3, InitIndexPage new v s = (s1, Ret tt) /\
    Node.insertIndexAll new 0 kcs 0 s1 = (s2, Ret (ix_size kcs)) /\
    SetChild new (zlen kcs) extra s2 = (s3, Ret tt) /\ grew (new :: news) s0 s3 /\
    node_list s3 new (kcs.*1) (kcs.*2 ++ [extra]) /\ GetDataEnd s3 new <= ix_size kcs.
Proof.
  intros Hg Hn Hv He He0 Hfit Hs.
  destruct (fresh_index s new v news s0 Hg Hn) as (s1 & E1 & Hg1 & Hok1 & _).
  destruct (insertIndexAll_ok new kcs s1 [] 0 Hok1 Hv) as (s2 & es & E2 & Hes & Hok2 & Ho2 & _).
  { rewrite zlen_nil. lia. }
  rewrite zlen_nil in E2. rewrite Z.add_0_l in E2, Hok2. cbn [app] in Hok2.
  assert (Hlen : length es = length kcs) by (rewrite <- Hes; unfold child_ids; by rewrite length_fmap).
  destruct (SetChild_ok s2 new _ es (length es) extra Hok2 (le_n _) He He0) as (s3 & enc & E3 & Henc & Hok3 & Ho3 & Hx3 & _).
  exists s1, s2, s3. split; [done|]. split; [done|]. split; [unfold zlen; by rewrite <- Hlen|].
  split; [eapply grew_only; [eapply grew_only|..]; eauto|].
  split; [|by apply (GetDataEnd_ok (entry := index_entry) PageTypeIndex _ _ _ _ (proj1 Hok3))].
  eexists _, _. split; [exact Hok3|].
  rewrite alter_out by lia. rewrite <- (child_ids_keys es), Hes. split; [done|]. split; [done|].
  by rewrite Hx3, decide_True, kids_child_ids, Hes, Henc.
Qed.

Lemma kids_valid es extra : Forall (fun c => c <> 0) (kids es extra) ->
  Forall child_valid (child_ids es) /\ (DecodeChildWithVersion extra).1 <> 0.
Proof.
  rewrite kids_child_ids, Forall_app, Forall_singleton. intros [H He]. split; [|done].
  unfold child_ids in *. rewrite Forall_fmap. rewrite !Forall_fmap in H.
  eapply Forall_impl; [exact H|]. intros [k c] Hc. split; [apply Decode_u32|exact Hc].
Qed.

(** Pages in use keep what they stand for. *)
Lemma grew_node news s s1 q ks cs : grew news s s1 -> live s q -> node_list s q ks cs -> node_list s1 q ks cs.
Proof.
  intros Hg Hq (d & es & Hok & Hs & Hk & Hc). exists d, es. split; [by eapply grew_page|]. split; [done|]. split; [done|].
  by rewrite (grew_field _ _ _ _ _ Hg Hq).
Qed.

(** ** Removing a child *)

Lemma ix_size_remove es i : ix_size (remove_at i es) <= ix_size es.
Proof.
  unfold remove_at. rewrite data_size_app. rewrite <- (take_drop i es) at 3. rewrite data_size_app.
  pose proof (data_size_nonneg (entry := index_entry) (drop i es)) as H.
  rewrite <- (take_drop 1 (drop i es)), drop_drop, Nat.add_1_r in H |- * .
  rewrite data_size_app in H |- *. pose proof (data_size_nonneg (entry := index_entry) (take 1 (drop i es))). lia.
Qed.

Lemma remove_at_out {A} i (l : list A) : (length l <= i)%nat -> remove_at i l = l.
Proof. intros. unfold remove_at. by rewrite take_ge, drop_ge, app_nil_r by lia. Qed.

Lemma remove_at_zlen {A} i (l : list A) : zlen (remove_at i l) <= zlen l.
Proof. unfold zlen, remove_at. rewrite length_app, length_take, length_drop. lia. Qed.

Lemma remove_at_app {A} i (l : list A) x : (i < length l)%nat -> remove_at i (l ++ [x]) = remove_at i l ++ [x].
Proof.
  intros Hi. unfold remove_at. rewrite take_app_le, drop_app_le by lia. by rewrite <- app_assoc.
Qed.

Lemma Forall_remove_at {A} (P : A -> Prop) i l : Forall P l -> Forall P (remove_at i l).
Proof. intros H. apply Forall_app. split; [by apply Forall_take|by apply Forall_drop]. Qed.

Lemma RemoveChild_ok s id ks cs idx :
  pm_ok s -> live s id -> node_list s id ks cs -> 0 < avail s -> (idx <= length ks)%nat ->
  length ks <> 1%nat -> Forall (fun c => c <> 0) cs ->
  exists new s', Node.RemoveChild id (Z.of_nat idx) s = (s', Ret new) /\ grew [new] s s' /\
    if decide (idx < length ks)%nat then node_list s' new (remove_at idx ks) (remove_at idx cs)
    else node_list s' new ks cs.
Proof.
  intros Hpm Hlive (d & es & Hok & Hs & -> & ->) Hav Hidx H1 Hcs. rewrite length_fmap in Hidx, H1 |- *.
  pose proof Hok as [Hp _]. pose proof (kids_valid _ _ Hcs) as [Hv He].
  destruct (grew_alloc [] s s (grew_refl s Hpm) Hav) as (new & s1 & E1 & Hg1 & _).
  destruct (gr_fresh _ _ _ Hg1 new ltac:(by left)) as [Hnl _].
  destruct (GetChild_ok s id d es (length es) Hp (le_n _)) as (enc & Egc & _ & Henc). specialize (Henc eq_refl).
  set (kcs := remove_at idx (child_ids es)).
  destruct (build_index s s1 new [] (u64 (GetVersion s id + 1)) kcs (DecodeChildWithVersion enc).1 Hg1 Hnl)
    as (s2 & s3 & s4 & E2 & E3 & E4 & Hg4 & Hn4 & _).
  { by apply Forall_remove_at. } { apply Decode_u32. } { by rewrite Henc. }
  { pose proof (data_size_le _ _ _ _ _ Hok). pose proof (ix_size_remove (child_ids es) idx) as Hr.
    rewrite ix_size_child_ids in Hr. pose proof (remove_at_zlen idx (child_ids es)) as Hz.
    unfold child_ids in Hz at 2. rewrite zlen_fmap in Hz. pose proof (po_fit _ _ _ _ _ _ Hp). fold kcs in Hr, Hz. lia. }
  { unfold kcs. rewrite remove_at_fmap, child_ids_keys. by apply sorted_remove_at. }
  exists new, s4. split; [|split; [done|]].
  - unfold Node.RemoveChild. rewrite stM_bind_get. unfold Node.Count. rewrite (po_count _ _ _ _ _ _ Hp).
    cbv zeta. rewrite (proj2 (Z.ltb_ge _ 0)), (proj2 (Z.ltb_ge _ _)), (proj2 (Z.eqb_neq _ 1)) by (unfold zlen; lia).
    cbn [orb]. change 0 with (Z.of_nat 0) at 1.
    rewrite (collectIndex_ok s id d es idx _ 0 Hp) by (unfold zlen; lia). rewrite stM_bind_lift.
    unfold zlen at 1. rewrite Egc, stM_bind_lift, decide_False, drop_0, Nat.sub_0_r, <- decode_low by lia.
    rewrite (stM_bind_ret _ _ _ _ _ (onErr_ret _ _ _ _ _ E1)). fold kcs. unfold Node.removeRebuild.
    rewrite (stM_bind_ret _ _ _ _ _ E2), (stM_bind_ret _ _ _ _ _ (orFree_ret _ _ _ _ _ _ E3)).
    by rewrite (stM_bind_ret _ _ _ _ _ E4).
  - unfold kcs in Hn4. rewrite !remove_at_fmap, child_ids_keys, Henc in Hn4 by done.
    rewrite kids_child_ids. destruct (decide _) as [Hlt|Hge].
    + rewrite remove_at_app; [done|]. unfold child_ids. by rewrite !length_fmap.
    + rewrite !remove_at_out in Hn4 by (unfold child_ids; rewrite ?length_fmap; lia). done.
Qed.

(** ** Splitting *)

Lemma children_ok_kids src es extra a b :
  Forall (fun c => c <> 0 /\ c <> src) (kids es extra) -> children_ok src (sublist a b es).
Proof.
  intros H. apply Forall_app in H as [H _]. rewrite Forall_fmap in H. apply Forall_take, Forall_drop.
  eapply Forall_impl; [exact H|]. intros kc [? ?]. by split.
Qed.

(** One half of a split, from the source page [id]. *)
Lemma bulk_half s0 s id new news d es a b extra ver :
  grew news s0 s -> new ∈ news -> live s0 id -> index_ok s0 id d es -> (a < b <= length es)%nat -> keys_sorted (es.*1) ->
  Forall (fun c => c <> 0 /\ c <> id) (kids es (getField s0 id hExtraChild)) ->
  kids es (getField s0 id hExtraChild) !! b = Some (DecodeChildWithVersion extra).1 ->
  exists s', BulkInitIndexFromSource id new (Z.of_nat a) (Z.of_nat b) extra s =
      (s', Ret (ix_size (sublist a b es))) /\
    grew news s0 (setField new hVersion ver s') /\ only_page new s (setField new hVersion ver s') /\
    node_list (setField new hVersion ver s') new (sublist a b (es.*1)) (sublist a (S b) (kids es (getField s0 id hExtraChild))).
Proof.
  intros Hg Hin Hlive Hok Hab Hs Hcs Hb. pose proof (grew_page _ _ _ _ _ _ _ Hg Hlive Hok) as Hok1.
  destruct (gr_fresh _ _ _ Hg new Hin) as [Hn _].
  assert (Hne : id <> new) by (by intros ->).
  pose proof (Forall_lookup_1 _ _ _ _ Hcs Hb) as [_ Hself].
  destruct (BulkInitIndex_ok s id new d es a b extra Hok1 Hne Hab (children_ok_kids _ _ _ _ _ Hcs) Hself)
    as (s' & l' & E & Hids & Hok' & Hx & Ho).
  exists s'. split; [done|].
  assert (Ho' : only_page new s (setField new hVersion ver s')) by (eapply only_page_trans; [exact Ho|apply only_page_setField]).
  split; [by eapply grew_only|]. split; [done|].
  eexists _, l'. split; [apply page_ok_setField; [done|done|exact Hok']|].
  rewrite <- (child_ids_keys l'), Hids, child_ids_keys, sublist_fmap. split; [by apply sorted_sublist|]. split; [done|].
  rewrite getField_setField_other, Hx, (kids_child_ids l'), Hids, decode_u64 by done.
  rewrite <- (sublist_split a b (S b) (kids _ _)) by lia. f_equal.
  - unfold child_ids. rewrite !sublist_fmap. unfold kids, sublist.
    rewrite drop_app_le by (rewrite length_fmap; lia). rewrite take_app_le by (rewrite length_drop, length_fmap; lia).
    by rewrite <- list_fmap_compose.
  - unfold sublist. replace (S b - b)%nat with 1%nat by lia. by rewrite (drop_S _ _ _ Hb).
Qed.

Lemma node_Split_ok s id ks cs :
  pm_ok s -> live s id -> node_list s id ks cs -> 1 < avail s -> (3 <= length ks)%nat ->
  Forall (fun c => c <> 0 /\ c <> id) cs ->
  let mid := (length ks / 2)%nat in
  exists l r k s', Node.Split id s = (s', Ret (l, r, k)) /\ ks !! mid = Some k /\ grew [r; l] s s' /\
    node_list s' l (take mid ks) (take (S mid) cs) /\ node_list s' r (drop (S mid) ks) (drop (S mid) cs).
Proof.
  intros Hpm Hlive (d & es & Hok & Hs & -> & ->) Hav Hlen Hcs. rewrite length_fmap in Hlen |- *. intros mid.
  pose proof Hok as [Hp _].
  assert (Hmid : (0 < mid /\ S mid < length es)%nat).
  { unfold mid. pose proof (Nat.div_mod_eq (length es) 2). pose proof (Nat.mod_upper_bound (length es) 2 ltac:(lia)). lia. }
  destruct (lookup_lt_is_Some_2 es mid) as [[k c] Hk]; [lia|].
  destruct (index_page_entry _ _ _ _ _ _ _ Hp Hk) as (e & Ee & _ & _ & Hkey).
  destruct (grew_alloc [] s s (grew_refl s Hpm) ltac:(lia)) as (l & s1 & E1 & Hg1 & _).
  destruct (grew_alloc [l] s s1 Hg1) as (r & s2 & E2 & Hg2 & _).
  { rewrite (gr_avail _ _ _ Hg1). unfold zlen. cbn [length]. lia. }
  pose proof (grew_page _ _ _ _ _ _ _ Hg2 Hlive Hok) as [Hp2 _].
  destruct (GetChild_ok s2 id d es mid Hp2 ltac:(lia)) as (encl & Egl & Hkl & _).
  rewrite (grew_field _ _ _ _ _ Hg2 Hlive) in Hkl.
  set (ver := u64 (GetVersion s2 id + 1)).
  destruct (bulk_half s s2 id l [r; l] d es 0 mid encl ver Hg2 ltac:(right; by left) Hlive Hok ltac:(lia) Hs Hcs Hkl)
    as (s3 & E3 & Hg4 & Ho4 & Hl4).
  set (s4 := setField l hVersion ver s3) in *.
  pose proof (grew_page _ _ _ _ _ _ _ Hg4 Hlive Hok) as [Hp4 _].
  destruct (GetChild_ok s4 id d es (length es) Hp4 (le_n _)) as (encr & Egr & Hkr & _).
  rewrite (grew_field _ _ _ _ _ Hg4 Hlive) in Hkr.
  destruct (bulk_half s s4 id r [r; l] d es (S mid) (length es) encr ver Hg4 ltac:(by left) Hlive Hok ltac:(lia) Hs Hcs Hkr)
    as (s5 & E5 & Hg6 & Ho6 & Hr6).
  set (s6 := setField r hVersion ver s5) in *.
  assert (Hlr : l <> r).
  { pose proof (gr_nodup _ _ _ Hg2) as Hn. apply NoDup_cons in Hn as [Hn _]. intros ->. apply Hn. by left. }
  exists l, r, k, s6. split; [|split; [by rewrite list_lookup_fmap, Hk|split; [done|split]]].
  - unfold Node.Split. rewrite stM_bind_get. unfold Node.Count. rewrite (po_count _ _ _ _ _ _ Hp). cbv zeta.
    rewrite (proj2 (Z.ltb_ge _ 2)) by (unfold zlen; lia).
    replace (Z.quot (zlen es) 2) with (Z.of_nat mid)
      by (unfold zlen, mid; rewrite Z.quot_div_nonneg by lia; by rewrite Nat2Z.inj_div).
    unfold Node.GetKey. rewrite Ee, bind_ret, stM_bind_lift, Hkey.
    rewrite (stM_bind_ret _ _ _ _ _ (onErr_ret _ _ _ _ _ E1)), (stM_bind_ret _ _ _ _ _ (orFree_ret _ _ _ _ _ _ E2)).
    rewrite (stM_bind_ret _ _ s2 s6 tt); [done|]. unfold Node.splitFill. rewrite stM_bind_get. cbv zeta.
    rewrite Egl, stM_bind_lift, (stM_bind_ret _ _ _ _ _ (orFree_ret _ _ _ _ _ _ E3)). fold ver.
    unfold SetVersion. rewrite stM_bind_modify. fold s4. rewrite stM_bind_get.
    change (zlen es) with (Z.of_nat (length es)). rewrite Egr, stM_bind_lift.
    replace (Z.of_nat mid + 1) with (Z.of_nat (S mid)) by lia.
    by rewrite (stM_bind_ret _ _ _ _ _ (orFree_ret _ _ _ _ _ _ E5)).
  - assert (Hl6 : node_list s6 l (sublist 0 mid (es.*1)) (sublist 0 (S mid) (kids es (getField s id hExtraChild)))).
    { destruct Hl4 as (dl & el & Hokl & Hsl & Hkl' & Hcl). exists dl, el. split; [by apply (page_ok_other _ s4 s6 l r)|].
      split; [done|]. split; [done|]. by rewrite Hcl, (only_page_field _ _ _ _ Ho6). }
    unfold sublist in Hl6. by rewrite !Nat.sub_0_r, !drop_0 in Hl6.
  - unfold sublist in Hr6. rewrite !take_ge in Hr6; [done|..]; rewrite length_drop, ?length_kids, ?length_fmap; lia.
Qed.

Lemma node_Split_two s id ks cs :
  pm_ok s -> live s id -> node_list s id ks cs -> 1 < avail s -> length ks = 2%nat ->
  Forall (fun c => c <> 0 /\ c <> id) cs ->
  exists s', Node.Split id s = (s', Fail (Wrap errInvalidRange "node split right bulk init")) /\ grew [] s s'.
Proof.
  intros Hpm Hlive (d & es & Hok & Hs & -> & ->) Hav Hlen Hcs. rewrite length_fmap in Hlen.
  pose proof Hok as [Hp _]. destruct (lookup_lt_is_Some_2 es 1) as [[k c] Hk]; [lia|].
  destruct (index_page_entry _ _ _ _ _ _ _ Hp Hk) as (e & Ee & _ & _ & Hkey).
  destruct (grew_alloc [] s s (grew_refl s Hpm) ltac:(lia)) as (l & s1 & E1 & Hg1 & _).
  destruct (grew_alloc [l] s s1 Hg1) as (r & s2 & E2 & Hg2 & _).
  { rewrite (gr_avail _ _ _ Hg1). unfold zlen. cbn [length]. lia. }
  pose proof (grew_page _ _ _ _ _ _ _ Hg2 Hlive Hok) as [Hp2 _].
  destruct (GetChild_ok s2 id d es 1 Hp2 ltac:(lia)) as (encl & Egl & Hkl & _).
  rewrite (grew_field _ _ _ _ _ Hg2 Hlive) in Hkl. set (ver := u64 (GetVersion s2 id + 1)).
  destruct (bulk_half s s2 id l [r; l] d es 0 1 encl ver Hg2 ltac:(right; by left) Hlive Hok ltac:(lia) Hs Hcs Hkl)
    as (s3 & E3 & Hg4 & _).
  set (s4 := setField l hVersion ver s3) in *. pose proof (grew_page _ _ _ _ _ _ _ Hg4 Hlive Hok) as [Hp4 _].
  destruct (GetChild_ok s4 id d es 2 Hp4 ltac:(lia)) as (encr & Egr & _).
  assert (Hz : zlen es = 2) by (unfold zlen; lia).
  assert (E5 : BulkInitIndexFromSource id r 2 2 encr s4 = (s4, Fail errInvalidRange)).
  { unfold BulkInitIndexFromSource. rewrite stM_bind_get, (po_count _ _ _ _ _ _ Hp4), Hz. reflexivity. }
  destruct (grew_free _ _ _ _ (grew_swap _ _ _ _ _ Hg4)) as (s5 & E6 & Hg5).
  destruct (grew_free _ _ _ _ Hg5) as (s6 & E7 & Hg6).
  exists s6. split; [|done].
  unfold Node.Split. rewrite stM_bind_get. unfold Node.Count. rewrite (po_count _ _ _ _ _ _ Hp), Hz. cbv zeta.
  change (2 <? 2) with false. cbv iota. change (Z.quot 2 2) with 1. unfold Node.GetKey.
  change (Z.of_nat 1) with 1 in *. change (Z.of_nat 0) with 0 in *. change (Z.of_nat 2) with 2 in *.
  rewrite Ee, bind_ret, stM_bind_lift, Hkey.
  rewrite (stM_bind_ret _ _ _ _ _ (onErr_ret _ _ _ _ _ E1)), (stM_bind_ret _ _ _ _ _ (orFree_ret _ _ _ _ _ _ E2)).
  apply stM_bind_fail. unfold Node.splitFill. rewrite stM_bind_get. cbv zeta. rewrite Egl, stM_bind_lift.
  rewrite (stM_bind_ret _ _ _ _ _ (orFree_ret _ _ _ _ _ _ E3)). fold ver.
  unfold SetVersion. rewrite stM_bind_modify. fold s4. rewrite stM_bind_get, Egr, stM_bind_lift.
  change (1 + 1) with 2. apply stM_bind_fail. unfold orFree. rewrite E5. cbn [foldr].
  by rewrite (stM_bind_ret _ _ _ _ _ (dropFree_eq _ _ _ E6)), (stM_bind_ret _ _ _ _ _ (dropFree_eq _ _ _ E7)).
Qed.
