(* ===== verification/Merge.v ===== *)
(** * Merging and borrowing between neighbour pages (storage/btree/merge.go)

    Two neighbour leaves or nodes are merged into a fresh page, or one entry is
    moved from a neighbour.  Pages are copied, never changed. *)

From stdpp Require Import base list gmap strings sorting.
From Stdlib Require Import ZArith Lia.
From S2P Require Import Prelude MvccCodec OffHeap PageLayout LeafPage LeafMap NodePage.

Local Open Scope Z_scope.

Module Merge.
(** ** Leaves *)

(** [collectKVRange], from index [i] on. *)
Fixpoint collectKVRange (s : PageManager) (id i : Z) (n : nat) : outcome (list (bytes * bytes)) :=
  match n with
  | O => Ret []
  | S n =>
      e ← GetLeafEntry s id i;
      rest ← collectKVRange s id (i + 1) n;
      Ret ((GetKey s id (le_keyOff e) (le_keyLen e), GetValue s id (le_valOff e) (le_valLen e)) :: rest)
  end.

Definition mergeLeavesFill (left right newRawID : Z) (lkvs rkvs : list (bytes * bytes)) : stM PageManager Z :=
  d ← orFree [newRawID] (wrapAs "btree: merge leaves insert left") (insertAll newRawID 0 lkvs 0);
  _ ← orFree [newRawID] (wrapAs "btree: merge leaves insert right") (insertAll newRawID (zlen lkvs) rkvs d);
  s ← getS;
  _ ← SetTombstoneCount newRawID (u16 (GetTombstoneCount s left + GetTombstoneCount s right));
  mret newRawID.

Definition MergeLeaves (left right : Z) : stM PageManager Z :=
  s0 ← getS;
  newRawID ← onErr Alloc (wrapAs "btree: merge leaves alloc");
  s ← getS;
  _ ← InitLeafPage newRawID (u64 (GetVersion s left + 1));
  s1 ← getS;
  lkvs ← liftS (collectKVRange s1 left 0 (Z.to_nat (GetCount s0 left)));
  rkvs ← liftS (collectKVRange s1 right 0 (Z.to_nat (GetCount s0 right)));
  mergeLeavesFill left right newRawID lkvs rkvs.

Definition errBorrowSourceEmpty : gerr := Sentinel ErrBTreeBorrowSourceEmpty.

(** The sibling without one entry, rebuilt. *)
Definition shrinkSibling (sib newSelf : Z) (h : string) (kvs : list (bytes * bytes)) : stM PageManager Z :=
  newSib ← orFree [newSelf] (wrapAs (String.append h " sib alloc")) Alloc;
  s ← getS;
  _ ← InitLeafPage newSib (u64 (GetVersion s sib + 1));
  _ ← orFree [newSelf; newSib] (wrapAs (String.append h " sib rebuild")) (insertAll newSib 0 kvs 0);
  mret newSib.

(** Tombstone counts of both pages after the entry [v] moved. *)
Definition moveTombstone (self sib newSelf newSib : Z) (v : bytes) : stM PageManager unit :=
  s ← getS;
  let moved := match v with b :: _ => b =? FlagTombstone | [] => false end in
  let selfTC := GetTombstoneCount s self in
  let sibTC := GetTombstoneCount s sib in
  _ ← SetTombstoneCount newSelf (if moved then u16 (selfTC + 1) else selfTC);
  SetTombstoneCount newSib (if moved then u16 (sibTC - 1) else sibTC).

(** Both directions: [from] is the index taken from the sibling and [at_] the
    index it gets. *)
Definition borrowLeaf (self sib from at_ : Z) (h : string) : stM PageManager (Z * Z) :=
  s ← getS;
  key ← liftS (GetKeyAt s sib from);
  value ← liftS (GetValueAt s sib from);
  newSelf ← onErr Alloc (wrapAs (String.append h " self alloc"));
  _ ← cowCopy self newSelf;
  s1 ← getS;
  _ ← orFree [newSelf] (wrapAs (String.append h " self insert"))
        (InsertLeafEntry newSelf at_ key value (GetDataEnd s1 newSelf));
  s2 ← getS;
  kvs ← liftS (CollectKVExcept s2 sib from);
  newSib ← shrinkSibling sib newSelf h kvs;
  _ ← moveTombstone self sib newSelf newSib value;
  mret (newSelf, newSib).

Definition BorrowFromLeftLeaf (self sibling : Z) : stM PageManager (Z * Z) :=
  s ← getS;
  let sibCount := Count s sibling in
  if sibCount =? 0 then failS errBorrowSourceEmpty
  else borrowLeaf self sibling (sibCount - 1) 0 "btree: borrow left leaf".

Definition BorrowFromRightLeaf (self sibling : Z) : stM PageManager (Z * Z) :=
  s ← getS;
  if Count s sibling =? 0 then failS errBorrowSourceEmpty
  else borrowLeaf self sibling 0 (Count s self) "btree: borrow right leaf".

(** ** Nodes *)

(** All entries of a node: keys and children. *)
Definition entriesOf (s : PageManager) (id : Z) : outcome (list (bytes * Z)) :=
  Node.collectIndex s id (-1) 0 (Z.to_nat (GetCount s id)).

(** [uint32(pa.GetChild(id, idx))]. *)
Definition childAt (s : PageManager) (id idx : Z) : outcome Z :=
  c ← GetChild s id idx; Ret (u32 c).

Definition mergeNodesFill (left right newRawID : Z) (separator : bytes) : stM PageManager Z :=
  s ← getS;
  lkcs ← liftS (entriesOf s left);
  d1 ← orFree [newRawID] (wrapAs "btree: merge nodes insert left") (Node.insertIndexAll newRawID 0 lkcs 0);
  s1 ← getS;
  leftExtraChild ← liftS (childAt s1 left (GetCount s1 left));
  d2 ← orFree [newRawID] (wrapAs "btree: merge nodes insert separator")
         (InsertIndexEntry newRawID (zlen lkcs) separator leftExtraChild d1);
  s2 ← getS;
  rkcs ← liftS (entriesOf s2 right);
  _ ← orFree [newRawID] (wrapAs "btree: merge nodes insert right")
        (Node.insertIndexAll newRawID (zlen lkcs + 1) rkcs d2);
  s3 ← getS;
  rightExtraChild ← liftS (childAt s3 right (GetCount s3 right));
  _ ← SetChild newRawID (zlen lkcs + 1 + zlen rkcs) rightExtraChild;
  mret newRawID.

Definition MergeNodes (left right : Z) (separator : bytes) : stM PageManager Z :=
  newRawID ← onErr Alloc (wrapAs "btree: merge nodes alloc");
  s ← getS;
  _ ← InitIndexPage newRawID (u64 (GetVersion s left + 1));
  mergeNodesFill left right newRawID separator.

(** The sibling rebuilt from [kcs] and its new last child. *)
Definition shrinkNode (sib newSelf extraChild : Z) (h : string) (kcs : list (bytes * Z)) : stM PageManager Z :=
  newSib ← orFree [newSelf] (wrapAs (String.append h " sib alloc")) Alloc;
  s ← getS;
  _ ← InitIndexPage newSib (u64 (GetVersion s sib + 1));
  _ ← orFree [newSelf; newSib] (wrapAs (String.append h " sib rebuild")) (Node.insertIndexAll newSib 0 kcs 0);
  _ ← SetChild newSib (zlen kcs) extraChild;
  mret newSib.

(** The separator of the parent is an argument that the code ignores. *)
Definition BorrowFromLeftNode (self sibling : Z) (_ : bytes) : stM PageManager (Z * Z * bytes) :=
  s ← getS;
  let sibCount := GetCount s sibling in
  if sibCount =? 0 then failS errBorrowSourceEmpty
  else
    let lastIdx := sibCount - 1 in
    sibLastKey ← liftS (Node.GetKey s sibling lastIdx);
    sibExtraChild ← liftS (childAt s sibling sibCount);
    selfKcs ← liftS (entriesOf s self);
    selfExtraChild ← liftS (childAt s self (GetCount s self));
    newSelf ← onErr Alloc (wrapAs "btree: borrow left node self alloc");
    s1 ← getS;
    _ ← InitIndexPage newSelf (u64 (GetVersion s1 self + 1));
    d ← orFree [newSelf] (wrapAs "btree: borrow left node self insert")
          (InsertIndexEntry newSelf 0 sibLastKey sibExtraChild 0);
    _ ← orFree [newSelf] (wrapAs "btree: borrow left node self rebuild")
          (Node.insertIndexAll newSelf 1 selfKcs d);
    _ ← SetChild newSelf (zlen selfKcs + 1) selfExtraChild;
    s2 ← getS;
    sibKcs ← liftS (Node.collectIndex s2 sibling (-1) 0 (Z.to_nat lastIdx));
    newSibExtraChild ← liftS (childAt s2 sibling lastIdx);
    newSib ← shrinkNode sibling newSelf newSibExtraChild "btree: borrow left node" sibKcs;
    mret (newSelf, newSib, sibLastKey).

Definition BorrowFromRightNode (self sibling : Z) (_ : bytes) : stM PageManager (Z * Z * bytes) :=
  s ← getS;
  let sibCount := GetCount s sibling in
  if sibCount =? 0 then failS errBorrowSourceEmpty
  else
    sibFirstKey ← liftS (Node.GetKey s sibling 0);
    sibFirstChild ← liftS (childAt s sibling 0);
    let selfCount := GetCount s self in
    selfExtraChild ← liftS (childAt s self selfCount);
    newSelf ← onErr Alloc (wrapAs "btree: borrow right node self alloc");
    _ ← cowCopy self newSelf;
    s1 ← getS;
    _ ← orFree [newSelf] (wrapAs "btree: borrow right node self insert")
          (InsertIndexEntry newSelf selfCount sibFirstKey sibFirstChild (GetDataEnd s1 newSelf));
    _ ← SetChild newSelf (selfCount + 1) selfExtraChild;
    s2 ← getS;
    sibKcs ← liftS (Node.collectIndex s2 sibling 0 0 (Z.to_nat sibCount));
    sibOrigExtraChild ← liftS (childAt s2 sibling sibCount);
    newSib ← shrinkNode sibling newSelf sibOrigExtraChild "btree: borrow right node" sibKcs;
    mret (newSelf, newSib, sibFirstKey).
End Merge.

(** ** Collecting *)

Lemma sublist_cons {A} a n (x : A) es : es !! a = Some x ->
  sublist a (a + S n) es = x :: sublist (S a) (S a + n) es.
Proof.
  intros Hx. unfold sublist. rewrite (drop_S es x a Hx).
  replace (a + S n - a)%nat with (S n) by lia. replace (S a + n - S a)%nat with n by lia. done.
Qed.

Lemma sublist_nil {A} a (es : list A) : sublist a (a + 0) es = [].
Proof. unfold sublist. by rewrite Nat.add_0_r, Nat.sub_diag. Qed.

Lemma collectKVRange_ok s p d es n : forall a,
  leaf_page s p d es -> (a + n <= length es)%nat ->
  Merge.collectKVRange s p (Z.of_nat a) n = Ret (sublist a (a + n) es).
Proof.
  induction n as [|n IH]; intros a Hp Ha; cbn [Merge.collectKVRange]; [by rewrite sublist_nil|].
  destruct (lookup_lt_is_Some_2 es a) as [[k v] Hx]; [lia|].
  destruct (leaf_page_entry _ _ _ _ _ _ _ Hp Hx) as (e & Ee & _ & _ & _ & Hk & Hv).
  rewrite Ee, bind_ret. replace (Z.of_nat a + 1) with (Z.of_nat (S a)) by lia.
  rewrite (IH (S a)), bind_ret, Hk, Hv by (done || lia). by rewrite (sublist_cons a n (k, v) es Hx).
Qed.

Lemma collectIndex_all s p d es skip n : forall a,
  index_page s p d es -> (a + n <= length es)%nat -> skip < Z.of_nat a ->
  Node.collectIndex s p skip (Z.of_nat a) n = Ret (child_ids (sublist a (a + n) es)).
Proof.
  induction n as [|n IH]; intros a Hp Ha Hsk; cbn [Node.collectIndex]; [by rewrite sublist_nil|].
  destruct (lookup_lt_is_Some_2 es a) as [[k c] Hx]; [lia|].
  destruct (index_page_entry _ _ _ _ _ _ _ Hp Hx) as (e & Ee & _ & Hc & Hk).
  rewrite (proj2 (Z.eqb_neq _ _)), Ee, bind_ret by lia.
  replace (Z.of_nat a + 1) with (Z.of_nat (S a)) by lia.
  rewrite (IH (S a)), bind_ret, Hk, Hc by (done || lia). rewrite (sublist_cons a n (k, c) es Hx).
  unfold child_ids. rewrite fmap_cons. cbn [fst snd]. by rewrite decode_low.
Qed.

Lemma entriesOf_ok s p d es : index_page s p d es -> Merge.entriesOf s p = Ret (child_ids es).
Proof.
  intros Hp. unfold Merge.entriesOf. rewrite (po_count _ _ _ _ _ _ Hp).
  change 0 with (Z.of_nat 0). rewrite (collectIndex_all s p d es) by (done || (unfold zlen; lia)).
  unfold zlen. by rewrite Nat2Z.id, Nat.add_0_l, sublist_all.
Qed.

Lemma childAt_ok s p d es idx :
  index_page s p d es -> (idx <= length es)%nat ->
  exists c, Merge.childAt s p (Z.of_nat idx) = Ret c /\ kids es (getField s p hExtraChild) !! idx = Some c /\ is_u32 c.
Proof.
  intros Hp Hi. destruct (GetChild_ok s p d es idx Hp Hi) as (enc & E & Hk & _).
  exists (u32 enc). unfold Merge.childAt. rewrite E, bind_ret, <- decode_low. split; [done|]. split; [done|].
  apply Decode_u32.
Qed.

(** ** Merging leaves *)

(** What is left of a failed merge: a page-full error and no page. *)
Definition merge_fails {A} (s0 : PageManager) (r : PageManager * outcome A) : Prop :=
  exists s' e, r = (s', Fail e) /\ IsErr e ErrOffHeapPageFull = true /\ grew [] s0 s'.

Lemma wrap_full h : IsErr (wrapAs h errPageFull) ErrOffHeapPageFull = true.
Proof. unfold wrapAs, Wrap, mergeNexError, errPageFull. by destruct h. Qed.

Lemma merge_fails_bind {A B} p s0 s s1 h (m : stM PageManager A) (f : A -> stM PageManager B) :
  m s = (s1, Fail errPageFull) -> grew [p] s0 s1 ->
  merge_fails s0 ((x ← orFree [p] (wrapAs h) m; f x) s).
Proof.
  intros E Hg. destruct (orFree_fail1 (wrapAs h) m s0 s s1 [] p errPageFull E Hg) as (s2 & E2 & Hg2).
  exists s2, (wrapAs h errPageFull). rewrite (stM_bind_fail _ _ _ _ _ E2). split; [done|]. split; [|done].
  apply wrap_full.
Qed.

Lemma page_sizes s id d es : leaf_ok s id d es -> Forall (fun kv => leaf_size kv < 2 ^ 31) es.
Proof.
  intros Hok. apply Forall_forall. intros kv Hin. pose proof (data_size_le _ _ _ _ _ Hok) as Hd.
  pose proof (po_fit _ _ _ _ _ _ (proj1 Hok)). pose proof (zlen_nonneg es).
  apply list_elem_of_lookup in Hin as [i Hi]. pose proof (lookup_lt_Some _ _ _ Hi).
  rewrite <- (list_insert_id es i kv Hi), data_size_update in Hd by done.
  pose proof (data_size_nonneg (entry := leaf_entry) (take i es)).
  pose proof (data_size_nonneg (entry := leaf_entry) (drop (S i) es)). off_lia.
Qed.

(** Two lists appended one after the other to a fresh page. *)
Lemma append_two s0 s new dd le re h1 h2 (f : Z -> stM PageManager Z) :
  grew [new] s0 s -> ~ live s0 new -> leaf_ok s new dd [] -> dd = 0 ->
  Forall (fun kv => leaf_size kv < 2 ^ 31) le -> Forall (fun kv => leaf_size kv < 2 ^ 31) re ->
  let steps := d ← orFree [new] (wrapAs h1) (insertAll new 0 le 0);
               x ← orFree [new] (wrapAs h2) (insertAll new (zlen le) re d); f x in
  if decide (SizeofPageHeader + (zlen le + zlen re) * 16 + kv_size (le ++ re) <= PageSize)
  then exists s', steps s = f (kv_size (le ++ re)) s' /\ grew [new] s0 s' /\ leaf_ok s' new (kv_size (le ++ re)) (le ++ re)
  else merge_fails s0 (steps s).
Proof.
  intros Hg Hn Hok -> Hl Hr. cbv zeta. rewrite data_size_app.
  pose proof (data_size_nonneg (entry := leaf_entry) re). pose proof (zlen_nonneg re).
  destruct (decide (SizeofPageHeader + zlen le * 16 + kv_size le <= PageSize)) as [Hfl|Hfl].
  2:{ rewrite decide_False by lia. destruct (insertAll_full new le s [] 0 Hok Hl) as (s1 & E1 & Ho1).
      { rewrite zlen_nil. lia. }
      eapply merge_fails_bind; [exact E1|by eapply grew_only]. }
  destruct (insertAll_ok new le s [] 0 Hok) as (s1 & E1 & Hok1 & Ho1 & _); [rewrite zlen_nil; lia|].
  rewrite zlen_nil in E1. rewrite Z.add_0_l in E1, Hok1. cbn [app] in Hok1.
  rewrite (stM_bind_ret _ _ _ _ _ (orFree_ret _ _ _ _ _ _ E1)). pose proof (grew_only _ _ _ _ _ Hg Ho1 Hn) as Hg1.
  destruct (decide _) as [Hfit|Hfit].
  - destruct (insertAll_ok new re s1 le _ Hok1) as (s2 & E2 & Hok2 & Ho2 & _); [lia|].
    exists s2. rewrite (stM_bind_ret _ _ _ _ _ (orFree_ret _ _ _ _ _ _ E2)). split; [done|].
    split; [by eapply grew_only|done].
  - destruct (insertAll_full new re s1 le _ Hok1 Hr) as (s2 & E2 & Ho2); [lia|].
    eapply merge_fails_bind; [exact E2|by eapply grew_only].
Qed.

Lemma MergeLeaves_ok s left right le re :
  pm_ok s -> live s left -> live s right -> leaf_list s left le -> leaf_list s right re ->
  0 < avail s -> keys_sorted ((le ++ re).*1) ->
  if decide (SizeofPageHeader + (zlen le + zlen re) * 16 + kv_size (le ++ re) <= PageSize)
  then exists new s', Merge.MergeLeaves left right s = (s', Ret new) /\ grew [new] s s' /\ leaf_list s' new (le ++ re) /\
         GetTombstoneCount s' new = u16 (GetTombstoneCount s left + GetTombstoneCount s right)
  else merge_fails s (Merge.MergeLeaves left right s).
Proof.
  intros Hpm Hl Hr [[dl Hokl] Hsl] [[dr Hokr] Hsr] Hav Hs.
  destruct (grew_alloc [] s s (grew_refl s Hpm) Hav) as (new & s1 & E1 & Hg1 & _).
  destruct (gr_fresh _ _ _ Hg1 new ltac:(by left)) as [Hnl _].
  destruct (fresh_leaf s1 left new (u64 (GetVersion s1 left + 1)) [] s Hg1 Hnl) as (s2 & E2 & Hg2 & Hok2 & _).
  pose proof (grew_page _ _ _ _ _ _ _ Hg2 Hl Hokl) as [Hpl _].
  pose proof (grew_page _ _ _ _ _ _ _ Hg2 Hr Hokr) as [Hpr _].
  set (steps := Merge.mergeLeavesFill left right new le re).
  assert (E : Merge.MergeLeaves left right s = steps s2).
  { unfold Merge.MergeLeaves. rewrite stM_bind_get, (stM_bind_ret _ _ _ _ _ (onErr_ret _ _ _ _ _ E1)).
    rewrite stM_bind_get, (stM_bind_ret _ _ _ _ _ E2), stM_bind_get.
    rewrite (po_count _ _ _ _ _ _ (proj1 Hokl)), (po_count _ _ _ _ _ _ (proj1 Hokr)).
    unfold zlen. rewrite !Nat2Z.id. change 0 with (Z.of_nat 0).
    rewrite (collectKVRange_ok s2 left dl le _ 0 Hpl), stM_bind_lift by lia.
    rewrite (collectKVRange_ok s2 right dr re _ 0 Hpr), stM_bind_lift by lia.
    by rewrite !Nat.add_0_l, !sublist_all. }
  rewrite E. unfold steps, Merge.mergeLeavesFill.
  pose proof (append_two s s2 new 0 le re "btree: merge leaves insert left" "btree: merge leaves insert right"
    (fun _ => s' ← getS; _ ← SetTombstoneCount new (u16 (GetTombstoneCount s' left + GetTombstoneCount s' right)); mret new)
    Hg2 Hnl Hok2 eq_refl (page_sizes _ _ _ _ Hokl) (page_sizes _ _ _ _ Hokr)) as H.
  cbv zeta in H. destruct (decide _) as [Hfit|Hfit]; [|exact H].
  destruct H as (s3 & E3 & Hg3 & Hok3). rewrite E3, stM_bind_get. unfold SetTombstoneCount. rewrite stM_bind_modify.
  assert (Htc : forall q, live s q -> GetTombstoneCount s3 q = GetTombstoneCount s q)
    by (intros q Hq; by apply (grew_field _ _ _ _ _ Hg3)).
  rewrite !Htc by done. eexists new, _. split; [reflexivity|].
  split; [eapply grew_only; [exact Hg3|apply only_page_setField|done]|]. split.
  - split; [eexists; by apply page_ok_setField|done].
  - unfold GetTombstoneCount at 1. rewrite getField_setField_same. apply Z.mod_small. apply u16_range.
Qed.

(** ** Borrowing between leaves *)

(** The moved entry [kv] of the sibling [sib_es], and the pages that are left. *)
Definition borrowed (s s' : PageManager) (newSelf newSib : Z) (self_es sib_es : list (bytes * bytes)) : Prop :=
  grew [newSib; newSelf] s s' /\ leaf_list s' newSelf self_es /\ leaf_list s' newSib sib_es.

Lemma borrowLeaf_ok s self sib h se be from at_ kv :
  pm_ok s -> live s self -> live s sib -> leaf_list s self se -> leaf_list s sib be ->
  1 < avail s -> be !! from = Some kv -> (at_ <= length se)%nat ->
  fits s self (zlen se) kv -> keys_sorted ((insert_at at_ kv se).*1) ->
  exists newSelf newSib s', Merge.borrowLeaf self sib (Z.of_nat from) (Z.of_nat at_) h s = (s', Ret (newSelf, newSib)) /\
    borrowed s s' newSelf newSib (insert_at at_ kv se) (remove_at from be).
Proof.
  intros Hpm Hls Hlb [[ds Hoks] Hss] [[db Hokb] Hsb] Hav Hfrom Hat Hfit Hs. destruct kv as [k v].
  pose proof (lookup_lt_Some _ _ _ Hfrom) as Hlt.
  destruct (leaf_page_entry _ _ _ _ _ _ _ (proj1 Hokb) Hfrom) as (e & Ee & _ & _ & _ & Hk & Hv).
  destruct (cow_started (entry := leaf_entry) PageTypeLeaf s self ds se Hpm Hls Hoks ltac:(lia))
    as (nself & s1 & s2 & E1 & E2 & Hg2 & Hok2 & Hde & _ & _ & Hn1).
  unfold fits in Hfit.
  destruct (InsertLeafEntry_ok s2 nself _ se at_ k v Hok2 Hat Hfit) as (s3 & E3 & Hok3 & Ho3 & _).
  pose proof (grew_only _ _ _ _ _ Hg2 Ho3 Hn1) as Hg3.
  pose proof (grew_page _ _ _ _ _ _ _ Hg3 Hlb Hokb) as [Hpb3 _].
  destruct (grew_alloc [nself] s s3 Hg3) as (nsib & s4 & E4 & Hg4 & Ho4).
  { rewrite (gr_avail _ _ _ Hg3). unfold zlen. cbn [length]. lia. }
  destruct (gr_fresh _ _ _ Hg4 nsib ltac:(by left)) as [Hn2 _].
  assert (Hne : nsib <> nself).
  { pose proof (gr_nodup _ _ _ Hg4) as Hn. apply NoDup_cons in Hn as [Hn _]. intros ->. apply Hn. by left. }
  destruct (fresh_leaf s4 sib nsib (u64 (GetVersion s4 sib + 1)) [nself] s Hg4 Hn2) as (s5 & E5 & Hg5 & Hok5 & Ho5 & _).
  destruct (insertAll_ok nsib (remove_at from be) s5 [] 0 Hok5) as (s6 & E6 & Hok6 & Ho6 & _).
  { pose proof (data_size_le _ _ _ _ _ Hokb). pose proof (data_size_remove be from).
    pose proof (po_fit _ _ _ _ _ _ (proj1 Hokb)). unfold zlen in *. rewrite remove_at_length by done. cbn. lia. }
  rewrite zlen_nil in E6. pose proof (grew_only _ _ _ _ _ Hg5 Ho6 Hn2) as Hg6.
  set (tc := fun (a b : Z) => SetTombstoneCount nself a).
  assert (Hset : forall a b, exists s7, (_ ← SetTombstoneCount nself a; SetTombstoneCount nsib b) s6 = (s7, Ret tt) /\
    borrowed s s7 nself nsib (insert_at at_ (k, v) se) (remove_at from be)).
  { intros a b. eexists. split; [reflexivity|]. split; [|split].
    - eapply grew_only; [|apply only_page_setField|exact Hn2].
      eapply grew_only; [exact Hg6|apply only_page_setField|exact Hn1].
    - split; [|done]. eexists. apply (page_ok_other _ (setField nself hTombstoneCount a s6) _ nself nsib);
        [apply only_page_setField|done|]. apply page_ok_setField; [done|done|].
      apply (page_ok_other _ s4 s6 nself nsib); [by eapply only_page_trans|done|].
      apply (page_ok_same _ s3 s4 nself nself); [|exact Hok3]. intros o Ho.
      pose proof (op_out _ _ _ Ho4) as Hb. cbn [mem with_mem] in Hb. apply Hb. off_lia.
    - split; [|by rewrite remove_at_fmap; apply sorted_remove_at]. eexists. apply page_ok_setField; [done|done|].
      apply (page_ok_other _ s6 _ nsib nself); [apply only_page_setField|done|exact Hok6]. }
  destruct (Hset (if match v with b :: _ => b =? FlagTombstone | [] => false end
                  then u16 (GetTombstoneCount s6 self + 1) else GetTombstoneCount s6 self)
    (if match v with b :: _ => b =? FlagTombstone | [] => false end
     then u16 (GetTombstoneCount s6 sib - 1) else GetTombstoneCount s6 sib)) as (s7 & E7 & Hb7).
  exists nself, nsib, s7. split; [|exact Hb7]. unfold Merge.borrowLeaf. rewrite stM_bind_get.
  unfold GetKeyAt, GetValueAt. rewrite Ee, !bind_ret, !stM_bind_lift, Hk, Hv.
  rewrite (stM_bind_ret _ _ _ _ _ (onErr_ret _ _ _ _ _ E1)), (stM_bind_ret _ _ _ _ _ E2), stM_bind_get, Hde.
  rewrite (stM_bind_ret _ _ _ _ _ (orFree_ret _ _ _ _ _ _ E3)), stM_bind_get.
  rewrite (CollectKVExcept_ok s3 sib db be from Hpb3), stM_bind_lift.
  rewrite (stM_bind_ret _ _ s3 s6 nsib).
  2:{ unfold Merge.shrinkSibling. rewrite (stM_bind_ret _ _ _ _ _ (orFree_ret _ _ _ _ _ _ E4)), stM_bind_get.
      by rewrite (stM_bind_ret _ _ _ _ _ E5), (stM_bind_ret _ _ _ _ _ (orFree_ret _ _ _ _ _ _ E6)). }
  unfold Merge.moveTombstone. rewrite (stM_bind_ret _ _ s6 s7 tt); [done|]. rewrite stM_bind_get. exact E7.
Qed.

(** ** Nodes *)

Lemma kids_length_child_ids es : length (child_ids es) = length es.
Proof. unfold child_ids. by rewrite length_fmap. Qed.

(** A node list, with its page. *)
Lemma node_entries s id ks cs :
  node_list s id ks cs -> Forall (fun c => c <> 0) cs ->
  exists d es, index_ok s id d es /\ ks = (child_ids es).*1 /\ keys_sorted ks /\
    cs = (child_ids es).*2 ++ [(DecodeChildWithVersion (getField s id hExtraChild)).1] /\
    Forall child_valid (child_ids es) /\ (DecodeChildWithVersion (getField s id hExtraChild)).1 <> 0.
Proof.
  intros (d & es & Hok & Hs & -> & ->) Hc. exists d, es. destruct (kids_valid _ _ Hc) as [Hv He].
  rewrite child_ids_keys, kids_child_ids. by split_and!.
Qed.

Lemma last_child s s' id d es :
  index_page s' id d es -> getField s' id hExtraChild = getField s id hExtraChild ->
  Merge.childAt s' id (GetCount s' id) = Ret (DecodeChildWithVersion (getField s id hExtraChild)).1.
Proof.
  intros Hp Hx. rewrite (po_count _ _ _ _ _ _ Hp). destruct (childAt_ok s' id d es (length es) Hp (le_n _)) as (c & E & Hk & _).
  unfold zlen. rewrite E, Hx in *. f_equal. unfold kids in Hk.
  rewrite lookup_app_r, length_fmap, Nat.sub_diag in Hk by (by rewrite length_fmap). by injection Hk as <-.
Qed.

(** Bytes taken by the keys [ks]. *)
Definition keys_size (ks : list bytes) : Z := foldr (fun k n => zlen k + n) 0 ks.

Lemma ix_size_keys l : ix_size l = keys_size (l.*1).
Proof. induction l as [|[k c] l IH]; [done|]. cbn. by rewrite IH. Qed.

Lemma keys_size_app k1 k2 : keys_size (k1 ++ k2) = keys_size k1 + keys_size k2.
Proof. unfold keys_size. induction k1 as [|k k1 IH]; [done|]. cbn [foldr app]. rewrite IH. lia. Qed.

Lemma keys_size_nonneg ks : 0 <= keys_size ks.
Proof. unfold keys_size. induction ks as [|k ks IH]; [done|]. cbn. pose proof (zlen_nonneg k). lia. Qed.

Lemma MergeNodes_ok s left right sep kl cl kr cr :
  pm_ok s -> live s left -> live s right -> node_list s left kl cl -> node_list s right kr cr ->
  0 < avail s -> Forall (fun c => c <> 0) cl -> Forall (fun c => c <> 0) cr ->
  keys_sorted (kl ++ sep :: kr) ->
  SizeofPageHeader + (zlen kl + 1 + zlen kr) * 16 + keys_size (kl ++ sep :: kr) <= PageSize ->
  exists new s', Merge.MergeNodes left right sep s = (s', Ret new) /\ grew [new] s s' /\
    node_list s' new (kl ++ sep :: kr) (cl ++ cr).
Proof.
  intros Hpm Hl Hr HNl HNr Hav Hcl Hcr Hs Hfit.
  destruct (node_entries _ _ _ _ HNl Hcl) as (dl & el & Hokl & -> & _ & -> & Hvl & Hxl).
  destruct (node_entries _ _ _ _ HNr Hcr) as (dr & er & Hokr & -> & _ & -> & Hvr & Hxr).
  rewrite !zlen_fmap, keys_size_app in Hfit. cbn [keys_size foldr] in Hfit. fold (keys_size (child_ids er).*1) in Hfit.
  rewrite <- !ix_size_keys in Hfit.
  pose proof (data_size_nonneg (entry := index_entry) (child_ids er)). pose proof (zlen_nonneg (child_ids er)). pose proof (zlen_nonneg sep).
  set (xl := (DecodeChildWithVersion (getField s left hExtraChild)).1) in *.
  set (xr := (DecodeChildWithVersion (getField s right hExtraChild)).1) in *.
  destruct (grew_alloc [] s s (grew_refl s Hpm) Hav) as (new & s1 & E1 & Hg1 & _).
  destruct (gr_fresh _ _ _ Hg1 new ltac:(by left)) as [Hnl _].
  destruct (fresh_index s1 new (u64 (GetVersion s1 left + 1)) [] s Hg1 Hnl) as (s2 & E2 & Hg2 & Hok2 & _).
  assert (Hl' : forall t, grew [new] s t -> index_page t left dl el /\ getField t left hExtraChild = getField s left hExtraChild).
  { intros t Ht. split; [apply (grew_page _ _ _ _ _ _ _ Ht Hl Hokl)|by apply (grew_field _ _ _ _ _ Ht)]. }
  assert (Hr' : forall t, grew [new] s t -> index_page t right dr er /\ getField t right hExtraChild = getField s right hExtraChild).
  { intros t Ht. split; [apply (grew_page _ _ _ _ _ _ _ Ht Hr Hokr)|by apply (grew_field _ _ _ _ _ Ht)]. }
  destruct (insertIndexAll_ok new (child_ids el) s2 [] 0 Hok2 Hvl) as (s3 & es3 & E3 & He3 & Hok3 & Ho3 & _); [rewrite zlen_nil; lia|].
  rewrite zlen_nil in E3. rewrite Z.add_0_l in E3, Hok3. cbn [app] in Hok3.
  pose proof (grew_only _ _ _ _ _ Hg2 Ho3 Hnl) as Hg3.
  assert (Hlen3 : zlen es3 = zlen (child_ids el)) by (rewrite <- He3; unfold child_ids; by rewrite zlen_fmap).
  destruct (InsertIndexEntry_ok s3 new _ es3 (length es3) sep xl Hok3 (le_n _) (Decode_u32 _) Hxl)
    as (s4 & enc & E4 & Henc & Hok4 & Ho4 & _); [lia|].
  pose proof (grew_only _ _ _ _ _ Hg3 Ho4 Hnl) as Hg4. rewrite insert_at_end in Hok4.
  change (Z.of_nat (length es3)) with (zlen es3) in E4. rewrite Hlen3 in E4.
  destruct (insertIndexAll_ok new (child_ids er) s4 _ _ Hok4 Hvr) as (s5 & es5 & E5 & He5 & Hok5 & Ho5 & _).
  { rewrite zlen_app, Hlen3, zlen_cons, zlen_nil. lia. }
  pose proof (grew_only _ _ _ _ _ Hg4 Ho5 Hnl) as Hg5.
  rewrite zlen_app, zlen_cons, zlen_nil, Hlen3, Z.add_0_r in E5.
  assert (Hlen5 : length ((es3 ++ [(sep, enc)]) ++ es5) = Z.to_nat (zlen (child_ids el) + 1 + zlen (child_ids er))).
  { assert (length es5 = length (child_ids er)) by (by rewrite <- He5, kids_length_child_ids).
    rewrite !length_app. cbn [length]. unfold zlen in *. lia. }
  destruct (SetChild_ok s5 new _ _ _ xr Hok5 (le_n _) (Decode_u32 _) Hxr) as (s6 & encx & E6 & Hencx & Hok6 & Ho6 & Hx6 & _).
  rewrite Hlen5, Z2Nat.id in E6 by (pose proof (zlen_nonneg (child_ids el)); lia).
  exists new, s6. split; [|split; [by eapply grew_only|]].
  - unfold Merge.MergeNodes. rewrite (stM_bind_ret _ _ _ _ _ (onErr_ret _ _ _ _ _ E1)), stM_bind_get.
    rewrite (stM_bind_ret _ _ _ _ _ E2). unfold Merge.mergeNodesFill. rewrite stM_bind_get.
    rewrite (entriesOf_ok s2 left dl el) by (by apply Hl'). rewrite stM_bind_lift.
    rewrite (stM_bind_ret _ _ _ _ _ (orFree_ret _ _ _ _ _ _ E3)), stM_bind_get.
    rewrite (last_child s s3 left dl el) by (by apply Hl'). rewrite stM_bind_lift.
    rewrite (stM_bind_ret _ _ _ _ _ (orFree_ret _ _ _ _ _ _ E4)), stM_bind_get.
    rewrite (entriesOf_ok s4 right dr er) by (by apply Hr'). rewrite stM_bind_lift.
    rewrite (stM_bind_ret _ _ _ _ _ (orFree_ret _ _ _ _ _ _ E5)), stM_bind_get.
    rewrite (last_child s s5 right dr er) by (by apply Hr'). rewrite stM_bind_lift.
    by rewrite (stM_bind_ret _ _ _ _ _ E6).
  - eexists _, _. split; [exact Hok6|]. rewrite alter_out by lia. split; [done|].
    rewrite Hx6, decide_True, kids_child_ids by done. rewrite !child_ids_app, He3, He5, Hencx.
    cbn [child_ids fmap list_fmap fst snd]. rewrite Henc, !fmap_app. cbn [fmap list_fmap fst snd].
    rewrite <- (child_ids_keys es3), <- (child_ids_keys es5), He3, He5.
    rewrite <- !app_assoc. by split.
Qed.

(** *** Borrowing between nodes *)

Lemma stM_bind_inv {S A B} (m : stM S A) (f : A -> stM S B) s s' b :
  (x ← m; f x) s = (s', Ret b) -> exists s1 a, m s = (s1, Ret a) /\ f a s1 = (s', Ret b).
Proof.
  unfold mbind, stM_bind. destruct (m s) as [s1 [a| |]]; intros E; try done. by exists s1, a.
Qed.

(** The sibling rebuilt from all but the entries taken. *)
Lemma shrinkNode_ok s sib newSelf kcs extra h :
  pm_ok s -> 0 < avail s -> Forall child_valid kcs -> is_u32 extra -> extra <> 0 ->
  SizeofPageHeader + zlen kcs * 16 + ix_size kcs <= PageSize -> keys_sorted (kcs.*1) ->
  exists newSib s', Merge.shrinkNode sib newSelf extra h kcs s = (s', Ret newSib) /\ grew [newSib] s s' /\
    node_list s' newSib (kcs.*1) (kcs.*2 ++ [extra]).
Proof.
  intros Hpm Hav Hv He He0 Hfit Hs.
  destruct (grew_alloc [] s s (grew_refl s Hpm) Hav) as (new & s1 & E1 & Hg1 & _).
  destruct (gr_fresh _ _ _ Hg1 new ltac:(by left)) as [Hnl _].
  destruct (build_index s s1 new [] (u64 (GetVersion s1 sib + 1)) kcs extra Hg1 Hnl Hv He He0 Hfit Hs)
    as (s2 & s3 & s4 & E2 & E3 & E4 & Hg4 & Hn4 & _).
  exists new, s4. split; [|done]. unfold Merge.shrinkNode. rewrite (stM_bind_ret _ _ _ _ _ (orFree_ret _ _ _ _ _ _ E1)).
  rewrite stM_bind_get, (stM_bind_ret _ _ _ _ _ E2), (stM_bind_ret _ _ _ _ _ (orFree_ret _ _ _ _ _ _ E3)).
  by rewrite (stM_bind_ret _ _ _ _ _ E4).
Qed.

(** The entries of a sibling with the keys [kl ++ [lk]] and the children [cl ++ [x]]. *)
Lemma sibling_parts es extra kl lk cl x :
  es.*1 = kl ++ [lk] -> kids es extra = cl ++ [x] ->
  length es = S (length kl) /\ length cl = S (length kl) /\ (DecodeChildWithVersion extra).1 = x /\
  exists c, es !! length kl = Some (lk, c) /\ (child_ids (sublist 0 (length kl) es)).*1 = kl /\
    cl = (child_ids (sublist 0 (length kl) es)).*2 ++ [(DecodeChildWithVersion c).1].
Proof.
  intros Hk Hc. pose proof (f_equal length Hk) as Hlen. rewrite length_fmap, length_app in Hlen. cbn in Hlen.
  rewrite kids_child_ids in Hc. apply app_inj_tail in Hc as [Hc Hx]. 
  assert (Hle : length es = S (length kl)) by lia.
  assert (Hlc : length cl = S (length kl)) by (rewrite <- Hc; unfold child_ids; rewrite !length_fmap; lia).
  destruct (lookup_lt_is_Some_2 es (length kl)) as [[k c] Hl]; [lia|].
  assert (k = lk) as ->.
  { assert (Hk1 : (kl ++ [lk]) !! length kl = Some k) by (rewrite <- Hk, list_lookup_fmap, Hl; done).
    rewrite lookup_app_r, Nat.sub_diag in Hk1 by lia. by injection Hk1. }
  split; [done|]. split; [done|]. split; [done|]. exists c. split; [done|].
  assert (Hes : es = sublist 0 (length kl) es ++ [(lk, c)]).
  { rewrite <- (take_drop (length kl) es) at 1. unfold sublist. rewrite drop_0, Nat.sub_0_r. f_equal.
    rewrite (drop_S _ _ _ Hl). by rewrite drop_ge by lia. }
  split.
  - rewrite child_ids_keys. rewrite Hes, fmap_app in Hk. by apply app_inj_tail in Hk as [-> _].
  - rewrite <- Hc. rewrite Hes at 1. by rewrite child_ids_app, fmap_app.
Qed.

(** The two nodes that borrowing from the left sibling [kl ++ [lk]], [cl ++ [x]]
    leaves, whatever the separator of the parent is. *)
Lemma BorrowFromLeftNode_ok s self sib sep ks cs kl lk cl x :
  pm_ok s -> live s self -> live s sib -> node_list s self ks cs -> node_list s sib (kl ++ [lk]) (cl ++ [x]) ->
  1 < avail s -> Forall (fun c => c <> 0) cs -> Forall (fun c => c <> 0) (cl ++ [x]) -> keys_sorted (lk :: ks) ->
  SizeofPageHeader + (zlen ks + 1) * 16 + keys_size (lk :: ks) <= PageSize ->
  exists newSelf newSib s', Merge.BorrowFromLeftNode self sib sep s = (s', Ret (newSelf, newSib, lk)) /\
    grew [newSib; newSelf] s s' /\ node_list s' newSelf (lk :: ks) (x :: cs) /\ node_list s' newSib kl cl.
Proof.
  intros Hpm Hls Hlb HNs (db & eb & Hokb & Hsb & Hkb & Hcb) Hav Hcs Hcx Hs Hfit.
  destruct (node_entries _ _ _ _ HNs Hcs) as (ds & es & Hoks & -> & _ & -> & Hvs & Hxs).
  destruct (kids_valid eb (getField s sib hExtraChild)) as [Hvb Hxb]; [by rewrite <- Hcb|].
  destruct (sibling_parts eb _ kl lk cl x (eq_sym Hkb) (eq_sym Hcb)) as (Hle & Hlc & Hx & c & Hc & Hkl & Hcl).
  set (xs := (DecodeChildWithVersion (getField s self hExtraChild)).1) in *.
  set (kcs := (lk, x) :: child_ids es). set (bcs := child_ids (sublist 0 (length kl) eb)) in *.
  destruct (grew_alloc [] s s (grew_refl s Hpm) ltac:(lia)) as (nself & s1 & E1 & Hg1 & _).
  destruct (gr_fresh _ _ _ Hg1 nself ltac:(by left)) as [Hn1 _].
  destruct (build_index s s1 nself [] (u64 (GetVersion s1 self + 1)) kcs xs Hg1 Hn1)
    as (s2 & s3 & s4 & E2 & E3 & E4 & Hg4 & HN4 & _).
  { constructor; [|done]. split; [rewrite <- Hx; apply Decode_u32|by rewrite <- Hx]. }
  { apply Decode_u32. } { done. }
  { unfold kcs. rewrite ix_size_keys, zlen_cons. cbn [fmap list_fmap fst]. rewrite zlen_fmap in Hfit. lia. }
  { exact Hs. }
  unfold kcs in E3. cbn [Node.insertIndexAll fst snd] in E3.
  apply stM_bind_inv in E3 as (s3' & d & E3a & E3b).
  pose proof (grew_page _ _ _ _ _ _ _ Hg4 Hlb Hokb) as [Hpb4 _].
  destruct (childAt_ok s4 sib db eb (length kl) Hpb4 ltac:(lia)) as (c' & Ec & Hkc & _).
  rewrite (grew_field _ _ _ _ _ Hg4 Hlb), <- Hcb, lookup_app_l, Hcl in Hkc by lia.
  assert (Hbl : length (bcs.*2) = length kl) by (rewrite <- Hkl; by rewrite !length_fmap).
  rewrite lookup_app_r, Hbl, Nat.sub_diag in Hkc by lia. injection Hkc as <-.
  destruct (shrinkNode_ok s4 sib nself bcs (DecodeChildWithVersion c).1 "btree: borrow left node" (gr_ok _ _ _ Hg4))
    as (nsib & s5 & E5 & Hg5 & HN5).
  { rewrite (gr_avail _ _ _ Hg4). unfold zlen. cbn. lia. }
  { unfold bcs, child_ids, sublist. rewrite fmap_take, fmap_drop. apply Forall_take, Forall_drop. exact Hvb. }
  { apply Decode_u32. }
  { rewrite Hcl, Forall_app in Hcx. destruct Hcx as [Hcx _]. apply Forall_app in Hcx as [_ Hcx].
    by inversion Hcx. }
  { unfold bcs. rewrite ix_size_child_ids. pose proof (sublist_fits _ _ _ _ _ 0 (length kl) Hokb) as Hf.
    unfold zlen in *. rewrite kids_length_child_ids. cbn in Hf. lia. }
  { rewrite Hkl. apply StronglySorted_app_1_l in Hsb. exact Hsb. }
  exists nself, nsib, s5. split; [|split; [exact (grew_trans _ _ _ _ _ Hg4 Hg5)|split]].
  - unfold Merge.BorrowFromLeftNode. rewrite stM_bind_get, (po_count _ _ _ _ _ _ (proj1 Hokb)). cbv zeta.
    assert (Hz : zlen eb = Z.of_nat (length kl) + 1) by (unfold zlen; lia). rewrite Hz.
    rewrite (proj2 (Z.eqb_neq _ 0)) by lia. replace (Z.of_nat (length kl) + 1 - 1) with (Z.of_nat (length kl)) by lia.
    destruct (index_page_entry _ _ _ _ _ _ _ (proj1 Hokb) Hc) as (e & Ee & _ & _ & Hke).
    unfold Node.GetKey. rewrite Ee, bind_ret, stM_bind_lift, Hke.
    pose proof (last_child s s sib db eb (proj1 Hokb) eq_refl) as El. rewrite (po_count _ _ _ _ _ _ (proj1 Hokb)), Hz, Hx in El.
    rewrite El, stM_bind_lift, (entriesOf_ok s self ds es (proj1 Hoks)), stM_bind_lift.
    rewrite (last_child s s self ds es (proj1 Hoks) eq_refl), stM_bind_lift. fold xs.
    rewrite (stM_bind_ret _ _ _ _ _ (onErr_ret _ _ _ _ _ E1)), stM_bind_get, (stM_bind_ret _ _ _ _ _ E2).
    rewrite (stM_bind_ret _ _ _ _ _ (orFree_ret _ _ _ _ _ _ E3a)).
    rewrite (stM_bind_ret _ _ _ _ _ (orFree_ret _ _ _ _ _ _ E3b)).
    unfold kcs in E4. rewrite zlen_cons, Z.add_comm in E4. rewrite (stM_bind_ret _ _ _ _ _ E4), stM_bind_get.
    rewrite Nat2Z.id. change 0 with (Z.of_nat 0).
    rewrite (collectIndex_all s4 sib db eb (-1) (length kl) 0 Hpb4), stM_bind_lift by lia.
    rewrite Ec, stM_bind_lift, Nat.add_0_l. fold bcs. by rewrite (stM_bind_ret _ _ _ _ _ E5).
  - apply (grew_node _ _ _ _ _ _ Hg5); [apply (gr_live _ _ _ Hg4); right; by left|exact HN4].
  - rewrite Hkl in HN5. by rewrite Hcl.
Qed.
