(* ===== verification/NodeMap.v ===== *)
(** * Routing through internal pages

    What the operations of NodePage and Merge mean for a search: to which child a
    key is routed before and after.  The children cache, which the tree really
    searches, routes like the page. *)

From stdpp Require Import base list gmap strings sorting.
From Stdlib Require Import ZArith Lia.
From S2P Require Import Prelude MvccCodec OffHeap PageLayout LeafPage LeafMap NodePage Merge.

Local Open Scope Z_scope.

(** ** The number of keys not above a key *)

Lemma upper_bound_app key k1 k2 : upper_bound key (k1 ++ k2) = (upper_bound key k1 + upper_bound key k2)%nat.
Proof. unfold upper_bound. by rewrite filter_app, length_app. Qed.

Lemma upper_bound_perm key k1 k2 : k1 ≡ₚ k2 -> upper_bound key k1 = upper_bound key k2.
Proof. intros H. unfold upper_bound. by rewrite H. Qed.

Lemma upper_bound_cons key k ks :
  upper_bound key (k :: ks) = ((if decide (bytes_lt key k) then 0 else 1) + upper_bound key ks)%nat.
Proof.
  unfold upper_bound. rewrite filter_cons. destruct (decide (bytes_lt key k)).
  - by rewrite decide_False by tauto.
  - by rewrite decide_True.
Qed.

Lemma upper_bound_above key ks : Forall (bytes_lt key) ks -> upper_bound key ks = 0%nat.
Proof. induction 1 as [|k ks Hk _ IH]; [done|]. by rewrite upper_bound_cons, decide_True, IH. Qed.

Lemma upper_bound_below key ks : Forall (fun k => ~ bytes_lt key k) ks -> upper_bound key ks = length ks.
Proof. induction 1 as [|k ks Hk _ IH]; [done|]. by rewrite upper_bound_cons, decide_False, IH. Qed.

(** Keys of a sorted list on either side of one of them. *)
Lemma sorted_around k1 k k2 key :
  keys_sorted (k1 ++ k :: k2) ->
  (bytes_lt key k -> upper_bound key k2 = 0%nat) /\
  (~ bytes_lt key k -> upper_bound key k1 = length k1).
Proof.
  intros Hs. apply StronglySorted_app in Hs as (H1 & _ & H2). inversion H2 as [|? ? _ Hk2]; subst. split; intros Hk.
  - apply upper_bound_above. eapply Forall_impl; [exact Hk2|]. intros x Hx. by eapply bytes_lt_trans.
  - apply upper_bound_below, Forall_forall. intros x Hx Hlt. apply Hk.
    eapply bytes_lt_trans; [exact Hlt|]. apply H1; [done|by left].
Qed.

(** A node in two parts around the key [k]: smaller keys go left, the others right. *)
Lemma route_parts k1 k k2 c1 c2 key :
  keys_sorted (k1 ++ k :: k2) -> length c1 = S (length k1) ->
  route (k1 ++ k :: k2) (c1 ++ c2) key = if decide (bytes_lt key k) then route k1 c1 key else route k2 c2 key.
Proof.
  intros Hs Hlen. destruct (sorted_around _ _ _ key Hs) as [Hlo Hhi]. unfold route.
  rewrite upper_bound_app, upper_bound_cons. pose proof (upper_bound_le key k1). destruct (decide _) as [Hk|Hk].
  - rewrite Hlo by done. rewrite !Nat.add_0_r. apply lookup_app_l. lia.
  - rewrite Hhi by done. rewrite lookup_app_r by lia. f_equal. lia.
Qed.

Lemma insert_at_parts {A} i (x : A) l : insert_at i x l = take i l ++ x :: drop i l.
Proof. done. Qed.

(** Replacing a child by two around a new key. *)
Lemma route_split_child ks cs idx sep l r key :
  keys_sorted (insert_at idx sep ks) -> keys_sorted ks -> (idx <= length ks)%nat -> length cs = S (length ks) ->
  route (insert_at idx sep ks) (split_child idx l r cs) key =
  if decide (upper_bound key ks = idx) then Some (if decide (bytes_lt key sep) then l else r) else route ks cs key.
Proof.
  intros Hs Hk Hi Hlen. rewrite insert_at_parts in *.
  assert (Hsc : split_child idx l r cs = (take idx cs ++ [l]) ++ r :: drop (S idx) cs)
    by (unfold split_child; by rewrite <- app_assoc).
  rewrite Hsc, route_parts by (done || rewrite length_app, !length_take; cbn; lia).
  destruct (sorted_around _ _ _ key Hs) as [Hlo Hhi].
  assert (Hub : upper_bound key ks = (upper_bound key (take idx ks) + upper_bound key (drop idx ks))%nat)
    by (rewrite <- upper_bound_app; by rewrite take_drop).
  pose proof (upper_bound_le key (take idx ks)) as Hle. rewrite length_take in Hle.
  unfold route. rewrite Hub. destruct (decide (bytes_lt key sep)) as [Hlt|Hge].
  - rewrite Hlo, Nat.add_0_r by done. destruct (decide (_ = idx)) as [E|E].
    + rewrite E, lookup_app_r, length_take by (rewrite length_take; lia).
      by replace (idx - idx `min` length cs)%nat with 0%nat by lia.
    + rewrite lookup_app_l by (rewrite length_take; lia). rewrite lookup_take_lt by lia. done.
  - rewrite Hhi, length_take by done. destruct (decide (_ = idx)) as [E|E].
    + assert (upper_bound key (drop idx ks) = 0%nat) as -> by lia. done.
    + destruct (upper_bound key (drop idx ks)) as [|u]; [lia|]. cbn [lookup list_lookup].
      change (drop (S idx) cs !! u = cs !! (idx `min` length ks + S u)%nat).
      rewrite lookup_drop. f_equal. lia.
Qed.

Lemma node_list_lengths s id ks cs : node_list s id ks cs -> length cs = S (length ks) /\ keys_sorted ks.
Proof. intros (d & es & _ & Hs & -> & ->). by rewrite length_kids, length_fmap. Qed.

(** ** The properties *)

(** The search of a page and the search of a children cache with the same
    separators end and choose the same child, the one after all keys that are not
    above the searched key; the cache is searched by halving an interval. *)
Theorem node_cache_search_agree {ref} s id ks cs (c : Cache.ChildrenCache ref) key
  (Hnode : node_list s id ks cs) (Hsep : Cache.Separators c = ks) (Hlen : length (Cache.Children c) = length cs) :
  exists n, Cache.Search (Some c) key = Ret (Z.of_nat n) /\ (n < length (Cache.Children c))%nat /\
    Node.Search s id key = Ret (Z.of_nat n, bool_decide (key ∈ ks)) /\
    forall i k, ks !! i = Some k -> ((i < n)%nat <-> ~ bytes_lt key k).
Proof.
  destruct (node_list_lengths _ _ _ _ Hnode) as [Hl Hs]. exists (upper_bound key ks).
  pose proof (upper_bound_le key ks). split; [|split; [lia|split; [by eapply node_search_ok|]]].
  - rewrite <- Hsep. apply cache_search_ok; [by rewrite Hsep|]. intros E. rewrite E in Hlen. cbn in Hlen. lia.
  - intros i k Hi. pose proof (take_drop_middle ks i k Hi) as Hks. rewrite <- Hks in Hs |- *.
    pose proof (lookup_lt_Some _ _ _ Hi). pose proof (sorted_around _ _ _ key Hs) as [Hlo Hhi].
    rewrite upper_bound_app, upper_bound_cons. pose proof (upper_bound_le key (take i ks)) as Hle.
    rewrite length_take in *. destruct (decide (bytes_lt key k)) as [Hk|Hk].
    + rewrite Hlo by done. split; [lia|tauto].
    + rewrite Hhi by done. split; [done|lia].
Qed.

(** C25: InsertChild gives one fresh page that routes every key like the old one,
    except that the keys of the split child go to the left half when they are
    below the separator and to the right half otherwise; the separator must belong
    at that place.  When it does not fit, ErrPageFull is returned and no page is
    kept; a null left child is refused. *)
Theorem insert_child_routes s id ks cs idx sep l r
  (Hpm : pm_ok s) (Hlive : live s id) (Hnode : node_list s id ks cs) (Hav : 0 < avail s)
  (Hidx : (idx <= length ks)%nat) (Hl : is_u32 l /\ l <> 0) (Hr : is_u32 r /\ r <> 0)
  (Hsz : zlen sep < 2 ^ 31) (Hsep : keys_sorted (insert_at idx sep ks)) :
  if decide (node_fits s id ks sep) then
    exists new s' ks' cs', Node.InsertChild id (Z.of_nat idx) sep l r s = (s', Ret new) /\ grew [new] s s' /\
      node_list s' new ks' cs' /\ length ks' = S (length ks) /\ node_list s' id ks cs /\
      forall key, route ks' cs' key =
        if decide (upper_bound key ks = idx) then Some (if decide (bytes_lt key sep) then l else r)
        else route ks cs key
  else exists s' e, Node.InsertChild id (Z.of_nat idx) sep l r s = (s', Fail e) /\
         IsErr e ErrOffHeapPageFull = true /\ grew [] s s'.
Proof.
  pose proof (InsertChild_ok s id ks cs idx sep l r Hpm Hlive Hnode Hav Hidx Hl Hr Hsz Hsep) as H.
  destruct (node_list_lengths _ _ _ _ Hnode) as [Hlen Hs]. destruct (decide _).
  - destruct H as (new & s' & E & Hg & Hn). exists new, s'. eexists _, _. split; [done|]. split; [done|].
    split; [exact Hn|]. split; [by apply insert_at_length|]. split; [by eapply grew_node|].
    intros key. by apply route_split_child.
  - destruct H as (s' & E & Hg). exists s'. eexists. split; [exact E|]. split; [|done].
    unfold insert_details. by destruct (decide _).
Qed.

(** Splitting a node of at least three keys moves the middle key up: a key
    below it is routed in the left page, any other key in the right page, as in
    the old page.  A node of two keys, however large they are, can never be split:
    the empty right half is refused with ErrInvalidRange; one key or none is refused
    at once. *)
Theorem node_split_routes s id ks cs
  (Hpm : pm_ok s) (Hlive : live s id) (Hnode : node_list s id ks cs) (Hav : 1 < avail s)
  (Hcs : Forall (fun c => c <> 0 /\ c <> id) cs) :
  if decide (3 <= length ks)%nat then
    exists l r k s' kl cl kr cr, Node.Split id s = (s', Ret (l, r, k)) /\ grew [r; l] s s' /\
      node_list s' l kl cl /\ node_list s' r kr cr /\ node_list s' id ks cs /\ (kl <> [] /\ kr <> []) /\
      forall key, route ks cs key = if decide (bytes_lt key k) then route kl cl key else route kr cr key
  else if decide (length ks = 2%nat) then
    exists s', Node.Split id s = (s', Fail (Wrap errInvalidRange "node split right bulk init")) /\ grew [] s s'
  else Node.Split id s = (s, Fail Node.errNodeSplitMinKeys).
Proof.
  destruct (node_list_lengths _ _ _ _ Hnode) as [Hlen Hs]. destruct (decide (3 <= length ks)%nat) as [H3|H3].
  - destruct (node_Split_ok s id ks cs Hpm Hlive Hnode Hav H3 Hcs) as (l & r & k & s' & E & Hk & Hg & Hl & Hr).
    set (mid := (length ks / 2)%nat) in *. pose proof (take_drop_middle ks mid k Hk) as Hks.
    assert (Hmid : (0 < mid /\ S mid < length ks)%nat).
    { unfold mid. pose proof (Nat.div_mod_eq (length ks) 2). pose proof (Nat.mod_upper_bound (length ks) 2 ltac:(lia)). lia. }
    clearbody mid. exists l, r, k, s', (take mid ks), (take (S mid) cs), (drop (S mid) ks), (drop (S mid) cs).
    split; [done|]. split; [done|]. split; [done|]. split; [done|]. split; [by eapply grew_node|]. split.
    + split; intros E0; apply (f_equal length) in E0; rewrite ?length_take, ?length_drop in E0; cbn in E0; lia.
    + intros key. rewrite <- Hks at 1. rewrite <- (take_drop (S mid) cs) at 1.
      apply route_parts; [by rewrite Hks|]. rewrite !length_take. lia.
  - destruct (decide _) as [H2|H2]; [by eapply node_Split_two|].
    destruct Hnode as (d & es & Hok & _ & -> & _). rewrite length_fmap in *.
    unfold Node.Split. rewrite stM_bind_get. unfold Node.Count. rewrite (po_count _ _ _ _ _ _ (proj1 Hok)).
    cbv zeta. by rewrite (proj2 (Z.ltb_lt _ 2)) by (unfold zlen; lia).
Qed.

(** Merging two neighbour nodes around the separator of their parent gives a
    fresh page that routes a key below the separator like the left node and any
    other key like the right one. *)
Theorem merge_nodes_routes s left right sep kl cl kr cr
  (Hpm : pm_ok s) (Hll : live s left) (Hlr : live s right)
  (Hl : node_list s left kl cl) (Hr : node_list s right kr cr) (Hav : 0 < avail s)
  (Hcl : Forall (fun c => c <> 0) cl) (Hcr : Forall (fun c => c <> 0) cr) (Hs : keys_sorted (kl ++ sep :: kr))
  (Hfit : SizeofPageHeader + (zlen kl + 1 + zlen kr) * 16 + keys_size (kl ++ sep :: kr) <= PageSize) :
  exists new s' ks cs, Merge.MergeNodes left right sep s = (s', Ret new) /\ grew [new] s s' /\
    node_list s' new ks cs /\
    forall key, route ks cs key = if decide (bytes_lt key sep) then route kl cl key else route kr cr key.
Proof.
  destruct (MergeNodes_ok s left right sep kl cl kr cr Hpm Hll Hlr Hl Hr Hav Hcl Hcr Hs Hfit)
    as (new & s' & E & Hg & Hn). exists new, s'. eexists _, _. split; [done|]. split; [done|]. split; [exact Hn|].
  intros key. apply route_parts; [done|]. by apply (node_list_lengths _ _ _ _ Hl).
Qed.

(** BorrowFromLeftNode ignores the separator of the parent and routes keys to
    the wrong child.  The keys from the last key [lk] of the left sibling to below
    the separator belonged to the last child [x] of the sibling; afterwards the
    new separator [lk] sends them to the new node, which routes them to its own old
    first child, while [x] is only reached by keys below [lk]. *)
Theorem borrow_left_misroutes s self sib sep ks c cs kl lk cl x key
  (Hpm : pm_ok s) (Hls : live s self) (Hlb : live s sib)
  (Hself : node_list s self ks (c :: cs)) (Hsib : node_list s sib (kl ++ [lk]) (cl ++ [x])) (Hav : 1 < avail s)
  (Hcs : Forall (fun c => c <> 0) (c :: cs)) (Hcl : Forall (fun c => c <> 0) (cl ++ [x]))
  (Hs : keys_sorted ((kl ++ [lk]) ++ sep :: ks))
  (Hfit : SizeofPageHeader + (zlen ks + 1) * 16 + keys_size (lk :: ks) <= PageSize)
  (Hlo : ~ bytes_lt key lk) (Hhi : bytes_lt key sep) :
  route (kl ++ [lk]) (cl ++ [x]) key = Some x /\
  exists newSelf newSib s' ks' cs', Merge.BorrowFromLeftNode self sib sep s = (s', Ret (newSelf, newSib, lk)) /\
    node_list s' newSelf ks' cs' /\ route ks' cs' key = Some c.
Proof.
  destruct (node_list_lengths _ _ _ _ Hsib) as [Hlen Hsb]. rewrite !length_app in Hlen. cbn in Hlen.
  assert (Hs' : keys_sorted (lk :: ks)).
  { rewrite <- app_assoc in Hs. apply StronglySorted_app_1_r in Hs. cbn [app] in Hs.
    inversion Hs as [|? ? H1 H2]; subst. inversion H1; subst. inversion H2; subst. by constructor. }
  assert (Hks : upper_bound key ks = 0%nat).
  { apply (proj1 (sorted_around _ _ _ key Hs)). done. }
  split.
  - rewrite route_parts by (done || lia). rewrite decide_False by done. done.
  - destruct (BorrowFromLeftNode_ok s self sib sep ks (c :: cs) kl lk cl x Hpm Hls Hlb Hself Hsib Hav Hcs Hcl Hs' Hfit)
      as (ns & nb & s' & E & _ & Hn & _). exists ns, nb, s'. eexists _, _. split; [done|]. split; [exact Hn|].
    unfold route. rewrite upper_bound_cons, decide_False, Hks by done. done.
Qed.

(** ** Neighbour leaves *)

(** C27: merging two neighbour leaves gives a fresh page that stands for the union
    of their maps and counts the tombstones of both, if their entries fit one
    page; otherwise ErrPageFull is returned.  Neither page is changed, and on
    failure nothing is allocated. *)
Theorem merge_leaves_refines s left right le re
  (Hpm : pm_ok s) (Hll : live s left) (Hlr : live s right)
  (Hl : leaf_list s left le) (Hr : leaf_list s right re) (Hav : 0 < avail s)
  (Hs : keys_sorted ((le ++ re).*1)) :
  if decide (SizeofPageHeader + (zlen le + zlen re) * 16 + kv_size (le ++ re) <= PageSize) then
    exists new s', Merge.MergeLeaves left right s = (s', Ret new) /\ extends [new] s s' /\
      leaf_rep s' new (list_to_map le ∪ list_to_map re) /\
      GetTombstoneCount s' new = u16 (GetTombstoneCount s left + GetTombstoneCount s right)
  else exists s' e, Merge.MergeLeaves left right s = (s', Fail e) /\
         IsErr e ErrOffHeapPageFull = true /\ extends [] s s'.
Proof.
  pose proof (MergeLeaves_ok s left right le re Hpm Hll Hlr Hl Hr Hav Hs) as H. destruct (decide _).
  - destruct H as (new & s' & E & Hg & Hn & Ht). exists new, s'. split; [done|].
    split; [by apply grew_extends|]. split; [|done]. exists (le ++ re). split; [done|]. by rewrite list_to_map_app.
  - destruct H as (s' & e & E & He & Hg). exists s', e. split; [done|]. split; [done|]. by apply grew_extends.
Qed.

Lemma remove_at_last {A} (l : list A) x : remove_at (length l) (l ++ [x]) = l.
Proof. unfold remove_at. rewrite take_app_length, drop_ge, app_nil_r; [done|]. rewrite length_app. cbn. lia. Qed.

(** Borrowing moves one entry between neighbour leaves: the last one of the
    left sibling becomes the first of the new page, or the first one of the right
    sibling its last; the order of all entries is kept.  An empty sibling is
    refused with ErrBorrowSourceEmpty. *)
Theorem borrow_leaf_moves_one s self sib se be kv
  (Hpm : pm_ok s) (Hls : live s self) (Hlb : live s sib) (Hself : leaf_list s self se) (Hav : 1 < avail s)
  (Hfit : fits s self (zlen se) kv) :
  (leaf_list s sib (be ++ [kv]) -> keys_sorted (((be ++ [kv]) ++ se).*1) ->
     exists newSelf newSib s', Merge.BorrowFromLeftLeaf self sib s = (s', Ret (newSelf, newSib)) /\
       borrowed s s' newSelf newSib (kv :: se) be) /\
  (leaf_list s sib (kv :: be) -> keys_sorted ((se ++ kv :: be).*1) ->
     exists newSelf newSib s', Merge.BorrowFromRightLeaf self sib s = (s', Ret (newSelf, newSib)) /\
       borrowed s s' newSelf newSib (se ++ [kv]) be) /\
  (leaf_list s sib [] -> Merge.BorrowFromLeftLeaf self sib s = (s, Fail (Sentinel ErrBTreeBorrowSourceEmpty)) /\
     Merge.BorrowFromRightLeaf self sib s = (s, Fail (Sentinel ErrBTreeBorrowSourceEmpty))).
Proof.
  assert (Hcount : forall id es, leaf_list s id es -> Count s id = zlen es)
    by (intros id es [[d [Hp _]] _]; exact (po_count _ _ _ _ _ _ Hp)).
  split; [|split].
  - intros Hsib Hs. destruct (borrowLeaf_ok s self sib "btree: borrow left leaf" se (be ++ [kv]) (length be) 0 kv
      Hpm Hls Hlb Hself Hsib Hav) as (ns & nb & s' & E & Hb); [|lia|done| |].
    + by rewrite lookup_app_r, Nat.sub_diag by lia.
    + rewrite <- app_assoc, fmap_app in Hs. by apply StronglySorted_app_1_r in Hs.
    + exists ns, nb, s'. rewrite remove_at_last in Hb. split; [|exact Hb]. rewrite <- E.
      unfold Merge.BorrowFromLeftLeaf. rewrite stM_bind_get, (Hcount _ _ Hsib), zlen_app, zlen_cons, zlen_nil. cbv zeta.
      rewrite (proj2 (Z.eqb_neq _ 0)) by (pose proof (zlen_nonneg be); lia).
      by replace (zlen be + (1 + 0) - 1) with (Z.of_nat (length be)) by (unfold zlen; lia).
  - intros Hsib Hs. destruct (borrowLeaf_ok s self sib "btree: borrow right leaf" se (kv :: be) 0 (length se) kv
      Hpm Hls Hlb Hself Hsib Hav eq_refl (le_n _) Hfit) as (ns & nb & s' & E & Hb).
    + rewrite insert_at_end. rewrite cons_middle, app_assoc, fmap_app in Hs. by apply StronglySorted_app_1_l in Hs.
    + exists ns, nb, s'. rewrite insert_at_end in Hb. split; [|exact Hb]. rewrite <- E.
      unfold Merge.BorrowFromRightLeaf. rewrite stM_bind_get, (Hcount _ _ Hsib), (Hcount _ _ Hself), zlen_cons.
      by rewrite (proj2 (Z.eqb_neq _ 0)) by (pose proof (zlen_nonneg be); lia).
  - intros Hsib. unfold Merge.BorrowFromLeftLeaf, Merge.BorrowFromRightLeaf.
    by rewrite !stM_bind_get, (Hcount _ _ Hsib).
Qed.

(** ** The theorems at concrete pages *)

(** One more node, built by the page manager. *)
Lemma example_node s kcs extra :
  pm_ok s -> 0 < avail s -> Forall child_valid kcs -> is_u32 extra -> extra <> 0 ->
  SizeofPageHeader + zlen kcs * 16 + ix_size kcs <= PageSize -> keys_sorted (kcs.*1) ->
  exists new s', grew [new] s s' /\ live s' new /\ 0 <= new < total s /\
    node_list s' new (kcs.*1) (kcs.*2 ++ [extra]) /\ GetDataEnd s' new <= ix_size kcs.
Proof.
  intros Hpm Hav Hv He He0 Hfit Hs.
  destruct (grew_alloc [] s s (grew_refl s Hpm) Hav) as (new & s1 & E1 & Hg1 & _).
  destruct (gr_fresh _ _ _ Hg1 new ltac:(by left)) as [Hnl Hr].
  destruct (build_index s s1 new [] 1 kcs extra Hg1 Hnl Hv He He0 Hfit Hs) as (s2 & s3 & s4 & _ & _ & _ & Hg4 & Hn4 & Hd).
  exists new, s4. split; [done|]. split; [apply (gr_live _ _ _ Hg4); right; by left|]. by split.
Qed.

Definition kcs_left : list (bytes * Z) := [([1], 11); ([3], 12); ([5], 13)].
Definition kcs_right : list (bytes * Z) := [([9], 21)].

(** A node with three keys and its right neighbour with one; four pages are left. *)
Lemma example_nodes : exists s a b, pm_ok s /\ live s a /\ live s b /\ (a < 8) /\ avail s = 4 /\
  node_list s a [[1]; [3]; [5]] [11; 12; 13; 14] /\ node_list s b [[9]] [21; 22] /\ GetDataEnd s a <= 3.
Proof.
  assert (Hpm : pm_ok example_pm) by (constructor; cbn; try constructor; lia).
  destruct (example_node example_pm kcs_left 14 Hpm) as (a & s1 & Hg1 & Hl1 & Hr1 & Hn1 & Hd1);
    [reflexivity|repeat constructor; cbn; lia|unfold is_u32; lia|lia|vm_compute; discriminate|repeat constructor|].
  destruct (example_node s1 kcs_right 22 (gr_ok _ _ _ Hg1)) as (b & s2 & Hg2 & Hl2 & Hr2 & Hn2 & _);
    [rewrite (gr_avail _ _ _ Hg1); reflexivity|repeat constructor; cbn; lia|unfold is_u32; lia|lia|vm_compute; discriminate|repeat constructor|].
  exists s2, a, b. split; [apply Hg2|]. split; [apply (gr_live _ _ _ Hg2); by left|]. split; [done|].
  split; [cbn in Hr1; lia|]. split; [by rewrite (gr_avail _ _ _ Hg2), (gr_avail _ _ _ Hg1)|].
  split; [exact (grew_node _ _ _ _ _ _ Hg2 Hl1 Hn1)|]. split; [exact Hn2|].
  assert (GetDataEnd s2 a = GetDataEnd s1 a) as ->; [|exact Hd1].
  destruct Hn1 as (d & es & [Hp _] & _). apply (GetDataEnd_same _ _ _ _ _ _ _ Hp).
  intros o Ho. apply (gr_same _ _ _ Hg2 a); [done|off_lia].
Qed.

Lemma node_cache_search_agree_witness :
  exists s a, Node.Search s a [3] = Ret (2, true) /\
    Cache.Search (Some {| Cache.Children := [11; 12; 13; 14]; Cache.Separators := [[1]; [3]; [5]] |}) [3] = Ret 2.
Proof.
  destruct example_nodes as (s & a & b & _ & _ & _ & _ & _ & Hn & _). exists s, a. split; [|reflexivity].
  destruct (node_cache_search_agree s a [[1]; [3]; [5]] [11; 12; 13; 14]
    {| Cache.Children := [11; 12; 13; 14]; Cache.Separators := [[1]; [3]; [5]] |} [3] Hn eq_refl eq_refl)
    as (n & E & _ & En & _).
  change (Cache.Search _ _) with (Ret 2) in E. injection E as E. rewrite En, <- E. reflexivity.
Defined.

Lemma insert_child_routes_witness :
  exists s a new s' ks cs, Node.InsertChild a 1 [2] 31 32 s = (s', Ret new) /\ node_list s' new ks cs /\
    route ks cs [1] = Some 31 /\ route ks cs [2] = Some 32 /\ route ks cs [3] = Some 13.
Proof.
  destruct example_nodes as (s & a & b & Hpm & Hl & _ & _ & Hav & Hn & _ & Hd). exists s, a.
  pose proof (insert_child_routes s a [[1]; [3]; [5]] [11; 12; 13; 14] 1 [2] 31 32 Hpm Hl Hn ltac:(lia)
    ltac:(cbn; lia) ltac:(unfold is_u32; lia) ltac:(unfold is_u32; lia) eq_refl ltac:(repeat constructor)) as H.
  rewrite decide_True in H by (unfold node_fits; cbn; unfold zlen; cbn; off_lia).
  destruct H as (new & s' & ks & cs & E & _ & Hn' & _ & _ & R). exists new, s', ks, cs.
  split; [exact E|]. split; [exact Hn'|]. rewrite !R. vm_compute. auto.
Defined.

Lemma node_split_routes_witness :
  exists s a l r k s' kl cl kr cr, Node.Split a s = (s', Ret (l, r, k)) /\ node_list s' l kl cl /\ node_list s' r kr cr.
Proof.
  destruct example_nodes as (s & a & b & Hpm & Hl & _ & Ha & Hav & Hn & _). exists s, a.
  pose proof (node_split_routes s a [[1]; [3]; [5]] [11; 12; 13; 14] Hpm Hl Hn ltac:(lia)
    ltac:(repeat constructor; lia)) as H.
  rewrite decide_True in H by (cbn; lia).
  destruct H as (l & r & k & s' & kl & cl & kr & cr & E & _ & Hkl & Hkr & _). by exists l, r, k, s', kl, cl, kr, cr.
Defined.

Lemma merge_nodes_routes_witness :
  exists s a b new s' ks cs, Merge.MergeNodes a b [7] s = (s', Ret new) /\ node_list s' new ks cs /\
    route ks cs [6] = Some 14 /\ route ks cs [7] = Some 21.
Proof.
  destruct example_nodes as (s & a & b & Hpm & Hla & Hlb & Ha & Hav & Hn & Hnb & _). exists s, a, b.
  destruct (merge_nodes_routes s a b [7] _ _ _ _ Hpm Hla Hlb Hn Hnb ltac:(lia) ltac:(repeat constructor; lia)
    ltac:(repeat constructor; lia) ltac:(repeat constructor) ltac:(vm_compute; discriminate))
    as (new & s' & ks & cs & E & _ & Hn' & R).
  exists new, s', ks, cs. split; [exact E|]. split; [exact Hn'|]. rewrite !R. vm_compute. auto.
Defined.

Lemma borrow_left_misroutes_witness :
  exists s a b newSelf newSib s' ks cs, Merge.BorrowFromLeftNode b a [7] s = (s', Ret (newSelf, newSib, [5])) /\
    route [[1]; [3]; [5]] [11; 12; 13; 14] [6] = Some 14 /\
    node_list s' newSelf ks cs /\ route ks cs [6] = Some 21.
Proof.
  destruct example_nodes as (s & a & b & Hpm & Hla & Hlb & Ha & Hav & Hn & Hnb & _). exists s, a, b.
  destruct (borrow_left_misroutes s b a [7] [[9]] 21 [22] [[1]; [3]] [5] [11; 12; 13] 14 [6] Hpm Hlb Hla Hnb Hn
    ltac:(lia) ltac:(repeat constructor; lia) ltac:(repeat constructor; lia) ltac:(repeat constructor)
    ltac:(vm_compute; discriminate) ltac:(vm_compute; discriminate) eq_refl)
    as (R0 & ns & nb & s' & ks & cs & E & Hn' & R).
  exists ns, nb, s', ks, cs. split; [exact E|]. split; [exact R0|]. split; [exact Hn'|exact R].
Defined.

(** One more leaf, built by the page manager. *)
Lemma example_leaf_page s l :
  pm_ok s -> 0 < avail s -> SizeofPageHeader + zlen l * 16 + kv_size l <= PageSize -> keys_sorted (l.*1) ->
  exists new s', grew [new] s s' /\ live s' new /\ leaf_list s' new l /\ GetDataEnd s' new <= kv_size l.
Proof.
  intros Hpm Hav Hfit Hs.
  destruct (grew_alloc [] s s (grew_refl s Hpm) Hav) as (new & s1 & E1 & Hg1 & _).
  destruct (gr_fresh _ _ _ Hg1 new ltac:(by left)) as [Hnl _].
  destruct (fresh_leaf s1 new new 1 [] s Hg1 Hnl) as (s2 & _ & Hg2 & Hok2 & _).
  destruct (insertAll_ok new l s2 [] 0 Hok2) as (s3 & _ & Hok3 & Ho3 & _); [rewrite zlen_nil; lia|].
  pose proof (grew_only _ _ _ _ _ Hg2 Ho3 Hnl) as Hg3.
  exists new, s3. split; [done|]. split; [apply (gr_live _ _ _ Hg3); right; by left|].
  split; [split; [by eexists|done]|]. by apply (GetDataEnd_ok (entry := leaf_entry) PageTypeLeaf _ _ _ _ (proj1 Hok3)).
Qed.

(** A leaf with two entries next to a leaf with one. *)
Lemma example_leaves : exists s a b, pm_ok s /\ live s a /\ live s b /\ avail s = 4 /\
  leaf_list s a example_entries /\ leaf_list s b [([9], value1)] /\ GetDataEnd s b <= 11.
Proof.
  assert (Hpm : pm_ok example_pm) by (constructor; cbn; try constructor; lia).
  destruct (example_leaf_page example_pm example_entries Hpm) as (a & s1 & Hg1 & Hl1 & Hn1 & _);
    [reflexivity|vm_compute; discriminate|repeat constructor|].
  destruct (example_leaf_page s1 [([9], value1)] (gr_ok _ _ _ Hg1)) as (b & s2 & Hg2 & Hl2 & Hn2 & Hd2);
    [rewrite (gr_avail _ _ _ Hg1); reflexivity|vm_compute; discriminate|repeat constructor|].
  exists s2, a, b. split; [apply Hg2|]. split; [apply (gr_live _ _ _ Hg2); by left|]. split; [done|].
  split; [by rewrite (gr_avail _ _ _ Hg2), (gr_avail _ _ _ Hg1)|]. split; [|by split].
  destruct Hn1 as [[d Hok] Hs]. split; [|done]. exists d. exact (grew_page _ _ _ _ _ _ _ Hg2 Hl1 Hok).
Qed.

Lemma merge_leaves_refines_witness :
  exists s a b new s', Merge.MergeLeaves a b s = (s', Ret new) /\
    leaf_rep s' new (list_to_map example_entries ∪ list_to_map [([9], value1)]).
Proof.
  destruct example_leaves as (s & a & b & Hpm & Hla & Hlb & Hav & Ha & Hb & _). exists s, a, b.
  pose proof (merge_leaves_refines s a b _ _ Hpm Hla Hlb Ha Hb ltac:(lia) ltac:(repeat constructor)) as H.
  rewrite decide_True in H by (vm_compute; discriminate).
  destruct H as (new & s' & E & _ & R & _). exists new, s'. split; [exact E|exact R].
Defined.

Lemma borrow_leaf_moves_one_witness :
  exists s a b newSelf newSib s', Merge.BorrowFromLeftLeaf b a s = (s', Ret (newSelf, newSib)) /\
    borrowed s s' newSelf newSib [([8], value1); ([9], value1)] [([7], value1)].
Proof.
  destruct example_leaves as (s & a & b & Hpm & Hla & Hlb & Hav & Ha & Hb & Hd). exists s, a, b.
  assert (Hfit : fits s b (zlen [(([9] : bytes), value1)]) ([8], value1))
    by (unfold fits, leaf_size; cbn; unfold zlen; cbn; off_lia).
  destruct (borrow_leaf_moves_one s b a [([9], value1)] [([7], value1)] ([8], value1) Hpm Hlb Hla Hb ltac:(lia) Hfit)
    as (H & _).
  destruct (H Ha ltac:(repeat constructor)) as (ns & nb & s' & E & B). exists ns, nb, s'. split; [exact E|exact B].
Defined.
