(* ===== verification/BTree.v ===== *)
(** * The B+Tree over references (btree.go, operations.go, search.go,
    page_ref.go, root_ref.go, storage_adapter.go)

    A page reference ([PageRef]) is an address in a heap of references; it has
    an immutable page number and two words that are replaced by
    compare-and-swap: its [PageInfo] and its children cache.  A [PageInfo] has
    an address too, so that the compare-and-swap compares what the code
    compares.  An operation runs here without interference from another
    goroutine: its retry loops are modelled, and a CAS can only fail on what
    the operation itself has replaced.  The pages handed to the epoch manager
    (Epoch.v) are recorded in [retired]. *)

From stdpp Require Import base list gmap strings.
From Stdlib Require Import ZArith Lia.
From S2P Require Import Prelude MvccCodec OffHeap PageLayout LeafPage NodePage Merge TxManager.

Local Open Scope Z_scope.

(** ** State *)

Inductive NodeState : Set :=
| NodeNormal | NodeRoot | NodeRedirect | NodeSplitting | NodeMerging | NodeCompacting | NodeInplaceUpdate.

#[export] Instance NodeState_eq_dec : EqDecision NodeState.
Proof. solve_decision. Defined.

Record PageInfo := mkPageInfo {
  i_addr : Z; (* the address of the object *)
  PageID : Z;
  Version : Z;
  Redirect : bool;
  NewRef : option Z;
  IsLeafInfo : bool;
  State : NodeState }.

Abbreviation refCache := (Cache.ChildrenCache Z).
Definition mkCache (cs : list Z) (seps : list bytes) : refCache :=
  {| Cache.Children := cs; Cache.Separators := seps |}.

Record PageRef := mkPageRef {
  pageID : Z; (* immutable *)
  pInfo : PageInfo;
  children : option refCache }.

(** [refs] is the heap of references, [rootRef] the address of the root;
    [offset] is the local variable of the adapter's [SetBatch] that its
    mutation assigns. *)
Record BTree := mkBTree {
  pm : PageManager;
  refs : gmap Z PageRef;
  nextRef : Z;
  nextInfo : Z;
  size : Z;
  closed : bool;
  storageClosed : bool;
  dirtyBytes : Z;
  tsCounter : Z;
  epochOn : bool;
  retired : list Z;
  offset : Z }.

Definition rootRef : Z := 0.

Definition with_pm (s : PageManager) (b : BTree) : BTree :=
  mkBTree s (refs b) (nextRef b) (nextInfo b) (size b) (closed b) (storageClosed b) (dirtyBytes b) (tsCounter b) (epochOn b) (retired b) (offset b).
Definition with_refs (m : gmap Z PageRef) (b : BTree) : BTree :=
  mkBTree (pm b) m (nextRef b) (nextInfo b) (size b) (closed b) (storageClosed b) (dirtyBytes b) (tsCounter b) (epochOn b) (retired b) (offset b).
Definition with_nextRef (n : Z) (b : BTree) : BTree :=
  mkBTree (pm b) (refs b) n (nextInfo b) (size b) (closed b) (storageClosed b) (dirtyBytes b) (tsCounter b) (epochOn b) (retired b) (offset b).
Definition with_nextInfo (n : Z) (b : BTree) : BTree :=
  mkBTree (pm b) (refs b) (nextRef b) n (size b) (closed b) (storageClosed b) (dirtyBytes b) (tsCounter b) (epochOn b) (retired b) (offset b).
Definition with_size (n : Z) (b : BTree) : BTree :=
  mkBTree (pm b) (refs b) (nextRef b) (nextInfo b) n (closed b) (storageClosed b) (dirtyBytes b) (tsCounter b) (epochOn b) (retired b) (offset b).
Definition with_closed (b : BTree) : BTree :=
  mkBTree (pm b) (refs b) (nextRef b) (nextInfo b) (size b) true true (dirtyBytes b) (tsCounter b) (epochOn b) (retired b) (offset b).
Definition with_dirty (n : Z) (b : BTree) : BTree :=
  mkBTree (pm b) (refs b) (nextRef b) (nextInfo b) (size b) (closed b) (storageClosed b) n (tsCounter b) (epochOn b) (retired b) (offset b).
Definition with_tsCounter (n : Z) (b : BTree) : BTree :=
  mkBTree (pm b) (refs b) (nextRef b) (nextInfo b) (size b) (closed b) (storageClosed b) (dirtyBytes b) n (epochOn b) (retired b) (offset b).
Definition with_retired (l : list Z) (b : BTree) : BTree :=
  mkBTree (pm b) (refs b) (nextRef b) (nextInfo b) (size b) (closed b) (storageClosed b) (dirtyBytes b) (tsCounter b) (epochOn b) l (offset b).
Definition with_offset (n : Z) (b : BTree) : BTree :=
  mkBTree (pm b) (refs b) (nextRef b) (nextInfo b) (size b) (closed b) (storageClosed b) (dirtyBytes b) (tsCounter b) (epochOn b) (retired b) n.

(** An operation of the page manager or of a page handle. *)
Definition onPM {A} (m : stM PageManager A) : stM BTree A := fun b =>
  let '(s, r) := m (pm b) in (with_pm s b, r).

(** ** References (page_ref.go) *)

(** [&PageInfo{...}]: a fresh object. *)
Definition newPageInfo (pid version : Z) (redirect : bool) (newRef : option Z) (leaf : bool) (st : NodeState)
    : stM BTree PageInfo := fun b =>
  (with_nextInfo (nextInfo b + 1) b, Ret (mkPageInfo (nextInfo b) pid version redirect newRef leaf st)).

Definition storeRef (r : Z) (f : PageRef -> PageRef) (b : BTree) : BTree := with_refs (alter f r (refs b)) b.
Definition set_pInfo (i : PageInfo) (p : PageRef) : PageRef := mkPageRef (pageID p) i (children p).
Definition set_children (c : option refCache) (p : PageRef) : PageRef := mkPageRef (pageID p) (pInfo p) c.

Definition allocRef (p : PageRef) : stM BTree Z := fun b =>
  (with_nextRef (nextRef b + 1) (with_refs (<[nextRef b := p]> (refs b)) b), Ret (nextRef b)).

(** A fresh reference; it starts as a normal leaf. *)
Definition NewPageRef (pid version : Z) : stM BTree Z :=
  info ← newPageInfo pid version false None true NodeNormal;
  allocRef (mkPageRef pid info None).

(** Dereferences: an address that was never allocated would be a nil pointer. *)
Definition derefOf (b : BTree) (r : Z) : outcome PageRef :=
  match refs b !! r with Some p => Ret p | None => Panic end.
Definition deref (r : Z) : stM BTree PageRef := b ← getS; liftS (derefOf b r).

Definition GetPageInfo (r : Z) : stM BTree PageInfo := p ← deref r; mret (pInfo p).
Definition GetChildren (r : Z) : stM BTree (option refCache) := p ← deref r; mret (children p).

Definition CAS (r : Z) (old new : PageInfo) : stM BTree bool :=
  p ← deref r;
  if i_addr (pInfo p) =? i_addr old then _ ← modifyS (storeRef r (set_pInfo new)); mret true
  else mret false.

(** root_ref.go *)
Definition ReplaceRoot (old new : PageInfo) (newChildren : refCache) : stM BTree bool :=
  ok ← CAS rootRef old new;
  if (ok : bool) then _ ← modifyS (storeRef rootRef (set_children (Some newChildren))); mret true
  else mret false.

(** ** The page store (offheap_storage.go) *)

Definition maxUint32 : Z := 2 ^ 32 - 1.
Definition errPageIDExceedsMax : gerr := NexError ErrBTreeInvalidPage "pageID exceeds uint32 max".
Definition errNotLeafPage : gerr := NexError ErrBTreeInvalidPage "page is not a leaf page".
Definition errNotNodePage : gerr := NexError ErrBTreeInvalidPage "page is not a node page".

Definition validatePageID (id : Z) : stM BTree Z :=
  if maxUint32 <? id then failS errPageIDExceedsMax else mret id.

Definition storageCheckOpen : stM BTree unit :=
  b ← getS; if storageClosed b then failS (Sentinel ErrBTreeClosed) else mret tt.

Definition addDirty : stM BTree unit := modifyS (fun b => with_dirty (u64 (dirtyBytes b + PageSize)) b).

Definition AllocLeafPage : stM BTree Z :=
  _ ← storageCheckOpen;
  rawID ← onErr (onPM Alloc) (wrapAs "alloc leaf page");
  _ ← onPM (InitLeafPage rawID 1);
  _ ← addDirty;
  mret rawID.

Definition AllocNodePage : stM BTree Z :=
  _ ← storageCheckOpen;
  rawID ← onErr (onPM Alloc) (wrapAs "alloc node page");
  _ ← onPM (InitIndexPage rawID 1);
  _ ← addDirty;
  mret rawID.

(** A handle is the number of its page. *)
Definition GetLeafPage (id : Z) : stM BTree Z :=
  rawID ← validatePageID id;
  b ← getS;
  if negb (IsLeaf (pm b) rawID) then failS errNotLeafPage else mret id.

Definition GetNodePage (id : Z) : stM BTree Z :=
  rawID ← validatePageID id;
  b ← getS;
  if IsLeaf (pm b) rawID then failS errNotNodePage else mret id.

Definition storageFreePage (id : Z) : stM BTree unit :=
  rawID ← validatePageID id;
  onPM (Free rawID).

(** [_ = b.storage.FreePage(id)]. *)
Definition dropFreePage (id : Z) : stM BTree unit := fun b =>
  match storageFreePage id b with
  | (b', Fail _) => (b', Ret tt)
  | r => r
  end.

(** [if b.epochMgr != nil { b.epochMgr.Retire(...) }]. *)
Definition retirePages (ids : list Z) : stM BTree unit :=
  modifyS (fun b => if epochOn b then with_retired (retired b ++ ids) b else b).

(** ** Creation *)

Definition NewBTree (s : PageManager) (enableEpoch : bool) : BTree * outcome unit :=
  let b := mkBTree s ∅ 0 0 0 false false 0 0 enableEpoch [] 0 in
  (pid ← onErr AllocLeafPage (wrapAs "init root leaf");
   info ← newPageInfo pid 1 false None true NodeRoot;
   modifyS (fun b => with_nextRef 1 (with_refs {[rootRef := mkPageRef pid info None]} b))) b.

Definition checkOpen : stM BTree unit :=
  b ← getS; if closed b then failS (Sentinel ErrBTreeClosed) else mret tt.

(** ** Search path (search.go) *)

(** The reference at each level and the child chosen there, -1 for the leaf. *)
Record PathEntry := mkEntry { Ref : Z; Index : Z }.

Definition errRetry : gerr := Sentinel ErrBTreeRetry.

(** The child of [cache] for [key], or ErrRetry. *)
Definition childFor (cache : option refCache) (key : bytes) : stM BTree (Z * Z) :=
  match cache with
  | None => failS errRetry
  | Some c =>
      idx ← liftS (Cache.Search (Some c) key);
      match Cache.Children c !! Z.to_nat idx with
      | Some childRef => mret (childRef, idx)
      | None => failS errRetry
      end
  end.

(** The descent.  Fuel: the number of references; one is left at every level. *)
Fixpoint descend (fuel : nat) (currentRef : Z) (key : bytes) (path : list PathEntry) : stM BTree (list PathEntry) :=
  match fuel with
  | O => liftS Panic
  | S fuel =>
      info ← GetPageInfo currentRef;
      if IsLeafInfo info then
        if Redirect info then failS errRetry
        else mret (path ++ [mkEntry currentRef (-1)])
      else
        cache ← GetChildren currentRef;
        c ← childFor cache key;
        childInfo ← GetPageInfo c.1;
        c ← (if Redirect childInfo then
               updatedCache ← GetChildren currentRef;
               childFor updatedCache key
             else mret c);
        descend fuel c.1 key (path ++ [mkEntry currentRef c.2])
  end.

Definition searchPath (key : bytes) : stM BTree (list PathEntry) :=
  b ← getS;
  descend (S (base.size (refs b))) rootRef key [].

(** [path.Leaf()]. *)
Definition pathLeaf (path : list PathEntry) : stM BTree PathEntry :=
  match last path with Some e => mret e | None => liftS Panic end.

(** ** Children caches (operations.go) *)

(** The position of the first reference of [cs] whose page number is [id]. *)
Fixpoint indexOfPage (b : BTree) (cs : list Z) (id : Z) (i : nat) : outcome (option nat) :=
  match cs with
  | [] => Ret None
  | c :: cs =>
      p ← derefOf b c;
      if pageID p =? id then Ret (Some i) else indexOfPage b cs id (S i)
  end.

Definition updateChildrenCache (parentRef oldChildID leftRef rightRef : Z) (splitKey : bytes) : stM BTree unit :=
  curCache ← GetChildren parentRef;
  match curCache with
  | None => mret tt
  | Some c =>
      b ← getS;
      idx ← liftS (indexOfPage b (Cache.Children c) oldChildID 0);
      match idx with
      | None => mret tt
      | Some idx =>
          modifyS (storeRef parentRef (set_children (Some
            (mkCache (split_child idx leftRef rightRef (Cache.Children c))
                     (insert_at idx splitKey (Cache.Separators c))))))
      end
  end.

Definition distributeChildrenAfterSplit (oldRef leftRef rightRef leftPage : Z) : stM BTree unit :=
  oldCache ← GetChildren oldRef;
  b ← getS;
  match oldCache with
  | None => mret tt
  | Some c =>
      let leftCount := Node.ChildCount (pm b) leftPage in
      let all := Cache.Children c in
      if (0 <? leftCount) && (leftCount <=? zlen all) then
        leftSeps ← liftS (slice (Cache.Separators c) 0 (leftCount - 1));
        _ ← modifyS (storeRef leftRef (set_children (Some (mkCache (ztake leftCount all) leftSeps))));
        let rightCount := zlen all - leftCount in
        if 0 <? rightCount then
          rightSeps ← liftS (slice (Cache.Separators c) leftCount (leftCount + rightCount - 1));
          modifyS (storeRef rightRef (set_children (Some (mkCache (zdrop leftCount all) rightSeps))))
        else mret tt
      else mret tt
  end.

(** The children [ci, ci+1, ...] of a page searched for [id]; [n] are left. *)
Fixpoint findChild (s : PageManager) (page id ci : Z) (n : nat) : outcome (option Z) :=
  match n with
  | O => Ret None
  | S n =>
      c ← Node.GetChild s page ci;
      if c =? id then Ret (Some ci) else findChild s page id (ci + 1) n
  end.

(** The index re-derived from the page, [dflt] when the child is not there. *)
Definition actualIndex (page id dflt : Z) : stM BTree Z :=
  b ← getS;
  r ← liftS (findChild (pm b) page id 0 (Z.to_nat (Node.ChildCount (pm b) page)));
  mret (default dflt r).

(** Frees the pages [ids] when [m] fails. *)
Definition cleanup {A} (ids : list Z) (m : stM BTree A) : stM BTree A := fun b =>
  match m b with
  | (b', Fail e) => foldr (fun id k => _ ← dropFreePage id; k) (failS e) ids b'
  | r => r
  end.

(** ** Splits (operations.go) *)

Definition MaxParentCASSpins : nat := 50.
Definition SplitBackoffMaxRetries : Z := 96.
Definition MaxCASRetries : nat := 3.
Definition maxCASFastAttempts : nat := 3.

Definition errCASConflict : gerr := Sentinel ErrBTreeCASConflict.

(** [handleParentCASWithSpin], with [n] spins left. *)
Fixpoint parentCASLoop (n : nat) (parentRef oldChildID leftChildID rightChildID : Z) (splitKey : bytes)
    (childIdx leftRef rightRef : Z) : stM BTree (PageInfo * Z) :=
  match n with
  | O => failS errCASConflict
  | S n =>
      let again := parentCASLoop n parentRef oldChildID leftChildID rightChildID splitKey childIdx leftRef rightRef in
      curInfo ← GetPageInfo parentRef;
      if Redirect curInfo then failS errCASConflict else
      fun b =>
        match GetNodePage (PageID curInfo) b with
        | (b, Panic) => (b, Panic)
        | (b, Fail e) =>
            if decide (e = errNotNodePage) then again b
            else (b, Fail (Wrap e "btree: handleParentCASWithSpin get parent"))
        | (b, Ret oldParent) =>
            (actualIdx ← actualIndex oldParent oldChildID childIdx;
             if Node.ChildCount (pm b) oldParent <=? actualIdx then failS errCASConflict else
             newParent ← onPM (Node.InsertChild oldParent actualIdx splitKey leftChildID rightChildID);
             newInfo ← newPageInfo newParent (u64 (Version curInfo + 1)) false None false (State curInfo);
             success ← CAS parentRef curInfo newInfo;
             if (success : bool) then
               _ ← updateChildrenCache parentRef oldChildID leftRef rightRef splitKey;
               mret (newInfo, newParent)
             else again) b
        end
  end.
Definition handleParentCASWithSpin := parentCASLoop MaxParentCASSpins.

(** [NewPageRef] followed by the store of an internal page's info. *)
Definition newNodeRef (page : Z) : stM BTree Z :=
  r ← NewPageRef page 0;
  info ← newPageInfo page 1 false None false NodeNormal;
  _ ← modifyS (storeRef r (set_pInfo info));
  mret r.

(** Steps 3 to 8 of [handleRootInternalSplit]: the new root is published, the
    blank page behind its copy released. *)
Definition publishInternalRoot (ref : Z) (rootInfo : PageInfo) (lp rp leftRef rightRef : Z) (splitKey : bytes)
    (newRootID newRootPage : Z) : stM BTree unit :=
  newRootInfo ← newPageInfo newRootPage (u64 (Version rootInfo + 1)) false None false NodeRoot;
  ok ← ReplaceRoot rootInfo newRootInfo (mkCache [leftRef; rightRef] [splitKey]);
  if negb ok then cleanup [lp; rp; newRootID; newRootPage] (failS errCASConflict) else
  _ ← retirePages [PageID rootInfo];
  redirectInfo ← newPageInfo (PageID rootInfo) (u64 (Version rootInfo + 1)) true (Some leftRef) (IsLeafInfo rootInfo) NodeRedirect;
  _ ← CAS ref rootInfo redirectInfo;
  dropFreePage newRootID.

(** [lp] and [rp] are the halves of the old root. *)
Definition handleRootInternalSplit (ref : Z) (rootInfo : PageInfo) (lp rp : Z) (splitKey : bytes)
    : stM BTree unit :=
  leftRef ← newNodeRef lp;
  rightRef ← newNodeRef rp;
  _ ← distributeChildrenAfterSplit ref leftRef rightRef lp;
  newRootID ← cleanup [lp; rp] (onErr AllocNodePage (wrapAs "btree: handleRootInternalSplit alloc root"));
  newRootPage ← cleanup [lp; rp; newRootID] (
    blank ← onErr (GetNodePage newRootID) (wrapAs "btree: handleRootInternalSplit get new root");
    onErr (onPM (Node.InsertChild blank 0 splitKey lp rp)) (wrapAs "btree: handleRootInternalSplit insert child"));
  publishInternalRoot ref rootInfo lp rp leftRef rightRef splitKey newRootID newRootPage.

(** Steps 3a to 6 of [handleInternalSplit]: references for the halves, and the
    grandparent's page with both, published by CAS. *)
Definition insertHalves (currentRef grandparentRef idx lp rp : Z) (splitKey : bytes)
    : stM BTree (Z * Z * PageInfo * Z * PageInfo * bool) :=
  leftRef ← newNodeRef lp;
  rightRef ← newNodeRef rp;
  _ ← distributeChildrenAfterSplit currentRef leftRef rightRef lp;
  grandparentInfo ← GetPageInfo grandparentRef;
  old ← onErr (GetNodePage (PageID grandparentInfo)) (wrapAs "btree: handleInternalSplit get grandparent");
  currentID ← deref currentRef;
  actualIdx ← actualIndex old (pageID currentID) idx;
  b ← getS;
  if Node.ChildCount (pm b) old <=? actualIdx then failS errCASConflict else
  new ← onErr (onPM (Node.InsertChild old actualIdx splitKey lp rp)) (wrapAs "btree: handleInternalSplit insert child");
  newInfo ← newPageInfo new (u64 (Version grandparentInfo + 1)) false None false (State grandparentInfo);
  ok ← CAS grandparentRef grandparentInfo newInfo;
  mret (leftRef, rightRef, grandparentInfo, new, newInfo, (ok : bool)).

(** Steps 7 and 8, after the CAS: redirect the split node, update the cache. *)
Definition redirectSplit (currentRef : Z) (currentInfo : PageInfo) (grandparentRef leftRef rightRef : Z) (splitKey : bytes)
    : stM BTree unit :=
  redirectInfo ← newPageInfo (PageID currentInfo) (u64 (Version currentInfo + 1)) true (Some leftRef)
                   (IsLeafInfo currentInfo) NodeRedirect;
  _ ← CAS currentRef currentInfo redirectInfo;
  currentID ← deref currentRef;
  updateChildrenCache grandparentRef (pageID currentID) leftRef rightRef splitKey.

(** [handleInternalSplit]: the loop upward from [level]. *)
Fixpoint handleInternalSplit (path : list PathEntry) (level : nat) (currentRef : Z) (currentInfo : PageInfo)
    : stM BTree unit :=
  currentNode ← onErr (GetNodePage (PageID currentInfo)) (wrapAs "btree: handleInternalSplit get node");
  sp ← onErr (onPM (Node.Split currentNode)) (wrapAs "btree: handleInternalSplit split node");
  let '(lp, rp, splitKey) := (sp : Z * Z * bytes) in
  match level with
  | O => handleRootInternalSplit currentRef currentInfo lp rp splitKey
  | S level' =>
      match path !! level' with
      | None => liftS Panic
      | Some grandparent =>
          let grandparentRef := Ref grandparent in
          next ← cleanup [lp; rp] (insertHalves currentRef grandparentRef (Index grandparent) lp rp splitKey);
          let '(leftRef, rightRef, grandparentInfo, new, newInfo, ok) :=
            (next : Z * Z * PageInfo * Z * PageInfo * bool) in
          if negb ok then _ ← dropFreePage new; failS errCASConflict else
          _ ← retirePages [PageID grandparentInfo];
          _ ← redirectSplit currentRef currentInfo grandparentRef leftRef rightRef splitKey;
          b ← getS;
          if negb (Node.IsFull (pm b) new 0) then mret tt
          else handleInternalSplit path level' grandparentRef newInfo
      end
  end.

(** [_ = m]. *)
Definition ignoreErr (m : stM BTree unit) : stM BTree unit := fun b =>
  match m b with
  | (b', Fail _) => (b', Ret tt)
  | r => r
  end.

(** ** Leaf mutations *)

Record leafMutation := mkMutation {
  newPageID : Z;
  delta : Z;
  tombstoneDelta : Z;
  inPlace : bool;
  inPlaceIdx : Z;
  inPlaceValue : bytes }.

(** A mutation of a leaf page; the result of the copying kind. *)
Definition mutateFunc : Type := Z -> stM BTree leafMutation.
Definition cowMutation (page d td : Z) : leafMutation := mkMutation page d td false 0 [].

(** Conversion to [int16]. *)
Definition i16 (z : Z) : Z := (z + 2 ^ 15) mod 2 ^ 16 - 2 ^ 15.

Definition applyTombstoneDelta (page td : Z) : stM BTree unit :=
  if td =? 0 then mret tt else
  b ← getS;
  let newTC := i16 (i16 (GetTombstoneCount (pm b) page) + td) in
  onPM (SetTombstoneCount page (u16 (if newTC <? 0 then 0 else newTC))).

Definition addSize (d : Z) : stM BTree unit := modifyS (fun b => with_size (i64 (size b + d)) b).

(** The page a mutated half ends up as, and the half it replaced. *)
Definition finalPage (page : Z) (m : leafMutation) : Z := if inPlace m then page else newPageID m.
Definition orphanOf (page : Z) (m : leafMutation) : Z := if inPlace m then 0 else page.

(** Steps 1 to 3 of a leaf split: split, choose the half for [key], mutate it.
    The split pages, the split key, the mutation and whether it was the left. *)
Definition splitAndMutate (page : Z) (key : bytes) (mutate : mutateFunc)
    : stM BTree (Z * Z * bytes * leafMutation * bool) :=
  sp ← onPM (Split page);
  let '(lp, rp, splitKey) := (sp : Z * Z * bytes) in
  let goLeft := match bytes_compare key splitKey with Lt => true | _ => false end in
  mutation ← (fun b => match mutate (if goLeft then lp else rp) b with
                       | (b', Fail e) => (_ ← dropFreePage lp; _ ← dropFreePage rp; failS e) b'
                       | r => r
                       end);
  _ ← (if inPlace mutation then mret tt else applyTombstoneDelta (newPageID mutation) (tombstoneDelta mutation));
  mret (lp, rp, splitKey, mutation, goLeft).

(** [path[len(path)-2]]. *)
Definition pathParent (path : list PathEntry) : stM BTree PathEntry :=
  match rev path with
  | _ :: p :: _ => mret p
  | _ => liftS Panic
  end.

(** The children a split leaf is replaced by: page numbers and references, the
    split key and the change of the size. *)
Definition splitLeafChildren (leaf : Z) (key : bytes) (mutate : mutateFunc) : stM BTree (Z * Z * Z * Z * bytes * Z) :=
  sp ← splitAndMutate leaf key mutate;
  let '(lp, rp, splitKey, mutation, goLeft) := (sp : Z * Z * bytes * leafMutation * bool) in
  let leftChildID := if goLeft then finalPage lp mutation else lp in
  let rightChildID := if goLeft then rp else finalPage rp mutation in
  let orphanPageID := orphanOf (if goLeft then lp else rp) mutation in
  leftRef ← NewPageRef leftChildID 0;
  rightRef ← NewPageRef rightChildID 0;
  _ ← (if orphanPageID =? 0 then mret tt else dropFreePage orphanPageID);
  mret (leftChildID, rightChildID, leftRef, rightRef, splitKey, delta mutation).

(** Step 6 on, after the parent's CAS. *)
Definition finishLeafSplit (leafRef : Z) (leafInfo : PageInfo) (path : list PathEntry) (parentRef : Z)
    (newParentInfo : PageInfo) (newParent leftRef d : Z) : stM BTree unit :=
  redirectInfo ← newPageInfo (PageID leafInfo) (u64 (Version leafInfo + 1)) true (Some leftRef) true NodeRedirect;
  ok ← CAS leafRef leafInfo redirectInfo;
  if negb ok then _ ← dropFreePage newParent; failS errCASConflict else
  b ← getS;
  _ ← (if Node.IsFull (pm b) newParent 0
       then ignoreErr (handleInternalSplit path (length path - 2) parentRef newParentInfo) else mret tt);
  addSize d.

Definition handleLeafSplit (leafRef : Z) (leafInfo : PageInfo) (path : list PathEntry) (key : bytes) (mutate : mutateFunc)
    : stM BTree unit :=
  leaf ← onErr (GetLeafPage (PageID leafInfo)) (wrapAs "btree: handleLeafSplit get leaf");
  c ← splitLeafChildren leaf key mutate;
  let '(leftChildID, rightChildID, leftRef, rightRef, splitKey, d) := (c : Z * Z * Z * Z * bytes * Z) in
  parentEntry ← pathParent path;
  let parentRef := Ref parentEntry in
  leafOf ← deref leafRef;
  np ← handleParentCASWithSpin parentRef (pageID leafOf) leftChildID rightChildID splitKey (Index parentEntry) leftRef rightRef;
  let '(newParentInfo, newParent) := (np : PageInfo * Z) in
  finishLeafSplit leafRef leafInfo path parentRef newParentInfo newParent leftRef d.

(** Steps 6 to 10 of [handleRootSplit]: the new root over the two leaves. *)
Definition publishLeafRoot (rootInfo : PageInfo) (leftChildID rightChildID : Z) (splitKey : bytes)
    (d orphanPageID newRootID newRootPage : Z) : stM BTree unit :=
  leftRef ← NewPageRef leftChildID 0;
  rightRef ← NewPageRef rightChildID 0;
  newRootInfo ← newPageInfo newRootPage (u64 (Version rootInfo + 1)) false None false NodeRoot;
  ok ← ReplaceRoot rootInfo newRootInfo (mkCache [leftRef; rightRef] [splitKey]);
  if negb ok then cleanup [orphanPageID; newRootID; newRootPage] (failS errCASConflict) else
  _ ← retirePages [PageID rootInfo];
  _ ← addSize d;
  _ ← dropFreePage orphanPageID;
  dropFreePage newRootID.

Definition handleRootSplit (rootInfo : PageInfo) (key : bytes) (mutate : mutateFunc) : stM BTree unit :=
  rootLeaf ← onErr (GetLeafPage (PageID rootInfo)) (wrapAs "btree: handleRootSplit get leaf");
  sp ← splitAndMutate rootLeaf key mutate;
  let '(lp, rp, splitKey, mutation, goLeft) := (sp : Z * Z * bytes * leafMutation * bool) in
  let orphanPageID := orphanOf (if goLeft then lp else rp) mutation in
  let leftChildID := if goLeft then finalPage lp mutation else lp in
  let rightChildID := if goLeft then rp else finalPage rp mutation in
  newRootID ← cleanup [lp; rp] AllocNodePage;
  newRootPage ← cleanup [newRootID] (
    blank ← GetNodePage newRootID;
    onPM (Node.InsertChild blank 0 splitKey leftChildID rightChildID));
  publishLeafRoot rootInfo leftChildID rightChildID splitKey (delta mutation) orphanPageID newRootID newRootPage.

(** The deferred rollback of the Splitting mark. *)
Definition rollbackSplitting (leafRef : Z) (splittingInfo oldInfo : PageInfo) : stM BTree unit :=
  info ← GetPageInfo leafRef;
  if i_addr info =? i_addr splittingInfo then _ ← CAS leafRef splittingInfo oldInfo; mret tt else mret tt.

Definition doSplitWithSplitting (leafRef : Z) (splittingInfo oldInfo : PageInfo) (path : list PathEntry)
    (key : bytes) (mutate : mutateFunc) : stM BTree unit := fun b =>
  let '(b, r) := (if (length path <? 2)%nat then handleRootSplit splittingInfo key mutate
                  else handleLeafSplit leafRef splittingInfo path key mutate) b in
  match r with
  | Panic => (b, Panic)
  | _ => (_ ← rollbackSplitting leafRef splittingInfo oldInfo; liftS r) b
  end.

(** ** Merging after a delete (merge_ops.go) *)

Definition IsBusy (i : PageInfo) : bool :=
  negb (bool_decide (State i = NodeNormal)) && negb (bool_decide (State i = NodeRoot)).

(** Less than half of the page, of the children. *)
Definition isLeafSparse (s : PageManager) (page : Z) : bool := 2 * usedSpace s page <? PageSize.
Definition isNodeSparse (s : PageManager) (page : Z) : bool := 2 * Node.ChildCount s page <? Node.MaxInternalKeys.

(** A successful CAS is not looked at. *)
Definition tryCAS (r : Z) (old new : PageInfo) : stM BTree unit := _ ← CAS r old new; mret tt.

Definition mergeChildRefsInCache (parentRef rmIdx mergedPageID : Z) : stM BTree unit :=
  curCache ← GetChildren parentRef;
  match curCache with
  | None => mret tt
  | Some c =>
      if (zlen (Cache.Children c) <=? rmIdx + 1) || (zlen (Cache.Separators c) <=? rmIdx) then mret tt else
      mergedRef ← NewPageRef mergedPageID 0;
      modifyS (storeRef parentRef (set_children (Some
        (mkCache (ztake rmIdx (Cache.Children c) ++ mergedRef :: zdrop (rmIdx + 2) (Cache.Children c))
                 (remove_at (Z.to_nat rmIdx) (Cache.Separators c))))))
  end.

(** The phases shared by the merge of two leaves and of two internal pages:
    mark both references, merge, replace the parent's page, update its cache,
    redirect, release the old pages.  [None]: given up without an error. *)
Definition mergePhases (leaf : bool) (selfRef sibRef : Z) (selfPI sibPI : PageInfo)
    (parentRef : Z) (parentPI : PageInfo) (parent removeIdx : Z) (merge : stM BTree Z) : stM BTree (option Z) :=
  selfOf ← deref selfRef;
  sibOf ← deref sibRef;
  let selfFirst := pageID selfOf <? pageID sibOf in
  let refA := if selfFirst then selfRef else sibRef in
  let refB := if selfFirst then sibRef else selfRef in
  let piA := if selfFirst then selfPI else sibPI in
  let piB := if selfFirst then sibPI else selfPI in
  markA ← newPageInfo (PageID piA) (u64 (Version piA + 1)) false None leaf NodeMerging;
  okA ← CAS refA piA markA;
  if negb okA then mret None else
  markB ← newPageInfo (PageID piB) (u64 (Version piB + 1)) false None leaf NodeMerging;
  okB ← CAS refB piB markB;
  if negb okB then _ ← tryCAS refA markA piA; mret None else
  let undo := (_ ← tryCAS refA markA piA; tryCAS refB markB piB) : stM BTree unit in
  let orUndo {A} (m : stM BTree A) : stM BTree A := fun b =>
    match m b with (b, Fail e) => (_ ← undo; failS e) b | r => r end in
  merged ← orUndo merge;
  removed ← orUndo (onPM (Node.RemoveChild parent removeIdx));
  newParent ← (fun b => match onPM (Node.ReplaceChild removed removeIdx merged) b with
                        | (b, Fail e) => (_ ← undo; liftS Panic) b (* PageID of a nil page *)
                        | r => r end);
  newParPI ← newPageInfo newParent (u64 (Version parentPI + 1)) false None false (State parentPI);
  ok ← CAS parentRef parentPI newParPI;
  if negb ok then _ ← undo; _ ← dropFreePage newParent; mret None else
  _ ← mergeChildRefsInCache parentRef removeIdx merged;
  redirA ← newPageInfo (PageID piA) (u64 (Version markA + 1)) true None leaf NodeRedirect;
  _ ← tryCAS refA markA redirA;
  redirB ← newPageInfo (PageID piB) (u64 (Version markB + 1)) true None leaf NodeRedirect;
  _ ← tryCAS refB markB redirB;
  b ← getS;
  _ ← (if epochOn b then retirePages [PageID piA; PageID piB]
       else _ ← dropFreePage (PageID piA); dropFreePage (PageID piB));
  mret (Some newParent).

(** The first child of [cs] with page number [id]. *)
Fixpoint childWithPage (b : BTree) (cs : list Z) (id : Z) : outcome (option Z) :=
  match cs with
  | [] => Ret None
  | c :: cs => p ← derefOf b c; if pageID p =? id then Ret (Some c) else childWithPage b cs id
  end.

Fixpoint mergeRootLoop (n : nat) : stM BTree unit :=
  match n with
  | O => mret tt
  | S n =>
      oldRootPI ← GetPageInfo rootRef;
      if IsLeafInfo oldRootPI then mret tt else
      oldRoot ← GetNodePage (PageID oldRootPI);
      b ← getS;
      if negb (Node.Count (pm b) oldRoot =? 1) then mret tt else
      childID ← liftS (Node.GetChild (pm b) oldRoot 0);
      cache ← GetChildren rootRef;
      found ← liftS (childWithPage b (match cache with Some c => Cache.Children c | None => [] end) childID);
      childRef ← (match found with Some c => mret c | None => NewPageRef childID 0 end);
      childPI ← GetPageInfo childRef;
      if IsBusy childPI then mergeRootLoop n else
      newRootPI ← newPageInfo (PageID childPI) (u64 (Version childPI + 1)) false None (IsLeafInfo childPI) NodeRoot;
      childCache ← GetChildren childRef;
      ok ← CAS rootRef oldRootPI newRootPI;
      if (ok : bool) then
        _ ← modifyS (storeRef rootRef (set_children childCache));
        dropFreePage (PageID oldRootPI)
      else mergeRootLoop n
  end.
Definition mergeRoot : stM BTree unit := mergeRootLoop 100.

(** The sibling a sparse child [idx] of [parent] is merged with: its index and
    whether the child is the left one. *)
Definition siblingOf (s : PageManager) (parent idx : Z) : option (Z * bool) :=
  if 0 <? idx then Some (idx - 1, false)
  else if idx <? Node.ChildCount s parent - 1 then Some (idx + 1, true)
  else None.

(** [handleInternalMerge] along the path [rpath], given from the leaf up. *)
Fixpoint handleInternalMerge (rpath : list PathEntry) (nodeRef : Z) (nodePI : PageInfo) : stM BTree unit :=
  match rpath with
  | _ :: ((parentEntry :: rest) as up) =>
      let parentRef := Ref parentEntry in
      let nodeIdx := Index parentEntry in
      parentPI ← GetPageInfo parentRef;
      if IsBusy parentPI then mret tt else
      parent ← GetNodePage (PageID parentPI);
      b ← getS;
      match siblingOf (pm b) parent nodeIdx with
      | None => mret tt
      | Some (sibIdx, selfIsLeft) =>
          separator ← liftS (Node.GetKey (pm b) parent (if selfIsLeft then nodeIdx else sibIdx));
          cache ← GetChildren parentRef;
          match cache with
          | None => mret tt
          | Some c =>
              match Cache.Children c !! Z.to_nat sibIdx with
              | None => mret tt
              | Some sibRef =>
                  sibPI ← GetPageInfo sibRef;
                  if IsLeafInfo sibPI || IsBusy sibPI then mret tt else
                  sibNode ← GetNodePage (PageID sibPI);
                  if negb (isNodeSparse (pm b) sibNode) then mret tt else
                  selfNode ← GetNodePage (PageID nodePI);
                  let removeIdx := if selfIsLeft then nodeIdx else sibIdx in
                  done ← mergePhases false nodeRef sibRef nodePI sibPI parentRef parentPI parent removeIdx
                    (onPM (if selfIsLeft then Merge.MergeNodes selfNode sibNode separator
                           else Merge.MergeNodes sibNode selfNode separator));
                  match done with
                  | None => mret tt
                  | Some newParent =>
                      b ← getS;
                      _ ← (if isNodeSparse (pm b) newParent && (3 <=? zlen rpath)
                           then npi ← GetPageInfo parentRef; ignoreErr (handleInternalMerge up parentRef npi)
                           else mret tt);
                      ignoreErr mergeRoot
                  end
              end
          end
      end
  | _ => mret tt
  end.

Definition handleLeafMerge (path : list PathEntry) (sparseRef : Z) (leafPI : PageInfo) : stM BTree unit :=
  parentEntry ← pathParent path;
  let parentRef := Ref parentEntry in
  let leafIdx := Index parentEntry in
  parentPI ← GetPageInfo parentRef;
  if IsBusy parentPI then mret tt else
  parent ← GetNodePage (PageID parentPI);
  b ← getS;
  match siblingOf (pm b) parent leafIdx with
  | None => mret tt
  | Some (sibIdx, selfIsLeft) =>
      cache ← GetChildren parentRef;
      match cache with
      | None => mret tt
      | Some c =>
          match Cache.Children c !! Z.to_nat sibIdx with
          | None => mret tt
          | Some sibRef =>
              sibPI ← GetPageInfo sibRef;
              if negb (IsLeafInfo sibPI) || IsBusy sibPI then mret tt else
              sibLeaf ← GetLeafPage (PageID sibPI);
              if negb (isLeafSparse (pm b) sibLeaf) then mret tt else
              selfLeaf ← GetLeafPage (PageID leafPI);
              let removeIdx := if selfIsLeft then leafIdx else sibIdx in
              done ← mergePhases true sparseRef sibRef leafPI sibPI parentRef parentPI parent removeIdx
                (onPM (if selfIsLeft then Merge.MergeLeaves selfLeaf sibLeaf
                       else Merge.MergeLeaves sibLeaf selfLeaf));
              match done with
              | None => mret tt
              | Some newParent =>
                  b ← getS;
                  _ ← (if isNodeSparse (pm b) newParent && (3 <=? zlen path)
                       then npi ← GetPageInfo parentRef; ignoreErr (handleInternalMerge (tail (rev path)) parentRef npi)
                       else mret tt);
                  ignoreErr mergeRoot
              end
          end
      end
  end.

Definition maybeMergeAfterWrite (path : list PathEntry) (d : Z) : stM BTree unit :=
  b ← getS;
  if negb (epochOn b) || (0 <=? d) then mret tt else
  leafEntry ← pathLeaf path;
  leafPI ← GetPageInfo (Ref leafEntry);
  if IsBusy leafPI then mret tt else
  fun b => match GetLeafPage (PageID leafPI) b with
           | (b, Fail _) => (b, Ret tt)
           | (b, Panic) => (b, Panic)
           | (b, Ret leaf) =>
               if negb (isLeafSparse (pm b) leaf) then (b, Ret tt)
               else ignoreErr (handleLeafMerge path (Ref leafEntry) leafPI) b
           end.
