(* ===== verification/TreeOps.v ===== *)
(** * Reads and writes of the B+Tree (operations.go, btree.go,
    set_with_retry.go, get_with_meta.go, storage_adapter.go)

    The optimistic write template, the operations of the key-value store and
    the adapter through which the transaction engine uses the tree.  A write
    is a list of attempts, each from the root; the functions over a leaf that
    the operations hand to the template are computations on the same state. *)

From stdpp Require Import base list gmap strings sorting.
From Stdlib Require Import ZArith Lia.
From S2P Require Import Prelude MvccCodec OffHeap PageLayout LeafPage TxManager BTree.

Local Open Scope Z_scope.

(** A read of the pages. *)
Definition onPages {A} (f : PageManager -> outcome A) : stM BTree A := fun b => (b, f (pm b)).

(** ** The write template *)

(** How one attempt ends, when not with an error. *)
Inductive attempt := Finished | Continue | SplittingSeen.

(** States of a leaf reference in which a write starts again. *)
Definition unwritable (i : PageInfo) : bool :=
  bool_decide (State i = NodeRedirect) || Redirect i || negb (IsLeafInfo i) ||
  bool_decide (State i = NodeMerging) || bool_decide (State i = NodeCompacting) ||
  bool_decide (State i = NodeInplaceUpdate).

Definition splitAttempt (leafRef : Z) (oldInfo : PageInfo) (path : list PathEntry) (key : bytes) (mutate : mutateFunc)
    : stM BTree attempt :=
  splittingInfo ← newPageInfo (PageID oldInfo) (u64 (Version oldInfo + 1)) false None true NodeSplitting;
  ok ← CAS leafRef oldInfo splittingInfo;
  if negb ok then mret Continue else
  fun b => match doSplitWithSplitting leafRef splittingInfo oldInfo path key mutate b with
           | (b, Ret _) => (b, Ret Finished)
           | (b, Fail e) => if IsErr e ErrBTreeCASConflict || IsErr e ErrBTreeRetry then (b, Ret Continue) else (b, Fail e)
           | (b, Panic) => (b, Panic)
           end.

Definition inPlaceAttempt (leafRef : Z) (oldInfo : PageInfo) (m : leafMutation) : stM BTree attempt :=
  claimInfo ← newPageInfo (PageID oldInfo) (u64 (Version oldInfo + 1)) false None true NodeInplaceUpdate;
  ok ← CAS leafRef oldInfo claimInfo;
  if negb ok then mret Continue else
  _ ← onPM (OverwriteLeafValue (PageID oldInfo) (inPlaceIdx m) (inPlaceValue m));
  _ ← applyTombstoneDelta (PageID oldInfo) (tombstoneDelta m);
  finalInfo ← newPageInfo (PageID oldInfo) (u64 (Version oldInfo + 2)) false None true NodeNormal;
  _ ← CAS leafRef claimInfo finalInfo;
  _ ← addSize (delta m);
  mret Finished.

Definition publishAttempt (leafRef : Z) (oldInfo : PageInfo) (path : list PathEntry) (m : leafMutation) : stM BTree attempt :=
  _ ← applyTombstoneDelta (newPageID m) (tombstoneDelta m);
  newInfo ← newPageInfo (newPageID m) (u64 (Version oldInfo + 1)) false None true NodeNormal;
  ok ← CAS leafRef oldInfo newInfo;
  if negb ok then _ ← dropFreePage (newPageID m); mret Continue else
  _ ← maybeMergeAfterWrite path (delta m);
  _ ← retirePages [PageID oldInfo];
  _ ← addSize (delta m);
  mret Finished.

(** From step 3 on: the leaf is read, and split or mutated. *)
Definition leafAttempt (leafRef : Z) (oldInfo : PageInfo) (path : list PathEntry) (key : bytes) (mutate : mutateFunc)
    : stM BTree attempt := fun b =>
  match GetLeafPage (PageID oldInfo) b with
  | (b, Panic) => (b, Panic)
  | (b, Fail e) => if decide (e = errNotLeafPage) then (b, Ret Continue) else (b, Fail (Wrap e "write operation get leaf"))
  | (b, Ret oldLeaf) =>
      (curInfo ← GetPageInfo leafRef;
       if negb (i_addr curInfo =? i_addr oldInfo) then mret Continue else
       if IsFull (pm b) oldLeaf (zlen key) 0 then splitAttempt leafRef oldInfo path key mutate else
       result ← onErr (mutate oldLeaf) (wrapAs "btree: write operation mutate key");
       if inPlace result then inPlaceAttempt leafRef oldInfo result
       else publishAttempt leafRef oldInfo path result) b
  end.

Definition writeAttempt (key : bytes) (mutate : mutateFunc) : stM BTree attempt := fun b =>
  match searchPath key b with
  | (b, Panic) => (b, Panic)
  | (b, Fail e) => if IsErr e ErrBTreeRetry then (b, Ret Continue) else (b, Fail (Wrap e "write operation search"))
  | (b, Ret path) =>
      (leafEntry ← pathLeaf path;
       let leafRef := Ref leafEntry in
       oldInfo ← GetPageInfo leafRef;
       if unwritable oldInfo then mret Continue else
       if bool_decide (State oldInfo = NodeSplitting) then mret SplittingSeen else
       leafAttempt leafRef oldInfo path key mutate) b
  end.

(** [writeOperation], with [n] attempts left. *)
Fixpoint writeLoop (n : nat) (splittingRetry : Z) (key : bytes) (mutate : mutateFunc) : stM BTree unit :=
  match n with
  | O => failS (Sentinel ErrBTreeCASRetryExhausted)
  | S n =>
      a ← writeAttempt key mutate;
      match a with
      | Finished => mret tt
      | Continue => writeLoop n splittingRetry key mutate
      | SplittingSeen =>
          if SplitBackoffMaxRetries <? splittingRetry + 1 then failS (Sentinel ErrBTreeCASRetryExhausted)
          else writeLoop n (splittingRetry + 1) key mutate
      end
  end.
Definition writeOperation (key : bytes) (mutate : mutateFunc) (maxRetries : nat) : stM BTree unit :=
  writeLoop maxRetries 0 key mutate.

(** ** The key-value store (btree.go) *)

Definition nextTS : stM BTree Z := fun b =>
  let '(c, r) := LocalTS_NextTS (tsCounter b) in (with_tsCounter c b, r).

Definition errKeyNotFound : gerr := Sentinel ErrBTreeKeyNotFound.

(** The leaf of [key], and the raw value there if any. *)
Definition leafLookup (key : bytes) : stM BTree (option bytes) :=
  path ← searchPath key;
  leafEntry ← pathLeaf path;
  pInfo ← GetPageInfo (Ref leafEntry);
  leaf ← GetLeafPage (PageID pInfo);
  r ← onPages (fun s => Search s leaf key);
  if negb (r : Z * bool).2 then mret None
  else raw ← onPages (fun s => GetValueAt s leaf r.1); mret (Some raw).

Definition Get (key : bytes) : stM BTree bytes :=
  _ ← checkOpen;
  raw ← leafLookup key;
  match raw with
  | None => failS errKeyNotFound
  | Some raw =>
      mvccVal ← liftS (ParseMVCC raw);
      if IsTombstone mvccVal then failS errKeyNotFound else mret (RealVal mvccVal)
  end.

Definition getRawBytes (key : bytes) : stM BTree bytes :=
  _ ← checkOpen;
  raw ← leafLookup key;
  match raw with None => failS errKeyNotFound | Some raw => mret raw end.

Definition GetRaw (key : bytes) : stM BTree MVCCValue :=
  raw ← getRawBytes key;
  liftS (ParseMVCC raw).

(** get_with_meta.go; the offset of beginTS is computed in 16 bits. *)
Definition GetWithMeta (key : bytes) : stM BTree (bytes * Z) :=
  raw ← getRawBytes key;
  if zlen raw <? MVCCHeaderSize + 8
  then failS (Wrap (Sentinel ErrBTreeValidationError) "btree: GetWithMeta: value too short") else
  prevValLen ← liftS (be_at 2 raw 10);
  ts ← liftS (slice raw (u16 (12 + prevValLen)) (u16 (12 + prevValLen + 8)));
  beginTS ← liftS (be_at 8 ts 0);
  mret (raw, beginTS).

(** An update of the entry [idx]; [page] is what the mutation names as its page
    when the value fits in place. *)
Definition updateEntry (page leaf idx : Z) (value : bytes) : stM BTree leafMutation :=
  raw ← onPages (fun s => GetValueAt s leaf idx);
  mvccVal ← liftS (ParseMVCC raw);
  ts ← nextTS;
  encoded ← liftS (BuildMVCC FlagNormal ts value 0 0 []);
  inPl ← onPages (fun s => TryInPlace s leaf idx encoded);
  let d := if IsTombstone mvccVal then 1 else 0 in
  let td := if IsTombstone mvccVal then -1 else 0 in
  if (inPl : bool) then mret (mkMutation page d td true idx encoded)
  else newLeaf ← onPM (Update leaf idx encoded); mret (cowMutation newLeaf d td).

Definition mutateUpdate (leaf idx : Z) (value : bytes) : stM BTree leafMutation := updateEntry 0 leaf idx value.

Definition mutateInsert (leaf : Z) (key value : bytes) : stM BTree leafMutation :=
  ts ← nextTS;
  encoded ← liftS (BuildMVCC FlagNormal ts value 0 0 []);
  newLeaf ← onPM (Insert leaf key encoded);
  mret (cowMutation newLeaf 1 0).

(** The function [Set] hands to the template. *)
Definition setMutation (key value : bytes) : mutateFunc := fun leaf =>
  r ← onPages (fun s => Search s leaf key);
  if (r : Z * bool).2 then updateEntry leaf leaf r.1 value else mutateInsert leaf key value.

Definition Set_ (key value : bytes) : stM BTree unit :=
  _ ← checkOpen;
  writeOperation key (setMutation key value) MaxCASRetries.

Definition retryMutation (key value : bytes) : mutateFunc := fun leaf =>
  r ← onPages (fun s => Search s leaf key);
  if (r : Z * bool).2 then mutateUpdate leaf r.1 value else mutateInsert leaf key value.

Definition SetWithRetry (key value : bytes) (maxRetries : nat) : stM BTree unit :=
  _ ← checkOpen;
  writeOperation key (retryMutation key value) maxRetries.

Definition deleteMutation (key : bytes) : mutateFunc := fun leaf =>
  r ← onPages (fun s => Search s leaf key);
  if negb (r : Z * bool).2 then failS errKeyNotFound else
  raw ← onPages (fun s => GetValueAt s leaf r.1);
  mvccVal ← liftS (ParseMVCC raw);
  if IsTombstone mvccVal then failS errKeyNotFound else
  ts ← nextTS;
  tombstoneVal ← liftS (BuildMVCC FlagTombstone ts [] 0 0 []);
  newLeaf ← onPM (Update leaf r.1 tombstoneVal);
  mret (cowMutation newLeaf (-1) 1).

Definition Delete_ (key : bytes) : stM BTree unit :=
  _ ← checkOpen;
  writeOperation key (deleteMutation key) MaxCASRetries.

Definition Size (b : BTree) : Z := size b.

(** [Close]: idempotent; the epoch manager is shut down and the storage closed. *)
Definition Close (b : BTree) : BTree := if closed b then b else with_closed b.

Definition ResolvePageID (key : bytes) : stM BTree Z :=
  path ← searchPath key;
  leafEntry ← pathLeaf path;
  info ← GetPageInfo (Ref leafEntry);
  mret (PageID info).

(** *** Batches *)

(** Positions with their keys, in key order. *)
Definition key_le (x y : nat * bytes) : Prop := bytes_compare x.2 y.2 <> Gt.
#[export] Instance key_le_dec x y : Decision (key_le x y).
Proof. unfold key_le. solve_decision. Defined.
Definition sortedKeys (keys : list bytes) : list (nat * bytes) :=
  merge_sort key_le (imap pair keys).

(** [value of a key of the root leaf -> result], for the sorted keys. *)
Fixpoint leafValues {A} (leaf : Z) (f : bytes -> stM BTree (option A)) (ks : list (nat * bytes))
    : stM BTree (list (nat * option A)) :=
  match ks with
  | [] => mret []
  | (i, key) :: ks =>
      r ← onPages (fun s => Search s leaf key);
      v ← (if negb (r : Z * bool).2 then mret None
           else raw ← onPages (fun s => GetValueAt s leaf r.1); f raw);
      rest ← leafValues leaf f ks;
      mret ((i, v) :: rest)
  end.

(** [results[ik.idx] = rawResults[i]]. *)
Definition mapBack {A} (n : nat) (rs : list (nat * option A)) : list (option A) :=
  foldl (fun acc r => <[r.1 := r.2]> acc) (replicate n None) rs.

(** One search and one leaf for all the keys: the root is a leaf. *)
Definition singlePage {A} (f : bytes -> stM BTree (option A)) (keys : list bytes) : stM BTree (list (option A)) :=
  let indexed := sortedKeys keys in
  first ← liftS (match indexed with ik :: _ => Ret ik.2 | [] => Panic end);
  path ← searchPath first;
  leafEntry ← pathLeaf path;
  pInfo ← GetPageInfo (Ref leafEntry);
  leaf ← GetLeafPage (PageID pInfo);
  rawResults ← leafValues leaf f indexed;
  mret (mapBack (length keys) rawResults).

(** One read for each key; a key that is not found gives nil. *)
Fixpoint multiPage {A} (read : bytes -> stM BTree A) (keys : list bytes) : stM BTree (list (option A)) :=
  match keys with
  | [] => mret []
  | key :: keys =>
      v ← (fun b => match read key b with
                    | (b, Ret v) => (b, Ret (Some v))
                    | (b, Fail e) => if IsErr e ErrBTreeKeyNotFound then (b, Ret None) else (b, Fail e)
                    | (b, Panic) => (b, Panic)
                    end);
      rest ← multiPage read keys;
      mret (v :: rest)
  end.

Definition batch {A} (f : bytes -> stM BTree (option A)) (read : bytes -> stM BTree A) (keys : list bytes)
    : stM BTree (list (option A)) :=
  _ ← checkOpen;
  if decide (keys = []) then mret [] else
  rootInfo ← GetPageInfo rootRef;
  if negb (IsLeafInfo rootInfo) then multiPage read keys else singlePage f keys.

(** What [GetBatch] keeps of a raw value. *)
Definition visibleValue (raw : bytes) : stM BTree (option bytes) :=
  match ParseMVCC raw with
  | Ret mv => mret (if IsTombstone mv then None else Some (RealVal mv))
  | Fail _ => mret None
  | Panic => liftS Panic
  end.

Definition GetBatch : list bytes -> stM BTree (list (option bytes)) := batch visibleValue Get.
Definition getBatchRawBytes : list bytes -> stM BTree (list (option bytes)) :=
  batch (fun raw => mret (Some raw)) getRawBytes.

(** The tree's own [SetBatch]: one write for each pair. *)
Fixpoint setAll (pairs : list (bytes * bytes)) : stM BTree unit :=
  match pairs with
  | [] => mret tt
  | p :: pairs => _ ← SetWithRetry p.1 p.2 maxCASFastAttempts; setAll pairs
  end.
Definition SetBatch (pairs : list (bytes * bytes)) : stM BTree unit := _ ← checkOpen; setAll pairs.

Fixpoint deleteAll (keys : list bytes) : stM BTree unit :=
  match keys with
  | [] => mret tt
  | key :: keys =>
      _ ← (fun b => match Delete_ key b with
                    | (b, Fail e) => if IsErr e ErrBTreeKeyNotFound then (b, Ret tt) else (b, Fail e)
                    | r => r
                    end);
      deleteAll keys
  end.
Definition DeleteBatch (keys : list bytes) : stM BTree unit := _ ← checkOpen; deleteAll keys.

(** ** The adapter of the transaction engine (storage_adapter.go) *)

Module Adapter.

Definition GetRaw (key : bytes) : stM BTree bytes :=
  _ ← checkOpen;
  raw ← leafLookup key;
  match raw with None => failS (Sentinel ErrMVCCKeyNotFound) | Some raw => mret raw end.

Definition GetBatchRaw : list bytes -> stM BTree (list (option bytes)) := getBatchRawBytes.

(** 1 when a raw value [old] that is a tombstone is replaced by one that is not. *)
Definition revives (old new : bytes) : outcome Z :=
  match ParseMVCC old with
  | Panic => Panic
  | Ret o =>
      if IsTombstone o then
        match ParseMVCC new with
        | Panic => Panic
        | Ret n => Ret (if IsTombstone n then 0 else 1)
        | Fail _ => Ret 0
        end
      else Ret 0
  | Fail _ => Ret 0
  end.

Definition setMutation (key value : bytes) : mutateFunc := fun leaf =>
  r ← onPages (fun s => Search s leaf key);
  if (r : Z * bool).2 then
    oldVal ← onPages (fun s => GetValueAt s leaf r.1);
    d ← liftS (revives oldVal value);
    newLeaf ← onPM (Update leaf r.1 value);
    mret (cowMutation newLeaf d 0)
  else
    newLeaf ← onPM (Insert leaf key value);
    mret (cowMutation newLeaf 1 0).

Definition Set_ (key value : bytes) : stM BTree unit :=
  _ ← checkOpen;
  writeOperation key (setMutation key value) MaxCASRetries.

(** One segment: the pairs from the first on, until one does not fit the page.
    Returns the page, the number of pairs and the change of the size. *)
Fixpoint segment (pairs : list (bytes * bytes)) (current n totalDelta : Z) : stM BTree (Z * Z * Z) :=
  match pairs with
  | [] => mret (current, n, totalDelta)
  | p :: pairs =>
      r ← onPages (fun s => Search s current p.1);
      if (r : Z * bool).2 then
        oldVal ← onPages (fun s => GetValueAt s current r.1);
        d ← liftS (revives oldVal p.2);
        newLeaf ← onPM (Update current r.1 p.2);
        segment pairs newLeaf (n + 1) (totalDelta + d)
      else
        b ← getS;
        if IsFull (pm b) current (zlen p.1) (zlen p.2) then mret (current, n, totalDelta)
        else
          newLeaf ← onPM (Insert current p.1 p.2);
          segment pairs newLeaf (n + 1) (totalDelta + 1)
  end.

Definition segmentMutation (segStart : Z) (pairs : list (bytes * bytes)) : mutateFunc := fun leaf =>
  r ← segment pairs leaf 0 0;
  let '(current, n, totalDelta) := (r : Z * Z * Z) in
  _ ← modifyS (with_offset (segStart + n));
  mret (cowMutation current totalDelta 0).

(** The loop over the segments.  Fuel: the number of pairs left; every turn
    advances.  The result is the count beside a possible error. *)
Fixpoint batchLoop (fuel : nat) (pairs : list (bytes * bytes)) (count : Z) (b : BTree) : BTree * (Z * outcome unit) :=
  match fuel with
  | O => (b, (count, Ret tt))
  | S fuel =>
      let segStart := offset b in
      match zdrop segStart pairs with
      | [] => (b, (count, Ret tt))
      | p :: rest =>
          match writeOperation p.1 (segmentMutation segStart (p :: rest)) MaxCASRetries b with
          | (b, Ret _) =>
              let advanced := offset b - segStart in
              if advanced =? 0 then batchLoop fuel pairs (count + 1) (with_offset (segStart + 1) b)
              else batchLoop fuel pairs (count + advanced) b
          | (b, r) => (b, (count, r))
          end
      end
  end.

Definition SetBatch (pairs : list (bytes * bytes)) (b : BTree) : BTree * (Z * outcome unit) :=
  match checkOpen b with
  | (b, Ret _) => batchLoop (length pairs) pairs 0 (with_offset 0 b)
  | (b, r) => (b, (0, r))
  end.

Definition deleteMutation (key : bytes) : mutateFunc := fun leaf =>
  r ← onPages (fun s => Search s leaf key);
  if negb (r : Z * bool).2 then failS (Sentinel ErrMVCCKeyNotFound) else
  newLeaf ← onPM (Delete leaf r.1);
  mret (cowMutation newLeaf (-1) 0).

Definition Delete_ (key : bytes) : stM BTree unit :=
  _ ← checkOpen;
  writeOperation key (deleteMutation key) MaxCASRetries.

End Adapter.
