(* ===== verification/TreeShape.v ===== *)
(** * The shape of the B+Tree, apart from memory

    A tree of leaves and internal nodes over references; the list of its keys
    and separators from left to right, in which an internal split changes
    nothing; a node with its surroundings (a focus in a context); what the
    ascending order of that list says about a search and about a replaced leaf. *)

From stdpp Require Import base list gmap sorting strings.
From Stdlib Require Import ZArith Lia.
From S2P Require Import Prelude NodePage LeafMap NodeMap.

#[local] Set Warnings "-register-all".

Local Open Scope Z_scope.

(** ** Items: the keys with their values, and the separators *)

Inductive item := IKey (k v : bytes) | ISep (k : bytes).

(** A separator is at most the keys right of it, and above those left of it. *)
Definition item_lt (a b : item) : Prop :=
  match a, b with
  | IKey k _, IKey k' _ | IKey k _, ISep k' | ISep k, ISep k' => bytes_lt k k'
  | ISep s, IKey k _ => ~ bytes_lt k s
  end.

Abbreviation ordered := (StronglySorted item_lt).

Definition leaf_items (es : list (bytes * bytes)) : list item := (fun kv => IKey kv.1 kv.2) <$> es.
Definition kvs (l : list item) : list (bytes * bytes) :=
  omap (fun it => match it with IKey k v => Some (k, v) | ISep _ => None end) l.
Definition seps (l : list item) : list bytes :=
  omap (fun it => match it with ISep k => Some k | _ => None end) l.
Definition items_map (l : list item) : kvmap := list_to_map (kvs l).

(** ** Trees *)

Inductive tree :=
| TLeaf (r : Z) (es : list (bytes * bytes))
| TNode (r : Z) (ks : list bytes) (ts : list tree).

Definition troot (t : tree) : Z := match t with TLeaf r _ | TNode r _ _ => r end.

(** Items of the separators [ks] with the children right of them. *)
Definition after (ks : list bytes) (fs : list (list item)) : list item :=
  mjoin (zip_with (fun k f => ISep k :: f) ks fs).
Definition before (ks : list bytes) (fs : list (list item)) : list item :=
  mjoin (zip_with (fun k f => f ++ [ISep k]) ks fs).
Definition between (ks : list bytes) (fs : list (list item)) : list item :=
  match fs with [] => [] | f :: fs => f ++ after ks fs end.

Fixpoint flat (t : tree) : list item :=
  match t with
  | TLeaf _ es => leaf_items es
  | TNode _ ks ts => between ks (flat <$> ts)
  end.

(** A node without its pages: its entries, or its separators and the
    references of its children. *)
Inductive shape := SLeaf (es : list (bytes * bytes)) | SNode (ks : list bytes) (crs : list Z).

Fixpoint nodes (t : tree) : list (Z * shape) :=
  match t with
  | TLeaf r es => [(r, SLeaf es)]
  | TNode r ks ts => (r, SNode ks (troot <$> ts)) :: mjoin (nodes <$> ts)
  end.

Definition trefs (t : tree) : list Z := (nodes t).*1.

(** The number of levels above the leaves. *)
Fixpoint height (t : tree) : nat :=
  match t with
  | TLeaf _ _ => 0
  | TNode _ _ ts => S (foldr (fun t n => Nat.max (height t) n) 0%nat ts)
  end.

(** ** A node in its context, innermost frame first *)

Record frame := mkFrame { f_ref : Z; f_ks : list bytes; f_l : list tree; f_r : list tree }.

Definition fill (f : frame) (t : tree) : tree := TNode (f_ref f) (f_ks f) (f_l f ++ t :: f_r f).
Definition plug (fs : list frame) (t : tree) : tree := foldl (fun t f => fill f t) t fs.

Definition f_idx (f : frame) : nat := length (f_l f).
Definition frame_wf (f : frame) : Prop :=
  length (f_ks f) = (length (f_l f) + length (f_r f))%nat.
Definition frame_pre (f : frame) : list item := before (take (f_idx f) (f_ks f)) (flat <$> f_l f).
Definition frame_post (f : frame) : list item := after (drop (f_idx f) (f_ks f)) (flat <$> f_r f).
Definition ctx_pre (fs : list frame) : list item := foldr (fun f l => l ++ frame_pre f) [] fs.
Definition ctx_post (fs : list frame) : list item := foldr (fun f l => frame_post f ++ l) [] fs.

Definition frame_node (f : frame) (hole : Z) : Z * shape :=
  (f_ref f, SNode (f_ks f) ((troot <$> f_l f) ++ hole :: (troot <$> f_r f))).
Definition frame_rest (f : frame) : list (Z * shape) := mjoin (nodes <$> f_l f) ++ mjoin (nodes <$> f_r f).
Fixpoint ctx_nodes (fs : list frame) (hole : Z) : list (Z * shape) :=
  match fs with
  | [] => []
  | f :: fs => frame_node f hole :: frame_rest f ++ ctx_nodes fs (f_ref f)
  end.

(** ** Items: lists *)

Lemma kvs_app l1 l2 : kvs (l1 ++ l2) = kvs l1 ++ kvs l2.
Proof. apply omap_app. Qed.
Lemma seps_app l1 l2 : seps (l1 ++ l2) = seps l1 ++ seps l2.
Proof. apply omap_app. Qed.
Lemma kvs_leaf es : kvs (leaf_items es) = es.
Proof. induction es as [|[k v] es IH]; [done|]. cbn. by f_equal. Qed.
Lemma seps_leaf es : seps (leaf_items es) = [].
Proof. by induction es as [|[k v] es IH]. Qed.
Lemma leaf_items_app l1 l2 : leaf_items (l1 ++ l2) = leaf_items l1 ++ leaf_items l2.
Proof. apply fmap_app. Qed.

Lemma elem_of_kvs l k v : (k, v) ∈ kvs l <-> IKey k v ∈ l.
Proof.
  unfold kvs. rewrite list_elem_of_omap. split.
  - intros ([k' v'|s] & H & E); [|done]. by injection E as -> ->.
  - intros H. by exists (IKey k v).
Qed.

Lemma elem_of_leaf_items es it : it ∈ leaf_items es -> exists k v, it = IKey k v /\ (k, v) ∈ es.
Proof. intros ([k v] & -> & H)%list_elem_of_fmap. by exists k, v. Qed.

Lemma after_app k1 k2 f1 f2 : length k1 = length f1 -> after (k1 ++ k2) (f1 ++ f2) = after k1 f1 ++ after k2 f2.
Proof. intros H. unfold after. by rewrite zip_with_app, join_app. Qed.

Lemma between_hole ks l f r :
  length ks = (length l + length r)%nat ->
  between ks (l ++ f :: r) = before (take (length l) ks) l ++ f ++ after (drop (length l) ks) r.
Proof.
  revert ks. induction l as [|f0 l IH]; intros ks H; [done|].
  destruct ks as [|k ks]; [done|]. cbn in H. injection H as H. specialize (IH ks H).
  cbn [app between length take drop]. unfold before. cbn [zip_with mjoin list_join].
  fold (before (take (length l) ks) l). rewrite <- !app_assoc. f_equal. cbn [app].
  destruct l as [|f1 l]; cbn [app] in *; unfold after; cbn [zip_with mjoin list_join app]; f_equal.
  exact IH.
Qed.

(** A node split in two, its middle key between the halves. *)
Lemma between_split k1 k k2 f1 f2 :
  length f1 = S (length k1) -> f2 <> [] ->
  between (k1 ++ k :: k2) (f1 ++ f2) = between k1 f1 ++ ISep k :: between k2 f2.
Proof.
  intros H1 H2. destruct f1 as [|f f1]; [done|]. injection H1 as H1. destruct f2 as [|g f2]; [done|].
  cbn [app between]. rewrite after_app by done. unfold after at 2. cbn [zip_with mjoin list_join].
  fold (after k2 f2). by rewrite <- app_assoc.
Qed.

(** ** Contexts *)

Lemma plug_app fs gs t : plug (fs ++ gs) t = plug gs (plug fs t).
Proof. unfold plug. by rewrite foldl_app. Qed.

Lemma troot_plug f fs t t' : troot (plug (f :: fs) t) = troot (plug (f :: fs) t').
Proof.
  change (plug (f :: fs) t) with (plug fs (fill f t)). change (plug (f :: fs) t') with (plug fs (fill f t')).
  revert f t t'. induction fs as [|g fs IH]; intros f t t'; [done|]. apply IH.
Qed.

Definition heights (ts : list tree) : nat := foldr (fun t n => Nat.max (height t) n) 0%nat ts.

Lemma height_node r ks ts : height (TNode r ks ts) = S (heights ts).
Proof. done. Qed.
Lemma heights_cons t ts : heights (t :: ts) = Nat.max (height t) (heights ts).
Proof. done. Qed.
Lemma heights_app ts us : heights (ts ++ us) = Nat.max (heights ts) (heights us).
Proof. induction ts as [|t ts IH]; [done|]. cbn [app]. rewrite !heights_cons, IH. lia. Qed.

Lemma height_plug fs t : (length fs + height t <= height (plug fs t))%nat.
Proof.
  revert t. induction fs as [|f fs IH]; intros t; [done|]. cbn [length]. etrans; [|apply (IH (fill f t))].
  unfold fill. rewrite height_node, heights_app, heights_cons. lia.
Qed.

Lemma height_plug_mono fs t t' : (height t <= height t' -> height (plug fs t) <= height (plug fs t'))%nat.
Proof.
  revert t t'. induction fs as [|f fs IH]; intros t t' H; [done|]. apply (IH (fill f t) (fill f t')).
  unfold fill. rewrite !height_node, !heights_app, !heights_cons. lia.
Qed.

Lemma troot_plug_same fs t t' : troot t = troot t' -> troot (plug fs t) = troot (plug fs t').
Proof. destruct fs; [done|]. intros _. apply troot_plug. Qed.

Lemma flat_fill f t : frame_wf f -> flat (fill f t) = frame_pre f ++ flat t ++ frame_post f.
Proof.
  intros H. unfold fill, frame_pre, frame_post, f_idx. cbn [flat]. rewrite fmap_app, fmap_cons.
  rewrite between_hole by (rewrite !length_fmap; exact H). by rewrite length_fmap.
Qed.

Lemma flat_plug fs t : Forall frame_wf fs -> flat (plug fs t) = ctx_pre fs ++ flat t ++ ctx_post fs.
Proof.
  intros H. revert t. induction H as [|f fs Hf H IH]; intros t; cbn [ctx_pre ctx_post foldr]; [by rewrite app_nil_r|].
  change (plug (f :: fs) t) with (plug fs (fill f t)). rewrite IH, flat_fill by done.
  by rewrite <- !app_assoc.
Qed.

Lemma ctx_pre_app fs f : ctx_pre (fs ++ [f]) = frame_pre f ++ ctx_pre fs.
Proof.
  unfold ctx_pre. rewrite foldr_app. cbn [foldr app].
  induction fs as [|g fs IH]; cbn [foldr]; [by rewrite app_nil_r|]. by rewrite IH, app_assoc.
Qed.
Lemma ctx_post_app fs f : ctx_post (fs ++ [f]) = ctx_post fs ++ frame_post f.
Proof.
  unfold ctx_post. rewrite foldr_app. cbn [foldr]. rewrite app_nil_r.
  induction fs as [|g fs IH]; cbn [foldr]; [done|]. by rewrite IH, app_assoc.
Qed.

Lemma nodes_fill f t : nodes (fill f t) ≡ₚ nodes t ++ frame_node f (troot t) :: frame_rest f.
Proof.
  unfold fill, frame_rest. cbn [nodes]. rewrite !fmap_app, !fmap_cons, join_app. cbn [mjoin list_join].
  fold (frame_node f (troot t)). rewrite <- Permutation_middle. apply Permutation_cons; [done|].
  rewrite (Permutation_app_comm (mjoin (nodes <$> f_l f))), <- !app_assoc. apply Permutation_app_head.
  apply Permutation_app_comm.
Qed.

Lemma nodes_plug fs t : nodes (plug fs t) ≡ₚ nodes t ++ ctx_nodes fs (troot t).
Proof.
  revert t. induction fs as [|f fs IH]; intros t; cbn [ctx_nodes]; [by rewrite app_nil_r|].
  change (plug (f :: fs) t) with (plug fs (fill f t)). rewrite IH, nodes_fill. cbn [troot fill].
  by rewrite <- app_assoc.
Qed.

Lemma ctx_nodes_app fs gs hole :
  ctx_nodes (fs ++ gs) hole = ctx_nodes fs hole ++ ctx_nodes gs (default hole (f_ref <$> last fs)).
Proof.
  revert hole. induction fs as [|f fs IH]; intros hole; [done|]. cbn [app ctx_nodes].
  rewrite IH, <- app_assoc. cbn [app]. do 3 f_equal.
  rewrite last_cons. by destruct (last fs).
Qed.

Lemma trefs_plug fs t : trefs (plug fs t) ≡ₚ trefs t ++ (ctx_nodes fs (troot t)).*1.
Proof. unfold trefs. by rewrite nodes_plug, fmap_app. Qed.

Lemma ctx_nodes_refs fs h h' : (ctx_nodes fs h).*1 = (ctx_nodes fs h').*1.
Proof. destruct fs; [done|]. cbn [ctx_nodes]. by rewrite !fmap_cons. Qed.

Lemma frame_ref_in fs f h : f ∈ fs -> f_ref f ∈ (ctx_nodes fs h).*1.
Proof.
  revert h. induction fs as [|g fs IH]; intros h; [by intros ?%not_elem_of_nil|].
  cbn [ctx_nodes]. rewrite fmap_cons, fmap_app. intros [->|H]%elem_of_cons; [by left|].
  right. apply elem_of_app. right. by apply IH.
Qed.

(** ** Order *)

#[export] Instance item_lt_trans : Transitive item_lt.
Proof.
  intros [a ?|a] [b ?|b] [d ?|d]; cbn; intros H1 H2;
    try (by eapply bytes_lt_trans); try (intros H; apply H1; by eapply bytes_lt_trans);
    try (intros H; apply H2; by eapply bytes_lt_trans).
  - destruct (bytes_trichotomy b d) as [Hlt|[->|Hlt]]; [by eapply bytes_lt_trans|done|by destruct H2].
  - destruct (bytes_trichotomy a b) as [Hlt|[->|Hlt]]; [by eapply bytes_lt_trans|done|by destruct H1].
Qed.

Lemma item_lt_key k v v' it : item_lt (IKey k v) it -> item_lt (IKey k v') it.
Proof. by destruct it. Qed.
Lemma key_lt_item k v v' it : item_lt it (IKey k v) -> item_lt it (IKey k v').
Proof. by destruct it. Qed.

Lemma ordered_app l1 l2 :
  ordered (l1 ++ l2) <-> ordered l1 /\ ordered l2 /\ forall a b, a ∈ l1 -> b ∈ l2 -> item_lt a b.
Proof. rewrite StronglySorted_app. naive_solver. Qed.

Lemma ordered_leaf es : ordered (leaf_items es) <-> keys_sorted (es.*1).
Proof.
  induction es as [|[k v] es IH]; [split; constructor|].
  assert (Forall (item_lt (IKey k v)) (leaf_items es) <-> Forall (bytes_lt k) (es.*1)) as Hk.
  { unfold leaf_items. rewrite !Forall_fmap. done. }
  split; intros [H1 H2]%StronglySorted_inv; constructor; (by apply IH) || (by apply Hk).
Qed.

(** Every item of [A] is below [key], every item of [B] above it. *)
Definition around (key : bytes) (A B : list item) : Prop :=
  Forall (fun it => item_lt it (IKey key [])) A /\ Forall (item_lt (IKey key [])) B.

Lemma around_app key A A' B B' : around key A B -> around key A' B' -> around key (A ++ A') (B' ++ B).
Proof. intros [H1 H2] [H3 H4]. split; by apply Forall_app_2. Qed.

Lemma not_in_below key A : Forall (fun it => item_lt it (IKey key [])) A -> key ∉ (kvs A).*1.
Proof.
  intros H ([k v] & -> & Hin)%list_elem_of_fmap. apply elem_of_kvs in Hin. rewrite Forall_forall in H.
  by apply (bytes_lt_irrefl k), (H _ Hin).
Qed.
Lemma not_in_above key B : Forall (item_lt (IKey key [])) B -> key ∉ (kvs B).*1.
Proof.
  intros H ([k v] & -> & Hin)%list_elem_of_fmap. apply elem_of_kvs in Hin. rewrite Forall_forall in H.
  by apply (bytes_lt_irrefl k), (H _ Hin).
Qed.

Lemma items_map_app A es B :
  items_map (A ++ leaf_items es ++ B) = items_map A ∪ (list_to_map es ∪ items_map B).
Proof. unfold items_map. by rewrite !kvs_app, kvs_leaf, !list_to_map_app. Qed.

Lemma around_none key A B : around key A B -> items_map A !! key = None /\ items_map B !! key = None.
Proof.
  intros [H1%not_in_below H2%not_in_above]. split; by apply not_elem_of_list_to_map_1.
Qed.

(** The leaf around which [key] lies decides its value... *)
Lemma around_lookup key A es B :
  around key A B -> items_map (A ++ leaf_items es ++ B) !! key = (list_to_map es : kvmap) !! key.
Proof.
  intros [H1 H2]%around_none. rewrite items_map_app, !lookup_union, H1, H2.
  by destruct ((list_to_map es : kvmap) !! key).
Qed.

(** ... and is the one to change. *)
Lemma around_update key A es es' B (o : option bytes) :
  around key A B ->
  (list_to_map es' : kvmap) = partial_alter (fun _ => o) key (list_to_map es) ->
  items_map (A ++ leaf_items es' ++ B) = partial_alter (fun _ => o) key (items_map (A ++ leaf_items es ++ B)).
Proof.
  intros Ha E. destruct (around_none _ _ _ Ha) as [H1 H2]. apply map_eq. intros k.
  destruct (decide (k = key)) as [->|Hne].
  - rewrite (around_lookup key A es' B Ha), E, !lookup_partial_alter. by destruct (decide _).
  - rewrite lookup_partial_alter_ne, !items_map_app by done. rewrite !lookup_union, E, lookup_partial_alter_ne by done.
    done.
Qed.

Lemma ordered_replace key A es es' B :
  ordered (A ++ leaf_items es ++ B) -> around key A B -> keys_sorted (es'.*1) ->
  (forall k, k ∈ es'.*1 -> k = key \/ k ∈ es.*1) ->
  ordered (A ++ leaf_items es' ++ B).
Proof.
  intros (HA & (Hes & HB & Hesb)%ordered_app & HAr)%ordered_app [Hb Ha] Hs Hin.
  rewrite Forall_forall in Hb, Ha.
  assert (Hcase : forall it, it ∈ leaf_items es' -> exists k v, it = IKey k v /\
            (k = key \/ exists v', IKey k v' ∈ leaf_items es)).
  { intros it (k & v & -> & Hkv)%elem_of_leaf_items. exists k, v. split; [done|].
    destruct (Hin k) as [|Hk]; [by apply (list_elem_of_fmap_2 fst _ (k, v))|by left|right].
    apply list_elem_of_fmap in Hk as ([k' v'] & -> & Hk). exists v'.
    by apply (list_elem_of_fmap_2 (fun kv => IKey kv.1 kv.2) _ (k', v')). }
  apply ordered_app. split; [done|]. split; [apply ordered_app; split; [by apply ordered_leaf|]; split; [done|]|].
  - intros a b (k & v & -> & [->|[v' H]])%Hcase Hbin; [by eapply item_lt_key, Ha|eapply item_lt_key, Hesb; eauto].
  - intros a b Hain [(k & v & -> & [->|[v' H]])%Hcase|Hbin]%elem_of_app.
    + by eapply key_lt_item, Hb.
    + eapply key_lt_item, (HAr a (IKey k v')); [done|]. apply elem_of_app. by left.
    + apply HAr; [done|]. apply elem_of_app. by right.
Qed.

(** A leaf split in two at the key [sep] of its right half. *)
Lemma ordered_split A el sep v er B :
  ordered (A ++ leaf_items (el ++ (sep, v) :: er) ++ B) -> el <> [] ->
  ordered (A ++ leaf_items el ++ ISep sep :: leaf_items ((sep, v) :: er) ++ B).
Proof.
  rewrite leaf_items_app, <- !app_assoc.
  intros (HA & (Hel & (Her & HB & HerB)%ordered_app & Hlr)%ordered_app & HAr)%ordered_app Hne.
  assert (Hr : forall b, b ∈ leaf_items ((sep, v) :: er) ++ B -> item_lt (ISep sep) b).
  { intros b Hb. assert (b = IKey sep v \/ item_lt (IKey sep v) b) as [->|Hlt].
    - apply elem_of_app in Hb as [Hb|Hb].
      + cbn in Hb. apply elem_of_cons in Hb as [->|Hb]; [by left|right].
        apply StronglySorted_inv in Her as [_ Her]. rewrite Forall_forall in Her. by apply Her.
      + right. apply HerB; [by left|done].
    - cbn. by apply bytes_lt_irrefl.
    - destruct b as [k ?|k]; cbn in *; [by apply bytes_lt_asym|done]. }
  assert (Hl : forall a, a ∈ leaf_items el -> item_lt a (ISep sep)).
  { intros a Ha. assert (item_lt a (IKey sep v)) as Hlt by (apply Hlr; [done|apply elem_of_app; left; by left]).
    apply elem_of_leaf_items in Ha as (k & v' & -> & _). exact Hlt. }
  apply ordered_app. split; [done|]. split; [apply ordered_app; split; [done|]; split; [constructor|]|].
  - apply ordered_app; eauto.
  - by apply Forall_forall.
  - intros a b Ha [->|Hb]%elem_of_cons; [by apply Hl|]. by apply Hlr.
  - assert (Hel' : exists x, x ∈ leaf_items el) by (destruct el as [|[k0 v0] el]; [done|exists (IKey k0 v0); by left]).
    destruct Hel' as [x Hx]. intros a b Ha [Hb|[->|Hb]%elem_of_cons]%elem_of_app.
    + apply HAr; [done|]. apply elem_of_app. by left.
    + etrans; [apply (HAr a x); [done|apply elem_of_app; by left]|by apply Hl].
    + apply HAr; [done|]. apply elem_of_app. by right.
Qed.

(** The halves around a key. *)
Lemma around_left key A el sep er B :
  ordered (A ++ el ++ ISep sep :: er ++ B) -> around key A B -> bytes_lt key sep ->
  around key A (ISep sep :: er ++ B).
Proof.
  intros (_ & (_ & Hs & _)%ordered_app & _)%ordered_app [H1 H2] Hlt. split; [done|].
  apply StronglySorted_inv in Hs as [_ Hs]. constructor; [done|]. eapply Forall_impl; [exact Hs|].
  intros it Hit. by etrans; [|exact Hit].
Qed.
Lemma around_right key A el sep er B :
  ordered (A ++ el ++ ISep sep :: er ++ B) -> around key A B -> ~ bytes_lt key sep ->
  around key (A ++ el ++ [ISep sep]) B.
Proof.
  intros (_ & (_ & _ & Hs)%ordered_app & _)%ordered_app [H1 H2] Hge. split; [|done].
  repeat apply Forall_app_2; [done| |by repeat constructor].
  apply Forall_forall. intros a Ha. assert (item_lt a (ISep sep)) by (apply Hs; [done|by left]). by etrans.
Qed.

(** *** Around the chosen child of a node *)

Lemma before_below key ks l :
  length l = length ks -> ordered (before ks l) -> Forall (fun k => ~ bytes_lt key k) ks ->
  Forall (fun it => item_lt it (IKey key [])) (before ks l).
Proof.
  revert l. induction ks as [|k ks IH]; intros [|f l] Hl Ho Hk; try done.
  injection Hl as Hl. unfold before in *. cbn [zip_with mjoin list_join] in *. apply Forall_cons in Hk as [Hk Hks].
  apply ordered_app in Ho as ((_ & _ & Hf)%ordered_app & Ho & _).
  apply Forall_app_2; [apply Forall_app_2; [|by repeat constructor]|by apply IH].
  apply Forall_forall. intros a Ha. assert (item_lt a (ISep k)) by (apply Hf; [done|by left]). by etrans.
Qed.

Lemma after_above key ks l :
  length l = length ks -> ordered (after ks l) -> Forall (bytes_lt key) ks ->
  Forall (item_lt (IKey key [])) (after ks l).
Proof.
  revert l. induction ks as [|k ks IH]; intros [|f l] Hl Ho Hk; try done.
  injection Hl as Hl. unfold after in *. cbn [zip_with mjoin list_join] in *. apply Forall_cons in Hk as [Hk Hks].
  apply ordered_app in Ho as ([_ Hf]%StronglySorted_inv & Ho & _).
  apply (Forall_app_2 _ (_ :: _)); [constructor; [done|]|by apply IH].
  eapply Forall_impl; [exact Hf|]. intros it Hit. by etrans; [|exact Hit].
Qed.

Lemma upper_bound_take key ks : keys_sorted ks -> Forall (fun k => ~ bytes_lt key k) (take (upper_bound key ks) ks).
Proof.
  induction ks as [|k ks IH]; intros Hs; [constructor|]. rewrite upper_bound_cons.
  apply StronglySorted_inv in Hs as [Hs Hk]. destruct (decide (bytes_lt key k)) as [Hlt|Hge].
  - rewrite upper_bound_above; [constructor|]. eapply Forall_impl; [exact Hk|]. intros. by eapply bytes_lt_trans.
  - constructor; [done|by apply IH].
Qed.
Lemma upper_bound_drop key ks : keys_sorted ks -> Forall (bytes_lt key) (drop (upper_bound key ks) ks).
Proof.
  induction ks as [|k ks IH]; intros Hs; [constructor|]. rewrite upper_bound_cons.
  apply StronglySorted_inv in Hs as [Hs Hk]. destruct (decide (bytes_lt key k)) as [Hlt|Hge]; [|by apply IH].
  assert (Forall (bytes_lt key) ks) as Hks by (eapply Forall_impl; [exact Hk|]; intros; by eapply bytes_lt_trans).
  rewrite upper_bound_above by done. by constructor.
Qed.

Lemma around_frame key f t :
  frame_wf f -> keys_sorted (f_ks f) -> f_idx f = upper_bound key (f_ks f) -> ordered (flat (fill f t)) ->
  around key (frame_pre f) (frame_post f).
Proof.
  intros Hwf Hs Hi Ho. rewrite flat_fill in Ho by done. apply ordered_app in Ho as (Hp & (_ & Hq & _)%ordered_app & _).
  unfold frame_wf in Hwf. unfold frame_pre, frame_post, f_idx in *. split.
  - apply before_below; [rewrite length_fmap, length_take; lia|done|]. rewrite Hi. by apply upper_bound_take.
  - apply after_above; [rewrite length_fmap, length_drop; lia|done|]. rewrite Hi. by apply upper_bound_drop.
Qed.

(** The separators of a node ascend. *)
Lemma after_sorted ks l : length l = length ks -> ordered (after ks l) -> keys_sorted ks /\ forall k, k ∈ ks -> ISep k ∈ after ks l.
Proof.
  revert l. induction ks as [|k ks IH]; intros [|f l] Hl Ho; try done; [split; [constructor|]; by intros ? ?%not_elem_of_nil|].
  injection Hl as Hl. unfold after in *. cbn [zip_with mjoin list_join] in *.
  apply ordered_app in Ho as (_ & Ho & Hx). destruct (IH l Hl Ho) as [Hs Hin]. split.
  - constructor; [done|]. apply Forall_forall. intros k' Hk'. apply (Hx (ISep k) (ISep k')); [by left|by apply Hin].
  - intros k' [->|Hk']%elem_of_cons; [by left|]. apply elem_of_app. right. by apply Hin.
Qed.
Lemma between_sorted ks l : length l = S (length ks) -> ordered (between ks l) -> keys_sorted ks.
Proof.
  destruct l as [|f l]; [done|]. intros [= Hl] (_ & Ho & _)%ordered_app. by apply (after_sorted ks l).
Qed.

(** A leaf split at [sep], and the half for [key] replaced by [es']. *)
Lemma split_leaf_items key A B el sep v er es' (o : option bytes)
    (goLeft := bool_decide (bytes_lt key sep)) (half := if goLeft then el else (sep, v) :: er)
    (l' := if goLeft then es' else el) (r' := if goLeft then (sep, v) :: er else es')
    (old := A ++ leaf_items (el ++ (sep, v) :: er) ++ B)
    (new := A ++ leaf_items l' ++ ISep sep :: leaf_items r' ++ B) :
  ordered old -> around key A B -> el <> [] -> keys_sorted (es'.*1) ->
  (list_to_map es' : kvmap) = partial_alter (fun _ => o) key (list_to_map half) ->
  (forall k, k ∈ es'.*1 -> k = key \/ k ∈ half.*1) ->
  ordered new /\ items_map new = partial_alter (fun _ => o) key (items_map old) /\
  (list_to_map half : kvmap) !! key = items_map old !! key.
Proof.
  intros Ho Ha Hne Hs Hm Hk. pose proof (ordered_split A el sep v er B Ho Hne) as Ho2.
  assert (Hold : items_map old = items_map (A ++ leaf_items el ++ ISep sep :: leaf_items ((sep, v) :: er) ++ B)).
  { unfold items_map, old. f_equal. rewrite !kvs_app. cbn [kvs omap list_omap]. fold (kvs (leaf_items ((sep, v) :: er) ++ B)).
    rewrite kvs_app, !kvs_leaf. by rewrite <- (app_assoc el). }
  rewrite Hold. unfold new, l', r', half in *. destruct goLeft eqn:Hg; unfold goLeft in Hg; cbv beta iota in *.
  - apply bool_decide_eq_true in Hg. pose proof (around_left key A _ sep _ B Ho2 Ha Hg) as Ha2.
    split; [by eapply ordered_replace|]. split; [by apply around_update|]. symmetry. by apply around_lookup.
  - apply bool_decide_eq_false in Hg. pose proof (around_right key A _ sep _ B Ho2 Ha Hg) as Ha2.
    assert (Hre : forall X, A ++ leaf_items el ++ ISep sep :: X = (A ++ leaf_items el ++ [ISep sep]) ++ X)
      by (intros X; by rewrite <- !app_assoc).
    rewrite (Hre (leaf_items ((sep, v) :: er) ++ B)), (Hre (leaf_items es' ++ B)).
    rewrite (Hre (leaf_items ((sep, v) :: er) ++ B)) in Ho2. split; [by eapply ordered_replace|]. split; [by apply around_update|]. symmetry. by apply around_lookup.
Qed.

Lemma half_lookup key el sep v er :
  keys_sorted ((el ++ (sep, v) :: er).*1) -> el <> [] ->
  (list_to_map (if bool_decide (bytes_lt key sep) then el else (sep, v) :: er) : kvmap) !! key =
  (list_to_map (el ++ (sep, v) :: er) : kvmap) !! key.
Proof.
  intros Hs Hne. set (half := if bool_decide _ then _ else _).
  assert (Hsh : keys_sorted (half.*1)).
  { rewrite fmap_app in Hs. apply StronglySorted_app in Hs as (_ & H1 & H2). unfold half. by destruct (bool_decide _). }
  destruct (split_leaf_items key [] [] el sep v er half ((list_to_map half : kvmap) !! key)) as (_ & _ & H); try done.
  - rewrite app_nil_r. by apply ordered_leaf.
  - by rewrite partial_alter_self.
  - auto.
  - fold half in H. rewrite H. unfold items_map. cbn [app]. by rewrite app_nil_r, kvs_leaf.
Qed.
