(* ===== verification/TreeInv.v ===== *)
(** * The B+Tree in memory: representation, search and reads

    When the references and pages reached from the root represent a tree
    ([tree_ok]); that a search descends to the leaf whose key range holds the
    key; that the reads of the store return what the tree holds.  Epoch-based
    reclamation is off here ([epochOn = false]): pages that writers replace are
    then never released, see Epoch.v for the other case. *)

From stdpp Require Import base list gmap sorting strings.
From Stdlib Require Import ZArith Lia.
From S2P Require Import Prelude MvccCodec OffHeap PageLayout LeafPage LeafMap NodePage NodeMap BTree TreeOps TreeShape.

Local Open Scope Z_scope.

(** ** Representation *)

(** Not in the middle of an operation, not replaced. *)
Definition quiet (i : PageInfo) : Prop :=
  Redirect i = false /\ (State i = NodeNormal \/ State i = NodeRoot).

Definition page (p : PageRef) : Z := PageID (pInfo p).

Record leaf_at (b : BTree) (p : PageRef) (es : list (bytes * bytes)) : Prop := {
  la_quiet : quiet (pInfo p);
  la_leaf : IsLeafInfo (pInfo p) = true;
  la_live : live (pm b) (page p);
  la_list : leaf_list (pm b) (page p) es
}.

(** A parent's page names the children by the page numbers they were created
    with. *)
Definition idOf (b : BTree) (r : Z) : option Z := pageID <$> refs b !! r.

Record inner_at (b : BTree) (p : PageRef) (ks : list bytes) (crs cs : list Z) : Prop := {
  ia_quiet : quiet (pInfo p);
  ia_inner : IsLeafInfo (pInfo p) = false;
  ia_live : live (pm b) (page p);
  ia_cache : children p = Some (mkCache crs ks);
  ia_list : node_list (pm b) (page p) ks cs;
  ia_ids : Forall2 (fun r c => idOf b r = Some c) crs cs;
  ia_nodup : NoDup cs;
  ia_self : page p ∉ cs;
  ia_cs : Forall (fun c => c <> 0 /\ live (pm b) c) cs
}.

Definition node_ok (b : BTree) (n : Z * shape) : Prop :=
  exists p, refs b !! n.1 = Some p /\
    match n.2 with
    | SLeaf es => leaf_at b p es
    | SNode ks crs => exists cs, inner_at b p ks crs cs
    end.

Record heap_ok (b : BTree) : Prop := {
  h_pm : pm_ok (pm b);
  h_zero : live (pm b) 0;
  h_refs : forall r p, refs b !! r = Some p -> r < nextRef b /\ i_addr (pInfo p) < nextInfo b;
  h_epoch : epochOn b = false;
  h_open : closed b = false;
  h_storage : storageClosed b = false
}.

Record tree_ok (b : BTree) (t : tree) : Prop := {
  t_heap : heap_ok b;
  t_root : troot t = rootRef;
  t_nodes : Forall (node_ok b) (nodes t);
  t_nodup : NoDup (trefs t);
  t_ordered : ordered (flat t)
}.

(** The tree represents the map [m] from keys to raw values. *)
Definition represents (b : BTree) (m : kvmap) : Prop := exists t, tree_ok b t /\ m = items_map (flat t).

(** ** Nodes *)

Lemma nodes_root t : exists sh, (troot t, sh) ∈ nodes t.
Proof. destruct t as [r es|r ks ts]; eexists; left. Qed.

Lemma live_u32 b p : heap_ok b -> live (pm b) p -> 0 <= p < 2 ^ 32 - 1.
Proof.
  intros Hh Hl%live_range. pose proof (ok_total _ (h_pm _ Hh)). lia.
Qed.

Lemma IsLeaf_true s p d es : leaf_ok s p d es -> IsLeaf s p = true.
Proof. intros [Hp _]. unfold IsLeaf. by rewrite (po_type _ _ _ _ _ _ Hp). Qed.
Lemma IsLeaf_false s p d es : index_ok s p d es -> IsLeaf s p = false.
Proof. intros [Hp _]. unfold IsLeaf. by rewrite (po_type _ _ _ _ _ _ Hp). Qed.

Lemma validatePageID_ok p b : heap_ok b -> live (pm b) p -> validatePageID p b = (b, Ret p).
Proof.
  intros Hh Hl. pose proof (live_u32 _ _ Hh Hl). unfold validatePageID, maxUint32.
  by replace (2 ^ 32 - 1 <? p) with false by lia.
Qed.

Lemma GetLeafPage_ok b p es :
  heap_ok b -> live (pm b) p -> leaf_list (pm b) p es -> GetLeafPage p b = (b, Ret p).
Proof.
  intros Hh Hl [[d Hp] _]. unfold GetLeafPage.
  rewrite (stM_bind_ret _ _ _ _ _ (validatePageID_ok p b Hh Hl)), stM_bind_get.
  by rewrite (IsLeaf_true _ _ _ _ Hp).
Qed.
Lemma GetNodePage_ok b p ks cs :
  heap_ok b -> live (pm b) p -> node_list (pm b) p ks cs -> GetNodePage p b = (b, Ret p).
Proof.
  intros Hh Hl (d & es & Hp & _). unfold GetNodePage.
  rewrite (stM_bind_ret _ _ _ _ _ (validatePageID_ok p b Hh Hl)), stM_bind_get.
  by rewrite (IsLeaf_false _ _ _ _ Hp).
Qed.

Lemma deref_ok b r p : refs b !! r = Some p -> deref r b = (b, Ret p).
Proof. intros H. unfold deref. rewrite stM_bind_get. unfold liftS, derefOf. by rewrite H. Qed.
Lemma GetPageInfo_ok b r p : refs b !! r = Some p -> GetPageInfo r b = (b, Ret (pInfo p)).
Proof. intros H. unfold GetPageInfo. by rewrite (stM_bind_ret _ _ _ _ _ (deref_ok b r p H)). Qed.
Lemma GetChildren_ok b r p : refs b !! r = Some p -> GetChildren r b = (b, Ret (children p)).
Proof. intros H. unfold GetChildren. by rewrite (stM_bind_ret _ _ _ _ _ (deref_ok b r p H)). Qed.

Lemma inner_lengths b p ks crs cs :
  inner_at b p ks crs cs -> length crs = S (length ks) /\ length cs = S (length ks) /\ keys_sorted ks.
Proof.
  intros Hi. destruct (node_list_lengths _ _ _ _ (ia_list _ _ _ _ _ Hi)) as [H1 H2].
  pose proof (Forall2_length _ _ _ (ia_ids _ _ _ _ _ Hi)). split; [lia|done].
Qed.

(** The frames of a tree in memory are well formed. *)
Lemma frame_node_wf b f h : node_ok b (frame_node f h) -> frame_wf f /\ keys_sorted (f_ks f).
Proof.
  intros (p & _ & cs & Hi). destruct (inner_lengths _ _ _ _ _ Hi) as (H & _ & Hs). split; [|done].
  rewrite length_app, length_fmap in H. cbn in H. rewrite length_fmap in H. unfold frame_wf. lia.
Qed.
Lemma ctx_wf b fs h : Forall (node_ok b) (ctx_nodes fs h) -> Forall frame_wf fs.
Proof.
  revert h. induction fs as [|f fs IH]; intros h H; [constructor|]. cbn [ctx_nodes] in H.
  apply Forall_cons in H as [Hf [_ H]%Forall_app]. constructor; [by eapply frame_node_wf|by eapply IH].
Qed.

(** ** The search *)

Lemma node_split_at {A} (ts : list A) i : (i < length ts)%nat -> exists l t r, ts = l ++ t :: r /\ length l = i.
Proof.
  intros [t Ht]%lookup_lt_is_Some. exists (take i ts), t, (drop (S i) ts).
  split; [by rewrite take_drop_middle|]. rewrite length_take. apply lookup_lt_Some in Ht. lia.
Qed.

Definition entryOf (f : frame) : PathEntry := mkEntry (f_ref f) (Z.of_nat (f_idx f)).

(** The path for the leaf [r] below the frames [fs]. *)
Definition pathOf (fs : list frame) (r : Z) : list PathEntry := (entryOf <$> rev fs) ++ [mkEntry r (-1)].

Record found_at (key : bytes) (t : tree) (fs : list frame) (r : Z) (es : list (bytes * bytes)) : Prop := {
  fa_plug : t = plug fs (TLeaf r es);
  fa_around : around key (ctx_pre fs) (ctx_post fs)
}.

Lemma childFor_ok b key ks crs c :
  keys_sorted ks -> crs !! upper_bound key ks = Some c ->
  childFor (Some (mkCache crs ks)) key b = (b, Ret (c, Z.of_nat (upper_bound key ks))).
Proof.
  intros Hs Hc. unfold childFor.
  rewrite (cache_search_ok (mkCache crs ks) key); [|done|by intros E; cbn in E; rewrite E in Hc].
  rewrite stM_bind_lift. cbn [Cache.Children Cache.Separators mkCache]. by rewrite Nat2Z.id, Hc.
Qed.

Lemma nodes_middle r ks l t rr :
  nodes (TNode r ks (l ++ t :: rr)) ≡ₚ nodes t ++ frame_node (mkFrame r ks l rr) (troot t) :: frame_rest (mkFrame r ks l rr).
Proof. apply (nodes_fill (mkFrame r ks l rr) t). Qed.

Lemma child_quiet b t : Forall (node_ok b) (nodes t) -> exists p, refs b !! troot t = Some p /\ quiet (pInfo p).
Proof.
  intros H. rewrite Forall_forall in H. destruct (nodes_root t) as [sh Hin].
  destruct (H _ Hin) as (p & Hp & Hsh). exists p. split; [done|]. cbn in Hsh.
  destruct sh; [apply Hsh|]. destruct Hsh as [cs Hi]. apply Hi.
Qed.

Lemma descend_ok b key : forall fuel t path,
  Forall (node_ok b) (nodes t) -> ordered (flat t) -> (length (nodes t) <= fuel)%nat ->
  exists fs r es, found_at key t fs r es /\
    forall b', refs b' = refs b -> descend fuel (troot t) key path b' = (b', Ret (path ++ pathOf fs r)).
Proof.
  induction fuel as [|fuel IH]; intros t path Hn Ho Hf; [destruct t; cbn in Hf; lia|].
  destruct t as [r es|r ks ts]; cbn [descend troot].
  - apply Forall_singleton in Hn as (p & Hp & Hl). cbn [fst] in Hp. exists [], r, es. split; [split; [done|split; constructor]|].
    intros b' Hb. rewrite <- Hb in Hp. rewrite (stM_bind_ret _ _ _ _ _ (GetPageInfo_ok _ _ _ Hp)).
    destruct Hl as [[Hq _] Hl _ _]. by rewrite Hl, Hq.
  - assert (Hroot : node_ok b (r, SNode ks (troot <$> ts))) by (by apply Forall_cons in Hn as [? _]).
    destruct Hroot as (p & Hp & cs & Hi). cbn [fst snd] in Hp.
    destruct (inner_lengths _ _ _ _ _ Hi) as (Hlen & _ & Hs). rewrite length_fmap in Hlen.
    pose proof (upper_bound_le key ks). destruct (node_split_at ts (upper_bound key ks)) as (l & t & rr & -> & Hll); [lia|].
    set (f := mkFrame r ks l rr).
    assert (Hwf : frame_wf f) by (unfold frame_wf; cbn; rewrite length_app in Hlen; cbn in Hlen; lia).
    rewrite nodes_middle in Hn. apply Forall_app in Hn as [Hnt _].
    assert (Hfl : (length (nodes t) <= fuel)%nat).
    { pose proof (Permutation_length (nodes_middle r ks l t rr)) as E. rewrite E, length_app in Hf. cbn in Hf. lia. }
    assert (Hot : ordered (flat t)).
    { change (TNode r ks (l ++ t :: rr)) with (fill f t) in Ho. rewrite flat_fill in Ho by done.
      by apply ordered_app in Ho as (_ & (Ho & _ & _)%ordered_app & _). }
    destruct (child_quiet _ _ Hnt) as (pc & Hpc & Hqc).
    destruct (IH t (path ++ [mkEntry r (Z.of_nat (upper_bound key ks))]) Hnt Hot Hfl) as (fs & lr & es & [Hfp Hfa] & E).
    exists (fs ++ [f]), lr, es. split; [split|].
    + rewrite plug_app, <- Hfp. done.
    + rewrite ctx_pre_app, ctx_post_app. apply around_app; [|done].
      by apply (around_frame key f t).
    + intros b' Hb. rewrite <- Hb in Hp, Hpc.
      rewrite (stM_bind_ret _ _ _ _ _ (GetPageInfo_ok _ _ _ Hp)), (ia_inner _ _ _ _ _ Hi).
      rewrite (stM_bind_ret _ _ _ _ _ (GetChildren_ok _ _ _ Hp)), (ia_cache _ _ _ _ _ Hi).
      assert (Hci : (troot <$> l ++ t :: rr) !! upper_bound key ks = Some (troot t)).
      { rewrite fmap_app, fmap_cons, lookup_app_r, length_fmap, Hll by (rewrite length_fmap; lia). by rewrite Nat.sub_diag. }
      rewrite (stM_bind_ret _ _ _ _ _ (childFor_ok b' key ks _ (troot t) Hs Hci)).
      cbn [fst]. rewrite (stM_bind_ret _ _ _ _ _ (GetPageInfo_ok _ _ _ Hpc)), (proj1 Hqc).
      rewrite (stM_bind_ret _ _ b' b' (troot t, Z.of_nat (upper_bound key ks)) eq_refl). cbn [fst snd].
      rewrite (E b' Hb). unfold pathOf. rewrite rev_app_distr, <- app_assoc. cbn. unfold entryOf at 2, f_idx. cbn. by rewrite Hll.
Qed.

(** The references of a tree are distinct addresses of the heap. *)
Lemma trefs_bound b t :
  Forall (node_ok b) (nodes t) -> NoDup (trefs t) -> (length (nodes t) <= base.size (refs b))%nat.
Proof.
  intros Hn Hd. unfold trefs in Hd. rewrite <- (length_fmap fst), <- (size_dom (refs b)), <- (size_list_to_set (C := gset Z) _ Hd).
  apply subseteq_size. intros r. rewrite elem_of_list_to_set, list_elem_of_fmap. intros (n & -> & Hin).
  rewrite Forall_forall in Hn. destruct (Hn _ Hin) as (p & Hp & _). by apply elem_of_dom_2 in Hp.
Qed.

(** The search depends on the references alone. *)
Lemma searchPath_refs b t key :
  tree_ok b t -> exists fs r es, found_at key t fs r es /\
    forall b', refs b' = refs b -> searchPath key b' = (b', Ret (pathOf fs r)).
Proof.
  intros Ht. destruct (descend_ok b key (S (base.size (refs b))) t []) as (fs & r & es & Hf & E); [apply Ht..| |].
  { pose proof (trefs_bound b t (t_nodes _ _ Ht) (t_nodup _ _ Ht)). lia. }
  exists fs, r, es. split; [done|]. intros b' Hb. unfold searchPath. rewrite stM_bind_get, <- (t_root _ _ Ht), Hb. by apply E.
Qed.

Lemma searchPath_ok b t key :
  tree_ok b t -> exists fs r es, found_at key t fs r es /\ searchPath key b = (b, Ret (pathOf fs r)).
Proof. intros Ht. destruct (searchPath_refs b t key Ht) as (fs & r & es & Hf & E). exists fs, r, es. auto. Qed.

Lemma pathLeaf_ok fs r b : pathLeaf (pathOf fs r) b = (b, Ret (mkEntry r (-1))).
Proof. unfold pathLeaf, pathOf. by rewrite last_snoc. Qed.

(** The leaf found holds the key, if any leaf does. *)
Lemma found_lookup b t key fs r es :
  tree_ok b t -> found_at key t fs r es ->
  items_map (flat t) !! key = (list_to_map es : kvmap) !! key.
Proof.
  intros Ht [-> Ha]. pose proof (t_nodes _ _ Ht) as Hn. rewrite nodes_plug in Hn. apply Forall_app in Hn as [_ Hc].
  rewrite flat_plug by (by eapply ctx_wf). cbn [flat]. by apply around_lookup.
Qed.

Lemma found_leaf b t key fs r es :
  tree_ok b t -> found_at key t fs r es -> exists p, refs b !! r = Some p /\ leaf_at b p es.
Proof.
  intros Ht [-> _]. pose proof (t_nodes _ _ Ht) as Hn. rewrite nodes_plug in Hn.
  apply Forall_app in Hn as [Hl _]. by apply Forall_inv in Hl.
Qed.

(** ** Reads *)

Lemma leaf_search_cases s id es key :
  leaf_list s id es ->
  match (list_to_map es : kvmap) !! key with
  | Some v => exists i, Search s id key = Ret (Z.of_nat i, true) /\ es !! i = Some (key, v) /\
                GetValueAt s id (Z.of_nat i) = Ret v
  | None => Search s id key = Ret (Z.of_nat (lower_bound key (es.*1)), false) /\ key ∉ es.*1
  end.
Proof.
  intros Hl. pose proof (leaf_rep_search s id es key Hl) as E. pose proof (map_lookup es key (ll_sorted _ _ _ Hl)) as Hm.
  destruct ((list_to_map es : kvmap) !! key) as [v|].
  - eexists. rewrite E, bool_decide_true by (by eapply leaf_list_key). split; [done|]. split; [exact Hm|].
    destruct (ll_page _ _ _ Hl) as [d [Hp _]]. unfold GetValueAt.
    destruct (leaf_page_entry _ _ _ _ _ _ _ Hp Hm) as (e & E1 & _ & _ & _ & _ & E2). by rewrite E1, bind_ret, E2.
  - split; [|done]. by rewrite E, bool_decide_false.
Qed.

Lemma leafLookup_ok b t key : tree_ok b t -> leafLookup key b = (b, Ret (items_map (flat t) !! key)).
Proof.
  intros Ht. destruct (searchPath_ok b t key Ht) as (fs & r & es & Hf & E).
  destruct (found_leaf _ _ _ _ _ _ Ht Hf) as (p & Hp & Hl). rewrite (found_lookup _ _ _ _ _ _ Ht Hf).
  unfold leafLookup. rewrite (stM_bind_ret _ _ _ _ _ E), (stM_bind_ret _ _ _ _ _ (pathLeaf_ok fs r b)). cbn [Ref].
  rewrite (stM_bind_ret _ _ _ _ _ (GetPageInfo_ok _ _ _ Hp)).
  rewrite (stM_bind_ret _ _ _ _ _ (GetLeafPage_ok b _ es (t_heap _ _ Ht) (la_live _ _ _ Hl) (la_list _ _ _ Hl))).
  pose proof (leaf_search_cases _ _ _ key (la_list _ _ _ Hl)) as Hs. fold (page p).
  destruct ((list_to_map es : kvmap) !! key) as [v|].
  - destruct Hs as (i & Es & _ & Ev). rewrite (stM_bind_ret _ _ b b (Z.of_nat i, true)) by (unfold onPages; by rewrite Es).
    cbn [snd negb fst]. by rewrite (stM_bind_ret _ _ b b v) by (unfold onPages; by rewrite Ev).
  - destruct Hs as [Es _]. by rewrite (stM_bind_ret _ _ b b (Z.of_nat (lower_bound key (es.*1)), false)) by (unfold onPages; by rewrite Es).
Qed.
