(* ===== verification/TreeHeap.v ===== *)
(** * How a write changes the heap of the B+Tree

    A write allocates pages, replaces the infos and caches of some references
    and adds references ([evolves]); what is elsewhere in the tree stays as it
    was.  The operations on references, and the parent's replacement of a child
    by two. *)

From stdpp Require Import base list gmap sorting strings.
From Stdlib Require Import ZArith Lia.
From S2P Require Import Prelude MvccCodec OffHeap PageLayout LeafPage LeafMap NodePage NodeMap Merge BTree TreeOps TreeShape TreeInv.

Local Open Scope Z_scope.


(** Pages [news] were allocated, references other than [D] are as before, and
    every reference keeps its page number. *)
Record evolves (news D : list Z) (b b' : BTree) : Prop := {
  ev_pm : grew news (pm b) (pm b');
  ev_refs : forall r p, refs b !! r = Some p ->
    exists p', refs b' !! r = Some p' /\ pageID p' = pageID p /\ (r ∉ D -> p' = p);
  ev_heap : heap_ok b';
  ev_nextRef : nextRef b <= nextRef b';
  ev_nextInfo : nextInfo b <= nextInfo b';
  ev_size : size b' = size b
}.

Lemma grew_perm news news' s s' : news ≡ₚ news' -> grew news s s' -> grew news' s s'.
Proof.
  intros Hp [Hok Ht Ha Hl Hf Hn Hs]. constructor; try done.
  - by rewrite Ha, !(Permutation_length Hp : zlen news = zlen news') || (unfold zlen in *; by rewrite <- (Permutation_length Hp)).
  - intros q. by rewrite Hl, Hp.
  - intros q. rewrite <- Hp. apply Hf.
  - by rewrite <- Hp.
Qed.

Lemma evolves_perm news news' D b b' : news ≡ₚ news' -> evolves news D b b' -> evolves news' D b b'.
Proof. intros Hp []. constructor; try done. by eapply grew_perm. Qed.

Lemma evolves_weaken news D D' b b' : (forall r, r ∈ D -> r ∈ D') -> evolves news D b b' -> evolves news D' b b'.
Proof.
  intros Hd [? Hr ? ? ? ?]. constructor; try done. intros r p Hp. destruct (Hr r p Hp) as (p' & ? & ? & Hs).
  exists p'. split_and!; try done. intros Hn. apply Hs. auto.
Qed.

Lemma evolves_trans n1 n2 D b b1 b2 : evolves n1 D b b1 -> evolves n2 D b1 b2 -> evolves (n2 ++ n1) D b b2.
Proof.
  intros [H1 R1 _ N1 I1 S1] [H2 R2 Hh N2 I2 S2]. constructor; try done; try congruence; try lia; [by eapply grew_trans|].
  intros r p Hp. destruct (R1 r p Hp) as (p1 & E1 & Q1 & K1). destruct (R2 r p1 E1) as (p2 & E2 & Q2 & K2).
  exists p2. split_and!; [done|congruence|]. intros Hn. rewrite K2, K1; done.
Qed.

(** A step that allocates nothing. *)
Lemma evolves_step news D b b1 b2 : evolves news D b b1 -> evolves [] D b1 b2 -> evolves news D b b2.
Proof. apply evolves_trans. Qed.

Lemma ev_same b b' :
  heap_ok b -> pm b' = pm b -> refs b' = refs b -> nextRef b' = nextRef b -> nextInfo b <= nextInfo b' ->
  epochOn b' = epochOn b -> closed b' = closed b -> storageClosed b' = storageClosed b -> size b' = size b -> evolves [] [] b b'.
Proof.
  intros [Hpm Hz Hr He Ho Hs] Ep Er En Ei Ee Ec Es Ez. constructor; [| | |lia|done|done].
  - rewrite Ep. by apply grew_refl.
  - intros r p. rewrite Er. eauto.
  - constructor; try congruence. intros r p. rewrite Er, En. intros Hp. specialize (Hr r p Hp). lia.
Qed.

Lemma ev_refl b : heap_ok b -> evolves [] [] b b.
Proof. intros. apply ev_same; done. Qed.

(** The operations of the page manager. *)
Lemma ev_pages news s b : heap_ok b -> grew news (pm b) s -> evolves news [] b (with_pm s b).
Proof.
  intros [Hpm Hz Hr He Ho Hs] Hg. constructor; try done; [eauto|].
  constructor; try done; [apply Hg|]. cbn. apply (gr_live _ _ _ Hg). by left.
Qed.

Lemma ev_info n b : heap_ok b -> nextInfo b <= n -> evolves [] [] b (with_nextInfo n b).
Proof. intros. by apply ev_same. Qed.

Lemma ev_store b r p f :
  heap_ok b -> refs b !! r = Some p -> pageID (f p) = pageID p -> i_addr (pInfo (f p)) < nextInfo b ->
  evolves [] [r] b (storeRef r f b).
Proof.
  intros [Hpm Hz Hr He Ho Hs] Hp Hid Hi. constructor; try done; [by apply grew_refl| |].
  - intros r' p' Hp'. unfold storeRef. cbn. destruct (decide (r' = r)) as [->|Hne].
    + rewrite Hp in Hp'. injection Hp' as <-. exists (f p). rewrite lookup_alter_eq, Hp. split_and!; try done.
      intros []. by left.
    + exists p'. by rewrite lookup_alter_ne by done.
  - constructor; try done. intros r' p'. unfold storeRef. cbn. destruct (decide (r' = r)) as [->|Hne].
    + rewrite lookup_alter_eq, Hp. cbn. intros [= <-]. split; [|done]. by apply (Hr r p).
    + rewrite lookup_alter_ne by done. apply Hr.
Qed.

(** *** References *)

Definition leafRefOf (b : BTree) (pid version : Z) : PageRef :=
  mkPageRef pid (mkPageInfo (nextInfo b) pid version false None true NodeNormal) None.

Lemma heap_fresh b : heap_ok b -> refs b !! nextRef b = None.
Proof.
  intros Hh. destruct (refs b !! nextRef b) eqn:E; [|done]. pose proof (h_refs _ Hh _ _ E). lia.
Qed.

Lemma heap_fresh_next b : heap_ok b -> refs b !! (nextRef b + 1) = None.
Proof.
  intros Hh. destruct (refs b !! (nextRef b + 1)) eqn:E; [|done]. pose proof (h_refs _ Hh _ _ E). lia.
Qed.

Lemma NewPageRef_ok b pid v :
  heap_ok b -> exists b', NewPageRef pid v b = (b', Ret (nextRef b)) /\ evolves [] [] b b' /\
    refs b' = <[nextRef b := leafRefOf b pid v]> (refs b) /\ pm b' = pm b /\
    nextRef b' = nextRef b + 1 /\ nextInfo b' = nextInfo b + 1.
Proof.
  intros Hh. eexists. split; [reflexivity|]. split_and!; try done. constructor; cbn; try lia.
  - apply grew_refl, Hh.
  - intros r p Hp. exists p. rewrite lookup_insert_ne; [done|]. intros <-. by rewrite heap_fresh in Hp.
  - destruct Hh as [Hpm Hz Hr He Ho Hs]. constructor; cbn; try done. intros r p. destruct (decide (r = nextRef b)) as [->|Hne].
    + rewrite lookup_insert_eq. intros [= <-]. cbn. lia.
    + rewrite lookup_insert_ne by done. intros Hp. specialize (Hr r p Hp). lia.
Qed.

Definition nodeRefOf (b : BTree) (pid : Z) : PageRef :=
  mkPageRef pid (mkPageInfo (nextInfo b + 1) pid 1 false None false NodeNormal) None.

Lemma newNodeRef_ok b pid :
  heap_ok b -> exists b', newNodeRef pid b = (b', Ret (nextRef b)) /\ evolves [] [] b b' /\
    refs b' = <[nextRef b := nodeRefOf b pid]> (refs b) /\ pm b' = pm b /\
    nextRef b' = nextRef b + 1 /\ nextInfo b' = nextInfo b + 2.
Proof.
  intros Hh. destruct (NewPageRef_ok b pid 0 Hh) as (b1 & E & Hev & Hr & Hp & Hn & Hi).
  unfold newNodeRef. rewrite (stM_bind_ret _ _ _ _ _ E). unfold newPageInfo.
  erewrite stM_bind_ret by reflexivity. rewrite stM_bind_modify. eexists. split; [reflexivity|].
  assert (Hnew : refs (storeRef (nextRef b) (set_pInfo (mkPageInfo (nextInfo b1) pid 1 false None false NodeNormal))
            (with_nextInfo (nextInfo b1 + 1) b1)) = <[nextRef b := nodeRefOf b pid]> (refs b)).
  { cbn. rewrite Hr, alter_insert_eq, Hi. done. }
  split; [|split_and!; [exact Hnew|exact Hp|exact Hn|cbn; lia]].
  constructor; rewrite ?Hnew; cbn; try lia.
  - rewrite Hp. apply grew_refl, Hh.
  - intros r p Hp'. exists p. rewrite lookup_insert_ne; [done|]. intros <-. by rewrite heap_fresh in Hp'.
  - destruct (ev_heap _ _ _ _ Hev) as [Hpm Hz _ He Ho Hs]. constructor; try done. intros r p.
    change (refs (storeRef _ _ _) !! r = Some p) with
      (alter (set_pInfo (mkPageInfo (nextInfo b1) pid 1 false None false NodeNormal)) (nextRef b) (refs b1) !! r = Some p).
    rewrite Hr, alter_insert_eq. cbn. destruct (decide (r = nextRef b)) as [->|Hne].
    + rewrite lookup_insert_eq. intros [= <-]. cbn. lia.
    + rewrite lookup_insert_ne by done. intros Hp'. pose proof (h_refs _ Hh r p Hp'). lia.
  - apply (ev_size _ _ _ _ Hev).
Qed.

Lemma CAS_ok b r p old new :
  refs b !! r = Some p -> i_addr (pInfo p) = i_addr old ->
  CAS r old new b = (storeRef r (set_pInfo new) b, Ret true).
Proof.
  intros Hp Ha. unfold CAS. rewrite (stM_bind_ret _ _ _ _ _ (deref_ok b r p Hp)).
  by rewrite Ha, Z.eqb_refl, stM_bind_modify.
Qed.
Lemma CAS_stale b r p old new :
  refs b !! r = Some p -> i_addr (pInfo p) <> i_addr old -> CAS r old new b = (b, Ret false).
Proof.
  intros Hp Ha. unfold CAS. rewrite (stM_bind_ret _ _ _ _ _ (deref_ok b r p Hp)).
  by rewrite (proj2 (Z.eqb_neq _ _)).
Qed.

Lemma refs_store b r p f : refs b !! r = Some p -> refs (storeRef r f b) = <[r := f p]> (refs b).
Proof.
  intros Hp. unfold storeRef. cbn. apply map_eq. intros r'. destruct (decide (r' = r)) as [->|Hr].
  - by rewrite lookup_alter_eq, lookup_insert_eq, Hp.
  - by rewrite lookup_alter_ne, lookup_insert_ne by done.
Qed.

(** A fresh info put in place of the current one. *)
Lemma swap_info b r p old pid v red nr lf st (info := mkPageInfo (nextInfo b) pid v red nr lf st) :
  heap_ok b -> refs b !! r = Some p -> i_addr (pInfo p) = i_addr old ->
  exists b1 b', newPageInfo pid v red nr lf st b = (b1, Ret info) /\ CAS r old info b1 = (b', Ret true) /\
    evolves [] [r] b b' /\ refs b' = <[r := set_pInfo info p]> (refs b) /\ pm b' = pm b /\
    nextRef b' = nextRef b /\ nextInfo b' = nextInfo b + 1.
Proof.
  intros Hh Hp Ha. set (b1 := with_nextInfo (nextInfo b + 1) b). exists b1, (storeRef r (set_pInfo info) b1).
  pose proof (ev_info (nextInfo b + 1) b Hh ltac:(lia)) as Hev. fold b1 in Hev.
  split; [done|]. split; [by apply (CAS_ok b1 r p)|]. split; [|split; [by apply (refs_store b1)|done]].
  eapply evolves_step; [eapply evolves_weaken; [|exact Hev]; by intros ? ?%not_elem_of_nil|].
  apply (ev_store b1 r p); [apply Hev|done|done|cbn; lia].
Qed.

(** Page [q] holds the same bytes. *)
Definition same_bytes (s s' : PageManager) (q : Z) : Prop :=
  forall x, getPtr q <= x < getPtr q + PageSize -> byteAt (mem s') x = byteAt (mem s) x.

Lemma bytes_leaf s s' q es : same_bytes s s' q -> leaf_list s q es -> leaf_list s' q es.
Proof.
  intros Hb [[d Hd] Hs]. split; [exists d|done]. eapply page_ok_same; [|exact Hd].
  intros o Ho. apply Hb. off_lia.
Qed.
Lemma bytes_node s s' q ks cs : same_bytes s s' q -> node_list s q ks cs -> node_list s' q ks cs.
Proof.
  intros Hb (d & es & Hok & Hs & Hk & Hc). exists d, es. split; [|split; [done|split; [done|]]].
  - eapply page_ok_same; [|exact Hok]. intros o Ho. apply Hb. off_lia.
  - rewrite Hc. f_equal. symmetry. apply loadU_ext. intros i Hi. apply Hb. pose proof (field_bounds hExtraChild). off_lia.
Qed.

(** A page allocated by the operation is released again. *)
Lemma dropFreePage_ok p news D b b1 :
  heap_ok b -> evolves (p :: news) D b b1 ->
  exists s, dropFreePage p b1 = (with_pm s b1, Ret tt) /\ evolves news D b (with_pm s b1) /\
    forall q, q <> p -> same_bytes (pm b1) s q.
Proof.
  intros Hb [Hpm Hr Hh Hn Hi Hz']. destruct (grew_free _ _ _ _ Hpm) as (s & E & Hg).
  assert (Hl : live (pm b1) p) by (apply (gr_live _ _ _ Hpm); right; by left).
  destruct (Free_post (pm b1) p (h_pm _ Hh) Hl) as (s2 & E2 & Hp). rewrite E in E2. injection E2 as <-.
  exists s. unfold dropFreePage, storageFreePage.
  rewrite (stM_bind_ret _ _ _ _ _ (validatePageID_ok p b1 Hh Hl)). unfold onPM. rewrite E. split; [done|]. split.
  - constructor; try done. destruct Hh as [Hok Hz ? ? ? ?]. constructor; try done; [apply Hg|].
    apply (gr_live _ _ _ Hg). left. apply Hb.
  - intros q Hq x Hx. apply (fp_mem _ _ _ Hp). off_lia.
Qed.

(** *** What stays as it was *)

Lemma ev_live news D b b' q : evolves news D b b' -> live (pm b) q -> live (pm b') q.
Proof. intros Hev Hl. apply (gr_live _ _ _ (ev_pm _ _ _ _ Hev)). by left. Qed.
Lemma ev_new news D b b' q : evolves news D b b' -> q ∈ news -> live (pm b') q.
Proof. intros Hev Hl. apply (gr_live _ _ _ (ev_pm _ _ _ _ Hev)). by right. Qed.
Lemma ev_avail news D b b' : evolves news D b b' -> avail (pm b') = avail (pm b) - zlen news.
Proof. intros Hev. apply (ev_pm _ _ _ _ Hev). Qed.

Lemma ev_id news D b b' r c : evolves news D b b' -> idOf b r = Some c -> idOf b' r = Some c.
Proof.
  unfold idOf. intros Hev. destruct (refs b !! r) as [p|] eqn:E; [|done]. cbn. intros [= <-].
  destruct (ev_refs _ _ _ _ Hev r p E) as (p' & -> & <- & _). done.
Qed.

Lemma grew_leaf news s s1 q es : grew news s s1 -> live s q -> leaf_list s q es -> leaf_list s1 q es.
Proof. intros Hg Hl [[d Hd] Hs]. split; [exists d; by eapply grew_page|done]. Qed.

Lemma leaf_at_ev news D b b' p es : evolves news D b b' -> leaf_at b p es -> leaf_at b' p es.
Proof.
  intros Hev [Hq Hf Hl Hs]. constructor; try done; [by eapply ev_live|]. eapply grew_leaf; [apply Hev|done..].
Qed.

Lemma inner_at_ev news D b b' p ks crs cs : evolves news D b b' -> inner_at b p ks crs cs -> inner_at b' p ks crs cs.
Proof.
  intros Hev [Hq Hf Hl Hc Hs Hi Hn Hp Hcs]. constructor; try done; [by eapply ev_live|eapply grew_node; [apply Hev|done..]| |].
  - eapply Forall2_impl; [exact Hi|]. intros r c. by apply (ev_id _ _ _ _ r c Hev).
  - eapply Forall_impl; [exact Hcs|]. cbn. intros c [H0 Hlc]. split; [done|]. by eapply ev_live.
Qed.

Lemma node_ok_ev news D b b' n :
  evolves news D b b' -> node_ok b n -> refs b' !! n.1 = refs b !! n.1 -> node_ok b' n.
Proof.
  intros Hev (p & Hp & Hs) E. exists p. rewrite E. split; [done|].
  destruct n.2; [by eapply leaf_at_ev|]. destruct Hs as [cs Hi]. exists cs. by eapply inner_at_ev.
Qed.

Lemma ev_untouched news D b b' r p : evolves news D b b' -> refs b !! r = Some p -> r ∉ D -> refs b' !! r = refs b !! r.
Proof. intros Hev Hp Hn. destruct (ev_refs _ _ _ _ Hev r p Hp) as (p' & -> & _ & Hs). by rewrite Hs. Qed.

Lemma nodes_ev news D b b' ns :
  evolves news D b b' -> Forall (node_ok b) ns -> (forall r, r ∈ ns.*1 -> r ∉ D) -> Forall (node_ok b') ns.
Proof.
  intros Hev Hns Hd. rewrite Forall_forall in Hns. apply Forall_forall. intros n Hn.
  eapply node_ok_ev; [done|by apply Hns|]. destruct (Hns n Hn) as (p & Hp & _).
  eapply ev_untouched; [done|done|]. apply Hd. by apply list_elem_of_fmap_2.
Qed.

(** Nothing in the tree was touched, or everything was put back. *)
Lemma tree_ev news D b b' t :
  evolves news D b b' -> tree_ok b t -> (forall r, r ∈ trefs t -> r ∈ D -> refs b' !! r = refs b !! r) -> tree_ok b' t.
Proof.
  intros Hev [Hh Hr Hn Hd Ho] Hs. constructor; try done; [apply Hev|].
  rewrite Forall_forall in Hn. apply Forall_forall. intros n Hin. eapply node_ok_ev; [done|by apply Hn|].
  destruct (Hn n Hin) as (p & Hp & _). assert (n.1 ∈ trefs t) by (by apply list_elem_of_fmap_2).
  destruct (decide (n.1 ∈ D)); [by apply Hs|]. by eapply ev_untouched.
Qed.

(** ** Children of an internal page *)

(** An error after which the template does not try again. *)
Definition hard (e : gerr) : Prop := IsErr e ErrBTreeCASConflict = false /\ IsErr e ErrBTreeRetry = false.

Lemma indexOfPage_ok b id : forall crs cs i n,
  Forall2 (fun r c => idOf b r = Some c) crs cs -> NoDup cs -> cs !! i = Some id ->
  indexOfPage b crs id n = Ret (Some (n + i)%nat).
Proof.
  induction crs as [|r crs IH]; intros cs i n H Hn Hi.
  { apply Forall2_nil_inv_l in H as ->. done. }
  apply Forall2_cons_inv_l in H as (c & cs' & Hc & H & ->). cbn [indexOfPage].
  unfold idOf in Hc. destruct (refs b !! r) as [p|] eqn:E; [|done]. injection Hc as Hc.
  unfold derefOf. rewrite E, bind_ret, Hc. apply NoDup_cons in Hn as [Hnin Hn]. destruct i as [|i]; cbn in Hi.
  - injection Hi as ->. rewrite Z.eqb_refl. by rewrite Nat.add_0_r.
  - rewrite (proj2 (Z.eqb_neq c id)). { rewrite (IH cs' i (S n) H Hn Hi). do 2 f_equal. lia. }
    intros ->. apply Hnin. by eapply list_elem_of_lookup_2.
Qed.

Lemma node_GetChild_ok s id ks cs i c :
  node_list s id ks cs -> cs !! i = Some c -> Node.GetChild s id (Z.of_nat i) = Ret c.
Proof.
  intros (d & es & [Hp _] & _ & _ & ->) Hi. pose proof (lookup_lt_Some _ _ _ Hi) as Hlt. rewrite length_kids in Hlt.
  destruct (GetChild_ok s id d es i Hp) as (enc & E & Hk & _); [lia|]. unfold Node.GetChild. rewrite E, bind_ret.
  rewrite Hk in Hi. by injection Hi as <-.
Qed.

Lemma node_count s id ks cs : node_list s id ks cs -> Node.Count s id = zlen ks /\ Node.ChildCount s id = zlen cs.
Proof.
  intros Hn. pose proof (node_list_lengths _ _ _ _ Hn) as [Hl _]. destruct Hn as (d & es & [Hp _] & _ & -> & _).
  unfold Node.ChildCount, Node.Count. rewrite (po_count _ _ _ _ _ _ Hp). unfold zlen. rewrite Hl, length_fmap. lia.
Qed.

Lemma findChild_ok s page ks cs id i :
  node_list s page ks cs -> NoDup cs -> cs !! i = Some id -> forall n j, (j <= i < j + n)%nat ->
  findChild s page id (Z.of_nat j) n = Ret (Some (Z.of_nat i)).
Proof.
  intros Hl Hn Hi. induction n as [|n IH]; intros j Hj; [lia|]. cbn [findChild].
  pose proof (node_list_lengths _ _ _ _ Hl) as [Hlen _].
  destruct (lookup_lt_is_Some_2 cs j) as [c Hc]; [apply lookup_lt_Some in Hi; lia|].
  rewrite (node_GetChild_ok _ _ _ _ _ _ Hl Hc), bind_ret. destruct (Z.eqb_spec c id) as [->|Hne].
  - by rewrite (NoDup_lookup _ _ _ _ Hn Hi Hc).
  - replace (Z.of_nat j + 1) with (Z.of_nat (S j)) by lia. apply IH.
    assert (j <> i) by (intros ->; congruence). lia.
Qed.

Lemma actualIndex_ok b page ks cs id dflt i :
  node_list (pm b) page ks cs -> NoDup cs -> cs !! i = Some id ->
  actualIndex page id dflt b = (b, Ret (Z.of_nat i)).
Proof.
  intros Hl Hn Hi. unfold actualIndex. rewrite stM_bind_get, (proj2 (node_count _ _ _ _ Hl)).
  unfold zlen. rewrite Nat2Z.id. change 0 with (Z.of_nat 0).
  rewrite (findChild_ok _ _ _ _ _ _ Hl Hn Hi) by (apply lookup_lt_Some in Hi; lia). done.
Qed.

Lemma updateChildrenCache_ok b pr p ks crs cs id lR rR sep i :
  refs b !! pr = Some p -> children p = Some (mkCache crs ks) ->
  Forall2 (fun r c => idOf b r = Some c) crs cs -> NoDup cs -> cs !! i = Some id ->
  updateChildrenCache pr id lR rR sep b =
    (storeRef pr (set_children (Some (mkCache (split_child i lR rR crs) (insert_at i sep ks)))) b, Ret tt).
Proof.
  intros Hp Hc H2 Hn Hi. unfold updateChildrenCache. rewrite (stM_bind_ret _ _ _ _ _ (GetChildren_ok b pr p Hp)), Hc.
  rewrite stM_bind_get. cbn [Cache.Children Cache.Separators mkCache]. rewrite (indexOfPage_ok b id _ _ _ 0 H2 Hn Hi).
  rewrite stM_bind_lift. done.
Qed.

(** *** A child replaced by two *)

(** A page number a new child can have beside the children [cs]. *)
Definition new_child (b : BTree) (cs : list Z) (c : Z) : Prop := c <> 0 /\ live (pm b) c /\ c ∉ cs.

Lemma split_child_fmap {A B} (f : A -> B) i l r cs : f <$> split_child i l r cs = split_child i (f l) (f r) (f <$> cs).
Proof. unfold split_child. by rewrite fmap_app, !fmap_cons, fmap_take, fmap_drop. Qed.

Lemma elem_of_split_child {A} (x : A) i l r cs : x ∈ split_child i l r cs -> x = l \/ x = r \/ x ∈ cs.
Proof.
  unfold split_child. rewrite elem_of_app, !elem_of_cons. intros [H|[->|[->|H]]]; auto; right; right.
  - by eapply subseteq_take.
  - by eapply subseteq_drop.
Qed.

Lemma NoDup_split_child {A} i (l r : A) cs :
  NoDup cs -> l ∉ cs -> r ∉ cs -> l <> r -> NoDup (split_child i l r cs).
Proof.
  intros Hn Hl Hr Hlr. unfold split_child. assert (Hsub : take i cs ++ drop (S i) cs `sublist_of` cs).
  { rewrite <- (take_drop i cs) at 3. apply sublist_app; [done|]. rewrite <- (Nat.add_1_r i), <- drop_drop.
    apply sublist_drop. }
  assert (Hin : forall x, x ∈ take i cs ++ drop (S i) cs -> x ∈ cs).
  { intros x Hx. eapply elem_of_submseteq; [exact Hx|by apply sublist_submseteq]. }
  rewrite <- !Permutation_middle. apply NoDup_cons. split.
  - rewrite elem_of_cons. intros [->|H]; [done|]. by apply Hl, Hin.
  - apply NoDup_cons. split; [|by eapply sublist_NoDup]. intros H. by apply Hr, Hin.
Qed.

Lemma Forall2_split_child {A B} (P : A -> B -> Prop) i l r l' r' xs ys :
  Forall2 P xs ys -> P l l' -> P r r' -> Forall2 P (split_child i l r xs) (split_child i l' r' ys).
Proof.
  intros H Hl Hr. unfold split_child. apply Forall2_app; [by apply Forall2_take|].
  constructor; [done|]. constructor; [done|]. by apply Forall2_drop.
Qed.

Lemma inner_insert news D b b' p p' ks crs cs i sep lR rR lc rc :
  inner_at b p ks crs cs -> evolves news D b b' -> ~ live (pm b) (page p') ->
  quiet (pInfo p') -> IsLeafInfo (pInfo p') = false -> live (pm b') (page p') ->
  children p' = Some (mkCache (split_child i lR rR crs) (insert_at i sep ks)) ->
  node_list (pm b') (page p') (insert_at i sep ks) (split_child i lc rc cs) ->
  new_child b cs lc -> new_child b cs rc -> lc <> rc -> idOf b lR = Some lc -> idOf b rR = Some rc ->
  inner_at b' p' (insert_at i sep ks) (split_child i lR rR crs) (split_child i lc rc cs).
Proof.
  intros Hi Hev Hnew Hq Hf Hlive Hc Hl (Hl0 & Hll & Hln) (Hr0 & Hrl & Hrn) Hne HlR HrR.
  constructor; try done.
  - apply Forall2_split_child; [|by eapply ev_id..]. eapply Forall2_impl; [apply Hi|].
    intros r c. by apply (ev_id _ _ _ _ r c Hev).
  - apply NoDup_split_child; [apply Hi|done..].
  - intros [E|[E|E]]%elem_of_split_child; apply Hnew; [by rewrite E|by rewrite E|].
    pose proof (ia_cs _ _ _ _ _ Hi) as H. rewrite Forall_forall in H. by apply H.
  - apply Forall_forall. intros c [->|[->|Hc']]%elem_of_split_child; [split; [done|by eapply ev_live]..|].
    pose proof (ia_cs _ _ _ _ _ Hi) as H. rewrite Forall_forall in H. destruct (H c Hc'). split; [done|by eapply ev_live].
Qed.

Lemma IsErr_Wrap e d x : IsErr (Wrap e d) x = IsErr e x.
Proof. destruct e as [t|t d0]; [done|]. unfold Wrap, mergeNexError. by repeat case_match. Qed.
Lemma hard_Wrap e d : hard e -> hard (Wrap e d).
Proof. unfold hard. by rewrite !IsErr_Wrap. Qed.

Lemma parentCAS_ok n b pr p ks crs cs i oldID lc rc sep dflt lR rR :
  heap_ok b -> refs b !! pr = Some p -> inner_at b p ks crs cs -> cs !! i = Some oldID ->
  new_child b cs lc -> new_child b cs rc -> lc <> rc -> idOf b lR = Some lc -> idOf b rR = Some rc ->
  keys_sorted (insert_at i sep ks) -> zlen sep < 2 ^ 31 -> 0 < avail (pm b) ->
  (exists b' new p', parentCASLoop (S n) pr oldID lc rc sep dflt lR rR b = (b', Ret (pInfo p', new)) /\
     evolves [new] [pr] b b' /\ refs b' = <[pr := p']> (refs b) /\ page p' = new /\ pageID p' = pageID p /\
     inner_at b' p' (insert_at i sep ks) (split_child i lR rR crs) (split_child i lc rc cs)) \/
  (exists b' e, parentCASLoop (S n) pr oldID lc rc sep dflt lR rR b = (b', Fail e) /\
     evolves [] [] b b' /\ refs b' = refs b /\ hard e).
Proof.
  intros Hh Hp Hi Hid Hlc Hrc Hne HlR HrR Hs Hsz Hav. cbn [parentCASLoop].
  rewrite (stM_bind_ret _ _ _ _ _ (GetPageInfo_ok b pr p Hp)), (proj1 (ia_quiet _ _ _ _ _ Hi)).
  pose proof (ia_list _ _ _ _ _ Hi) as Hl. fold (page p).
  rewrite (GetNodePage_ok b (page p) ks cs Hh (ia_live _ _ _ _ _ Hi) Hl).
  rewrite (stM_bind_ret _ _ _ _ _ (actualIndex_ok b (page p) ks cs oldID dflt i Hl (ia_nodup _ _ _ _ _ Hi) Hid)).
  pose proof (lookup_lt_Some _ _ _ Hid) as Hlt. destruct (inner_lengths _ _ _ _ _ Hi) as (_ & Hlen & _).
  rewrite (proj2 (node_count _ _ _ _ Hl)), (proj2 (Z.leb_gt _ _)) by (unfold zlen; lia).
  pose proof (InsertChild_ok (pm b) (page p) ks cs i sep lc rc (h_pm _ Hh) (ia_live _ _ _ _ _ Hi) Hl Hav ltac:(lia)) as HI.
  assert (Hu : forall c, new_child b cs c -> is_u32 c /\ c <> 0).
  { intros c (H0 & H1 & _). split; [|done]. pose proof (live_u32 _ _ Hh H1). unfold is_u32. lia. }
  specialize (HI (Hu _ Hlc) (Hu _ Hrc) Hsz Hs). destruct (decide _) as [Hfit|Hfull].
  - left. destruct HI as (new & s' & E & Hg & Hn).
    rewrite (stM_bind_ret _ _ b (with_pm s' b) new) by (unfold onPM; by rewrite E).
    pose proof (ev_pages [new] s' b Hh Hg) as Hev1. set (b1 := with_pm s' b) in *.
    destruct (swap_info b1 pr p (pInfo p) new (u64 (Version (pInfo p) + 1)) false None false (State (pInfo p))
      (ev_heap _ _ _ _ Hev1) Hp eq_refl) as (b2 & b3 & E1 & E2 & Hev3 & Hr3 & Hpm3 & _).
    rewrite (stM_bind_ret _ _ _ _ _ E1), (stM_bind_ret _ _ _ _ _ E2).
    set (p3 := set_pInfo _ p) in Hr3. assert (Hp3 : refs b3 !! pr = Some p3) by (by rewrite Hr3, lookup_insert_eq).
    assert (Hev03 : evolves [new] [pr] b b3).
    { eapply evolves_step; [|exact Hev3]. eapply evolves_weaken; [|exact Hev1]. by intros r ?%not_elem_of_nil. }
    assert (Hids : Forall2 (fun r c => idOf b3 r = Some c) crs cs).
    { eapply Forall2_impl; [apply Hi|]. intros r c. by apply (ev_id _ _ _ _ r c Hev03). }
    rewrite (stM_bind_ret _ _ _ _ _ (updateChildrenCache_ok b3 pr p3 ks crs cs oldID lR rR sep i Hp3
      (ia_cache _ _ _ _ _ Hi) Hids (ia_nodup _ _ _ _ _ Hi) Hid)).
    set (c' := Some (mkCache (split_child i lR rR crs) (insert_at i sep ks))).
    assert (Hev4 : evolves [] [pr] b3 (storeRef pr (set_children c') b3)).
    { apply (ev_store b3 pr p3); [apply Hev03|done|done|]. exact (proj2 (h_refs _ (ev_heap _ _ _ _ Hev03) pr p3 Hp3)). }
    pose proof (evolves_step _ _ _ _ _ Hev03 Hev4) as Hev04.
    eexists _, new, (set_children c' p3). split; [reflexivity|]. split; [exact Hev04|].
    split; [by rewrite (refs_store b3 pr p3), Hr3, insert_insert_eq|]. split; [done|split; [done|]].
    eapply inner_insert; [exact Hi|exact Hev04|..]; try done.
    + apply (gr_fresh _ _ _ Hg). by left.
    + split; [done|]. apply (proj2 (ia_quiet _ _ _ _ _ Hi)).
    + eapply ev_new; [exact Hev04|by left].
    + unfold storeRef. cbn. by rewrite Hpm3.
  - right. destruct HI as (s' & E & Hg).
    rewrite (stM_bind_fail _ _ b (with_pm s' b) (Wrap errPageFull (insert_details i ks))) by (unfold onPM; by rewrite E).
    eexists _, _. split; [reflexivity|]. split; [by apply ev_pages|]. split; [done|]. by apply hard_Wrap.
Qed.

(** The other new pages keep what they hold. *)
Lemma drop_kept p news D b b1 :
  heap_ok b -> evolves (p :: news) D b b1 ->
  exists s, dropFreePage p b1 = (with_pm s b1, Ret tt) /\ evolves news D b (with_pm s b1) /\
    (forall q es, q ∈ news -> leaf_list (pm b1) q es -> leaf_list s q es) /\
    (forall q ks cs, q ∈ news -> node_list (pm b1) q ks cs -> node_list s q ks cs).
Proof.
  intros Hh Hev. destruct (dropFreePage_ok p news D b b1 Hh Hev) as (s & E & Hev' & Hb).
  pose proof (gr_nodup _ _ _ (ev_pm _ _ _ _ Hev)) as [Hp _]%NoDup_cons. exists s. split; [done|]. split; [done|].
  assert (Hq : forall q, q ∈ news -> same_bytes (pm b1) s q) by (intros q Hq; apply Hb; by intros ->).
  split; [intros q es Hin; by apply bytes_leaf, Hq|intros q ks cs Hin; by apply bytes_node, Hq].
Qed.

Lemma dropFree_size z p b b' o : dropFreePage p b = (b', o) -> dropFreePage p (with_size z b) = (with_size z b', o).
Proof.
  unfold dropFreePage, storageFreePage, validatePageID. destruct (maxUint32 <? p); [by inversion 1|].
  unfold mbind, stM_bind, mret, stM_ret, onPM. cbn [with_size pm]. destruct (Free p (pm b)) as [s []]; by inversion 1.
Qed.
