(* ===== verification/TreeSplit.v ===== *)
(** * Splits of internal nodes

    The halves of an internal page and their references; the tree with a child
    replaced by two, and with a new root; the cascade of splits from a full
    node up to the root keeps the list of keys and separators. *)

From stdpp Require Import base list gmap sorting strings.
From Stdlib Require Import ZArith Lia.
From S2P Require Import Prelude MvccCodec OffHeap PageLayout LeafPage LeafMap NodePage NodeMap Merge BTree TreeOps TreeShape TreeInv TreeHeap.

Local Open Scope Z_scope.


(** ** The halves of an internal page *)

Lemma ev_fresh news D D' b b' :
  evolves news D b b' -> (forall r, r ∈ D -> r ∈ D' \/ refs b !! r = None) -> evolves news D' b b'.
Proof.
  intros [? Hr ? ? ? ?] Hd. constructor; try done. intros r p Hp. destruct (Hr r p Hp) as (p' & ? & ? & Hs).
  exists p'. split_and!; try done. intros Hn. apply Hs. intros Hin. destruct (Hd r Hin) as [?|E]; [done|congruence].
Qed.

Lemma distribute_ok b old p ks crs cs mid lp pl pr lR rR :
  heap_ok b -> refs b !! old = Some p -> children p = Some (mkCache crs ks) -> length crs = S (length ks) ->
  (mid < length ks)%nat -> node_list (pm b) lp (take mid ks) cs ->
  refs b !! lR = Some pl -> refs b !! rR = Some pr -> lR <> rR -> 
  exists b', distributeChildrenAfterSplit old lR rR lp b = (b', Ret tt) /\ evolves [] [lR; rR] b b' /\ pm b' = pm b /\
    refs b' = <[rR := set_children (Some (mkCache (drop (S mid) crs) (drop (S mid) ks))) pr]>
                (<[lR := set_children (Some (mkCache (take (S mid) crs) (take mid ks))) pl]> (refs b)) /\
    nextRef b' = nextRef b.
Proof.
  intros Hh Hp Hc Hlen Hmid Hl HlR HrR Hne. unfold distributeChildrenAfterSplit.
  rewrite (stM_bind_ret _ _ _ _ _ (GetChildren_ok b old p Hp)), stM_bind_get, Hc.
  destruct (node_list_lengths _ _ _ _ Hl) as [Hcs _]. rewrite length_take in Hcs.
  assert (Node.ChildCount (pm b) lp = Z.of_nat (S mid)) as ->.
  { rewrite (proj2 (node_count _ _ _ _ Hl)). unfold zlen. lia. }
  cbn [Cache.Children Cache.Separators mkCache]. cbv zeta.
  rewrite (proj2 (Z.ltb_lt 0 (Z.of_nat (S mid)))), (proj2 (Z.leb_le (Z.of_nat (S mid)) (zlen crs))) by (unfold zlen; lia).
  cbn [andb].
  rewrite (slice_spec ks 0) by (unfold zlen; lia). rewrite stM_bind_lift, stM_bind_modify.
  rewrite (proj2 (Z.ltb_lt 0 (zlen crs - Z.of_nat (S mid)))) by (unfold zlen; lia).
  rewrite slice_spec, stM_bind_lift by (unfold zlen; lia).
  unfold ztake, zdrop. rewrite !Nat2Z.id.
  replace (Z.to_nat (Z.of_nat (S mid) - 1 - 0)) with mid by lia. change (Z.to_nat 0) with 0%nat. rewrite drop_0.
  rewrite (take_ge (drop (S mid) ks)) by (rewrite length_drop; unfold zlen; lia).
  set (b1 := storeRef lR _ b). set (b2 := storeRef rR (set_children (Some (mkCache (drop (S mid) crs) (drop (S mid) ks)))) b1). exists b2. split; [done|].
  assert (Hev1 : evolves [] [lR] b b1) by (apply (ev_store b lR pl); [done..|exact (proj2 (h_refs _ Hh _ _ HlR))]).
  assert (HrR1 : refs b1 !! rR = Some pr) by (unfold b1; rewrite (refs_store b lR pl), lookup_insert_ne by done; done).
  assert (Hev2 : evolves [] [rR] b1 b2) by (apply (ev_store b1 rR pr); [apply Hev1|done..|exact (proj2 (h_refs _ (ev_heap _ _ _ _ Hev1) _ _ HrR1))]).
  split; [|split; [done|split; [|done]]].
  - apply (evolves_step _ _ b b1 b2); (eapply evolves_weaken; [|eassumption]); set_solver.
  - unfold b2. rewrite (refs_store b1 rR pr _ HrR1). unfold b1. by rewrite (refs_store b lR pl _ HlR).
Qed.

(** A half, on a page allocated since, with some of the children. *)
Lemma half_inner news D b0 b p p' ks crs cs ks' crs' cs' :
  inner_at b0 p ks crs cs -> evolves news D b0 b -> page p' ∈ news ->
  quiet (pInfo p') -> IsLeafInfo (pInfo p') = false -> children p' = Some (mkCache crs' ks') ->
  node_list (pm b) (page p') ks' cs' -> Forall2 (fun r c => idOf b r = Some c) crs' cs' ->
  cs' `sublist_of` cs -> inner_at b p' ks' crs' cs'.
Proof.
  intros Hi Hev Hnew Hq Hf Hc Hl H2 Hsub. pose proof (ia_cs _ _ _ _ _ Hi) as Hcs. rewrite Forall_forall in Hcs.
  assert (Hin : forall c, c ∈ cs' -> c ∈ cs).
  { intros c Hc'. eapply elem_of_submseteq; [exact Hc'|by apply sublist_submseteq]. }
  constructor; try done.
  - by eapply ev_new.
  - eapply sublist_NoDup; [|exact Hsub]. apply Hi.
  - intros Hp. destruct (gr_fresh _ _ _ (ev_pm _ _ _ _ Hev) _ Hnew) as [Hnl _]. by apply Hnl, Hcs, Hin.
  - apply Forall_forall. intros c Hc'. destruct (Hcs c (Hin c Hc')). split; [done|by eapply ev_live].
Qed.

(** The two references made for the halves [lp] and [rp] of the node [r]. *)
Lemma split_halves b0 b r p ks crs cs mid lp rp :
  heap_ok b0 -> refs b0 !! r = Some p -> inner_at b0 p ks crs cs -> (mid < length ks)%nat ->
  evolves [rp; lp] [] b0 b -> refs b = refs b0 -> nextRef b = nextRef b0 ->
  node_list (pm b) lp (take mid ks) (take (S mid) cs) -> node_list (pm b) rp (drop (S mid) ks) (drop (S mid) cs) ->
  exists b1 b2 b3 pl pr, newNodeRef lp b = (b1, Ret (nextRef b0)) /\ newNodeRef rp b1 = (b2, Ret (nextRef b0 + 1)) /\
    distributeChildrenAfterSplit r (nextRef b0) (nextRef b0 + 1) lp b2 = (b3, Ret tt) /\
    evolves [rp; lp] [] b0 b3 /\ pm b3 = pm b /\
    refs b3 = <[nextRef b0 + 1 := pr]> (<[nextRef b0 := pl]> (refs b0)) /\ pageID pl = lp /\ pageID pr = rp /\
    inner_at b3 pl (take mid ks) (take (S mid) crs) (take (S mid) cs) /\
    inner_at b3 pr (drop (S mid) ks) (drop (S mid) crs) (drop (S mid) cs).
Proof.
  intros Hh Hp Hi Hmid Hev Hr Hn Hl Hrr.
  destruct (newNodeRef_ok b lp (ev_heap _ _ _ _ Hev)) as (b1 & E1 & Hev1 & Hr1 & Hpm1 & Hn1 & Hi1).
  destruct (newNodeRef_ok b1 rp (ev_heap _ _ _ _ Hev1)) as (b2 & E2 & Hev2 & Hr2 & Hpm2 & Hn2 & _).
  rewrite Hn in *. rewrite Hn1 in *. set (lR := nextRef b0) in *. set (rR := lR + 1) in *.
  assert (HlR : refs b0 !! lR = None) by (by apply heap_fresh).
  assert (HrR : refs b0 !! rR = None) by (by apply heap_fresh_next).
  assert (Hne : lR <> rR) by lia.
  destruct (inner_lengths _ _ _ _ _ Hi) as (Hcl & Hcsl & Hs).
  assert (Hr3 : r <> lR /\ r <> rR) by (split; intros ->; congruence).
  destruct (distribute_ok b2 r p ks crs (take (S mid) cs) mid lp (nodeRefOf b lp) (nodeRefOf b1 rp) lR rR
    (ev_heap _ _ _ _ Hev2)) as (b3 & E3 & Hev3 & Hpm3 & Hrf3 & _); try done.
  { rewrite Hr2, Hr1, Hr. by rewrite !lookup_insert_ne by (by apply not_eq_sym, Hr3). }
  { apply Hi. }
  { by rewrite Hpm2, Hpm1. }
  { by rewrite Hr2, lookup_insert_ne, Hr1, lookup_insert_eq by (by apply not_eq_sym). }
  { by rewrite Hr2, lookup_insert_eq. }
  assert (Hev03 : evolves [rp; lp] [] b0 b3).
  { eapply (ev_fresh _ [lR; rR]); [|by intros x [->|[->|[]%not_elem_of_nil]%elem_of_cons]%elem_of_cons; right].
    eapply evolves_step; [eapply evolves_weaken; [|eapply evolves_step; [exact Hev|eapply evolves_step; [exact Hev1|exact Hev2]]]|exact Hev3].
    by intros ? ?%not_elem_of_nil. }
  eexists b1, b2, b3, _, _. split; [done|]. split; [done|]. split; [done|]. split; [done|]. split; [congruence|].
  split; [rewrite Hrf3, Hr2, Hr1, Hr; rewrite (insert_insert_ne _ rR lR) by (by apply not_eq_sym);
    rewrite insert_insert_eq; rewrite (insert_insert_ne _ lR rR) by done; by rewrite insert_insert_eq|].
  split; [done|]. split; [done|]. rewrite <- Hpm1, <- Hpm2, <- Hpm3 in Hl, Hrr.
  assert (Hids : Forall2 (fun r c => idOf b3 r = Some c) crs cs).
  { eapply Forall2_impl; [apply Hi|]. intros x c. by apply (ev_id _ _ _ _ x c Hev03). }
  split; (eapply half_inner; [exact Hi|exact Hev03|cbn; set_solver|split; [done|by left]|done|done|done| |]).
  - by apply Forall2_take.
  - apply sublist_take.
  - by apply Forall2_drop.
  - apply sublist_drop.
Qed.

(** ** Replacing a part of the tree *)

Lemma node_key_small s id ks cs k : node_list s id ks cs -> k ∈ ks -> zlen k < 2 ^ 31.
Proof.
  intros (d & es & Hok & _ & -> & _) (kc & -> & Hin)%list_elem_of_fmap. pose proof (data_size_le _ _ _ _ _ Hok) as Hd.
  pose proof (po_fit _ _ _ _ _ _ (proj1 Hok)). pose proof (zlen_nonneg es).
  apply list_elem_of_lookup in Hin as [i Hi]. rewrite <- (take_drop_middle es i kc Hi), data_size_app in Hd.
  pose proof (data_size_nonneg (entry := index_entry) (take i es)).
  pose proof (data_size_nonneg (entry := index_entry) (drop (S i) es)).
  cbn [data_size] in Hd. change (entry_size kc) with (zlen kc.1) in Hd. off_lia.
Qed.
Lemma leaf_key_small s id es k : leaf_list s id es -> k ∈ es.*1 -> zlen k < 2 ^ 31.
Proof.
  intros [[d Hok] _] (kv & -> & Hin)%list_elem_of_fmap. pose proof (page_sizes _ _ _ _ Hok) as H.
  rewrite Forall_forall in H. specialize (H kv Hin). unfold leaf_size in H. pose proof (zlen_nonneg kv.2). lia.
Qed.

(** The node of frame [f] with its child split into [A] and [B]. *)
Definition fill_two (f : frame) (sep : bytes) (A B : tree) : tree :=
  TNode (f_ref f) (insert_at (f_idx f) sep (f_ks f)) (f_l f ++ A :: B :: f_r f).

Lemma flat_fill_two f sep A B :
  frame_wf f -> flat (fill_two f sep A B) = frame_pre f ++ flat A ++ ISep sep :: flat B ++ frame_post f.
Proof.
  unfold frame_wf. intros Hwf. unfold fill_two, frame_pre, frame_post, insert_at, f_idx. cbn [flat].
  rewrite fmap_app, !fmap_cons. assert (Hlt : length (take (length (f_l f)) (f_ks f)) = length (f_l f)) by (rewrite length_take; lia).
  rewrite between_hole by (rewrite length_app, length_fmap; cbn [length]; rewrite length_fmap, length_drop; lia).
  rewrite length_fmap, take_app_length', drop_app_length' by done. done.
Qed.

Lemma height_fill_two f sep A B t :
  (height A <= height t -> height B <= height t -> height (fill_two f sep A B) <= height (fill f t))%nat.
Proof.
  intros HA HB. unfold fill_two, fill. rewrite !height_node, !heights_app, !heights_cons. lia.
Qed.

Lemma nodes_fill_two f sep A B :
  nodes (fill_two f sep A B) ≡ₚ nodes A ++ nodes B ++
    (f_ref f, SNode (insert_at (f_idx f) sep (f_ks f)) ((troot <$> f_l f) ++ troot A :: troot B :: (troot <$> f_r f))) :: frame_rest f.
Proof.
  unfold fill_two, frame_rest. cbn [nodes]. rewrite !fmap_app, !fmap_cons, join_app. cbn [mjoin list_join].
  generalize (f_ref f, SNode (insert_at (f_idx f) sep (f_ks f)) ((troot <$> f_l f) ++ troot A :: troot B :: (troot <$> f_r f))) as n.
  intros n. rewrite <- Permutation_middle, <- Permutation_middle. apply Permutation_cons; [done|].
  rewrite (Permutation_app_comm (mjoin (nodes <$> f_l f))), <- !app_assoc. do 2 apply Permutation_app_head.
  apply Permutation_app_comm.
Qed.

Lemma split_child_hole f h a b :
  split_child (f_idx f) a b ((troot <$> f_l f) ++ h :: (troot <$> f_r f)) = (troot <$> f_l f) ++ a :: b :: (troot <$> f_r f).
Proof.
  unfold split_child, f_idx. assert (Hl : length (f_l f) = length (troot <$> f_l f)) by (by rewrite length_fmap).
  rewrite Hl at 1. rewrite take_app_length. f_equal. f_equal. f_equal. rewrite <- Nat.add_1_r, Hl.
  by rewrite drop_app_add.
Qed.

(** The new subtree [t'] has the root of [t], other old references of [t], and
    new ones. *)
Lemma tree_subst news D b b' fs t t' :
  Forall (node_ok b) (ctx_nodes fs (troot t)) -> NoDup (trefs (plug fs t)) -> troot (plug fs t) = rootRef ->
  evolves news D b b' -> troot t' = troot t -> Forall (node_ok b') (nodes t') -> NoDup (trefs t') ->
  (forall r, r ∈ trefs t' -> r ∈ trefs t \/ refs b !! r = None) ->
  (forall r, r ∈ D -> r ∉ (ctx_nodes fs (troot t)).*1) ->
  ordered (flat (plug fs t')) -> tree_ok b' (plug fs t').
Proof.
  intros Hc Hn Hr Hev Hroot Hn' Hnd' Hin Hd Ho. constructor; try done.
  - apply Hev.
  - by rewrite (troot_plug_same fs t' t).
  - rewrite nodes_plug, Hroot. apply Forall_app. split; [done|]. eapply nodes_ev; [exact Hev|done|]. intros r Hr1 Hr2.
    by apply (Hd r).
  - rewrite trefs_plug in Hn |- *. rewrite Hroot. apply NoDup_app in Hn as (_ & Hx & Hnc). apply NoDup_app.
    split; [done|]. split; [|done]. intros r Hr1 Hr2. destruct (Hin r Hr1) as [Ht|E]; [by apply (Hx r)|].
    apply list_elem_of_fmap in Hr2 as (n & -> & Hn2). rewrite Forall_forall in Hc. destruct (Hc n Hn2) as (p & Hp & _). congruence.
Qed.

(** ** Splitting an internal node *)

Definition halfL (lR : Z) (mid : nat) (ks : list bytes) (ts : list tree) : tree := TNode lR (take mid ks) (take (S mid) ts).
Definition halfR (rR : Z) (mid : nat) (ks : list bytes) (ts : list tree) : tree := TNode rR (drop (S mid) ks) (drop (S mid) ts).

Lemma flat_halves r ks ts mid k lR rR :
  length ts = S (length ks) -> ks !! mid = Some k ->
  flat (halfL lR mid ks ts) ++ ISep k :: flat (halfR rR mid ks ts) = flat (TNode r ks ts).
Proof.
  intros Hl Hk. unfold halfL, halfR. cbn [flat]. pose proof (lookup_lt_Some _ _ _ Hk).
  rewrite <- between_split.
  - rewrite (take_drop_middle ks mid k Hk), <- fmap_app, take_drop. done.
  - rewrite length_fmap, !length_take. lia.
  - intros E. apply (f_equal length) in E. rewrite length_fmap, length_drop in E. cbn in E. lia.
Qed.

Lemma height_halves lR rR mid r ks ts :
  (height (halfL lR mid ks ts) <= height (TNode r ks ts))%nat /\ (height (halfR rR mid ks ts) <= height (TNode r ks ts))%nat.
Proof.
  unfold halfL, halfR. rewrite !height_node. pose proof (heights_app (take (S mid) ts) (drop (S mid) ts)) as H.
  rewrite take_drop in H. lia.
Qed.

Lemma nodes_halves lR rR mid ks ts :
  nodes (halfL lR mid ks ts) ++ nodes (halfR rR mid ks ts) ≡ₚ
    (lR, SNode (take mid ks) (troot <$> take (S mid) ts)) :: (rR, SNode (drop (S mid) ks) (troot <$> drop (S mid) ts)) ::
    mjoin (nodes <$> ts).
Proof.
  assert (mjoin (nodes <$> ts) = mjoin (nodes <$> take (S mid) ts) ++ mjoin (nodes <$> drop (S mid) ts)) as ->
    by (by rewrite <- join_app, <- fmap_app, take_drop).
  unfold halfL, halfR. cbn [nodes].
  cbn [app]. apply Permutation_cons; [done|]. by rewrite <- Permutation_middle.
Qed.

(** What the tree says about the node at the focus and its parent. *)
Lemma focus_nodes b fs t :
  tree_ok b (plug fs t) ->
  Forall (node_ok b) (nodes t) /\ Forall (node_ok b) (ctx_nodes fs (troot t)) /\
  NoDup (trefs t) /\ (forall r, r ∈ trefs t -> r ∉ (ctx_nodes fs (troot t)).*1).
Proof.
  intros Ht. pose proof (t_nodes _ _ Ht) as Hn. pose proof (t_nodup _ _ Ht) as Hd.
  rewrite nodes_plug in Hn. rewrite trefs_plug in Hd. apply Forall_app in Hn as [H1 H2]. apply NoDup_app in Hd as (H3 & H4 & _).
  done.
Qed.

Lemma focus_frame b fs f t :
  tree_ok b (plug fs (fill f t)) ->
  node_ok b (frame_node f (troot t)) /\ Forall (node_ok b) (nodes t) /\ Forall (node_ok b) (frame_rest f) /\
  (f_ref f ∉ trefs t) /\ NoDup (trefs t) /\ NoDup (f_ref f :: (frame_rest f).*1) /\
  (forall r, r ∈ trefs t -> r ∉ (frame_rest f).*1) /\ frame_wf f.
Proof.
  intros Ht. destruct (focus_nodes _ _ _ Ht) as (Hn & _ & Hd & _). unfold trefs in Hd. rewrite nodes_fill in Hn, Hd.
  apply Forall_app in Hn as [Hn1 [Hn2 Hn3]%Forall_cons]. rewrite fmap_app in Hd. apply NoDup_app in Hd as (Hd1 & Hx & Hd2).
  split_and!; try done.
  - intros Hin. apply (Hx _ Hin). by left.
  - intros r Hr Hr2. apply (Hx _ Hr). by right.
  - by eapply frame_node_wf.
Qed.

(** The context of the focus [t] keeps its nodes while [t] is replaced, below
    the frame [f], by [A] and [B]. *)
Lemma tree_two news D b b' fs f t sep A B pp' csn :
  Forall (node_ok b) (ctx_nodes (f :: fs) (troot t)) -> NoDup (trefs (plug (f :: fs) t)) ->
  troot (plug (f :: fs) t) = rootRef -> evolves news D b b' -> (forall r, r ∈ D -> r = f_ref f \/ r ∈ trefs t) ->
  Forall (node_ok b') (nodes A ++ nodes B) -> NoDup ((nodes A ++ nodes B).*1) ->
  (forall x, x ∈ (nodes A ++ nodes B).*1 -> x ∈ trefs t \/ refs b !! x = None) ->
  refs b' !! f_ref f = Some pp' ->
  inner_at b' pp' (insert_at (f_idx f) sep (f_ks f)) ((troot <$> f_l f) ++ troot A :: troot B :: (troot <$> f_r f)) csn ->
  ordered (flat (plug fs (fill_two f sep A B))) ->
  tree_ok b' (plug fs (fill_two f sep A B)).
Proof.
  intros Hc Hn Hr Hev HD Hok Hnd Hin Hpp Hi Ho. cbn [ctx_nodes] in Hc.
  apply Forall_cons in Hc as [(p & Hp & _) [Hrest Hc]%Forall_app].
  assert (Hn2 := Hn). rewrite trefs_plug in Hn2. cbn [ctx_nodes] in Hn2. rewrite fmap_cons, fmap_app in Hn2.
  apply NoDup_app in Hn2 as (_ & Hdis & [Hfr Hn2]%NoDup_cons). apply NoDup_app in Hn2 as (Hndr & Hx & _).
  assert (Hsome : forall x, x ∈ (frame_rest f).*1 -> is_Some (refs b !! x)).
  { intros x (n & -> & Hin')%list_elem_of_fmap. rewrite Forall_forall in Hrest.
    destruct (Hrest n Hin') as (q & Hq & _). by exists q. }
  assert (HDx : forall x, x ∈ D -> x ∉ (frame_rest f).*1 ++ (ctx_nodes fs (f_ref f)).*1).
  { intros x [->|Ht]%HD Hx'; [by apply Hfr|]. apply (Hdis x Ht). by right. }
  apply (tree_subst news D b b' fs (fill f t)); try done.
  - rewrite nodes_fill_two, app_assoc. apply Forall_app. split; [done|]. constructor; [exists pp'; split; [done|by eexists]|].
    eapply nodes_ev; [exact Hev|done|]. intros x Hx1 Hx2. apply (HDx x Hx2), elem_of_app. by left.
  - unfold trefs. rewrite nodes_fill_two, app_assoc, fmap_app, fmap_cons. cbn [fst]. apply NoDup_app.
    split; [done|]. split; [|constructor; [|done]]; [|intros H; apply Hfr, elem_of_app; by left].
    intros x [Ht|E]%Hin [->|Hx2]%elem_of_cons.
    + apply (Hdis _ Ht). by left.
    + apply (Hdis _ Ht). right. apply elem_of_app. by left.
    + cbn in Hp. congruence.
    + destruct (Hsome x Hx2). congruence.
  - intros x. unfold trefs. rewrite nodes_fill_two, nodes_fill, app_assoc, !fmap_app, !fmap_cons. cbn [fst].
    rewrite elem_of_app. intros [Hx1|Hx1]; [|left; rewrite elem_of_app; by right].
    rewrite <- fmap_app in Hx1. destruct (Hin x Hx1) as [|]; [left; rewrite elem_of_app; by left|by right].
  - intros x Hx1 Hx2. apply (HDx x Hx1), elem_of_app. by right.
Qed.

Lemma trefs_nodup r ks ts :
  NoDup (trefs (TNode r ks ts)) -> (r ∉ (mjoin (nodes <$> ts)).*1) /\ NoDup ((mjoin (nodes <$> ts)).*1).
Proof. by intros [? ?]%NoDup_cons. Qed.

(** The halves of the node at the focus. *)
Lemma halves_nodes news D b b' r ks ts mid k lR rR pl pr cl cr :
  Forall (node_ok b) (nodes (TNode r ks ts)) -> NoDup (trefs (TNode r ks ts)) -> evolves news D b b' ->
  (forall x, x ∈ (mjoin (nodes <$> ts)).*1 -> x ∉ D) -> ks !! mid = Some k ->
  refs b !! lR = None -> refs b !! rR = None -> lR <> rR ->
  refs b' !! lR = Some pl -> inner_at b' pl (take mid ks) (troot <$> take (S mid) ts) cl ->
  refs b' !! rR = Some pr -> inner_at b' pr (drop (S mid) ks) (troot <$> drop (S mid) ts) cr ->
  let A := halfL lR mid ks ts in let B := halfR rR mid ks ts in
  Forall (node_ok b') (nodes A ++ nodes B) /\ NoDup ((nodes A ++ nodes B).*1) /\
  (forall x, x ∈ (nodes A ++ nodes B).*1 -> x ∈ (mjoin (nodes <$> ts)).*1 \/ refs b !! x = None) /\
  flat A ++ ISep k :: flat B = flat (TNode r ks ts).
Proof.
  intros Hn Hnd Hev HD Hk HlR HrR Hne Hpl Hil Hpr Hir A B. apply trefs_nodup in Hnd as [_ Hnd].
  apply Forall_cons in Hn as [(p & _ & cs & Hi) Hn].
  assert (Hfresh : forall x, refs b !! x = None -> x ∉ (mjoin (nodes <$> ts)).*1).
  { intros x Hx (n & -> & Hin)%list_elem_of_fmap. rewrite Forall_forall in Hn. destruct (Hn n Hin) as (q & Hq & _). congruence. }
  split; [|split; [|split]].
  - unfold A, B. rewrite nodes_halves. constructor; [exists pl; split; [done|by eexists]|].
    constructor; [exists pr; split; [done|by eexists]|]. by eapply nodes_ev.
  - unfold A, B. rewrite nodes_halves, !fmap_cons. cbn [fst]. constructor; [|constructor; [by apply Hfresh|done]].
    intros [->|H]%elem_of_cons; [done|]. by apply (Hfresh lR).
  - intros x. unfold A, B. rewrite nodes_halves, !fmap_cons, !elem_of_cons. cbn [fst]. intros [->|[->|H]]; auto.
  - apply flat_halves; [|done]. destruct (inner_lengths _ _ _ _ _ Hi) as [H _]. by rewrite length_fmap in H.
Qed.

Lemma split_published news b b' fs f r ks ts mid k lR rR pl pr pp' cl cr csn :
  tree_ok b (plug fs (fill f (TNode r ks ts))) -> evolves news [f_ref f; r] b b' -> ks !! mid = Some k ->
  refs b !! lR = None -> refs b !! rR = None -> lR <> rR ->
  refs b' !! lR = Some pl -> inner_at b' pl (take mid ks) (troot <$> take (S mid) ts) cl ->
  refs b' !! rR = Some pr -> inner_at b' pr (drop (S mid) ks) (troot <$> drop (S mid) ts) cr ->
  refs b' !! f_ref f = Some pp' ->
  inner_at b' pp' (insert_at (f_idx f) k (f_ks f)) ((troot <$> f_l f) ++ lR :: rR :: (troot <$> f_r f)) csn ->
  let t' := plug fs (fill_two f k (halfL lR mid ks ts) (halfR rR mid ks ts)) in
  tree_ok b' t' /\ flat t' = flat (plug fs (fill f (TNode r ks ts))).
Proof.
  intros Ht Hev Hk HlR HrR Hne Hpl Hil Hpr Hir Hpp Hip t'.
  destruct (focus_frame _ _ _ _ Ht) as (_ & Hn & _ & Hfr & Hnd & _ & _ & Hwf).
  destruct (halves_nodes news [f_ref f; r] b b' r ks ts mid k lR rR pl pr cl cr) as (H1 & H2 & H3 & Hfl); try done.
  { apply trefs_nodup in Hnd as [Hrn _]. intros x Hx. rewrite !elem_of_cons. intros [->|[->|[]%not_elem_of_nil]]; [by apply Hfr; right|done]. }
  assert (Hflat : flat t' = flat (plug fs (fill f (TNode r ks ts)))).
  { destruct (focus_nodes _ _ _ Ht) as (_ & Hctx & _). unfold t'. rewrite !flat_plug by (by eapply ctx_wf).
    f_equal. f_equal. rewrite flat_fill_two, flat_fill, <- Hfl by done. by rewrite <- (app_assoc (flat (halfL _ _ _ _))). }
  split; [|exact Hflat]. pose proof (focus_nodes b (f :: fs) _ Ht) as (_ & Hctx & _).
  apply (tree_two news [f_ref f; r] b b' fs f (TNode r ks ts) k _ _ pp' csn); try done.
  - apply Ht.
  - apply Ht.
  - intros x [->|[->|[]%not_elem_of_nil]%elem_of_cons]%elem_of_cons; [by left|right; by left].
  - intros x [Hx|Hx]%H3; [left|by right]. unfold trefs. cbn [nodes]. by right.
  - change (ordered (flat t')). rewrite Hflat. apply Ht.
Qed.

(** A new root over two subtrees. *)
Lemma root_published news D b b' k A B p' cs :
  evolves news D b b' -> refs b' !! rootRef = Some p' ->
  inner_at b' p' [k] [troot A; troot B] cs -> Forall (node_ok b') (nodes A ++ nodes B) ->
  NoDup ((nodes A ++ nodes B).*1) -> rootRef ∉ (nodes A ++ nodes B).*1 ->
  ordered (flat A ++ ISep k :: flat B) -> 
  tree_ok b' (TNode rootRef [k] [A; B]) /\ flat (TNode rootRef [k] [A; B]) = flat A ++ ISep k :: flat B.
Proof.
  intros Hev Hp Hi Hn Hnd Hr Ho.
  assert (Hnodes : nodes (TNode rootRef [k] [A; B]) = (rootRef, SNode [k] [troot A; troot B]) :: nodes A ++ nodes B).
  { cbn. by rewrite app_nil_r. }
  assert (Hflat : flat (TNode rootRef [k] [A; B]) = flat A ++ ISep k :: flat B).
  { cbn. unfold after. cbn. by rewrite app_nil_r. }
  split; [|done]. constructor; try done.
  - apply Hev.
  - rewrite Hnodes. constructor; [exists p'; split; [done|by eexists]|done].
  - unfold trefs. rewrite Hnodes, fmap_cons. by constructor.
  - by rewrite Hflat.
Qed.

(** *** The code of a split *)

Lemma cleanup_ret {A} ids (m : stM BTree A) b b' a : m b = (b', Ret a) -> cleanup ids m b = (b', Ret a).
Proof. unfold cleanup. by intros ->. Qed.

(** Releases pages the operation allocated. *)
Lemma drop_pages {A} e ids : forall news D b b1,
  heap_ok b -> evolves (ids ++ news) D b b1 ->
  exists s, foldr (fun id (k : stM BTree A) => _ ← dropFreePage id; k) (failS e) ids b1 = (with_pm s b1, Fail e) /\
    evolves news D b (with_pm s b1).
Proof.
  induction ids as [|id ids IH]; intros news D b b1 Hb Hev.
  { exists (pm b1). cbn. assert (with_pm (pm b1) b1 = b1) as -> by (by destruct b1). done. }
  destruct (dropFreePage_ok id (ids ++ news) D b b1 Hb Hev) as (s & E & Hev' & _).
  destruct (IH news D b _ Hb Hev') as (s' & E' & Hev''). exists s'. cbn [foldr].
  rewrite (stM_bind_ret _ _ _ _ _ E). done.
Qed.

Lemma cleanup_fail {A} ids (m : stM BTree A) news D b0 b b1 e :
  heap_ok b0 -> m b = (b1, Fail e) -> evolves (ids ++ news) D b0 b1 ->
  exists s, cleanup ids m b = (with_pm s b1, Fail e) /\ evolves news D b0 (with_pm s b1).
Proof.
  intros Hh Em Hev. unfold cleanup. rewrite Em. by apply drop_pages.
Qed.

Lemma retire_off ids b : epochOn b = false -> retirePages ids b = (b, Ret tt).
Proof. intros E. unfold retirePages, modifyS. by rewrite E. Qed.

Lemma onErr_pm {A} (m : stM PageManager A) h b s o :
  m (pm b) = (s, o) -> onErr (onPM m) h b = (with_pm s b, match o with Fail e => Fail (h e) | o => o end).
Proof. intros E. unfold onErr, onPM. rewrite E. by destruct o. Qed.

Lemma node_split_cases b p ks crs cs h :
  heap_ok b -> inner_at b p ks crs cs -> 1 < avail (pm b) ->
  (exists lp rp k s mid, onErr (onPM (Node.Split (page p))) h b = (with_pm s b, Ret (lp, rp, k)) /\
     evolves [rp; lp] [] b (with_pm s b) /\ ks !! mid = Some k /\
     node_list s lp (take mid ks) (take (S mid) cs) /\ node_list s rp (drop (S mid) ks) (drop (S mid) cs)) \/
  (exists s e, onErr (onPM (Node.Split (page p))) h b = (with_pm s b, Fail e) /\ evolves [] [] b (with_pm s b)).
Proof.
  intros Hh Hi Hav. pose proof (ia_list _ _ _ _ _ Hi) as Hl. pose proof (h_pm _ Hh) as Hpm.
  assert (Hcs : Forall (fun c => c <> 0 /\ c <> page p) cs).
  { pose proof (ia_cs _ _ _ _ _ Hi) as H. rewrite Forall_forall in H. apply Forall_forall. intros c Hc.
    split; [by apply H|]. intros ->. by apply (ia_self _ _ _ _ _ Hi). }
  destruct (decide (3 <= length ks)%nat) as [H3|H3]; [left|right].
  - destruct (node_Split_ok _ _ _ _ Hpm (ia_live _ _ _ _ _ Hi) Hl Hav H3 Hcs) as (lp & rp & k & s & E & Hk & Hg & Hnl & Hnr).
    exists lp, rp, k, s, (length ks / 2)%nat. rewrite (onErr_pm _ _ _ _ _ E). split; [done|]. split; [by apply ev_pages|]. done.
  - destruct (decide (length ks = 2%nat)) as [H2|H2].
    + destruct (node_Split_two _ _ _ _ Hpm (ia_live _ _ _ _ _ Hi) Hl Hav H2 Hcs) as (s & E & Hg).
      eexists s, _. rewrite (onErr_pm _ _ _ _ _ E). split; [done|]. by apply ev_pages.
    + assert (E : Node.Split (page p) (pm b) = (pm b, Fail Node.errNodeSplitMinKeys)).
      { unfold Node.Split. rewrite stM_bind_get, (proj1 (node_count _ _ _ _ Hl)).
        cbv zeta. by rewrite (proj2 (Z.ltb_lt _ _)) by (unfold zlen; lia). }
      eexists (pm b), _. rewrite (onErr_pm _ _ _ _ _ E). split; [done|]. apply ev_pages; [done|by apply grew_refl].
Qed.

(** The parent's page with the child [i] replaced by [lp] and [rp]. *)
Lemma insert_child_cases b p ks crs cs i id sep lp rp h :
  heap_ok b -> inner_at b p ks crs cs -> cs !! i = Some id -> new_child b cs lp -> new_child b cs rp ->
  keys_sorted (insert_at i sep ks) -> zlen sep < 2 ^ 31 -> 0 < avail (pm b) ->
  (exists new s, onErr (onPM (Node.InsertChild (page p) (Z.of_nat i) sep lp rp)) h b = (with_pm s b, Ret new) /\
     evolves [new] [] b (with_pm s b) /\ node_list s new (insert_at i sep ks) (split_child i lp rp cs)) \/
  (exists s e, onErr (onPM (Node.InsertChild (page p) (Z.of_nat i) sep lp rp)) h b = (with_pm s b, Fail e) /\
     evolves [] [] b (with_pm s b)).
Proof.
  intros Hh Hi Hid Hlc Hrc Hs Hsz Hav. destruct (inner_lengths _ _ _ _ _ Hi) as (_ & Hlen & _).
  pose proof (lookup_lt_Some _ _ _ Hid) as Hlt.
  assert (Hu : forall c, new_child b cs c -> is_u32 c /\ c <> 0).
  { intros c (H0 & H1 & _). split; [|done]. pose proof (live_u32 _ _ Hh H1). unfold is_u32. lia. }
  pose proof (InsertChild_ok (pm b) (page p) ks cs i sep lp rp (h_pm _ Hh) (ia_live _ _ _ _ _ Hi) (ia_list _ _ _ _ _ Hi)
    Hav ltac:(lia) (Hu _ Hlc) (Hu _ Hrc) Hsz Hs) as HI.
  destruct (decide _) as [Hfit|Hfull]; [left|right].
  - destruct HI as (new & s & E & Hg & Hn). exists new, s. rewrite (onErr_pm _ _ _ _ _ E). split; [done|]. split; [by apply ev_pages|done].
  - destruct HI as (s & E & Hg). eexists s, _. rewrite (onErr_pm _ _ _ _ _ E). split; [done|]. by apply ev_pages.
Qed.

Lemma new_half b0 b news cs q : heap_ok b0 -> evolves news [] b0 b -> q ∈ news ->
  Forall (fun c => c <> 0 /\ live (pm b0) c) cs -> new_child b cs q.
Proof.
  intros Hh Hev Hq Hcs. destruct (gr_fresh _ _ _ (ev_pm _ _ _ _ Hev) q Hq) as [Hnl _]. split_and!.
  - intros ->. apply Hnl, Hh.
  - by eapply ev_new.
  - intros Hc. rewrite Forall_forall in Hcs. by apply Hnl, Hcs.
Qed.

Lemma insertHalves_ok b0 b r p ks crs cs mid lp rp k pr pp fks fcrs fcs i dflt
    (lR := nextRef b0) (rR := nextRef b0 + 1) :
  heap_ok b0 -> refs b0 !! r = Some p -> inner_at b0 p ks crs cs -> ks !! mid = Some k ->
  refs b0 !! pr = Some pp -> inner_at b0 pp fks fcrs fcs -> fcs !! i = Some (pageID p) ->
  evolves [rp; lp] [] b0 b -> refs b = refs b0 -> nextRef b = nextRef b0 ->
  node_list (pm b) lp (take mid ks) (take (S mid) cs) -> node_list (pm b) rp (drop (S mid) ks) (drop (S mid) cs) ->
  keys_sorted (insert_at i k fks) -> 0 < avail (pm b) ->
  (exists b' b3 pl prr new newInfo, insertHalves r pr dflt lp rp k b = (b', Ret (lR, rR, pInfo pp, new, newInfo, true)) /\
     evolves [rp; lp] [] b0 b3 /\ evolves [new] [pr] b3 b' /\
     refs b3 = <[rR := prr]> (<[lR := pl]> (refs b0)) /\ refs b' = <[pr := set_pInfo newInfo pp]> (refs b3) /\
     pageID pl = lp /\ pageID prr = rp /\ PageID newInfo = new /\ quiet newInfo /\ IsLeafInfo newInfo = false /\
     inner_at b3 pl (take mid ks) (take (S mid) crs) (take (S mid) cs) /\
     inner_at b3 prr (drop (S mid) ks) (drop (S mid) crs) (drop (S mid) cs) /\
     inner_at b3 pp fks fcrs fcs /\
     node_list (pm b') new (insert_at i k fks) (split_child i lp rp fcs)) \/
  (exists b' e, insertHalves r pr dflt lp rp k b = (b', Fail e) /\ evolves [rp; lp] [] b0 b').
Proof.
  intros Hh Hp Hi Hk Hpp Hip Hid Hev Hr Hn Hl Hrr Hs Hav.
  destruct (split_halves b0 b r p ks crs cs mid lp rp Hh Hp Hi (lookup_lt_Some _ _ _ Hk) Hev Hr Hn Hl Hrr)
    as (b1 & b2 & b3 & pl & prr & E1 & E2 & E3 & Hev3 & Hpm3 & Hr3 & Hidl & Hidr & Hil & Hir).
  unfold insertHalves. rewrite (stM_bind_ret _ _ _ _ _ E1), (stM_bind_ret _ _ _ _ _ E2), (stM_bind_ret _ _ _ _ _ E3).
  pose proof (ev_heap _ _ _ _ Hev3) as Hh3.
  assert (Hpp3 : refs b3 !! pr = Some pp) by (by rewrite (ev_untouched _ _ _ _ _ _ Hev3 Hpp) by (by intros ?%not_elem_of_nil)).
  assert (Hp3 : refs b3 !! r = Some p) by (by rewrite (ev_untouched _ _ _ _ _ _ Hev3 Hp) by (by intros ?%not_elem_of_nil)).
  pose proof (inner_at_ev _ _ _ _ _ _ _ _ Hev3 Hip) as Hip3.
  rewrite (stM_bind_ret _ _ _ _ _ (GetPageInfo_ok b3 pr pp Hpp3)).
  rewrite (stM_bind_ret _ _ _ _ _ (onErr_ret _ _ _ _ _ (GetNodePage_ok b3 (page pp) fks fcs Hh3 (ia_live _ _ _ _ _ Hip3) (ia_list _ _ _ _ _ Hip3)))).
  rewrite (stM_bind_ret _ _ _ _ _ (deref_ok b3 r p Hp3)).
  rewrite (stM_bind_ret _ _ _ _ _ (actualIndex_ok b3 (page pp) fks fcs (pageID p) dflt i (ia_list _ _ _ _ _ Hip3) (ia_nodup _ _ _ _ _ Hip3) Hid)).
  rewrite stM_bind_get, (proj2 (node_count _ _ _ _ (ia_list _ _ _ _ _ Hip3))).
  rewrite (proj2 (Z.leb_gt _ _)) by (apply lookup_lt_Some in Hid; unfold zlen; lia).
  assert (Hnc : forall q, q ∈ [rp; lp] -> new_child b3 fcs q).
  { intros q Hq. eapply new_half; [exact Hh|exact Hev3|done|apply Hip]. }
  destruct (insert_child_cases b3 pp fks fcrs fcs i (pageID p) k lp rp (wrapAs "btree: handleInternalSplit insert child")
    Hh3 Hip3 Hid (Hnc lp ltac:(set_solver)) (Hnc rp ltac:(set_solver)) Hs) as [(new & s & E & Hev4 & Hnl)|(s & e & E & Hev4)].
  { eapply node_key_small; [apply Hi|by eapply list_elem_of_lookup_2]. }
  { by rewrite Hpm3. }
  - left. rewrite (stM_bind_ret _ _ _ _ _ E). set (b4 := with_pm s b3) in *.
    destruct (swap_info b4 pr pp (pInfo pp) new (u64 (Version (pInfo pp) + 1)) false None false (State (pInfo pp))
      (ev_heap _ _ _ _ Hev4) Hpp3 eq_refl) as (b5 & b6 & E5 & E6 & Hev6 & Hr6 & Hpm6 & _).
    rewrite (stM_bind_ret _ _ _ _ _ E5), (stM_bind_ret _ _ _ _ _ E6).
    eexists b6, b3, pl, prr, new, _. split; [reflexivity|]. split_and!; try done.
    + eapply evolves_step; [|exact Hev6]. eapply evolves_weaken; [|exact Hev4]. by intros ? ?%not_elem_of_nil.
    + split; [done|apply (ia_quiet _ _ _ _ _ Hip)].
    + by rewrite Hpm6.
  - right. rewrite (stM_bind_fail _ _ _ _ _ E). eexists _, _. split; [done|]. by eapply evolves_step.
Qed.

Lemma redirectSplit_ok b r p pr pp ks crs cs lR rR k i :
  heap_ok b -> refs b !! r = Some p -> refs b !! pr = Some pp -> r <> pr -> children pp = Some (mkCache crs ks) ->
  Forall2 (fun r c => idOf b r = Some c) crs cs -> NoDup cs -> cs !! i = Some (pageID p) ->
  exists b' p', redirectSplit r (pInfo p) pr lR rR k b = (b', Ret tt) /\ evolves [] [pr; r] b b' /\ pm b' = pm b /\
    refs b' = <[pr := set_children (Some (mkCache (split_child i lR rR crs) (insert_at i k ks))) pp]> (<[r := p']> (refs b)).
Proof.
  intros Hh Hp Hpp Hne Hc H2 Hnd Hi. unfold redirectSplit.
  destruct (swap_info b r p (pInfo p) (PageID (pInfo p)) (u64 (Version (pInfo p) + 1)) true (Some lR) (IsLeafInfo (pInfo p))
    NodeRedirect Hh Hp eq_refl) as (b1 & b2 & E1 & E2 & Hev2 & Hr2 & Hpm2 & _).
  rewrite (stM_bind_ret _ _ _ _ _ E1), (stM_bind_ret _ _ _ _ _ E2). set (p' := set_pInfo _ p) in *.
  assert (Hp2 : refs b2 !! r = Some p') by (by rewrite Hr2, lookup_insert_eq).
  assert (Hpp2 : refs b2 !! pr = Some pp) by (by rewrite Hr2, lookup_insert_ne).
  rewrite (stM_bind_ret _ _ _ _ _ (deref_ok b2 r p' Hp2)).
  assert (H22 : Forall2 (fun r c => idOf b2 r = Some c) crs cs).
  { eapply Forall2_impl; [exact H2|]. intros x c. by apply (ev_id _ _ _ _ x c Hev2). }
  rewrite (updateChildrenCache_ok b2 pr pp ks crs cs (pageID p') lR rR k i Hpp2 Hc H22 Hnd Hi).
  eexists _, p'. split; [reflexivity|]. split; [|split; [done|by rewrite (refs_store b2 pr pp), Hr2]].
  eapply evolves_step; [eapply evolves_weaken; [|exact Hev2]; set_solver|].
  eapply evolves_weaken; [|apply (ev_store b2 pr pp); [apply Hev2|done|done|]]; [set_solver|].
  exact (proj2 (h_refs _ (ev_heap _ _ _ _ Hev2) _ _ Hpp2)).
Qed.

(** ** A new root *)

Lemma AllocNodePage_ok b :
  heap_ok b -> 0 < avail (pm b) ->
  exists b' q c, AllocNodePage b = (b', Ret q) /\ evolves [q] [] b b' /\ refs b' = refs b /\ nextRef b' = nextRef b /\
    node_list (pm b') q [] [c].
Proof.
  intros Hh Hav. destruct (grew_alloc [] _ _ (grew_refl _ (h_pm _ Hh)) Hav) as (q & s1 & E1 & Hg1 & _).
  destruct (gr_fresh _ _ _ Hg1 q ltac:(by left)) as [Hnl _].
  destruct (fresh_index s1 q 1 [] (pm b) Hg1 Hnl) as (s2 & E2 & Hg2 & Hix & _).
  unfold AllocNodePage, storageCheckOpen. rewrite <- stM_bind_assoc, stM_bind_get, (h_storage _ Hh).
  rewrite (stM_bind_ret _ _ b b tt eq_refl). rewrite (stM_bind_ret _ _ _ _ _ (onErr_pm Alloc _ b s1 (Ret q) E1)).
  rewrite (stM_bind_ret _ _ _ (with_pm s2 b) tt) by (unfold onPM; cbn [pm with_pm]; by rewrite E2).
  unfold addDirty. rewrite stM_bind_modify. eexists _, q, _. split; [reflexivity|].
  pose proof (ev_pages [q] s2 b Hh Hg2) as Hev. split; [|split; [done|split; [done|]]].
  - eapply evolves_step; [exact Hev|]. apply ev_same; try done. apply Hev.
  - exists 0, []. split; [exact Hix|]. split; [constructor|]. done.
Qed.

(** A root page with the children [lp] and [rp]: a blank page and its copy. *)
Lemma new_root_page b lp rp k :
  heap_ok b -> live (pm b) lp -> lp <> 0 -> live (pm b) rp -> rp <> 0 -> zlen k < 2 ^ 31 -> 1 < avail (pm b) ->
  exists b1 q, AllocNodePage b = (b1, Ret q) /\ evolves [q] [] b b1 /\ refs b1 = refs b /\ nextRef b1 = nextRef b /\
    GetNodePage q b1 = (b1, Ret q) /\
    ((exists s new, Node.InsertChild q 0 k lp rp (pm b1) = (s, Ret new) /\ evolves [new; q] [] b (with_pm s b1) /\
        node_list s new [k] [lp; rp]) \/
     (exists s e, Node.InsertChild q 0 k lp rp (pm b1) = (s, Fail e) /\ hard e /\ evolves [q] [] b (with_pm s b1))).
Proof.
  intros Hh Hl Hl0 Hr Hr0 Hk Hav.
  destruct (AllocNodePage_ok b Hh ltac:(lia)) as (b1 & q & c & E & Hev & Hrefs & Hnr & Hn). exists b1, q.
  pose proof (ev_heap _ _ _ _ Hev) as Hh1. assert (Hlq : live (pm b1) q) by (eapply ev_new; [exact Hev|by left]).
  split; [done|]. split; [done|]. split; [done|]. split; [done|]. split; [by eapply GetNodePage_ok|].
  assert (Hu : forall x, live (pm b) x -> x <> 0 -> is_u32 x /\ x <> 0).
  { intros x Hx Hx0. split; [|done]. pose proof (live_u32 _ _ Hh Hx). unfold is_u32. lia. }
  pose proof (InsertChild_ok (pm b1) q [] [c] 0 k lp rp (h_pm _ Hh1) Hlq Hn) as HI.
  rewrite (ev_avail _ _ _ _ Hev) in HI. specialize (HI ltac:(unfold zlen; cbn [length]; lia) ltac:(cbn; lia) (Hu _ Hl Hl0) (Hu _ Hr Hr0) Hk
    ltac:(repeat constructor)). destruct (decide _); [left|right].
  - destruct HI as (new & s & E2 & Hg & Hn2). exists s, new. split; [done|]. split; [|exact Hn2].
    apply (evolves_trans [q] [new] [] b b1); [done|by apply ev_pages].
  - destruct HI as (s & E2 & Hg). eexists s, _. split; [done|]. split; [by apply hard_Wrap|].
    apply (evolves_trans [q] [] [] b b1); [done|by apply ev_pages].
Qed.

Lemma root_inner b p new k lR rR lp rp :
  quiet (pInfo p) -> IsLeafInfo (pInfo p) = false -> live (pm b) (page p) -> children p = Some (mkCache [lR; rR] [k]) ->
  node_list (pm b) (page p) [k] [lp; rp] -> page p = new -> new <> lp -> new <> rp -> lp <> rp ->
  idOf b lR = Some lp -> idOf b rR = Some rp -> lp <> 0 /\ live (pm b) lp -> rp <> 0 /\ live (pm b) rp ->
  inner_at b p [k] [lR; rR] [lp; rp].
Proof.
  intros Hq Hf Hl Hc Hn <- H1 H2 H3 Hi1 Hi2 Hp1 Hp2. constructor; try done.
  - by repeat constructor.
  - repeat (constructor; [set_solver|]). constructor.
  - set_solver.
  - constructor; [done|]. constructor; [done|constructor].
Qed.

Lemma ReplaceRoot_ok b p old v new cache :
  heap_ok b -> refs b !! rootRef = Some p -> i_addr (pInfo p) = i_addr old ->
  let info := mkPageInfo (nextInfo b) new v false None false NodeRoot in
  exists b1 b' p', newPageInfo new v false None false NodeRoot b = (b1, Ret info) /\
    ReplaceRoot old info cache b1 = (b', Ret true) /\ evolves [] [rootRef] b b' /\ pm b' = pm b /\
    refs b' = <[rootRef := p']> (refs b) /\ pInfo p' = info /\ children p' = Some cache /\ pageID p' = pageID p /\
    nextInfo b' = nextInfo b + 1.
Proof.
  intros Hh Hp Ha info.
  destruct (swap_info b rootRef p old new v false None false NodeRoot Hh Hp Ha) as (b1 & b2 & E1 & E2 & Hev & Hr & Hpm & _ & Hni).
  fold info in E1, E2, Hr. set (p2 := set_pInfo info p) in *.
  assert (Hp2 : refs b2 !! rootRef = Some p2) by (by rewrite Hr, lookup_insert_eq).
  exists b1, (storeRef rootRef (set_children (Some cache)) b2), (set_children (Some cache) p2). split; [done|].
  unfold ReplaceRoot. rewrite (stM_bind_ret _ _ _ _ _ E2). split; [done|]. split; [|split; [done|]].
  - eapply evolves_step; [exact Hev|]. apply (ev_store b2 rootRef p2); [apply Hev|done|done|].
    exact (proj2 (h_refs _ (ev_heap _ _ _ _ Hev) _ _ Hp2)).
  - split; [|done]. by rewrite (refs_store b2 rootRef p2), Hr, insert_insert_eq.
Qed.

(** ** The cascade of internal splits *)

(** The outcome of a restructuring: the tree still holds the same list of keys
    and is at most one level higher; only references [D] and new ones were
    touched, at most [c] pages are new. *)
Definition restructured {A} (c : Z) (b0 : BTree) (t0 : tree) (D : list Z) (res : BTree * outcome A) : Prop :=
  exists b' o t' news, res = (b', o) /\ o <> Panic /\ tree_ok b' t' /\ flat t' = flat t0 /\ evolves news D b0 b' /\
    (height t' <= S (height t0))%nat /\ zlen news <= c.

Lemma restructured_same {A} c b0 b t0 news D (o : outcome A) :
  tree_ok b0 t0 -> evolves news [] b0 b -> o <> Panic -> zlen news <= c -> restructured c b0 t0 D (b, o).
Proof.
  intros Ht Hev Ho Hc. exists b, o, t0, news. split_and!; try done; [| |lia]; [|eapply evolves_weaken; [|exact Hev]; by intros ? ?%not_elem_of_nil].
  eapply tree_ev; [exact Hev|done|]. by intros ? _ ?%not_elem_of_nil.
Qed.

Lemma restructured_cleanup {A B} c b0 b b1 t0 ids news D (m : stM BTree A) (f : A -> stM BTree B) e :
  tree_ok b0 t0 -> m b = (b1, Fail e) -> evolves (ids ++ news) [] b0 b1 -> zlen news <= c ->
  restructured c b0 t0 D ((x ← cleanup ids m; f x) b).
Proof.
  intros Ht Em Hev Hc. destruct (cleanup_fail ids m news [] b0 b b1 e (t_heap _ _ Ht) Em Hev) as (s & Ec & Hev').
  rewrite (stM_bind_fail _ _ _ _ _ Ec). by eapply restructured_same.
Qed.

Lemma publishInternalRoot_ok b0 D rest b p lp rp lR rR k q new :
  heap_ok b0 -> evolves (q :: rest) D b0 b -> rootRef ∈ D -> refs b !! rootRef = Some p ->
  exists b' p', publishInternalRoot rootRef (pInfo p) lp rp lR rR k q new b = (b', Ret tt) /\
    evolves rest D b0 b' /\ (forall x, x <> q -> same_bytes (pm b) (pm b') x) /\
    refs b' = <[rootRef := p']> (refs b) /\ quiet (pInfo p') /\ IsLeafInfo (pInfo p') = false /\ page p' = new /\
    children p' = Some (mkCache [lR; rR] [k]).
Proof.
  intros Hh0 Hev HD Hp. pose proof (ev_heap _ _ _ _ Hev) as Hh. unfold publishInternalRoot.
  destruct (ReplaceRoot_ok b p (pInfo p) (u64 (Version (pInfo p) + 1)) new (mkCache [lR; rR] [k]) Hh Hp eq_refl)
    as (b1 & b2 & p' & E1 & E2 & Hev2 & Hpm2 & Hr2 & Hi2 & Hc2 & _ & Hn2).
  rewrite (stM_bind_ret _ _ _ _ _ E1), (stM_bind_ret _ _ _ _ _ E2). cbn [negb].
  pose proof (ev_heap _ _ _ _ Hev2) as Hh2. rewrite (stM_bind_ret _ _ _ _ _ (retire_off _ b2 (h_epoch _ Hh2))).
  unfold newPageInfo at 1. erewrite stM_bind_ret by reflexivity.
  set (b3 := with_nextInfo (nextInfo b2 + 1) b2). assert (Hp3 : refs b3 !! rootRef = Some p') by (cbn; by rewrite Hr2, lookup_insert_eq).
  assert (Hne : i_addr (pInfo p') <> i_addr (pInfo p)).
  { rewrite Hi2. cbn. pose proof (h_refs _ Hh _ _ Hp). lia. }
  rewrite (stM_bind_ret _ _ _ _ _ (CAS_stale b3 rootRef p' (pInfo p) _ Hp3 Hne)).
  assert (Hev3 : evolves (q :: rest) D b0 b3).
  { eapply evolves_step; [exact Hev|]. eapply evolves_step; [eapply evolves_weaken; [|exact Hev2]|].
    - intros x [->|[]%not_elem_of_nil]%elem_of_cons. exact HD.
    - eapply evolves_weaken; [|apply (ev_info _ b2 Hh2); lia]. by intros ? ?%not_elem_of_nil. }
  destruct (dropFreePage_ok q rest D b0 b3 Hh0 Hev3) as (s & E & Hev4 & Hb). exists (with_pm s b3), p'. split; [done|].
  split; [done|]. split; [intros x Hx; specialize (Hb x Hx); cbn in Hb; by rewrite Hpm2 in Hb|]. split; [done|].
  rewrite Hi2. split_and!; try done; [split; [done|by right]|]. unfold page. by rewrite Hi2.
Qed.

Lemma rootInternalSplit_ok b0 b p ks ts cs mid k lp rp (t0 := TNode rootRef ks ts) :
  tree_ok b0 t0 -> refs b0 !! rootRef = Some p -> inner_at b0 p ks (troot <$> ts) cs -> ks !! mid = Some k ->
  evolves [rp; lp] [] b0 b -> refs b = refs b0 -> nextRef b = nextRef b0 ->
  node_list (pm b) lp (take mid ks) (take (S mid) cs) -> node_list (pm b) rp (drop (S mid) ks) (drop (S mid) cs) ->
  1 < avail (pm b) -> restructured 3 b0 t0 [rootRef] (handleRootInternalSplit rootRef (pInfo p) lp rp k b).
Proof.
  intros Ht Hp Hi Hk Hev Hr Hn Hl Hrr Hav. pose proof (t_heap _ _ Ht) as Hh.
  destruct (split_halves b0 b rootRef p ks _ cs mid lp rp Hh Hp Hi (lookup_lt_Some _ _ _ Hk) Hev Hr Hn Hl Hrr)
    as (b1 & b2 & b3 & pl & pr & E1 & E2 & E3 & Hev3 & Hpm3 & Hr3 & Hidl & Hidr & Hil & Hir).
  set (lR := nextRef b0) in *. set (rR := lR + 1) in *. pose proof (ev_heap _ _ _ _ Hev3) as Hh3.
  assert (Hnc : forall q, q ∈ [rp; lp] -> new_child b3 cs q) by (intros q Hq; eapply new_half; [exact Hh|exact Hev3|done|apply Hi]).
  destruct (Hnc lp ltac:(set_solver)) as (Hlp0 & Hlpl & _). destruct (Hnc rp ltac:(set_solver)) as (Hrp0 & Hrpl & _).
  assert (Hksz : zlen k < 2 ^ 31) by (eapply node_key_small; [apply Hi|by eapply list_elem_of_lookup_2]).
  unfold handleRootInternalSplit. rewrite (stM_bind_ret _ _ _ _ _ E1), (stM_bind_ret _ _ _ _ _ E2), (stM_bind_ret _ _ _ _ _ E3).
  destruct (new_root_page b3 lp rp k Hh3 Hlpl Hlp0 Hrpl Hrp0 Hksz ltac:(rewrite Hpm3; lia))
    as (b4 & q & E4 & Hev4 & Hr4 & Hn4 & Eg & [(s & new & E5 & Hev5 & Hnl)|(s & e & E5 & _ & Hev5)]).
  all: rewrite (stM_bind_ret _ _ _ _ _ (cleanup_ret _ _ _ _ _ (onErr_ret _ _ _ _ _ E4))).
  2: { eapply (restructured_cleanup 3 b0 _ (with_pm s b4) t0 [lp; rp; q] []); [done| | |done].
       - rewrite (stM_bind_ret _ _ _ _ _ (onErr_ret _ _ _ _ _ Eg)). by rewrite (onErr_pm _ _ _ _ _ E5).
       - eapply evolves_perm; [|eapply evolves_trans; [exact Hev3|exact Hev5]]. cbn. solve_Permutation. }
  erewrite stM_bind_ret.
  2: { apply cleanup_ret. rewrite (stM_bind_ret _ _ _ _ _ (onErr_ret _ _ _ _ _ Eg)). by rewrite (onErr_pm _ _ _ _ _ E5). }
  set (b5 := with_pm s b4) in *. assert (Hp5 : refs b5 !! rootRef = Some p).
  { cbn. rewrite Hr4. by rewrite (ev_untouched _ _ _ _ _ _ Hev3 Hp) by (by intros ?%not_elem_of_nil). }
  destruct (publishInternalRoot_ok b3 [rootRef] [new] b5 p lp rp lR rR k q new Hh3) as
    (b6 & p' & E6 & Hev6 & Hb6 & Hr6 & Hq & Hf & Hpg & Hc); [|by left|done|].
  { eapply evolves_weaken; [|eapply evolves_perm; [|exact Hev5]]; [by intros ? ?%not_elem_of_nil|solve_Permutation]. }
  assert (HlR : refs b0 !! lR = None) by (by apply heap_fresh).
  assert (HrR : refs b0 !! rR = None) by (by apply heap_fresh_next).
  assert (Hroot : lR <> rootRef /\ rR <> rootRef /\ lR <> rR) by (split_and!; [intros Ex; congruence..|lia]).
  destruct Hroot as (HlR0 & HrR0 & HlrR).
  assert (Hpl : refs b6 !! lR = Some pl) by (rewrite Hr6, lookup_insert_ne by done; cbn; by rewrite Hr4, Hr3, lookup_insert_ne, lookup_insert_eq).
  assert (Hpr : refs b6 !! rR = Some pr) by (rewrite Hr6, lookup_insert_ne by done; cbn; by rewrite Hr4, Hr3, lookup_insert_eq).
  assert (Hev06 : evolves ([new] ++ [rp; lp]) [rootRef] b0 b6).
  { eapply evolves_trans; [|exact Hev6]. eapply evolves_weaken; [|exact Hev3]. by intros ? ?%not_elem_of_nil. }
  destruct (gr_fresh _ _ _ (ev_pm _ _ _ _ Hev5) new ltac:(by left)) as [Hnnew _].
  assert (new <> q) by (pose proof (gr_nodup _ _ _ (ev_pm _ _ _ _ Hev5)) as [H _]%NoDup_cons; set_solver).
  rewrite <- fmap_take in Hil. rewrite <- fmap_drop in Hir.
  pose proof (focus_nodes b0 [] t0 Ht) as (Hn0 & _ & Hd0 & _).
  edestruct (halves_nodes ([new] ++ [rp; lp]) [rootRef] b0 b6 rootRef ks ts mid k lR rR pl pr) as (H1 & H2 & H3 & H4);
    [exact Hn0|exact Hd0|exact Hev06| |done..|eapply inner_at_ev; [exact Hev6|exact Hil]|done|eapply inner_at_ev; [exact Hev6|exact Hir]|].
  { apply trefs_nodup in Hd0 as [Hrn _]. intros x Hx [->|[]%not_elem_of_nil]%elem_of_cons. done. }
  assert (lp <> rp) by (pose proof (gr_nodup _ _ _ (ev_pm _ _ _ _ Hev3)) as [H' _]%NoDup_cons; set_solver).
  destruct (root_published ([new] ++ [rp; lp]) [rootRef] b0 b6 k (halfL lR mid ks ts) (halfR rR mid ks ts) p' [lp; rp] Hev06) as [Hok Hfl]; try done.
  - by rewrite Hr6, lookup_insert_eq.
  - apply (root_inner b6 p' new); try done; try (by rewrite Hpg).
    + rewrite Hpg. eapply ev_new; [exact Hev06|set_solver].
    + rewrite Hpg. eapply bytes_node; [by apply Hb6|exact Hnl].
    + by intros ->.
    + by intros ->.
    + change (idOf b6 lR = Some lp). unfold idOf. by rewrite Hpl, <- Hidl.
    + change (idOf b6 rR = Some rp). unfold idOf. by rewrite Hpr, <- Hidr.
    + split; [done|]. eapply ev_live; [exact Hev6|done].
    + split; [done|]. eapply ev_live; [exact Hev6|done].
  - intros [Hx|Hx]%H3; [|congruence]. by apply trefs_nodup in Hd0 as [Hrn _].
  - rewrite H4. apply Ht.
  - eexists b6, (Ret tt), _, _. rewrite E6. split_and!; [done..|exact Hok|by rewrite Hfl, H4|exact Hev06| |done].
    destruct (height_halves lR rR mid rootRef ks ts). unfold t0. rewrite (height_node rootRef [k]), !heights_cons.
    change (heights []) with 0%nat. lia.
Qed.

Lemma restructured_trans {A} c b0 b1 t0 t1 D D' news (res : BTree * outcome A) :
  flat t1 = flat t0 -> evolves news D b0 b1 -> (forall r, r ∈ D' -> r ∈ D) -> (height t1 <= height t0)%nat ->
  restructured c b1 t1 D' res -> restructured (zlen news + c) b0 t0 D res.
Proof.
  intros Hf Hev HD Hh (b' & o & t' & n' & -> & Ho & Ht & Hf' & Hev' & Hht & Hc). exists b', o, t', (n' ++ news).
  split_and!; try done; [congruence| |lia|rewrite zlen_app; lia].
  eapply evolves_trans; [exact Hev|]. by eapply evolves_weaken.
Qed.

Lemma path_lookup f fs sfx : ((entryOf <$> rev (f :: fs)) ++ sfx) !! length fs = Some (entryOf f).
Proof.
  cbn [rev]. rewrite fmap_app, <- app_assoc. rewrite lookup_app_r; rewrite length_fmap, length_rev; [|done].
  by rewrite Nat.sub_diag.
Qed.

(** The child in the hole of a frame. *)
Lemma frame_child b f r p pp csf :
  inner_at b pp (f_ks f) ((troot <$> f_l f) ++ r :: (troot <$> f_r f)) csf -> refs b !! r = Some p ->
  csf !! f_idx f = Some (pageID p).
Proof.
  intros Hip Hp. destruct (Forall2_lookup_l _ _ _ (f_idx f) r (ia_ids _ _ _ _ _ Hip)) as (c & Hc & Hcr).
  { unfold f_idx. rewrite <- (length_fmap troot). by apply list_lookup_middle. }
  unfold idOf in Hcr. rewrite Hp in Hcr. cbn in Hcr. congruence.
Qed.

(** One level: the node [r] below the frame [f] is split. *)
Lemma level_ok b0 b f fs r p ks ts cs mid k lp rp (t0 := plug fs (fill f (TNode r ks ts))) pp :
  tree_ok b0 t0 -> refs b0 !! r = Some p -> inner_at b0 p ks (troot <$> ts) cs -> ks !! mid = Some k ->
  refs b0 !! f_ref f = Some pp ->
  evolves [rp; lp] [] b0 b -> refs b = refs b0 -> nextRef b = nextRef b0 ->
  node_list (pm b) lp (take mid ks) (take (S mid) cs) -> node_list (pm b) rp (drop (S mid) ks) (drop (S mid) cs) ->
  0 < avail (pm b) ->
  (exists b1 b2 new newInfo lR rR t1 p2, insertHalves r (f_ref f) (Z.of_nat (f_idx f)) lp rp k b =
      (b1, Ret (lR, rR, pInfo pp, new, newInfo, true)) /\
     epochOn b1 = false /\ redirectSplit r (pInfo p) (f_ref f) lR rR k b1 = (b2, Ret tt) /\
     t1 = plug fs (TNode (f_ref f) (insert_at (f_idx f) k (f_ks f)) (f_l f ++ halfL lR mid ks ts :: halfR rR mid ks ts :: f_r f)) /\
     tree_ok b2 t1 /\ flat t1 = flat t0 /\ (height t1 <= height t0)%nat /\ evolves [new; rp; lp] [f_ref f; r] b0 b2 /\
     refs b2 !! f_ref f = Some p2 /\ pInfo p2 = newInfo) \/
  (exists b' e, insertHalves r (f_ref f) (Z.of_nat (f_idx f)) lp rp k b = (b', Fail e) /\ evolves [rp; lp] [] b0 b').
Proof.
  intros Ht Hp Hi Hk Hpp Hev Hr Hn Hl Hrr Hav. pose proof (t_heap _ _ Ht) as Hh.
  destruct (focus_frame _ _ _ _ Ht) as ((pp' & Hpp' & csf & Hip) & _ & _ & Hfr & _ & _ & _ & Hwf).
  cbn [fst snd frame_node] in Hpp', Hip. rewrite Hpp in Hpp'. injection Hpp' as <-.
  pose proof (frame_child _ _ _ _ _ _ Hip Hp) as Hid.
  assert (Hsorted : keys_sorted (insert_at (f_idx f) k (f_ks f))).
  { pose proof (t_ordered _ _ Ht) as Ho. destruct (focus_nodes _ _ _ Ht) as (_ & Hctx & _).
    unfold t0 in Ho. rewrite flat_plug in Ho by (by eapply ctx_wf). apply ordered_app in Ho as (_ & (Ho & _)%ordered_app & _).
    rewrite flat_fill in Ho by done. destruct (inner_lengths _ _ _ _ _ Hi) as [Hlen _]. rewrite length_fmap in Hlen.
    rewrite <- (flat_halves r ks ts mid k 0 0 Hlen Hk), <- app_assoc in Ho. cbn [app] in Ho.
    rewrite <- (flat_fill_two f k) in Ho by done. apply between_sorted in Ho; [done|].
    rewrite length_fmap, length_app. cbn [length]. rewrite insert_at_length by (unfold frame_wf, f_idx in *; lia).
    unfold frame_wf in Hwf. lia. }
  assert (Hne : r <> f_ref f) by (intros ->; apply Hfr; by left).
  destruct (insertHalves_ok b0 b r p ks _ cs mid lp rp k (f_ref f) pp (f_ks f) _ csf (f_idx f) (Z.of_nat (f_idx f))
    Hh Hp Hi Hk Hpp Hip Hid Hev Hr Hn Hl Hrr Hsorted Hav) as [(b1 & b3 & pl & pr & new & ni & E1 & Hev3 & Hev1 & Hr3 & Hr1 &
      Hidl & Hidr & Hpg & Hq & Hf & Hil & Hir & Hip3 & Hnl)|(b' & e & E & Hev')]; [left|by right; exists b', e].
  set (lR := nextRef b0) in *. set (rR := lR + 1) in *. set (pp1 := set_pInfo ni pp) in *.
  assert (HlR : refs b0 !! lR = None) by (by apply heap_fresh).
  assert (HrR : refs b0 !! rR = None) by (by apply heap_fresh_next).
  assert (HlrR : lR <> rR) by lia.
  assert (Hnew : forall x q, refs b0 !! x = Some q -> x <> lR /\ x <> rR) by (intros x q Hx; split; intros ->; congruence).
  assert (Hpl3 : refs b3 !! lR = Some pl) by (by rewrite Hr3, lookup_insert_ne, lookup_insert_eq).
  assert (Hpr3 : refs b3 !! rR = Some pr) by (by rewrite Hr3, lookup_insert_eq).
  assert (Hp1 : refs b1 !! r = Some p).
  { destruct (Hnew _ _ Hp). by rewrite Hr1, lookup_insert_ne, Hr3, !lookup_insert_ne by done. }
  assert (Hpp1 : refs b1 !! f_ref f = Some pp1) by (by rewrite Hr1, lookup_insert_eq).
  assert (Hids : Forall2 (fun r c => idOf b1 r = Some c) ((troot <$> f_l f) ++ r :: (troot <$> f_r f)) csf).
  { eapply Forall2_impl; [apply Hip3|]. intros x c. by apply (ev_id _ _ _ _ x c Hev1). }
  destruct (redirectSplit_ok b1 r p (f_ref f) pp1 (f_ks f) _ csf lR rR k (f_idx f) (ev_heap _ _ _ _ Hev1) Hp1 Hpp1 Hne
    (ia_cache _ _ _ _ _ Hip) Hids (ia_nodup _ _ _ _ _ Hip) Hid) as (b2 & p' & E2 & Hev2 & Hpm2 & Hr2).
  set (p2 := set_children _ pp1) in *. assert (Hp2 : refs b2 !! f_ref f = Some p2) by (by rewrite Hr2, lookup_insert_eq).
  assert (Hev32 : evolves [new] [f_ref f; r] b3 b2) by (eapply evolves_step; [eapply evolves_weaken; [|exact Hev1]; set_solver|exact Hev2]).
  assert (Hev02 : evolves [new; rp; lp] [f_ref f; r] b0 b2).
  { eapply (evolves_trans [rp; lp] [new]); [|exact Hev32]. eapply evolves_weaken; [|exact Hev3]. by intros ? ?%not_elem_of_nil. }
  assert (Hnc : forall q, q ∈ [rp; lp] -> new_child b3 csf q) by (intros q Hq'; eapply new_half; [exact Hh|exact Hev3|done|apply Hip]).
  assert (Hlr : lp <> rp) by (pose proof (gr_nodup _ _ _ (ev_pm _ _ _ _ Hev3)) as [H' _]%NoDup_cons; set_solver).
  assert (Hip2 : inner_at b2 p2 (insert_at (f_idx f) k (f_ks f)) ((troot <$> f_l f) ++ lR :: rR :: (troot <$> f_r f))
    (split_child (f_idx f) lp rp csf)).
  { rewrite <- (split_child_hole f r). eapply (inner_insert [new] _ b3 b2 pp p2); [exact Hip3|exact Hev32|..]; try done.
    - unfold page. cbn. rewrite Hpg. apply (gr_fresh _ _ _ (ev_pm _ _ _ _ Hev32)). by left.
    - unfold page. cbn. rewrite Hpg. eapply ev_new; [exact Hev32|by left].
    - rewrite Hpm2. unfold page. cbn. by rewrite Hpg.
    - apply Hnc. set_solver.
    - apply Hnc. set_solver.
    - unfold idOf. by rewrite Hpl3, <- Hidl.
    - unfold idOf. by rewrite Hpr3, <- Hidr. }
  assert (Hkeep : forall x q, refs b3 !! x = Some q -> x <> f_ref f -> x <> r -> refs b2 !! x = Some q).
  { intros x q Hx ? ?. by rewrite Hr2, !lookup_insert_ne, Hr1, lookup_insert_ne by done. }
  rewrite <- fmap_take in Hil. rewrite <- fmap_drop in Hir. destruct (Hnew _ _ Hp), (Hnew _ _ Hpp).
  destruct (split_published [new; rp; lp] b0 b2 fs f r ks ts mid k lR rR pl pr p2 (take (S mid) cs) (drop (S mid) cs) _
    Ht Hev02 Hk HlR HrR HlrR (Hkeep lR pl Hpl3 ltac:(done) ltac:(done)) (inner_at_ev _ _ _ _ _ _ _ _ Hev32 Hil)
    (Hkeep rR pr Hpr3 ltac:(done) ltac:(done)) (inner_at_ev _ _ _ _ _ _ _ _ Hev32 Hir) Hp2 Hip2) as [Hok Hfl].
  eexists b1, b2, new, ni, lR, rR, _, p2. split; [exact E1|]. split; [apply (h_epoch _ (ev_heap _ _ _ _ Hev1))|].
  split; [exact E2|]. split; [reflexivity|]. split; [exact Hok|]. split; [exact Hfl|]. split; [|done].
  destruct (height_halves lR rR mid r ks ts). by apply (height_plug_mono fs), height_fill_two.
Qed.

(** [handleInternalSplit] from the node [r] below the frames [fs]: the keys stay
    as they are, whether or not it gets all the way up. *)
Lemma internal_split_ok : forall fs b0 r ks ts p sfx (t0 := plug fs (TNode r ks ts)),
  tree_ok b0 t0 -> refs b0 !! r = Some p -> 3 * Z.of_nat (length fs) + 3 < avail (pm b0) ->
  restructured (3 * Z.of_nat (length fs) + 3) b0 t0 (r :: (f_ref <$> fs))
    (handleInternalSplit ((entryOf <$> rev fs) ++ sfx) (length fs) r (pInfo p) b0).
Proof.
  induction fs as [|f fs IH]; intros b0 r ks ts p sfx t0 Ht Hp Hav; pose proof (t_heap _ _ Ht) as Hh.
  all: destruct (focus_nodes _ _ _ Ht) as (Hn & _); cbn [nodes] in Hn; apply Forall_cons in Hn as [(p' & Hp' & cs & Hi) _].
  all: cbn [fst snd] in Hp', Hi; rewrite Hp in Hp'; injection Hp' as <-.
  all: cbn [length handleInternalSplit].
  all: rewrite (stM_bind_ret _ _ _ _ _ (onErr_ret _ _ _ _ _ (GetNodePage_ok b0 (page p) ks cs Hh (ia_live _ _ _ _ _ Hi) (ia_list _ _ _ _ _ Hi)))).
  all: destruct (node_split_cases b0 p ks (troot <$> ts) cs (wrapAs "btree: handleInternalSplit split node") Hh Hi) as
    [(lp & rp & k & s & mid & E & Hev & Hk & Hl & Hr)|(s & e & E & Hev)]; [lia| |].
  2, 4: rewrite (stM_bind_fail _ _ _ _ _ E); eapply restructured_same; [done..|unfold zlen; cbn [length]; lia].
  all: rewrite (stM_bind_ret _ _ _ _ _ E).
  - assert (r = rootRef) as -> by exact (t_root _ _ Ht).
    eapply rootInternalSplit_ok; try done. rewrite (ev_avail _ _ _ _ Hev). unfold zlen. cbn [length] in *. lia.
  - rewrite path_lookup. cbn [Ref Index entryOf].
    destruct (focus_frame _ _ _ _ Ht) as ((pp & Hpp & _) & _). cbn [fst frame_node] in Hpp.
    destruct (level_ok b0 (with_pm s b0) f fs r p ks ts cs mid k lp rp pp Ht Hp Hi Hk Hpp Hev eq_refl eq_refl Hl Hr)
      as [(b1 & b2 & new & ni & lR & rR & t1 & p2 & E1 & Hep & E2 & -> & Ht1 & Hf1 & Hh1 & Hev1 & Hp2 & Hi2)|(b' & e & E1 & Hev1)].
    { rewrite (ev_avail _ _ _ _ Hev). unfold zlen. cbn [length] in *. lia. }
    2: { eapply (restructured_cleanup _ b0 _ b' t0 [lp; rp] []); [done|exact E1| |unfold zlen; cbn [length]; lia].
         eapply evolves_perm; [|exact Hev1]. solve_Permutation. }
    rewrite (stM_bind_ret _ _ _ _ _ (cleanup_ret _ _ _ _ _ E1)). cbn [negb].
    rewrite (stM_bind_ret _ _ _ _ _ (retire_off _ b1 Hep)), (stM_bind_ret _ _ _ _ _ E2), stM_bind_get.
    destruct (negb _).
    + eexists b2, (Ret tt), _, [new; rp; lp]. split_and!; [done..|exact Ht1|exact Hf1| |exact (Nat.le_le_succ_r _ _ Hh1)|unfold zlen; cbn [length]; lia]. eapply evolves_weaken; [|exact Hev1]. set_solver.
    + rewrite <- Hi2. replace (3 * Z.of_nat (S (length fs)) + 3) with (zlen [new; rp; lp] + (3 * Z.of_nat (length fs) + 3))
        by (unfold zlen; cbn [length]; lia).
      eapply (restructured_trans _ b0 b2 t0); [exact Hf1| | |exact Hh1|].
      * eapply evolves_weaken; [|exact Hev1]. set_solver.
      * intros x Hx. right. exact Hx.
      * cbn [rev]. rewrite fmap_app, <- app_assoc. apply (IH b2 (f_ref f) _ _ p2); [done|done|].
        rewrite (ev_avail _ _ _ _ Hev1). unfold zlen. cbn [length] in *. lia.
Qed.
