(* ===== verification/TreeLeafSplit.v ===== *)
(** * Splits of a leaf

    A full leaf is split and the half for the key mutated; the parent's page
    and cache take the two new children, the old leaf redirects.  The map
    changes as the leaf does, or the write fails and the map stays. *)

From stdpp Require Import base list gmap sorting strings.
From Stdlib Require Import ZArith Lia.
From S2P Require Import Prelude MvccCodec OffHeap PageLayout LeafPage LeafMap NodePage NodeMap Merge BTree TreeOps TreeShape TreeInv TreeHeap TreeSplit.

Local Open Scope Z_scope.


(** ** Splitting a leaf *)

(** What the template needs of a function over a leaf: for a leaf whose value
    of [key] satisfies [Q], it makes a new page in which that value has become
    [o], the size changing by [d], as [P] says, or fails and leaves no page behind. *)
Definition mutation_ok (key : bytes) (Q : option bytes -> Prop) (P : option bytes -> option bytes -> Z -> Prop)
    (mutate : mutateFunc) : Prop :=
  forall b pg es (old := (list_to_map es : kvmap) !! key), heap_ok b -> live (pm b) pg -> leaf_list (pm b) pg es ->
  0 < avail (pm b) -> Q old ->
  (exists b' n d td es' o, mutate pg b = (b', Ret (cowMutation n d td)) /\
     evolves [n] [] b b' /\ refs b' = refs b /\ nextRef b' = nextRef b /\ leaf_list (pm b') n es' /\
     (list_to_map es' : kvmap) = partial_alter (fun _ => o) key (list_to_map es) /\
     (forall k, k ∈ es'.*1 -> k = key \/ k ∈ es.*1) /\ P old o d) \/
  (exists b' e, mutate pg b = (b', Fail e) /\ evolves [] [] b b' /\ refs b' = refs b /\ nextRef b' = nextRef b /\ hard e).

Lemma with_pm_id b : with_pm (pm b) b = b.
Proof. by destruct b. Qed.

Lemma tombstoneDelta_ok b0 b news D n td :
  heap_ok b0 -> evolves news D b0 b -> n ∈ news ->
  exists s, applyTombstoneDelta n td b = (with_pm s b, Ret tt) /\ evolves news D b0 (with_pm s b) /\
    forall q es, leaf_list (pm b) q es -> leaf_list s q es.
Proof.
  intros Hh0 Hev Hin. unfold applyTombstoneDelta. destruct (td =? 0).
  { exists (pm b). rewrite with_pm_id. done. }
  rewrite stM_bind_get. cbv zeta. set (v := u16 _). exists (setField n hTombstoneCount v (pm b)).
  split; [done|]. split.
  - destruct Hev as [Hpm Hr Hh Hn Hi Hz]. pose proof (gr_fresh _ _ _ Hpm n Hin) as [Hnl _].
    pose proof (grew_only _ _ _ _ _ Hpm (only_page_setField n hTombstoneCount v (pm b)) Hnl) as Hg.
    constructor; try done. destruct Hh as [Hok Hz0 ? ? ? ?].
    constructor; [apply Hg|apply (gr_live _ _ _ Hg); left; apply Hh0|done..].
  - intros q es [[d Hd] Hs]. split; [exists d|done]. destruct (decide (q = n)) as [->|Hne].
    + by apply page_ok_setField.
    + eapply page_ok_other; [apply only_page_setField|exact Hne|done].
Qed.

Lemma leaf_split_cases b pg es :
  heap_ok b -> live (pm b) pg -> leaf_list (pm b) pg es -> 1 < avail (pm b) ->
  (exists lp rp s el sep v er, onPM (Split pg) b = (with_pm s b, Ret (lp, rp, sep)) /\
     evolves [rp; lp] [] b (with_pm s b) /\ es = el ++ (sep, v) :: er /\ el <> [] /\
     leaf_list s lp el /\ leaf_list s rp ((sep, v) :: er)) \/
  (exists e, onPM (Split pg) b = (b, Fail e) /\ hard e).
Proof.
  intros Hh Hlive Hl Hav. destruct (ll_page _ _ _ Hl) as [d Hd]. pose proof (ll_sorted _ _ _ Hl) as Hs.
  destruct (decide (2 <= length es)%nat) as [H2|H2].
  - left. destruct (Split_ok (pm b) pg d es (h_pm _ Hh) Hlive Hd Hav H2) as (lp & rp & k & s & E & Hk & Hg & Hll & Hlr & _).
    rewrite list_lookup_fmap in Hk. destruct (es !! (length es / 2)%nat) as [[k' v]|] eqn:Ek; [|done]. injection Hk as ->.
    assert (Hlo : sublist 0 (length es / 2) es = take (length es / 2) es) by (unfold sublist; by rewrite drop_0, Nat.sub_0_r).
    assert (Hhi : sublist (length es / 2) (length es) es = (k, v) :: drop (S (length es / 2)) es).
    { unfold sublist. rewrite take_ge by (rewrite length_drop; lia). by rewrite (drop_S _ (k, v)). }
    exists lp, rp, s, (take (length es / 2) es), k, v, (drop (S (length es / 2)) es).
    split; [unfold onPM; by rewrite E|]. split; [by apply ev_pages|]. split; [by rewrite take_drop_middle|].
    split; [|split].
    + intros E0. apply (f_equal length) in E0. rewrite length_take in E0. cbn [length] in E0.
      assert (1 <= length es / 2)%nat by (apply Nat.div_le_lower_bound; lia). lia.
    + rewrite <- Hlo. by eapply leaf_list_sublist.
    + rewrite <- Hhi. by eapply leaf_list_sublist.
  - right. exists errSplitMinKeys. split; [|done]. unfold onPM, Split. rewrite stM_bind_get.
    unfold Count. rewrite (po_count _ _ _ _ _ _ (proj1 Hd)). cbv zeta.
    rewrite (proj2 (Z.ltb_lt _ _)) by (unfold zlen; lia). unfold failS. by rewrite with_pm_id.
Qed.

Lemma splitAndMutate_ok (key : bytes) (Q : option bytes -> Prop) (P : option bytes -> option bytes -> Z -> Prop) 
    (mutate : mutateFunc) (b : BTree) (pg : Z) (es : list (bytes * bytes)) (old := (list_to_map es : kvmap) !! key) :
  mutation_ok key Q P mutate -> heap_ok b -> live (pm b) pg -> leaf_list (pm b) pg es -> 2 < avail (pm b) -> Q old ->
  (exists b' lp rp sep n d td el v er es' o (goLeft := bool_decide (bytes_lt key sep))
      (half := if goLeft then el else (sep, v) :: er),
     splitAndMutate pg key mutate b = (b', Ret (lp, rp, sep, cowMutation n d td, goLeft)) /\
     evolves [n; rp; lp] [] b b' /\ refs b' = refs b /\ nextRef b' = nextRef b /\
     es = el ++ (sep, v) :: er /\ el <> [] /\ leaf_list (pm b') lp el /\ leaf_list (pm b') rp ((sep, v) :: er) /\
     leaf_list (pm b') n es' /\ (list_to_map es' : kvmap) = partial_alter (fun _ => o) key (list_to_map half) /\
     (forall k, k ∈ es'.*1 -> k = key \/ k ∈ half.*1) /\ P ((list_to_map half : kvmap) !! key) o d) \/
  (exists b' e, splitAndMutate pg key mutate b = (b', Fail e) /\ evolves [] [] b b' /\ hard e).
Proof.
  intros Hm Hh Hlive Hl Hav HQ. unfold splitAndMutate.
  destruct (leaf_split_cases b pg es Hh Hlive Hl ltac:(lia)) as
    [(lp & rp & s & el & sep & v & er & E & Hev & Hes & Hne & Hll & Hlr)|(e & E & He)].
  2: { right. exists b, e. rewrite (stM_bind_fail _ _ _ _ _ E). split; [done|]. split; [by apply ev_refl|done]. }
  rewrite (stM_bind_ret _ _ _ _ _ E). set (b1 := with_pm s b) in *. pose proof (ev_heap _ _ _ _ Hev) as Hh1.
  set (goLeft := bool_decide (bytes_lt key sep)).
  assert (match bytes_compare key sep with Lt => true | _ => false end = goLeft) as ->.
  { unfold goLeft. destruct (bytes_compare key sep) eqn:Ec; symmetry;
      (by apply bool_decide_eq_true_2) || (apply bool_decide_eq_false_2; unfold bytes_lt; congruence). }
  set (half := if goLeft then el else (sep, v) :: er). set (tgt := if goLeft then lp else rp).
  assert (Htgt : live (pm b1) tgt /\ leaf_list (pm b1) tgt half).
  { unfold tgt, half. destruct goLeft; (split; [eapply ev_new; [exact Hev|set_solver]|done]). }
  assert (Hold : (list_to_map half : kvmap) !! key = old).
  { unfold old, half, goLeft. rewrite Hes. apply half_lookup; [|done]. rewrite <- Hes. apply Hl. }
  rewrite <- Hold in HQ. destruct Htgt as [Htl Hth]. pose proof (ev_avail _ _ _ _ Hev) as Hav1.
  destruct (Hm b1 tgt half Hh1 Htl Hth ltac:(rewrite Hav1; unfold zlen; cbn [length]; lia) HQ) as
    [(b2 & n & dl & td & es' & o & E2 & Hev2 & Hr2 & Hn2 & Hln & Hmap & Hk & HP)|(b2 & e & E2 & Hev2 & _ & _ & He)].
  - left. pose proof (evolves_trans _ _ _ _ _ _ Hev Hev2) as Hev02. cbn [app] in Hev02.
    destruct (tombstoneDelta_ok b b2 [n; rp; lp] [] n td Hh Hev02 ltac:(by left)) as (s3 & E3 & Hev3 & Hkeep).
    exists (with_pm s3 b2), lp, rp, sep, n, dl, td, el, v, er, es', o.
    rewrite (stM_bind_ret _ _ b1 b2 (cowMutation n dl td)) by (by rewrite E2). cbn [inPlace newPageID tombstoneDelta cowMutation].
    rewrite (stM_bind_ret _ _ _ _ _ E3). split; [done|]. split; [done|]. split; [exact Hr2|]. split; [exact Hn2|].
    split; [done|]. split; [done|]. assert (Hold2 : forall q l, q ∈ [rp; lp] -> leaf_list s q l -> leaf_list s3 q l).
    { intros q l Hq Hlq. apply Hkeep. eapply grew_leaf; [apply (ev_pm _ _ _ _ Hev2)|by eapply ev_new|done]. }
    split; [apply Hold2; [set_solver|done]|]. split; [apply Hold2; [set_solver|done]|]. split; [by apply Hkeep|]. done.
  - right. destruct (dropFreePage_ok lp [rp] [] b b2 Hh) as (s3 & E3 & Hev3 & _).
    { eapply evolves_perm; [|eapply evolves_step; [exact Hev|exact Hev2]]. solve_Permutation. }
    destruct (dropFreePage_ok rp [] [] b _ Hh Hev3) as (s4 & E4 & Hev4 & _).
    eexists _, e. erewrite stM_bind_fail; [split; [reflexivity|split; [exact Hev4|done]]|].
    rewrite E2, (stM_bind_ret _ _ _ _ _ E3), (stM_bind_ret _ _ _ _ _ E4). done.
Qed.

(** The children of a leaf [es] split for [key]. *)
Lemma splitLeafChildren_ok (key : bytes) (Q : option bytes -> Prop) (P : option bytes -> option bytes -> Z -> Prop)
    (mutate : mutateFunc) (b : BTree) (pg : Z) (es : list (bytes * bytes)) (old := (list_to_map es : kvmap) !! key)
    (lR := nextRef b) (rR := nextRef b + 1) :
  mutation_ok key Q P mutate -> heap_ok b -> live (pm b) pg -> leaf_list (pm b) pg es -> 2 < avail (pm b) -> Q old ->
  (exists b' lc rc sep d el v er es' o pl pr (goLeft := bool_decide (bytes_lt key sep))
      (half := if goLeft then el else (sep, v) :: er),
     splitLeafChildren pg key mutate b = (b', Ret (lc, rc, lR, rR, sep, d)) /\
     evolves [rc; lc] [] b b' /\ refs b' = <[rR := pr]> (<[lR := pl]> (refs b)) /\ pageID pl = lc /\ pageID pr = rc /\
     es = el ++ (sep, v) :: er /\ el <> [] /\
     leaf_at b' pl (if goLeft then es' else el) /\ leaf_at b' pr (if goLeft then (sep, v) :: er else es') /\
     keys_sorted (es'.*1) /\ (list_to_map es' : kvmap) = partial_alter (fun _ => o) key (list_to_map half) /\
     (forall k, k ∈ es'.*1 -> k = key \/ k ∈ half.*1) /\ P ((list_to_map half : kvmap) !! key) o d) \/
  (exists b' e, splitLeafChildren pg key mutate b = (b', Fail e) /\ evolves [] [] b b' /\ hard e).
Proof.
  intros Hm Hh Hlive Hl Hav HQ. unfold splitLeafChildren.
  destruct (splitAndMutate_ok key Q P mutate b pg es Hm Hh Hlive Hl Hav HQ) as
    [(b1 & lp & rp & sep & n & d & td & el & v & er & es' & o & E & Hev & Hr & Hn & Hes & Hne & Hll & Hlr & Hln & Hmap & Hk & HP)
    |(b1 & e & E & Hev & He)]; [left|right].
  2: { exists b1, e. by rewrite (stM_bind_fail _ _ _ _ _ E). }
  rewrite (stM_bind_ret _ _ _ _ _ E). unfold finalPage, orphanOf. cbn [inPlace cowMutation newPageID delta].
  set (goLeft := bool_decide (bytes_lt key sep)) in *. set (lc := if goLeft then n else lp). set (rc := if goLeft then rp else n).
  set (orphan := if goLeft then lp else rp).
  destruct (NewPageRef_ok b1 lc 0 (ev_heap _ _ _ _ Hev)) as (b2 & E2 & Hev2 & Hr2 & Hpm2 & Hn2 & _).
  destruct (NewPageRef_ok b2 rc 0 (ev_heap _ _ _ _ Hev2)) as (b3 & E3 & Hev3 & Hr3 & Hpm3 & _).
  assert (HlR : nextRef b1 = lR) by exact Hn. assert (HrR : nextRef b2 = rR) by (rewrite Hn2, HlR; done).
  rewrite HlR in E2, Hr2. rewrite HrR in E3, Hr3. rewrite (stM_bind_ret _ _ _ _ _ E2), (stM_bind_ret _ _ _ _ _ E3).
  pose proof (evolves_step _ _ _ _ _ Hev (evolves_step _ _ _ _ _ Hev2 Hev3)) as Hev03.
  pose proof (gr_nodup _ _ _ (ev_pm _ _ _ _ Hev)) as Hnd.
  assert (Hor : [n; rp; lp] ≡ₚ [orphan; rc; lc] /\ orphan <> lc /\ orphan <> rc).
  { unfold orphan, lc, rc. rewrite !NoDup_cons, !elem_of_cons in Hnd. destruct goLeft; split; try solve_Permutation; set_solver. }
  destruct Hor as (Hperm & Ho1 & Ho2).
  assert (Hno : forall q, q ∈ [rc; lc] -> q <> orphan).
  { intros q [->|[->|[]%not_elem_of_nil]%elem_of_cons]%elem_of_cons; by apply not_eq_sym. }
  assert (Ho0 : orphan <> 0).
  { intros E0. destruct (gr_fresh _ _ _ (ev_pm _ _ _ _ Hev) orphan) as [Hnl _]; [rewrite Hperm; by left|].
    apply Hnl. rewrite E0. apply Hh. }
  rewrite (proj2 (Z.eqb_neq orphan 0) Ho0).
  destruct (dropFreePage_ok orphan [rc; lc] [] b b3 Hh) as (s & E4 & Hev4 & Hb4).
  { eapply evolves_perm; [exact Hperm|exact Hev03]. }
  rewrite (stM_bind_ret _ _ _ _ _ E4).
  set (pl := leafRefOf b1 lc 0) in *. set (pr := leafRefOf b2 rc 0) in *.
  assert (Hleaf : forall q p l, q ∈ [rc; lc] -> page p = q -> quiet (pInfo p) -> IsLeafInfo (pInfo p) = true ->
            leaf_list (pm b1) q l -> leaf_at (with_pm s b3) p l).
  { intros q p l Hq <- Hqu Hf Hlq. constructor; try done; [by eapply ev_new|]. cbn [pm with_pm].
    apply (bytes_leaf (pm b3)); [by apply Hb4, Hno|]. by rewrite Hpm3, Hpm2. }
  exists (with_pm s b3), lc, rc, sep, d, el, v, er, es', o, pl, pr. split; [done|]. split; [done|].
  split; [cbn; by rewrite Hr3, Hr2, Hr|]. split; [done|]. split; [done|]. split; [done|]. split; [done|].
  split; [|split; [|split; [apply Hln|done]]].
  - apply (Hleaf lc); [right; by left|done|split; [done|by left]|done|]. unfold lc. fold goLeft. by case goLeft.
  - apply (Hleaf rc); [by left|done|split; [done|by left]|done|]. unfold rc. fold goLeft. by case goLeft.
Qed.

(** ** Results of a write *)

(** The write took place: [key] has become [o], the size changed by [d]; at most
    one more level, at most three pages for each. *)
Definition wrote (b0 : BTree) (t0 : tree) (key : bytes) (P : option bytes -> option bytes -> Z -> Prop) (b' : BTree) : Prop :=
  exists t' o d, tree_ok b' t' /\ items_map (flat t') = partial_alter (fun _ => o) key (items_map (flat t0)) /\
    P (items_map (flat t0) !! key) o d /\ size b' = i64 (size b0 + d) /\
    (height t' <= S (height t0))%nat /\ avail (pm b0) - (3 * Z.of_nat (height t0) + 3) <= avail (pm b').

Lemma tree_ext b b' t :
  pm b' = pm b -> refs b' = refs b -> nextRef b' = nextRef b -> nextInfo b' = nextInfo b -> epochOn b' = epochOn b ->
  closed b' = closed b -> storageClosed b' = storageClosed b -> tree_ok b t -> tree_ok b' t.
Proof.
  intros Ep Er En Ei Ee Ec Es [Hh Hr Hn Hd Ho]. constructor; try done.
  - destruct Hh. constructor; rewrite ?Ep, ?Er, ?En, ?Ei, ?Ee, ?Ec, ?Es; done.
  - eapply Forall_impl; [exact Hn|]. intros [r sh] (p & Hp & Hs). exists p. cbn [fst snd] in *. rewrite Er. split; [done|].
    destruct sh as [es|ks crs].
    + destruct Hs. constructor; rewrite ?Ep; done.
    + destruct Hs as [cs []]. exists cs. constructor; rewrite ?Ep; try done.
      eapply Forall2_impl; [eassumption|]. intros x c. unfold idOf. by rewrite Er.
Qed.

(** The tree before a leaf is replaced, the leaf's own reference apart. *)
Record hole_ok (b : BTree) (fs : list frame) (r : Z) (es : list (bytes * bytes)) : Prop := {
  ho_heap : heap_ok b;
  ho_ctx : Forall (node_ok b) (ctx_nodes fs r);
  ho_nodup : NoDup (r :: (ctx_nodes fs r).*1);
  ho_root : troot (plug fs (TLeaf r es)) = rootRef;
  ho_ordered : ordered (ctx_pre fs ++ leaf_items es ++ ctx_post fs)
}.

Lemma tree_hole b fs r es : tree_ok b (plug fs (TLeaf r es)) -> hole_ok b fs r es.
Proof.
  intros Ht. destruct (focus_nodes _ _ _ Ht) as (_ & Hc & _ & Hd). pose proof (t_nodup _ _ Ht) as Hn.
  rewrite trefs_plug in Hn. constructor; try done; [apply Ht|apply Ht|].
  pose proof (t_ordered _ _ Ht) as Ho. by rewrite flat_plug in Ho by (by eapply ctx_wf).
Qed.

(** The leaf's reference may change meanwhile. *)
Lemma hole_ev news b b' fs r es : evolves news [r] b b' -> hole_ok b fs r es -> hole_ok b' fs r es.
Proof.
  intros Hev [Hh Hc Hn Hr Ho]. constructor; try done; [apply Hev|]. eapply nodes_ev; [exact Hev|done|].
  intros x Hx. rewrite list_elem_of_singleton. intros ->. by apply NoDup_cons in Hn as [Hn _].
Qed.

Lemma fill_two_sorted fs f sep A B :
  Forall frame_wf fs -> frame_wf f -> ordered (flat (plug fs (fill_two f sep A B))) ->
  keys_sorted (insert_at (f_idx f) sep (f_ks f)).
Proof.
  intros Hfs Hwf Ho. rewrite flat_plug in Ho by done. apply ordered_app in Ho as (_ & (Ho & _)%ordered_app & _).
  apply between_sorted in Ho; [done|]. unfold frame_wf, f_idx in *. rewrite length_fmap, length_app. cbn [length].
  rewrite insert_at_length; lia.
Qed.

Lemma pathParent_ok f fs r b : pathParent (pathOf (f :: fs) r) b = (b, Ret (entryOf f)).
Proof.
  unfold pathParent, pathOf. cbn [rev]. rewrite fmap_app, <- app_assoc, !rev_app_distr. done.
Qed.

(** The end of a leaf split. *)
Lemma finishLeafSplit_ok b r p1 f fs A B sep pp new lR d (t1 := plug fs (fill_two f sep A B)) :
  tree_ok b t1 -> refs b !! r = Some p1 -> r ∉ trefs t1 -> refs b !! f_ref f = Some pp -> 3 * Z.of_nat (length fs) + 3 < avail (pm b) ->
  exists b' t' p', finishLeafSplit r (pInfo p1) (pathOf (f :: fs) r) (f_ref f) (pInfo pp) new lR d b = (b', Ret tt) /\
    tree_ok b' t' /\ flat t' = flat t1 /\ size b' = i64 (size b + d) /\
    refs b' !! r = Some p' /\ i_addr (pInfo p') = nextInfo b /\
    (height t' <= S (height t1))%nat /\ avail (pm b) - (3 * Z.of_nat (length fs) + 3) <= avail (pm b').
Proof.
  intros Ht Hp Hr Hpp Hav. pose proof (t_heap _ _ Ht) as Hh. unfold finishLeafSplit.
  destruct (swap_info b r p1 (pInfo p1) (PageID (pInfo p1)) (u64 (Version (pInfo p1) + 1)) true (Some lR) true NodeRedirect
    Hh Hp eq_refl) as (b1 & b2 & E1 & E2 & Hev2 & Hr2 & Hpm2 & _).
  rewrite (stM_bind_ret _ _ _ _ _ E1), (stM_bind_ret _ _ _ _ _ E2). cbn [negb]. rewrite stM_bind_get.
  set (p2 := set_pInfo _ p1) in *.
  assert (Ht2 : tree_ok b2 t1) by (eapply tree_ev; [exact Hev2|exact Ht|]; intros x Hx ->%list_elem_of_singleton; done).
  assert (Hp2 : refs b2 !! r = Some p2) by (by rewrite Hr2, lookup_insert_eq).
  assert (Hne : forall x, x ∈ trefs t1 -> x <> r) by (by intros x Hx ->).
  assert (Hfr : forall x, x ∈ f_ref f :: (f_ref <$> fs) -> x <> r).
  { intros x Hx. apply Hne. unfold t1. rewrite trefs_plug. apply elem_of_cons in Hx as [->|Hx]; apply elem_of_app; [left; by left|right].
    apply list_elem_of_fmap in Hx as (g & -> & Hg). by apply frame_ref_in. }
  assert (Hres : exists b3 t' news, (if Node.IsFull (pm b2) new 0
      then ignoreErr (handleInternalSplit (pathOf (f :: fs) r) (length (pathOf (f :: fs) r) - 2) (f_ref f) (pInfo pp))
      else mret tt) b2 = (b3, Ret tt) /\ tree_ok b3 t' /\ flat t' = flat t1 /\ evolves news (f_ref f :: (f_ref <$> fs)) b2 b3 /\
      (height t' <= S (height t1))%nat /\ zlen news <= 3 * Z.of_nat (length fs) + 3).
  { destruct (Node.IsFull (pm b2) new 0).
    - assert (Hpath : pathOf (f :: fs) r = (entryOf <$> rev fs) ++ [entryOf f; mkEntry r (-1)] /\
        (length (pathOf (f :: fs) r) - 2 = length fs)%nat).
      { unfold pathOf. cbn [rev]. rewrite fmap_app, <- app_assoc. split; [done|].
        rewrite !length_app, length_fmap, length_rev. cbn. lia. }
      destruct Hpath as [Hpath Hlen].
      assert (Hpp2 : refs b2 !! f_ref f = Some pp) by (rewrite Hr2, lookup_insert_ne; [done|]; by apply not_eq_sym, Hfr; left).
      destruct (internal_split_ok fs b2 (f_ref f) (insert_at (f_idx f) sep (f_ks f)) (f_l f ++ A :: B :: f_r f) pp
        [entryOf f; mkEntry r (-1)] Ht2 Hpp2 ltac:(by rewrite Hpm2)) as (b3 & o & t' & news & E3 & Ho & Ht' & Hf' & Hev3 & Hht & Hc).
      exists b3, t', news. split; [|done]. unfold ignoreErr. rewrite Hlen, Hpath, E3. by destruct o as [[]| |].
    - exists b2, t1, []. split_and!; try done; [|lia|unfold zlen; cbn [length]; lia]. eapply evolves_weaken; [|apply ev_refl; apply Hev2]. by intros ? ?%not_elem_of_nil. }
  destruct Hres as (b3 & t' & news & E3 & Ht' & Hf' & Hev3 & Hht & Hc). rewrite (stM_bind_ret _ _ _ _ _ E3).
  exists (with_size (i64 (size b3 + d)) b3), t', p2. split; [done|]. split; [by apply (tree_ext b3)|]. split; [done|].
  split; [cbn; by rewrite (ev_size _ _ _ _ Hev3), (ev_size _ _ _ _ Hev2)|]. split.
  { cbn. rewrite (ev_untouched _ _ _ _ _ _ Hev3 Hp2); [done|]. intros Hin. by apply (Hfr r Hin). }
  split; [done|]. split; [done|]. cbn. rewrite (ev_avail _ _ _ _ Hev3), Hpm2. lia.
Qed.

(** The leaf [r] below the frame [f] replaced by two leaves. *)
Lemma leaf_two news b b2 f fs r es p lR rR pl pr esl esr sep pp2 csn (A := TLeaf lR esl) (B := TLeaf rR esr)
    (t1 := plug fs (fill_two f sep A B)) :
  hole_ok b (f :: fs) r es -> evolves news [f_ref f] b b2 -> lR <> rR -> refs b !! lR = None -> refs b !! rR = None ->
  refs b !! r = Some p -> refs b2 !! lR = Some pl -> leaf_at b2 pl esl -> refs b2 !! rR = Some pr -> leaf_at b2 pr esr ->
  refs b2 !! f_ref f = Some pp2 ->
  inner_at b2 pp2 (insert_at (f_idx f) sep (f_ks f)) ((troot <$> f_l f) ++ lR :: rR :: (troot <$> f_r f)) csn ->
  ordered (flat t1) -> tree_ok b2 t1 /\ (r ∉ trefs t1).
Proof.
  intros Ho Hev Hne HlR HrR Hp Hpl Hal Hpr Har Hpp Hip Hord.
  assert (HtA : nodes A ++ nodes B = [(lR, SLeaf esl); (rR, SLeaf esr)]) by done.
  assert (Hxs : forall x, x ∈ (nodes A ++ nodes B).*1 -> refs b !! x = None).
  { rewrite HtA. cbn [fmap list_fmap fst]. by intros x [->|[->|[]%not_elem_of_nil]%elem_of_cons]%elem_of_cons. }
  split.
  - apply (tree_two news [f_ref f] b b2 fs f (TLeaf r es) sep A B pp2 csn); try done.
    + apply Ho.
    + rewrite trefs_plug. exact (ho_nodup _ _ _ _ Ho).
    + apply Ho.
    + intros x [->|[]%not_elem_of_nil]%elem_of_cons. by left.
    + rewrite HtA. apply Forall_cons. split; [by exists pl|apply Forall_singleton; by exists pr].
    + rewrite HtA. apply NoDup_cons. split; [|apply NoDup_singleton]. by rewrite list_elem_of_singleton.
    + intros x Hx. right. by apply Hxs.
  - unfold t1. rewrite trefs_plug. unfold trefs. rewrite nodes_fill_two, app_assoc, HtA. cbn [app fmap list_fmap fst].
    pose proof (ho_nodup _ _ _ _ Ho) as [Hnd _]%NoDup_cons. cbn [ctx_nodes] in Hnd. rewrite fmap_cons, fmap_app in Hnd.
    cbn [troot fill_two]. rewrite !elem_of_cons, elem_of_app. cbn [fst frame_node] in Hnd.
    rewrite elem_of_cons, elem_of_app in Hnd. assert (r <> lR /\ r <> rR) by (split; intros ->; congruence). tauto.
Qed.

(** The parent takes the two leaves. *)
Lemma leafParent_ok b b1 f fs r es p lc rc pl pr esl esr sep (lR := nextRef b) (rR := nextRef b + 1)
    (t1 := plug fs (fill_two f sep (TLeaf lR esl) (TLeaf rR esr))) :
  hole_ok b (f :: fs) r es -> refs b !! r = Some p -> evolves [rc; lc] [] b b1 ->
  refs b1 = <[rR := pr]> (<[lR := pl]> (refs b)) -> pageID pl = lc -> pageID pr = rc -> leaf_at b1 pl esl -> leaf_at b1 pr esr ->
  zlen sep < 2 ^ 31 -> 0 < avail (pm b1) -> ordered (flat t1) ->
  (exists b2 new pp2, handleParentCASWithSpin (f_ref f) (pageID p) lc rc sep (Z.of_nat (f_idx f)) lR rR b1 =
       (b2, Ret (pInfo pp2, new)) /\ evolves [new; rc; lc] [f_ref f] b b2 /\
     refs b2 !! f_ref f = Some pp2 /\ refs b2 !! r = Some p /\ tree_ok b2 t1 /\ (r ∉ trefs t1)) \/
  (exists b2 e, handleParentCASWithSpin (f_ref f) (pageID p) lc rc sep (Z.of_nat (f_idx f)) lR rR b1 = (b2, Fail e) /\
     evolves [rc; lc] [] b b2 /\ hard e).
Proof.
  intros Ho Hp Hev1 Hr1 Hidl Hidr Hal Har Hsep Hav Hord. pose proof (ho_heap _ _ _ _ Ho) as Hh.
  pose proof (ctx_wf _ _ _ (ho_ctx _ _ _ _ Ho)) as [Hwf Hwfs]%Forall_cons.
  pose proof (ho_ctx _ _ _ _ Ho) as Hctx. cbn [ctx_nodes] in Hctx. apply Forall_cons in Hctx as [(pp & Hpp & csf & Hip) _].
  cbn [fst snd frame_node] in Hpp, Hip. pose proof (frame_child _ _ _ _ _ _ Hip Hp) as Hid.
  assert (HlR : refs b !! lR = None) by (by apply heap_fresh). assert (HrR : refs b !! rR = None) by (by apply heap_fresh_next).
  assert (Hne : lR <> rR) by (unfold lR, rR; lia).
  assert (Hkeep : forall x q, refs b !! x = Some q -> refs b1 !! x = Some q /\ x <> lR /\ x <> rR).
  { intros x q Hx. assert (x <> lR /\ x <> rR) as [? ?] by (split; intros ->; congruence).
    by rewrite Hr1, !lookup_insert_ne. }
  destruct (Hkeep _ _ Hp) as (Hp1 & Hrl & Hrr). destruct (Hkeep _ _ Hpp) as (Hpp1 & Hfl & Hfr).
  pose proof (ev_heap _ _ _ _ Hev1) as Hh1. pose proof (inner_at_ev _ _ _ _ _ _ _ _ Hev1 Hip) as Hip1.
  assert (Hnc : forall q, q ∈ [rc; lc] -> new_child b1 csf q) by (intros q Hq; eapply new_half; [exact Hh|exact Hev1|done|apply Hip]).
  assert (Hpl1 : refs b1 !! lR = Some pl) by (by rewrite Hr1, lookup_insert_ne, lookup_insert_eq).
  assert (Hpr1 : refs b1 !! rR = Some pr) by (by rewrite Hr1, lookup_insert_eq).
  assert (Hlcr : lc <> rc) by (pose proof (gr_nodup _ _ _ (ev_pm _ _ _ _ Hev1)) as [H' _]%NoDup_cons; set_solver).
  assert (HlR1 : idOf b1 lR = Some lc) by (unfold idOf; by rewrite Hpl1, <- Hidl).
  assert (HrR1 : idOf b1 rR = Some rc) by (unfold idOf; by rewrite Hpr1, <- Hidr).
  destruct (parentCAS_ok 49 b1 (f_ref f) pp (f_ks f) _ csf (f_idx f) (pageID p) lc rc sep (Z.of_nat (f_idx f)) lR rR
    Hh1 Hpp1 Hip1 Hid (Hnc lc ltac:(set_solver)) (Hnc rc ltac:(set_solver)) Hlcr HlR1 HrR1
    (fill_two_sorted _ _ _ _ _ Hwfs Hwf Hord) Hsep Hav) as
    [(b2 & new & pp2 & E2 & Hev2 & Hr2 & Hpg2 & Hpid2 & Hip2)|(b2 & e & E2 & Hev2 & _ & He)]; [left|right].
  2: { exists b2, e. split; [exact E2|]. split; [by eapply evolves_step|done]. }
  pose proof (evolves_trans _ _ [f_ref f] _ _ _ ltac:(eapply evolves_weaken; [|exact Hev1]; by intros ? ?%not_elem_of_nil) Hev2) as Hev02.
  rewrite split_child_hole in Hip2.
  assert (Hkeep2 : forall x q, refs b1 !! x = Some q -> x <> f_ref f -> refs b2 !! x = Some q) by (intros x q Hx ?; by rewrite Hr2, lookup_insert_ne).
  assert (Hrf : r <> f_ref f).
  { intros ->. pose proof (ho_nodup _ _ _ _ Ho) as [Hn _]%NoDup_cons. apply Hn. by left. }
  exists b2, new, pp2. split; [exact E2|]. split; [exact Hev02|]. split; [by rewrite Hr2, lookup_insert_eq|].
  split; [by apply Hkeep2|].
  eapply (leaf_two ([new] ++ [rc; lc]) b b2 f fs r es p lR rR pl pr); try exact Hip2; try done.
  - by apply Hkeep2, not_eq_sym.
  - eapply leaf_at_ev; [exact Hev2|done].
  - by apply Hkeep2, not_eq_sym.
  - eapply leaf_at_ev; [exact Hev2|done].
  - by rewrite Hr2, lookup_insert_eq.
Qed.

Lemma leafSplit_ok (key : bytes) (Q : option bytes -> Prop) (P : option bytes -> option bytes -> Z -> Prop)
    (mutate : mutateFunc) (b : BTree) f fs r es p (t0 := plug (f :: fs) (TLeaf r es)) :
  mutation_ok key Q P mutate -> hole_ok b (f :: fs) r es -> refs b !! r = Some p -> live (pm b) (page p) ->
  leaf_list (pm b) (page p) es -> around key (ctx_pre (f :: fs)) (ctx_post (f :: fs)) ->
  3 * Z.of_nat (length (f :: fs)) + 3 < avail (pm b) -> Q (items_map (flat t0) !! key) ->
  (exists b' p', handleLeafSplit r (pInfo p) (pathOf (f :: fs) r) key mutate b = (b', Ret tt) /\
     refs b' !! r = Some p' /\ i_addr (pInfo p') <> i_addr (pInfo p) /\ wrote b t0 key P b') \/
  (exists b' e news, handleLeafSplit r (pInfo p) (pathOf (f :: fs) r) key mutate b = (b', Fail e) /\
     evolves news [] b b' /\ zlen news <= 3 /\ hard e).
Proof.
  intros Hm Ho Hp Hlive Hl Ha Hav HQ. pose proof (ho_heap _ _ _ _ Ho) as Hh. unfold handleLeafSplit.
  pose proof (ctx_wf _ _ _ (ho_ctx _ _ _ _ Ho)) as Hwfs. assert (Hft : flat t0 = ctx_pre (f :: fs) ++ leaf_items es ++ ctx_post (f :: fs)) by (by apply flat_plug).
  rewrite Hft, around_lookup in HQ by done.
  rewrite (stM_bind_ret _ _ _ _ _ (onErr_ret _ _ _ _ _ (GetLeafPage_ok b (page p) es Hh Hlive Hl))).
  destruct (splitLeafChildren_ok key Q P mutate b (page p) es Hm Hh Hlive Hl ltac:(lia) HQ) as
    [(b1 & lc & rc & sep & d & el & v & er & es' & o & pl & pr & E1 & Hev1 & Hr1 & Hidl & Hidr & Hes & Hne & Hll & Hlr & Hs' & Hmap & Hk & HP)
    |(b1 & e & E1 & Hev1 & He)].
  2: { right. exists b1, e, []. by rewrite (stM_bind_fail _ _ _ _ _ E1). }
  set (goLeft := bool_decide (bytes_lt key sep)) in *. set (lR := nextRef b) in *. set (rR := lR + 1) in *.
  rewrite (stM_bind_ret _ _ _ _ _ E1), (stM_bind_ret _ _ _ _ _ (pathParent_ok f fs r b1)). cbn [Ref Index entryOf].
  set (A := TLeaf lR (if goLeft then es' else el)). set (B := TLeaf rR (if goLeft then (sep, v) :: er else es')).
  destruct (split_leaf_items key (ctx_pre (f :: fs)) (ctx_post (f :: fs)) el sep v er es' o) as (Hord & Him & Hold);
    try done; [rewrite <- Hes; apply Ho|].
  assert (Hflat : flat (plug fs (fill_two f sep A B)) = ctx_pre (f :: fs) ++ flat A ++ ISep sep :: flat B ++ ctx_post (f :: fs)).
  { apply Forall_cons in Hwfs as [Hwf Hwfs]. rewrite flat_plug, flat_fill_two by done. cbn [ctx_pre ctx_post foldr].
    by rewrite <- !app_assoc, <- app_comm_cons, <- app_assoc. }
  fold goLeft in Hord, Him.
  assert (Ho1 : ordered (flat (plug fs (fill_two f sep A B)))) by (by rewrite Hflat).
  assert (Hp1 : refs b1 !! r = Some p) by (by rewrite (ev_untouched _ _ _ _ _ _ Hev1 Hp) by (by intros ?%not_elem_of_nil)).
  rewrite (stM_bind_ret _ _ _ _ _ (deref_ok b1 r p Hp1)).
  assert (Hsep : zlen sep < 2 ^ 31).
  { eapply leaf_key_small; [exact Hl|]. rewrite Hes, fmap_app. apply elem_of_app. right. by left. }
  pose proof (ev_avail _ _ _ _ Hev1) as Hav1. unfold zlen in Hav1. cbn [length] in Hav, Hav1.
  destruct (leafParent_ok b b1 f fs r es p lc rc pl pr _ _ sep Ho Hp Hev1 Hr1 Hidl Hidr Hll Hlr Hsep ltac:(lia) Ho1) as
    [(b2 & new & pp2 & E2 & Hev2 & Hpp2 & Hp2 & Ht1 & Hr_out)|(b2 & e & E2 & Hev2 & He)].
  2: { right. exists b2, e, [rc; lc]. by rewrite (stM_bind_fail _ _ _ _ _ E2). }
  left. rewrite (stM_bind_ret _ _ _ _ _ E2).
  destruct (finishLeafSplit_ok b2 r p f fs A B sep pp2 new lR d Ht1 Hp2 Hr_out Hpp2) as (b3 & t3 & p3 & E3 & Ht3 & Hf3 & Hs3 & Hp3 & Ha3 & Hht3 & Hav3).
  { rewrite (ev_avail _ _ _ _ Hev2). unfold zlen. cbn [length]. lia. }
  exists b3, p3. split; [exact E3|]. split; [done|]. split.
  { rewrite Ha3. pose proof (h_refs _ Hh _ _ Hp). pose proof (ev_nextInfo _ _ _ _ Hev2). lia. }
  exists t3, o, d. split; [done|]. split; [rewrite Hf3, Hflat, Hft, Hes; exact Him|]. split; [rewrite Hft, Hes, <- Hold; exact HP|].
  split; [by rewrite Hs3, (ev_size _ _ _ _ Hev2)|]. rewrite (ev_avail _ _ _ _ Hev2) in Hav3. unfold zlen in Hav3. cbn [length] in Hav3.
  assert (height (plug fs (fill_two f sep A B)) <= height t0)%nat by (apply (height_plug_mono fs), height_fill_two; cbn; lia).
  pose proof (height_plug (f :: fs) (TLeaf r es)) as Hhp. cbn [length] in Hhp. fold t0 in Hhp. split; lia.
Qed.
