(* ===== verification/TreeWrite.v ===== *)
(** * Writes of the B+Tree

    The write template with a mutation of one leaf changes the map as the
    mutation changes the leaf, or returns an error and changes nothing; the
    store's operations as mutations. *)

From stdpp Require Import base list gmap sorting strings.
From Stdlib Require Import ZArith Lia.
From S2P Require Import Prelude MvccCodec OffHeap PageLayout LeafPage LeafMap NodePage NodeMap Merge BTree TreeOps TreeShape TreeInv TreeHeap TreeSplit TreeLeafSplit.

Local Open Scope Z_scope.

(** ** A new root over the halves of the root leaf *)

Lemma publishLeafRoot_ok b0 b p lc rc sep d orphan q new esl esr (lR := nextRef b) (rR := nextRef b + 1)
    (t' := TNode rootRef [sep] [TLeaf lR esl; TLeaf rR esr]) :
  heap_ok b0 -> refs b = refs b0 -> refs b !! rootRef = Some p -> evolves [orphan; q; new; rc; lc] [] b0 b ->
  leaf_list (pm b) lc esl -> leaf_list (pm b) rc esr -> node_list (pm b) new [sep] [lc; rc] ->
  ordered (flat t') ->
  exists b' p', publishLeafRoot (pInfo p) lc rc sep d orphan q new b = (b', Ret tt) /\
    refs b' !! rootRef = Some p' /\ i_addr (pInfo p') <> i_addr (pInfo p) /\ tree_ok b' t' /\ size b' = i64 (size b0 + d) /\
    avail (pm b') = avail (pm b0) - 3.
Proof.
  intros Hh0 Hrefs Hp Hev Hll Hlr Hn Hord. pose proof (ev_heap _ _ _ _ Hev) as Hh. unfold publishLeafRoot.
  destruct (NewPageRef_ok b lc 0 Hh) as (b1 & E1 & Hev1 & Hr1 & Hpm1 & Hn1 & _). fold lR in E1, Hr1, Hn1.
  destruct (NewPageRef_ok b1 rc 0 (ev_heap _ _ _ _ Hev1)) as (b2 & E2 & Hev2 & Hr2 & Hpm2 & _).
  assert (HrR : nextRef b1 = rR) by exact Hn1. rewrite HrR in E2, Hr2.
  rewrite (stM_bind_ret _ _ _ _ _ E1), (stM_bind_ret _ _ _ _ _ E2).
  assert (HlR0 : refs b !! lR = None) by (by apply heap_fresh). assert (HrR0 : refs b !! rR = None) by (by apply heap_fresh_next).
  assert (Hroot : lR <> rootRef /\ rR <> rootRef /\ lR <> rR) by (split_and!; [intros E; congruence..|unfold lR, rR; lia]).
  destruct Hroot as (HlR & HrR' & Hlr').
  set (pl := leafRefOf b lc 0) in *. set (pr := leafRefOf b1 rc 0) in *.
  assert (Hp2 : refs b2 !! rootRef = Some p) by (by rewrite Hr2, lookup_insert_ne, Hr1, lookup_insert_ne).
  destruct (ReplaceRoot_ok b2 p (pInfo p) (u64 (Version (pInfo p) + 1)) new (mkCache [lR; rR] [sep]) (ev_heap _ _ _ _ Hev2) Hp2 eq_refl)
    as (b3 & b4 & p' & E3 & E4 & Hev4 & Hpm4 & Hr4 & Hi4 & Hc4 & _ & Hn4).
  rewrite (stM_bind_ret _ _ _ _ _ E3), (stM_bind_ret _ _ _ _ _ E4). cbn [negb].
  rewrite (stM_bind_ret _ _ _ _ _ (retire_off _ b4 (h_epoch _ (ev_heap _ _ _ _ Hev4)))).
  unfold addSize. rewrite stM_bind_modify.
  assert (Hev04 : evolves [orphan; q; new; rc; lc] [rootRef] b0 b4).
  { eapply evolves_step; [|exact Hev4]. eapply evolves_weaken; [|eapply evolves_step; [exact Hev|eapply evolves_step; [exact Hev1|exact Hev2]]].
    by intros ? ?%not_elem_of_nil. }
  destruct (drop_kept orphan _ _ _ _ Hh0 Hev04) as (s5 & E5 & Hev5 & Hl5 & Hn5).
  destruct (drop_kept q _ _ _ _ Hh0 Hev5) as (s6 & E6 & Hev6 & Hl6 & Hn6). set (b6 := with_pm s6 (with_pm s5 b4)) in *.
  rewrite (stM_bind_ret _ _ _ _ _ (dropFree_size _ _ _ _ _ E5)).
  exists (with_size (i64 (size b4 + d)) b6), p'. split; [exact (dropFree_size _ _ _ _ _ E6)|].
  assert (Hp6 : refs b6 !! rootRef = Some p') by (cbn; by rewrite Hr4, lookup_insert_eq).
  split; [exact Hp6|]. split.
  { rewrite Hi4. cbn. pose proof (h_refs _ (ev_heap _ _ _ _ Hev2) _ _ Hp2). lia. }
  split; [|split; [cbn; by rewrite (ev_size _ _ _ _ Hev04)|exact (ev_avail _ _ _ _ Hev6)]].
  rewrite <- Hpm1, <- Hpm2, <- Hpm4 in Hll, Hlr, Hn.
  assert (Hpl : refs b6 !! lR = Some pl) by (cbn; by rewrite Hr4, lookup_insert_ne, Hr2, lookup_insert_ne, Hr1, lookup_insert_eq).
  assert (Hpr : refs b6 !! rR = Some pr) by (cbn; by rewrite Hr4, lookup_insert_ne, Hr2, lookup_insert_eq).
  apply (tree_ext b6); try done.
  assert (Hlive : forall x, x ∈ [new; rc; lc] -> x <> 0 /\ live (pm b6) x).
  { intros x Hx. split; [|by eapply ev_new]. intros ->. destruct (gr_fresh _ _ _ (ev_pm _ _ _ _ Hev6) _ Hx) as [H _]. apply H, Hh0. }
  destruct (Hlive new ltac:(set_solver)) as [Hnew0 Hnewl]. pose proof (Hlive rc ltac:(set_solver)) as Hrc.
  pose proof (Hlive lc ltac:(set_solver)) as Hlc.
  pose proof (gr_nodup _ _ _ (ev_pm _ _ _ _ Hev6)) as Hnd. rewrite !NoDup_cons, !elem_of_cons in Hnd.
  assert (Hleaf : forall x px es, x ∈ [new; rc; lc] -> page px = x -> quiet (pInfo px) -> IsLeafInfo (pInfo px) = true ->
            leaf_list (pm b4) x es -> leaf_at b6 px es).
  { intros x px es Hx <- Hq Hf Hlx. constructor; try done; [by apply Hlive|]. apply Hl6, Hl5; [done|by right|done]. }
  apply (root_published [new; rc; lc] [rootRef] b0 b6 sep (TLeaf lR esl) (TLeaf rR esr) p' [lc; rc]); try done.
  - assert (Hpg : page p' = new) by (unfold page; by rewrite Hi4).
    apply (root_inner b6 p' new); try done; try (by rewrite Hpg); try (by rewrite Hi4); try tauto.
    + rewrite Hi4. split; [done|by right].
    + rewrite Hpg. apply Hn6, Hn5; [set_solver|set_solver|done].
    + assert (rc <> lc) by tauto. by apply not_eq_sym.
    + change (idOf b6 lR = Some lc). unfold idOf. by rewrite Hpl.
    + change (idOf b6 rR = Some rc). unfold idOf. by rewrite Hpr.
  - apply Forall_cons. split; [exists pl|apply Forall_singleton; exists pr]; cbn [fst snd]; (split; [done|]).
    + apply (Hleaf lc); try done; [set_solver|split; [done|by left]].
    + apply (Hleaf rc); try done; [set_solver|split; [done|by left]].
  - apply NoDup_cons. split; [|apply NoDup_singleton]. by intros ?%list_elem_of_singleton.
  - cbn. by intros [E|[E|[]%not_elem_of_nil]%elem_of_cons]%elem_of_cons.
  - cbn in Hord. unfold after in Hord. cbn in Hord. by rewrite app_nil_r in Hord.
Qed.

(** The leaf that is the root, split. *)
Lemma rootSplit_ok (key : bytes) (Q : option bytes -> Prop) (P : option bytes -> option bytes -> Z -> Prop)
    (mutate : mutateFunc) (b : BTree) es p (t0 := TLeaf rootRef es) :
  mutation_ok key Q P mutate -> hole_ok b [] rootRef es -> refs b !! rootRef = Some p -> live (pm b) (page p) ->
  leaf_list (pm b) (page p) es -> 4 < avail (pm b) -> Q (items_map (flat t0) !! key) ->
  (exists b' p', handleRootSplit (pInfo p) key mutate b = (b', Ret tt) /\
     refs b' !! rootRef = Some p' /\ i_addr (pInfo p') <> i_addr (pInfo p) /\ wrote b t0 key P b') \/
  (exists b' e news, handleRootSplit (pInfo p) key mutate b = (b', Fail e) /\ evolves news [] b b' /\ zlen news <= 3 /\ hard e).
Proof.
  intros Hm Ho Hp Hlive Hl Hav HQ. pose proof (ho_heap _ _ _ _ Ho) as Hh. unfold handleRootSplit.
  assert (Hft : items_map (flat t0) = list_to_map es) by (unfold t0, items_map; cbn [flat]; by rewrite kvs_leaf).
  rewrite Hft in HQ. rewrite (stM_bind_ret _ _ _ _ _ (onErr_ret _ _ _ _ _ (GetLeafPage_ok b (page p) es Hh Hlive Hl))).
  destruct (splitAndMutate_ok key Q P mutate b (page p) es Hm Hh Hlive Hl ltac:(lia) HQ) as
    [(b1 & lp & rp & sep & n & d & td & el & v & er & es' & o & E & Hev & Hr & Hn & Hes & Hne & Hll & Hlr & Hln & Hmap & Hk & HP)
    |(b1 & e & E & Hev & He)].
  2: { right. exists b1, e, []. by rewrite (stM_bind_fail _ _ _ _ _ E). }
  rewrite (stM_bind_ret _ _ _ _ _ E). unfold finalPage, orphanOf. cbn [inPlace cowMutation newPageID delta].
  set (goLeft := bool_decide (bytes_lt key sep)) in *. set (lc := if goLeft then n else lp). set (rc := if goLeft then rp else n).
  set (orphan := if goLeft then lp else rp).
  assert (Hperm : [n; rp; lp] ≡ₚ [orphan; rc; lc]) by (unfold orphan, lc, rc; destruct goLeft; solve_Permutation).
  pose proof (ev_heap _ _ _ _ Hev) as Hh1.
  assert (Hnew : forall q, q ∈ [orphan; rc; lc] -> q <> 0 /\ live (pm b1) q).
  { intros q Hq. rewrite <- Hperm in Hq. split; [|by eapply ev_new]. intros ->.
    destruct (gr_fresh _ _ _ (ev_pm _ _ _ _ Hev) _ Hq) as [H _]. apply H, Hh. }
  destruct (Hnew lc ltac:(set_solver)) as [Hlc0 Hlcl]. destruct (Hnew rc ltac:(set_solver)) as [Hrc0 Hrcl].
  assert (Hsep : zlen sep < 2 ^ 31).
  { eapply leaf_key_small; [exact Hl|]. rewrite Hes, fmap_app. apply elem_of_app. right. by left. }
  pose proof (ev_avail _ _ _ _ Hev) as Hav1. unfold zlen in Hav1. cbn [length] in Hav1.
  destruct (new_root_page b1 lc rc sep Hh1 Hlcl Hlc0 Hrcl Hrc0 Hsep ltac:(lia)) as (b2 & q & E2 & Hev2 & Hr2 & Hn2 & Eg & HI).
  rewrite (stM_bind_ret _ _ _ _ _ (cleanup_ret _ _ _ _ _ E2)).
  destruct HI as [(s & new & E3 & Hev3 & Hnl)|(s & e & E3 & He & Hev3)].
  2: { right. match goal with |- context [cleanup [q] ?m] =>
         destruct (cleanup_fail [q] m [n; rp; lp] [] b b2 (with_pm s b2) e Hh) as (s' & Ec & Hev') end.
       - rewrite (stM_bind_ret _ _ _ _ _ Eg). unfold onPM. by rewrite E3.
       - eapply (evolves_trans _ [q]); [exact Hev|exact Hev3].
       - eexists _, e, _. rewrite (stM_bind_fail _ _ _ _ _ Ec). split; [reflexivity|]. split; [exact Hev'|done]. }
  left. set (b3 := with_pm s b2) in *.
  erewrite stM_bind_ret.
  2: { apply cleanup_ret. rewrite (stM_bind_ret _ _ _ _ _ Eg). unfold onPM. by rewrite E3. }
  fold b3. assert (Hev03 : evolves [orphan; q; new; rc; lc] [] b b3).
  { eapply evolves_perm; [|eapply evolves_trans; [exact Hev|exact Hev3]]. rewrite Hperm. cbn. solve_Permutation. }
  destruct (split_leaf_items key [] [] el sep v er es' o) as (Hord & Him & Hold); try done.
  { rewrite <- Hes. apply Ho. }
  { apply Hln. }
  assert (Hcl : leaf_list (pm b1) lc (if goLeft then es' else el) /\ leaf_list (pm b1) rc (if goLeft then (sep, v) :: er else es')).
  { unfold lc, rc. by destruct goLeft. }
  destruct Hcl as [Hlcs Hrcs].
  destruct (publishLeafRoot_ok b b3 p lc rc sep d orphan q new (if goLeft then es' else el) (if goLeft then (sep, v) :: er else es') Hh)
    as (b4 & p' & E4 & Hp4 & Hne4 & Ht4 & Hs4 & Hav4); try done.
  - cbn. by rewrite Hr2, Hr.
  - cbn. by rewrite Hr2, Hr.
  - eapply grew_leaf; [apply Hev3|done..].
  - eapply grew_leaf; [apply Hev3|done..].
  - exists b4, p'. split; [exact E4|]. split; [done|]. split; [done|]. eexists _, o, d. split; [exact Ht4|].
    assert (Hft' : items_map (flat t0) = items_map ([] ++ leaf_items (el ++ (sep, v) :: er) ++ [])) by (by rewrite app_nil_r, <- Hes).
    rewrite Hft'. split; [exact Him|]. split; [rewrite <- Hold; exact HP|]. split; [done|].
    rewrite Hav4. split; cbn; lia.
Qed.

(** ** The template *)

Lemma rollback_done b r p sp old :
  refs b !! r = Some p -> i_addr (pInfo p) <> i_addr sp -> rollbackSplitting r sp old b = (b, Ret tt).
Proof.
  intros Hp Hne. unfold rollbackSplitting. rewrite (stM_bind_ret _ _ _ _ _ (GetPageInfo_ok b r p Hp)).
  by rewrite (proj2 (Z.eqb_neq _ _)).
Qed.
Lemma rollback_undo b r p sp old :
  refs b !! r = Some p -> i_addr (pInfo p) = i_addr sp -> rollbackSplitting r sp old b = (storeRef r (set_pInfo old) b, Ret tt).
Proof.
  intros Hp He. unfold rollbackSplitting. rewrite (stM_bind_ret _ _ _ _ _ (GetPageInfo_ok b r p Hp)).
  rewrite (proj2 (Z.eqb_eq _ _) He). by rewrite (stM_bind_ret _ _ _ _ _ (CAS_ok b r p sp old Hp He)).
Qed.

(** Both kinds of split, after the leaf [r] was marked. *)
Lemma split_ok (key : bytes) (Q : option bytes -> Prop) (P : option bytes -> option bytes -> Z -> Prop)
    (mutate : mutateFunc) (b : BTree) fs r es p (t0 := plug fs (TLeaf r es)) :
  mutation_ok key Q P mutate -> hole_ok b fs r es -> refs b !! r = Some p -> live (pm b) (page p) ->
  leaf_list (pm b) (page p) es -> around key (ctx_pre fs) (ctx_post fs) ->
  3 * Z.of_nat (length fs) + 4 < avail (pm b) -> Q (items_map (flat t0) !! key) ->
  let m := if (length (pathOf fs r) <? 2)%nat then handleRootSplit (pInfo p) key mutate
           else handleLeafSplit r (pInfo p) (pathOf fs r) key mutate in
  (exists b' p', m b = (b', Ret tt) /\ refs b' !! r = Some p' /\ i_addr (pInfo p') <> i_addr (pInfo p) /\ wrote b t0 key P b') \/
  (exists b' e news, m b = (b', Fail e) /\ evolves news [] b b' /\ zlen news <= 3 /\ hard e).
Proof.
  intros Hm Ho Hp Hlive Hl Ha Hav HQ. destruct fs as [|f fs].
  - pose proof (ho_root _ _ _ _ Ho) as Hr. cbn in Hr. subst r. apply (rootSplit_ok key Q P mutate b es p); try done.
  - assert ((length (pathOf (f :: fs) r) <? 2)%nat = false) as ->.
    { unfold pathOf. rewrite length_app, length_fmap, length_rev. cbn [length]. apply Nat.ltb_ge. lia. }
    apply (leafSplit_ok key Q P mutate b f fs r es p); try done. lia.
Qed.

Lemma splitAttempt_ok (key : bytes) (Q : option bytes -> Prop) (P : option bytes -> option bytes -> Z -> Prop)
    (mutate : mutateFunc) (b : BTree) fs r es p (t := plug fs (TLeaf r es)) :
  mutation_ok key Q P mutate -> tree_ok b t -> refs b !! r = Some p -> live (pm b) (page p) ->
  leaf_list (pm b) (page p) es -> around key (ctx_pre fs) (ctx_post fs) ->
  3 * Z.of_nat (length fs) + 4 < avail (pm b) -> Q (items_map (flat t) !! key) ->
  (exists b', splitAttempt r (pInfo p) (pathOf fs r) key mutate b = (b', Ret Finished) /\ wrote b t key P b') \/
  (exists b' e news D, splitAttempt r (pInfo p) (pathOf fs r) key mutate b = (b', Fail e) /\ hard e /\ evolves news D b b' /\ zlen news <= 3 /\ tree_ok b' t).
Proof.
  intros Hm Ht Hp Hlive Hl Ha Hav HQ. unfold splitAttempt.
  destruct (swap_info b r p (pInfo p) (PageID (pInfo p)) (u64 (Version (pInfo p) + 1)) false None true NodeSplitting
    (t_heap _ _ Ht) Hp eq_refl) as (b1 & b2 & E1 & E2 & Hev & Hr2 & Hpm2 & _).
  rewrite (stM_bind_ret _ _ _ _ _ E1), (stM_bind_ret _ _ _ _ _ E2). cbn [negb].
  set (sp := mkPageInfo _ _ _ _ _ _ _) in *. set (p2 := set_pInfo sp p) in *.
  assert (Hp2 : refs b2 !! r = Some p2) by (by rewrite Hr2, lookup_insert_eq).
  assert (Hpg : page p2 = page p) by done.
  destruct (split_ok key Q P mutate b2 fs r es p2 Hm (hole_ev _ _ _ _ _ _ Hev (tree_hole _ _ _ _ Ht)) Hp2)
    as [(b3 & p3 & E & Hp3 & Hne & t' & o & d & Ht' & Him & HP & Hs & Hht & Hav3)|(b3 & e & news & E & Hev3 & Hc & He)]; try done.
  { rewrite Hpg. by eapply ev_live. }
  { by rewrite Hpg, Hpm2. }
  { by rewrite Hpm2. }
  - left. exists b3. unfold doSplitWithSplitting. change sp with (pInfo p2). rewrite E.
    rewrite (stM_bind_ret _ _ _ _ _ (rollback_done b3 r p3 (pInfo p2) (pInfo p) Hp3 Hne)). split; [done|].
    exists t', o, d. split; [done|]. split; [done|]. split; [done|]. rewrite Hs, (ev_size _ _ _ _ Hev), <- Hpm2. done.
  - right. assert (Hp3 : refs b3 !! r = Some p2) by (by rewrite (ev_untouched _ _ _ _ _ _ Hev3 Hp2) by (by intros ?%not_elem_of_nil)).
    set (b4 := storeRef r (set_pInfo (pInfo p)) b3).
    assert (Hr4 : refs b4 !! r = Some p) by (unfold b4; rewrite (refs_store b3 r p2 _ Hp3), lookup_insert_eq; by destruct p).
    assert (Hev4 : evolves news [r] b b4).
    { assert (Hi3 : i_addr (pInfo p) < nextInfo b3).
      { pose proof (h_refs _ (t_heap _ _ Ht) _ _ Hp). pose proof (ev_nextInfo _ _ _ _ Hev). pose proof (ev_nextInfo _ _ _ _ Hev3). lia. }
      pose proof (ev_store b3 r p2 (set_pInfo (pInfo p)) (ev_heap _ _ _ _ Hev3) Hp3 eq_refl Hi3) as Hev4.
      eapply evolves_step; [|exact Hev4]. rewrite <- (app_nil_r news). eapply evolves_trans; [exact Hev|].
      eapply evolves_weaken; [|exact Hev3]. by intros ? ?%not_elem_of_nil. }
    exists b4, e, news, [r]. unfold doSplitWithSplitting. change sp with (pInfo p2). rewrite E.
    rewrite (stM_bind_ret _ _ _ _ _ (rollback_undo b3 r p2 (pInfo p2) (pInfo p) Hp3 eq_refl)). fold b4.
    unfold liftS. destruct He as [He1 He2]. rewrite He1, He2. split; [done|]. split; [done|]. split; [exact Hev4|].
    split; [done|]. eapply tree_ev; [exact Hev4|done|]. intros x _ ->%list_elem_of_singleton. by rewrite Hr4.
Qed.

Lemma merge_off path d b : epochOn b = false -> maybeMergeAfterWrite path d b = (b, Ret tt).
Proof. intros E. unfold maybeMergeAfterWrite, getS, mbind at 1, stM_bind at 1. by rewrite E. Qed.

(** The leaf's reference is given the mutated page. *)
Lemma publishAttempt_ok b b1 fs r es p key n d td es' (o : option bytes) (P : option bytes -> option bytes -> Z -> Prop)
    (t := plug fs (TLeaf r es)) :
  tree_ok b t -> refs b !! r = Some p -> around key (ctx_pre fs) (ctx_post fs) ->
  evolves [n] [] b b1 -> leaf_list (pm b1) n es' ->
  (list_to_map es' : kvmap) = partial_alter (fun _ => o) key (list_to_map es) ->
  (forall k, k ∈ es'.*1 -> k = key \/ k ∈ es.*1) -> P (items_map (flat t) !! key) o d ->
  exists b', publishAttempt r (pInfo p) (pathOf fs r) (cowMutation n d td) b1 = (b', Ret Finished) /\ wrote b t key P b'.
Proof.
  intros Ht Hp Ha Hev1 Hl Hm Hk HP. pose proof (t_heap _ _ Ht) as Hh. unfold publishAttempt.
  cbn [newPageID tombstoneDelta delta cowMutation].
  destruct (tombstoneDelta_ok b b1 [n] [] n td Hh Hev1 ltac:(by left)) as (s & E1 & Hev2 & Hkeep).
  rewrite (stM_bind_ret _ _ _ _ _ E1). set (b2 := with_pm s b1) in *.
  assert (Hp2 : refs b2 !! r = Some p) by (by rewrite (ev_untouched _ _ _ _ _ _ Hev2 Hp) by (by intros ?%not_elem_of_nil)).
  destruct (swap_info b2 r p (pInfo p) n (u64 (Version (pInfo p) + 1)) false None true NodeNormal (ev_heap _ _ _ _ Hev2) Hp2 eq_refl)
    as (b3 & b4 & E3 & E4 & Hev4 & Hr4 & Hpm4 & _).
  rewrite (stM_bind_ret _ _ _ _ _ E3), (stM_bind_ret _ _ _ _ _ E4). cbn [negb]. set (p4 := set_pInfo _ p) in *.
  pose proof (h_epoch _ (ev_heap _ _ _ _ Hev4)) as He.
  rewrite (stM_bind_ret _ _ _ _ _ (merge_off _ _ _ He)), (stM_bind_ret _ _ _ _ _ (retire_off _ _ He)).
  unfold addSize. rewrite stM_bind_modify. eexists. split; [reflexivity|].
  assert (Hev04 : evolves [n] [r] b b4).
  { eapply evolves_step; [eapply evolves_weaken; [|exact Hev2]|exact Hev4]. by intros ? ?%not_elem_of_nil. }
  destruct (focus_nodes _ _ _ Ht) as (_ & Hctx & _ & Hd). pose proof (t_ordered _ _ Ht) as Ho.
  unfold t in Ho. rewrite flat_plug in Ho by (by eapply ctx_wf). cbn [flat] in Ho.
  assert (Hflat : forall l, flat (plug fs (TLeaf r l)) = ctx_pre fs ++ leaf_items l ++ ctx_post fs).
  { intros l. by rewrite flat_plug by (by eapply ctx_wf). }
  exists (plug fs (TLeaf r es')), o, d. split; [|split; [|split; [done|]]].
  - apply (tree_ext b4); try done. apply (tree_subst [n] [r] b b4 fs (TLeaf r es)); try done.
    + apply Ht.
    + apply Ht.
    + apply Forall_singleton. exists p4. cbn [fst snd]. split; [by rewrite Hr4, lookup_insert_eq|].
      constructor; [split; [done|by left]|done|by eapply ev_new, list_elem_of_singleton|]. rewrite Hpm4. by apply Hkeep.
    + apply NoDup_singleton.
    + intros x Hx. by left.
    + rewrite Hflat. eapply ordered_replace; [exact Ho|exact Ha|apply Hl|done].
  - unfold t. rewrite !Hflat. by apply around_update.
  - cbn. rewrite (ev_size _ _ _ _ Hev04), (ev_avail _ _ _ _ Hev04). split; [done|]. split; [|unfold zlen; cbn [length]; lia].
    by apply Nat.le_le_succ_r, height_plug_mono.
Qed.

Lemma leafAttempt_ok (key : bytes) (Q : option bytes -> Prop) (P : option bytes -> option bytes -> Z -> Prop)
    (mutate : mutateFunc) (b : BTree) fs r es p (t := plug fs (TLeaf r es)) :
  mutation_ok key Q P mutate -> tree_ok b t -> refs b !! r = Some p -> leaf_at b p es ->
  around key (ctx_pre fs) (ctx_post fs) ->
  3 * Z.of_nat (length fs) + 4 < avail (pm b) -> Q (items_map (flat t) !! key) ->
  (exists b', leafAttempt r (pInfo p) (pathOf fs r) key mutate b = (b', Ret Finished) /\ wrote b t key P b') \/
  (exists b' e news D, leafAttempt r (pInfo p) (pathOf fs r) key mutate b = (b', Fail e) /\ hard e /\ evolves news D b b' /\ zlen news <= 3 /\ tree_ok b' t).
Proof.
  intros Hm Ht Hp [Hq Hf Hlive Hl] Ha Hav HQ. pose proof (t_heap _ _ Ht) as Hh. unfold leafAttempt.
  change (PageID (pInfo p)) with (page p).
  rewrite (GetLeafPage_ok b (page p) es Hh Hlive Hl), (stM_bind_ret _ _ _ _ _ (GetPageInfo_ok b r p Hp)), Z.eqb_refl.
  cbn [negb]. destruct (IsFull (pm b) (page p) (zlen key) 0).
  { by apply (splitAttempt_ok key Q P mutate b fs r es p). }
  assert (Hold : items_map (flat t) !! key = (list_to_map es : kvmap) !! key).
  { apply (found_lookup b t key fs r es Ht). by split. }
  destruct (Hm b (page p) es Hh Hlive Hl ltac:(lia) ltac:(by rewrite <- Hold)) as
    [(b1 & n & d & td & es' & o & E & Hev & _ & _ & Hl' & Hmap & Hk & HP)|(b1 & e & E & Hev & _ & _ & He)].
  - left. rewrite (stM_bind_ret _ _ _ _ _ (onErr_ret _ _ _ _ _ E)). cbn [inPlace cowMutation].
    rewrite <- Hold in HP. by eapply publishAttempt_ok.
  - right. exists b1, (wrapAs "btree: write operation mutate key" e), [], [].
    split; [apply (stM_bind_fail _ _ _ _ _); unfold onErr; by rewrite E|]. split; [by apply hard_Wrap|]. split; [exact Hev|]. split; [done|].
    eapply tree_ev; [exact Hev|done|]. by intros ? _ ?%not_elem_of_nil.
Qed.

Lemma leaf_writable {A} b p es (x y z : A) :
  leaf_at b p es -> (if unwritable (pInfo p) then x else if bool_decide (State (pInfo p) = NodeSplitting) then y else z) = z.
Proof.
  intros Hl. destruct (la_quiet _ _ _ Hl) as [Hrd Hst]. unfold unwritable. rewrite Hrd, (la_leaf _ _ _ Hl).
  by destruct Hst as [-> | ->].
Qed.

(** One attempt is enough when nobody interferes: the write takes place, or it
    fails for good and leaves the tree as it was. *)
Lemma writeAttempt_ok (key : bytes) (Q : option bytes -> Prop) (P : option bytes -> option bytes -> Z -> Prop)
    (mutate : mutateFunc) (b : BTree) (t : tree) :
  mutation_ok key Q P mutate -> tree_ok b t -> 3 * Z.of_nat (height t) + 4 < avail (pm b) -> Q (items_map (flat t) !! key) ->
  (exists b', writeAttempt key mutate b = (b', Ret Finished) /\ wrote b t key P b') \/
  (exists b' e news D, writeAttempt key mutate b = (b', Fail e) /\ hard e /\ evolves news D b b' /\ zlen news <= 3 /\ tree_ok b' t).
Proof.
  intros Hm Ht Hav HQ. destruct (searchPath_ok b t key Ht) as (fs & r & es & Hf & E).
  destruct (found_leaf _ _ _ _ _ _ Ht Hf) as (p & Hp & Hl). destruct Hf as [-> Ha]. unfold writeAttempt. rewrite E.
  rewrite (stM_bind_ret _ _ _ _ _ (pathLeaf_ok fs r b)). cbn [Ref].
  rewrite (stM_bind_ret _ _ _ _ _ (GetPageInfo_ok b r p Hp)), (leaf_writable _ _ _ _ _ _ Hl).
  apply (leafAttempt_ok key Q P); try done. pose proof (height_plug fs (TLeaf r es)). lia.
Qed.

Lemma writeOperation_ok (key : bytes) (Q : option bytes -> Prop) (P : option bytes -> option bytes -> Z -> Prop)
    (mutate : mutateFunc) (b : BTree) (t : tree) n :
  mutation_ok key Q P mutate -> tree_ok b t -> 3 * Z.of_nat (height t) + 4 < avail (pm b) -> Q (items_map (flat t) !! key) ->
  (exists b', writeOperation key mutate (S n) b = (b', Ret tt) /\ wrote b t key P b') \/
  (exists b' e news D, writeOperation key mutate (S n) b = (b', Fail e) /\ hard e /\ evolves news D b b' /\ zlen news <= 3 /\ tree_ok b' t).
Proof.
  intros Hm Ht Hav HQ. unfold writeOperation. cbn [writeLoop].
  destruct (writeAttempt_ok key Q P mutate b t Hm Ht Hav HQ) as [(b' & E & Hw)|(b' & e & news & D & E & He)].
  - left. exists b'. by rewrite (stM_bind_ret _ _ _ _ _ E).
  - right. exists b', e, news, D. by rewrite (stM_bind_fail _ _ _ _ _ E).
Qed.

(** ** Mutations *)

Lemma IsErr_one e x y : IsErr e x = true -> x <> y -> IsErr e y = false.
Proof. destruct e; cbn; rewrite bool_decide_eq_true; intros <- Hne; by apply bool_decide_eq_false_2. Qed.

Lemma onPages_ok {A} (f : PageManager -> outcome A) a b : f (pm b) = Ret a -> onPages f b = (b, Ret a).
Proof. intros E. unfold onPages. by rewrite E. Qed.

Lemma onPM_ok {A} (m : stM PageManager A) b s o : m (pm b) = (s, o) -> onPM m b = (with_pm s b, o).
Proof. intros E. unfold onPM. by rewrite E. Qed.

Section mutations.
Context (b : BTree) (pg : Z) (es : list (bytes * bytes)) (key : bytes).
Context (Hh : heap_ok b) (Hlive : live (pm b) pg) (Hl : leaf_list (pm b) pg es) (Hav : 0 < avail (pm b)).

(** The value of a key that is there is replaced. *)
Lemma update_entry i v value bo bn :
  es !! i = Some (key, v) -> zlen key + zlen value < 2 ^ 31 -> tombstoneOf v = Ret bo -> tombstoneOf value = Ret bn ->
  (exists s n es', onPM (Update pg (Z.of_nat i) value) b = (with_pm s b, Ret n) /\ evolves [n] [] b (with_pm s b) /\
     leaf_list s n es' /\ (list_to_map es' : kvmap) = partial_alter (fun _ => Some value) key (list_to_map es) /\
     (forall k, k ∈ es'.*1 -> k = key \/ k ∈ es.*1)) \/
  (exists s e, onPM (Update pg (Z.of_nat i) value) b = (with_pm s b, Fail e) /\ evolves [] [] b (with_pm s b) /\ hard e).
Proof.
  intros Hi Hsz Ho Hn. pose proof Hl as [[d Hok] Hs].
  pose proof (leaf_Update_ok (pm b) pg d es i key v value (h_pm _ Hh) Hlive Hok Hs Hav Hi Hsz bo bn Ho Hn) as H.
  destruct (decide _) as [_|_] in H; [left|right].
  - destruct H as (n & s & d' & E & Hg & Hok' & _). exists s, n, (<[i := (key, value)]> es).
    split; [by apply onPM_ok|]. split; [by apply ev_pages|].
    rewrite (map_update_at _ _ _ _ _ (sorted_nodup _ Hs) Hi), (update_keys _ _ _ _ _ Hi). split; [|by auto].
    split; [by eexists|]. by rewrite (update_keys _ _ _ _ _ Hi).
  - destruct H as (s & e & E & He & Hg). exists s, e. split; [by apply onPM_ok|]. split; [by apply ev_pages|].
    split; by eapply IsErr_one.
Qed.

(** A key that is not there is added. *)
Lemma insert_entry value :
  key ∉ es.*1 -> zlen key + zlen value < 2 ^ 31 ->
  (exists s n es', onPM (Insert pg key value) b = (with_pm s b, Ret n) /\ evolves [n] [] b (with_pm s b) /\
     leaf_list s n es' /\ (list_to_map es' : kvmap) = partial_alter (fun _ => Some value) key (list_to_map es) /\
     (forall k, k ∈ es'.*1 -> k = key \/ k ∈ es.*1)) \/
  (exists s e, onPM (Insert pg key value) b = (with_pm s b, Fail e) /\ evolves [] [] b (with_pm s b) /\ hard e).
Proof.
  intros Hk Hsz. pose proof Hl as [[d Hok] Hs].
  pose proof (Insert_ok (pm b) pg d es key value (h_pm _ Hh) Hlive Hok Hs Hav Hsz) as H.
  rewrite decide_False in H by done. destruct (decide _) as [_|_] in H; [left|right].
  - destruct H as (n & s & E & Hg & Hok' & _). exists s, n, (insert_at (lower_bound key (es.*1)) (key, value) es).
    split; [by apply onPM_ok|]. split; [by apply ev_pages|].
    rewrite (map_insert_at _ _ _ _ (sorted_nodup _ Hs) Hk). split; [|split; [done|]].
    + split; [by eexists|]. rewrite insert_at_fmap. by apply sorted_insert_at.
    + intros k. rewrite insert_at_fmap, insert_at_perm. by intros [?|?]%elem_of_cons; [left|right].
  - destruct H as (s & E & Hg). eexists s, _. split; [by apply onPM_ok|]. split; [by apply ev_pages|]. by apply hard_Wrap.
Qed.

Lemma delete_entry i v :
  es !! i = Some (key, v) ->
  exists s n es', onPM (Delete pg (Z.of_nat i)) b = (with_pm s b, Ret n) /\ evolves [n] [] b (with_pm s b) /\
    leaf_list s n es' /\ (list_to_map es' : kvmap) = partial_alter (fun _ => None) key (list_to_map es) /\
    (forall k, k ∈ es'.*1 -> k = key \/ k ∈ es.*1).
Proof.
  intros Hi. pose proof Hl as [[d Hok] Hs].
  destruct (Delete_ok (pm b) pg d es i (h_pm _ Hh) Hlive Hok Hav (lookup_lt_Some _ _ _ Hi)) as (n & s & E & Hg & Hok').
  exists s, n, (remove_at i es). split; [by apply onPM_ok|]. split; [by apply ev_pages|].
  rewrite (map_remove_at _ _ _ _ (sorted_nodup _ Hs) Hi). split; [|split; [done|]].
  - split; [by eexists|]. rewrite remove_at_fmap. by apply sorted_remove_at.
  - intros k Hk. right. rewrite (remove_at_perm _ _ _ Hi). by right.
Qed.

End mutations.

(** *** The adapter *)

(** Values the decoder accepts or refuses, without panicking. *)
Definition decodable (v : bytes) : Prop := exists b, tombstoneOf v = Ret b.

(** A write of [value] over [old] that changes the size by [d]. *)
Definition set_effect (value : bytes) (old o : option bytes) (d : Z) : Prop :=
  o = Some value /\ match old with None => d = 1 | Some v => Adapter.revives v value = Ret d end.

Lemma revives_ok v value : decodable v -> decodable value -> exists d, Adapter.revives v value = Ret d /\ (d = 0 \/ d = 1).
Proof.
  intros [x Hx] [y Hy]. unfold tombstoneOf in *. unfold Adapter.revives.
  destruct (ParseMVCC v) as [mv| |]; [|by eauto|done]. destruct (IsTombstone mv); [|by eauto].
  destruct (ParseMVCC value) as [mv'| |]; [|by eauto|done]. destruct (IsTombstone mv'); eauto.
Qed.

Lemma adapter_set_mutation key value :
  zlen key + zlen value < 2 ^ 31 -> decodable value ->
  mutation_ok key (fun old => forall v, old = Some v -> decodable v) (set_effect value) (Adapter.setMutation key value).
Proof.
  intros Hsz Hv b pg es old Hh Hlive Hl Hav HQ. unfold Adapter.setMutation.
  pose proof (leaf_search_cases _ _ _ key Hl) as Hs. fold old in Hs. destruct old as [v|] eqn:Hold.
  - destruct Hs as (i & Es & Hi & Ev). destruct (revives_ok v value (HQ v eq_refl) Hv) as (dl & Er & _).
    rewrite (stM_bind_ret _ _ _ _ _ (onPages_ok _ _ _ Es)). cbn [snd fst].
    rewrite (stM_bind_ret _ _ _ _ _ (onPages_ok _ _ _ Ev)), Er, stM_bind_lift.
    destruct (HQ v eq_refl) as [bo Hbo], Hv as [bn Hbn].
    destruct (update_entry b pg es key Hh Hlive Hl Hav i v value bo bn Hi Hsz Hbo Hbn) as
      [(s & n & es' & E & Hev & Hl' & Hm & Hk)|(s & e & E & Hev & He)]; [left|right].
    + rewrite (stM_bind_ret _ _ _ _ _ E). exists (with_pm s b), n, dl, 0, es', (Some value). by split_and!.
    + rewrite (stM_bind_fail _ _ _ _ _ E). by exists (with_pm s b), e.
  - destruct Hs as [Es Hn]. rewrite (stM_bind_ret _ _ _ _ _ (onPages_ok _ _ _ Es)). cbn [snd fst].
    destruct (insert_entry b pg es key Hh Hlive Hl Hav value Hn Hsz) as
      [(s & n & es' & E & Hev & Hl' & Hm & Hk)|(s & e & E & Hev & He)]; [left|right].
    + rewrite (stM_bind_ret _ _ _ _ _ E). exists (with_pm s b), n, 1, 0, es', (Some value). by split_and!.
    + rewrite (stM_bind_fail _ _ _ _ _ E). by exists (with_pm s b), e.
Qed.

Definition delete_effect (old o : option bytes) (d : Z) : Prop := is_Some old /\ o = None /\ d = -1.

Lemma adapter_delete_mutation key : mutation_ok key (fun _ => True) delete_effect (Adapter.deleteMutation key).
Proof.
  intros b pg es old Hh Hlive Hl Hav _. unfold Adapter.deleteMutation.
  pose proof (leaf_search_cases _ _ _ key Hl) as Hs. fold old in Hs. destruct old as [v|] eqn:Hold.
  - destruct Hs as (i & Es & Hi & _). rewrite (stM_bind_ret _ _ _ _ _ (onPages_ok _ _ _ Es)). cbn [snd fst negb].
    destruct (delete_entry b pg es key Hh Hlive Hl Hav i v Hi) as (s & n & es' & E & Hev & Hl' & Hm & Hk). left.
    rewrite (stM_bind_ret _ _ _ _ _ E). exists (with_pm s b), n, (-1), 0, es', None. by split_and!.
  - destruct Hs as [Es Hn]. rewrite (stM_bind_ret _ _ _ _ _ (onPages_ok _ _ _ Es)). cbn [snd negb]. right.
    exists b, (Sentinel ErrMVCCKeyNotFound). split_and!; try done. by apply ev_refl.
Qed.

