(* ===== verification/TreeStore.v ===== *)
(** * The store over the B+Tree

    The adapter's reads, writes and deletes, over a tree in memory, refine a map
    with a size: a simulation of any sequence of calls, from the creation of the
    tree.  Batched reads.  What batched writes lose. *)

From stdpp Require Import base list gmap sorting strings.
From Stdlib Require Import ZArith Lia.
From S2P Require Import Prelude MvccCodec OffHeap PageLayout LeafPage LeafMap NodePage NodeMap Merge BTree TreeOps TreeShape TreeInv TreeHeap TreeSplit TreeLeafSplit TreeWrite.

Local Open Scope Z_scope.

(** ** Creation *)

Lemma Alloc_first s s' p : pm_ok s -> nextPageID s = 0 -> Alloc s = (s', Ret p) -> p = 0.
Proof.
  intros Hok Hz. assert (freeList s = []) as Hf.
  { pose proof (ok_free _ Hok) as H. destruct (freeList s); [done|]. apply Forall_cons in H as [H _]. lia. }
  unfold Alloc. rewrite stM_bind_get, Hf. unfold allocNext. rewrite stM_bind_get, Hz.
  unfold mbind, stM_bind, putS, modifyS, addUsed, failS. cbv zeta beta. destruct (total s <=? _); by inversion 1.
Qed.

(** The page manager before the tree is made: page 0 is in use, or will be the
    root's. *)
Definition first_page (s : PageManager) : Prop := live s 0 \/ nextPageID s = 0.

Lemma NewBTree_ok s :
  pm_ok s -> first_page s -> 0 < avail s ->
  exists b, NewBTree s false = (b, Ret tt) /\ tree_ok b (TLeaf rootRef []) /\ size b = 0 /\ avail (pm b) = avail s - 1.
Proof.
  intros Hok Hf Hav. destruct (grew_alloc [] s s (grew_refl s Hok) Hav) as (p & s1 & E1 & Hg1 & _).
  destruct (gr_fresh _ _ _ Hg1 p ltac:(by left)) as [Hnl _].
  destruct (fresh_leaf s1 p p 1 [] s Hg1 Hnl) as (s2 & E2 & Hg2 & Hleaf & _).
  unfold NewBTree. set (b0 := mkBTree _ _ _ _ _ _ _ _ _ _ _ _).
  assert (E : AllocLeafPage b0 = (with_dirty (u64 (dirtyBytes b0 + PageSize)) (with_pm s2 b0), Ret p)).
  { unfold AllocLeafPage, storageCheckOpen. rewrite <- stM_bind_assoc, stM_bind_get. cbn [storageClosed b0].
    rewrite (stM_bind_ret _ _ b0 b0 tt eq_refl), (stM_bind_ret _ _ _ _ _ (onErr_pm Alloc _ b0 s1 (Ret p) E1)).
    rewrite (stM_bind_ret _ _ _ (with_pm s2 b0) tt) by (unfold onPM; cbn [pm with_pm]; by rewrite E2).
    unfold addDirty. by rewrite stM_bind_modify. }
  rewrite (stM_bind_ret _ _ _ _ _ (onErr_ret _ _ _ _ _ E)). eexists. split; [reflexivity|].
  assert (Hl2 : live s2 p) by (apply (gr_live _ _ _ Hg2); right; by left).
  split; [|split; [done|cbn; by rewrite (gr_avail _ _ _ Hg2)]]. constructor; try done.
  - constructor; cbn; try done; [apply Hg2| |].
    + destruct Hf as [Hf|Hf]; [apply (gr_live _ _ _ Hg2); by left|]. by rewrite <- (Alloc_first s s1 p Hok Hf E1).
    + intros r q [<- <-]%lookup_singleton_Some. cbn. unfold rootRef. lia.
  - apply Forall_singleton. eexists. split; [apply lookup_singleton_eq|]. constructor; [split; [done|by right]|done|done|].
    split; [by exists 0|constructor].
  - apply NoDup_singleton.
  - constructor.
Qed.

(** ** Reads *)

(** What [Get] makes of a raw value. *)
Definition visible (raw : option bytes) : outcome bytes :=
  match raw with
  | None => Fail errKeyNotFound
  | Some raw =>
      match ParseMVCC raw with
      | Ret mv => if IsTombstone mv then Fail errKeyNotFound else Ret (RealVal mv)
      | Fail e => Fail e
      | Panic => Panic
      end
  end.

Definition or_missing (e : gerr) (raw : option bytes) : outcome bytes := from_option Ret (Fail e) raw.

Lemma checkOpen_ok b : heap_ok b -> checkOpen b = (b, Ret tt).
Proof. intros Hh. unfold checkOpen. by rewrite stM_bind_get, (h_open _ Hh). Qed.

Section reads.
Context (b : BTree) (t : tree) (Ht : tree_ok b t) (m : kvmap) (Hm : m = items_map (flat t)).

Lemma read_ok {A} (f : option bytes -> stM BTree A) key :
  (_ ← checkOpen; raw ← leafLookup key; f raw) b = f (m !! key) b.
Proof using All.
  subst m. rewrite (stM_bind_ret _ _ _ _ _ (checkOpen_ok b (t_heap _ _ Ht))).
  by rewrite (stM_bind_ret _ _ _ _ _ (leafLookup_ok b t key Ht)).
Qed.

Lemma getRawBytes_ok key : getRawBytes key b = (b, or_missing errKeyNotFound (m !! key)).
Proof using All. unfold getRawBytes. rewrite read_ok. by destruct (m !! key). Qed.
Lemma adapter_GetRaw_ok key : Adapter.GetRaw key b = (b, or_missing (Sentinel ErrMVCCKeyNotFound) (m !! key)).
Proof using All. unfold Adapter.GetRaw. rewrite read_ok. by destruct (m !! key). Qed.
Lemma Get_ok key : Get key b = (b, visible (m !! key)).
Proof using All.
  unfold Get. rewrite read_ok. destruct (m !! key) as [raw|]; [|done]. cbn [visible].
  destruct (ParseMVCC raw) as [mv|e|] eqn:E; unfold mbind, stM_bind, liftS; rewrite ?E; [|done..].
  by destruct (IsTombstone mv).
Qed.

(** *** Batches *)

Lemma leafValues_ok {A} (f : bytes -> stM BTree (option A)) (g : bytes -> option A) pg es ks :
  leaf_list (pm b) pg es -> (forall k raw, (list_to_map es : kvmap) !! k = Some raw -> f raw b = (b, Ret (g raw))) ->
  leafValues pg f ks b = (b, Ret ((fun ik : nat * bytes => (ik.1, (list_to_map es : kvmap) !! ik.2 ≫= g)) <$> ks)).
Proof using All.
  intros Hl Hf. induction ks as [|[i k] ks IH]; [done|]. cbn [leafValues fmap list_fmap fst snd].
  pose proof (leaf_search_cases _ _ _ k Hl) as Hs. destruct ((list_to_map es : kvmap) !! k) as [raw|] eqn:Ek.
  - destruct Hs as (j & Es & _ & Ev). rewrite (stM_bind_ret _ _ _ _ _ (onPages_ok _ _ _ Es)). cbn [snd negb fst].
    rewrite (stM_bind_ret _ _ b b (g raw)); [by rewrite (stM_bind_ret _ _ _ _ _ IH)|].
    by rewrite (stM_bind_ret _ _ _ _ _ (onPages_ok _ _ _ Ev)), (Hf k raw Ek).
  - destruct Hs as [Es _]. rewrite (stM_bind_ret _ _ _ _ _ (onPages_ok _ _ _ Es)). cbn [snd negb].
    rewrite (stM_bind_ret _ _ b b None eq_refl). by rewrite (stM_bind_ret _ _ _ _ _ IH).
Qed.

End reads.

Lemma foldl_write_other {A} (rs : list (nat * A)) (acc : list A) i :
  i ∉ rs.*1 -> foldl (fun acc r => <[r.1 := r.2]> acc) acc rs !! i = acc !! i.
Proof.
  revert acc. induction rs as [|[j v] rs IH]; intros acc Hi; [done|]. cbn in *.
  apply not_elem_of_cons in Hi as [Hj Hi]. rewrite IH by done. by apply list_lookup_insert_ne.
Qed.

Lemma foldl_insert_in {A} (rs : list (nat * A)) (acc : list A) i v :
  NoDup (rs.*1) -> (i, v) ∈ rs -> (i < length acc)%nat -> foldl (fun acc r => <[r.1 := r.2]> acc) acc rs !! i = Some v.
Proof.
  revert acc. induction rs as [|[j w] rs IH]; intros acc Hn Hin Hi; [by apply not_elem_of_nil in Hin|].
  apply NoDup_cons in Hn as [Hj Hn]. cbn. apply elem_of_cons in Hin as [[= -> ->]|Hin].
  - rewrite foldl_write_other by done. by apply list_lookup_insert_eq.
  - apply IH; [done..|]. by rewrite length_insert.
Qed.

Lemma foldl_insert_length {A} (rs : list (nat * A)) (acc : list A) : length (foldl (fun acc r => <[r.1 := r.2]> acc) acc rs) = length acc.
Proof. revert acc. induction rs as [|[j w] rs IH]; intros acc; [done|]. cbn. by rewrite IH, length_insert. Qed.

(** Looking the sorted keys up and putting the results back in place is looking
    them up in their order. *)
Lemma mapBack_sorted {A} (g : bytes -> option A) keys :
  mapBack (length keys) ((fun ik : nat * bytes => (ik.1, g ik.2)) <$> sortedKeys keys) = g <$> keys.
Proof.
  assert (Hp : sortedKeys keys ≡ₚ imap pair keys) by apply merge_sort_Permutation.
  assert (Hfst : (imap pair keys).*1 = seq 0 (length keys)).
  { apply list_eq. intros i. rewrite list_lookup_fmap, list_lookup_imap. destruct (keys !! i) eqn:E; cbn.
    - symmetry. apply lookup_seq. split; [done|]. by eapply lookup_lt_Some.
    - symmetry. apply lookup_seq_ge. by apply lookup_ge_None. }
  unfold mapBack. set (rs := _ <$> sortedKeys keys).
  assert (Hn : NoDup (rs.*1)).
  { unfold rs. rewrite <- list_fmap_compose. change (NoDup ((sortedKeys keys).*1)). rewrite Hp, Hfst. apply NoDup_seq. }
  apply list_eq. intros i. destruct (keys !! i) as [k|] eqn:Ek.
  - rewrite (foldl_insert_in rs _ i (g k) Hn).
    + by rewrite list_lookup_fmap, Ek.
    + unfold rs. apply list_elem_of_fmap. exists (i, k). split; [done|]. rewrite Hp. apply (list_elem_of_lookup_2 _ i).
      by rewrite list_lookup_imap, Ek.
    + rewrite length_replicate. by eapply lookup_lt_Some.
  - rewrite (lookup_ge_None_2 (g <$> keys)) by (rewrite length_fmap; by apply lookup_ge_None).
    apply lookup_ge_None. rewrite foldl_insert_length, length_replicate. by apply lookup_ge_None.
Qed.

(** What [GetBatch] keeps of the outcome of a single read. *)
Definition batched {A} (o : outcome A) : outcome (option A) :=
  match o with
  | Ret v => Ret (Some v)
  | Fail e => if IsErr e ErrBTreeKeyNotFound then Ret None else Fail e
  | Panic => Panic
  end.

Section batches.
Context (b : BTree) (t : tree) (Ht : tree_ok b t) (m : kvmap) (Hm : m = items_map (flat t)).

Lemma multiPage_ok {A} (read : bytes -> stM BTree A) (g : bytes -> option A) keys :
  (forall k, exists o, read k b = (b, o) /\ batched o = Ret (g k)) -> multiPage read keys b = (b, Ret (g <$> keys)).
Proof using Type.
  intros Hr. induction keys as [|k keys IH]; [done|]. cbn [multiPage]. destruct (Hr k) as (o & E & Eo).
  rewrite (stM_bind_ret _ _ b b (g k)); [by rewrite (stM_bind_ret _ _ _ _ _ IH)|]. rewrite E. unfold batched in Eo.
  destruct o as [v|e|]; [by injection Eo as <-| |done]. destruct (IsErr e _); [by injection Eo as <-|done].
Qed.

Lemma root_leaf p : refs b !! rootRef = Some p -> IsLeafInfo (pInfo p) = true -> exists es, t = TLeaf rootRef es.
Proof using All.
  intros Hp Hl. pose proof (t_root _ _ Ht) as Hr. pose proof (t_nodes _ _ Ht) as Hn. destruct t as [r es|r ks ts].
  - cbn in Hr. subst r. by exists es.
  - cbn in Hr. subst r. apply Forall_inv in Hn as (q & Hq & cs & Hi). cbn in Hq. rewrite Hp in Hq. injection Hq as <-.
    by rewrite (ia_inner _ _ _ _ _ Hi) in Hl.
Qed.

Lemma singlePage_ok {A} (f : bytes -> stM BTree (option A)) (g : bytes -> option A) es keys :
  t = TLeaf rootRef es -> keys <> [] -> (forall k raw, m !! k = Some raw -> f raw b = (b, Ret (g raw))) ->
  singlePage f keys b = (b, Ret ((fun k => m !! k ≫= g) <$> keys)).
Proof using All.
  intros Hte Hne Hf. unfold singlePage.
  assert (Hme : m = list_to_map es) by (rewrite Hm, Hte; unfold items_map; cbn [flat]; by rewrite kvs_leaf).
  assert (Hp : sortedKeys keys ≡ₚ imap pair keys) by apply merge_sort_Permutation.
  destruct (sortedKeys keys) as [|[i first] rest] eqn:Es.
  { apply Permutation_nil_l in Hp. destruct keys; [done|]. discriminate Hp. }
  rewrite stM_bind_lift. cbn [snd]. destruct (searchPath_ok b t first Ht) as (fs & r & es' & Hfa & E).
  destruct (found_leaf _ _ _ _ _ _ Ht Hfa) as (p & Hpr & Hl). destruct Hfa as [Hplug _].
  rewrite (stM_bind_ret _ _ _ _ _ E), (stM_bind_ret _ _ _ _ _ (pathLeaf_ok fs r b)). cbn [Ref].
  rewrite (stM_bind_ret _ _ _ _ _ (GetPageInfo_ok _ _ _ Hpr)).
  rewrite (stM_bind_ret _ _ _ _ _ (GetLeafPage_ok b _ es' (t_heap _ _ Ht) (la_live _ _ _ Hl) (la_list _ _ _ Hl))).
  assert (es' = es) as ->.
  { rewrite Hte in Hplug. destruct fs as [|f0 fs]; [by injection Hplug|]. apply (f_equal height) in Hplug.
    pose proof (height_plug (f0 :: fs) (TLeaf r es')) as Hh. rewrite <- Hplug in Hh. cbn in Hh. lia. }
  rewrite <- Es, (stM_bind_ret _ _ _ _ _ (leafValues_ok b t Ht m Hm f g _ es (sortedKeys keys) (la_list _ _ _ Hl) ltac:(by rewrite <- Hme))).
  rewrite <- Hme. cbn [mret]. unfold mret, stM_ret. by rewrite (mapBack_sorted (fun k => m !! k ≫= g) keys).
Qed.

Lemma batch_ok {A} (f : bytes -> stM BTree (option A)) (read : bytes -> stM BTree A) (g : bytes -> option A) keys :
  (forall k raw, m !! k = Some raw -> f raw b = (b, Ret (g raw))) ->
  (forall k, exists o, read k b = (b, o) /\ batched o = Ret (m !! k ≫= g)) ->
  batch f read keys b = (b, Ret ((fun k => m !! k ≫= g) <$> keys)).
Proof using All.
  intros Hf Hr. unfold batch. rewrite (stM_bind_ret _ _ _ _ _ (checkOpen_ok b (t_heap _ _ Ht))).
  destruct (decide (keys = [])) as [->|Hne]; [done|].
  destruct (child_quiet b t (t_nodes _ _ Ht)) as (p & Hp & _). rewrite (t_root _ _ Ht) in Hp.
  rewrite (stM_bind_ret _ _ _ _ _ (GetPageInfo_ok _ _ _ Hp)). destruct (IsLeafInfo (pInfo p)) eqn:Hl; cbn [negb].
  - destruct (root_leaf p Hp Hl) as [es Hte]. by apply (singlePage_ok f g es).
  - by apply (multiPage_ok read (fun k => m !! k ≫= g)).
Qed.

Lemma getBatchRaw_ok keys : getBatchRawBytes keys b = (b, Ret ((fun k => m !! k) <$> keys)).
Proof using All.
  unfold getBatchRawBytes. rewrite (batch_ok _ _ Some keys).
  - do 2 f_equal. apply list_fmap_ext. intros _ k _. by destruct (m !! k).
  - done.
  - intros k. eexists. rewrite (getRawBytes_ok b t Ht m Hm k). split; [done|]. by destruct (m !! k).
Qed.

(** The value of a raw value that parses. *)
Definition shown (raw : bytes) : option bytes :=
  match ParseMVCC raw with Ret mv => if IsTombstone mv then None else Some (RealVal mv) | _ => None end.

Lemma GetBatch_ok keys :
  map_Forall (fun _ raw => exists mv, ParseMVCC raw = Ret mv) m ->
  GetBatch keys b = (b, Ret ((fun k => m !! k ≫= shown) <$> keys)).
Proof using All.
  intros Hp. unfold GetBatch. apply batch_ok.
  - intros k raw Hk. destruct (Hp k raw Hk) as [mv E]. unfold visibleValue, shown. by rewrite E.
  - intros k. eexists. rewrite (Get_ok b t Ht m Hm k). split; [done|]. destruct (m !! k) as [raw|] eqn:Hk; [|done].
    destruct (Hp k raw Hk) as [mv E]. cbn. unfold shown. rewrite E. by destruct (IsTombstone mv).
Qed.

End batches.

(** ** The store as a map with a size *)

Inductive op := OpGet (key : bytes) | OpSet (key value : bytes) | OpDelete (key : bytes).
Inductive reply := Value (v : bytes) | Done | Error (e : gerr) | Panicked.

Definition reply_of {A} (f : A -> reply) (o : outcome A) : reply :=
  match o with Ret a => f a | Fail e => Error e | Panic => Panicked end.

Definition exec (o : op) (b : BTree) : BTree * reply :=
  match o with
  | OpGet key => let '(b, r) := Adapter.GetRaw key b in (b, reply_of Value r)
  | OpSet key value => let '(b, r) := Adapter.Set_ key value b in (b, reply_of (fun _ => Done) r)
  | OpDelete key => let '(b, r) := Adapter.Delete_ key b in (b, reply_of (fun _ => Done) r)
  end.

Fixpoint execAll (ops : list op) (b : BTree) : BTree * list reply :=
  match ops with
  | [] => (b, [])
  | o :: ops => let '(b, r) := exec o b in let '(b, rs) := execAll ops b in (b, r :: rs)
  end.

(** What a write of [value] over [old] adds to the size: a new key counts, and a
    tombstone replaced by a value does. *)
Definition size_delta (old : option bytes) (value : bytes) (d : Z) : Prop :=
  match old with None => d = 1 | Some v => Adapter.revives v value = Ret d end.

(** The abstract store: a map from keys to raw values, and the size reported.  A
    write may fail, for want of room, and then changes nothing; it never fails
    as a conflict does. *)
Inductive spec_step : kvmap * Z -> op -> reply -> kvmap * Z -> Prop :=
| spec_found m n k v : m !! k = Some v -> spec_step (m, n) (OpGet k) (Value v) (m, n)
| spec_missing m n k : m !! k = None -> spec_step (m, n) (OpGet k) (Error (Sentinel ErrMVCCKeyNotFound)) (m, n)
| spec_set m n k v d : size_delta (m !! k) v d -> spec_step (m, n) (OpSet k v) Done (<[k := v]> m, i64 (n + d))
| spec_set_fails s k v e : hard e -> spec_step s (OpSet k v) (Error e) s
| spec_delete m n k : is_Some (m !! k) -> spec_step (m, n) (OpDelete k) Done (delete k m, i64 (n - 1))
| spec_delete_fails s k e : hard e -> spec_step s (OpDelete k) (Error e) s.

Inductive spec_steps : kvmap * Z -> list op -> list reply -> kvmap * Z -> Prop :=
| spec_done s : spec_steps s [] [] s
| spec_more s o r s1 ops rs s2 : spec_step s o r s1 -> spec_steps s1 ops rs s2 -> spec_steps s (o :: ops) (r :: rs) s2.

(** Operations whose values the decoder accepts or refuses, of a sane length. *)
Definition op_ok (o : op) : Prop :=
  match o with OpSet k v => zlen k + zlen v < 2 ^ 31 /\ decodable v | _ => True end.

Definition all_decodable (m : kvmap) : Prop := map_Forall (fun _ v => decodable v) m.

Definition abs (b : BTree) (t : tree) : kvmap * Z := (items_map (flat t), size b).

Lemma adapter_write_ok (key : bytes) Q P mutate b t :
  mutation_ok key Q P mutate -> tree_ok b t -> 3 * Z.of_nat (height t) + 4 < avail (pm b) -> Q (items_map (flat t) !! key) ->
  exists b' r, (_ ← checkOpen; writeOperation key mutate MaxCASRetries) b = (b', r) /\
    ((r = Ret tt /\ wrote b t key P b') \/
     (exists e, r = Fail e /\ hard e /\ tree_ok b' t /\ size b' = size b /\ avail (pm b) - 3 <= avail (pm b'))).
Proof.
  intros Hm Ht Hav HQ. rewrite (stM_bind_ret _ _ _ _ _ (checkOpen_ok b (t_heap _ _ Ht))).
  destruct (writeOperation_ok key Q P mutate b t 2 Hm Ht Hav HQ) as [(b' & E & Hw)|(b' & e & news & D & E & He & Hev & Hc & Ht')].
  - exists b', (Ret tt). split; [exact E|]. by left.
  - exists b', (Fail e). split; [exact E|]. right. exists e. split; [done|]. split; [done|]. split; [done|].
    split; [apply Hev|]. rewrite (ev_avail _ _ _ _ Hev). lia.
Qed.

(** One call is one step of the map. *)
Lemma exec_step o b t :
  tree_ok b t -> op_ok o -> all_decodable (items_map (flat t)) -> 3 * Z.of_nat (height t) + 4 < avail (pm b) ->
  exists b' t' r, exec o b = (b', r) /\ tree_ok b' t' /\ spec_step (abs b t) o r (abs b' t') /\
    all_decodable (items_map (flat t')) /\ (height t' <= S (height t))%nat /\
    avail (pm b) - (3 * Z.of_nat (height t) + 3) <= avail (pm b').
Proof.
  intros Ht Ho Hd Hav. unfold abs. destruct o as [key|key value|key]; cbn [exec].
  - rewrite (adapter_GetRaw_ok b t Ht _ eq_refl key). exists b, t, (reply_of Value (or_missing (Sentinel ErrMVCCKeyNotFound) (items_map (flat t) !! key))).
    split_and!; try done; [|lia..]. destruct (items_map (flat t) !! key) eqn:E; by constructor.
  - destruct Ho as [Hsz Hv].
    destruct (adapter_write_ok key _ _ _ b t (adapter_set_mutation key value Hsz Hv) Ht Hav) as
      (b' & r & E & [[-> (t' & o & d & Ht' & Hm & [-> HP] & Hs & Hh & Hc)]|(e & -> & He & Ht' & Hs & Hc)]).
    { intros v Hk. exact (Hd key v Hk). }
    + unfold Adapter.Set_. rewrite E. exists b', t', Done. split; [done|]. split; [done|].
      rewrite Hm, Hs. split; [by constructor|]. split; [|done]. exact (map_Forall_insert_2 _ _ key value Hv Hd).
    + unfold Adapter.Set_. rewrite E. exists b', t, (Error e). split; [done|]. split; [done|]. rewrite Hs.
      split; [by constructor|]. split; [done|]. split; lia.
  - destruct (adapter_write_ok key _ _ _ b t (adapter_delete_mutation key) Ht Hav I) as
      (b' & r & E & [[-> (t' & o & d & Ht' & Hm & (Hk & -> & ->) & Hs & Hh & Hc)]|(e & -> & He & Ht' & Hs & Hc)]).
    + unfold Adapter.Delete_. rewrite E. exists b', t', Done. split; [done|]. split; [done|].
      rewrite Hm, Hs. split; [by constructor|]. split; [|done]. intros k v Hkv. apply lookup_delete_Some in Hkv as [_ Hkv]. by apply (Hd k v).
    + unfold Adapter.Delete_. rewrite E. exists b', t, (Error e). split; [done|]. split; [done|]. rewrite Hs.
      split; [by constructor|]. split; [done|]. split; lia.
Qed.

(** Pages enough for [n] calls on a tree of height [h]. *)
Definition room (h : nat) (n : nat) (s : PageManager) : Prop :=
  Z.of_nat n * (3 * (Z.of_nat h + Z.of_nat n) + 5) <= avail s.

Lemma execAll_steps ops : forall b t,
  tree_ok b t -> Forall op_ok ops -> all_decodable (items_map (flat t)) -> room (height t) (length ops) (pm b) ->
  exists b' t' rs, execAll ops b = (b', rs) /\ tree_ok b' t' /\ spec_steps (abs b t) ops rs (abs b' t').
Proof.
  induction ops as [|o ops IH]; intros b t Ht Ho Hd Hr.
  { exists b, t, []. split; [done|]. split; [done|]. constructor. }
  apply Forall_cons in Ho as [Ho Hops]. unfold room in Hr. cbn [length] in Hr.
  destruct (exec_step o b t Ht Ho Hd ltac:(nia)) as (b1 & t1 & r & E & Ht1 & Hs & Hd1 & Hh & Hc).
  destruct (IH b1 t1 Ht1 Hops Hd1) as (b2 & t2 & rs & E2 & Ht2 & Hs2); [unfold room; nia|].
  exists b2, t2, (r :: rs). cbn [execAll]. rewrite E, E2. split; [done|]. split; [done|]. by econstructor.
Qed.

(** ** Theorems *)

(** C21: a search ends and does not fail on a well-formed tree, for any key: it
    reaches a leaf, over at most one reference for each level, and that leaf
    decides the key's value. *)
Theorem search_terminates b t key (Ht : tree_ok b t) :
  exists path r p es, searchPath key b = (b, Ret path) /\ last path = Some (mkEntry r (-1)) /\
    (length path <= S (height t))%nat /\ refs b !! r = Some p /\ leaf_at b p es /\
    (list_to_map es : kvmap) !! key = items_map (flat t) !! key.
Proof.
  destruct (searchPath_ok b t key Ht) as (fs & r & es & Hf & E). destruct (found_leaf _ _ _ _ _ _ Ht Hf) as (p & Hp & Hl).
  exists (pathOf fs r), r, p, es. split; [done|]. unfold pathOf. rewrite last_snoc. split; [done|].
  rewrite (found_lookup _ _ _ _ _ _ Ht Hf). split; [|done]. destruct Hf as [-> _]. pose proof (height_plug fs (TLeaf r es)).
  rewrite length_app, length_fmap, length_rev. cbn [length]. lia.
Qed.

(** Every read of the store returns what the tree's map holds and leaves the
    state alone: the raw reads the raw value or "not found", [Get] its visible
    value, with a tombstone reported as not found. *)
Theorem reads_refine b t key (Ht : tree_ok b t) (m := items_map (flat t)) :
  Adapter.GetRaw key b = (b, or_missing (Sentinel ErrMVCCKeyNotFound) (m !! key)) /\
  getRawBytes key b = (b, or_missing (Sentinel ErrBTreeKeyNotFound) (m !! key)) /\
  Get key b = (b, visible (m !! key)) /\
  GetRaw key b = (b, match m !! key with Some raw => ParseMVCC raw | None => Fail (Sentinel ErrBTreeKeyNotFound) end).
Proof.
  split; [by apply (adapter_GetRaw_ok b t)|]. split; [by apply (getRawBytes_ok b t)|]. split; [by apply (Get_ok b t)|].
  unfold GetRaw. pose proof (getRawBytes_ok b t Ht m eq_refl key) as E. destruct (m !! key) as [raw|].
  - by rewrite (stM_bind_ret _ _ _ _ _ E).
  - by rewrite (stM_bind_fail _ _ _ _ _ E).
Qed.

(** C24: a batched read agrees with single reads, whether the root is a leaf (one
    search, keys sorted and the results put back in place) or not (one search for
    each key): [getBatchRawBytes] for any values, [GetBatch] when every raw value
    parses. *)
Theorem batch_reads_agree b t keys (Ht : tree_ok b t) (m := items_map (flat t)) :
  getBatchRawBytes keys b = (b, Ret ((fun k => m !! k) <$> keys)) /\
  (map_Forall (fun _ raw => exists mv, ParseMVCC raw = Ret mv) m ->
   GetBatch keys b = (b, Ret ((fun k => match (Get k b).2 with Ret v => Some v | _ => None end) <$> keys))).
Proof.
  split; [by apply (getBatchRaw_ok b t)|]. intros Hp. rewrite (GetBatch_ok b t Ht m eq_refl keys Hp). do 2 f_equal.
  apply list_fmap_ext. intros i k _. rewrite (Get_ok b t Ht m eq_refl k). cbn [snd]. unfold shown, visible.
  destruct (m !! k) as [raw|]; [|done]. cbn. destruct (ParseMVCC raw) as [mv| |]; [|done..]. by destruct (IsTombstone mv).
Qed.



(** ** What batched writes lose *)

Lemma segment_full pg key value es b seg :
  heap_ok b -> leaf_list (pm b) pg es -> key ∉ es.*1 -> IsFull (pm b) pg (zlen key) (zlen value) = true ->
  Adapter.segmentMutation seg [(key, value)] pg b = (with_offset (seg + 0) b, Ret (cowMutation pg 0 0)).
Proof.
  intros Hh Hl Hk Hfull. unfold Adapter.segmentMutation. cbn [Adapter.segment fst snd].
  assert (Hs : Search (pm b) pg key = Ret (Z.of_nat (lower_bound key (es.*1)), false)).
  { rewrite (leaf_rep_search _ _ _ _ Hl). by rewrite bool_decide_false. }
  rewrite (stM_bind_ret _ _ b b (pg, 0, 0)).
  - by rewrite stM_bind_modify.
  - rewrite (stM_bind_ret _ _ _ _ _ (onPages_ok _ _ _ Hs)). cbn [snd]. by rewrite stM_bind_get, Hfull.
Qed.

Lemma CAS_offset r old new b b' o : CAS r old new b = (b', o) -> offset b' = offset b.
Proof.
  unfold CAS, deref, mbind, stM_bind, getS, liftS, derefOf. destruct (refs b !! r) as [p|]; [|by intros [= <- <-]].
  unfold modifyS, mret, stM_ret. cbv beta iota. destruct (_ =? _); by inversion 1.
Qed.

(** The leaf's info replaced by one for the same page. *)
Lemma publish_same b fs r es p (t := plug fs (TLeaf r es)) :
  tree_ok b t -> refs b !! r = Some p -> leaf_at b p es ->
  exists b', publishAttempt r (pInfo p) (pathOf fs r) (cowMutation (page p) 0 0) b = (b', Ret Finished) /\ tree_ok b' t /\
    offset b' = offset b.
Proof.
  intros Ht Hp Hl. pose proof (t_heap _ _ Ht) as Hh. unfold publishAttempt, applyTombstoneDelta.
  cbn [newPageID tombstoneDelta delta cowMutation]. cbn [Z.eqb]. rewrite (stM_bind_ret _ _ b b tt eq_refl).
  destruct (swap_info b r p (pInfo p) (page p) (u64 (Version (pInfo p) + 1)) false None true NodeNormal Hh Hp eq_refl)
    as (b1 & b2 & E1 & E2 & Hev & Hr & Hpm & _).
  rewrite (stM_bind_ret _ _ _ _ _ E1), (stM_bind_ret _ _ _ _ _ E2). cbn [negb]. set (p2 := set_pInfo _ p) in *.
  pose proof (h_epoch _ (ev_heap _ _ _ _ Hev)) as He.
  rewrite (stM_bind_ret _ _ _ _ _ (merge_off _ _ _ He)), (stM_bind_ret _ _ _ _ _ (retire_off _ _ He)).
  unfold addSize. rewrite stM_bind_modify. eexists. split; [reflexivity|].
  destruct (focus_nodes _ _ _ Ht) as (_ & Hctx & Hn & Hd).
  split.
  - apply (tree_ext b2); try done. apply (tree_subst [] [r] b b2 fs (TLeaf r es)); try done; try apply Ht.
    + apply Forall_singleton. exists p2. cbn [fst snd]. split; [by rewrite Hr, lookup_insert_eq|].
      destruct Hl as [_ Hlf Hlive Hll]. constructor; [split; [done|by left]|done|by eapply ev_live|]. by rewrite Hpm.
    + intros x Hx. by left.
  - cbn. rewrite (CAS_offset _ _ _ _ _ _ E2). by injection E1 as <-.
Qed.

(** The adapter's batched write can report a pair as written and not write it.
    When the leaf of a new key passes the template's guard, which leaves the value
    out, but is full for the pair, the segment is empty, the pair is stepped over
    and counted: the call returns 1 and no error, and the key is still missing. *)
Theorem adapter_batch_drops b t key value pid
  (Ht : tree_ok b t) (Hpid : ResolvePageID key b = (b, Ret pid)) (Hk : items_map (flat t) !! key = None)
  (Hguard : IsFull (pm b) pid (zlen key) 0 = false) (Hfull : IsFull (pm b) pid (zlen key) (zlen value) = true) :
  exists b', Adapter.SetBatch [(key, value)] b = (b', (1, Ret tt)) /\ tree_ok b' t /\
    Adapter.GetRaw key b' = (b', Fail (Sentinel ErrMVCCKeyNotFound)).
Proof.
  set (b0 := with_offset 0 b). assert (Ht0 : tree_ok b0 t) by (by apply (tree_ext b)).
  destruct (searchPath_refs b t key Ht) as (fs & r & es & Hf & E). destruct (found_leaf _ _ _ _ _ _ Ht0 Hf) as (p & Hp & Hl).
  assert (pid = page p) as ->.
  { unfold ResolvePageID in Hpid. rewrite (stM_bind_ret _ _ _ _ _ (E b eq_refl)), (stM_bind_ret _ _ _ _ _ (pathLeaf_ok fs r b)) in Hpid.
    cbn [Ref] in Hpid. rewrite (stM_bind_ret _ _ _ _ _ (GetPageInfo_ok b r p Hp)) in Hpid. by injection Hpid. }
  assert (Hn : key ∉ es.*1).
  { apply not_elem_of_list_to_map_2. by rewrite <- (found_lookup _ _ _ _ _ _ Ht Hf). }
  destruct Hf as [Hte _]. pose proof (t_heap _ _ Ht0) as Hh. rewrite Hte in Ht0.
  destruct (publish_same b0 fs r es p Ht0 Hp Hl) as (b1 & E1 & Ht1 & Ho1).
  assert (Ew : writeOperation key (Adapter.segmentMutation 0 [(key, value)]) MaxCASRetries b0 = (b1, Ret tt)).
  { unfold writeOperation, MaxCASRetries. cbn [writeLoop]. rewrite (stM_bind_ret _ _ b0 b1 Finished); [done|].
    unfold writeAttempt. rewrite (E b0 eq_refl), (stM_bind_ret _ _ _ _ _ (pathLeaf_ok fs r b0)). cbn [Ref].
    rewrite (stM_bind_ret _ _ _ _ _ (GetPageInfo_ok b0 r p Hp)), (leaf_writable _ _ _ _ _ _ Hl).
    unfold leafAttempt. change (PageID (pInfo p)) with (page p).
    rewrite (GetLeafPage_ok b0 (page p) es Hh (la_live _ _ _ Hl) (la_list _ _ _ Hl)).
    rewrite (stM_bind_ret _ _ _ _ _ (GetPageInfo_ok b0 r p Hp)), Z.eqb_refl. cbn [negb].
    change (pm b0) with (pm b). rewrite Hguard.
    by rewrite (stM_bind_ret _ _ _ _ _ (onErr_ret _ _ _ _ _ (segment_full (page p) key value es b0 0 Hh (la_list _ _ _ Hl) Hn Hfull))). }
  rewrite <- Hte in Ht1. exists (with_offset 1 b1). unfold Adapter.SetBatch.
  rewrite (checkOpen_ok b (t_heap _ _ Ht)). cbn [length Adapter.batchLoop]. fold b0. change (offset b0) with 0.
  change (zdrop 0 [(key, value)]) with [(key, value)]. cbv beta iota zeta. cbn [fst]. rewrite Ew, Ho1. split; [done|]. assert (Ht2 : tree_ok (with_offset 1 b1) t) by (by apply (tree_ext b1)).
  split; [done|]. by rewrite (adapter_GetRaw_ok _ t Ht2 _ eq_refl), Hk.
Qed.

(** ** The theorems on a small store *)

Definition example_store : PageManager :=
  {| total := 64; used := 0; nextPageID := 0; freeList := []; mem := ∅ |}.

Lemma example_store_ok : pm_ok example_store /\ first_page example_store.
Proof. split; [constructor; cbn; try constructor; lia|by right]. Qed.

(** The store after some calls. *)
Definition example_after (ops : list op) : BTree := (execAll ops (NewBTree example_store false).1).1.

Lemma example_after_ok ops : Forall op_ok ops -> (length ops <= 3)%nat -> exists t, tree_ok (example_after ops) t.
Proof.
  intros Ho Hl. destruct example_store_ok as [Hok Hf].
  destruct (NewBTree_ok example_store Hok Hf) as (b0 & E0 & Ht0 & Hs0 & Hav); [reflexivity|].
  destruct (execAll_steps ops b0 _ Ht0 Ho) as (b & t & rs & E & Ht & _); [done| |].
  - unfold room. cbn [height]. rewrite Hav. change (avail example_store) with 64. nia.
  - exists t. unfold example_after. rewrite E0. cbn [fst]. by rewrite E.
Qed.

(** A value as the engine encodes it, and a long one. *)
Definition example_value : bytes :=
  match BuildMVCC FlagNormal 5 [7] 0 0 [] with Ret v => v | _ => [] end.
Definition long_value : bytes := example_value ++ zeros 3700.

Definition small_calls : list op := [OpSet [1] example_value; OpGet [1]; OpDelete [1]].
Lemma small_calls_ok : Forall op_ok small_calls.
Proof. apply Forall_cons. split; [split; [reflexivity|by exists false]|]. by repeat constructor. Qed.

Definition one_call (v : bytes) : list op := [OpSet [1] v].
Lemma one_call_ok v : zlen v < 2 ^ 30 -> decodable v -> Forall op_ok (one_call v).
Proof. intros Hl Hd. apply Forall_singleton. split; [|done]. change (zlen [1]) with 1. lia. Qed.
Lemma one_small_ok : Forall op_ok (one_call example_value).
Proof. apply one_call_ok; [reflexivity|by exists false]. Qed.
Lemma one_long_ok : Forall op_ok (one_call long_value).
Proof. apply one_call_ok; [reflexivity|exists false; by vm_compute]. Qed.

(** Keys that fill a leaf after four of them. *)
Definition wide (n : Z) : bytes := replicate 900 n.

Definition five_calls : list op := (fun n => OpSet (wide n) value1) <$> [10; 20; 30; 40; 50].
Definition two_leaves : BTree := example_after five_calls.

(** A batch in ascending order that spans two leaves is written into the first
    of them: the call reports both pairs as written, and the second is missing. *)
Theorem adapter_batch_misplaces :
  let r := Adapter.SetBatch [([5], value1); ([45], value1)] two_leaves in
  (execAll five_calls (NewBTree example_store false).1).2 = replicate 5 Done /\ keys_sorted [[5]; [45]] /\
  r.2 = (2, Ret tt) /\ (Adapter.GetRaw [5] r.1).2 = Ret value1 /\
  (Adapter.GetRaw [45] r.1).2 = Fail (Sentinel ErrMVCCKeyNotFound).
Proof.
  cbv zeta. split; [by vm_compute|]. split; [repeat constructor|]. split; [by vm_compute|]. split; by vm_compute.
Qed.

(** The store with four wide keys, which fill its only leaf. *)
Definition full_leaf : BTree :=
  foldl (fun b n => (Set_ (wide n) [1] b).1) (NewBTree example_store false).1 [10; 20; 30; 40].

(** [Set] on a full leaf with a key that is there and a value that fits in its
    place splits the leaf, does not write the value, and reports success. *)
Theorem set_lost_on_full_leaf :
  let r := Set_ (wide 20) [2] full_leaf in
  r.2 = Ret tt /\ (Get (wide 20) full_leaf).2 = Ret [1] /\ (Get (wide 20) r.1).2 = Ret [1].
Proof. cbv zeta. split; [by vm_compute|]. split; by vm_compute. Qed.

Lemma search_terminates_witness :
  exists path r, searchPath [1] (example_after (one_call example_value)) = (example_after (one_call example_value), Ret path) /\
    last path = Some (mkEntry r (-1)).
Proof.
  destruct (example_after_ok _ one_small_ok) as [t Ht]; [apply Nat.leb_le; reflexivity|].
  destruct (search_terminates _ t [1] Ht) as (path & r & p & es & E & Hl & _).
  exists path, r. exact (conj E Hl).
Defined.

Lemma spec_one k v n m n' : spec_steps (∅, n) [OpSet k v] [Done] (m, n') -> m = {[ k := v ]}.
Proof. inversion 1 as [|? ? ? ? ? ? ? H1 H2]; subst. inversion H2; subst. by inversion H1. Qed.

Lemma example_map :
  exists t, tree_ok (example_after (one_call example_value)) t /\ items_map (flat t) = {[ [1] := example_value ]}.
Proof.
  destruct example_store_ok as [Hok Hf].
  destruct (NewBTree_ok example_store Hok Hf) as (b0 & E0 & Ht0 & Hs0 & Hav); [reflexivity|].
  destruct (execAll_steps (one_call example_value) b0 _ Ht0 one_small_ok) as (b & t & rs & E & Ht & Hs); [done| |].
  { unfold room. cbn [height]. rewrite Hav. change (avail example_store) with 64. cbn [length one_call]. lia. }
  assert (Eb : b = example_after (one_call example_value)) by (unfold example_after; rewrite E0; cbn [fst]; by rewrite E).
  assert (Er : rs = (execAll (one_call example_value) (NewBTree example_store false).1).2) by (rewrite E0; cbn [fst]; by rewrite E).
  assert (Ed : (execAll (one_call example_value) (NewBTree example_store false).1).2 = [Done]) by (by vm_compute).
  rewrite Ed in Er. subst rs. exists t. rewrite <- Eb. split; [exact Ht|].
  unfold abs in Hs. exact (spec_one _ _ _ _ _ Hs).
Qed.

Lemma ResolvePageID_pure b t key : tree_ok b t -> ResolvePageID key b = (b, (ResolvePageID key b).2).
Proof.
  intros Ht. destruct (searchPath_ok b t key Ht) as (fs & r & es & Hf & E). destruct (found_leaf _ _ _ _ _ _ Ht Hf) as (p & Hp & Hl).
  unfold ResolvePageID. rewrite (stM_bind_ret _ _ _ _ _ E), (stM_bind_ret _ _ _ _ _ (pathLeaf_ok fs r b)). cbn [Ref].
  by rewrite (stM_bind_ret _ _ _ _ _ (GetPageInfo_ok _ _ _ Hp)).
Qed.

Lemma reads_refine_witness :
  exists t, tree_ok (example_after (one_call example_value)) t /\
    Get [1] (example_after (one_call example_value)) = (example_after (one_call example_value), Ret [7]).
Proof.
  destruct example_map as (t & Ht & Hm). exists t. split; [exact Ht|].
  destruct (reads_refine _ t [1] Ht) as (_ & _ & E & _). rewrite E, Hm, lookup_singleton_eq. exact eq_refl.
Defined.

Lemma batch_reads_agree_witness :
  exists t, tree_ok (example_after (one_call example_value)) t /\
    getBatchRawBytes [[2]; [1]] (example_after (one_call example_value)) =
      (example_after (one_call example_value), Ret [None; Some example_value]) /\
    (GetBatch [[2]; [1]] (example_after (one_call example_value))).2 = Ret [None; Some [7]].
Proof.
  destruct example_map as (t & Ht & Hm). exists t. split; [exact Ht|].
  destruct (batch_reads_agree _ t [[2]; [1]] Ht) as [E1 E2]. rewrite E1, E2, Hm.
  - split; [exact eq_refl|]. cbn [snd fmap list_fmap]. by vm_compute.
  - rewrite Hm. intros k raw [<- <-]%lookup_singleton_Some. eexists. vm_compute. exact eq_refl.
Defined.



Lemma adapter_batch_drops_witness :
  let b := example_after (one_call long_value) in
  exists b', Adapter.SetBatch [([2], example_value ++ zeros 200)] b = (b', (1, Ret tt)) /\
    Adapter.GetRaw [2] b' = (b', Fail (Sentinel ErrMVCCKeyNotFound)).
Proof.
  cbv zeta. destruct (example_after_ok _ one_long_ok) as [t Ht]; [apply Nat.leb_le; reflexivity|].
  pose proof (ResolvePageID_pure _ t [2] Ht) as Er.
  assert (E2 : (ResolvePageID [2] (example_after (one_call long_value))).2 = Ret 1) by (by vm_compute). rewrite E2 in Er.
  destruct (adapter_batch_drops _ t [2] (example_value ++ zeros 200) 1 Ht Er) as (b' & E & _ & Eg).
  - assert (Eg : (Adapter.GetRaw [2] (example_after (one_call long_value))).2 = Fail (Sentinel ErrMVCCKeyNotFound)) by (by vm_compute).
    rewrite (adapter_GetRaw_ok _ t Ht _ eq_refl [2]) in Eg. cbn [snd] in Eg. destruct (_ !! _); [discriminate Eg|exact eq_refl].
  - by vm_compute.
  - by vm_compute.
  - exists b'. exact (conj E Eg).
Defined.
