(* ===== verification/Epoch.v ===== *)
(** * Epoch-based reclamation of retired pages (btree/epoch.go)

    The epoch manager keeps pages that copy-on-write has replaced until no
    reader that may still see them is active.  The operations are translated
    as functions of the manager's state; the concurrent behaviour is a step
    relation in which a reader's [EnterRead] is five atomic steps, a reclaim
    pass reads the reader words one at a time and reads and moves every ring
    in two steps, and a retirement reads the epoch before it is published.
    The claim of a ring position and its publication are one step (see
    [unpublished_entry_frees_again] for what the code does between them).  The
    buffers are read as sequentially consistent, as sync/atomic promises. *)

From stdpp Require Import base list gmap relations.
From Stdlib Require Import ZArith Lia.
From S2P Require Import Prelude.

Local Open Scope Z_scope.

(** ** State *)

Definition epochInit : Z := 1.
Definition maxReaderSlots : Z := 64.
Definition ringSize : Z := 16384.
Definition defaultMaxLobRetired : Z := 65536.
Definition MaxUint64 : Z := 2 ^ 64 - 1.

Record retiredEntry := { pageID : Z; e_epoch : Z }.

(** [buf] is the array of [ringSize] entries: an index not yet written holds
    the zero entry. *)
Record epochSlot := { buf : gmap Z retiredEntry; head : Z; tail : Z }.

Record lobRetiredEntry := { firstPageID : Z; lobID : Z; l_epoch : Z }.

(** The three callbacks are observed as the calls made; [hasLob] and
    [hasLobFile] say whether the LOB callbacks are set. *)
Record EpochManager := {
  globalEpoch : Z;
  readers : list Z;
  slots : list epochSlot;
  hasLob : bool;
  hasLobFile : bool;
  maxLobRetiredLen : Z;
  lobRetired : list lobRetiredEntry;
  nextSlot : Z }.

Inductive call : Set :=
| FreePage (p : Z)
| FreeLobChain (p : Z)
| FreeLobFile (id : Z).

Definition emptySlot : epochSlot := {| buf := ∅; head := 0; tail := 0 |}.

Definition NewEpochManager : EpochManager :=
  {| globalEpoch := epochInit;
     readers := replicate (Z.to_nat maxReaderSlots) 0;
     slots := replicate (Z.to_nat maxReaderSlots) emptySlot;
     hasLob := false; hasLobFile := false;
     maxLobRetiredLen := defaultMaxLobRetired;
     lobRetired := []; nextSlot := 0 |}.

Definition with_epoch (em : EpochManager) (g : Z) : EpochManager :=
  {| globalEpoch := g; readers := readers em; slots := slots em;
     hasLob := hasLob em; hasLobFile := hasLobFile em;
     maxLobRetiredLen := maxLobRetiredLen em; lobRetired := lobRetired em; nextSlot := nextSlot em |}.
Definition with_readers (em : EpochManager) (l : list Z) : EpochManager :=
  {| globalEpoch := globalEpoch em; readers := l; slots := slots em;
     hasLob := hasLob em; hasLobFile := hasLobFile em;
     maxLobRetiredLen := maxLobRetiredLen em; lobRetired := lobRetired em; nextSlot := nextSlot em |}.
Definition with_slots (em : EpochManager) (l : list epochSlot) : EpochManager :=
  {| globalEpoch := globalEpoch em; readers := readers em; slots := l;
     hasLob := hasLob em; hasLobFile := hasLobFile em;
     maxLobRetiredLen := maxLobRetiredLen em; lobRetired := lobRetired em; nextSlot := nextSlot em |}.
Definition with_lobRetired (em : EpochManager) (l : list lobRetiredEntry) : EpochManager :=
  {| globalEpoch := globalEpoch em; readers := readers em; slots := slots em;
     hasLob := hasLob em; hasLobFile := hasLobFile em;
     maxLobRetiredLen := maxLobRetiredLen em; lobRetired := l; nextSlot := nextSlot em |}.

Definition SetMaxLOBRetiredLen (em : EpochManager) (n : Z) : EpochManager :=
  {| globalEpoch := globalEpoch em; readers := readers em; slots := slots em;
     hasLob := hasLob em; hasLobFile := hasLobFile em;
     maxLobRetiredLen := n; lobRetired := lobRetired em; nextSlot := nextSlot em |}.

(** [SetLOBFreeFns]: which of the two callbacks is not nil. *)
Definition SetLOBFreeFns (em : EpochManager) (overflowFn lobFileFn : bool) : EpochManager :=
  {| globalEpoch := globalEpoch em; readers := readers em; slots := slots em;
     hasLob := overflowFn; hasLobFile := lobFileFn;
     maxLobRetiredLen := maxLobRetiredLen em; lobRetired := lobRetired em; nextSlot := nextSlot em |}.

(** ** Operations *)

Definition AllocSlot (em : EpochManager) : EpochManager * Z :=
  let n := u64 (nextSlot em + 1) in
  ({| globalEpoch := globalEpoch em; readers := readers em; slots := slots em;
      hasLob := hasLob em; hasLobFile := hasLobFile em;
      maxLobRetiredLen := maxLobRetiredLen em; lobRetired := lobRetired em; nextSlot := n |},
   n mod maxReaderSlots).

Definition setReader (em : EpochManager) (slot v : Z) : outcome EpochManager :=
  _ ← index (readers em) slot;
  Ret (with_readers em (<[Z.to_nat slot := v]> (readers em))).

(** A call that nothing interrupts: the second load of the epoch always sees
    the first one's value. *)
Definition EnterRead (em : EpochManager) (slot : Z) : outcome EpochManager :=
  let epoch := globalEpoch em in
  em ← setReader em slot epoch;
  if negb (globalEpoch em =? epoch) then setReader em slot (globalEpoch em) else Ret em.

Definition ExitRead (em : EpochManager) (slot : Z) : outcome EpochManager := setReader em slot 0.

(** Claims position [tail] of the ring and publishes the entry there. *)
Definition pushEntry (s : epochSlot) (p epoch : Z) : epochSlot :=
  {| buf := <[tail s mod ringSize := {| pageID := p; e_epoch := epoch |}]> (buf s);
     head := head s; tail := u64 (tail s + 1) |}.

Definition ringFull (s : epochSlot) : bool := ringSize <=? u64 (tail s - head s).

(** [Ret None]: the ring is full and the loop spins until a reclaim pass
    moves the head. *)
Definition retireAt (em : EpochManager) (slot p epoch : Z) : outcome (option EpochManager) :=
  s ← index (slots em) slot;
  if ringFull s then Ret None
  else Ret (Some (with_slots em (<[Z.to_nat slot := pushEntry s p epoch]> (slots em)))).

Definition Retire (em : EpochManager) (slot p : Z) : outcome (option EpochManager) :=
  retireAt em slot p (globalEpoch em).

Fixpoint retireAll (em : EpochManager) (slot epoch : Z) (ps : list Z) : outcome (option EpochManager) :=
  match ps with
  | [] => Ret (Some em)
  | p :: ps =>
      r ← retireAt em slot p epoch;
      match r with
      | None => Ret None
      | Some em => retireAll em slot epoch ps
      end
  end.

Definition RetireBatch (em : EpochManager) (slot : Z) (ps : list Z) : outcome (option EpochManager) :=
  match ps with
  | [] => Ret (Some em)
  | _ => retireAll em slot (globalEpoch em) ps
  end.

(** *** Reclaim *)

(** One round of the loop over the readers' words. *)
Definition minActiveStep (m e : Z) : Z := if negb (e =? 0) && (e <? m) then e else m.

Definition safeEpochOf (newEpoch minActive : Z) : Z :=
  if negb (minActive =? MaxUint64) then minActive else newEpoch.

Definition entryAt (b : gmap Z retiredEntry) (i : Z) : retiredEntry :=
  default {| pageID := 0; e_epoch := 0 |} (b !! i).

(** The loop over a ring from position [j]: the pages to free and the new
    head.  Fuel: the [tail - head] positions of the ring. *)
Fixpoint collectLoop (fuel : nat) (b : gmap Z retiredEntry) (j t safeEpoch : Z) : list Z * Z :=
  match fuel with
  | O => ([], j)
  | S fuel =>
      if j <? t then
        let x := entryAt b (j mod ringSize) in
        if e_epoch x =? 0 then ([], j)
        else if safeEpoch <=? e_epoch x then ([], j)
        else
          let '(ps, h) := collectLoop fuel b (j + 1) t safeEpoch in
          (pageID x :: ps, h)
      else ([], j)
  end.

Definition setHead (s : epochSlot) (h : Z) : epochSlot := {| buf := buf s; head := h; tail := tail s |}.

(** What a pass reads of one ring: the pages and the head it will store. *)
Definition collectSlot (s : epochSlot) (safeEpoch : Z) : list Z * Z :=
  if tail s <=? head s then ([], head s)
  else collectLoop (Z.to_nat (tail s - head s)) (buf s) (head s) (tail s) safeEpoch.

Fixpoint collectAll (l : list epochSlot) (safeEpoch : Z) : list Z * list epochSlot :=
  match l with
  | [] => ([], [])
  | s :: l =>
      let '(ps, h) := collectSlot s safeEpoch in
      let '(qs, l') := collectAll l safeEpoch in
      (ps ++ qs, setHead s h :: l')
  end.

Definition lobCalls (em : EpochManager) (e : lobRetiredEntry) : list call :=
  (if negb (firstPageID e =? 0) && hasLob em then [FreeLobChain (firstPageID e)] else []) ++
  (if negb (lobID e =? 0) && hasLobFile em then [FreeLobFile (lobID e)] else []).

Fixpoint drainLoop (em : EpochManager) (l : list lobRetiredEntry) (safeEpoch : Z)
    : list call * list lobRetiredEntry :=
  match l with
  | [] => ([], [])
  | e :: l =>
      let '(cs, keep) := drainLoop em l safeEpoch in
      if l_epoch e <? safeEpoch then (lobCalls em e ++ cs, keep) else (cs, e :: keep)
  end.

Definition drainLOBRetired (em : EpochManager) (safeEpoch : Z) : EpochManager * list call :=
  let '(cs, keep) := drainLoop em (lobRetired em) safeEpoch in
  (with_lobRetired em keep, cs).

Definition tryReclaim (em : EpochManager) : EpochManager * list call :=
  let newEpoch := u64 (globalEpoch em + 1) in
  let em := with_epoch em newEpoch in
  let minActive := fold_left minActiveStep (readers em) MaxUint64 in
  let safeEpoch := safeEpochOf newEpoch minActive in
  let '(toFree, l) := collectAll (slots em) safeEpoch in
  let '(em, cs) := drainLOBRetired (with_slots em l) safeEpoch in
  (em, map FreePage toFree ++ cs).

(** After the background loop has ended. *)
Definition Shutdown (em : EpochManager) : EpochManager * list call := tryReclaim em.

(** Append to the LOB queue, with a forced pass when it has reached its limit. *)
Definition retireLob (em : EpochManager) (mk : Z -> lobRetiredEntry) : EpochManager * list call :=
  let epoch := globalEpoch em in
  let '(em, cs) :=
    if maxLobRetiredLen em <=? zlen (lobRetired em) then tryReclaim em else (em, []) in
  (with_lobRetired em (lobRetired em ++ [mk epoch]), cs).

Definition RetireLobChain (em : EpochManager) (first : Z) : EpochManager * list call :=
  if (first =? 0) || negb (hasLob em) then (em, [])
  else retireLob em (fun epoch => {| firstPageID := first; lobID := 0; l_epoch := epoch |}).

Definition RetireLobFile (em : EpochManager) (id : Z) : EpochManager * list call :=
  if (id =? 0) || negb (hasLobFile em) then (em, [])
  else retireLob em (fun epoch => {| firstPageID := 0; lobID := id; l_epoch := epoch |}).

(** ** Interleavings

    The program counter of the thread that owns a reader slot, with the time
    at which [EnterRead] returned. *)
Inductive rpc : Set :=
| RIdle
| RLoaded (e : Z)      (* epoch := globalEpoch.Load() *)
| RStored (e : Z)      (* readers[slot].Store(epoch) *)
| RStale               (* globalEpoch.Load() != epoch *)
| RFresh (f : Z)       (* the argument of the second Store is loaded *)
| RInside (since : Z).

(** Steps of a reader: its word in [readers] and its program counter, under
    the global epoch [g] at time [now]. *)
Inductive rstep (g now : Z) : Z * rpc -> Z * rpc -> Prop :=
| r_load v : rstep g now (v, RIdle) (v, RLoaded g)
| r_store v e : rstep g now (v, RLoaded e) (e, RStored e)
| r_same v e : g = e -> rstep g now (v, RStored e) (v, RInside now)
| r_differs v e : g <> e -> rstep g now (v, RStored e) (v, RStale)
| r_reload v : rstep g now (v, RStale) (v, RFresh g)
| r_publish v f : rstep g now (v, RFresh f) (f, RInside now)
| r_exit v t : rstep g now (v, RInside t) (0, RIdle).

(** A pass of [tryReclaim]. *)
Inductive cpc : Set :=
| CIdle
| CScan (newEpoch minActive : Z) (i : nat)
| CCollect (safeEpoch : Z) (j : nat) (toFree : list Z)
| CStore (safeEpoch : Z) (j : nat) (toFree ps : list Z) (h : Z)
| CFree (safeEpoch : Z) (toFree : list Z).

(** Steps of a pass, with the pages it hands to the free callback. *)
Inductive cstep : EpochManager * cpc -> EpochManager * cpc -> list Z -> Prop :=
| c_bump em :
    let n := u64 (globalEpoch em + 1) in
    cstep (em, CIdle) (with_epoch em n, CScan n MaxUint64 0) []
| c_scan em n m i e :
    readers em !! i = Some e ->
    cstep (em, CScan n m i) (em, CScan n (minActiveStep m e) (S i)) []
| c_scanned em n m i :
    readers em !! i = None ->
    cstep (em, CScan n m i) (em, CCollect (safeEpochOf n m) 0 []) []
| c_read em safe j tf s ps h :
    slots em !! j = Some s -> collectSlot s safe = (ps, h) ->
    cstep (em, CCollect safe j tf) (em, CStore safe j tf ps h) []
| c_move em safe j tf s ps h :
    slots em !! j = Some s ->
    cstep (em, CStore safe j tf ps h)
          (with_slots em (<[j := setHead s h]> (slots em)), CCollect safe (S j) (tf ++ ps)) []
| c_collected em safe j tf :
    slots em !! j = None ->
    cstep (em, CCollect safe j tf) (em, CFree safe tf) []
| c_free em safe p tf :
    cstep (em, CFree safe (p :: tf)) (em, CFree safe tf) [p]
| c_drain em safe :
    cstep (em, CFree safe []) ((drainLOBRetired em safe).1, CIdle) [].

(** A retirement under way: slot, page, the epoch it has loaded, and when. *)
Record pending := { p_slot : nat; p_page : Z; p_epoch : Z; p_time : Z }.

(** The whole system.  [w_hist] is a history variable: for each ring, the
    entries ever published, in order. *)
Record world := {
  w_em : EpochManager;
  w_threads : list rpc;
  w_passes : list cpc;
  w_pend : list pending;
  w_hist : list (list pending);
  w_freed : list Z;
  w_now : Z }.

Inductive step (w : world) : world -> Prop :=
| s_reader i v pc v' pc' :
    readers (w_em w) !! i = Some v -> w_threads w !! i = Some pc ->
    rstep (globalEpoch (w_em w)) (w_now w) (v, pc) (v', pc') ->
    step w {| w_em := with_readers (w_em w) (<[i := v']> (readers (w_em w)));
              w_threads := <[i := pc']> (w_threads w); w_passes := w_passes w;
              w_pend := w_pend w; w_hist := w_hist w; w_freed := w_freed w; w_now := w_now w + 1 |}
| s_pass r pc em' pc' fs :
    w_passes w !! r = Some pc ->
    cstep (w_em w, pc) (em', pc') fs ->
    step w {| w_em := em'; w_threads := w_threads w; w_passes := <[r := pc']> (w_passes w);
              w_pend := w_pend w; w_hist := w_hist w; w_freed := w_freed w ++ fs; w_now := w_now w + 1 |}
| s_retire j p :
    step w {| w_em := w_em w; w_threads := w_threads w; w_passes := w_passes w;
              w_pend := {| p_slot := j; p_page := p; p_epoch := globalEpoch (w_em w); p_time := w_now w |} :: w_pend w;
              w_hist := w_hist w; w_freed := w_freed w; w_now := w_now w + 1 |}
| s_publish x pend em' h :
    w_pend w ≡ₚ x :: pend ->
    retireAt (w_em w) (Z.of_nat (p_slot x)) (p_page x) (p_epoch x) = Ret (Some em') ->
    w_hist w !! p_slot x = Some h ->
    step w {| w_em := em'; w_threads := w_threads w; w_passes := w_passes w;
              w_pend := pend; w_hist := <[p_slot x := h ++ [x]]> (w_hist w);
              w_freed := w_freed w; w_now := w_now w + 1 |}.

(** [passes]: how many threads may run [tryReclaim] at the same time. *)
Definition initialWorld (passes : nat) : world :=
  {| w_em := NewEpochManager;
     w_threads := replicate (Z.to_nat maxReaderSlots) RIdle;
     w_passes := replicate passes CIdle;
     w_pend := []; w_hist := replicate (Z.to_nat maxReaderSlots) [];
     w_freed := []; w_now := 0 |}.

Definition reachable (passes : nat) (w : world) : Prop := rtc step (initialWorld passes) w.

(** ** The ring *)

Lemma collectLoop_spec fuel b j t safe ps h :
  collectLoop fuel b j t safe = (ps, h) -> j <= t ->
  j <= h <= t /\ zlen ps = h - j /\
  forall k, (k < length ps)%nat ->
    let x := entryAt b ((j + Z.of_nat k) mod ringSize) in
    ps !! k = Some (pageID x) /\ e_epoch x < safe.
Proof.
  revert j ps h. induction fuel as [|fuel IH]; intros j ps h; cbn [collectLoop].
  { intros [= <- <-] ?. cbn [length]. rewrite zlen_nil. split; [lia|]. split; [lia|]. intros; lia. }
  assert (Hstop : ([], j) = (ps, h) -> j <= t -> j <= h <= t /\ zlen ps = h - j /\
      forall k, (k < length ps)%nat ->
      let x := entryAt b ((j + Z.of_nat k) mod ringSize) in ps !! k = Some (pageID x) /\ e_epoch x < safe).
  { intros [= <- <-] ?. cbn [length]. rewrite zlen_nil. split; [lia|]. split; [lia|]. intros; lia. }
  destruct (Z.ltb_spec j t); [|done]. cbv zeta.
  destruct (e_epoch _ =? 0); [done|]. destruct (Z.leb_spec safe (e_epoch (entryAt b (j mod ringSize)))); [done|].
  destruct (collectLoop fuel b (j + 1) t safe) as [qs h'] eqn:E. intros [= <- <-] _.
  destruct (IH _ _ _ E) as (Hh & Hl & Hk); [lia|]. rewrite zlen_cons. split; [lia|]. split; [lia|].
  intros [|k] Hlt; cbn [lookup list_lookup].
  - rewrite Z.add_0_r. done.
  - cbn [length] in Hlt. specialize (Hk k ltac:(lia)).
    replace (j + Z.of_nat (S k)) with (j + 1 + Z.of_nat k) by lia. done.
Qed.

(** A ring that stops early stops at an entry that is not committed or not safe. *)
Lemma collectLoop_stops fuel b j t safe ps h :
  collectLoop fuel b j t safe = (ps, h) -> t - j <= Z.of_nat fuel -> j <= t ->
  h = t \/ e_epoch (entryAt b (h mod ringSize)) = 0 \/ safe <= e_epoch (entryAt b (h mod ringSize)).
Proof.
  revert j ps h. induction fuel as [|fuel IH]; intros j ps h; cbn [collectLoop].
  { intros [= <- <-] ??. lia. }
  destruct (Z.ltb_spec j t); [|intros [= <- <-]; lia]. cbv zeta.
  destruct (Z.eqb_spec (e_epoch (entryAt b (j mod ringSize))) 0); [intros [= <- <-]; auto|].
  destruct (Z.leb_spec safe (e_epoch (entryAt b (j mod ringSize)))); [intros [= <- <-]; auto|].
  destruct (collectLoop fuel b (j + 1) t safe) as [qs h'] eqn:E. intros [= <- <-] ??.
  eapply IH; eauto; lia.
Qed.

Definition ring_ok (now : Z) (s : epochSlot) (h : list pending) : Prop :=
  0 <= head s <= tail s /\ tail s - head s <= ringSize /\ tail s = zlen h /\ tail s <= now /\
  forall k x, head s <= Z.of_nat k -> h !! k = Some x ->
    entryAt (buf s) (Z.of_nat k mod ringSize) = {| pageID := p_page x; e_epoch := p_epoch x |}.

(** Two positions of one window have different indices. *)
Lemma window_distinct a b : a < b -> b - a < ringSize -> a mod ringSize <> b mod ringSize.
Proof.
  unfold ringSize. intros. intros E.
  pose proof (Z.div_mod a 16384 ltac:(lia)). pose proof (Z.div_mod b 16384 ltac:(lia)). lia.
Qed.

Lemma push_ring_ok now s h x :
  ring_ok now s h -> ringFull s = false -> now < MaxUint64 ->
  ring_ok (now + 1) (pushEntry s (p_page x) (p_epoch x)) (h ++ [x]).
Proof.
  intros (Hh & Hw & Ht & Hn & Hb) Hf Hmax. unfold ringFull in Hf. apply Z.leb_gt in Hf.
  rewrite u64_id in Hf by (unfold is_u64, MaxUint64, ringSize in *; lia).
  assert (Eu : u64 (tail s + 1) = tail s + 1) by (apply u64_id; unfold is_u64, MaxUint64 in *; lia).
  unfold ring_ok, pushEntry. cbn [head tail buf]. rewrite Eu.
  assert (El : zlen (h ++ [x]) = zlen h + 1) by (unfold zlen; rewrite length_app; cbn [length]; lia).
  rewrite El. repeat split; try lia. intros k y Hk Hy. unfold entryAt. unfold zlen in Ht.
  destruct (decide (k < length h)%nat) as [Hlt|Hge].
  - rewrite lookup_app_l in Hy by done. rewrite lookup_insert_ne; [by apply Hb|].
    apply not_eq_sym, window_distinct; lia.
  - assert (k = length h) as ->.
    { apply lookup_lt_Some in Hy. rewrite length_app in Hy. cbn in Hy. lia. }
    rewrite lookup_app_r, Nat.sub_diag in Hy by lia. cbn in Hy. injection Hy as <-.
    by rewrite Ht, lookup_insert_eq.
Qed.

(** What a pass reads of a ring: a run of entries of the history from the
    head on, all older than the safe epoch. *)
Lemma collectSlot_spec now s h safe ps h' :
  ring_ok now s h -> collectSlot s safe = (ps, h') ->
  head s <= h' <= tail s /\
  take (Z.to_nat h') h = take (Z.to_nat (head s)) h ++ drop (Z.to_nat (head s)) (take (Z.to_nat h') h) /\
  ps = map p_page (drop (Z.to_nat (head s)) (take (Z.to_nat h') h)) /\
  forall k x, head s <= Z.of_nat k < h' -> h !! k = Some x -> p_epoch x < safe.
Proof.
  intros (Hh & Hw & Ht & Hn & Hb) E. unfold collectSlot in E. unfold zlen in Ht.
  assert (Hsplit : forall h', head s <= h' -> take (Z.to_nat h') h =
    take (Z.to_nat (head s)) h ++ drop (Z.to_nat (head s)) (take (Z.to_nat h') h)).
  { intros. rewrite <- (take_drop (Z.to_nat (head s)) (take (Z.to_nat h'0) h)) at 1.
    rewrite take_take. do 2 f_equal. lia. }
  destruct (Z.leb_spec (tail s) (head s)).
  { injection E as <- <-. split; [lia|]. split; [apply Hsplit; lia|].
    split; [|intros; lia]. rewrite drop_ge by (rewrite length_take; lia). done. }
  destruct (collectLoop_spec _ _ _ _ _ _ _ E) as (Hr & Hl & Hk); [lia|]. unfold zlen in Hl.
  split; [lia|]. split; [apply Hsplit; lia|].
  assert (Hat : forall k x, head s <= Z.of_nat k < h' -> h !! k = Some x ->
     ps !! (k - Z.to_nat (head s))%nat = Some (p_page x) /\ p_epoch x < safe).
  { intros k x Hkr Hx. specialize (Hk (k - Z.to_nat (head s))%nat ltac:(lia)). cbv zeta in Hk.
    replace (head s + Z.of_nat (k - Z.to_nat (head s))) with (Z.of_nat k) in Hk by lia.
    rewrite (Hb k x) in Hk by (done || lia). exact Hk. }
  clear Hk. split; [|intros; by eapply Hat].
  apply list_eq. intros k. rewrite list_lookup_fmap, lookup_drop.
  destruct (decide (k < length ps)%nat).
  - rewrite lookup_take_lt by lia.
    destruct (lookup_lt_is_Some_2 h (Z.to_nat (head s) + k)%nat) as [x Hx]; [lia|].
    rewrite Hx. destruct (Hat (Z.to_nat (head s) + k)%nat x ltac:(lia) Hx) as [Hp _].
    by replace (Z.to_nat (head s) + k - Z.to_nat (head s))%nat with k in Hp by lia.
  - rewrite (lookup_ge_None_2 ps) by lia. by rewrite lookup_ge_None_2 by (rewrite length_take; lia).
Qed.

Lemma setHead_ring_ok now s h h' :
  ring_ok now s h -> head s <= h' <= tail s -> ring_ok now (setHead s h') h.
Proof.
  intros (Hh & Hw & Ht & Hn & Hb) Hr. unfold ring_ok, setHead. cbn [head tail buf].
  repeat split; try lia. intros. apply Hb; [lia|done].
Qed.

(** ** The invariant of the interleavings with a single pass at a time *)

Section Invariant.

(** Reader [i] is inside since [t], and its word in [readers] is [v]. *)
Definition ins (rs : list Z) (ts : list rpc) (i : nat) (t v : Z) : Prop :=
  ts !! i = Some (RInside t) /\ rs !! i = Some v.

(** No reader is inside that entered before the retirement was called. *)
Definition unheld (rs : list Z) (ts : list rpc) (x : pending) : Prop :=
  forall i t v, ins rs ts i t v -> p_time x < t.
Definition guarded (rs : list Z) (ts : list rpc) (x : pending) : Prop :=
  forall i t v, ins rs ts i t v -> t <= p_time x -> v <= p_epoch x.
Definition entry_ok (g now : Z) (rs : list Z) (ts : list rpc) (x : pending) : Prop :=
  1 <= p_epoch x <= g /\ p_time x < now /\ guarded rs ts x.

Definition thread_ok (g now v : Z) (pc : rpc) : Prop :=
  match pc with
  | RIdle => v = 0
  | RLoaded e => v = 0 /\ 1 <= e <= g
  | RStored e => v = e /\ 1 <= e <= g
  | RStale => 1 <= v <= g
  | RFresh f => 1 <= v <= f /\ f <= g
  | RInside t => 1 <= v <= g /\ t < now
  end.

Definition above (b v : Z) (pc : rpc) : Prop :=
  match pc with RFresh f => b <= f | RInside _ => b <= v | _ => True end.
Definition all_above (b : Z) (rs : list Z) (ts : list rpc) (n : nat) : Prop :=
  forall i v pc, (i < n)%nat -> rs !! i = Some v -> ts !! i = Some pc -> above b v pc.

Definition pass_ok (em : EpochManager) (ts : list rpc) (c : cpc) : Prop :=
  let safe_ok safe := 1 <= safe <= globalEpoch em /\ all_above safe (readers em) ts 64 in
  match c with
  | CIdle => True
  | CScan n m i =>
      n = globalEpoch em /\ (m = MaxUint64 \/ 1 <= m <= n) /\
      all_above (safeEpochOf n m) (readers em) ts i
  | CCollect safe _ _ | CFree safe _ => safe_ok safe
  | CStore safe j _ _ h =>
      safe_ok safe /\ exists s, slots em !! j = Some s /\ head s <= h <= tail s
  end.

(** The head of ring [j], counting what the pass is about to store, and the
    pages the pass holds. *)
Definition effHead (c : cpc) (j : nat) (s : epochSlot) : nat :=
  match c with
  | CStore _ j' _ _ h => if decide (j = j') then Z.to_nat h else Z.to_nat (head s)
  | _ => Z.to_nat (head s)
  end.
Definition inHand (c : cpc) : list Z :=
  match c with
  | CCollect _ _ tf | CFree _ tf => tf
  | CStore _ _ tf ps _ => tf ++ ps
  | _ => []
  end.

(** [coll]: the entries collected so far, ring by ring. *)
Definition collected (em : EpochManager) (c : cpc) (hist coll : list (list pending)) : Prop :=
  length coll = 64%nat /\
  forall j s h, slots em !! j = Some s -> hist !! j = Some h ->
    coll !! j = Some (take (effHead c j s) h).

Record Inv (c : cpc) (w : world) : Prop := {
  i_pass : w_passes w = [c];
  i_now : 0 <= w_now w;
  i_g : 1 <= globalEpoch (w_em w) <= w_now w + 1;
  i_len : length (readers (w_em w)) = 64%nat /\ length (slots (w_em w)) = 64%nat /\ length (w_hist w) = 64%nat /\
    length (w_threads w) = 64%nat;
  i_threads : forall i v pc, readers (w_em w) !! i = Some v -> w_threads w !! i = Some pc ->
    thread_ok (globalEpoch (w_em w)) (w_now w) v pc;
  i_pend : Forall (entry_ok (globalEpoch (w_em w)) (w_now w) (readers (w_em w)) (w_threads w)) (w_pend w);
  i_hist : forall j h, w_hist w !! j = Some h ->
    Forall (entry_ok (globalEpoch (w_em w)) (w_now w) (readers (w_em w)) (w_threads w)) h;
  i_ring : forall j s h, slots (w_em w) !! j = Some s -> w_hist w !! j = Some h -> ring_ok (w_now w) s h;
  i_pok : pass_ok (w_em w) (w_threads w) c;
  i_unheld : forall j s h x, slots (w_em w) !! j = Some s -> w_hist w !! j = Some h ->
    x ∈ take (effHead c j s) h -> unheld (readers (w_em w)) (w_threads w) x;
  i_freed : exists coll, collected (w_em w) c (w_hist w) coll /\
    w_freed w ++ inHand c ≡ₚ map p_page (mjoin coll) }.

Lemma ring_ok_mono now now' s h : now <= now' -> ring_ok now s h -> ring_ok now' s h.
Proof. intros ? (?&?&?&?&?). repeat split; eauto; lia. Qed.

Lemma entry_ok_mono g g' now now' rs ts x :
  g <= g' -> now <= now' -> entry_ok g now rs ts x -> entry_ok g' now' rs ts x.
Proof. intros ?? (?&?&?). repeat split; auto; lia. Qed.

Lemma thread_ok_mono g g' now now' v pc :
  g <= g' -> now <= now' -> thread_ok g now v pc -> thread_ok g' now' v pc.
Proof. intros ??. destruct pc; cbn; lia. Qed.

Lemma all_above_le b b' rs ts n n' :
  b' <= b -> (n' <= n)%nat -> all_above b rs ts n -> all_above b' rs ts n'.
Proof. intros Hb Hn H i v pc Hi Hv Hpc. specialize (H i v pc ltac:(lia) Hv Hpc). destruct pc; cbn in *; lia. Qed.

(** *** Readers *)

Lemma rstep_thread_ok g now v pc v' pc' :
  1 <= g -> thread_ok g now v pc -> rstep g now (v, pc) (v', pc') -> thread_ok g (now + 1) v' pc'.
Proof. intros Hg Hok H. inversion H; subst; cbn in *; lia. Qed.

Lemma rstep_above g now b v pc v' pc' :
  b <= g -> thread_ok g now v pc -> above b v pc -> rstep g now (v, pc) (v', pc') -> above b v' pc'.
Proof. intros Hg Hok Ha H. inversion H; subst; cbn in *; lia. Qed.

Lemma rstep_ins g now rs ts i v pc v' pc' k t u :
  rs !! i = Some v -> ts !! i = Some pc -> rstep g now (v, pc) (v', pc') ->
  ins (<[i := v']> rs) (<[i := pc']> ts) k t u -> ins rs ts k t u \/ t = now.
Proof.
  intros Hv Hpc H [Ht Hu]. destruct (decide (k = i)) as [->|Hne].
  - rewrite list_lookup_insert_eq in Ht by (by eapply lookup_lt_Some). injection Ht as ->.
    inversion H; subst; auto.
  - rewrite list_lookup_insert_ne in Ht by done; rewrite list_lookup_insert_ne in Hu by done. left. done.
Qed.

Lemma rstep_unheld g now rs ts i v pc v' pc' x :
  rs !! i = Some v -> ts !! i = Some pc -> rstep g now (v, pc) (v', pc') -> p_time x < now ->
  unheld rs ts x -> unheld (<[i := v']> rs) (<[i := pc']> ts) x.
Proof.
  intros Hv Hpc H Hx Hu k t u Hin. destruct (rstep_ins _ _ _ _ _ _ _ _ _ _ _ _ Hv Hpc H Hin); [eauto|lia].
Qed.

Lemma rstep_entry_ok g now rs ts i v pc v' pc' x :
  rs !! i = Some v -> ts !! i = Some pc -> rstep g now (v, pc) (v', pc') ->
  entry_ok g now rs ts x -> entry_ok g (now + 1) (<[i := v']> rs) (<[i := pc']> ts) x.
Proof.
  intros Hv Hpc H (He & Ht & Hg). repeat split; try lia. intros k t u Hin Hle.
  destruct (rstep_ins _ _ _ _ _ _ _ _ _ _ _ _ Hv Hpc H Hin); [eauto|lia].
Qed.

Lemma rstep_all_above g now b rs ts i v pc v' pc' n :
  rs !! i = Some v -> ts !! i = Some pc -> rstep g now (v, pc) (v', pc') ->
  b <= g -> thread_ok g now v pc -> all_above b rs ts n ->
  all_above b (<[i := v']> rs) (<[i := pc']> ts) n.
Proof.
  intros Hv Hpc H Hb Hok Ha k u q Hk Hu Hq. destruct (decide (k = i)) as [->|Hne].
  - rewrite list_lookup_insert_eq in Hu by (done || by eapply lookup_lt_Some); rewrite list_lookup_insert_eq in Hq by (by eapply lookup_lt_Some).
    simplify_eq. eapply rstep_above; eauto.
  - rewrite list_lookup_insert_ne in Hu by done; rewrite list_lookup_insert_ne in Hq by done. eauto.
Qed.

Lemma safeEpochOf_le n m : m = MaxUint64 \/ 1 <= m <= n -> 1 <= n -> 1 <= safeEpochOf n m <= n.
Proof. unfold safeEpochOf. intros ??. destruct (Z.eqb_spec m MaxUint64); cbn [negb]; lia. Qed.

Lemma in_hist_time c w j s h x :
  Inv c w -> slots (w_em w) !! j = Some s -> w_hist w !! j = Some h -> x ∈ take (effHead c j s) h ->
  p_time x < w_now w.
Proof.
  intros HI Hs Hh Hx. pose proof (i_hist _ _ HI j h Hh) as HF. rewrite Forall_forall in HF.
  eapply HF, subseteq_take, Hx.
Qed.

Lemma Inv_reader c w i v pc v' pc' :
  Inv c w -> readers (w_em w) !! i = Some v -> w_threads w !! i = Some pc ->
  rstep (globalEpoch (w_em w)) (w_now w) (v, pc) (v', pc') ->
  Inv c {| w_em := with_readers (w_em w) (<[i := v']> (readers (w_em w)));
           w_threads := <[i := pc']> (w_threads w); w_passes := w_passes w;
           w_pend := w_pend w; w_hist := w_hist w; w_freed := w_freed w; w_now := w_now w + 1 |}.
Proof.
  intros HI Hv Hpc H. pose proof (i_threads _ _ HI _ _ _ Hv Hpc) as Hth. destruct (i_g _ _ HI) as [Hg1 Hg2].
  split; cbn [w_em w_threads w_passes w_pend w_hist w_freed w_now globalEpoch readers slots with_readers].
  - apply HI.
  - pose proof (i_now _ _ HI). lia.
  - lia.
  - rewrite !length_insert. apply HI.
  - intros k u q Hu Hq. destruct (decide (k = i)) as [->|Hne].
    + rewrite list_lookup_insert_eq in Hu by (done || by eapply lookup_lt_Some); rewrite list_lookup_insert_eq in Hq by (by eapply lookup_lt_Some).
      simplify_eq. by eapply rstep_thread_ok.
    + rewrite list_lookup_insert_ne in Hu by done; rewrite list_lookup_insert_ne in Hq by done.
      eapply thread_ok_mono; [reflexivity| |by eapply i_threads]; lia.
  - eapply Forall_impl; [apply (i_pend _ _ HI)|]. intros. by eapply rstep_entry_ok.
  - intros j h Hj. eapply Forall_impl; [by apply (i_hist _ _ HI j)|]. intros. by eapply rstep_entry_ok.
  - intros j s h Hs Hh. eapply ring_ok_mono; [|by eapply i_ring]. lia.
  - pose proof (i_pok _ _ HI) as Hp. destruct c as [|n m k|safe j tf|safe j tf ps h|safe tf];
      cbn [pass_ok globalEpoch readers slots with_readers] in *; try done.
    + destruct Hp as (-> & Hm & Ha). split; [done|]. split; [done|]. eapply rstep_all_above; eauto.
      by apply safeEpochOf_le.
    + destruct Hp as (Hs & Ha). split; [done|]. eapply rstep_all_above; eauto; lia.
    + destruct Hp as ((Hs & Ha) & Hh). split; [|done]. split; [done|]. eapply rstep_all_above; eauto; lia.
    + destruct Hp as (Hs & Ha). split; [done|]. eapply rstep_all_above; eauto; lia.
  - intros j s h x Hs Hh Hx. eapply rstep_unheld; eauto; [by eapply in_hist_time|by eapply i_unheld].
  - apply HI.
Qed.

(** *** Retirements *)

Lemma Inv_retire c w j p :
  Inv c w ->
  Inv c {| w_em := w_em w; w_threads := w_threads w; w_passes := w_passes w;
           w_pend := {| p_slot := j; p_page := p; p_epoch := globalEpoch (w_em w); p_time := w_now w |} :: w_pend w;
           w_hist := w_hist w; w_freed := w_freed w; w_now := w_now w + 1 |}.
Proof.
  intros HI. destruct (i_g _ _ HI) as [Hg1 Hg2]. pose proof (i_now _ _ HI).
  split; cbn [w_em w_threads w_passes w_pend w_hist w_freed w_now]; try apply HI; try lia.
  - intros k v pc Hv Hpc. eapply thread_ok_mono; [reflexivity| |by eapply i_threads]; lia.
  - constructor.
    + split; [cbn; lia|]. split; [cbn; lia|]. intros k t v [Ht Hv] _. cbn.
      pose proof (i_threads _ _ HI _ _ _ Hv Ht). cbn in *. lia.
    + eapply Forall_impl; [apply (i_pend _ _ HI)|]. intros. eapply entry_ok_mono; [| |done]; lia.
  - intros k h Hk. eapply Forall_impl; [by apply (i_hist _ _ HI k)|]. intros.
    eapply entry_ok_mono; [| |done]; lia.
  - intros k s h Hs Hh. eapply ring_ok_mono; [|by eapply i_ring]. lia.
Qed.

Lemma effHead_le c w j s h :
  Inv c w -> slots (w_em w) !! j = Some s -> w_hist w !! j = Some h -> (effHead c j s <= length h)%nat.
Proof.
  intros HI Hs Hh. destruct (i_ring _ _ HI _ _ _ Hs Hh) as (? & ? & Ht & _). unfold zlen in Ht.
  destruct c as [| | |safe j' tf ps h'|]; cbn [effHead]; try lia.
  destruct (decide (j = j')) as [->|]; [|lia].
  pose proof (i_pok _ _ HI) as (_ & s' & Hs' & Hr). simplify_eq. lia.
Qed.

Lemma effHead_push c j s p e : effHead c j (pushEntry s p e) = effHead c j s.
Proof. by destruct c. Qed.

Lemma retireAt_inv em j p e em' :
  retireAt em (Z.of_nat j) p e = Ret (Some em') ->
  exists s, slots em !! j = Some s /\ ringFull s = false /\
    em' = with_slots em (<[j := pushEntry s p e]> (slots em)).
Proof.
  unfold retireAt, index. rewrite (proj2 (Z.leb_le 0 _)) by lia. rewrite Nat2Z.id.
  destruct (slots em !! j) as [s|] eqn:E; [|done]. cbn. destruct (ringFull s) eqn:F; [done|].
  intros [= <-]. eauto.
Qed.

Lemma Inv_publish c w x pend s h :
  Inv c w -> w_now w < MaxUint64 -> w_pend w ≡ₚ x :: pend ->
  slots (w_em w) !! p_slot x = Some s -> ringFull s = false -> w_hist w !! p_slot x = Some h ->
  Inv c {| w_em := with_slots (w_em w) (<[p_slot x := pushEntry s (p_page x) (p_epoch x)]> (slots (w_em w)));
           w_threads := w_threads w; w_passes := w_passes w; w_pend := pend;
           w_hist := <[p_slot x := h ++ [x]]> (w_hist w);
           w_freed := w_freed w; w_now := w_now w + 1 |}.
Proof.
  intros HI Hmax Hp Hs Hf Hh. destruct (i_g _ _ HI) as [Hg1 Hg2]. pose proof (i_now _ _ HI).
  assert (Hlh : (p_slot x < length (w_hist w))%nat) by (by eapply lookup_lt_Some).
  assert (Hls : (p_slot x < length (slots (w_em w)))%nat) by (by eapply lookup_lt_Some).
  assert (Htake : forall j s' h', 
     <[p_slot x := pushEntry s (p_page x) (p_epoch x)]> (slots (w_em w)) !! j = Some s' ->
     <[p_slot x := h ++ [x]]> (w_hist w) !! j = Some h' ->
     exists s0 h0, slots (w_em w) !! j = Some s0 /\ w_hist w !! j = Some h0 /\
       take (effHead c j s') h' = take (effHead c j s0) h0).
  { intros j s' h' Hs' Hh'. destruct (decide (j = p_slot x)) as [->|Hne].
    - rewrite list_lookup_insert_eq in Hs' by (done || by eapply lookup_lt_Some); rewrite list_lookup_insert_eq in Hh' by done. simplify_eq. exists s, h.
      rewrite effHead_push, take_app_le by (by eapply effHead_le). done.
    - rewrite list_lookup_insert_ne in Hs' by done; rewrite list_lookup_insert_ne in Hh' by done. by exists s', h'. }
  pose proof (i_pend _ _ HI) as HP. rewrite Hp in HP. apply Forall_cons in HP as [Hx HP].
  split; cbn [w_em w_threads w_passes w_pend w_hist w_freed w_now globalEpoch readers slots with_slots];
    try apply HI; try lia.
  - rewrite !length_insert. apply HI.
  - intros k v pc Hv Hpc. eapply thread_ok_mono; [reflexivity| |by eapply i_threads]; lia.
  - eapply Forall_impl; [apply HP|]. intros. eapply entry_ok_mono; [| |done]; lia.
  - intros k h' Hk. destruct (decide (k = p_slot x)) as [->|Hne].
    + rewrite list_lookup_insert_eq in Hk by done. injection Hk as <-.
      apply Forall_app. split; [|constructor; [|done]].
      * eapply Forall_impl; [by apply (i_hist _ _ HI _ _ Hh)|]. intros. eapply entry_ok_mono; [| |done]; lia.
      * eapply entry_ok_mono; [| |done]; lia.
    + rewrite list_lookup_insert_ne in Hk by done.
      eapply Forall_impl; [by apply (i_hist _ _ HI k)|]. intros. eapply entry_ok_mono; [| |done]; lia.
  - intros k s' h' Hs' Hh'. destruct (decide (k = p_slot x)) as [->|Hne].
    + rewrite list_lookup_insert_eq in Hs' by (done || by eapply lookup_lt_Some); rewrite list_lookup_insert_eq in Hh' by done. simplify_eq.
      apply push_ring_ok; [by eapply i_ring|done|done].
    + rewrite list_lookup_insert_ne in Hs' by done; rewrite list_lookup_insert_ne in Hh' by done.
      eapply ring_ok_mono; [|by eapply i_ring]. lia.
  - pose proof (i_pok _ _ HI) as Hk. destruct c as [|n m k|safe j tf|safe j tf ps h'|safe tf];
      cbn [pass_ok globalEpoch readers slots with_slots] in *; try done.
    destruct Hk as (Hsafe & s' & Hs' & Hr). split; [done|].
    destruct (decide (j = p_slot x)) as [->|Hne].
    + exists (pushEntry s (p_page x) (p_epoch x)). rewrite list_lookup_insert_eq by done.
      split; [done|]. simplify_eq. cbn [head tail pushEntry].
      destruct (i_ring _ _ HI _ _ _ Hs Hh) as (? & ? & ? & ? & _).
      rewrite u64_id by (unfold is_u64, MaxUint64 in *; lia). lia.
    + exists s'. by rewrite list_lookup_insert_ne.
  - intros j s' h' y Hs' Hh' Hy. destruct (Htake _ _ _ Hs' Hh') as (s0 & h0 & Hs0 & Hh0 & E).
    rewrite E in Hy. by eapply i_unheld.
  - destruct (i_freed _ _ HI) as (coll & (Hl & Hc) & Hperm). exists coll. split; [|done].
    split; [done|]. cbn [slots with_slots]. intros j s' h' Hs' Hh'.
    destruct (Htake _ _ _ Hs' Hh') as (s0 & h0 & Hs0 & Hh0 & E). rewrite E. eauto.
Qed.

(** *** Passes *)

Lemma join_insert_perm {A} (l : list (list A)) j a b :
  l !! j = Some a -> mjoin (<[j := a ++ b]> l) ≡ₚ mjoin l ++ b.
Proof.
  revert j. induction l as [|x l IH]; intros [|j] H; try done; cbn in *.
  - injection H as ->. rewrite <- !app_assoc. f_equiv. apply Permutation_app_comm.
  - rewrite (IH _ H). by rewrite app_assoc.
Qed.

(** The pass reads a word: the bound stays below every reader it has read. *)
Lemma scan_above n m i e rs ts g :
  (forall v pc, rs !! i = Some v -> ts !! i = Some pc -> thread_ok g 0 v pc \/ exists t, pc = RInside t /\ 1 <= v <= g) ->
  m = MaxUint64 \/ 1 <= m <= n -> 1 <= n -> n < MaxUint64 -> rs !! i = Some e ->
  (e = 0 \/ 1 <= e <= n) ->
  all_above (safeEpochOf n m) rs ts i ->
  (minActiveStep m e = MaxUint64 \/ 1 <= minActiveStep m e <= n) /\
  all_above (safeEpochOf n (minActiveStep m e)) rs ts (S i).
Proof.
  intros Hok Hm Hn Hmax Hi He Ha. unfold minActiveStep.
  assert (Hle : safeEpochOf n (if negb (e =? 0) && (e <? m) then e else m) <= safeEpochOf n m).
  { unfold safeEpochOf. destruct (Z.eqb_spec e 0); cbn [negb andb]; [lia|].
    destruct (Z.ltb_spec e m); [|lia].
    destruct (Z.eqb_spec e MaxUint64), (Z.eqb_spec m MaxUint64); cbn [negb]; lia. }
  assert (Hself : e <> 0 -> safeEpochOf n (if negb (e =? 0) && (e <? m) then e else m) <= e).
  { intros. unfold safeEpochOf. destruct (Z.eqb_spec e 0); cbn [negb andb]; [lia|].
    destruct (Z.ltb_spec e m).
    - destruct (Z.eqb_spec e MaxUint64); cbn [negb]; lia.
    - destruct (Z.eqb_spec m MaxUint64); cbn [negb]; lia. }
  split.
  { destruct (Z.eqb_spec e 0); cbn [negb andb]; [done|]. destruct (Z.ltb_spec e m); [lia|done]. }
  intros k v pc Hk Hv Hpc. destruct (decide (k = i)) as [->|Hne].
  - simplify_eq. destruct (Hok _ _ Hi Hpc) as [Hth|(t & -> & Hv1)].
    + destruct pc; cbn in *; try done; lia.
    + cbn. apply Hself. lia.
  - eapply (all_above_le _ _ _ _ i); [exact Hle|reflexivity|done| |exact Hv|exact Hpc]. lia.
Qed.

(** What does not touch rings, readers or epoch. *)
Lemma Inv_local c c' w em' fs :
  Inv c w ->
  globalEpoch em' = globalEpoch (w_em w) -> readers em' = readers (w_em w) -> slots em' = slots (w_em w) ->
  pass_ok em' (w_threads w) c' -> (forall j s, effHead c' j s = effHead c j s) ->
  fs ++ inHand c' = inHand c ->
  Inv c' {| w_em := em'; w_threads := w_threads w; w_passes := <[0%nat := c']> (w_passes w);
            w_pend := w_pend w; w_hist := w_hist w; w_freed := w_freed w ++ fs; w_now := w_now w + 1 |}.
Proof.
  intros HI Eg Er Es Hok He Hf. destruct (i_g _ _ HI) as [Hg1 Hg2]. pose proof (i_now _ _ HI).
  split; cbn [w_em w_threads w_passes w_pend w_hist w_freed w_now]; rewrite ?Eg, ?Er, ?Es; try lia.
  - by rewrite (i_pass _ _ HI).
  - apply HI.
  - intros k v pc Hv Hpc. eapply thread_ok_mono; [reflexivity| |by eapply i_threads]; lia.
  - eapply Forall_impl; [apply (i_pend _ _ HI)|]. intros. eapply entry_ok_mono; [| |done]; lia.
  - intros k h Hk. eapply Forall_impl; [by apply (i_hist _ _ HI k)|]. intros.
    eapply entry_ok_mono; [| |done]; lia.
  - intros k s h Hs Hh. eapply ring_ok_mono; [|by eapply i_ring]. lia.
  - done.
  - intros j s h x Hs Hh Hx. rewrite He in Hx. by eapply i_unheld.
  - destruct (i_freed _ _ HI) as (coll & (Hl & Hc) & Hp). exists coll. split.
    + split; [done|]. rewrite Es. intros. rewrite He. auto.
    + by rewrite <- app_assoc, Hf.
Qed.

Lemma Inv_bump w :
  Inv CIdle w -> w_now w < MaxUint64 - 1 ->
  let n := u64 (globalEpoch (w_em w) + 1) in
  Inv (CScan n MaxUint64 0) {| w_em := with_epoch (w_em w) n; w_threads := w_threads w;
            w_passes := <[0%nat := CScan n MaxUint64 0]> (w_passes w);
            w_pend := w_pend w; w_hist := w_hist w; w_freed := w_freed w ++ []; w_now := w_now w + 1 |}.
Proof.
  intros HI Hmax n. destruct (i_g _ _ HI) as [Hg1 Hg2]. pose proof (i_now _ _ HI).
  assert (n = globalEpoch (w_em w) + 1) as -> by (apply u64_id; unfold is_u64, MaxUint64 in *; lia).
  split; cbn [w_em w_threads w_passes w_pend w_hist w_freed w_now globalEpoch readers slots with_epoch]; try lia.
  - by rewrite (i_pass _ _ HI).
  - apply HI.
  - intros k v pc Hv Hpc. eapply thread_ok_mono; [| |by eapply i_threads]; lia.
  - eapply Forall_impl; [apply (i_pend _ _ HI)|]. intros. eapply entry_ok_mono; [| |done]; lia.
  - intros k h Hk. eapply Forall_impl; [by apply (i_hist _ _ HI k)|]. intros.
    eapply entry_ok_mono; [| |done]; lia.
  - intros k s h Hs Hh. eapply ring_ok_mono; [|by eapply i_ring]. lia.
  - cbn. split; [done|]. split; [by left|]. intros i v pc Hi. lia.
  - intros j s h x Hs Hh Hx. by eapply i_unheld.
  - destruct (i_freed _ _ HI) as (coll & Hc & Hp). exists coll. split; [done|].
    by rewrite app_nil_r.
Qed.

(** The pass reads ring [j]: everything it takes is older than every reader. *)
Lemma Inv_read w safe j tf s ps h' :
  Inv (CCollect safe j tf) w -> slots (w_em w) !! j = Some s -> collectSlot s safe = (ps, h') ->
  Inv (CStore safe j tf ps h')
    {| w_em := w_em w; w_threads := w_threads w; w_passes := <[0%nat := CStore safe j tf ps h']> (w_passes w);
       w_pend := w_pend w; w_hist := w_hist w; w_freed := w_freed w ++ []; w_now := w_now w + 1 |}.
Proof.
  intros HI Hs Ec. destruct (i_g _ _ HI) as [Hg1 Hg2]. pose proof (i_now _ _ HI).
  pose proof (i_pok _ _ HI) as [Hsafe Habove].
  destruct (i_len _ _ HI) as (Hlr & Hls & Hlh & _).
  destruct (lookup_lt_is_Some_2 (w_hist w) j) as [h Hh].
  { rewrite Hlh, <- Hls. by eapply lookup_lt_Some. }
  destruct (collectSlot_spec _ _ _ _ _ _ (i_ring _ _ HI _ _ _ Hs Hh) Ec) as (Hr & Htake & Hps & Hold).
  split; cbn [w_em w_threads w_passes w_pend w_hist w_freed w_now]; try apply HI; try lia.
  - by rewrite (i_pass _ _ HI).
  - intros k v pc Hv Hpc. eapply thread_ok_mono; [reflexivity| |by eapply i_threads]; lia.
  - eapply Forall_impl; [apply (i_pend _ _ HI)|]. intros. eapply entry_ok_mono; [| |done]; lia.
  - intros k h0 Hk. eapply Forall_impl; [by apply (i_hist _ _ HI k)|]. intros.
    eapply entry_ok_mono; [| |done]; lia.
  - intros k s0 h0 Hs0 Hh0. eapply ring_ok_mono; [|by eapply i_ring]. lia.
  - cbn. eauto.
  - intros k s0 h0 x Hs0 Hh0 Hx. cbn [effHead] in Hx.
    destruct (decide (k = j)) as [->|]; [|eapply (i_unheld _ _ HI); eauto].
    simplify_eq. rewrite Htake in Hx. apply elem_of_app in Hx as [Hx|Hx]; [by eapply (i_unheld _ _ HI)|].
    apply list_elem_of_lookup in Hx as [q Hq]. rewrite lookup_drop in Hq.
    apply lookup_take_Some in Hq as [Hq Hlt].
    assert (Hep : p_epoch x < safe) by (eapply Hold; [|exact Hq]; lia).
    intros i t v [Ht Hv]. pose proof (i_hist _ _ HI _ _ Hh) as HF. rewrite Forall_forall in HF.
    destruct (HF x) as (_ & _ & Hg); [by eapply list_elem_of_lookup_2|].
    destruct (decide (p_time x < t)); [done|]. exfalso.
    specialize (Hg i t v (conj Ht Hv) ltac:(lia)).
    pose proof (Habove i v _ ltac:(apply lookup_lt_Some in Hv; lia) Hv Ht). cbn in *. lia.
  - destruct (i_freed _ _ HI) as (coll & (Hl & Hc) & Hp).
    exists (<[j := take (Z.to_nat h') h]> coll). split.
    + split; [by rewrite length_insert|]. intros k s0 h0 Hs0 Hh0. cbn [effHead].
      destruct (decide (k = j)) as [->|Hne].
      * rewrite list_lookup_insert_eq by (rewrite Hl, <- Hls; by eapply lookup_lt_Some). by simplify_eq.
      * rewrite list_lookup_insert_ne by done. by apply Hc.
    + rewrite Htake, join_insert_perm by (by rewrite (Hc _ _ _ Hs Hh)).
      cbn [inHand] in *. rewrite map_app, <- Hps, app_nil_r, app_assoc. by rewrite Hp.
Qed.

Lemma Inv_move w safe j tf s ps h' :
  Inv (CStore safe j tf ps h') w -> slots (w_em w) !! j = Some s ->
  Inv (CCollect safe (S j) (tf ++ ps))
    {| w_em := with_slots (w_em w) (<[j := setHead s h']> (slots (w_em w))); w_threads := w_threads w;
       w_passes := <[0%nat := CCollect safe (S j) (tf ++ ps)]> (w_passes w);
       w_pend := w_pend w; w_hist := w_hist w; w_freed := w_freed w ++ []; w_now := w_now w + 1 |}.
Proof.
  intros HI Hs. destruct (i_g _ _ HI) as [Hg1 Hg2]. pose proof (i_now _ _ HI).
  pose proof (i_pok _ _ HI) as (Hsafe & s' & Hs' & Hr). simplify_eq.
  assert (Hj : (j < length (slots (w_em w)))%nat) by (by eapply lookup_lt_Some).
  assert (He : forall k s1, <[j := setHead s h']> (slots (w_em w)) !! k = Some s1 ->
    exists s0, slots (w_em w) !! k = Some s0 /\
      Z.to_nat (head s1) = effHead (CStore safe j tf ps h') k s0).
  { intros k s1 Hk. cbn [effHead]. destruct (decide (k = j)) as [->|Hne].
    - rewrite list_lookup_insert_eq in Hk by done. injection Hk as <-. by exists s.
    - rewrite list_lookup_insert_ne in Hk by done. by exists s1. }
  split; cbn [w_em w_threads w_passes w_pend w_hist w_freed w_now globalEpoch readers slots with_slots];
    try apply HI; try lia.
  - by rewrite (i_pass _ _ HI).
  - rewrite length_insert. apply HI.
  - intros k v pc Hv Hpc. eapply thread_ok_mono; [reflexivity| |by eapply i_threads]; lia.
  - eapply Forall_impl; [apply (i_pend _ _ HI)|]. intros. eapply entry_ok_mono; [| |done]; lia.
  - intros k h0 Hk. eapply Forall_impl; [by apply (i_hist _ _ HI k)|]. intros.
    eapply entry_ok_mono; [| |done]; lia.
  - intros k s1 h0 Hs1 Hh0. destruct (decide (k = j)) as [->|Hne].
    + rewrite list_lookup_insert_eq in Hs1 by done. injection Hs1 as <-.
      eapply ring_ok_mono; [|apply setHead_ring_ok; [by eapply i_ring|lia]]. lia.
    + rewrite list_lookup_insert_ne in Hs1 by done. eapply ring_ok_mono; [|by eapply i_ring]. lia.
  - intros k s1 h0 x Hs1 Hh0 Hx. destruct (He _ _ Hs1) as (s0 & Hs0 & E). cbn [effHead] in Hx.
    rewrite E in Hx. by eapply (i_unheld _ _ HI).
  - destruct (i_freed _ _ HI) as (coll & (Hl & Hc) & Hp). exists coll. split.
    + split; [done|]. intros k s1 h0 Hs1 Hh0. cbn [slots with_slots] in Hs1.
      destruct (He _ _ Hs1) as (s0 & Hs0 & E). cbn [effHead]. rewrite E. eauto.
    + by rewrite app_nil_r.
Qed.

Lemma Inv_pass c w em' c' fs :
  Inv c w -> w_now w < MaxUint64 - 1 -> cstep (w_em w, c) (em', c') fs ->
  Inv c' {| w_em := em'; w_threads := w_threads w; w_passes := <[0%nat := c']> (w_passes w);
            w_pend := w_pend w; w_hist := w_hist w; w_freed := w_freed w ++ fs; w_now := w_now w + 1 |}.
Proof.
  intros HI Hmax H. destruct (i_g _ _ HI) as [Hg1 Hg2]. pose proof (i_pok _ _ HI) as Hok.
  inversion H; subst; cbn [pass_ok] in Hok.
  - by apply Inv_bump.
  - destruct Hok as (-> & Hm & Ha). apply (Inv_local (CScan (globalEpoch (w_em w)) m i)); try done.
    split; [done|].
    assert (Hth : forall v pc, readers (w_em w) !! i = Some v -> w_threads w !! i = Some pc ->
      thread_ok (globalEpoch (w_em w)) (w_now w) v pc) by (intros; by eapply i_threads).
    eapply scan_above; eauto; try lia.
    + intros v pc Hv Hpc. specialize (Hth v pc Hv Hpc). destruct pc; cbn in Hth |- *; eauto.
      right. exists since. split; [done|lia].
    + destruct (i_len _ _ HI) as (Hlr & _ & _ & Hlt).
      destruct (lookup_lt_is_Some_2 (w_threads w) i) as [pc Hpc].
      { rewrite Hlt, <- Hlr. by eapply lookup_lt_Some. }
      rename select (readers _ !! _ = Some _) into Hread. specialize (Hth _ _ Hread Hpc). destruct pc; cbn in Hth; lia.
  - destruct Hok as (-> & Hm & Ha). apply (Inv_local (CScan (globalEpoch (w_em w)) m i)); try done.
    split; [by apply safeEpochOf_le|]. eapply all_above_le; [reflexivity| |exact Ha].
    rename select (readers _ !! _ = None) into Hread. apply lookup_ge_None in Hread. destruct (i_len _ _ HI). lia.
  - by apply Inv_read with (s := s).
  - by apply Inv_move.
  - by apply (Inv_local (CCollect safe j tf)).
  - by apply (Inv_local (CFree safe (p :: tf))).
  - unfold drainLOBRetired. destruct (drainLoop _ _ _) as [cs keep]. cbn [fst].
    by apply (Inv_local (CFree safe [])).
Qed.

Lemma replicate_lookup_inv {A} n (x y : A) i : replicate n x !! i = Some y -> y = x.
Proof. intros H. by apply lookup_replicate in H as [-> _]. Qed.

Lemma Inv_initial : Inv CIdle (initialWorld 1).
Proof.
  split; cbn [initialWorld w_em w_threads w_passes w_pend w_hist w_freed w_now NewEpochManager
    globalEpoch readers slots]; rewrite ?length_replicate; unfold epochInit; try done; try lia.
  - intros i v pc Hv Hpc. apply replicate_lookup_inv in Hv, Hpc. by subst.
  - intros j h Hh. apply replicate_lookup_inv in Hh. subst. by constructor.
  - intros j s h Hs Hh. apply replicate_lookup_inv in Hs, Hh. subst. cbn.
    repeat split; cbn; unfold ringSize; try lia. intros k x _ H. done.
  - intros j s h x Hs Hh Hx. apply replicate_lookup_inv in Hs, Hh. subst. by apply not_elem_of_nil in Hx.
  - exists (replicate 64 []). split; [|by vm_compute]. split; [done|].
    intros j s h Hs Hh. pose proof (lookup_lt_Some _ _ _ Hh) as Hj. rewrite length_replicate in Hj.
    apply replicate_lookup_inv in Hs, Hh. subst. by rewrite lookup_replicate_2.
Qed.

Lemma step_now w w' : step w w' -> w_now w' = w_now w + 1.
Proof. by intros []. Qed.

Lemma step_Inv c w w' : Inv c w -> w_now w < MaxUint64 - 1 -> step w w' -> exists c', Inv c' w'.
Proof.
  intros HI Hmax H. destruct H as [i v pc v' pc' Hv Hpc Hr|r pc em' pc' fs Hpc Hc|j p|x pend em' h Hp Hr Hh].
  - exists c. by eapply Inv_reader.
  - exists pc'. rewrite (i_pass _ _ HI) in Hpc. destruct r as [|r]; [|by destruct r].
    injection Hpc as <-. by apply (Inv_pass c).
  - exists c. by apply Inv_retire.
  - exists c. apply retireAt_inv in Hr as (s & Hs & Hf & ->). eapply Inv_publish; eauto. lia.
Qed.

Lemma reachable_Inv w : reachable 1 w -> w_now w < MaxUint64 -> exists c, Inv c w.
Proof.
  unfold reachable. intros H. revert w H. refine (rtc_ind_r _ _ _ _).
  - intros _. exists CIdle. apply Inv_initial.
  - intros w w' _ H IH Hmax. rewrite (step_now _ _ H) in Hmax. destruct IH as [c HI]; [lia|].
    eapply step_Inv; eauto. lia.
Qed.

End Invariant.

(** ** A pass that runs alone *)

(** A number of steps of one pass, and the pages it frees meanwhile. *)
Inductive crun : nat -> EpochManager * cpc -> EpochManager * cpc -> list Z -> Prop :=
| crun_refl x : crun 0 x x []
| crun_step n x y z fs gs : cstep x y fs -> crun n y z gs -> crun (S n) x z (fs ++ gs).

Lemma crun_silent n x y z gs : cstep x y [] -> crun n y z gs -> crun (S n) x z gs.
Proof. intros H1 H2. change gs with ([] ++ gs). by econstructor. Qed.

Lemma crun_trans n m x y z fs gs : crun n x y fs -> crun m y z gs -> crun (n + m) x z (fs ++ gs).
Proof. induction 1; [done|]. rewrite <- app_assoc. econstructor; eauto. Qed.

Lemma crun_trans_silent n m x y z gs : crun n x y [] -> crun m y z gs -> crun (n + m) x z gs.
Proof. intros H1 H2. change gs with ([] ++ gs). eapply crun_trans; eauto. Qed.

Definition pass_to (w : world) (r : nat) (em : EpochManager) (c : cpc) (fs : list Z) (t : Z) : world :=
  {| w_em := em; w_threads := w_threads w; w_passes := <[r := c]> (w_passes w);
     w_pend := w_pend w; w_hist := w_hist w; w_freed := w_freed w ++ fs; w_now := t |}.

Lemma crun_steps n x y fs :
  crun n x y fs -> forall w r, w_em w = x.1 -> w_passes w !! r = Some x.2 ->
  rtc step w (pass_to w r y.1 y.2 fs (w_now w + Z.of_nat n)).
Proof.
  induction 1 as [[em c]|n [em c] [em1 c1] [em2 c2] fs gs Hs Hrun IH]; intros w r Ew Hr; cbn [fst snd] in *.
  - unfold pass_to. rewrite list_insert_id, app_nil_r, Z.add_0_r by done.
    destruct w; cbn in *; subst. reflexivity.
  - subst em. pose proof (s_pass w r c em1 c1 fs Hr Hs) as Hstep.
    pose proof (IH (pass_to w r em1 c1 fs (w_now w + 1)) r eq_refl) as Ht.
    eapply rtc_l; [exact Hstep|]. unfold pass_to in *.
    cbn [w_em w_threads w_passes w_pend w_hist w_freed w_now] in Ht.
    rewrite list_insert_insert_eq, <- app_assoc in Ht.
    replace (w_now w + Z.of_nat (S n)) with (w_now w + 1 + Z.of_nat n) by lia. apply Ht.
    apply list_lookup_insert_eq. by eapply lookup_lt_Some.
Qed.

Lemma scan_run em n m i :
  crun (S (length (readers em) - i)) (em, CScan n m i)
    (em, CCollect (safeEpochOf n (fold_left minActiveStep (drop i (readers em)) m)) 0 []) [].
Proof.
  rewrite <- length_drop. remember (drop i (readers em)) as l eqn:El. revert i m El.
  induction l as [|e l IH]; intros i m El.
  - eapply crun_silent; [|apply crun_refl]. apply c_scanned.
    rewrite lookup_ge_None. apply (f_equal length) in El. rewrite length_drop in El. cbn in El. lia.
  - assert (He : readers em !! i = Some e).
    { rewrite <- (Nat.add_0_r i), <- lookup_drop, <- El. done. }
    eapply crun_silent; [by apply c_scan|]. apply (IH (S i)).
    rewrite (drop_S _ _ _ He) in El. by injection El.
Qed.

Lemma with_slots_id em : with_slots em (slots em) = em.
Proof. by destruct em. Qed.

Lemma collect_run k safe : forall em j tf,
  length (slots em) = (j + k)%nat ->
  crun (S (2 * k)) (em, CCollect safe j tf)
       (with_slots em (take j (slots em) ++ (collectAll (drop j (slots em)) safe).2),
        CFree safe (tf ++ (collectAll (drop j (slots em)) safe).1)) [].
Proof.
  induction k as [|k IH]; intros em j tf Hlen.
  - rewrite drop_ge by lia. cbn [collectAll fst snd]. rewrite !app_nil_r, take_ge, with_slots_id by lia.
    eapply crun_silent; [|apply crun_refl]. apply c_collected. apply lookup_ge_None_2. lia.
  - destruct (lookup_lt_is_Some_2 (slots em) j) as [s Hs]; [lia|].
    rewrite (drop_S _ _ _ Hs). cbn [collectAll]. destruct (collectSlot s safe) as [ps h] eqn:E.
    destruct (collectAll (drop (S j) (slots em)) safe) as [qs l'] eqn:El. cbn [fst snd].
    replace (S (2 * S k)) with (S (S (S (2 * k)))) by lia.
    eapply crun_silent; [by eapply c_read|]. eapply crun_silent; [by eapply c_move|].
    specialize (IH (with_slots em (<[j := setHead s h]> (slots em))) (S j) (tf ++ ps)).
    cbn [slots with_slots] in IH. rewrite length_insert in IH. specialize (IH ltac:(lia)).
    rewrite drop_insert_lt, El in IH by lia. cbn [fst snd] in IH.
    rewrite (take_S_r _ _ (setHead s h)) in IH by (apply list_lookup_insert_eq; lia).
    rewrite take_insert_ge, <- !app_assoc in IH by lia. exact IH.
Qed.

Lemma free_run em safe tf :
  crun (S (length tf)) (em, CFree safe tf) ((drainLOBRetired em safe).1, CIdle) tf.
Proof.
  induction tf as [|p tf IH].
  - eapply crun_silent; [apply c_drain|apply crun_refl].
  - change (p :: tf) with ([p] ++ tf) at 3. eapply crun_step; [apply c_free|done].
Qed.

(** From the read of the first ring to the end of the pass. *)
Lemma finish_run em safe s ps h :
  slots em !! 0%nat = Some s ->
  exists n, crun n (em, CStore safe 0 [] ps h)
    ((drainLOBRetired (with_slots em (setHead s h :: (collectAll (drop 1 (slots em)) safe).2)) safe).1, CIdle)
    (ps ++ (collectAll (drop 1 (slots em)) safe).1).
Proof.
  intros Hs. pose proof (lookup_lt_Some _ _ _ Hs) as Hl.
  pose proof (collect_run (length (slots em) - 1) safe
    (with_slots em (<[0%nat := setHead s h]> (slots em))) 1 ps) as HC.
  cbn [slots with_slots] in HC. rewrite length_insert in HC. specialize (HC ltac:(lia)).
  rewrite drop_insert_lt in HC by lia. eexists.
  eapply crun_silent; [by eapply c_move|]. eapply crun_trans_silent; [exact HC|].
  rewrite (take_S_r _ _ (setHead s h)) by (by apply list_lookup_insert_eq). apply free_run.
Qed.

(** The safe epoch of a pass that starts now, and the pages it frees. *)
Definition passSafe (em : EpochManager) : Z :=
  safeEpochOf (u64 (globalEpoch em + 1)) (fold_left minActiveStep (readers em) MaxUint64).
Definition reclaimed (em : EpochManager) : list Z := (collectAll (slots em) (passSafe em)).1.

(** From the start of the pass to the first ring. *)
Lemma begin_run em :
  crun (S (S (length (readers em)))) (em, CIdle)
    (with_epoch em (u64 (globalEpoch em + 1)), CCollect (passSafe em) 0 []) [].
Proof.
  eapply crun_silent; [apply c_bump|].
  pose proof (scan_run (with_epoch em (u64 (globalEpoch em + 1))) (u64 (globalEpoch em + 1)) MaxUint64 0) as H.
  rewrite drop_0, Nat.sub_0_r in H. exact H.
Qed.

(** ... and to its read. *)
Lemma start_run em s ps h :
  slots em !! 0%nat = Some s -> collectSlot s (passSafe em) = (ps, h) ->
  exists n, crun n (em, CIdle) (with_epoch em (u64 (globalEpoch em + 1)), CStore (passSafe em) 0 [] ps h) [].
Proof.
  intros Hs Ec. eexists. eapply crun_trans_silent; [apply begin_run|].
  eapply crun_silent; [|apply crun_refl]. by eapply c_read.
Qed.

(** [tryReclaim] is the pass that nothing interrupts. *)
Lemma tryReclaim_run em :
  crun (length (readers em) + 2 * length (slots em) + length (reclaimed em) + 4)
    (em, CIdle) ((tryReclaim em).1, CIdle) (reclaimed em) /\
  exists cs, (tryReclaim em).2 = map FreePage (reclaimed em) ++ cs.
Proof.
  unfold tryReclaim, reclaimed. cbn [readers slots with_epoch]. fold (passSafe em).
  set (n := u64 (globalEpoch em + 1)).
  pose proof (collect_run (length (slots em)) (passSafe em) (with_epoch em n) 0 []) as HC.
  cbn [slots with_epoch] in HC. specialize (HC ltac:(lia)). rewrite drop_0 in HC.
  change (take 0 (slots em)) with (@nil epochSlot) in HC. cbn [app] in HC.
  destruct (collectAll (slots em) (passSafe em)) as [toFree l] eqn:E. cbn [fst snd] in *.
  destruct (drainLOBRetired _ (passSafe em)) as [em' cs] eqn:Ed. cbn [fst snd]. split; [|eauto].
  replace (length (readers em) + 2 * length (slots em) + length toFree + 4)%nat
    with (S (S (length (readers em))) + (S (2 * length (slots em)) + S (length toFree)))%nat by lia.
  eapply crun_trans_silent; [apply begin_run|]. fold n.
  eapply crun_trans_silent; [exact HC|].
  replace em' with (drainLOBRetired (with_slots (with_epoch em n) l) (passSafe em)).1 by (by rewrite Ed).
  apply free_run.
Qed.

(** ** Safety *)


(** *** A run: a page is retired, a pass frees it, a reader enters *)

Definition retiredWorld (passes : nat) (p : Z) : world :=
  let x := {| p_slot := 0; p_page := p; p_epoch := 1; p_time := 0 |} in
  {| w_em := with_slots NewEpochManager (<[0%nat := pushEntry emptySlot p 1]> (slots NewEpochManager));
     w_threads := replicate 64 RIdle; w_passes := replicate passes CIdle; w_pend := [];
     w_hist := <[0%nat := [x]]> (replicate 64 []); w_freed := []; w_now := 2 |}.

Lemma retiredWorld_reachable passes p : reachable passes (retiredWorld passes p).
Proof.
  eapply rtc_l; [apply (s_retire _ 0 p)|]. eapply rtc_l; [|apply rtc_refl].
  match goal with |- step ?w _ =>
    exact (s_publish w {| p_slot := 0; p_page := p; p_epoch := 1; p_time := 0 |} []
      (with_slots NewEpochManager (<[0%nat := pushEntry emptySlot p 1]> (slots NewEpochManager))) []
      (reflexivity _) eq_refl eq_refl)
  end.
Qed.

(** Three steps bring reader [i] in. *)
Lemma enter_run w i v :
  readers (w_em w) !! i = Some v -> w_threads w !! i = Some RIdle ->
  rtc step w {| w_em := with_readers (w_em w) (<[i := globalEpoch (w_em w)]> (readers (w_em w)));
                w_threads := <[i := RInside (w_now w + 1 + 1)]> (w_threads w); w_passes := w_passes w;
                w_pend := w_pend w; w_hist := w_hist w; w_freed := w_freed w; w_now := w_now w + 1 + 1 + 1 |}.
Proof.
  intros Hv Ht. pose proof (lookup_lt_Some _ _ _ Hv). pose proof (lookup_lt_Some _ _ _ Ht).
  eapply rtc_l; [eapply s_reader; [exact Hv|exact Ht|apply r_load]|].
  eapply rtc_l; [eapply s_reader; cbn [w_em w_threads readers with_readers globalEpoch w_now];
    [by apply list_lookup_insert_eq|by apply list_lookup_insert_eq|apply r_store]|].
  cbn [w_em w_threads w_passes w_pend w_hist w_freed readers with_readers globalEpoch w_now].
  rewrite !list_insert_insert_eq.
  eapply rtc_l; [eapply s_reader; cbn [w_em w_threads readers with_readers globalEpoch w_now];
    [by apply list_lookup_insert_eq|by apply list_lookup_insert_eq|by apply r_same]|].
  cbn [w_em w_threads w_passes w_pend w_hist w_freed readers with_readers globalEpoch w_now].
  rewrite !list_insert_insert_eq. reflexivity.
Qed.

Definition enteredWorld : world :=
  let w := pass_to (retiredWorld 1 7) 0 (tryReclaim (w_em (retiredWorld 1 7))).1 CIdle [7] (2 + 197) in
  {| w_em := with_readers (w_em w) (<[3%nat := globalEpoch (w_em w)]> (readers (w_em w)));
     w_threads := <[3%nat := RInside (w_now w + 1 + 1)]> (w_threads w); w_passes := w_passes w;
     w_pend := w_pend w; w_hist := w_hist w; w_freed := w_freed w; w_now := w_now w + 1 + 1 + 1 |}.

Lemma enteredWorld_reachable : reachable 1 enteredWorld.
Proof.
  unfold reachable. etrans; [apply (retiredWorld_reachable 1 7)|].
  etrans; [|apply (enter_run _ 3 0); by vm_compute].
  destruct (tryReclaim_run (w_em (retiredWorld 1 7))) as [H _].
  eapply (crun_steps _ _ _ _ H); done.
Qed.


(** ** Two passes at a time *)

(** [tryReclaim] is called by the background loop, by a full LOB queue and
    after every checkpoint, with nothing that keeps two passes apart.  Two
    passes that read a ring before either moves its head hand every page they
    see to the free callback twice: there is a reachable state in which one
    page has been retired once and freed twice. *)
Theorem concurrent_passes_free_twice p :
  exists w, reachable 2 w /\ map p_page (mjoin (w_hist w)) = [p] /\ w_freed w = [p; p].
Proof.
  set (s := pushEntry emptySlot p 1). set (w0 := retiredWorld 2 p).
  destruct (start_run (w_em w0) s [p] 1 eq_refl eq_refl) as [n1 H1].
  pose proof (crun_steps _ _ _ _ H1 w0 0 eq_refl eq_refl) as R1.
  set (w1 := pass_to w0 0 _ _ _ _) in R1.
  destruct (start_run (w_em w1) s [p] 1 eq_refl eq_refl) as [n2 H2].
  pose proof (crun_steps _ _ _ _ H2 w1 1 eq_refl eq_refl) as R2.
  set (w2 := pass_to w1 1 _ _ _ _) in R2.
  destruct (finish_run (w_em w2) (passSafe (w_em w0)) s [p] 1 eq_refl) as [n3 H3].
  pose proof (crun_steps _ _ _ _ H3 w2 0 eq_refl eq_refl) as R3.
  set (w3 := pass_to w2 0 _ _ _ _) in R3.
  destruct (finish_run (w_em w3) (passSafe (w_em w1)) (setHead s 1) [p] 1 eq_refl) as [n4 H4].
  pose proof (crun_steps _ _ _ _ H4 w3 1 eq_refl eq_refl) as R4.
  eexists. split; [|split].
  - unfold reachable. etrans; [apply (retiredWorld_reachable 2 p)|].
    etrans; [exact R1|]. etrans; [exact R2|].
    etrans; [exact R3|exact R4].
  - done.
  - done.
Qed.

(** ** Liveness *)

Lemma fold_idle n : fold_left minActiveStep (replicate n 0) MaxUint64 = MaxUint64.
Proof. induction n as [|n IH]; [done|]. exact IH. Qed.

(** With a safe epoch above every entry a ring is emptied. *)
Lemma collectSlot_all now s h safe :
  ring_ok now s h -> Forall (fun x => 1 <= p_epoch x < safe) h ->
  collectSlot s safe = (map p_page (drop (Z.to_nat (head s)) h), tail s).
Proof.
  intros Hok Hall. pose proof Hok as (Hh & Hw & Ht & Hn & Hb). unfold zlen in Ht.
  destruct (collectSlot s safe) as [ps h'] eqn:E.
  destruct (collectSlot_spec _ _ _ _ _ _ Hok E) as (Hr & _ & -> & _).
  assert (h' = tail s) as ->; [|by rewrite take_ge by lia].
  unfold collectSlot in E. destruct (Z.leb_spec (tail s) (head s)); [injection E; lia|].
  destruct (collectLoop_stops _ _ _ _ _ _ _ E) as [|Hstop]; [lia..|done|].
  destruct (decide (h' = tail s)); [done|]. exfalso.
  destruct (lookup_lt_is_Some_2 h (Z.to_nat h')) as [x Hx]; [lia|].
  specialize (Hb (Z.to_nat h') x ltac:(lia) Hx). rewrite Z2Nat.id in Hb by lia. rewrite Hb in Hstop.
  rewrite Forall_forall in Hall. specialize (Hall x (list_elem_of_lookup_2 _ _ _ Hx)). cbn in Hstop. lia.
Qed.

Definition waiting (s : epochSlot) (h : list pending) : list pending := drop (Z.to_nat (head s)) h.
Definition takenOf (s : epochSlot) (h : list pending) : list pending := take (Z.to_nat (head s)) h.

Lemma collectAll_all safe ss hs :
  Forall2 (fun s h => collectSlot s safe = (map p_page (waiting s h), tail s)) ss hs ->
  (collectAll ss safe).1 = map p_page (mjoin (zip_with waiting ss hs)).
Proof.
  induction 1 as [|s h ss hs Hs _ IH]; [done|]. cbn [collectAll zip_with mjoin list_join]. rewrite Hs.
  destruct (collectAll ss safe) as [qs l']. cbn [fst] in *. by rewrite IH, map_app.
Qed.

Lemma taken_waiting ss hs :
  length ss = length hs ->
  mjoin (zip_with takenOf ss hs) ++ mjoin (zip_with waiting ss hs) ≡ₚ mjoin hs.
Proof.
  revert hs. induction ss as [|s ss IH]; intros [|h hs] Hl; try done. cbn [length zip_with mjoin list_join] in *.
  rewrite <- (IH hs) by lia. rewrite <- (take_drop (Z.to_nat (head s)) h) at 3.
  unfold takenOf at 1, waiting at 1. solve_Permutation.
Qed.

Lemma map_perm_app (l1 l2 l3 : list pending) :
  l1 ++ l2 ≡ₚ l3 -> map p_page l1 ++ map p_page l2 ≡ₚ map p_page l3.
Proof. intros <-. by rewrite map_app. Qed.



(** ** What the protocol leaves open *)

(** Slots are handed out modulo 64 and may be shared: the 65th caller gets the
    first one's slot, and its exit clears the word that protects the first. *)
Definition oneAlloc : EpochManager := (AllocSlot NewEpochManager).1.
Definition allAlloc : EpochManager := Nat.iter 64 (fun em => (AllocSlot em).1) oneAlloc.

Lemma shared_slot : (AllocSlot NewEpochManager).2 = 1 /\
  (AllocSlot (Nat.iter 63 (fun em => (AllocSlot em).1) oneAlloc)).2 = 1.
Proof. by vm_compute. Qed.

Lemma shared_slot_unprotects p :
  let retired := match EnterRead allAlloc 1 with
    | Ret em => match Retire em 0 p with Ret (Some em) => Some em | _ => None end | _ => None end in
  let exited := match retired with
    | Some em => match EnterRead em 1 with
      | Ret em => match ExitRead em 1 with Ret em => Some em | _ => None end | _ => None end
    | None => None end in
  snd <$> (tryReclaim <$> retired) = Some [] /\
  snd <$> (tryReclaim <$> exited) = Some [FreePage p].
Proof. split; vm_compute; reflexivity. Qed.

(** The window between the claim of a ring position and its publication, once
    the ring has wrapped: the pass sees the entry of the previous round, whose
    epoch is not 0, and frees that page again. *)
Lemma unpublished_entry_frees_again b h q e safe :
  entryAt b (h mod ringSize) = {| pageID := q; e_epoch := e |} -> 1 <= e < safe ->
  collectSlot {| buf := b; head := h; tail := h + 1 |} safe = ([q], h + 1).
Proof.
  intros Hb He. unfold collectSlot. cbn [head tail buf]. rewrite (proj2 (Z.leb_gt _ _)) by lia.
  replace (Z.to_nat (h + 1 - h)) with 1%nat by lia. cbn [collectLoop]. rewrite (proj2 (Z.ltb_lt _ _)) by lia.
  cbv zeta. rewrite Hb. cbn [e_epoch pageID]. destruct (Z.eqb_spec e 0); [lia|].
  by destruct (Z.leb_spec safe e); [lia|].
Qed.

(** ** LOB resources *)

(** A drain keeps, in order, the resources that are not yet safe and releases
    the others. *)
Lemma drainLoop_spec em l safe :
  drainLoop em l safe =
  (flat_map (lobCalls em) (filter (fun e => l_epoch e < safe) l), filter (fun e => safe <= l_epoch e) l).
Proof.
  induction l as [|e l IH]; [done|]. cbn [drainLoop]. rewrite IH, !filter_cons.
  destruct (Z.ltb_spec (l_epoch e) safe).
  - by rewrite decide_True, decide_False by lia.
  - by rewrite decide_False, decide_True by lia.
Qed.

(** A limit of 0, documented as no limit, forces a pass at every retirement. *)
Lemma lob_limit_zero em first :
  first <> 0 -> hasLob em = true ->
  RetireLobChain (SetMaxLOBRetiredLen em 0) first =
  (let '(em', cs) := tryReclaim (SetMaxLOBRetiredLen em 0) in
   (with_lobRetired em' (lobRetired em' ++ [{| firstPageID := first; lobID := 0; l_epoch := globalEpoch em |}]), cs)).
Proof.
  intros Hf Hl. unfold RetireLobChain. rewrite (proj2 (Z.eqb_neq _ _)) by done. cbn [hasLob SetMaxLOBRetiredLen].
  rewrite Hl. cbn [orb negb]. unfold retireLob. cbn [maxLobRetiredLen SetMaxLOBRetiredLen].
  pose proof (zlen_nonneg (lobRetired (SetMaxLOBRetiredLen em 0))).
  rewrite (proj2 (Z.leb_le _ _)) by lia. by destruct (tryReclaim _).
Qed.
