(* ===== verification/MpscQueue.v ===== *)
(** * The task queue of a scheduler core (concurrency/ringbuf.go)

    A ring of 16384 slots with an overflow list behind it.  The scheduler calls it
    under the mutex of its ShardTask, so its operations are atomic here; the linked
    overflow list is then the list of its tasks.  The indices are 64-bit counters.

    A queue is the list of its tasks in the order the consumer takes them: the
    ring first, then the overflow.  A producer puts a task in the ring whenever
    there is room, so that this is not the order of arrival. *)

From stdpp Require Import base list gmap.
From Stdlib Require Import ZArith Lia.
From S2P Require Import Prelude.

Local Open Scope Z_scope.

Definition ringBufferSize : Z := 16384.
Definition ringBufferMask : Z := ringBufferSize - 1.

Section queue.
Context {T : Type}.

(** [buffer]: the slots that were ever written. *)
Record MPSCExtQueue := mkQueue {
  buffer : gmap Z T;
  writeIdx : Z;
  readIdx : Z;
  overflow : list T;
  overflowLen : Z }.
Implicit Types (q : MPSCExtQueue) (t : T).

Definition NewMPSCExtQueue : MPSCExtQueue := mkQueue ∅ 0 0 [] 0.

Definition slotOf (idx : Z) : Z := Z.land idx ringBufferMask.

Definition enqueueOverflow t q : MPSCExtQueue := mkQueue (buffer q) (writeIdx q) (readIdx q) (overflow q ++ [t]) (i64 (overflowLen q + 1)).
Definition Enqueue t q : MPSCExtQueue :=
  if u64 (writeIdx q - readIdx q) <? ringBufferSize
  then mkQueue (<[slotOf (writeIdx q) := t]> (buffer q)) (u64 (writeIdx q + 1)) (readIdx q) (overflow q) (overflowLen q)
  else enqueueOverflow t q.

(** [None]: no task.  [Some None]: a slot that was never written, a nil pointer. *)
Definition Peek q : option (option T) :=
  if readIdx q <? writeIdx q then Some (buffer q !! slotOf (readIdx q))
  else match overflow q with [] => None | t :: _ => Some (Some t) end.

(** The loop over the ring: from index [read], for at most [n] tasks. *)
Fixpoint peekRing (n : nat) (read : Z) q : list (option T) :=
  match n with
  | O => []
  | S n => if read <? writeIdx q then buffer q !! slotOf read :: peekRing n (read + 1) q else []
  end.
Definition PeekN (n : nat) q : list (option T) :=
  let ring := peekRing n (readIdx q) q in
  ring ++ map Some (take (n - length ring) (overflow q)).

Definition Commit q : MPSCExtQueue :=
  if readIdx q <? writeIdx q then mkQueue (buffer q) (writeIdx q) (u64 (readIdx q + 1)) (overflow q) (overflowLen q)
  else match overflow q with
    | [] => q
    | _ :: rest => mkQueue (buffer q) (writeIdx q) (readIdx q) rest (i64 (overflowLen q - 1))
    end.
Fixpoint CommitN (n : nat) q : MPSCExtQueue := match n with O => q | S n => CommitN n (Commit q) end.

Definition Dequeue q : MPSCExtQueue * option (option T) :=
  match Peek q with None => (q, None) | Some t => (Commit q, Some t) end.
Definition DequeueN (n : nat) q : MPSCExtQueue * list (option T) :=
  let ts := PeekN n q in (CommitN (length ts) q, ts).

Definition Size q : Z := u64 (u64 (writeIdx q - readIdx q) + u64 (overflowLen q)).
Definition IsEmpty q : bool := if readIdx q <? writeIdx q then false else match overflow q with [] => true | _ => false end.
Definition IsFull q : bool := ringBufferSize <=? u64 (writeIdx q - readIdx q).
Definition Reset q : MPSCExtQueue := mkQueue (buffer q) 0 0 [] 0.

(** ** The list a queue stands for *)

Definition ring q : list (option T) := map (fun k => buffer q !! slotOf k) (seqZ (readIdx q) (writeIdx q - readIdx q)).

(** The ring holds [l1], the overflow [l2]; the counters have not wrapped. *)
Record holds q (l1 l2 : list T) : Prop := {
  h_read : 0 <= readIdx q;
  h_write : writeIdx q = readIdx q + zlen l1;
  h_width : writeIdx q < 2 ^ 64;
  h_room : zlen l1 <= ringBufferSize;
  h_ring : ring q = map Some l1;
  h_over : overflow q = l2;
  h_len : overflowLen q = zlen l2 }.

Lemma new_holds : holds NewMPSCExtQueue [] [].
Proof. by constructor. Qed.
Lemma reset_holds q : holds (Reset q) [] [].
Proof. by constructor. Qed.

Lemma slotOf_mod k : 0 <= k -> slotOf k = k mod ringBufferSize.
Proof. intros. unfold slotOf, ringBufferMask. change ringBufferSize with (2 ^ 14). by rewrite <- Z.land_ones by lia. Qed.

(** Slots of different tasks in the ring are different. *)
Lemma slot_inj a b : 0 <= a -> a < b -> b < a + ringBufferSize -> slotOf a <> slotOf b.
Proof.
  intros Ha Hab Hb E. rewrite !slotOf_mod in E by lia. assert ((b - a) mod ringBufferSize = 0) as H0.
  { rewrite Zminus_mod, E, Z.sub_diag. done. }
  rewrite Z.mod_small in H0; unfold ringBufferSize in *; lia.
Qed.

Lemma ring_cons q l1 l2 t : holds q (t :: l1) l2 -> buffer q !! slotOf (readIdx q) = Some t /\ readIdx q < writeIdx q.
Proof.
  intros [H1 H2 H3 H4 H5 H6 H7]. rewrite zlen_cons in H2. pose proof (zlen_nonneg l1). split; [|lia].
  unfold ring in H5. rewrite seqZ_cons in H5 by lia. cbn in H5. by injection H5.
Qed.

Lemma enqueue_ring q l1 l2 t : holds q l1 l2 -> zlen l1 < ringBufferSize -> writeIdx q < 2 ^ 64 - 1 -> holds (Enqueue t q) (l1 ++ [t]) l2.
Proof.
  intros [H1 H2 H3 H4 H5 H6 H7] Hl Hw. pose proof (zlen_nonneg l1).
  unfold Enqueue. assert (u64 (writeIdx q - readIdx q) = zlen l1) as -> by (rewrite u64_id by (unfold is_u64; lia); lia).
  rewrite (proj2 (Z.ltb_lt _ _)), (u64_id (writeIdx q + 1)) by (done || unfold is_u64; lia).
  constructor; cbn [readIdx writeIdx buffer overflow overflowLen]; try done; try lia; try (rewrite zlen_app; change (zlen [t]) with 1; lia).
  unfold ring in *. cbn [readIdx writeIdx buffer].
  replace (writeIdx q + 1 - readIdx q) with (writeIdx q - readIdx q + 1) by lia. rewrite seqZ_app by lia.
  rewrite map_app, map_app, <- H5. f_equal.
  - apply map_ext_in. intros k Hk. apply list_elem_of_In, elem_of_seqZ in Hk. rewrite lookup_insert_ne; [done|].
    intros E. symmetry in E. revert E. apply slot_inj; lia.
  - replace (readIdx q + (writeIdx q - readIdx q)) with (writeIdx q) by lia. rewrite (seqZ_cons _ 1) by lia. cbn. by rewrite lookup_insert_eq.
Qed.

Lemma enqueue_overflow q l1 l2 t : holds q l1 l2 -> zlen l1 = ringBufferSize -> zlen l2 < 2 ^ 63 - 1 -> holds (Enqueue t q) l1 (l2 ++ [t]).
Proof.
  intros [H1 H2 H3 H4 H5 H6 H7] Hl Hw. pose proof (zlen_nonneg l1). pose proof (zlen_nonneg l2). unfold Enqueue.
  assert (u64 (writeIdx q - readIdx q) = zlen l1) as -> by (rewrite u64_id by (unfold is_u64; lia); lia).
  rewrite (proj2 (Z.ltb_ge _ _)) by lia. constructor; cbn; try done; [by rewrite H6|].
  rewrite i64_id by (unfold is_i64; lia). rewrite zlen_app. change (zlen [t]) with 1. lia.
Qed.

Lemma commit_ring q t l1 l2 : holds q (t :: l1) l2 -> holds (Commit q) l1 l2.
Proof.
  intros H. destruct (ring_cons _ _ _ _ H) as [_ Hlt]. destruct H as [H1 H2 H3 H4 H5 H6 H7]. rewrite zlen_cons in *. pose proof (zlen_nonneg l1).
  unfold Commit. rewrite (proj2 (Z.ltb_lt _ _)), (u64_id (readIdx q + 1)) by (done || unfold is_u64; lia).
  constructor; cbn [readIdx writeIdx buffer overflow overflowLen]; try done; try lia.
  unfold ring in *. cbn [readIdx writeIdx buffer]. rewrite seqZ_cons in H5 by lia. injection H5 as _ <-. f_equal. f_equal; lia.
Qed.
Lemma commit_overflow q t l2 : holds q [] (t :: l2) -> zlen l2 < 2 ^ 63 - 1 -> holds (Commit q) [] l2.
Proof.
  intros [H1 H2 H3 H4 H5 H6 H7] Hw. rewrite zlen_cons in *. unfold zlen in H2. cbn in H2. pose proof (zlen_nonneg l2).
  unfold Commit. rewrite (proj2 (Z.ltb_ge _ _)) by lia. rewrite H6. constructor; cbn [readIdx writeIdx buffer overflow overflowLen]; try done.
  rewrite i64_id by (unfold is_i64; lia). lia.
Qed.

Lemma peek_holds q l1 l2 : holds q l1 l2 -> Peek q = Some <$> List.hd_error (l1 ++ l2).
Proof.
  intros H. unfold Peek. destruct l1 as [|t l1].
  - destruct H as [H1 H2 H3 H4 H5 H6 H7]. unfold zlen in H2. cbn in H2. rewrite (proj2 (Z.ltb_ge _ _)), H6 by lia. by destruct l2.
  - destruct (ring_cons _ _ _ _ H) as [E Hlt]. by rewrite (proj2 (Z.ltb_lt _ _)), E.
Qed.
Lemma commit_holds q t l1 l2 l : holds q l1 l2 -> zlen l2 < 2 ^ 63 -> l1 ++ l2 = t :: l -> exists l1' l2', holds (Commit q) l1' l2' /\ l = l1' ++ l2' /\ (l1' = [] \/ l2' = l2) /\ (length l2' <= length l2)%nat.
Proof.
  intros H Hw E. destruct l1 as [|u l1].
  - cbn in E. subst l2. rewrite zlen_cons in Hw. exists [], l. split; [apply (commit_overflow q t); [done|lia]|]. split; [done|]. split; [by left|cbn; lia].
  - injection E as -> <-. exists l1, l2. split; [by eapply commit_ring|]. split; [done|]. split; [by right|done].
Qed.

Lemma commitN_holds n q l1 l2 : holds q l1 l2 -> zlen l2 < 2 ^ 63 -> (n <= length (l1 ++ l2))%nat ->
  exists l1' l2', holds (CommitN n q) l1' l2' /\ l1' ++ l2' = drop n (l1 ++ l2).
Proof.
  revert q l1 l2. induction n as [|n IH]; intros q l1 l2 H Hw Hn; [by exists l1, l2|]. destruct (l1 ++ l2) as [|t l] eqn:E; [cbn in Hn; lia|].
  destruct (commit_holds q t l1 l2 l H Hw E) as (l1' & l2' & H' & -> & _ & Hlen). cbn [CommitN drop].
  apply IH; [done|unfold zlen in *; lia|cbn in Hn; lia].
Qed.

Lemma peekRing_holds n q l1 l2 k : holds q l1 l2 -> (k <= length l1)%nat -> peekRing n (readIdx q + Z.of_nat k) q = map Some (take n (drop k l1)).
Proof.
  intros H Hk. revert k Hk. induction n as [|n IH]; intros k Hk; [by rewrite take_0|]. cbn [peekRing].
  destruct H as [H1 H2 H3 H4 H5 H6 H7]. destruct (decide (k < length l1)%nat) as [Hlt|Hge].
  - rewrite (proj2 (Z.ltb_lt _ _)) by (unfold zlen in *; lia). destruct (lookup_lt_is_Some_2 l1 k Hlt) as [t Et]. rewrite (drop_S _ t _ Et). cbn [take map].
    assert (buffer q !! slotOf (readIdx q + Z.of_nat k) = Some t) as ->.
    { assert (ring q !! k = Some (Some t)) as Er by (rewrite H5; unfold zlen in *; by rewrite list_lookup_fmap, Et).
      unfold ring in Er. rewrite list_lookup_fmap, lookup_seqZ_lt in Er by (unfold zlen in *; lia). by injection Er. }
    f_equal. replace (readIdx q + Z.of_nat k + 1) with (readIdx q + Z.of_nat (S k)) by lia. by apply IH.
  - rewrite (proj2 (Z.ltb_ge _ _)) by (unfold zlen in *; lia). by rewrite drop_ge by lia.
Qed.

Lemma peekN_holds n q l1 l2 : holds q l1 l2 -> PeekN n q = map Some (take n (l1 ++ l2)).
Proof.
  intros H. unfold PeekN. pose proof (peekRing_holds n q l1 l2 0 H ltac:(lia)) as E. rewrite Z.add_0_r, drop_0 in E. rewrite E.
  rewrite length_map, length_take, (h_over _ _ _ H), take_app, map_app. do 3 f_equal. lia.
Qed.

(** A queue, below the widths of its counters, is a list.  [Enqueue] puts a task
    at the end of the ring if there is room and at the end of the overflow
    otherwise; [Peek] and [PeekN] show the first tasks, [Dequeue] and [DequeueN]
    take them and no others; [Size], [IsEmpty] and [IsFull] are as expected. *)
Theorem mpsc_queue_spec q l1 l2 t n : holds q l1 l2 -> writeIdx q < 2 ^ 64 - 1 -> zlen l2 < 2 ^ 63 - 1 ->
  holds (Enqueue t q) (if zlen l1 <? ringBufferSize then l1 ++ [t] else l1) (if zlen l1 <? ringBufferSize then l2 else l2 ++ [t]) /\
  Peek q = Some <$> List.hd_error (l1 ++ l2) /\ PeekN n q = map Some (take n (l1 ++ l2)) /\
  (exists q' l1' l2', Dequeue q = (q', Some <$> List.hd_error (l1 ++ l2)) /\ holds q' l1' l2' /\ l1' ++ l2' = List.tl (l1 ++ l2)) /\
  (exists q' l1' l2', DequeueN n q = (q', map Some (take n (l1 ++ l2))) /\ holds q' l1' l2' /\ l1' ++ l2' = drop n (l1 ++ l2)) /\
  Size q = zlen (l1 ++ l2) /\ IsEmpty q = bool_decide (l1 ++ l2 = []) /\ IsFull q = bool_decide (zlen l1 = ringBufferSize).
Proof.
  intros H Hw Ho. pose proof (h_room _ _ _ H) as Hroom. pose proof (zlen_nonneg l1). pose proof (zlen_nonneg l2).
  assert (u64 (writeIdx q - readIdx q) = zlen l1) as Hr.
  { pose proof (h_read _ _ _ H). pose proof (h_write _ _ _ H). pose proof (h_width _ _ _ H). rewrite u64_id by (unfold is_u64; lia). lia. }
  split; [|split; [by apply peek_holds|split; [by apply peekN_holds|split; [|split; [|split; [|split]]]]]].
  - destruct (Z.ltb_spec (zlen l1) ringBufferSize); [apply enqueue_ring|apply enqueue_overflow]; by try lia.
  - unfold Dequeue. rewrite (peek_holds q l1 l2 H). destruct (l1 ++ l2) as [|u l] eqn:E; cbn.
    + exists q, l1, l2. by rewrite E.
    + destruct (commit_holds q u l1 l2 l H ltac:(lia) E) as (l1' & l2' & H' & -> & _). by exists (Commit q), l1', l2'.
  - unfold DequeueN. rewrite (peekN_holds n q l1 l2 H), length_map.
    destruct (commitN_holds (length (take n (l1 ++ l2))) q l1 l2 H ltac:(lia)) as (l1' & l2' & H' & E); [rewrite length_take; lia|].
    exists (CommitN (length (take n (l1 ++ l2))) q), l1', l2'. split; [done|]. split; [done|]. rewrite E, length_take.
    destruct (decide (n <= length (l1 ++ l2))%nat); [by rewrite Nat.min_l by lia|]. by rewrite Nat.min_r, !drop_ge by lia.
  - unfold Size. rewrite Hr, (h_len _ _ _ H), zlen_app. rewrite (u64_id (zlen l2)) by (unfold is_u64; lia). rewrite u64_id; [done|]. unfold is_u64, ringBufferSize in *. lia.
  - unfold IsEmpty. destruct l1 as [|u l1]; cbn [app].
    + rewrite (proj2 (Z.ltb_ge _ _)) by (pose proof (h_write _ _ _ H); unfold zlen in *; cbn in *; lia). rewrite (h_over _ _ _ H). by destruct l2.
    + destruct (ring_cons _ _ _ _ H) as [_ Hlt]. by rewrite (proj2 (Z.ltb_lt _ _)).
  - unfold IsFull. rewrite Hr. apply eq_true_iff_eq. rewrite Z.leb_le, bool_decide_eq_true. lia.
Qed.

Lemma Commit_writeIdx q : writeIdx (Commit q) = writeIdx q.
Proof. unfold Commit. by repeat case_match. Qed.
Lemma CommitN_writeIdx n q : writeIdx (CommitN n q) = writeIdx q.
Proof. revert q. induction n as [|n IH]; intros q; [done|]. cbn. by rewrite IH, Commit_writeIdx. Qed.
Lemma commitN_ring q l l1 l2 : holds q (l ++ l1) l2 -> holds (CommitN (length l) q) l1 l2.
Proof. revert q. induction l as [|t l IH]; intros q H; [done|]. cbn. apply IH. by eapply commit_ring. Qed.
Lemma Enqueue_readIdx t q : readIdx (Enqueue t q) = readIdx q.
Proof. unfold Enqueue. by case_match. Qed.

(** The queue is not first in, first out.  From a full ring: a task that goes to
    the overflow is overtaken by one that comes after a single [Dequeue]. *)
Theorem mpsc_overtaking q u l1 a b : holds q (u :: l1) [] -> zlen (u :: l1) = ringBufferSize -> writeIdx q < 2 ^ 64 - 1 ->
  holds (Enqueue b (Commit (Enqueue a q))) (l1 ++ [b]) [a].
Proof.
  intros H Hl Hw. pose proof (enqueue_overflow q (u :: l1) [] a H Hl ltac:(done)) as H1.
  pose proof (commit_ring _ _ _ _ H1) as H2. apply enqueue_ring; [done|rewrite zlen_cons in Hl; lia|].
  rewrite Commit_writeIdx, (h_write _ _ _ H1), Enqueue_readIdx, <- (h_write _ _ _ H). done.
Qed.

End queue.
Arguments MPSCExtQueue : clear implicits.

Lemma mpsc_queue_spec_witness : let q := Enqueue 5 (NewMPSCExtQueue (T := Z)) in holds (Enqueue 6 q) [5; 6] [] /\ PeekN 3 q = [Some 5] /\ Size q = 1.
Proof.
  intros q. assert (holds q [5] []) as H by (apply (enqueue_ring _ [] [] 5); [apply new_holds|done|done]).
  destruct (mpsc_queue_spec q [5] [] 6 3 H eq_refl eq_refl) as (H1 & _ & H2 & _ & _ & H3 & _). done.
Defined.

(** A queue with [n] tasks in its ring. *)
Lemma fill_holds n : 0 <= n -> n <= ringBufferSize -> exists q, holds q (seqZ 0 n) [] /\ writeIdx q = n.
Proof.
  intros Hn. pattern n. apply natlike_ind; [|clear n Hn; intros n Hn IH Hs|done]; [intros _; exists NewMPSCExtQueue; split; [apply new_holds|done]|].
  destruct IH as (q & H & Hw); [lia|]. exists (Enqueue n q).
  assert (zlen (seqZ 0 n) = n) as El by (unfold zlen; rewrite length_seqZ; lia). unfold ringBufferSize in *.
  replace (Z.succ n) with (n + 1) by lia. rewrite seqZ_app, (seqZ_cons _ 1) by lia. change (seqZ _ (Z.pred 1)) with ([] : list Z).
  assert (holds (Enqueue n q) (seqZ 0 n ++ [n]) []) as H' by (apply enqueue_ring; [done|unfold ringBufferSize; lia|lia]).
  split; [exact H'|]. rewrite (h_write _ _ _ H'), Enqueue_readIdx, zlen_app. change (zlen [n]) with 1. pose proof (h_write _ _ _ H). lia.
Qed.

Lemma mpsc_overtaking_witness : exists q, holds (Enqueue (-2) (Commit (Enqueue (-1) q))) (seqZ 1 (ringBufferSize - 1) ++ [-2]) [-1].
Proof.
  destruct (fill_holds ringBufferSize) as (q & H & Hw); [done|done|]. exists q.
  rewrite seqZ_cons in H by done. apply (mpsc_overtaking q 0); [exact H| |by rewrite Hw].
  rewrite zlen_cons. unfold zlen. by rewrite length_seqZ.
Defined.
