(* ===== verification/TaskScheduler.v ===== *)
(** * Tasks, scheduler cores and routing (concurrency/task_scheduler.go)

    A ShardTask is a queue with a function; every core has an instance of each
    registered task, in buckets by priority and, within a bucket, by execution
    order.  [EnqueueWithShard] chooses a core.  The loop of a core is in
    SchedulerLoop.v. *)

From stdpp Require Import base list gmap strings sorting.
From Stdlib Require Import ZArith Lia.
From S2P Require Import Prelude Errors MpscQueue.

Local Open Scope Z_scope.

Inductive TaskStatus := TaskQueued | TaskExecuting | TaskPassed | TaskFailed | TaskTimeout | TaskBusy | TaskRetrying | TaskCompleted.
#[export] Instance TaskStatus_eq_dec : EqDecision TaskStatus.
Proof. solve_decision. Defined.

(** What the scheduler sees of an item: which object it is, the shard and the
    retries of a ShardItem, the batch size a BatchShardItem asks for. *)
Record item := mkItem { itemID : nat; shard : option (Z * Z); preferred : option Z }.
#[export] Instance item_eq_dec : EqDecision item.
Proof. solve_decision. Defined.

(** The parts of a ShardTask that do not change, and the others. *)
Record taskInfo := mkInfo { name : string; priority : Z; executionOrder : Z }.
#[export] Instance taskInfo_eq_dec : EqDecision taskInfo.
Proof. solve_decision. Defined.
Record ShardTask := mkTask {
  info : taskInfo;
  queue : MPSCExtQueue item;
  taskStatus : TaskStatus;
  lastSubmitTime : Z;
  priorityBoost : bool }.

Definition NewShardTask (i : taskInfo) : ShardTask := mkTask i NewMPSCExtQueue TaskQueued 0 false.

Definition set_queue (q : MPSCExtQueue item) (t : ShardTask) : ShardTask := mkTask (info t) q (taskStatus t) (lastSubmitTime t) (priorityBoost t).
Definition set_status (s : TaskStatus) (t : ShardTask) : ShardTask := mkTask (info t) (queue t) s (lastSubmitTime t) (priorityBoost t).
Definition SetPriorityBoost (b : bool) (t : ShardTask) : ShardTask := mkTask (info t) (queue t) (taskStatus t) (lastSubmitTime t) b.

(** ** The methods of ShardTask, each under the mutex of the task.  With a result:
    what is added to the item counter of the core. *)

Definition QueueLen (t : ShardTask) : Z := Size (queue t).
Definition EnqueueItem (x : item) (now : Z) (t : ShardTask) : ShardTask * Z :=
  (mkTask (info t) (Enqueue x (queue t)) (taskStatus t) now (priorityBoost t), 1).

(** [None]: a nil pointer was dereferenced. *)
Definition PeekItem (t : ShardTask) : option (ShardTask * option item) :=
  match Peek (queue t) with
  | None => Some (t, None)
  | Some (Some x) => Some (set_status TaskExecuting t, Some x)
  | Some None => None
  end.
Fixpoint unbox (l : list (option item)) : option (list item) :=
  match l with
  | [] => Some []
  | x :: l => x ← x; l ← unbox l; Some (x :: l)
  end.
Definition PeekItems (n : Z) (t : ShardTask) : option (ShardTask * list item) :=
  if n =? 0 then Some (t, []) else
  match PeekN (Z.to_nat n) (queue t) with
  | [] => Some (t, [])
  | l => l ← unbox l; Some (set_status TaskExecuting t, l)
  end.
Definition DequeueItem (t : ShardTask) : option (ShardTask * option item * Z) :=
  match Dequeue (queue t) with
  | (_, None) => Some (t, None, 0)
  | (q, Some (Some x)) => Some (set_queue q t, Some x, -1)
  | (_, Some None) => None
  end.
Definition DequeueItems (n : Z) (t : ShardTask) : ShardTask * Z :=
  if n <=? 0 then (t, 0) else
  let '(q, l) := DequeueN (Z.to_nat n) (queue t) in (set_queue q t, - zlen l).

(** ** Registration *)

Definition NumPriorityLevels : Z := 10.

(** sort.Search: the least index at which a monotone test holds. *)
Fixpoint searchLoop (fuel : nat) (f : nat -> bool) (i j : nat) : nat :=
  match fuel with
  | O => i
  | S fuel => if (i <? j)%nat then let h := Nat.div2 (i + j) in if f h then searchLoop fuel f i h else searchLoop fuel f (S h) j else i
  end.
Definition Search (n : nat) (f : nat -> bool) : nat := searchLoop n f 0 n.

Record registry := mkRegistry {
  priorityBuckets : Z -> list taskInfo;
  activeBitmap : Z;
  taskMap : gmap string ShardTask }.
Definition emptyRegistry : registry := mkRegistry (fun _ => []) 0 ∅.

Definition clampPriority (p : Z) : Z := let p := if p <? 0 then 0 else p in if NumPriorityLevels <=? p then NumPriorityLevels - 1 else p.
Definition insertPos (bucket : list taskInfo) (i : taskInfo) : nat :=
  Search (length bucket) (fun k => match bucket !! k with Some j => executionOrder i <=? executionOrder j | None => false end).
Definition insertTaskOrdered (i : taskInfo) (r : registry) : registry :=
  let p := clampPriority (priority i) in
  let bucket := priorityBuckets r p in
  let pos := insertPos bucket i in
  mkRegistry (fun k => if k =? p then take pos bucket ++ i :: drop pos bucket else priorityBuckets r k)
    (Z.lor (activeBitmap r) (Z.shiftl 1 p)) (taskMap r).

Definition RegisterCore (i : taskInfo) (r : registry) : registry * option error :=
  match taskMap r !! name i with
  | Some _ => (r, match TaskAlreadyRegistered (Heap 0) (name i) with Ret e => Some e | _ => None end)
  | None =>
      let t := NewShardTask i in
      let r := insertTaskOrdered i r in
      (mkRegistry (priorityBuckets r) (activeBitmap r) (<[name i := t]> (taskMap r)), None)
  end.

(** ** The order in which a round visits the tasks *)

(** bits.TrailingZeros16. *)
Fixpoint trailingZeros (n : nat) (i b : Z) : Z :=
  match n with O => i | S n => if Z.testbit b i then i else trailingZeros n (i + 1) b end.
Definition TrailingZeros16 (b : Z) : Z := trailingZeros 16 0 b.

(** Phase 1: from the lowest priority up to 1; phase 2: the buckets of the bitmap,
    the highest priority first.  [cached]: the buckets when the loop started. *)
Definition phase1 (cached : Z -> list taskInfo) : list taskInfo := concat (map cached (reverse (seqZ 1 (NumPriorityLevels - 1)))).
Fixpoint bitmapLoop (fuel : nat) (bitmap : Z) (cached : Z -> list taskInfo) : list taskInfo :=
  match fuel with
  | O => []
  | S fuel =>
      if bitmap =? 0 then [] else
      let p := TrailingZeros16 bitmap in
      if NumPriorityLevels <=? p then [] else cached p ++ bitmapLoop fuel (Z.ldiff bitmap (Z.shiftl 1 p)) cached
  end.
Definition phase2 (r : registry) (cached : Z -> list taskInfo) : list taskInfo := bitmapLoop 16 (activeBitmap r) cached.
Definition getOrderedBuckets (r : registry) : Z -> list taskInfo := fun p => if (0 <=? p) && (p <? NumPriorityLevels) then priorityBuckets r p else [].

(** ** Routing *)

Definition lbLowLoadPerCore : Z := 16.
Fixpoint leastLoop (i : Z) (loads : list Z) (minLen minIndex : Z) : Z :=
  match loads with
  | [] => minIndex
  | l :: loads => if l <? minLen then leastLoop (i + 1) loads l i else leastLoop (i + 1) loads minLen minIndex
  end.
(** With the counter of the round robin. *)
Definition selectLeastLoadedCore (loads : list Z) (lbThreshold rrCounter : Z) : Z * Z :=
  let totalLoad := foldl (fun a l => i64 (a + l)) 0 loads in
  if totalLoad <? lbThreshold then let rr := u64 (rrCounter + 1) in (rr, rr mod zlen loads)
  else (rrCounter, leastLoop 0 loads (2 ^ 63 - 1) 0).
(** The index of the core; Go's remainder takes the sign of the dividend. *)
Definition coreIndexOf (shardID : Z) (loads : list Z) (lbThreshold rrCounter : Z) : Z * Z :=
  if shardID =? 0 then selectLeastLoadedCore loads lbThreshold rrCounter
  else if 0 <? shardID then (rrCounter, Z.rem shardID (zlen loads))
  else (rrCounter, Z.rem (i64 (- shardID)) (zlen loads)).

(** ** Searching and inserting *)

Lemma searchLoop_S fuel f i j : searchLoop (S fuel) f i j =
  if (i <? j)%nat then (if f (Nat.div2 (i + j)) then searchLoop fuel f i (Nat.div2 (i + j)) else searchLoop fuel f (S (Nat.div2 (i + j))) j) else i.
Proof. reflexivity. Qed.

Lemma sort_search_ok f fuel i j : (i <= j)%nat -> (j - i <= fuel)%nat -> (forall a b, (a <= b < j)%nat -> f a = true -> f b = true) ->
  let r := searchLoop fuel f i j in (i <= r <= j)%nat /\ (forall k, (i <= k < r)%nat -> f k = false) /\ ((r < j)%nat -> f r = true).
Proof.
  revert i j. induction fuel as [|fuel IH]; intros i j Hij Hf Hm; cbv zeta.
  { cbn. split; [lia|]. split; intros; lia. }
  rewrite searchLoop_S.
  destruct (Nat.ltb_spec i j) as [Hlt|Hge]; [|split; [lia|]; split; intros; lia].
  pose proof (Nat.div2_decr (i + j)) as Hd0. assert (i <= Nat.div2 (i + j) < j)%nat as Hh.
  { rewrite Nat.div2_div. split; [apply Nat.div_le_lower_bound; lia|apply Nat.Div0.div_lt_upper_bound; lia]. }
  set (h := Nat.div2 (i + j)) in *. destruct (f h) eqn:Eh.
  - destruct (IH i h) as (H1 & H2 & H3); [lia|lia|intros a b ? ?; apply (Hm a b); [lia|done]|]. split; [lia|]. split; [done|].
    intros _. destruct (decide (searchLoop fuel f i h < h)%nat); [by apply H3|]. by replace (searchLoop fuel f i h) with h by lia.
  - destruct (IH (S h) j) as (H1 & H2 & H3); [lia|lia|intros a b ? ?; apply (Hm a b); [lia|done]|]. split; [lia|]. split; [|done].
    intros k Hk. destruct (decide (k <= h)%nat); [|apply H2; lia]. destruct (f k) eqn:Ek; [|done].
    rewrite (Hm k h) in Eh; [done|lia|done].
Qed.

(** [Search] finds where a monotone test starts to hold. *)
Lemma search_spec n f : (forall a b, (a <= b < n)%nat -> f a = true -> f b = true) ->
  (Search n f <= n)%nat /\ (forall k, (k < Search n f)%nat -> f k = false) /\ ((Search n f < n)%nat -> f (Search n f) = true).
Proof.
  intros Hm. destruct (sort_search_ok f n 0 n ltac:(lia) ltac:(lia) Hm) as (H1 & H2 & H3). unfold Search.
  split; [lia|]. split; [intros k Hk; apply H2; lia|done].
Qed.

Definition order_le (i j : taskInfo) : Prop := executionOrder i <= executionOrder j.
Notation ordered := (StronglySorted order_le).

Lemma insert_ordered bucket i : ordered bucket -> ordered (take (insertPos bucket i) bucket ++ i :: drop (insertPos bucket i) bucket).
Proof.
  intros H. set (f := fun k => match bucket !! k with Some j => executionOrder i <=? executionOrder j | None => false end).
  assert (forall a b x y, bucket !! a = Some x -> bucket !! b = Some y -> (a <= b)%nat -> order_le x y) as Hs.
  { clear f. induction H as [|z l Hl IH Hz]; intros a b x y Ha Hb Hab; [done|]. destruct a as [|a], b as [|b]; cbn in *.
    - injection Ha as ->. injection Hb as ->. unfold order_le. lia.
    - injection Ha as ->. rewrite Forall_forall in Hz. apply Hz. by eapply list_elem_of_lookup_2.
    - lia.
    - eapply IH; [done|done|lia]. }
  destruct (search_spec (length bucket) f) as (H1 & H2 & H3).
  { intros a b Hab Ha. unfold f in *. destruct (bucket !! a) as [x|] eqn:Ex; [|done]. destruct (lookup_lt_is_Some_2 bucket b) as [y Ey]; [lia|].
    rewrite Ey. pose proof (Hs a b x y Ex Ey ltac:(lia)). unfold order_le in *. rewrite Z.leb_le in *. lia. }
  change (Search (length bucket) f) with (insertPos bucket i) in *. set (pos := insertPos bucket i) in *.
  apply StronglySorted_app. split; [|split].
  - intros x y (k & Hk)%list_elem_of_lookup Hy. apply lookup_take_Some in Hk as [Hk Hlt]. apply elem_of_cons in Hy as [->|Hy].
    + specialize (H2 k Hlt). unfold f in H2. rewrite Hk in H2. rewrite Z.leb_gt in H2. unfold order_le. lia.
    + apply list_elem_of_lookup in Hy as (m & Hm). rewrite lookup_drop in Hm. eapply Hs; [exact Hk|exact Hm|lia].
  - rewrite <- (take_drop pos bucket) in H. by apply StronglySorted_app in H as (_ & H & _).
  - constructor; [rewrite <- (take_drop pos bucket) in H; by apply StronglySorted_app in H as (_ & _ & H)|].
    apply Forall_forall. intros y (m & Hm)%list_elem_of_lookup. rewrite lookup_drop in Hm. pose proof (lookup_lt_Some _ _ _ Hm).
    specialize (H3 ltac:(lia)). unfold f in H3. destruct (lookup_lt_is_Some_2 bucket pos) as [x Ex]; [lia|]. rewrite Ex in H3. rewrite Z.leb_le in H3.
    pose proof (Hs _ _ _ _ Ex Hm ltac:(lia)). unfold order_le in *. lia.
Qed.

(** ** The registry *)

Definition registered (r : registry) (i : taskInfo) : Prop := exists t, taskMap r !! name i = Some t /\ info t = i.

Record reg_ok (r : registry) : Prop := {
  r_ordered : forall p, ordered (priorityBuckets r p);
  r_nodup : forall p, NoDup (priorityBuckets r p);
  r_in : forall p i, i ∈ priorityBuckets r p <-> p = clampPriority (priority i) /\ registered r i;
  r_bits : 0 <= activeBitmap r < 2 ^ 10;
  r_bitmap : forall p, 0 <= p -> Z.testbit (activeBitmap r) p = false -> priorityBuckets r p = [];
  r_names : forall n t, taskMap r !! n = Some t -> name (info t) = n }.

Lemma clamp_range p : 0 <= clampPriority p < 10.
Proof. unfold clampPriority, NumPriorityLevels. repeat case_match; rewrite ?Z.ltb_lt, ?Z.ltb_ge, ?Z.leb_le, ?Z.leb_gt in *; lia. Qed.

Lemma empty_ok : reg_ok emptyRegistry.
Proof.
  constructor; cbn; try done.
  - intros p. constructor.
  - intros p. apply NoDup_nil_2.
  - intros p i. split; [by intros ?%not_elem_of_nil|]. intros [_ (t & E & _)]. cbn in E. by rewrite lookup_empty in E.
Qed.

Lemma set_bit_range b p : 0 <= b < 2 ^ 10 -> 0 <= p < 10 -> 0 <= Z.lor b (Z.shiftl 1 p) < 2 ^ 10.
Proof.
  intros Hb Hp. rewrite Z.shiftl_1_l. pose proof (Z.pow_pos_nonneg 2 p ltac:(lia) ltac:(lia)). split; [apply Z.lor_nonneg; lia|].
  apply Z.log2_lt_pow2; [|rewrite Z.log2_lor by lia].
  - assert (Z.lor b (2 ^ p) <> 0); [|assert (0 <= Z.lor b (2 ^ p)) by (apply Z.lor_nonneg; lia); lia]. rewrite Z.lor_eq_0_iff. lia.
  - rewrite Z.log2_pow2 by lia. apply Z.max_lub_lt; [|lia]. destruct (decide (b = 0)) as [->|]; [done|]. apply Z.log2_lt_pow2; lia.
Qed.

Lemma RegisterCore_ok i r : reg_ok r -> taskMap r !! name i = None ->
  let '(r', e) := RegisterCore i r in e = None /\ reg_ok r' /\ taskMap r' = <[name i := NewShardTask i]> (taskMap r).
Proof.
  intros [H1 H2 H3 H4 H5 H6] Hi. unfold RegisterCore. rewrite Hi. split; [done|]. split; [|done].
  assert (forall j, registered r j -> name j <> name i) as Hne by (intros j (t & E & _) En; rewrite En in E; congruence).
  pose proof (clamp_range (priority i)) as Hc.
  assert (i ∉ priorityBuckets r (clampPriority (priority i))) as Hnew.
  { intros Hin. apply H3 in Hin as [_ Hr]. by apply (Hne _ Hr). }
  constructor; cbn [priorityBuckets activeBitmap taskMap insertTaskOrdered].
  - intros p. destruct (Z.eqb_spec p (clampPriority (priority i))) as [->|]; [by apply insert_ordered|done].
  - intros p. destruct (Z.eqb_spec p (clampPriority (priority i))) as [->|]; [|done].
    rewrite <- Permutation_middle. apply NoDup_cons. rewrite take_drop. done.
  - intros p j.
    assert (registered {| priorityBuckets := priorityBuckets r; activeBitmap := 0; taskMap := <[name i := NewShardTask i]> (taskMap r) |} j <-> j = i \/ registered r j) as Hreg.
    { unfold registered. cbn. split.
      - intros (t & [[En <-]|[_ E]]%lookup_insert_Some & Et); [by left|right; by exists t].
      - intros [->|Hj]; [exists (NewShardTask i); by rewrite lookup_insert_eq|]. pose proof (Hne j Hj). destruct Hj as (t & E & Et).
        exists t. by rewrite lookup_insert_ne. }
    unfold registered in *. cbn [taskMap] in *. rewrite Hreg.
    destruct (Z.eqb_spec p (clampPriority (priority i))) as [->|Hp].
    + rewrite elem_of_app, elem_of_cons.
      assert (j ∈ take (insertPos (priorityBuckets r (clampPriority (priority i))) i) (priorityBuckets r (clampPriority (priority i))) \/
              j ∈ drop (insertPos (priorityBuckets r (clampPriority (priority i))) i) (priorityBuckets r (clampPriority (priority i)))
              <-> j ∈ priorityBuckets r (clampPriority (priority i))) as Htd by (rewrite <- elem_of_app; by rewrite take_drop).
      specialize (H3 (clampPriority (priority i)) j). unfold registered in H3. split.
      * intros [Hj|[->|Hj]]; [|by split; [|left]|]; tauto.
      * intros [Hp [->|Hj]]; [by right; left|]. tauto.
    + rewrite H3. split; [tauto|]. intros [-> [->|Hj]]; [done|]. by split.
  - by apply set_bit_range.
  - intros p Hp. rewrite Z.lor_spec, Z.shiftl_1_l, orb_false_iff. intros [Hb Hs].
    destruct (Z.eqb_spec p (clampPriority (priority i))) as [->|]; [|by apply H5]. by rewrite Z.pow2_bits_true in Hs by lia.
  - intros n t [[<- <-]|[_ E]]%lookup_insert_Some; [done|by apply H6].
Qed.

(** ** A round *)

(** The buckets that phase 2 visits. *)
Fixpoint bitsOf (fuel : nat) (b : Z) : list Z :=
  match fuel with
  | O => []
  | S fuel => if b =? 0 then [] else let p := TrailingZeros16 b in if NumPriorityLevels <=? p then [] else p :: bitsOf fuel (Z.ldiff b (Z.shiftl 1 p))
  end.
Lemma bitmapLoop_bits fuel b cached : bitmapLoop fuel b cached = concat (map cached (bitsOf fuel b)).
Proof.
  revert b. induction fuel as [|fuel IH]; intros b; [done|]. cbn [bitmapLoop bitsOf]. destruct (b =? 0); [done|].
  destruct (NumPriorityLevels <=? TrailingZeros16 b); [done|]. cbn. by rewrite IH.
Qed.

Definition levels : list Z := seqZ 0 NumPriorityLevels.

(** All 1024 bitmaps. *)
Lemma bitsOf_all : forallb (fun b => bool_decide (bitsOf 16 b = List.filter (Z.testbit b) levels)) (seqZ 0 1024) = true.
Proof. vm_compute. reflexivity. Qed.
Lemma bitsOf_filter b : 0 <= b < 2 ^ 10 -> bitsOf 16 b = List.filter (Z.testbit b) levels.
Proof.
  intros Hb. pose proof bitsOf_all as H. rewrite forallb_forall in H. specialize (H b). rewrite bool_decide_eq_true in H. apply H.
  apply list_elem_of_In, elem_of_seqZ. lia.
Qed.

Lemma concat_filter {A} (f : Z -> bool) (g : Z -> list A) l : (forall x, x ∈ l -> f x = false -> g x = []) -> concat (map g (List.filter f l)) = concat (map g l).
Proof.
  induction l as [|x l IH]; intros H; [done|]. cbn. destruct (f x) eqn:E; cbn; rewrite IH by (intros; apply H; [by right|done]); [done|].
  by rewrite (H x) by (done || left).
Qed.

Lemma phase2_levels r : reg_ok r -> phase2 r (getOrderedBuckets r) = concat (map (priorityBuckets r) levels).
Proof.
  intros H. unfold phase2. rewrite bitmapLoop_bits, bitsOf_filter by apply H.
  assert (forall p, p ∈ levels -> 0 <= p < 10) as Hl by (intros p ?%elem_of_seqZ; unfold NumPriorityLevels in *; lia).
  rewrite concat_filter.
  - reflexivity.
  - intros p Hp Hb. apply Hl in Hp. unfold getOrderedBuckets. rewrite (r_bitmap _ H p) by (done || lia). by case_match.
Qed.

Definition visit_le (i j : taskInfo) : Prop :=
  clampPriority (priority i) < clampPriority (priority j) \/ clampPriority (priority i) = clampPriority (priority j) /\ executionOrder i <= executionOrder j.

Lemma concat_sorted {A} (R : A -> A -> Prop) (f : Z -> list A) l : StronglySorted Z.lt l -> (forall p, StronglySorted R (f p)) ->
  (forall p q x y, p < q -> x ∈ f p -> y ∈ f q -> R x y) -> StronglySorted R (concat (map f l)).
Proof.
  intros Hl Hf Hr. induction Hl as [|p l Hl IH Hp]; [constructor|]. cbn. apply StronglySorted_app. split; [|by split].
  intros x y Hx Hy. apply list_elem_of_In, in_concat in Hy as (m & Hm & Hy). apply in_map_iff in Hm as (q & <- & Hq).
  rewrite Forall_forall in Hp. eapply Hr; [apply Hp; by apply list_elem_of_In|done|by apply list_elem_of_In].
Qed.

Lemma levels_sorted : StronglySorted Z.lt levels.
Proof. unfold levels, NumPriorityLevels. cbn. repeat constructor; lia. Qed.

Lemma phase2_ok r : reg_ok r -> let l := phase2 r (getOrderedBuckets r) in
  NoDup l /\ (forall i, i ∈ l <-> registered r i) /\ StronglySorted visit_le l.
Proof.
  intros H. cbv zeta. rewrite (phase2_levels r H).
  assert (forall i, i ∈ concat (map (priorityBuckets r) levels) <-> registered r i) as Hin.
  { intros i. rewrite list_elem_of_In, in_concat. split.
    - intros (m & Hm & Hi). apply in_map_iff in Hm as (p & <- & _). apply list_elem_of_In, (r_in _ H) in Hi. tauto.
    - intros Hi. exists (priorityBuckets r (clampPriority (priority i))). split; [apply in_map|apply list_elem_of_In; by apply (r_in _ H)].
      apply list_elem_of_In, elem_of_seqZ. pose proof (clamp_range (priority i)). unfold NumPriorityLevels. lia. }
  split; [|split; [done|]].
  - clear Hin. assert (NoDup levels) as Hl by (apply NoDup_seqZ). revert Hl. generalize levels. intros l Hl.
    induction Hl as [|p l Hp Hl IH]; cbn; [constructor|]. apply NoDup_app. split; [apply H|]. split; [|done].
    intros i Hi Hc. apply list_elem_of_In, in_concat in Hc as (m & Hm & Hc). apply in_map_iff in Hm as (q & <- & Hq).
    apply list_elem_of_In in Hc. apply (r_in _ H) in Hi as [E1 _], Hc as [E2 _]. destruct Hp. apply list_elem_of_In. congruence.
  - apply concat_sorted; [apply levels_sorted| |].
    + intros p. pose proof (r_ordered _ H p) as Ho. assert (forall i, i ∈ priorityBuckets r p -> clampPriority (priority i) = p) as Hp by (intros i [-> _]%(r_in _ H); done).
      clear -Ho Hp. induction Ho as [|i l Ho IH Hi]; constructor; [apply IH; intros; apply Hp; by right|].
      rewrite Forall_forall in *. intros j Hj. right. split; [|by apply Hi]. rewrite !Hp; [done|by right|by left].
    + intros p q x y Hpq [-> _]%(r_in _ H) [-> _]%(r_in _ H). by left.
Qed.

Definition registerAll (l : list taskInfo) : registry := foldl (fun r i => (RegisterCore i r).1) emptyRegistry l.
(** The first of a list with its name. *)
Definition firstNamed (l : list taskInfo) (i : taskInfo) : Prop := exists l1 l2, l = l1 ++ i :: l2 /\ (name i ∉ map name l1).

Lemma registerAll_ok l : reg_ok (registerAll l) /\ (forall n, is_Some (taskMap (registerAll l) !! n) <-> n ∈ map name l) /\ forall i, registered (registerAll l) i <-> firstNamed l i.
Proof.
  induction l as [|i l IH] using rev_ind.
  - split; [apply empty_ok|]. split; [intros n; cbn; rewrite lookup_empty; split; [by intros [? ?]|by intros ?%not_elem_of_nil]|].
    intros i. split; [intros (t & E & _); cbn in E; by rewrite lookup_empty in E|intros (l1 & l2 & E & _); by destruct l1].
  - unfold registerAll in *. rewrite foldl_app. cbn [foldl]. set (r := foldl _ _ l) in *. destruct IH as (H & Hn & Hf).
    assert (forall j, firstNamed (l ++ [i]) j <-> firstNamed l j \/ j = i /\ (name i ∉ map name l)) as Hfirst.
    { intros j. split.
      - intros (l1 & l2 & E & Hj). destruct l2 as [|k l2 _] using rev_ind.
        + apply app_inj_tail in E as [-> ->]. by right.
        + rewrite app_comm_cons, app_assoc in E. apply app_inj_tail in E as [-> _]. left. by exists l1, l2.
      - intros [(l1 & l2 & -> & Hj)|[-> Hj]]; [exists l1, (l2 ++ [i]); by rewrite <- app_assoc|by exists l, []]. }
    destruct (taskMap r !! name i) as [t|] eqn:E.
    + unfold RegisterCore. rewrite E. cbn [fst]. assert (name i ∈ map name l) as Hin by (apply Hn; by eexists).
      split; [done|]. split; [intros n; rewrite Hn, map_app, elem_of_app; cbn; rewrite list_elem_of_singleton; naive_solver|].
      intros j. rewrite Hfirst, Hf. naive_solver.
    + assert (name i ∉ map name l) as Hin by (intros [? ?]%Hn; congruence).
      pose proof (RegisterCore_ok i r H E) as Hr. destruct (RegisterCore i r) as [r' e]. destruct Hr as (_ & H' & Em). cbn [fst].
      split; [done|]. split.
      * intros n. rewrite Em, lookup_insert_is_Some', Hn, map_app, elem_of_app. cbn. rewrite list_elem_of_singleton. naive_solver.
      * intros j. rewrite Hfirst, <- Hf. unfold registered. rewrite Em. split.
        -- intros (t & [[En <-]|[_ Ej]]%lookup_insert_Some & Et); [by right|left; by exists t].
        -- intros [(t & Ej & Et)|[-> _]]; [|exists (NewShardTask i); by rewrite lookup_insert_eq].
           exists t. split; [|done]. rewrite lookup_insert_ne; [done|]. intros En. rewrite En in E. congruence.
Qed.


(** ** The choice of a core *)

(** The loop keeps the least load so far and where it is. *)
Lemma leastLoop_spec loads i m k :
  (leastLoop i loads m k = k /\ Forall (fun x => m <= x) loads) \/
  (exists n x, leastLoop i loads m k = i + Z.of_nat n /\ loads !! n = Some x /\ x < m /\ Forall (fun y => x <= y) loads).
Proof.
  revert i m k. induction loads as [|l loads IH]; intros i m k; cbn [leastLoop]; [by left|].
  destruct (Z.ltb_spec l m) as [Hlt|Hge].
  - right. destruct (IH (i + 1) l i) as [[-> H]|(n & x & -> & Hn & Hx & H)].
    + exists 0%nat, l. split; [lia|]. split; [done|]. split; [done|]. constructor; [lia|done].
    + exists (S n), x. split; [lia|]. split; [done|]. split; [lia|]. constructor; [lia|done].
  - destruct (IH (i + 1) m k) as [[-> H]|(n & x & -> & Hn & Hx & H)].
    + left. split; [done|]. by constructor.
    + right. exists (S n), x. split; [lia|]. split; [done|]. split; [done|]. constructor; [lia|done].
Qed.

(** C36: the index of the core an item goes to is in range, and with a high load it is
    that of a least loaded core, for every shard number but the least of its type:
    that one is its own negation, its remainder is not positive, and the index is
    in range only if the number of cores is a power of two. *)
Theorem route_in_range shardID loads lb rr : loads <> [] -> is_i64 shardID -> zlen loads < 2 ^ 63 ->
  let k := (coreIndexOf shardID loads lb rr).2 in
  (shardID <> - 2 ^ 63 -> 0 <= k < zlen loads) /\
  (shardID = 0 -> Forall (fun l => l < 2 ^ 63 - 1) loads -> lb <= foldl (fun a l => i64 (a + l)) 0 loads ->
     exists l, loads !! Z.to_nat k = Some l /\ Forall (fun y => l <= y) loads) /\
  (shardID = - 2 ^ 63 -> (0 <= k <-> (zlen loads | 2 ^ 63))).
Proof.
  intros Hl Hs Hn k. assert (0 < zlen loads) as Hpos by (destruct loads; [done|rewrite zlen_cons; pose proof (zlen_nonneg loads); lia]).
  assert (forall n x, loads !! n = Some x -> 0 <= 0 + Z.of_nat n < zlen loads) as Hidx by (intros n x Hx%lookup_lt_Some; unfold zlen; lia).
  unfold k, coreIndexOf. split; [|split].
  - intros Hmin. destruct (Z.eqb_spec shardID 0) as [->|Hne].
    + unfold selectLeastLoadedCore. case_match; cbn [snd]; [by apply Z.mod_pos_bound|].
      destruct (leastLoop_spec loads 0 (2 ^ 63 - 1) 0) as [[-> _]|(n & x & -> & Hx & _)]; [lia|by eapply Hidx].
    + destruct (Z.ltb_spec 0 shardID); cbn [snd]; [by apply Z.rem_bound_pos; lia|].
      rewrite i64_id by (unfold is_i64 in *; lia). apply Z.rem_bound_pos; lia.
  - intros -> Hlt Hlb. cbn [Z.eqb]. unfold selectLeastLoadedCore. rewrite (proj2 (Z.ltb_ge _ _)) by done. cbn [snd].
    destruct (leastLoop_spec loads 0 (2 ^ 63 - 1) 0) as [[_ H]|(n & x & -> & Hx & _ & H)].
    + destruct loads as [|l loads]; [done|]. apply Forall_cons in H as [H _]. apply Forall_cons in Hlt as [Hlt _]. lia.
    + exists x. split; [|done]. by rewrite Z.add_0_l, Nat2Z.id.
  - intros ->. change (- 2 ^ 63 =? 0) with false. change (0 <? - 2 ^ 63) with false. change (i64 (- - 2 ^ 63)) with (- 2 ^ 63). cbn [snd].
    rewrite Z.rem_opp_l by lia. pose proof (Z.rem_bound_pos (2 ^ 63) (zlen loads) ltac:(lia) Hpos) as Hb.
    rewrite <- Z.rem_divide by lia. revert Hb. generalize (Z.rem (2 ^ 63) (zlen loads)). intros z Hb. split; lia.
Qed.
Lemma route_in_range_witness : (coreIndexOf (- 2 ^ 63) [0; 0; 0] 48 0).2 < 0 /\ (coreIndexOf (-7) [0; 0; 0] 48 0).2 = 1.
Proof.
  destruct (route_in_range (- 2 ^ 63) [0; 0; 0] 48 0) as (_ & _ & H); [done|unfold is_i64; lia|done|]. split; [|done].
  destruct (Z_lt_le_dec (coreIndexOf (- 2 ^ 63) [0; 0; 0] 48 0).2 0) as [|Hge]; [done|]. apply H in Hge; [|done]. by apply Z.mod_divide in Hge.
Defined.
