(* ===== verification/SchedulerLoop.v ===== *)
(** * The loop of a scheduler core (concurrency/task_scheduler.go)

    One [step] is one action of the loop of a core, of a producer, or of [Stop].
    The methods of a ShardTask run under its mutex and are one action each; what
    lies between two of them is not protected.  An execution ends with a status or
    a panic, which the step chooses, as it does the time.

    Of a round: phase 1 visits tasks with a boost, phase 2 all tasks; a visit tries
    a batch first, and in phase 2 takes a single item otherwise. *)

From stdpp Require Import base list gmap strings sets relations.
From Stdlib Require Import ZArith Lia.
From S2P Require Import Prelude Errors MpscQueue TaskScheduler.

Local Open Scope Z_scope.

(** Where the loop is. *)
Inductive pc :=
| Top                                              (* the head of the loop *)
| Sleep                                            (* waitForSignal, before it has the lock *)
| Sleeping                                         (* cond.Wait *)
| Woken
| Stopped                                          (* the loop has returned *)
| Crashed                                          (* a panic that nothing recovers *)
| Visit                                            (* the next task of the round *)
| BatchSize | BatchLen (size : Z) | BatchPeek (n : Z)
| BatchExec (todo : list item) (done : list (item * TaskStatus))
| BatchDequeue (done : list (item * TaskStatus))
| BatchResults (done : list (item * TaskStatus))
| PeekOne | ExecOne (x : item) | Finish (x : item) (st : TaskStatus).

Record CoreStats := mkStats { TotalCycles : Z; TotalTasksProcessed : Z; EmptyWaits : Z; PanicCount : Z }.

(** [todo1], [todo2]: what is left of the phases.  [wakes]: producers that have
    enqueued and not signalled yet.  [attempts]: the counters inside the items.
    The last fields are a history the code does not have: what was enqueued,
    executed and dequeued, with the name of the task, and whether a queue has ever
    used its overflow. *)
Record SchedulerCore := mkCore {
  reg : registry;
  cachedBuckets : Z -> list taskInfo;
  starvationCheck : Z;
  totalQueueItems : Z;
  ctxDone : bool;
  stats : CoreStats;
  attempts : gmap nat Z;
  at_ : pc;
  todo1 : list taskInfo;
  todo2 : list taskInfo;
  wakes : nat;
  arrived : list (string * item);
  executed : list (string * item * TaskStatus);
  removed : list (string * item);
  overflowed : bool }.

Definition starvationTimeout : Z := 100 * 1000 * 1000.
Definition checkInterval : Z := 10 * 1000 * 1000.
Definition batchBufferLen : Z := 32.

(** [runLoop] starts on the tasks that are registered. *)
Definition startCore (r : registry) : SchedulerCore :=
  mkCore r (getOrderedBuckets r) 0 0 false (mkStats 0 0 0 0) ∅ Top [] [] 0 [] [] [] false.

Implicit Types (c : SchedulerCore) (x : item) (t : ShardTask).

Definition tasks c : gmap string ShardTask := taskMap (reg c).
Definition set_tasks (m : gmap string ShardTask) c : SchedulerCore :=
  mkCore (mkRegistry (priorityBuckets (reg c)) (activeBitmap (reg c)) m) (cachedBuckets c) (starvationCheck c) (totalQueueItems c) (ctxDone c) (stats c) (attempts c)
    (at_ c) (todo1 c) (todo2 c) (wakes c) (arrived c) (executed c) (removed c) (overflowed c).
Definition goto (p : pc) c : SchedulerCore :=
  mkCore (reg c) (cachedBuckets c) (starvationCheck c) (totalQueueItems c) (ctxDone c) (stats c) (attempts c) p (todo1 c) (todo2 c) (wakes c) (arrived c) (executed c) (removed c) (overflowed c).
Definition set_todo (l1 l2 : list taskInfo) c : SchedulerCore :=
  mkCore (reg c) (cachedBuckets c) (starvationCheck c) (totalQueueItems c) (ctxDone c) (stats c) (attempts c) (at_ c) l1 l2 (wakes c) (arrived c) (executed c) (removed c) (overflowed c).
Definition set_stats (s : CoreStats) c : SchedulerCore :=
  mkCore (reg c) (cachedBuckets c) (starvationCheck c) (totalQueueItems c) (ctxDone c) s (attempts c) (at_ c) (todo1 c) (todo2 c) (wakes c) (arrived c) (executed c) (removed c) (overflowed c).
Definition set_check (z : Z) c : SchedulerCore :=
  mkCore (reg c) (cachedBuckets c) z (totalQueueItems c) (ctxDone c) (stats c) (attempts c) (at_ c) (todo1 c) (todo2 c) (wakes c) (arrived c) (executed c) (removed c) (overflowed c).
Definition set_attempts (m : gmap nat Z) c : SchedulerCore :=
  mkCore (reg c) (cachedBuckets c) (starvationCheck c) (totalQueueItems c) (ctxDone c) (stats c) m (at_ c) (todo1 c) (todo2 c) (wakes c) (arrived c) (executed c) (removed c) (overflowed c).
Definition set_wakes (n : nat) c : SchedulerCore :=
  mkCore (reg c) (cachedBuckets c) (starvationCheck c) (totalQueueItems c) (ctxDone c) (stats c) (attempts c) (at_ c) (todo1 c) (todo2 c) n (arrived c) (executed c) (removed c) (overflowed c).
Definition set_cancelled c : SchedulerCore :=
  mkCore (reg c) (cachedBuckets c) (starvationCheck c) (totalQueueItems c) true (stats c) (attempts c) (at_ c) (todo1 c) (todo2 c) (wakes c) (arrived c) (executed c) (removed c) (overflowed c).
Definition note_executed (n : string) x (st : TaskStatus) c : SchedulerCore :=
  mkCore (reg c) (cachedBuckets c) (starvationCheck c) (totalQueueItems c) (ctxDone c) (stats c) (attempts c) (at_ c) (todo1 c) (todo2 c) (wakes c) (arrived c) (executed c ++ [(n, x, st)]) (removed c) (overflowed c).
Definition note_removed (n : string) (l : list item) (d : Z) c : SchedulerCore :=
  mkCore (reg c) (cachedBuckets c) (starvationCheck c) (i64 (totalQueueItems c + d)) (ctxDone c) (stats c) (attempts c) (at_ c) (todo1 c) (todo2 c) (wakes c) (arrived c) (executed c) (removed c ++ map (pair n) l) (overflowed c).
Definition note_arrived (n : string) x (d : Z) (over : bool) c : SchedulerCore :=
  mkCore (reg c) (cachedBuckets c) (starvationCheck c) (i64 (totalQueueItems c + d)) (ctxDone c) (stats c) (attempts c) (at_ c) (todo1 c) (todo2 c) (wakes c) (arrived c ++ [(n, x)]) (executed c) (removed c) (overflowed c || over).

(** The task of the visit. *)
Definition current c : option taskInfo := match todo1 c with i :: _ => Some i | [] => List.hd_error (todo2 c) end.
Definition currentTask c : option ShardTask := i ← current c; tasks c !! name i.
Definition set_current t c : SchedulerCore := set_tasks (<[name (info t) := t]> (tasks c)) c.

(** The end of a visit, without and with a batch done. *)
Definition unboost c : SchedulerCore := match currentTask c with Some t => set_current (SetPriorityBoost false t) c | None => c end.
Definition endVisit c : SchedulerCore :=
  match todo1 c with
  | _ :: rest => goto Visit (set_todo rest (todo2 c) (unboost c))
  | [] => goto Visit (set_todo [] (List.tl (todo2 c)) c)
  end.
Definition noBatch c : SchedulerCore := match todo1 c with _ :: _ => endVisit c | [] => goto PeekOne c end.

(** ** checkStarvation *)

Definition boostStarved (now : Z) (m : gmap string ShardTask) (i : taskInfo) : gmap string ShardTask :=
  match m !! name i with
  | Some t => if (0 <? lastSubmitTime t) && (starvationTimeout <? now - lastSubmitTime t) then <[name i := SetPriorityBoost true t]> m else m
  | None => m
  end.
Definition checkStarvation (now : Z) c : SchedulerCore :=
  if now - starvationCheck c <=? checkInterval then c
  else set_check now (set_tasks (foldl (boostStarved now) (tasks c) (phase1 (cachedBuckets c))) c).

(** ** Executing an item: a panic is recovered, counted, and answered with the zero
    status, which is TaskQueued. *)
Definition executeTask (n : string) x (result : option TaskStatus) c : SchedulerCore * TaskStatus :=
  let st := match result with Some st => st | None => TaskQueued end in
  let s := stats c in
  let s := mkStats (TotalCycles s) (TotalTasksProcessed s + 1) (EmptyWaits s) (PanicCount s + match result with Some _ => 0 | None => 1 end) in
  (note_executed n x st (set_stats s c), st).

Definition IncAttempts x (m : gmap nat Z) : gmap nat Z := <[itemID x := default 0 (m !! itemID x) + 1]> m.
Definition handleBatchResult (m : gmap nat Z) (r : item * TaskStatus) : gmap nat Z :=
  match r.2 with
  | TaskFailed | TaskTimeout | TaskBusy | TaskRetrying => match shard r.1 with Some _ => IncAttempts r.1 m | None => m end
  | _ => m
  end.

(** The items that a removal takes from the queue. *)
Definition taken (n : Z) t : list item := omap id (PeekN (Z.to_nat n) (queue t)).
Definition dequeueOne t c : SchedulerCore :=
  match DequeueItem t with
  | Some (t', _, d) => note_removed (name (info t)) (taken 1 t) d (set_current t' c)
  | None => goto Crashed c
  end.

(** ** runLoop *)

Record oracle := mkOracle { now : Z; result : option TaskStatus }.

Definition finish x (st : TaskStatus) t c : SchedulerCore :=
  match st with
  | TaskPassed | TaskFailed => endVisit (dequeueOne t c)
  | TaskTimeout | TaskBusy | TaskRetrying =>
      match shard x with
      | Some (_, maxRetries) =>
          let m := IncAttempts x (attempts c) in
          if maxRetries <? default 0 (m !! itemID x) then endVisit (dequeueOne t (set_attempts m c)) else endVisit (set_attempts m c)
      | None => endVisit (dequeueOne t c)
      end
  | _ => endVisit c
  end.

(** The actions of a visit to the task [t]. *)
Definition visit (o : oracle) t c : SchedulerCore :=
  let n := name (info t) in
  match at_ c with
  | BatchSize =>
      match PeekItem t with
      | Some (t', r) => goto (BatchLen (match r with Some x => default 1 (preferred x) | None => 1 end)) (set_current t' c)
      | None => goto Crashed c
      end
  | BatchLen size =>
      let k := Z.min size (QueueLen t) in
      if k <? 2 then noBatch c else if batchBufferLen <? k then goto Crashed c else goto (BatchPeek k) c
  | BatchPeek k =>
      match PeekItems k t with
      | Some (t', l) => if zlen l <? 2 then noBatch (set_current t' c) else goto (BatchExec l []) (set_current t' c)
      | None => goto Crashed c
      end
  | BatchExec (x :: rest) done => let '(c, st) := executeTask n x (result o) c in goto (BatchExec rest (done ++ [(x, st)])) c
  | BatchExec [] done => goto (BatchDequeue done) c
  | BatchDequeue done =>
      let '(t', d) := DequeueItems (zlen done) t in
      goto (BatchResults done) (note_removed n (taken (zlen done) t) d (set_current t' c))
  | BatchResults done => endVisit (set_attempts (foldl handleBatchResult (attempts c) done) c)
  | PeekOne =>
      match PeekItem t with
      | Some (t', Some x) => goto (ExecOne x) (set_current t' c)
      | Some (t', None) => endVisit (set_current t' c)
      | None => goto Crashed c
      end
  | ExecOne x => let '(c, st) := executeTask n x (result o) c in goto (Finish x st) c
  | Finish x st => finish x st t c
  | _ => c
  end.

Definition addCycle c : SchedulerCore := let s := stats c in set_stats (mkStats (TotalCycles s + 1) (TotalTasksProcessed s) (EmptyWaits s) (PanicCount s)) c.
Definition addWait c : SchedulerCore := let s := stats c in set_stats (mkStats (TotalCycles s) (TotalTasksProcessed s) (EmptyWaits s + 1) (PanicCount s)) c.

(** The next action of the loop; one that sleeps, has returned or panicked does
    nothing. *)
Definition next (o : oracle) c : SchedulerCore :=
  match at_ c with
  | Stopped | Crashed | Sleeping => c
  | Top =>
      if ctxDone c then goto Stopped c else
      let c := addCycle c in
      if totalQueueItems c =? 0 then goto Sleep c else
      let c := checkStarvation (now o) c in
      goto Visit (set_todo (phase1 (cachedBuckets c)) (phase2 (reg c) (cachedBuckets c)) c)
  | Sleep => let c := addWait c in if ctxDone c then goto Stopped c else goto Sleeping c
  | Woken => if ctxDone c then goto Stopped c else goto Top c
  | Visit =>
      match todo1 c with
      | _ :: _ => match currentTask c with
          | Some t => if priorityBoost t then goto BatchSize c else goto Visit (set_todo (List.tl (todo1 c)) (todo2 c) c)
          | None => goto Crashed c
          end
      | [] => match todo2 c with [] => goto Top c | _ => goto BatchSize c end
      end
  | _ => match currentTask c with Some t => visit o t c | None => goto Crashed c end
  end.

(** A producer: the enqueue, and after it the signal, which only reaches a loop that
    sleeps. *)
Definition overflows t : bool := ringBufferSize <=? u64 (writeIdx (queue t) - readIdx (queue t)).
Definition enqueue x (time : Z) t c : SchedulerCore :=
  let '(t', d) := EnqueueItem x time t in
  set_wakes (S (wakes c)) (note_arrived (name (info t)) x d (overflows t) (set_tasks (<[name (info t) := t']> (tasks c)) c)).
Definition wakeup c : SchedulerCore := match at_ c with Sleeping => goto Woken c | _ => c end.
(** [Stop] cancels the context and then signals. *)
Definition cancel c : SchedulerCore := set_wakes (S (wakes c)) (set_cancelled c).

Inductive step c : SchedulerCore -> Prop :=
| step_loop o : step c (next o c)
| step_enqueue x time n t : tasks c !! n = Some t -> step c (enqueue x time t c)
| step_signal k : wakes c = S k -> step c (wakeup (set_wakes k c))
| step_cancel : step c (cancel c).

Definition reachable (l : list taskInfo) c : Prop := rtc step (startCore (registerAll l)) c.

(** A run: the actions of the loop with what they draw, and of a producer. *)
Inductive action := Loop (o : oracle) | Put (x : item) (time : Z) (n : string) | Signal | Cancel.
Definition act (a : action) c : SchedulerCore :=
  match a with
  | Loop o => next o c
  | Put x time n => match tasks c !! n with Some t => enqueue x time t c | None => c end
  | Signal => match wakes c with S k => wakeup (set_wakes k c) | O => c end
  | Cancel => cancel c
  end.
Definition run (l : list action) c : SchedulerCore := foldl (fun c a => act a c) c l.

Lemma run_steps l c : rtc step c (run l c).
Proof.
  revert c. induction l as [|a l IH]; intros c; [done|]. unfold run. cbn [foldl].
  assert (act a c = c \/ step c (act a c)) as [->|Hs].
  { destruct a; cbn; [right; constructor| | |right; constructor].
    - destruct (tasks c !! n) eqn:E; [right; by eapply step_enqueue|by left].
    - destruct (wakes c) eqn:E; [by left|right; by apply step_signal]. }
  - apply IH.
  - eapply rtc_l; [exact Hs|apply IH].
Qed.

(** ** The invariant of runs without overflow *)

Definition ofTask (n : string) (l : list (string * item)) : list item := map snd (List.filter (fun p => String.eqb p.1 n) l).

(** The queues and the fixed parts of the tasks. *)
Definition queues c : gmap string (MPSCExtQueue item) := queue <$> tasks c.
Definition infos c : gmap string taskInfo := info <$> tasks c.
Definition items (q : MPSCExtQueue item) : list item := omap id (ring q).
Definition currentQueue c : option (string * MPSCExtQueue item) := i ← current c; q ← queues c !! name i; Some (name i, q).

(** The items that the loop holds are the first of the queue of the visit. *)
Definition holding c : Prop :=
  match at_ c with
  | BatchExec todo done => exists n q rest, currentQueue c = Some (n, q) /\ items q = map fst done ++ todo ++ rest /\ forall r, r ∈ done -> (n, r.1, r.2) ∈ executed c
  | BatchDequeue done => exists n q rest, currentQueue c = Some (n, q) /\ items q = map fst done ++ rest /\ forall r, r ∈ done -> (n, r.1, r.2) ∈ executed c
  | ExecOne x => exists n q rest, currentQueue c = Some (n, q) /\ items q = x :: rest
  | Finish x st => exists n q rest, currentQueue c = Some (n, q) /\ items q = x :: rest /\ (n, x, st) ∈ executed c
  | _ => True
  end.

Record inv c : Prop := {
  i_names : forall n i, infos c !! n = Some i -> name i = n;
  i_queue : forall n q, queues c !! n = Some q -> holds q (items q) [] /\ writeIdx q <= zlen (arrived c) /\ ofTask n (arrived c) = ofTask n (removed c) ++ items q;
  i_total : totalQueueItems c = zlen (arrived c) - zlen (removed c);
  i_removed : forall n x, (n, x) ∈ removed c -> is_Some (queues c !! n) /\ exists st, (n, x, st) ∈ executed c;
  i_arrived : forall n x, (n, x) ∈ arrived c -> is_Some (queues c !! n) }.

(** What the invariant sees of a core, but for the place in the loop. *)
Definition same c c' : Prop :=
  queues c' = queues c /\ infos c' = infos c /\ arrived c' = arrived c /\ removed c' = removed c /\ executed c' = executed c /\
  totalQueueItems c' = totalQueueItems c /\ overflowed c' = overflowed c.
#[local] Instance same_preorder : PreOrder same.
Proof. split; [by intros c|]. unfold same. intros c1 c2 c3 H1 H2. intuition congruence. Qed.

Lemma inv_same c c' : inv c -> same c c' -> inv c'.
Proof.
  intros [I1 I2 I3 I4 I5] (E1 & E2 & E3 & E4 & E5 & E6 & E7). constructor; rewrite ?E1, ?E2, ?E3, ?E4, ?E5, ?E6; done.
Qed.

Lemma items_holds (q : MPSCExtQueue item) l1 l2 : holds q l1 l2 -> items q = l1.
Proof. intros H. unfold items. rewrite (h_ring _ _ _ H). clear. induction l1 as [|x l IH]; [done|]. cbn. by f_equal. Qed.

Lemma ofTask_app n l l' : ofTask n (l ++ l') = ofTask n l ++ ofTask n l'.
Proof. unfold ofTask. by rewrite List.filter_app, map_app. Qed.
Lemma ofTask_pairs n m l : ofTask n (map (pair m) l) = if decide (m = n) then l else [].
Proof.
  unfold ofTask. induction l as [|x l IH]; [by case_decide|]. cbn. destruct (String.eqb_spec m n) as [->|Hn].
  - rewrite decide_True in * by done. cbn. by f_equal.
  - by rewrite decide_False in * by done.
Qed.

(** The task of the visit. *)
Lemma current_spec c t : inv c -> currentTask c = Some t -> exists i, current c = Some i /\ name (info t) = name i /\ tasks c !! name i = Some t /\
  currentQueue c = Some (name i, queue t) /\ queues c !! name i = Some (queue t).
Proof.
  intros I H. unfold currentTask in H. unfold currentQueue. destruct (current c) as [i|]; [|done]. cbn in *. exists i.
  assert (queues c !! name i = Some (queue t)) as Hq by (unfold queues; by rewrite lookup_fmap, H).
  split; [done|]. split; [|split; [done|]; rewrite Hq; done]. apply (i_names _ I). unfold infos. by rewrite lookup_fmap, H.
Qed.

Lemma set_current_same c t t' : inv c -> currentTask c = Some t -> info t' = info t -> queue t' = queue t -> same c (set_current t' c).
Proof.
  intros I H Ei Eq. destruct (current_spec c t I H) as (i & _ & En & Ht & _). unfold same, set_current, queues, infos, tasks, set_tasks. cbn. rewrite Ei, En.
  rewrite !fmap_insert, Eq, Ei. repeat split; [|]; apply insert_id; by rewrite lookup_fmap; fold (tasks c); rewrite Ht.
Qed.

Lemma unboost_same c : inv c -> same c (unboost c).
Proof. intros I. unfold unboost. destruct (currentTask c) as [t|] eqn:E; [by eapply set_current_same|done]. Qed.

Lemma endVisit_same c : inv c -> same c (endVisit c) /\ at_ (endVisit c) = Visit.
Proof. intros I. unfold endVisit. destruct (todo1 c); [by repeat split|]. split; [|done]. pose proof (unboost_same c I) as H. exact H. Qed.
Lemma noBatch_same c : inv c -> same c (noBatch c) /\ holding (noBatch c).
Proof.
  intros I. unfold noBatch. destruct (todo1 c) eqn:E; [by repeat split|]. destruct (endVisit_same c I) as [H Ha]. split; [done|]. unfold holding. by rewrite Ha.
Qed.

Lemma boosts_same now l m : queue <$> foldl (boostStarved now) m l = queue <$> m /\ info <$> foldl (boostStarved now) m l = info <$> m.
Proof.
  revert m. induction l as [|i l IH]; intros m; [done|]. cbn [foldl]. destruct (IH (boostStarved now m i)) as [-> ->].
  unfold boostStarved. destruct (m !! name i) as [t|] eqn:E; [|done]. case_match; [|done]. rewrite !fmap_insert. cbn.
  split; apply insert_id; by rewrite lookup_fmap, E.
Qed.
Lemma checkStarvation_same now c : same c (checkStarvation now c).
Proof. unfold checkStarvation. case_match; [done|]. destruct (boosts_same now (phase1 (cachedBuckets c)) (tasks c)) as [E1 E2]. by repeat split. Qed.

Lemma ofTask_split n l : length l = (length (ofTask n l) + length (List.filter (fun p => negb (String.eqb p.1 n)) l))%nat.
Proof. unfold ofTask. rewrite length_map. induction l as [|p l IH]; [done|]. cbn. destruct (String.eqb p.1 n); cbn; lia. Qed.
Lemma ofTask_others n m l : ofTask m (List.filter (fun p => negb (String.eqb p.1 n)) l) = if decide (m = n) then [] else ofTask m l.
Proof.
  unfold ofTask. induction l as [|p l IH]; [by case_decide|]. cbn. destruct (String.eqb_spec p.1 n) as [E|E]; cbn.
  - rewrite IH. destruct (decide (m = n)) as [|Hmn]; [done|]. destruct (String.eqb_spec p.1 m) as [E'|]; [by destruct Hmn; congruence|done].
  - destruct (String.eqb_spec p.1 m) as [E'|]; [|exact IH]. cbn. rewrite decide_False in * by congruence. by f_equal.
Qed.

(** Fewer of each task are fewer. *)
Lemma count_le k (a b : list (string * item)) : (length a <= k)%nat -> (forall n, (length (ofTask n a) <= length (ofTask n b))%nat) -> (length a <= length b)%nat.
Proof.
  revert a b. induction k as [|k IH]; intros a b Hk H; [lia|]. destruct a as [|[n x] a]; [cbn; lia|].
  rewrite (ofTask_split n ((n, x) :: a)), (ofTask_split n b). specialize (H n) as Hn.
  assert (1 <= length (ofTask n ((n, x) :: a)))%nat by (unfold ofTask; cbn; rewrite String.eqb_refl; cbn; lia).
  pose proof (ofTask_split n ((n, x) :: a)). apply Nat.add_le_mono; [done|]. apply IH; [lia|].
  intros m. rewrite !ofTask_others. case_decide; [done|]. apply H.
Qed.

Lemma queues_set t c : queues (set_current t c) = <[name (info t) := queue t]> (queues c).
Proof. unfold queues, set_current, set_tasks, tasks. cbn. by rewrite fmap_insert. Qed.
Lemma infos_set t c : infos (set_current t c) = <[name (info t) := info t]> (infos c).
Proof. unfold infos, set_current, set_tasks, tasks. cbn. by rewrite fmap_insert. Qed.

Lemma ofTask_none n l : (forall x, ((n, x) ∉ l)) -> ofTask n l = [].
Proof.
  intros H. unfold ofTask. induction l as [|[m y] l IH]; [done|]. cbn. destruct (String.eqb_spec m n) as [->|].
  - destruct (H y). left.
  - apply IH. intros x Hx. apply (H x). by right.
Qed.

(** Nothing is removed that has not arrived. *)
Lemma removed_none c n : inv c -> queues c !! n = None -> ofTask n (removed c) = [].
Proof. intros I E. apply ofTask_none. intros x [[? ?] _]%(i_removed _ I). congruence. Qed.
Lemma arrived_none c n : inv c -> queues c !! n = None -> ofTask n (arrived c) = [].
Proof. intros I E. apply ofTask_none. intros x [? ?]%(i_arrived _ I). congruence. Qed.
Lemma total_nonneg c : inv c -> 0 <= totalQueueItems c.
Proof.
  intros I. rewrite (i_total _ I). unfold zlen. enough (length (removed c) <= length (arrived c))%nat by lia.
  eapply count_le; [done|]. intros n. destruct (queues c !! n) as [q|] eqn:E.
  - destruct (i_queue _ I _ _ E) as (_ & _ & ->). rewrite length_app. lia.
  - rewrite (removed_none c n I E). cbn. lia.
Qed.

(** The first items of the queue of the visit are removed. *)
Lemma inv_removed c t t' pre rest : inv c -> zlen (arrived c) < 2 ^ 62 -> currentTask c = Some t -> info t' = info t -> items (queue t) = pre ++ rest ->
  holds (queue t') rest [] -> writeIdx (queue t') = writeIdx (queue t) -> (forall x, x ∈ pre -> exists st, (name (info t), x, st) ∈ executed c) ->
  inv (note_removed (name (info t)) pre (- zlen pre) (set_current t' c)).
Proof.
  intros I Hlen Ht Ei Eq Hq Hw Hx. destruct (current_spec c t I Ht) as (i & _ & En & Hi & _ & Hqi). pose proof I as [I1 I2 I3 I4 I5].
  destruct (I2 _ _ Hqi) as (_ & Hwr & Harr). set (n0 := name i) in *. rewrite En in *.
  assert (forall n, ofTask n (removed c ++ map (pair n0) pre) = ofTask n (removed c) ++ if decide (n0 = n) then pre else []) as Ho by (intros n; by rewrite ofTask_app, ofTask_pairs).
  assert (forall n q, queues (set_current t' c) !! n = Some q -> n = n0 /\ q = queue t' \/ n <> n0 /\ queues c !! n = Some q) as Hqs.
  { intros n q. rewrite queues_set, Ei, En. intros [[<- <-]|[Hn Hj]]%lookup_insert_Some; [by left|by right]. }
  assert (length (removed c ++ map (pair n0) pre) <= length (arrived c))%nat as Hcount.
  { eapply count_le; [done|]. intros n. rewrite Ho. case_decide as Hn; [subst n; rewrite Harr, Eq, !length_app; lia|]. rewrite app_nil_r.
    destruct (queues c !! n) as [q|] eqn:E; [destruct (I2 n q E) as (_ & _ & ->); rewrite length_app; lia|].
    rewrite (removed_none c n I E). cbn. lia. }
  constructor.
  - intros n j. change (infos (note_removed _ _ _ (set_current t' c))) with (infos (set_current t' c)). rewrite infos_set, Ei, En.
    intros [[<- <-]|[_ Hj]]%lookup_insert_Some; [done|by apply I1].
  - intros n q [[-> ->]|[Hn Hj]]%Hqs; change (arrived (note_removed _ _ _ _)) with (arrived c); change (removed (note_removed _ _ _ _)) with (removed c ++ map (pair n0) pre); rewrite Ho.
    + rewrite decide_True, (items_holds _ _ _ Hq), Hw, <- app_assoc, Harr, Eq by done. done.
    + rewrite decide_False, app_nil_r by done. by apply I2.
  - change (i64 (totalQueueItems c + - zlen pre) = zlen (arrived c) - zlen (removed c ++ map (pair n0) pre)).
    rewrite length_app, length_map in Hcount. rewrite I3, zlen_app. replace (zlen (map (pair n0) pre)) with (zlen pre) by (unfold zlen; by rewrite length_map).
    pose proof (zlen_nonneg (removed c)). pose proof (zlen_nonneg pre). rewrite i64_id; unfold is_i64, zlen in *; lia.
  - change (forall n x, (n, x) ∈ removed c ++ map (pair n0) pre -> is_Some (queues (set_current t' c) !! n) /\ exists st, (n, x, st) ∈ executed c).
    rewrite queues_set, Ei, En. intros n x Hin. rewrite lookup_insert_is_Some'. apply elem_of_app in Hin as [Hin|Hin]; [destruct (I4 _ _ Hin); auto|].
    apply list_elem_of_fmap in Hin as (y & [= -> ->] & Hy). split; [by left|by apply Hx].
  - change (forall n x, (n, x) ∈ arrived c -> is_Some (queues (set_current t' c) !! n)). rewrite queues_set, Ei, En. intros n x Hin. rewrite lookup_insert_is_Some'. right. by eapply I5.
Qed.

(** ** The loop keeps the invariant *)

Lemma inv_executed c s n x st : inv c -> inv (note_executed n x st (set_stats s c)).
Proof.
  intros [I1 I2 I3 I4 I5]. constructor; try done. intros m y Hin. destruct (I4 m y Hin) as [Hq (st' & Hs)]. split; [done|].
  exists st'. cbn. rewrite elem_of_app. by left.
Qed.

Lemma currentQueue_same c c' : same c c' -> current c' = current c -> currentQueue c' = currentQueue c.
Proof. intros (E & _) Ec. unfold currentQueue. by rewrite E, Ec. Qed.

Lemma PeekItem_spec t t' r l : holds (queue t) l [] -> PeekItem t = Some (t', r) -> info t' = info t /\ queue t' = queue t /\ r = List.hd_error l.
Proof.
  intros H. unfold PeekItem. rewrite (peek_holds _ _ _ H), app_nil_r. destruct l as [|x l]; cbn; intros E; injection E as <- <-; done.
Qed.
Lemma unbox_some l : unbox (map Some l) = Some l.
Proof. induction l as [|x l IH]; [done|]. cbn. by rewrite IH. Qed.
Lemma PeekItems_spec t t' r n l : holds (queue t) l [] -> PeekItems n t = Some (t', r) -> info t' = info t /\ queue t' = queue t /\ exists rest, l = r ++ rest.
Proof.
  intros H. unfold PeekItems. destruct (n =? 0); [intros [= <- <-]; split; [done|]; split; [done|by exists l]|].
  rewrite (peekN_holds _ _ _ _ H), app_nil_r. pose proof (take_drop (Z.to_nat n) l) as El. revert El.
  generalize (take (Z.to_nat n) l), (drop (Z.to_nat n) l). intros m rest <-.
  destruct m as [|x m]; cbn [map]; [intros [= <- <-]; by eauto|]. change (Some x :: map Some m) with (map Some (x :: m)). rewrite unbox_some.
  cbn. intros [= <- <-]. by eauto.
Qed.
Lemma taken_spec t l m l1 l2 : holds (queue t) l1 l2 -> l1 ++ l2 = l ++ m -> taken (zlen l) t = l.
Proof.
  intros H E. unfold taken. rewrite (peekN_holds _ _ _ _ H), E. unfold zlen. rewrite Nat2Z.id, take_app_length.
  clear. induction l as [|x l IH]; [done|]. cbn. by f_equal.
Qed.
Lemma DequeueItems_spec t l m : holds (queue t) (l ++ m) [] ->
  let '(t', d) := DequeueItems (zlen l) t in info t' = info t /\ d = - zlen l /\ holds (queue t') m [] /\ writeIdx (queue t') = writeIdx (queue t).
Proof.
  intros H. unfold DequeueItems. destruct (Z.leb_spec (zlen l) 0) as [Hl|Hl].
  - apply zlen_le_0 in Hl as ->. done.
  - unfold DequeueN. rewrite (peekN_holds _ _ _ _ H), app_nil_r. unfold zlen in *. rewrite Nat2Z.id, take_app_length, !length_map.
    split; [done|]. split; [done|]. split; [by apply commitN_ring|]. apply CommitN_writeIdx.
Qed.
Lemma DequeueItem_spec t x m : holds (queue t) (x :: m) [] ->
  exists t', DequeueItem t = Some (t', Some x, -1) /\ info t' = info t /\ holds (queue t') m [] /\ writeIdx (queue t') = writeIdx (queue t).
Proof.
  intros H. unfold DequeueItem, Dequeue. rewrite (peek_holds _ _ _ H). cbn. eexists. split; [done|]. split; [done|].
  split; [by eapply commit_ring|]. apply Commit_writeIdx.
Qed.

(** What is shown of an action: the invariant, and what the loop holds after it. *)
Definition good c : Prop := inv c /\ holding c.

Lemma good_goto c c' p : inv c -> same c c' -> (holding (goto p c')) -> good (goto p c').
Proof. intros I H Hh. split; [by eapply inv_same; [exact I|]|done]. Qed.
Lemma good_endVisit c : inv c -> good (endVisit c).
Proof. intros I. destruct (endVisit_same c I) as [H Ha]. split; [by eapply inv_same|]. unfold holding. by rewrite Ha. Qed.
Lemma good_noBatch c : inv c -> good (noBatch c).
Proof. intros I. destruct (noBatch_same c I) as [H Ha]. split; [by eapply inv_same|done]. Qed.

Lemma dequeueOne_inv c t x st rest : inv c -> zlen (arrived c) < 2 ^ 62 -> currentTask c = Some t -> items (queue t) = x :: rest -> (name (info t), x, st) ∈ executed c ->
  inv (dequeueOne t c).
Proof.
  intros I Hlen Ht Ex Hex. destruct (current_spec c t I Ht) as (i & _ & _ & _ & _ & Hq). destruct (i_queue _ I _ _ Hq) as (Hh & _). rewrite Ex in Hh.
  destruct (DequeueItem_spec t x rest Hh) as (t' & E & Ei & Hh' & Hw). unfold dequeueOne. rewrite E.
  pose proof (taken_spec t [x] rest _ _ Hh (app_nil_r _)) as Ht1. change (zlen [x]) with 1 in Ht1. rewrite Ht1. change (-1) with (- zlen [x]).
  eapply inv_removed; [done|done|exact Ht|done|exact Ex|done|done|]. intros y ->%list_elem_of_singleton. by exists st.
Qed.

(** The items that an execution shows are noted. *)
Lemma executeTask_good n x r c : inv c -> let '(c', st) := executeTask n x r c in
  inv c' /\ (n, x, st) ∈ executed c' /\ (forall y, y ∈ executed c -> y ∈ executed c') /\ currentQueue c' = currentQueue c.
Proof.
  intros I. unfold executeTask. split; [by apply inv_executed|]. cbn. split; [rewrite elem_of_app, list_elem_of_singleton; by right|].
  split; [|done]. intros y Hy. rewrite elem_of_app. by left.
Qed.

Section visits.
Context (o : oracle) (t : ShardTask) (c : SchedulerCore) (I : inv c) (Hlen : zlen (arrived c) < 2 ^ 62) (Ht : currentTask c = Some t).

Lemma visit_current : exists i, current c = Some i /\ name (info t) = name i /\ currentQueue c = Some (name i, queue t) /\ holds (queue t) (items (queue t)) [].
Proof.
  destruct (current_spec c t I Ht) as (i & Hcur & En & Hi & Hcq & Hq). destruct (i_queue _ I _ _ Hq) as (Hq1 & _). by exists i.
Qed.
Lemma visit_set t' : info t' = info t -> queue t' = queue t -> same c (set_current t' c) /\ currentQueue (set_current t' c) = currentQueue c.
Proof. intros Ei Eq. assert (same c (set_current t' c)) as H by (by eapply set_current_same). split; [done|by apply currentQueue_same]. Qed.

Lemma visit_batchSize : at_ c = BatchSize -> good (visit o t c).
Proof.
  intros E. destruct visit_current as (i & _ & _ & _ & Hq). unfold visit. rewrite E. destruct (PeekItem t) as [[t' r]|] eqn:Ep; [|by apply (good_goto c c)].
  destruct (PeekItem_spec _ _ _ _ Hq Ep) as (Ei & Eq & _). destruct (visit_set t' Ei Eq) as [Hs _]. by apply (good_goto c).
Qed.

Lemma visit_batchPeek k : at_ c = BatchPeek k -> good (visit o t c).
Proof.
  intros E. destruct visit_current as (i & _ & _ & Hcq & Hq). unfold visit. rewrite E. destruct (PeekItems k t) as [[t' l]|] eqn:Ep; [|by apply (good_goto c c)].
  destruct (PeekItems_spec _ _ _ _ _ Hq Ep) as (Ei & Eq & rest & El). destruct (visit_set t' Ei Eq) as [Hs Hc].
  destruct (zlen l <? 2); [apply good_noBatch; by eapply inv_same|]. apply (good_goto c); [done|done|].
  exists (name i), (queue t), rest. split; [exact (eq_trans Hc Hcq)|]. split; [done|]. by intros r ?%not_elem_of_nil.
Qed.

Lemma visit_batchExec todo done_ : at_ c = BatchExec todo done_ -> holding c -> good (visit o t c).
Proof.
  intros E Hh. destruct visit_current as (i & _ & En & Hcq & Hq). unfold visit, holding in *. rewrite E in *. destruct Hh as (n & q & rest & Hc & Ei & He).
  rewrite Hcq in Hc. injection Hc as <- <-. destruct todo as [|x todo].
  - apply (good_goto c); [done|done|]. exists (name i), (queue t), rest. by split.
  - pose proof (executeTask_good (name (info t)) x (result o) c I) as Hx. destruct (executeTask _ x _ c) as [c' st]. destruct Hx as (I' & Hin & Hmono & Hcur).
    apply (good_goto c'); [done|done|]. exists (name i), (queue t), rest. rewrite <- En. split; [by rewrite En; etrans|].
    split; [rewrite Ei, map_app, <- app_assoc; done|]. intros r [Hr|Hr]%elem_of_app; [apply Hmono; rewrite En; by apply He|]. apply list_elem_of_singleton in Hr. by subst r.
Qed.

Lemma visit_batchDequeue done_ : at_ c = BatchDequeue done_ -> holding c -> good (visit o t c).
Proof.
  intros E Hh. destruct visit_current as (i & _ & En & Hcq & Hq). unfold visit, holding in *. rewrite E in *. destruct Hh as (n & q & rest & Hc & Ei & He).
  rewrite Hcq in Hc. injection Hc as <- <-. rewrite Ei in Hq.
  pose proof (DequeueItems_spec t (map fst done_) rest Hq) as Hd. pose proof (taken_spec t (map fst done_) rest _ _ Hq (app_nil_r _)) as Htk.
  replace (zlen (map fst done_)) with (zlen done_) in Hd, Htk by (unfold zlen; by rewrite length_map).
  destruct (DequeueItems (zlen done_) t) as [t' d]. destruct Hd as (Eit & -> & Hq' & Hw). rewrite Htk.
  replace (zlen done_) with (zlen (map fst done_)) by (unfold zlen; by rewrite length_map).
  assert (inv (note_removed (name (info t)) (map fst done_) (- zlen (map fst done_)) (set_current t' c))) as I'.
  { eapply inv_removed; [done|done|exact Ht|done|exact Ei|done|done|]. intros x (r & -> & Hr)%list_elem_of_fmap. exists r.2. rewrite En. by apply He. }
  by eapply good_goto.
Qed.

Lemma visit_peekOne : at_ c = PeekOne -> good (visit o t c).
Proof.
  intros E. destruct visit_current as (i & _ & _ & Hcq & Hq). unfold visit. rewrite E. destruct (PeekItem t) as [[t' r]|] eqn:Ep; [|by apply (good_goto c c)].
  destruct (PeekItem_spec _ _ _ _ Hq Ep) as (Ei & Eq & ->). destruct (visit_set t' Ei Eq) as [Hs Hc].
  destruct (items (queue t)) as [|x rest] eqn:El; cbn [List.hd_error]; [apply good_endVisit; by eapply inv_same|].
  apply (good_goto c); [done|done|]. exists (name i), (queue t), rest. split; [exact (eq_trans Hc Hcq)|done].
Qed.

Lemma visit_execOne x : at_ c = ExecOne x -> holding c -> good (visit o t c).
Proof.
  intros E Hh. destruct visit_current as (i & _ & En & Hcq & Hq). unfold visit, holding in *. rewrite E in *. destruct Hh as (n & q & rest & Hc & Ei).
  rewrite Hcq in Hc. injection Hc as <- <-.
  pose proof (executeTask_good (name (info t)) x (result o) c I) as Hx. destruct (executeTask _ x _ c) as [c' st]. destruct Hx as (I' & Hin & Hmono & Hcur).
  apply (good_goto c'); [done|done|]. exists (name i), (queue t), rest. rewrite <- En. split; [by rewrite En; etrans|done].
Qed.

Lemma visit_finish x st : at_ c = Finish x st -> holding c -> good (visit o t c).
Proof.
  intros E Hh. destruct visit_current as (i & _ & En & Hcq & Hq). unfold visit, holding in *. rewrite E in *. destruct Hh as (n & q & rest & Hc & Ei & He).
  rewrite Hcq in Hc. injection Hc as <- <-. rewrite <- En in He.
  assert (forall m, good (endVisit (dequeueOne t (set_attempts m c)))) as Hd.
  { intros m. apply good_endVisit. eapply dequeueOne_inv; [by eapply inv_same|done|exact Ht|exact Ei|exact He]. }
  assert (good (endVisit (dequeueOne t c))) as Hd' by (specialize (Hd (attempts c)); by destruct c).
  assert (forall m, good (endVisit (set_attempts m c))) as Hk by (intros m; apply good_endVisit; by eapply inv_same).
  unfold finish. destruct st; try done; try (by apply good_endVisit); destruct (shard x) as [[s mr]|]; try done; by case_match.
Qed.

Lemma visit_good : holding c -> good (visit o t c).
Proof.
  intros Hh. destruct (at_ c) as [| | | | | | | |size|k|todo done_|done_|done_| |x|x st] eqn:E.
  1-7: by unfold visit; rewrite E.
  - by apply visit_batchSize.
  - unfold visit. rewrite E. destruct (_ <? 2); [by apply good_noBatch|]. destruct (_ <? _); by apply (good_goto c c).
  - by eapply visit_batchPeek.
  - by eapply visit_batchExec.
  - by eapply visit_batchDequeue.
  - unfold visit. rewrite E. apply good_endVisit. by eapply inv_same.
  - by apply visit_peekOne.
  - by eapply visit_execOne.
  - by eapply visit_finish.
Qed.
End visits.

Lemma next_good o c : good c -> zlen (arrived c) < 2 ^ 62 -> good (next o c).
Proof.
  intros [I Hh] Hlen. assert (forall p c', same c c' -> (holding (goto p c')) -> good (goto p c')) as Hg by (intros p c' ? ?; by apply (good_goto c)).
  assert (match currentTask c with Some t => good (visit o t c) | None => good (goto Crashed c) end) as Hv.
  { destruct (currentTask c) as [t|] eqn:Ht; [by apply visit_good|by apply Hg]. }
  unfold next. destruct (at_ c) eqn:E; try (by split); try (by destruct (currentTask c)).
  - destruct (ctxDone c); [by apply Hg|]. destruct (_ =? 0); [by apply Hg|]. apply Hg; [|done]. change (same (addCycle c) (checkStarvation (now o) (addCycle c))). apply checkStarvation_same.
  - destruct (ctxDone _); by apply Hg.
  - destruct (ctxDone _); by apply Hg.
  - destruct (todo1 c); [destruct (todo2 c); by apply Hg|]. destruct (currentTask c); [destruct (priorityBoost _); by apply Hg|by apply Hg].
Qed.

(** ** Producers keep the invariant as long as no queue overflows *)

Section producers.
Context (x : item) (time : Z) (t : ShardTask) (c : SchedulerCore) (I : inv c) (Hlen : zlen (arrived c) < 2 ^ 62)
  (n : string) (Ht : tasks c !! n = Some t) (Hroom : overflows t = false).

Lemma enqueue_queue : name (info t) = n /\ queues c !! n = Some (queue t) /\
  holds (Enqueue x (queue t)) (items (queue t) ++ [x]) [] /\ writeIdx (Enqueue x (queue t)) <= zlen (arrived c) + 1.
Proof.
  assert (queues c !! n = Some (queue t)) as Hq by (unfold queues; by rewrite lookup_fmap, Ht).
  split; [apply (i_names _ I); unfold infos; by rewrite lookup_fmap, Ht|]. split; [done|].
  destruct (i_queue _ I _ _ Hq) as (Hh & Hw & _). unfold overflows in Hroom. apply Z.leb_gt in Hroom. pose proof (zlen_nonneg (items (queue t))).
  assert (0 <= readIdx (queue t)) by apply (h_read _ _ _ Hh). pose proof (h_write _ _ _ Hh) as Ew. pose proof (h_width _ _ _ Hh).
  rewrite Ew, Z.add_simpl_l, u64_id in Hroom by (unfold is_u64; lia).
  split; [apply enqueue_ring; [done|done|lia]|]. unfold Enqueue. rewrite Ew at 1. rewrite Z.add_simpl_l, u64_id by (unfold is_u64; lia).
  rewrite (proj2 (Z.ltb_lt _ _)) by done. cbn. rewrite u64_id by (unfold is_u64; lia). lia.
Qed.

Lemma enqueue_queues : queues (enqueue x time t c) = <[n := Enqueue x (queue t)]> (queues c) /\ infos (enqueue x time t c) = infos c.
Proof.
  destruct enqueue_queue as (En & _). unfold queues, infos, enqueue, EnqueueItem, tasks. cbn. rewrite !fmap_insert, En. cbn. split; [done|].
  apply insert_id. rewrite lookup_fmap. fold (tasks c). by rewrite Ht.
Qed.

Lemma enqueue_inv : inv (enqueue x time t c).
Proof.
  destruct enqueue_queue as (En & Hq & Hh & Hw). destruct enqueue_queues as [Eq Ei]. pose proof I as [I1 I2 I3 I4 I5].
  assert (arrived (enqueue x time t c) = arrived c ++ [(n, x)]) as Ea by (unfold enqueue; cbn; by rewrite En).
  constructor.
  - rewrite Ei. exact I1.
  - rewrite Eq, Ea. change (removed (enqueue x time t c)) with (removed c). intros m q Hm. rewrite zlen_app, ofTask_app. change [(n, x)] with (map (pair n) [x]).
    rewrite ofTask_pairs. apply lookup_insert_Some in Hm as [[<- <-]|[Hn Hm]].
    + rewrite decide_True, (items_holds _ _ _ Hh) by done. destruct (I2 _ _ Hq) as (_ & _ & ->). by rewrite app_assoc.
    + rewrite decide_False, app_nil_r by done. destruct (I2 _ _ Hm) as (H1 & H2 & H3). split; [done|]. split; [|done]. change (zlen (map (pair n) [x])) with 1. lia.
  - rewrite Ea, zlen_app. change (zlen [(n, x)]) with 1. change (totalQueueItems (enqueue x time t c)) with (i64 (totalQueueItems c + 1)).
    change (removed (enqueue x time t c)) with (removed c). rewrite I3. pose proof (zlen_nonneg (arrived c)). pose proof (zlen_nonneg (removed c)).
    pose proof (total_nonneg c I). rewrite i64_id; unfold is_i64; lia.
  - rewrite Eq. intros m y Hin. destruct (I4 m y Hin) as [Hm Hex]. split; [|exact Hex]. apply lookup_insert_is_Some'. by right.
  - rewrite Eq, Ea. intros m y [Hin|Hin]%elem_of_app; apply lookup_insert_is_Some'; [right; by eapply I5|]. apply list_elem_of_singleton in Hin as [= -> _]. by left.
Qed.

Lemma enqueue_holding : holding c -> holding (enqueue x time t c).
Proof.
  destruct enqueue_queue as (En & Hq & Hh & Hw). destruct enqueue_queues as [Eq _].
  assert (forall m q, currentQueue c = Some (m, q) -> exists q' more, currentQueue (enqueue x time t c) = Some (m, q') /\ items q' = items q ++ more) as Hc.
  { unfold currentQueue. change (current (enqueue x time t c)) with (current c). rewrite Eq. destruct (current c) as [i|]; [|done]. cbn.
    intros m q H. destruct (queues c !! name i) as [q1|] eqn:E; [|done]. cbn in H. injection H as <- <-. destruct (decide (n = name i)) as [->|Hn].
    - rewrite lookup_insert_eq. cbn. eexists _, [x]. split; [done|]. rewrite E in Hq. injection Hq as ->. by apply items_holds with [].
    - rewrite lookup_insert_ne, E by done. exists q1, []. by rewrite app_nil_r. }
  unfold holding. change (at_ (enqueue x time t c)) with (at_ c). change (executed (enqueue x time t c)) with (executed c).
  destruct (at_ c); try done.
  - intros (m & q & rest & (q' & more & Hq' & Ei)%Hc & Er & He). exists m, q', (rest ++ more). rewrite Ei, Er, <- !app_assoc. done.
  - intros (m & q & rest & (q' & more & Hq' & Ei)%Hc & Er & He). exists m, q', (rest ++ more). rewrite Ei, Er, <- !app_assoc. done.
  - intros (m & q & rest & (q' & more & Hq' & Ei)%Hc & Er). exists m, q', (rest ++ more). rewrite Ei, Er. done.
  - intros (m & q & rest & (q' & more & Hq' & Ei)%Hc & Er & He). exists m, q', (rest ++ more). rewrite Ei, Er. done.
Qed.
End producers.

(** Nothing lowers the number of arrivals or undoes an overflow. *)
Definition history c : Z * bool := (zlen (arrived c), overflowed c).

Lemma wakeup_good c : good c -> good (wakeup c).
Proof. intros [I H]. unfold wakeup. destruct (at_ c) eqn:E; try (by split). by apply (good_goto c). Qed.
Lemma good_same c c' : good c -> same c c' -> at_ c' = at_ c -> current c' = current c -> good c'.
Proof.
  intros [I H] Hs Ha Hc. split; [by eapply inv_same|]. pose proof (currentQueue_same _ _ Hs Hc) as Hq. destruct Hs as (_ & _ & _ & _ & He & _).
  revert H. unfold holding. by rewrite Ha, Hq, He.
Qed.

Lemma history_set_tasks m c : history (set_tasks m c) = history c.
Proof. done. Qed.
Lemma history_unboost c : history (unboost c) = history c.
Proof. unfold unboost. by case_match. Qed.
Lemma history_endVisit c : history (endVisit c) = history c.
Proof. unfold endVisit. case_match; [done|]. change (history (unboost c) = history c). apply history_unboost. Qed.
Lemma history_noBatch c : history (noBatch c) = history c.
Proof. unfold noBatch. case_match; [done|]. apply history_endVisit. Qed.
Lemma history_dequeueOne t c : history (dequeueOne t c) = history c.
Proof. unfold dequeueOne. repeat case_match; done. Qed.
Lemma history_finish x st t c : history (finish x st t c) = history c.
Proof. unfold finish. repeat case_match; rewrite ?history_endVisit, ?history_dequeueOne; done. Qed.
Lemma history_check now c : history (checkStarvation now c) = history c.
Proof. unfold checkStarvation. by case_match. Qed.

Lemma history_visit o t c : history (visit o t c) = history c.
Proof.
  unfold visit. destruct (at_ c) as [| | | | | | | |size|k|[|x todo] done_|done_|done_| |x|x st]; try done; rewrite ?history_endVisit, ?history_noBatch, ?history_finish, ?history_check; try done.
  - by repeat case_match.
  - repeat case_match; by rewrite ?history_endVisit, ?history_noBatch, ?history_finish, ?history_check.
  - repeat case_match; by rewrite ?history_endVisit, ?history_noBatch, ?history_finish, ?history_check.
  - by destruct (DequeueItems (zlen done_) t).
  - repeat case_match; by rewrite ?history_endVisit, ?history_noBatch, ?history_finish, ?history_check.
Qed.
Lemma history_next o c : history (next o c) = history c.
Proof.
  unfold next. destruct (at_ c); try done; try (destruct (currentTask c); [apply history_visit|done]).
  - destruct (ctxDone c); [done|]. destruct (_ =? 0); [done|].
    change (history (checkStarvation (now o) (addCycle c)) = history c). by rewrite history_check.
  - by destruct (ctxDone _).
  - by destruct (ctxDone _).
  - repeat case_match; done.
Qed.

Lemma registerAll_new l n t : taskMap (registerAll l) !! n = Some t -> name (info t) = n /\ queue t = NewMPSCExtQueue.
Proof.
  induction l as [|i l IH] using rev_ind; [cbn; by rewrite lookup_empty|]. unfold registerAll in *. rewrite foldl_app. cbn [foldl].
  set (r := foldl _ _ l) in *. unfold RegisterCore. destruct (taskMap r !! name i); [exact IH|]. cbn. intros [[<- <-]|[_ H]]%lookup_insert_Some; [done|by apply IH].
Qed.

Lemma start_good l : good (startCore (registerAll l)).
Proof.
  split; [|done]. constructor; try done.
  - unfold infos. intros n i (t & <- & Ht)%lookup_fmap_Some. by apply registerAll_new in Ht as [].
  - unfold queues. intros n q (t & <- & Ht)%lookup_fmap_Some. apply registerAll_new in Ht as [_ ->]. split; [apply new_holds|]. split; [cbn; done|done].
  - intros n x Hin. cbn in Hin. by apply not_elem_of_nil in Hin.
  - intros n x Hin. cbn in Hin. by apply not_elem_of_nil in Hin.
Qed.

Lemma step_good c c' : step c c' -> overflowed c' = false -> zlen (arrived c') < 2 ^ 62 ->
  overflowed c = false /\ zlen (arrived c) < 2 ^ 62 /\ (good c -> good c').
Proof.
  intros [o|x time n t Ht|k Hk|] Ho Hl.
  - pose proof (history_next o c) as H. unfold history in H. injection H as H1 H2. rewrite H1, H2 in *. split; [done|]. split; [done|]. intros Hg. by apply next_good.
  - change (overflowed c || overflows t = false) in Ho. apply orb_false_iff in Ho as [Ho Hroom]. change (zlen (arrived c ++ [(name (info t), x)]) < 2 ^ 62) in Hl.
    rewrite zlen_app in Hl. change (zlen [(name (info t), x)]) with 1 in Hl. assert (zlen (arrived c) < 2 ^ 62) as Hl' by lia. split; [done|]. split; [done|].
    intros [I Hh]. split; [by eapply enqueue_inv|by eapply enqueue_holding].
  - assert (history (wakeup (set_wakes k c)) = history c) as H by (unfold wakeup; by destruct (at_ (set_wakes k c))). unfold history in H. injection H as H1 H2.
    rewrite H1, H2 in *. split; [done|]. split; [done|]. intros Hg. apply wakeup_good. by eapply good_same.
  - split; [done|]. split; [done|]. intros Hg. by eapply good_same.
Qed.

Lemma reachable_good l c : reachable l c -> overflowed c = false -> zlen (arrived c) < 2 ^ 62 -> good c.
Proof.
  intros H. unfold reachable in H. pattern c. eapply (rtc_ind_r (R := step)); [|  |exact H].
  - intros _ _. apply start_good.
  - intros c1 c2 _ Hs IH Ho Hl. destruct (step_good _ _ Hs Ho Hl) as (Ho1 & Hl1 & Hg). auto.
Qed.

(** C12: whatever the interleaving of the loop with its producers and the signals,
    and whatever the executions answer, as long as no queue of the core used its
    overflow: of every task the items that arrived are those removed followed by
    those in its queue, in the order of arrival; no item is lost or taken twice;
    the counter of the core is the number of items that are not removed; and an
    item is removed only after an execution of it. *)
Theorem scheduler_keeps_items l c : reachable l c -> overflowed c = false -> zlen (arrived c) < 2 ^ 62 ->
  (forall n t, tasks c !! n = Some t -> ring (queue t) = map Some (items (queue t)) /\ ofTask n (arrived c) = ofTask n (removed c) ++ items (queue t)) /\
  totalQueueItems c = zlen (arrived c) - zlen (removed c) /\
  (forall n x, (n, x) ∈ removed c -> exists st, (n, x, st) ∈ executed c).
Proof.
  intros H Ho Hl. destruct (reachable_good l c H Ho Hl) as [[I1 I2 I3 I4 I5] _]. split; [|split; [done|]].
  - intros n t Ht. destruct (I2 n (queue t)) as (Hh & _ & E); [unfold queues; by rewrite lookup_fmap, Ht|]. split; [apply (h_ring _ _ _ Hh)|done].
  - intros n x Hin. by destruct (I4 n x Hin).
Qed.

(** ** What the loop gets wrong *)

Definition stay : action := Loop (mkOracle 0 None).
Definition answer (st : TaskStatus) : action := Loop (mkOracle 0 (Some st)).
Definition panics : action := Loop (mkOracle 0 None).
Definition write : taskInfo := mkInfo "write" 0 0.
Definition begin : SchedulerCore := startCore (registerAll [write]).
Definition put x : action := Put x 1 "write".

Lemma begin_reachable l : reachable [write] (run l begin).
Proof. apply run_steps. Qed.

Lemma sleeps_on_an_item r n x (time : Z) t : taskMap r !! n = Some t -> name (info t) = n ->
  exists c, rtc step (startCore r) c /\ at_ c = Sleeping /\ wakes c = O /\ ctxDone c = false /\ totalQueueItems c = 1 /\ arrived c = [(n, x)].
Proof.
  intros Ht En. set (o := mkOracle 0 None). set (c1 := goto Sleep (addCycle (startCore r))). set (c2 := enqueue x time t c1).
  exists (goto Sleeping (addWait (set_wakes 0 c2))). split.
  - eapply rtc_l; [apply (step_loop _ o)|]. change (next o (startCore r)) with c1.
    eapply rtc_l; [exact (step_enqueue c1 x time n t Ht)|]. fold c2. eapply rtc_l; [exact (step_signal c2 0 eq_refl)|].
    change (wakeup (set_wakes 0 c2)) with (set_wakes 0 c2). eapply rtc_l; [apply (step_loop _ o)|]. apply rtc_refl.
  - repeat split. cbn. by rewrite En.
Qed.

(** C38: a wake-up is lost when the signal comes between the check of the counter and
    the wait: the loop sleeps with an item in its queue, no producer is left to
    signal, and no action of the loop leads out. *)
Theorem lost_wakeup l n x (time : Z) : is_Some (taskMap (registerAll l) !! n) ->
  exists c, reachable l c /\ at_ c = Sleeping /\ wakes c = O /\ ctxDone c = false /\ totalQueueItems c = 1 /\ arrived c = [(n, x)] /\ forall o, next o c = c.
Proof.
  intros [t Ht]. destruct (registerAll_new l n t Ht) as [En _]. destruct (sleeps_on_an_item _ n x time t Ht En) as (c & H1 & H2 & H3 & H4 & H5 & H6).
  exists c. repeat (split; [done|]). intros o. unfold next. by rewrite H2.
Qed.

(** The results of a batch are not acted on: both items of a batch ask to be
    retried, which is counted, and both are gone from the queue; no number of
    retries that the items allow changes that. *)
Theorem batch_retry_lost sx sy retriesx retriesy :
  let x := mkItem 0 (Some (sx, retriesx)) (Some 2) in let y := mkItem 1 (Some (sy, retriesy)) (Some 2) in
  let c := run ([put x; put y] ++ repeat (answer TaskRetrying) 10) begin in
  reachable [write] c /\ executed c = [("write", x, TaskRetrying); ("write", y, TaskRetrying)] /\ removed c = [("write", x); ("write", y)] /\
  totalQueueItems c = 0 /\ items <$> queues c !! "write" = Some [] /\ attempts c !! 0%nat = Some 1 /\ attempts c !! 1%nat = Some 1 /\ at_ c = Visit.
Proof. intros x y c. split; [apply begin_reachable|]. vm_compute. repeat split. Qed.

(** The core with [x] in front of [y], between two rounds. *)
Definition stuck x y (check : Z) (s : CoreStats) (ex : list (string * item * TaskStatus)) : SchedulerCore :=
  let q := Enqueue y (Enqueue x NewMPSCExtQueue) in
  mkCore (mkRegistry (priorityBuckets (registerAll [write])) (activeBitmap (registerAll [write])) {["write" := mkTask write q TaskExecuting 1 false]})
    (getOrderedBuckets (registerAll [write])) check 2 false s ∅ Top [] [] 2 [("write", x); ("write", y)] ex [] false.

Definition startRound c : SchedulerCore := goto Visit (set_todo (phase1 (cachedBuckets c)) (phase2 (reg c) (cachedBuckets c)) c).
Lemma next_top o c : at_ c = Top -> ctxDone c = false -> (totalQueueItems c =? 0) = false -> next o c = startRound (checkStarvation (now o) (addCycle c)).
Proof. intros E1 E2 E3. unfold next. rewrite E1, E2. cbn [totalQueueItems addCycle set_stats]. by rewrite E3. Qed.

Lemma check_nothing time c : phase1 (cachedBuckets c) = [] -> exists z, checkStarvation time c = set_check z c.
Proof.
  intros E. unfold checkStarvation. case_match; [exists (starvationCheck c); by destruct c|]. exists time. rewrite E. cbn. unfold set_tasks, tasks. by destruct c as [[]].
Qed.

(** A round of which the execution panics. *)
Definition panicRound (time : Z) : list action := repeat (Loop (mkOracle time None)) 8.

Lemma round_stuck i sh y check s ex time : let x := mkItem i sh None in exists check',
  run (panicRound time) (stuck x y check s ex) =
  stuck x y check' (mkStats (TotalCycles s + 1) (TotalTasksProcessed s + 1) (EmptyWaits s) (PanicCount s + 1)) (ex ++ [("write", x, TaskQueued)]).
Proof.
  intros x. unfold run, panicRound. cbn [foldl repeat act]. rewrite (next_top _ (stuck x y check s ex)) by reflexivity. cbn [now].
  destruct (check_nothing time (addCycle (stuck x y check s ex)) eq_refl) as [z ->]. exists z. vm_compute. reflexivity.
Qed.

Lemma first_round i sh y time : let x := mkItem i sh None in exists check,
  run (panicRound time) (run [put x; put y] begin) = stuck x y check (mkStats 1 1 0 1) [("write", x, TaskQueued)].
Proof.
  intros x. set (c := run [put x; put y] begin). unfold run, panicRound. cbn [foldl repeat act]. rewrite (next_top _ c) by reflexivity. cbn [now].
  destruct (check_nothing time (addCycle c) eq_refl) as [z ->]. exists z. vm_compute. reflexivity.
Qed.

Lemma run_app l1 l2 c : run (l1 ++ l2) c = run l2 (run l1 c).
Proof. apply foldl_app. Qed.

Definition allPanicked (n : nat) : CoreStats := mkStats (Z.of_nat n) (Z.of_nat n) 0 (Z.of_nat n).
Lemma rounds_stuck i sh y times check n : let x := mkItem i sh None in exists check',
  run (concat (map panicRound times)) (stuck x y check (allPanicked n) (repeat ("write", x, TaskQueued) n)) =
  stuck x y check' (allPanicked (n + length times)) (repeat ("write", x, TaskQueued) (n + length times)).
Proof.
  cbv zeta. revert check n. induction times as [|time times IH]; intros check n; [exists check; by rewrite Nat.add_0_r|].
  change (concat (map panicRound (time :: times))) with (panicRound time ++ concat (map panicRound times)). rewrite run_app.
  destruct (round_stuck i sh y check (allPanicked n) (repeat ("write", mkItem i sh None, TaskQueued) n) time) as [check1 ->].
  destruct (IH check1 (n + 1)%nat) as [check2 E]. exists check2. change (length (time :: times)) with (1 + length times)%nat.
  rewrite Nat.add_assoc, <- E, repeat_app. do 3 f_equal. unfold allPanicked. cbn [TotalCycles TotalTasksProcessed EmptyWaits PanicCount]. f_equal; lia.
Qed.

Lemma first_rounds i sh y time times : let x := mkItem i sh None in exists check,
  run ([put x; put y] ++ concat (map panicRound (time :: times))) begin =
  stuck x y check (allPanicked (S (length times))) (repeat ("write", x, TaskQueued) (S (length times))).
Proof.
  cbv zeta. rewrite run_app. change (concat (map panicRound (time :: times))) with (panicRound time ++ concat (map panicRound times)). rewrite run_app.
  destruct (first_round i sh y time) as [check ->]. exact (rounds_stuck i sh y times check 1).
Qed.

Lemma stuck_facts x y check n ex : let c := stuck x y check (allPanicked n) ex in
  at_ c = Top /\ executed c = ex /\ PanicCount (stats c) = Z.of_nat n /\ removed c = [] /\ attempts c = ∅ /\ items <$> queues c !! "write" = Some [x; y].
Proof. vm_compute. repeat split. Qed.

(** An item whose execution panics is neither removed nor counted as an attempt,
    and what is behind it in its queue is never executed: after any number of rounds
    nothing but its executions has happened. *)
Theorem panicking_item_blocks i sh y time times : let x := mkItem i sh None in
  let c := run ([put x; put y] ++ concat (map panicRound (time :: times))) begin in
  reachable [write] c /\ at_ c = Top /\ executed c = repeat ("write", x, TaskQueued) (S (length times)) /\ PanicCount (stats c) = Z.of_nat (S (length times)) /\
  removed c = [] /\ attempts c = ∅ /\ items <$> queues c !! "write" = Some [x; y].
Proof.
  cbv zeta. split; [apply begin_reachable|]. destruct (first_rounds i sh y time times) as [check ->]. apply stuck_facts.
Qed.

(** A batch larger than the buffer of the core panics outside the recovery of an
    execution, so that the loop ends. *)
Theorem oversized_batch_crashes : let x := mkItem 0 None (Some 64) in
  let c := run (repeat (put x) 33 ++ repeat stay 4) begin in
  reachable [write] c /\ at_ c = Crashed /\ totalQueueItems c = 33 /\ forall o, next o c = c.
Proof. intros x c. split; [apply begin_reachable|]. vm_compute. repeat split. Qed.

Lemma endVisit_logs c : at_ (endVisit c) = Visit /\ executed (endVisit c) = executed c /\ removed (endVisit c) = removed c.
Proof. unfold endVisit, unboost. repeat case_match; done. Qed.

(** From a queue whose ring is empty and whose overflow starts with [x]: the loop
    peeks [x], a producer puts [y] in the ring, the loop executes [x], and what it
    then removes is [y], which was not executed, while [x] stays. *)
Theorem overflow_race c t x y l2 o (time : Z) : at_ c = PeekOne -> current c = Some (info t) -> tasks c !! name (info t) = Some t ->
  holds (queue t) [] (x :: l2) -> writeIdx (queue t) < 2 ^ 64 - 1 ->
  let n := name (info t) in let c' := run [Loop o; Put y time n; answer TaskPassed; answer TaskPassed] c in
  at_ c' = Visit /\ executed c' = executed c ++ [(n, x, TaskPassed)] /\ removed c' = removed c ++ [(n, y)].
Proof.
  intros Ha Hcur Ht Hq Hw n c'. pose proof (peek_holds _ _ _ Hq) as Hp. cbn in Hp.
  pose proof (enqueue_ring _ [] (x :: l2) y Hq eq_refl Hw) as Hq1. cbn [app] in Hq1. pose proof (peek_holds _ _ _ Hq1) as Hp1. cbn in Hp1.
  change (tasks c !! n = Some t) in Ht.
  set (t1 := set_status TaskExecuting t). set (c1 := goto (ExecOne x) (set_current t1 c)).
  assert (forall c, current c = Some (info t) -> currentTask c = tasks c !! n) as Hct by (intros d Hd; unfold currentTask; by rewrite Hd).
  assert (next o c = c1) as E1 by (unfold next; rewrite Ha, (Hct c Hcur), Ht; unfold visit; rewrite Ha; unfold PeekItem; by rewrite Hp).
  set (c2 := enqueue y time t1 c1). assert (act (Put y time n) c1 = c2) as E2.
  { cbn. unfold c1, tasks, set_current. cbn. fold n. by rewrite lookup_insert_eq. }
  set (t2 := (EnqueueItem y time t1).1). assert (currentTask c2 = Some t2) as Hc2.
  { rewrite (Hct c2 Hcur). unfold c2, enqueue, tasks. cbn. apply lookup_insert_eq. }
  set (c3 := goto (Finish x TaskPassed) (executeTask n x (Some TaskPassed) c2).1). assert (act (answer TaskPassed) c2 = c3) as E3.
  { unfold act, answer, next. change (at_ c2) with (ExecOne x). rewrite Hc2. done. }
  assert (act (answer TaskPassed) c3 = endVisit (dequeueOne t2 c3)) as E4.
  { unfold act, answer, next. change (at_ c3) with (Finish x TaskPassed). change (currentTask c3) with (currentTask c2). by rewrite Hc2. }
  assert (c' = endVisit (dequeueOne t2 c3)) as ->.
  { unfold c', run. cbn [foldl]. change (act (Loop o) c) with (next o c). by rewrite E1, E2, E3, E4. }
  destruct (endVisit_logs (dequeueOne t2 c3)) as (-> & -> & ->). split; [done|].
  unfold dequeueOne, DequeueItem, Dequeue. change (queue t2) with (Enqueue y (queue t)). rewrite Hp1.
  assert (taken 1 t2 = [y]) as Htk by (exact (taken_spec t2 [y] (x :: l2) _ _ Hq1 eq_refl)). rewrite Htk. done.
Qed.

(** The task at such a point, and the core that visits it. *)
Lemma overflow_race_witness : let a := mkItem 0 None None in let b := mkItem 1 None None in
  let q := mkQueue ∅ ringBufferSize ringBufferSize [a] 1 in let c := goto PeekOne (set_todo [] [write] (set_tasks {["write" := mkTask write q TaskQueued 1 false]} begin)) in
  let c' := run [stay; Put b 2 "write"; answer TaskPassed; answer TaskPassed] c in
  at_ c' = Visit /\ executed c' = [("write", a, TaskPassed)] /\ removed c' = [("write", b)].
Proof. intros a b q c. apply (overflow_race c (mkTask write q TaskQueued 1 false) a b []); done. Defined.

Lemma lost_wakeup_witness : exists c, reachable [write] c /\ at_ c = Sleeping /\ wakes c = O /\ ctxDone c = false /\ totalQueueItems c = 1 /\ arrived c = [("write", mkItem 0 None None)] /\ forall o, next o c = c.
Proof. apply (lost_wakeup [write] "write" (mkItem 0 None None) 1). by eexists. Defined.

Lemma scheduler_keeps_items_witness : let a := mkItem 0 None None in let c := run [put a; stay; stay; stay; stay; stay; answer TaskPassed; answer TaskPassed] begin in
  removed c = [("write", a)] /\ totalQueueItems c = zlen (arrived c) - zlen (removed c) /\ exists st, ("write", a, st) ∈ executed c.
Proof.
  intros a c. destruct (scheduler_keeps_items [write] c) as (_ & H2 & H3); [apply begin_reachable|reflexivity|vm_compute; reflexivity|].
  split; [vm_compute; reflexivity|]. split; [exact H2|]. apply H3. assert (removed c = [("write", a)]) as -> by (vm_compute; reflexivity). by left.
Defined.
