(* ===== verification/SchedulerManager.v ===== *)
(** * The manager of the scheduler cores (concurrency/task_scheduler.go)

    Registration on all cores, the routing of an item to a core, start, stop and
    the draining of what is left, statistics and the health check.  The loops of
    the cores are those of SchedulerLoop.v; what a caller does here is one action,
    except that [Stop] lets the loops run until they have ended. *)

From stdpp Require Import base list gmap strings relations.
From Stdlib Require Import ZArith Lia.
From S2P Require Import Prelude Errors MpscQueue TaskScheduler SchedulerLoop.

Local Open Scope Z_scope.

Definition MaxQueueLengthHealthCheck : Z := 10000.

Record TaskScheduler := mkScheduler {
  cores : list SchedulerCore;
  registeredOrders : gmap Z string;
  running : bool;
  TotalTasksEnqueued : Z;
  rrCounter : Z;
  lbThreshold : Z }.
Implicit Types (m : TaskScheduler) (c : SchedulerCore) (x : item) (t : ShardTask).

(** A core whose loop has not been started: [Stopped]. *)
Definition NewSchedulerCore : SchedulerCore :=
  mkCore emptyRegistry (fun _ => []) 0 0 false (mkStats 0 0 0 0) ∅ Stopped [] [] 0 [] [] [] false.
Definition coreCount m : Z := zlen (cores m).
Definition NewTaskScheduler (count numCPU : Z) : TaskScheduler :=
  let n := if count <=? 0 then numCPU else count in
  mkScheduler (replicate (Z.to_nat n) NewSchedulerCore) ∅ false 0 0 (i64 (lbLowLoadPerCore * n)).

Definition set_cores (l : list SchedulerCore) m : TaskScheduler :=
  mkScheduler l (registeredOrders m) (running m) (TotalTasksEnqueued m) (rrCounter m) (lbThreshold m).
Definition set_running (b : bool) m : TaskScheduler :=
  mkScheduler (cores m) (registeredOrders m) b (TotalTasksEnqueued m) (rrCounter m) (lbThreshold m).
Definition set_reg (r : registry) c : SchedulerCore :=
  mkCore r (cachedBuckets c) (starvationCheck c) (totalQueueItems c) (ctxDone c) (stats c) (attempts c)
    (at_ c) (todo1 c) (todo2 c) (wakes c) (arrived c) (executed c) (removed c) (overflowed c).

(** ** Registration *)

(** The cores before the one that fails keep the task. *)
Fixpoint registerCores (i : taskInfo) (k : Z) (l : list SchedulerCore) : list SchedulerCore * outcome (option error) :=
  match l with
  | [] => ([], Ret None)
  | c :: l =>
      match RegisterCore i (reg c) with
      | (_, Some e) => (c :: l, e ← CoreRegisterFailed (Heap 1) k e; Ret (Some e))
      | (r, None) => let '(l, e) := registerCores i (k + 1) l in (set_reg r c :: l, e)
      end
  end.
Definition RegisterTask (i : taskInfo) m : TaskScheduler * outcome (option error) :=
  match registeredOrders m !! executionOrder i with
  | Some existing => (m, e ← ExecutionOrderConflict (Heap 0) (executionOrder i) existing; Ret (Some e))
  | None =>
      let '(l, e) := registerCores i 0 (cores m) in
      let m := set_cores l m in
      match e with
      | Ret None => (mkScheduler (cores m) (<[executionOrder i := name i]> (registeredOrders m)) (running m) (TotalTasksEnqueued m) (rrCounter m) (lbThreshold m), Ret None)
      | _ => (m, e)
      end
  end.

(** ** Routing.  [text] is what fmt prints of the task and the core. *)

Definition ShardID x : Z := match shard x with Some (id, _) => id | None => 0 end.
Definition EnqueueWithShard (text : string -> Z -> string) x (taskName : string) (time : Z) m : TaskScheduler * outcome (option error) :=
  if negb (running m) then (m, Ret (Some SchedulerNotStarted)) else
  let '(rr, k) := coreIndexOf (ShardID x) (map totalQueueItems (cores m)) (lbThreshold m) (rrCounter m) in
  let m := mkScheduler (cores m) (registeredOrders m) (running m) (TotalTasksEnqueued m) rr (lbThreshold m) in
  match (if k <? 0 then None else cores m !! Z.to_nat k) with
  | None => (m, Panic)                            (* the index is out of range *)
  | Some c =>
      let m := mkScheduler (cores m) (registeredOrders m) (running m) (i64 (TotalTasksEnqueued m + 1)) rr (lbThreshold m) in
      match tasks c !! taskName with
      | None => (m, e ← TaskNotFound (Heap 0) (text taskName k); Ret (Some e))
      | Some t => (set_cores (<[Z.to_nat k := wakeup (set_wakes (wakes c) (enqueue x time t c))]> (cores m)) m, Ret None)
      end
  end.

(** ** Start and Stop *)

(** The loop starts with the tasks that are registered then. *)
Definition startLoop c : SchedulerCore :=
  mkCore (reg c) (getOrderedBuckets (reg c)) (starvationCheck c) (totalQueueItems c) (ctxDone c) (stats c) (attempts c)
    Top [] [] (wakes c) (arrived c) (executed c) (removed c) (overflowed c).
Definition Start m : TaskScheduler * option error :=
  if running m then (m, Some SchedulerAlreadyRunning) else (set_cores (map startLoop (cores m)) (set_running true m), None).

(** [cancel] and [wakeup] of [Stop]; the signal of [cancel] is the one given here. *)
Definition stopCore c : SchedulerCore := wakeup (set_wakes (wakes c) (cancel c)).
(** The wait for a loop: it runs, while producers may still enqueue, until it ends. *)
Definition ended c : bool := match at_ c with Stopped => true | _ => false end.
Definition waited c c' : Prop := rtc step c c' /\ ended c' = true.

(** ** Draining *)

(** One task: with the items that are cancelled.  [None]: a nil pointer. *)
Fixpoint drainLoop (fuel : nat) t : option (ShardTask * list item * Z) :=
  match fuel with
  | O => Some (t, [], 0)
  | S fuel =>
      if QueueLen t <=? 0 then Some (t, [], 0) else
      match PeekItem t with
      | None => None
      | Some (t, None) => Some (t, [], 0)
      | Some (t, Some _) =>
          '(t, x, d) ← DequeueItem t;
          '(t, l, d') ← drainLoop fuel t;
          Some (t, match x with Some x => x :: l | None => l end, d + d')
      end
  end.
Definition drainTask t : option (ShardTask * list item * Z) := drainLoop (S (Z.to_nat (QueueLen t))) t.

(** All tasks of a core, which Go visits in any order. *)
Fixpoint drainTasks (l : list (string * ShardTask)) (m : gmap string ShardTask) (total : Z) : option (gmap string ShardTask * Z * list (string * item)) :=
  match l with
  | [] => Some (m, total, [])
  | (n, t) :: l =>
      '(t, xs, d) ← drainTask t;
      '(m, total, ys) ← drainTasks l (<[n := t]> m) (i64 (total + d));
      Some (m, total, map (pair n) xs ++ ys)
  end.
Definition drainCore (order : list (string * ShardTask)) c : option (SchedulerCore * list (string * item)) :=
  '(m, total, xs) ← drainTasks order (tasks c) (totalQueueItems c);
  Some (mkCore (mkRegistry (priorityBuckets (reg c)) (activeBitmap (reg c)) m) (cachedBuckets c) (starvationCheck c) total (ctxDone c) (stats c) (attempts c)
    (at_ c) (todo1 c) (todo2 c) (wakes c) (arrived c) (executed c) (removed c) (overflowed c), xs).

(** [Stop], on a manager that runs: the flag falls, every loop is cancelled and
    waited for, then every core is drained.  With what is cancelled, by core. *)
Definition stopped c c' (xs : list (string * item)) : Prop :=
  exists mid order, waited (stopCore c) mid /\ order ≡ₚ map_to_list (tasks mid) /\ drainCore order mid = Some (c', xs).
Inductive Stop m : TaskScheduler -> list (list (string * item)) -> Prop :=
| Stop_not_running : running m = false -> Stop m m []
| Stop_running l out : running m = true -> Forall3 stopped (cores m) l out -> Stop m (set_cores l (set_running false m)) out.

(** ** Statistics and health *)

Definition calculateCoreQueueLen c : Z :=
  foldl (fun a i => match tasks c !! name i with Some t => i64 (a + QueueLen t) | None => a end) 0
    (concat (map (priorityBuckets (reg c)) (seqZ 0 NumPriorityLevels))).
Definition GetStats m : list (CoreStats * Z) := map (fun c => (stats c, calculateCoreQueueLen c)) (cores m).
Fixpoint healthLoop (k : Z) (l : list SchedulerCore) : outcome (option error) :=
  match l with
  | [] => Ret None
  | c :: l =>
      if 0 <? PanicCount (stats c) then e ← CorePanicDetected (Heap 0) k; Ret (Some e) else
      let n := calculateCoreQueueLen c in
      if MaxQueueLengthHealthCheck <? n then e ← CoreQueueTooLong (Heap 0) k n; Ret (Some e) else healthLoop (k + 1) l
  end.
Definition HealthCheck m : outcome (option error) := healthLoop 0 (cores m).
Definition SetLoadBalanceThreshold (perCore : Z) m : TaskScheduler :=
  let p := if perCore <? 1 then lbLowLoadPerCore else perCore in
  mkScheduler (cores m) (registeredOrders m) (running m) (TotalTasksEnqueued m) (rrCounter m) (i64 (p * coreCount m)).
Definition GetLoadBalanceThreshold m : Z := Z.quot (lbThreshold m) (coreCount m).

(** ** The loop ends after its context is cancelled *)

(** How many actions the loop has left at most: for each visit that is to come, and
    in the one it is in. *)
Definition perVisit : nat := 60.
Definition inVisit (p : pc) : nat :=
  match p with
  | BatchSize => 58 | BatchLen _ => 57 | BatchPeek k => 13 + Z.to_nat k | BatchExec todo _ => 12 + length todo
  | BatchDequeue _ => 11 | BatchResults _ => 10 | PeekOne => 9 | ExecOne _ => 8 | Finish _ _ => 7
  | _ => 0
  end.
Definition visits c : nat := length (todo1 c) + length (todo2 c).
Definition remaining c : nat :=
  match at_ c with
  | Stopped | Crashed | Sleeping => 0
  | Top | Sleep | Woken => 1
  | Visit => perVisit * visits c + 2
  | p => perVisit * (visits c - 1) + 2 + inVisit p
  end.
Definition over c : bool := match at_ c with Stopped | Crashed => true | _ => false end.

Ltac weigh := unfold perVisit in *; lia.

(** What is needed of an action of the loop of a cancelled core in a visit. *)
Definition ends c c' : Prop := ctxDone c' = true /\ at_ c' <> Sleeping /\ (remaining c' < remaining c)%nat.

Definition fixed c : bool * (list taskInfo * list taskInfo) := (ctxDone c, (todo1 c, todo2 c)).
Lemma fixed_unboost c : fixed (unboost c) = fixed c.
Proof. unfold unboost. by case_match. Qed.
Lemma fixed_dequeueOne t c : at_ (dequeueOne t c) = Crashed \/ fixed (dequeueOne t c) = fixed c.
Proof. unfold dequeueOne. repeat case_match; by right. Qed.

Lemma endVisit_fixed c : at_ (endVisit c) = Visit /\ ctxDone (endVisit c) = ctxDone c /\ (visits (endVisit c) <= visits c - 1)%nat.
Proof.
  unfold endVisit, visits. destruct (todo1 c) as [|i l] eqn:E.
  - cbn. split; [done|]. split; [done|]. destruct (todo2 c); cbn; weigh.
  - split; [done|]. split; [|cbn; weigh]. pose proof (fixed_unboost c) as H. unfold fixed in H. injection H as H _. exact H.
Qed.
Lemma endVisit_remaining c c' : ctxDone c = true -> visits c' = visits c -> ctxDone c' = true -> (perVisit * (visits c - 1) + 2 < remaining c)%nat -> ends c (endVisit c').
Proof.
  intros Hc Hv Hc' Hr. destruct (endVisit_fixed c') as (Ha & Hd & Hle). unfold ends. rewrite Hd, Ha. split; [done|]. split; [done|].
  eapply Nat.le_lt_trans; [|exact Hr]. unfold remaining. rewrite Ha, <- Hv. unfold perVisit. weigh.
Qed.

Section ending.
Context (o : oracle) (t : ShardTask) (c : SchedulerCore) (Hdone : ctxDone c = true).

Lemma goto_ends p c' : ctxDone c' = true -> visits c' = visits c -> p <> Sleeping ->
  (match p with Crashed => 0 | _ => perVisit * (visits c - 1) + 2 + inVisit p end < remaining c)%nat -> (match p with Top | Sleep | Woken | Visit | Stopped => False | _ => True end) -> ends c (goto p c').
Proof.
  intros Hc Hv Hp Hr Hk. split; [done|]. split; [done|]. eapply Nat.le_lt_trans; [|exact Hr]. unfold remaining. cbn [at_ goto].
  change (visits (goto p c')) with (visits c'). rewrite Hv. by destruct p.
Qed.
Lemma noBatch_ends c' : ctxDone c' = true -> visits c' = visits c -> (perVisit * (visits c - 1) + 2 + 9 < remaining c)%nat -> ends c (noBatch c').
Proof.
  intros Hc Hv Hr. unfold noBatch. destruct (todo1 c'); [by apply goto_ends|]. apply endVisit_remaining; [done|done|done|weigh].
Qed.
Lemma dequeueOne_ends c' : ctxDone c' = true -> visits c' = visits c -> (perVisit * (visits c - 1) + 2 < remaining c)%nat -> ends c (endVisit (dequeueOne t c')).
Proof.
  intros Hc Hv Hr. assert (fixed (dequeueOne t c') = fixed c') as H by (unfold dequeueOne; by repeat case_match).
  unfold fixed in H. injection H as H1 H2 H3. apply endVisit_remaining; [done|unfold visits in *; by rewrite H2, H3|congruence|done].
Qed.

Lemma PeekItems_length n t' l : PeekItems n t = Some (t', l) -> (length l <= Z.to_nat n)%nat.
Proof.
  unfold PeekItems. case_match; [intros [= _ <-]; cbn; weigh|]. destruct (PeekN (Z.to_nat n) (queue t)) as [|p l'] eqn:E; [intros [= _ <-]; cbn; weigh|].
  assert (length (p :: l') <= Z.to_nat n)%nat as Hlen.
  { rewrite <- E. unfold PeekN. rewrite length_app, length_map, length_take.
    assert (forall k r (q : MPSCExtQueue item), (length (peekRing k r q) <= k)%nat) as Hr by (induction k as [|k IH]; intros; cbn; [weigh|case_match; cbn; [specialize (IH (r + 1) q); weigh|weigh]]).
    specialize (Hr (Z.to_nat n) (readIdx (queue t)) (queue t)). weigh. }
  destruct (unbox (p :: l')) as [l1|] eqn:E1; [|done]. intros [= _ <-].
  enough (forall a b, unbox a = Some b -> length b = length a) as Hu by (rewrite (Hu _ _ E1); done).
  clear. induction a as [|x a IH]; intros b; [by intros [= <-]|]. cbn. destruct x; [|done]. cbn. destruct (unbox a) as [b'|]; [|done]. intros [= <-]. cbn. by rewrite (IH b').
Qed.

Lemma visit_ends : inVisit (at_ c) <> 0%nat -> ends c (visit o t c).
Proof.
  intros Hin. assert (remaining c = (perVisit * (visits c - 1) + 2 + inVisit (at_ c))%nat) as Hr by (unfold remaining; by destruct (at_ c)).
  assert (forall t', ctxDone (set_current t' c) = true) as Hset by done.
  unfold visit. destruct (at_ c) as [| | | | | | | |size|k|[|x todo] done_|done_|done_| |x|x st] eqn:E; cbn [inVisit] in *; try done.
  - destruct (PeekItem t) as [[t' r]|]; apply goto_ends; try done; rewrite Hr; cbn [inVisit]; weigh.
  - case_match; [apply noBatch_ends; try done; weigh|]. destruct (Z.ltb_spec batchBufferLen (Z.min size (QueueLen t))) as [|Hk]; apply goto_ends; try done; rewrite Hr; cbn [inVisit]; [weigh|].
    unfold batchBufferLen in Hk. weigh.
  - destruct (PeekItems k t) as [[t' l]|] eqn:Ep; [|apply goto_ends; try done; weigh]. case_match; [apply noBatch_ends; try done; weigh|apply goto_ends; try done].
    apply PeekItems_length in Ep. rewrite Hr. cbn [inVisit]. weigh.
  - apply goto_ends; try done. rewrite Hr. cbn [inVisit length]. weigh.
  - apply goto_ends; try done. rewrite Hr. cbn [inVisit length]. weigh.
  - destruct (DequeueItems (zlen done_) t) as [t' d]. apply goto_ends; try done. rewrite Hr. cbn [inVisit]. weigh.
  - apply endVisit_remaining; try done. weigh.
  - destruct (PeekItem t) as [[t' [x|]]|]; [apply goto_ends; try done; rewrite Hr; cbn [inVisit]; weigh|apply endVisit_remaining; try done; weigh|apply goto_ends; try done; weigh].
  - apply goto_ends; try done. rewrite Hr. cbn [inVisit]. weigh.
  - assert (perVisit * (visits c - 1) + 2 < remaining c)%nat by weigh. unfold finish. repeat case_match; by (apply dequeueOne_ends || apply endVisit_remaining).
Qed.
End ending.

(** An action of the loop of a cancelled core that has not ended. *)
Lemma next_ends o c : ctxDone c = true -> at_ c <> Sleeping -> over c = false -> ends c (next o c).
Proof.
  intros Hc Hs Ho. unfold over in Ho. unfold next.
  assert (inVisit (at_ c) <> 0%nat -> ends c (match currentTask c with Some t => visit o t c | None => goto Crashed c end)) as Hv.
  { intros Hin. destruct (currentTask c); [by apply visit_ends|]. split; [done|]. split; [done|]. unfold remaining at 2. cbn. destruct (at_ c); cbn in *; weigh. }
  destruct (at_ c) eqn:E; try done; try (by apply Hv).
  - rewrite Hc. split; [done|]. split; [done|]. unfold remaining. rewrite E. cbn. weigh.
  - cbn [ctxDone addWait set_stats]. rewrite Hc. split; [done|]. split; [done|]. unfold remaining. rewrite E. cbn. weigh.
  - rewrite Hc. split; [done|]. split; [done|]. unfold remaining. rewrite E. cbn. weigh.
  - destruct (todo1 c) as [|i l] eqn:E1.
    + destruct (todo2 c) as [|i l] eqn:E2; (split; [done|]; split; [done|]); unfold remaining, visits; rewrite E; cbn [at_ goto todo1 todo2 inVisit]; rewrite ?E1, ?E2; cbn; weigh.
    + destruct (currentTask c) as [t|]; [destruct (priorityBoost t)|]; (split; [done|]; split; [done|]); unfold remaining, visits; rewrite E; cbn [at_ goto set_todo todo1 todo2 inVisit]; rewrite ?E1; cbn; weigh.
Qed.

(** Actions of the loop among others. *)
Fixpoint loops (l : list action) : nat := match l with [] => 0 | Loop _ :: l => S (loops l) | _ :: l => loops l end.

Lemma other_remaining a c : ctxDone c = true -> at_ c <> Sleeping -> (forall o, a <> Loop o) -> ctxDone (act a c) = true /\ at_ (act a c) = at_ c /\ remaining (act a c) = remaining c.
Proof.
  intros Hc Hs Ha. destruct a as [o|x time n| |]; [by destruct (Ha o)| | |done].
  - cbn [act]. by destruct (tasks c !! n).
  - cbn [act]. destruct (wakes c) as [|k]; [done|]. unfold wakeup. cbn [at_ set_wakes]. by destruct (at_ c) eqn:E.
Qed.


(** ** Registration on all cores *)

(** The cores of a manager that has registered [l] on [n] cores. *)
Definition idle (l : list taskInfo) : SchedulerCore := set_reg (registerAll l) NewSchedulerCore.
Definition orders (l : list taskInfo) : gmap Z string := foldl (fun o i => <[executionOrder i := name i]> o) ∅ l.
Definition registeredAre (n : nat) (l : list taskInfo) m : Prop :=
  cores m = replicate n (idle l) /\ registeredOrders m = orders l /\ running m = false /\ NoDup (map executionOrder l) /\ NoDup (map name l).

Lemma startLoop_idle l : startLoop (idle l) = startCore (registerAll l).
Proof. done. Qed.

Lemma registerAll_snoc l i : registerAll (l ++ [i]) = (RegisterCore i (registerAll l)).1.
Proof. unfold registerAll. by rewrite foldl_app. Qed.

Lemma registerCores_fresh l i n k : taskMap (registerAll l) !! name i = None ->
  registerCores i k (replicate n (idle l)) = (replicate n (idle (l ++ [i])), Ret None).
Proof.
  intros Hi. revert k. induction n as [|n IH]; intros k; [done|]. cbn [replicate registerCores]. change (reg (idle l)) with (registerAll l).
  rewrite IH. unfold idle. rewrite registerAll_snoc. unfold RegisterCore. by rewrite Hi.
Qed.
Lemma registerCores_taken l i n k : is_Some (taskMap (registerAll l) !! name i) -> exists e, registerCores i k (replicate (S n) (idle l)) = (replicate (S n) (idle l), Ret (Some e)) /\ Is e (sent "ErrTaskAlreadyRegistered") = true.
Proof.
  intros [t Ht]. cbn [replicate registerCores]. change (reg (idle l)) with (registerAll l). unfold RegisterCore. rewrite Ht.
  eexists. split; [reflexivity|]. reflexivity.
Qed.
Lemma orders_lookup l o : is_Some (orders l !! o) <-> o ∈ map executionOrder l.
Proof.
  unfold orders. induction l as [|i l IH] using rev_ind; [cbn; split; [by intros [? ?%lookup_empty_Some]|by intros ?%not_elem_of_nil]|].
  rewrite foldl_app, map_app, elem_of_app, <- IH. cbn. rewrite lookup_insert_is_Some', list_elem_of_singleton. naive_solver.
Qed.

(** What a registration does, and that what it answers tells which. *)
Lemma register_one n l m i : (0 < n)%nat -> registeredAre n l m ->
  let '(m', e) := RegisterTask i m in
  (e = Ret None /\ registeredAre n (l ++ [i]) m') \/
  (m' = m /\ exists err, e = Ret (Some err) /\ (executionOrder i ∈ map executionOrder l /\ Is err (sent "ErrExecutionOrderConflict") = true \/
     name i ∈ map name l /\ Is err (sent "ErrTaskAlreadyRegistered") = true)).
Proof.
  intros Hn (Hc & Ho & Hr & Hd1 & Hd2). unfold RegisterTask. rewrite Ho. destruct (orders l !! executionOrder i) as [existing|] eqn:E.
  - right. split; [done|]. eexists. split; [reflexivity|]. left. split; [apply orders_lookup; by eexists|done].
  - assert (executionOrder i ∉ map executionOrder l) as Hno by (rewrite <- orders_lookup, E; by intros [? [=]]).
    rewrite Hc. destruct (registerAll_ok l) as (_ & Hnames & _). destruct (decide (name i ∈ map name l)) as [Hin|Hin].
    + destruct n as [|n]; [lia|]. destruct (registerCores_taken l i n 0 (proj2 (Hnames _) Hin)) as (e & -> & He).
      right. split; [rewrite <- Hc; by destruct m|]. exists e. split; [done|]. by right.
    + assert (taskMap (registerAll l) !! name i = None) as Hi by (apply eq_None_not_Some; by rewrite Hnames). rewrite (registerCores_fresh l i n 0 Hi). left. split; [done|].
      unfold registeredAre. cbn [cores registeredOrders running set_cores]. split; [done|]. split; [rewrite Ho; unfold orders; by rewrite foldl_app|]. split; [done|].
      rewrite !map_app, !NoDup_app. cbn. split; (split; [done|]); (split; [|apply NoDup_singleton]); intros y Hy ->%list_elem_of_singleton; done.
Qed.
#[local] Opaque RegisterTask.

(** The registrations of a start-up; the answers are not looked at. *)
Definition registerTasks (l : list taskInfo) m : TaskScheduler := foldl (fun m i => (RegisterTask i m).1) m l.

(** Registration is all or nothing and the same on all cores: after any
    registrations on a new manager, the cores have the tasks whose order and name
    were free, in that order, a further one is either added to all cores or refused
    with an error that names what is taken and changes nothing, and the loops start
    on exactly these tasks. *)
Theorem registration_agrees count cpu l i : 0 < count -> 
  let m := registerTasks l (NewTaskScheduler count cpu) in exists l' : list taskInfo, sublist l' l /\ NoDup (map executionOrder l') /\ NoDup (map name l') /\
  cores (Start m).1 = replicate (Z.to_nat count) (startCore (registerAll l')) /\ (Start m).2 = None /\
  let '(m', e) := RegisterTask i m in
  (e = Ret None /\ cores (Start m').1 = replicate (Z.to_nat count) (startCore (registerAll (l' ++ [i])))) \/
  (m' = m /\ exists err, e = Ret (Some err) /\ (executionOrder i ∈ map executionOrder l' /\ Is err (sent "ErrExecutionOrderConflict") = true \/
     name i ∈ map name l' /\ Is err (sent "ErrTaskAlreadyRegistered") = true)).
Proof.
  intros Hn m. assert (exists l' : list taskInfo, sublist l' l /\ registeredAre (Z.to_nat count) l' m) as (l' & Hsub & H).
  { unfold m. clear m. induction l as [|j l IH] using rev_ind.
    - exists []. split; [done|]. unfold registeredAre, registerTasks, NewTaskScheduler. cbn. rewrite (proj2 (Z.leb_gt _ _)) by done. repeat split; apply NoDup_nil_2.
    - destruct IH as (l' & Hs & H). unfold registerTasks in *. rewrite foldl_app. cbn [foldl]. set (m := foldl _ _ l) in *.
      pose proof (register_one (Z.to_nat count) l' m j ltac:(lia) H) as Hj. destruct (RegisterTask j m) as [m' e]. cbn [fst].
      destruct Hj as [[_ Hj]|[-> _]]; [exists (l' ++ [j]); split; [by apply sublist_app|done]|exists l'; split; [by apply sublist_inserts_r|done]]. }
  assert (forall k m', registeredAre (Z.to_nat count) k m' -> cores (Start m').1 = replicate (Z.to_nat count) (startCore (registerAll k)) /\ (Start m').2 = None) as Hstart.
  { intros k m' (Hc & _ & Hr & _). unfold Start. rewrite Hr. cbn. rewrite Hc, fmap_replicate. done. }
  exists l'. split; [done|]. pose proof H as (_ & _ & _ & Hd1 & Hd2). destruct (Hstart l' m H) as [Hs1 Hs2]. repeat (split; [done|]).
  pose proof (register_one (Z.to_nat count) l' m i ltac:(lia) H) as Hi. destruct (RegisterTask i m) as [m' e]. destruct Hi as [[-> Hi]|Hi]; [left|by right].
  split; [done|]. by apply Hstart.
Qed.
#[local] Transparent RegisterTask.

(** ** Draining *)

Lemma size_holds (q : MPSCExtQueue item) l1 l2 : holds q l1 l2 -> zlen (l1 ++ l2) < 2 ^ 63 -> Size q = zlen (l1 ++ l2).
Proof.
  intros H Hl. pose proof (h_write _ _ _ H) as Hw. pose proof (h_len _ _ _ H) as Hn. rewrite zlen_app in *. pose proof (zlen_nonneg l1). pose proof (zlen_nonneg l2).
  unfold Size. rewrite Hw, Hn, Z.add_simpl_l, (u64_id (zlen l1)), (u64_id (zlen l2)), u64_id; unfold is_u64; lia.
Qed.

(** The loop takes every item, from the ring and the overflow. *)
Lemma drainLoop_all fuel t l1 l2 : holds (queue t) l1 l2 -> zlen (l1 ++ l2) < 2 ^ 63 -> (length (l1 ++ l2) < fuel)%nat ->
  exists t', drainLoop fuel t = Some (t', l1 ++ l2, - zlen (l1 ++ l2)) /\ info t' = info t /\ holds (queue t') [] [].
Proof.
  revert t l1 l2. induction fuel as [|fuel IH]; intros t l1 l2 H Hl Hf; [lia|]. cbn [drainLoop]. unfold QueueLen. rewrite (size_holds _ _ _ H Hl).
  destruct (l1 ++ l2) as [|x l] eqn:E.
  - apply app_nil in E as [-> ->]. by exists t.
  - rewrite zlen_cons. pose proof (zlen_nonneg l). rewrite (proj2 (Z.leb_gt _ _)) by lia. unfold PeekItem. rewrite (peek_holds _ _ _ H), E. cbn [List.hd_error fmap option_fmap option_map].
    unfold DequeueItem, Dequeue. cbn [queue set_status]. rewrite (peek_holds _ _ _ H), E. cbn.
    assert (zlen l2 < 2 ^ 63) as Hl2 by (rewrite <- E, zlen_app in Hl; pose proof (zlen_nonneg l1); lia).
    destruct (commit_holds (queue t) x l1 l2 l H Hl2 E) as (l1' & l2' & H' & -> & _). rewrite zlen_cons in Hl.
    destruct (IH (set_queue (Commit (queue t)) (set_status TaskExecuting t)) l1' l2' H' ltac:(lia) ltac:(cbn in Hf; lia)) as (t' & -> & Ei & Ht').
    exists t'. split; [|by split]. cbn. do 2 f_equal. lia.
Qed.
Lemma drainTask_holds t l1 l2 : holds (queue t) l1 l2 -> zlen (l1 ++ l2) < 2 ^ 63 ->
  exists t', drainTask t = Some (t', l1 ++ l2, - zlen (l1 ++ l2)) /\ info t' = info t /\ holds (queue t') [] [].
Proof. intros H Hl. apply drainLoop_all; [done|done|]. unfold QueueLen. rewrite (size_holds _ _ _ H Hl). unfold zlen. lia. Qed.

(** What the queues of a list of tasks hold. *)
Definition left_over (l : list (string * ShardTask)) : list (string * item) := concat (map (fun p => map (pair p.1) (items (queue p.2))) l).

Lemma ofTask_left l n t : NoDup l.*1 -> (n, t) ∈ l -> ofTask n (left_over l) = items (queue t).
Proof.
  induction l as [|[m u] l IH]; [by intros _ ?%not_elem_of_nil|]. cbn [fmap list_fmap fst]. intros [Hm Hd]%NoDup_cons Hin.
  unfold left_over. cbn [map concat fst snd]. fold (left_over l). rewrite ofTask_app, ofTask_pairs. apply elem_of_cons in Hin as [[= -> ->]|Hin].
  - rewrite decide_True by done. rewrite <- (app_nil_r (items (queue u))) at 2. f_equal.
    clear IH Hd. induction l as [|[k v] l IH]; [done|]. unfold left_over. cbn [map concat fst snd]. fold (left_over l). rewrite ofTask_app, ofTask_pairs.
    cbn in Hm. rewrite not_elem_of_cons in Hm. destruct Hm as [Hk Hm]. rewrite decide_False by done. by apply IH.
  - rewrite decide_False; [by apply IH|]. intros ->. destruct Hm. apply list_elem_of_fmap. by exists (n, t).
Qed.
Lemma ofTask_left_none l n : (n ∉ l.*1) -> ofTask n (left_over l) = [].
Proof.
  induction l as [|[m u] l IH]; [done|]. cbn [fmap list_fmap fst]. rewrite not_elem_of_cons. intros [Hm Hn].
  unfold left_over. cbn [map concat fst snd]. fold (left_over l). rewrite ofTask_app, ofTask_pairs, decide_False by done. by apply IH.
Qed.

(** All tasks, in any order: nothing stays, every item is given out. *)
Lemma drainTasks_holds l (m : gmap string ShardTask) total : NoDup l.*1 -> (forall n t, (n, t) ∈ l -> holds (queue t) (items (queue t)) []) ->
  zlen (left_over l) < 2 ^ 62 -> zlen (left_over l) - 2 ^ 63 <= total -> total < 2 ^ 63 ->
  exists m' : gmap string ShardTask, drainTasks l m total = Some (m', total - zlen (left_over l), left_over l) /\
    (forall n t, (n, t) ∈ l -> exists t', m' !! n = Some t' /\ info t' = info t /\ holds (queue t') [] []) /\ (forall n, (n ∉ l.*1) -> m' !! n = m !! n).
Proof.
  revert m total. induction l as [|[n t] l IH]; intros m total Hd Hl Hlen H1 H2.
  - exists m. cbn. rewrite Z.sub_0_r. split; [done|]. split; [by intros ? ? ?%not_elem_of_nil|done].
  - cbn [fmap list_fmap fst] in Hd. apply NoDup_cons in Hd as [Hn Hd]. unfold left_over in *. cbn [map concat fst snd] in *. fold (left_over l) in *. rewrite zlen_app in *.
    replace (zlen (map (pair n) (items (queue t)))) with (zlen (items (queue t))) in * by (unfold zlen; by rewrite length_map).
    pose proof (zlen_nonneg (left_over l)). pose proof (zlen_nonneg (items (queue t))).
    destruct (drainTask_holds t (items (queue t)) []) as (t' & E & Ei & Hq'); [apply (Hl n); left|rewrite app_nil_r; lia|]. rewrite app_nil_r in E.
    destruct (IH (<[n := t']> m) (total + - zlen (items (queue t)))) as (m' & Em & Hin & Hout); [done|by intros k u Hk; apply (Hl k u); right|lia..|].
    exists m'. split; [|split].
    + cbn [drainTasks]. rewrite E. cbn [mbind option_bind]. rewrite i64_id by (unfold is_i64; lia). rewrite Em. cbn [mbind option_bind]. do 3 f_equal. lia.
    + intros k u [[= -> ->]|Hk]%elem_of_cons; [|by apply Hin]. exists t'. by rewrite (Hout n Hn), lookup_insert_eq.
    + intros k. cbn [fmap list_fmap fst]. rewrite not_elem_of_cons. intros [Hk Hk']. by rewrite (Hout k Hk'), lookup_insert_ne.
Qed.

(** A core whose queues did not overflow. *)
Lemma drainCore_good c order : inv c -> zlen (arrived c) < 2 ^ 62 -> order ≡ₚ map_to_list (tasks c) ->
  exists c' xs, drainCore order c = Some (c', xs) /\ totalQueueItems c' = 0 /\ arrived c' = arrived c /\ removed c' = removed c /\ executed c' = executed c /\ at_ c' = at_ c /\ ctxDone c' = ctxDone c /\
    (forall n t, tasks c' !! n = Some t -> holds (queue t) [] [] /\ ofTask n (arrived c) = ofTask n (removed c) ++ ofTask n xs).
Proof.
  intros I Hlen Hp. assert (NoDup order.*1) as Hd by (rewrite Hp; apply NoDup_fst_map_to_list).
  assert (forall n t, (n, t) ∈ order <-> tasks c !! n = Some t) as Hin by (intros n t; by rewrite Hp, elem_of_map_to_list).
  assert (forall n t, (n, t) ∈ order -> holds (queue t) (items (queue t)) [] /\ ofTask n (arrived c) = ofTask n (removed c) ++ items (queue t)) as Hq.
  { intros n t Ht%Hin. destruct (i_queue _ I n (queue t)) as (H1 & _ & H2); [unfold queues; by rewrite lookup_fmap, Ht|done]. }
  assert (forall n, ofTask n (arrived c) = ofTask n (removed c) ++ ofTask n (left_over order)) as Hof.
  { intros n. destruct (tasks c !! n) as [t|] eqn:Et.
    - apply Hin in Et. rewrite (ofTask_left _ n t) by done. by apply Hq.
    - assert (queues c !! n = None) as E by (unfold queues; by rewrite lookup_fmap, Et). rewrite (arrived_none c n I E), (removed_none c n I E), ofTask_left_none; [done|].
      intros ([k t] & -> & Hk)%list_elem_of_fmap. apply Hin in Hk. cbn in Et. congruence. }
  assert (zlen (arrived c) = zlen (removed c) + zlen (left_over order)) as Hz.
  { rewrite <- zlen_app. unfold zlen. f_equal. apply Nat.le_antisymm; eapply count_le; try done; intros n; by rewrite ofTask_app, Hof. }
  pose proof (zlen_nonneg (removed c)). pose proof (i_total _ I) as Ht. pose proof (zlen_nonneg (left_over order)).
  destruct (drainTasks_holds order (tasks c) (totalQueueItems c)) as (m' & Em & Hm & Hout); [done|by intros n t Hnt; apply (Hq n t Hnt)|lia..|].
  unfold drainCore. rewrite Em. eexists _, (left_over order). split; [reflexivity|]. cbn [totalQueueItems arrived removed executed at_ ctxDone]. split; [lia|].
  do 5 (split; [done|]). unfold tasks at 1. cbn [reg taskMap]. intros n t Ht'. split; [|done].
  destruct (decide (n ∈ order.*1)) as [([k u] & -> & Hk)%list_elem_of_fmap|Hno].
  - destruct (Hm k u Hk) as (t' & Et' & _ & Hh). cbn in Ht'. congruence.
  - rewrite (Hout n Hno) in Ht'. apply Hin in Ht'. destruct Hno. apply list_elem_of_fmap. by exists (n, t).
Qed.

(** ** What Stop leaves, and a start after it *)

Lemma stopCore_steps c : rtc step c (stopCore c).
Proof.
  eapply rtc_l; [apply step_cancel|]. eapply rtc_l; [apply (step_signal _ (wakes c)); done|]. apply rtc_refl.
Qed.


Lemma act_done a c : ctxDone c = true -> ctxDone (act a c) = true.
Proof.
  intros Hc. destruct a as [o|x time n| |]; [|cbn [act]; by destruct (tasks c !! n)| |done].
  - change (act (Loop o) c) with (next o c). assert (at_ c = Sleeping \/ at_ c <> Sleeping) as [E|E] by (destruct (at_ c); auto); [unfold next; by rewrite E|].
    destruct (over c) eqn:Ho; [unfold next, over in *; by destruct (at_ c)|]. by apply next_ends.
  - cbn [act]. destruct (wakes c) as [|k]; [done|]. unfold wakeup. by destruct (at_ (set_wakes k c)).
Qed.
Lemma step_act c c' : step c c' -> exists a, c' = act a c.
Proof.
  intros [o|x time n t Ht|k Hk|]; [by exists (Loop o)| | |by exists Cancel].
  - exists (Put x time n). cbn. by rewrite Ht.
  - exists Signal. cbn. by rewrite Hk.
Qed.
Lemma steps_done c c' : rtc step c c' -> ctxDone c = true -> ctxDone c' = true.
Proof. induction 1 as [|c1 c2 c3 Hs _ IH]; [done|]. intros H. apply IH. destruct (step_act _ _ Hs) as [a ->]. by apply act_done. Qed.

(** A cancelled loop at its head goes no further. *)
Definition deaf c : Prop := ctxDone c = true /\ (at_ c = Top \/ at_ c = Stopped).
Lemma act_deaf a c : deaf c -> deaf (act a c) /\ executed (act a c) = executed c /\ removed (act a c) = removed c.
Proof.
  intros H. pose proof H as [Hc Ha]. destruct a as [o|x time n| |].
  - change (act (Loop o) c) with (next o c). unfold next. destruct Ha as [-> | ->]; [|done]. rewrite Hc. split; [by split; [|right]|done].
  - cbn [act]. by destruct (tasks c !! n).
  - cbn [act]. destruct (wakes c) as [|k]; [done|]. unfold wakeup. change (at_ (set_wakes k c)) with (at_ c). destruct Ha as [E|E]; rewrite E; (split; [by split; cbn; [|rewrite E; auto]|done]).
  - done.
Qed.
Lemma run_deaf l c : deaf c -> executed (run l c) = executed c /\ removed (run l c) = removed c.
Proof.
  revert c. induction l as [|a l IH]; intros c H; [done|]. change (run (a :: l) c) with (run l (act a c)).
  destruct (act_deaf a c H) as (H1 & H2 & H3). destruct (IH _ H1) as [-> ->]. by rewrite H2, H3.
Qed.

(** A manager that is started again after [Stop] takes items and never executes
    one: [Start] succeeds, but its loops find their contexts cancelled and return,
    so that whatever happens on a core nothing is executed or removed. *)
Theorem restart_is_deaf m m1 out : running m = true -> Stop m m1 out ->
  (Start m1).2 = None /\ running (Start m1).1 = true /\ length (cores (Start m1).1) = length (cores m) /\
  Forall (fun c => forall l, executed (run l c) = executed c /\ removed (run l c) = removed c) (cores (Start m1).1) /\
  (forall text x id r n time, shard x = Some (id, r) -> 0 < id -> (exists c, cores (Start m1).1 !! Z.to_nat (Z.rem id (coreCount (Start m1).1)) = Some c /\ is_Some (tasks c !! n)) ->
     (EnqueueWithShard text x n time (Start m1).1).2 = Ret None).
Proof.
  intros Hr HS. destruct HS as [Hr'|l out Hr' HF]; [congruence|]. unfold Start. cbn [running set_cores set_running cores fst snd].
  split; [done|]. split; [done|]. split; [rewrite length_map; by apply Forall3_length_lm in HF|]. split.
  - apply Forall_map. clear Hr Hr'. induction HF as [|c c' xs cs cs' xss H _ IH]; [constructor|]. constructor; [|done]. intros acts.
    destruct H as (mid & order & [Hw _] & _ & Hd). apply (run_deaf acts (startLoop c')). split; [|by left].
    assert (ctxDone (stopCore c) = true) as Hs by (unfold stopCore, wakeup; by destruct (at_ (set_wakes (wakes c) (cancel c)))).
    pose proof (steps_done _ _ Hw Hs) as Hm. unfold drainCore in Hd.
    destruct (drainTasks order (tasks mid) (totalQueueItems mid)) as [[[a b] d]|]; [|done]. cbn in Hd. by injection Hd as <- _.
  - set (m2 := set_cores (map startLoop l) _). intros text x id r n time Hx Hid (c & Hc & t & Ht). change (cores m2 !! Z.to_nat (Z.rem id (coreCount m2)) = Some c) in Hc. unfold EnqueueWithShard. change (running m2) with true. cbn [negb].
    unfold ShardID. rewrite Hx. unfold coreIndexOf. rewrite (proj2 (Z.eqb_neq _ _)), (proj2 (Z.ltb_lt _ _)) by lia.
    replace (zlen (map totalQueueItems (cores m2))) with (coreCount m2) by (unfold coreCount, zlen; by rewrite length_map).
    assert (0 < coreCount m2) as Hpos by (apply lookup_lt_Some in Hc; unfold coreCount, zlen; lia).
    rewrite (proj2 (Z.ltb_ge _ _)) by (apply Z.rem_bound_pos; lia). cbn [cores]. rewrite Hc, Ht. done.
Qed.

(** A manager of one core, with one task. *)
Definition oneCore : TaskScheduler := (Start (RegisterTask write (NewTaskScheduler 1 8)).1).1.

(** A stop of it after an item was enqueued, before the loop has looked. *)
Definition loaded : TaskScheduler := (EnqueueWithShard (fun n _ => n) (mkItem 0 (Some (1, 0)) None) "write" 1 oneCore).1.
Lemma loaded_cores : cores loaded = [run [put (mkItem 0 (Some (1, 0)) None); Signal] begin].
Proof. vm_compute. reflexivity. Qed.
Lemma loaded_stops : exists m out, Stop loaded m out /\ Forall (fun c => overflowed c = false /\ zlen (arrived c) < 2 ^ 62) (cores m) /\ out = [[("write", mkItem 0 (Some (1, 0)) None)]].
Proof.
  set (mid := run [stay] (stopCore (run [put (mkItem 0 (Some (1, 0)) None); Signal] begin))).
  destruct (drainCore (map_to_list (tasks mid)) mid) as [[c' xs]|] eqn:E; [|by vm_compute in E].
  exists (set_cores [c'] (set_running false loaded)), [xs]. assert (xs = [("write", mkItem 0 (Some (1, 0)) None)] /\ overflowed c' = false /\ zlen (arrived c') = 1) as (-> & Ho & Ha).
  { vm_compute in E. by injection E as <- <-. }
  split; [|split; [|reflexivity]].
  - apply Stop_running; [vm_compute; reflexivity|]. rewrite loaded_cores.
    constructor; [|constructor]. exists mid, (map_to_list (tasks mid)). split; [split; [apply run_steps|vm_compute; reflexivity]|split; [reflexivity|exact E]].
  - constructor; [|constructor]. split; [exact Ho|rewrite Ha; reflexivity].
Qed.
Lemma loaded_reachable : Forall (fun c => exists l, reachable l c) (cores loaded).
Proof. rewrite loaded_cores. constructor; [exists [write]; apply begin_reachable|constructor]. Qed.

Lemma restart_is_deaf_witness : exists m, (Start m).2 = None /\ running (Start m).1 = true /\ length (cores (Start m).1) = 1%nat.
Proof.
  destruct loaded_stops as (m & out & HS & _). exists m. destruct (restart_is_deaf loaded m out eq_refl HS) as (H1 & H2 & H3 & _). done.
Defined.
Lemma registration_agrees_witness : exists l : list taskInfo, sublist l [write] /\ cores (Start (RegisterTask write (NewTaskScheduler 2 8)).1).1 = replicate 2 (startCore (registerAll l)).
Proof.
  destruct (registration_agrees 2 8 [write] write eq_refl) as (l & H1 & _ & _ & H2 & _). exists l. by split.
Defined.
